(* ===== verification/_CoqProject ===== *)
-Q . S2P
Prelude.v
BitOps.v
Config.v
SizeClasses.v
PageState.v
IntrusiveList.v
Bootstrap.v
VmArena.v
ArenaThreads.v
VmTrack.v
VmRegion.v
Span.v
SpanFacts.v
SpanCorrect.v
PageMap.v
Slab.v
SlabFacts.v
SlabOps.v
SlabCorrect.v
SlabBatch.v
ThreadCache.v
ThreadCacheCorrect.v
Drain.v
LargeCache.v
LargeAlloc.v
LargeCorrect.v
LargeOps.v
SlabFrame.v
HeapStore.v
HeapSteps.v
CallSite.v
Heap.v
HeapInv.v
HeapCorrect.v
HeapHooks.v
HeapLean.v
HeapTheorems.v
BlobStore.v
BlobFacts.v
BlobCorrect.v
StoreCalls.v
CompressStore.v
SpillStore.v
StoresCorrect.v
WKdm.v
Double.v
Stats.v
Engine.v
PageProg.v
PageWorld.v
Roi.v
PageOps.v
PageSafe.v
PageFault.v
PageCompress.v
PageTiers.v
PageTransparency.v
PageTraces.v
Scan.v
Profile.v
ProfileCorrect.v
Calibration.v
CalibrationCorrect.v
Workers.v
Dispatch.v
VmaBudget.v
SoftDirty.v
Tick.v
Budget.v
FaultHandler.v
Mappings.v
Syscalls.v
SyscallsCorrect.v
MacCalls.v
MacCorrect.v
CompressOnly.v
