(* ===== verification/Prelude.v ===== *)
(** * A verification development for the smash allocator

    smash is a malloc replacement that compresses cold pages in place.  This
    library models its heap from the entry points down, its blob stores, its
    codecs, the life of a page in the compressor, the threads and the policy that
    drive it, the fault handler and the wrappers of system calls, and proves them
    correct.  The definitions follow the C++ sources under src/; each one that
    translates code is preceded by a comment with the file, the lines and the
    symbol.

    How the parts interact: an allocation goes through the heap front end to a
    thread cache, a slab or the large allocator, which take pages from the page
    region.  The coordinator thread ticks once a second; its workers scan the
    pages, and compress cold ones into the blob stores with the codec the policy
    selects from the statistics.  An access to a compressed page faults, and the
    signal handler restores it; a system call that would see EFAULT instead is
    retried by its wrapper after the buffers were touched.

    ** The program and the files that model it

    - Machine integers, arrays, bit operations: [Prelude], [BitOps]
      (src/util/bitops.h).
    - Configuration: [Config] (include/smash/config.h).  The page size is a class
      [PageGeometry] with the two geometries the code is built for.
    - Size classes: [SizeClasses] (src/core/size_classes.h).
    - Page states and page locks: [PageState] (src/vm/page_state.h).  The lock is
      a system of threads that take atomic steps.
    - Intrusive lists: [IntrusiveList] (src/util/intrusive_list.h), as pointers
      in a store, with a refinement to lists.
    - Metadata allocator: [Bootstrap] (src/core/bootstrap_alloc.h).
    - Page region: [VmArena] (page runs, decommit queue and thread),
      [ArenaThreads] (the same calls as interleaved accesses of threads), [VmTrack]
      (hash table of external pages), [VmRegion] (page indices, span table), all
      from src/vm/vm_region.h.
    - Spans: [Span], [SpanFacts], [SpanCorrect] (src/core/span.h).
    - Page map: [PageMap] (src/core/page_map.h).
    - Slabs: [Slab] has the operations (src/core/slab.h), [SlabFacts] the
      invariant, [SlabOps], [SlabCorrect] and [SlabBatch] its preservation.  The
      span descriptors, the page map, the page states and the counters that slabs
      share form the record [World].
    - Thread caches: [ThreadCache], [ThreadCacheCorrect], [Drain]
      (src/core/thread_cache.h, src/smash_heap.cpp).
    - Large blocks: [LargeCache] (size grid and cache of freed blocks),
      [LargeAlloc] (the allocator), [LargeCorrect], [LargeOps]
      (src/core/large_alloc.h), over the same [World].
    - Blob stores: [BlobStore] (region code of both stores, over a byte memory),
      [BlobFacts], [BlobCorrect], [StoreCalls], [CompressStore], [SpillStore],
      [StoresCorrect] (src/compress/compress_store.h, spill_store.h).
    - Heap front end (src/smash_heap.h, src/smash_heap.cpp): [CallSite] (routing
      by call site), [Heap] (the entry points over a state of all allocators),
      [HeapSteps] (the calls into slabs, region and large allocator as a monad),
      [SlabFrame], [HeapStore], [HeapInv], [HeapCorrect], [HeapHooks], [HeapLean]
      (lemmas) and [HeapTheorems].
    - Codecs: [WKdm] (src/compress/wkdm.h) and [Engine] (dispatch, packed page
      record and dictionaries of src/compress/compress_engine.h; zstd, LZ4 and
      ZDICT are the class [Codecs] with the laws [CodecLaws]).
    - Statistics and policy: [Double] (IEEE doubles), [Stats]
      (SizeClassStats of src/compress/compressor_thread.h), [Roi]
      (src/compress/compression_roi.h and the tier choice).
    - The life of a page (src/compress/compressor_thread.h): [PageProg] has
      programs of atomic accesses and their interleavings, [PageWorld] what the
      threads share about one page, [PageOps] the compressor's scans, compression,
      recompression, spilling, reclaim and sweeps, the fault handler, prefetch and
      release.  [PageSafe] is the invariant and its proof rules, [PageFault],
      [PageCompress] and [PageTiers] the programs' proofs, [PageTransparency] the
      theorems about every interleaving, [PageTraces] concrete ones.  [Scan] is how
      pages are split among workers and walked.
    - Worker threads (src/compress/compressor_thread.h): [Workers] (how many) and
      [Dispatch] (coordinator, helpers, fork and stop as interleaved steps).
    - A tick (same file): [Tick] (which phases it runs), [VmaBudget] (the limit on
      mappings and /proc/self/maps), [SoftDirty] (the kernel's access bits),
      [Budget] (the ranking of buckets by the time budget).
    - Policy set-up and files: [Calibration], [CalibrationCorrect]
      (src/compress/compression_roi.h), [Profile], [ProfileCorrect] (profile file
      and dictionary training of src/compress/compressor_thread.h).
    - Signals and system calls: [FaultHandler] (src/vm/fault_handler.h, Linux),
      [Syscalls], [SyscallsCorrect], [Mappings] (src/linux_syscall_wrappers.cpp,
      src/vm/syscall_compat.h), [MacCalls], [MacCorrect] (the interposed functions
      of macOS in src/smash_heap.cpp).
    - The measuring library: [CompressOnly] (src/compress_only).

    ** State and effects

    A w-bit integer is a [Z]; every operation that can wrap is written with
    [wrap].  State is passed explicitly.  Failure is an [option].  Code that runs
    under one lock is one step; what happens without a lock (page locks, the bump
    pointer of the arena, the decommit thread) is a step relation.  What the
    kernel, another thread or the environment decides is an argument: the
    [Oracle] record, or a function, with the assumption made about it stated as a
    hypothesis (a mapping is fresh, a descriptor is unused).  The code that runs
    concurrently with the application on one page is a program of atomic accesses
    ([PageProg]); its proofs are by rely and guarantee, sound for every
    interleaving ([PageProg.pool_safe]).

    ** What the theorems show

    Each handed-out object, page run, large block, metadata block and blob is
    disjoint from every other one, and nothing is lost: the invariants say that
    the pieces held and the pieces free tile what there is.  For the heap as a
    whole this holds through any history of calls for any number of threads,
    each call complete before the next begins, of at most 2^32 - 1 pages each, and a
    block keeps its bytes until it is freed, reallocated or written
    ([heap_history_safe], [heap_isolation]).  The page arena conserves its pages
    in every interleaving of its threads' accesses in which no request takes fresh
    pages while another one, that did not fit, is being undone
    ([arena_conservation]).  Compression is
    transparent: in the default mode, while the kernel grants every protection change
    and write through /proc/self/mem, an access that goes through sees the bytes
    last written, and a fault is resolved as soon as one of the fault slots is free
    ([page_transparency], [fault_resolves]; [fault_refused] is about a kernel that
    refuses); a wrapped system call answers as it would for accessible
    memory ([syscall_transparent], [mac_transparent]).  A dispatched phase is run by each active
    worker exactly once ([dispatch_barrier]), and the number of workers stays
    within its bounds ([worker_count_bounds]); a tick keeps the number of mappings
    below the kernel's limit ([tick_respects_limit]), and the buckets that may
    compress fit the time budget ([budget_respected]).  A calibration file loads
    back as saved, a profile is taken over with half its samples and the same averages,
    and the bytes of a file, whatever they are, leave every field in its range ([profile_roundtrip],
    [profile_load_typed], [calibration_roundtrip]).  Optimised routines
    equal their reference (reciprocal division, counting sort, batched page-map
    writes), concrete data structures refine abstract ones (lists, finite maps,
    stacks), refills, drains and free-list walks terminate with enough fuel, and
    failure happens only when memory is exhausted.  Where the code does not do
    what it means to, a theorem exhibits it on a concrete state
    ([bump_race_double_allocation], [large_size_truncated],
    [rejected_compression_loses_update], [refused_protection_loses_page],
    [reclaim_scan_misses], [mremap_move_loses], [raise_disables],
    [coordinator_waits_forever], [fast_tier_only_disables], [window_sum],
    [throughput_interpolates], [recvfrom_efault], [reinstalled_handler_recurses],
    [compressor_thread_on_heap], [mach_msg_sends_twice],
    [overwrite_in_place_fails], [refused_munmap_forgets], [weak_exchange_duplicates],
    [full_disk_loses_profile], [full_arena_counts_nothing]).

    ** Fuel

    Loops that are not structural take fuel, and a lemma shows that the amount
    given is enough: the span batch loops ([SlabBatch]), the free-list walk (no
    more nodes than sixteenths of the offset, [BlobFacts.free_count]), the size
    grid (no more sizes than pages, [LargeCache.elem_of_sizes]), the probe of the
    page hash ([VmTrack]), the level-2 tables of a page range ([PageMap]), the
    walks over a buffer and over a mapping, one page per step ([Syscalls],
    [Mappings]), the dictionaries of a profile, at least one byte per step
    ([Profile.load_dicts]), the helpers to create ([Workers.create_helpers]), the
    batches of the page map ([SoftDirty.read_contig_spec]) and the scans along
    equal pages ([VmaBudget.scan_left_spec]).  The
    nesting of signals in [FaultHandler] is bounded by the depth the handler
    itself checks.

    ** Not modelled

    Of src/compress/compressor_thread.h: statistics output and the counters of
    pages by cohort; a page is seen alone, and what its neighbours in a range
    decide is a choice. The fault slots are counted, not told apart. In [Heap] each call is one
    step, a decommitted page keeps its bytes in the
    memory of the model, and requests beyond 2^32 - 1 pages are excluded, as
    [large_size_truncated] shows what happens to them. The wrappers assume
    that the kernel answers as documented ([Syscalls]). Memory accesses of
    different threads are sequentially consistent. The Mach exception thread
    of macOS, the glue generated by alloc8, the report of the measuring
    library on macOS, spin locks and formatted output are not modelled: they
    are driven by structures of the system, or are one step of the model. Of
    src/vm/platform_mem.h the protection and decommit calls are modelled by
    their effect on a page. Benchmarks, tools and tests are not part of the
    program. *)

From Stdlib Require Export ZArith Lia Zdiv ZifyBool.
From stdpp Require Export base numbers option list gmap sets sorting.

#[export] Set Default Goal Selector "!".
Open Scope Z_scope.

(** ** Machine integers

    An unsigned [w]-bit integer is a [Z] in [0 .. 2^w - 1]; every place where
    the C++ arithmetic can wrap is written with [wrap]. *)

Declare Scope smash_scope.
Delimit Scope smash_scope with smash.
Open Scope smash_scope.

Definition wrap (w x : Z) : Z := x mod 2 ^ w.
Abbreviation u8 := (wrap 8).
Abbreviation u16 := (wrap 16).
Abbreviation u32 := (wrap 32).
Abbreviation u64 := (wrap 64).

(** Two's complement reading of a [w]-bit pattern. *)
Definition swrap (w x : Z) : Z :=
  let y := wrap w x in if y <? 2 ^ (w - 1) then y else y - 2 ^ w.
Abbreviation i32 := (swrap 32).
Abbreviation i64 := (swrap 64).

(** [1ULL << b] *)
Definition bit1 (b : Z) : Z := Z.shiftl 1 b.

(** ** Arrays

    A C array whose memory starts zeroed and which the code indexes by a
    machine integer is a list; reads outside it return the default and
    writes outside it do nothing.  Every theorem that depends on an access
    shows the index in range. *)

Definition zget {A} (d : A) (l : list A) (i : Z) : A :=
  if 0 <=? i then default d (l !! Z.to_nat i) else d.
Definition zset {A} (l : list A) (i : Z) (v : A) : list A :=
  if 0 <=? i then <[Z.to_nat i := v]> l else l.
Definition zlen {A} (l : list A) : Z := Z.of_nat (length l).

(** A large sparse array (one entry per page of the reservation) is a finite
    map read with the value its zeroed memory denotes. *)
Definition rd {A} (d : A) (m : gmap Z A) (i : Z) : A := default d (m !! i).

(** ** Counting

    [zcount P n] is the number of [i] in [0 .. n-1] with [P i]. *)

Fixpoint zcount (P : Z -> bool) (n : nat) : Z :=
  match n with
  | O => 0
  | S n' => zcount P n' + (if P (Z.of_nat n') then 1 else 0)
  end.

(** Sum of a list of integers. *)
Definition zsum (l : list Z) : Z := foldr Z.add 0 l.

(** ** Half-open integer intervals *)

Definition disjoint_iv (a la b lb : Z) : Prop := a + la <= b \/ b + lb <= a.

(** ** Tactics *)

(** Linear arithmetic with division and remainder by positive terms. *)
Ltac dlia := Z.to_euclidean_division_equations; lia.
Ltac dnia := Z.to_euclidean_division_equations; nia.

(** Split conjunctions in hypotheses and goal. *)
Ltac splits := repeat match goal with |- _ /\ _ => split end.
Ltac desand := repeat match goal with H : _ /\ _ |- _ => destruct H end.

(** Turn boolean comparisons into propositions. *)
Ltac b2p :=
  repeat match goal with
  | H : _ && _ = true |- _ => apply andb_true_iff in H; destruct H
  | H : _ || _ = false |- _ => apply orb_false_iff in H; destruct H
  | H : negb _ = true |- _ => apply negb_true_iff in H
  | H : negb _ = false |- _ => apply negb_false_iff in H
  | H : (_ <? _) = true |- _ => apply Z.ltb_lt in H
  | H : (_ <? _) = false |- _ => apply Z.ltb_ge in H
  | H : (_ <=? _) = true |- _ => apply Z.leb_le in H
  | H : (_ <=? _) = false |- _ => apply Z.leb_gt in H
  | H : (_ =? _) = true |- _ => apply Z.eqb_eq in H
  | H : (_ =? _) = false |- _ => apply Z.eqb_neq in H
  | H : bool_decide _ = true |- _ => apply bool_decide_eq_true in H
  | H : bool_decide _ = false |- _ => apply bool_decide_eq_false in H
  end.

(** Case analysis on an innermost boolean test of the goal. *)
Ltac no_if b := lazymatch b with context [if _ then _ else _] => fail | _ => idtac end.
Ltac case_if :=
  match goal with
  | |- context [if ?b then _ else _] => no_if b; let E := fresh "E" in destruct b eqn:E; b2p
  end.
Ltac case_if_in H :=
  match type of H with
  | context [if ?b then _ else _] => no_if b; let E := fresh "E" in destruct b eqn:E; b2p
  end.

Create HintDb smash.
Create HintDb smash_bits.

(** ** Lemmas: wrapping *)

Lemma wrap_small w x : 0 <= x < 2 ^ w -> wrap w x = x.
Proof. apply Z.mod_small. Qed.

Lemma wrap_bound w x : 0 <= w -> 0 <= wrap w x < 2 ^ w.
Proof. intros. apply Z.mod_pos_bound. lia. Qed.

Lemma wrap_le w x : 0 <= w -> 0 <= x -> wrap w x <= x.
Proof. intros. apply Z.mod_le; lia. Qed.

Lemma i32_small x : - 2 ^ 31 <= x < 2 ^ 31 -> i32 x = x.
Proof.
  intros Hx. unfold swrap, wrap. cbv zeta. destruct (Z.leb_spec 0 x).
  - rewrite Z.mod_small by lia. rewrite (proj2 (Z.ltb_lt _ _)) by lia. done.
  - assert (Em : x mod 2 ^ 32 = x + 2 ^ 32) by (symmetry; apply (Z.mod_unique_pos _ _ (-1)); lia). rewrite Em. rewrite (proj2 (Z.ltb_ge _ _)) by lia. lia.
Qed.

#[export] Hint Resolve wrap_small wrap_bound : smash.

(** ** Lemmas: arrays *)

Section Arrays.
Context {A : Type}.
Implicit Types (l : list A) (d v : A).

Lemma zget_zset_eq d l i v : 0 <= i < zlen l -> zget d (zset l i v) i = v.
Proof.
  unfold zget, zset, zlen. intros. rewrite (proj2 (Z.leb_le 0 i)) by lia.
  rewrite list_lookup_insert_eq by lia. done.
Qed.

Lemma zget_zset_ne d l i j v : i <> j -> zget d (zset l i v) j = zget d l j.
Proof.
  unfold zget, zset. intros. destruct (0 <=? j) eqn:Ej; [|done].
  destruct (0 <=? i) eqn:Ei; [|done]. b2p.
  rewrite list_lookup_insert_ne by lia. done.
Qed.

Lemma zget_zset d l i j v :
  0 <= i < zlen l -> zget d (zset l i v) j = if i =? j then v else zget d l j.
Proof.
  intros. case_if; subst; [by apply zget_zset_eq | by apply zget_zset_ne].
Qed.

Lemma zlen_zset l i v : zlen (zset l i v) = zlen l.
Proof. unfold zlen, zset. case_if; [by rewrite length_insert | done]. Qed.

Lemma zlen_nonneg l : 0 <= zlen l.
Proof. unfold zlen. lia. Qed.

Lemma zlen_cons v l : zlen (v :: l) = 1 + zlen l.
Proof. unfold zlen. simpl. lia. Qed.

Lemma zlen_app l k : zlen (l ++ k) = zlen l + zlen k.
Proof. unfold zlen. rewrite length_app. lia. Qed.

Lemma zlen_replicate n v : 0 <= n -> zlen (replicate (Z.to_nat n) v) = n.
Proof. unfold zlen. intros. rewrite length_replicate. lia. Qed.

Lemma zget_replicate d n v i : 0 <= i < Z.of_nat n -> zget d (replicate n v) i = v.
Proof.
  unfold zget. intros. rewrite (proj2 (Z.leb_le 0 i)) by lia.
  rewrite lookup_replicate_2 by lia. done.
Qed.

Lemma zget_out d l i : i < 0 \/ zlen l <= i -> zget d l i = d.
Proof.
  unfold zget, zlen. intros. case_if; [|done].
  rewrite lookup_ge_None_2 by lia. done.
Qed.

Lemma zget_ext d l k :
  zlen l = zlen k -> (forall i, 0 <= i < zlen l -> zget d l i = zget d k i) -> l = k.
Proof.
  unfold zget, zlen. intros Hl H. apply list_eq_same_length with (length k); [lia|lia|].
  intros i x y ? Hx Hy. specialize (H (Z.of_nat i)).
  rewrite (proj2 (Z.leb_le 0 _)) in H by lia.
  rewrite Nat2Z.id in H. rewrite Hx, Hy in H. simpl in H. apply H. lia.
Qed.
End Arrays.



Section SparseArrays.
Context {A : Type}.
Implicit Types (m : gmap Z A) (d v : A).

Lemma rd_insert_eq d m i v : rd d (<[i := v]> m) i = v.
Proof. unfold rd. by rewrite lookup_insert_eq. Qed.

Lemma rd_insert_ne d m i j v : i <> j -> rd d (<[i := v]> m) j = rd d m j.
Proof. intros. unfold rd. by rewrite lookup_insert_ne. Qed.

Lemma rd_insert d m i j v : rd d (<[i := v]> m) j = if i =? j then v else rd d m j.
Proof. case_if; subst; [apply rd_insert_eq | by apply rd_insert_ne]. Qed.
End SparseArrays.

(** ** Lemmas: counting *)

Lemma zcount_ext P Q n :
  (forall i, 0 <= i < Z.of_nat n -> P i = Q i) -> zcount P n = zcount Q n.
Proof.
  induction n as [|n IH]; simpl; intros H; [done|].
  rewrite IH by (intros; apply H; lia). rewrite H by lia. done.
Qed.

Lemma zcount_bound P n : 0 <= zcount P n <= Z.of_nat n.
Proof. induction n as [|n IH]; simpl; [lia|]. case_if; lia. Qed.

Lemma zcount_pos P n i : 0 <= i < Z.of_nat n -> P i = true -> 0 < zcount P n.
Proof.
  induction n as [|n IH]; simpl; intros Hi HP; [lia|].
  destruct (decide (i = Z.of_nat n)) as [->|].
  - rewrite HP. pose proof (zcount_bound P n). lia.
  - assert (0 < zcount P n) by (apply IH; [lia|done]). case_if; lia.
Qed.

Lemma zcount_zero P n :
  zcount P n = 0 -> forall i, 0 <= i < Z.of_nat n -> P i = false.
Proof.
  intros H i Hi. destruct (P i) eqn:E; [|done].
  pose proof (zcount_pos P n i Hi E). lia.
Qed.

Lemma zcount_exists P n : 0 < zcount P n -> exists i, 0 <= i < Z.of_nat n /\ P i = true.
Proof.
  induction n as [|n IH]; simpl; intros H; [lia|].
  destruct (P (Z.of_nat n)) eqn:E.
  - exists (Z.of_nat n). split; [lia|done].
  - destruct IH as (i & ? & ?); [lia|]. exists i. split; [lia|done].
Qed.

Lemma zcount_false n : zcount (fun _ => false) n = 0.
Proof. induction n as [|n IH]; simpl; lia. Qed.

Lemma zcount_true n : zcount (fun _ => true) n = Z.of_nat n.
Proof. induction n as [|n IH]; simpl; lia. Qed.

(** Flipping the predicate at one point changes the count by one. *)
Lemma zcount_flip P Q n i :
  0 <= i < Z.of_nat n -> P i = true -> Q i = false ->
  (forall j, 0 <= j < Z.of_nat n -> j <> i -> P j = Q j) ->
  zcount P n = zcount Q n + 1.
Proof.
  induction n as [|n IH]; simpl; intros Hi HP HQ He; [lia|].
  destruct (decide (i = Z.of_nat n)) as [->|].
  - rewrite HP, HQ. rewrite (zcount_ext P Q n); [lia|]. intros; apply He; lia.
  - rewrite (He (Z.of_nat n)) by lia. rewrite IH; [lia|lia|done|done|].
    intros; apply He; lia.
Qed.

(** Counting a disjoint union. *)
Lemma zcount_or P Q n :
  (forall i, 0 <= i < Z.of_nat n -> P i = true -> Q i = false) ->
  zcount (fun i => P i || Q i) n = zcount P n + zcount Q n.
Proof.
  induction n as [|n IH]; simpl; intros Hd; [done|]. rewrite IH by (intros; apply Hd; [lia|done]).
  destruct (P (Z.of_nat n)) eqn:E; simpl; [rewrite Hd by (lia || done); lia|case_if; lia].
Qed.

Lemma zcount_mono P Q n :
  (forall j, 0 <= j < Z.of_nat n -> P j = true -> Q j = true) -> zcount P n <= zcount Q n.
Proof.
  induction n as [|n IH]; simpl; intros H; [lia|].
  assert (zcount P n <= zcount Q n) by (apply IH; intros; apply H; [lia|done]).
  destruct (P (Z.of_nat n)) eqn:E; [rewrite H by (lia || done); lia|]. case_if; lia.
Qed.

(** ** Lemmas: step relations *)

(** An inductive invariant holds in every reachable state. *)
Lemma rtc_invariant {A} (R : relation A) (I : A -> Prop) a b :
  (forall x y, R x y -> I x -> I y) -> rtc R a b -> I a -> I b.
Proof. induction 2; eauto. Qed.

(** ** Lemmas: filtering *)

Lemma filter_ext_in {A} (P Q : A -> Prop) `{!forall x, Decision (P x), !forall x, Decision (Q x)} (l : list A) :
  (forall x, x ∈ l -> P x <-> Q x) -> filter P l = filter Q l.
Proof.
  induction l as [|x l IH]; intros Hl; [done|]. rewrite !filter_cons, IH by set_solver.
  pose proof (Hl x ltac:(set_solver)). do 2 case_decide; done || naive_solver.
Qed.

Lemma filter_none {A} (P : A -> Prop) `{!forall x, Decision (P x)} (l : list A) :
  (forall x, x ∈ l -> ~ P x) -> filter P l = [].
Proof.
  induction l as [|x l IH]; intros Hl; [done|].
  rewrite filter_cons_False by set_solver. apply IH. set_solver.
Qed.

Lemma filter_all {A} (P : A -> Prop) `{!forall x, Decision (P x)} (l : list A) :
  (forall x, x ∈ l -> P x) -> filter P l = l.
Proof.
  induction l as [|x l IH]; intros Hl; [done|].
  rewrite filter_cons_True by set_solver. f_equal. apply IH. set_solver.
Qed.

(** ** Lemmas: sums *)

Lemma zsum_app l k : zsum (l ++ k) = zsum l + zsum k.
Proof. unfold zsum. induction l as [|x l IH]; simpl; lia. Qed.

Lemma zsum_perm l k : l ≡ₚ k -> zsum l = zsum k.
Proof. unfold zsum. induction 1; simpl; lia. Qed.

Lemma zsum_nonneg l : Forall (fun x => 0 <= x) l -> 0 <= zsum l.
Proof. unfold zsum. induction 1; simpl; lia. Qed.

#[export] Instance zsum_proper : Proper ((≡ₚ) ==> (=)) zsum.
Proof. intros l k. apply zsum_perm. Qed.
