(* ===== verification/BitOps.v ===== *)
(** * Bit manipulation primitives (src/util/bitops.h)

    The builtins the header wraps ([__builtin_ctzll], [__builtin_clzll],
    [__builtin_popcountll]) on 64-bit words, the power-of-two helpers, and the
    bit-level facts the bitmap walks of the span and chunk scanners rely on. *)

From S2P Require Import Prelude.

(* src/util/bitops.h:9-12 ctz *)
Fixpoint ctz_pos (p : positive) : Z :=
  match p with
  | xO q => 1 + ctz_pos q
  | _ => 0
  end.
(* src/util/bitops.h:9-12 ctz *)
Definition ctz (x : Z) : Z := match x with Zpos p => ctz_pos p | _ => 64 end.

(* src/util/bitops.h:14-17 clz *)
Definition clz (x : Z) : Z := 63 - Z.log2 x.

(* src/util/bitops.h:19-22 popcount *)
Definition popcount (x : Z) : Z := zcount (Z.testbit x) 64.

(* src/util/bitops.h:24-27 log2Floor *)
Definition log2Floor (x : Z) : Z := 63 - clz x.

(* src/util/bitops.h:29-33 log2Ceil *)
Definition log2Ceil (x : Z) : Z := if x <=? 1 then 0 else 64 - clz (x - 1).

(* src/util/bitops.h:35-38 roundUp *)
Definition roundUp (value alignment : Z) : Z :=
  Z.land (u64 (u64 (value + alignment) - 1)) (u64 (Z.lnot (u64 (alignment - 1)))).

(* src/util/bitops.h:40-43 isPowerOf2 *)
Definition isPowerOf2 (value : Z) : bool :=
  negb (value =? 0) && (Z.land value (u64 (value - 1)) =? 0).

(** The positions of the set bits of a 64-bit word, in increasing order: the
    order in which [while (w) { b = ctz(w); ...; w &= w - 1; }] visits them. *)
Definition setbits (w : Z) : list Z := filter (fun i => Z.testbit w i = true) (seqZ 0 64).

(** ** Powers of two *)

Lemma bit1_pow b : 0 <= b -> bit1 b = 2 ^ b.
Proof. intros. unfold bit1. rewrite Z.shiftl_mul_pow2 by lia. lia. Qed.

Lemma bit1_spec b i : 0 <= b -> Z.testbit (bit1 b) i = (i =? b).
Proof.
  intros. rewrite bit1_pow by lia. destruct (Z.eqb_spec i b) as [->|].
  - apply Z.pow2_bits_true. lia.
  - apply Z.pow2_bits_false. lia.
Qed.

Lemma testbit_high w x i : 0 <= w -> 0 <= x < 2 ^ w -> w <= i -> Z.testbit x i = false.
Proof.
  intros Hw Hx Hi. rewrite <- (Z.mod_small x (2 ^ w)) by lia.
  apply Z.mod_pow2_bits_high. lia.
Qed.

Lemma bits_bound w x : 0 <= w -> 0 <= x -> (forall i, w <= i -> Z.testbit x i = false) -> x < 2 ^ w.
Proof.
  intros Hw Hx H. destruct (Z.eq_dec x 0) as [->|]; [lia|].
  apply Z.log2_lt_pow2; [lia|]. destruct (Z.lt_ge_cases (Z.log2 x) w); [done|].
  specialize (H (Z.log2 x)). rewrite Z.bit_log2 in H by lia. discriminate H. lia.
Qed.

Lemma lor_bound w a b : 0 <= w -> 0 <= a < 2 ^ w -> 0 <= b < 2 ^ w -> 0 <= Z.lor a b < 2 ^ w.
Proof.
  intros. split; [apply Z.lor_nonneg; lia|]. apply bits_bound; [lia|apply Z.lor_nonneg; lia|].
  intros. rewrite Z.lor_spec, !(testbit_high w) by lia. done.
Qed.

Lemma land_bound w a b : 0 <= w -> 0 <= a < 2 ^ w -> 0 <= Z.land a b < 2 ^ w.
Proof.
  intros. assert (0 <= Z.land a b) by (apply Z.land_nonneg; lia).
  split; [lia|]. apply bits_bound; [lia|lia|].
  intros. rewrite Z.land_spec, (testbit_high w) by lia. done.
Qed.

Lemma bit1_bound w b : 0 <= b < w -> 0 <= bit1 b < 2 ^ w.
Proof. intros. rewrite bit1_pow by lia. split; [lia|]. apply Z.pow_lt_mono_r; lia. Qed.

#[export] Hint Resolve lor_bound land_bound bit1_bound : smash.

(** ** Trailing zeros *)

Lemma ctz_pos_nonneg p : 0 <= ctz_pos p.
Proof. induction p; simpl; lia. Qed.

Lemma ctz_pos_spec p : Z.testbit (Zpos p) (ctz_pos p) = true.
Proof.
  induction p as [p IH|p IH|]; simpl; try done.
  change (Zpos (xO p)) with (2 * Zpos p). pose proof (ctz_pos_nonneg p).
  rewrite Z.add_1_l, Z.testbit_even_succ by lia. done.
Qed.

Lemma ctz_pos_below p i : 0 <= i < ctz_pos p -> Z.testbit (Zpos p) i = false.
Proof.
  revert i. induction p as [p IH|p IH|]; simpl; intros i Hi; try lia.
  change (Zpos (xO p)) with (2 * Zpos p).
  destruct (Z.eq_dec i 0) as [->|]; [apply Z.testbit_even_0|].
  replace i with (Z.succ (i - 1)) by lia. rewrite Z.testbit_even_succ by lia.
  apply IH. lia.
Qed.

(** Clearing the lowest set bit, [w &= w - 1]. *)
Lemma clear_lowest_pos p i :
  Z.testbit (Z.land (Zpos p) (Zpos p - 1)) i =
    Z.testbit (Zpos p) i && negb (i =? ctz_pos p).
Proof.
  rewrite Z.land_spec.
  revert i. induction p as [p IH|p IH|]; intros i.
  - simpl ctz_pos. change (Zpos p~1 - 1) with (2 * Zpos p).
    change (Zpos p~1) with (2 * Zpos p + 1).
    destruct (Z.lt_trichotomy i 0) as [?|[->|?]].
    + rewrite !Z.testbit_neg_r by lia. done.
    + rewrite Z.testbit_even_0, andb_false_r. done.
    + replace i with (Z.succ (i - 1)) by lia.
      rewrite Z.testbit_odd_succ, Z.testbit_even_succ by lia.
      rewrite (proj2 (Z.eqb_neq (Z.succ (i - 1)) 0)) by lia. simpl.
      destruct (Z.testbit (Zpos p) (i - 1)); done.
  - simpl ctz_pos. pose proof (ctz_pos_nonneg p).
    replace (Zpos p~0 - 1) with (2 * (Zpos p - 1) + 1) by lia.
    change (Zpos p~0) with (2 * Zpos p).
    destruct (Z.lt_trichotomy i 0) as [?|[->|?]].
    + rewrite !Z.testbit_neg_r by lia. done.
    + rewrite Z.testbit_even_0. done.
    + replace i with (Z.succ (i - 1)) by lia.
      rewrite Z.testbit_odd_succ, Z.testbit_even_succ by lia. rewrite IH.
      f_equal. f_equal. destruct (Z.eqb_spec (i - 1) (ctz_pos p));
        destruct (Z.eqb_spec (Z.succ (i - 1)) (1 + ctz_pos p)); try done; lia.
  - simpl. destruct (Z.eqb_spec i 0) as [->|]; simpl; [done|].
    rewrite Z.testbit_0_l, andb_false_r, andb_true_r.
    destruct (Z.lt_ge_cases i 0); [by rewrite Z.testbit_neg_r by lia|].
    symmetry. apply (testbit_high 1); lia.
Qed.

Lemma ctz_spec w : 0 < w -> Z.testbit w (ctz w) = true.
Proof. destruct w; [lia| |lia]. intros. apply ctz_pos_spec. Qed.

Lemma ctz_below w i : 0 < w -> 0 <= i < ctz w -> Z.testbit w i = false.
Proof. destruct w; [lia| |lia]. intros. by apply ctz_pos_below. Qed.

Lemma ctz_nonneg w : 0 < w -> 0 <= ctz w.
Proof. destruct w; [lia| |lia]. intros. apply ctz_pos_nonneg. Qed.

Lemma ctz_bound w : 0 < w < 2 ^ 64 -> 0 <= ctz w < 64.
Proof.
  intros. split; [apply ctz_nonneg; lia|].
  destruct (Z.lt_ge_cases (ctz w) 64); [done|].

  pose proof (ctz_spec w ltac:(lia)) as Hb.
  rewrite (testbit_high 64) in Hb by lia. discriminate.
Qed.

Lemma clear_lowest w i :
  0 < w -> Z.testbit (Z.land w (w - 1)) i = Z.testbit w i && negb (i =? ctz w).
Proof. destruct w; [lia| |lia]. intros. apply clear_lowest_pos. Qed.

Lemma clear_lowest_bound w : 0 < w < 2 ^ 64 -> 0 <= Z.land w (w - 1) < 2 ^ 64.
Proof. intros. apply land_bound; lia. Qed.

(** ** The list of set bits *)

Lemma elem_of_setbits w i : i ∈ setbits w <-> 0 <= i < 64 /\ Z.testbit w i = true.
Proof. unfold setbits. rewrite list_elem_of_filter, elem_of_seqZ. naive_solver lia. Qed.

Lemma NoDup_setbits w : NoDup (setbits w).
Proof. unfold setbits. apply NoDup_filter, NoDup_seqZ. Qed.

Lemma setbits_0 : setbits 0 = [].
Proof. reflexivity. Qed.

Lemma setbits_length w : (length (setbits w) <= 64)%nat.
Proof. unfold setbits. etrans; [apply length_filter|]. by rewrite length_seqZ. Qed.

(** The loop [b = ctz(w); w &= w - 1] peels the list of set bits from its head. *)
Lemma setbits_step w :
  0 < w < 2 ^ 64 -> setbits w = ctz w :: setbits (Z.land w (w - 1)).
Proof.
  intros Hw. pose proof (ctz_bound w Hw) as Hc. unfold setbits.
  replace 64 with (ctz w + (1 + (63 - ctz w))) by lia.
  rewrite !seqZ_app by lia. rewrite !filter_app.
  rewrite (filter_none (fun i => Z.testbit w i = true) (seqZ 0 (ctz w))).
  2: { intros x Hx. apply elem_of_seqZ in Hx. rewrite ctz_below by lia. done. }
  rewrite (filter_none _ (seqZ 0 (ctz w))).
  2: { intros x Hx. apply elem_of_seqZ in Hx.
       rewrite clear_lowest, ctz_below by lia. done. }
  rewrite Z.add_0_l. change (seqZ (ctz w) 1) with [Z.of_nat 0 + ctz w]. rewrite Z.add_0_l.
  simpl. rewrite !filter_cons_True by (apply ctz_spec; lia).
  rewrite filter_cons_False.
  2: { rewrite clear_lowest by lia. rewrite Z.eqb_refl, andb_false_r. done. }
  simpl. f_equal. apply filter_ext_in. intros x Hx. apply elem_of_seqZ in Hx.
  rewrite clear_lowest by lia. rewrite (proj2 (Z.eqb_neq x (ctz w))) by lia.
  by rewrite andb_true_r.
Qed.

Lemma setbits_nil w : 0 <= w < 2 ^ 64 -> setbits w = [] -> w = 0.
Proof.
  intros Hw H. destruct (Z.eq_dec w 0); [done|]. rewrite setbits_step in H by lia. done.
Qed.

(** ** Rounding *)

Lemma lnot_mask k i :
  0 <= k <= 64 -> 0 <= i < 64 -> Z.testbit (u64 (Z.lnot (2 ^ k - 1))) i = (k <=? i).
Proof.
  intros. unfold wrap. rewrite Z.mod_pow2_bits_low by lia. rewrite Z.lnot_spec by lia.
  replace (2 ^ k - 1) with (Z.ones k) by (rewrite Z.ones_equiv; lia).
  destruct (Z.leb_spec k i).
  - rewrite Z.ones_spec_high by lia. done.
  - rewrite Z.ones_spec_low by lia. done.
Qed.

Lemma land_lnot_mask k x :
  0 <= k < 64 -> 0 <= x < 2 ^ 64 -> Z.land x (u64 (Z.lnot (2 ^ k - 1))) = x / 2 ^ k * 2 ^ k.
Proof.
  intros Hk Hx. rewrite <- Z.shiftr_div_pow2, <- Z.shiftl_mul_pow2 by lia.
  apply Z.bits_inj'. intros i Hi. rewrite Z.land_spec, Z.shiftl_spec by lia.
  destruct (Z.lt_ge_cases i 64).
  - rewrite lnot_mask by lia. destruct (Z.leb_spec k i).
    + rewrite andb_true_r, Z.shiftr_spec by lia. f_equal. lia.
    + rewrite andb_false_r. by rewrite Z.testbit_neg_r by lia.
  - rewrite (testbit_high 64 x i) by lia. rewrite Z.shiftr_spec by lia.
    rewrite (testbit_high 64 x) by lia. done.
Qed.

(** [roundUp] is the least multiple of a power of two at or above the value,
    as long as the sum does not overflow. *)
Lemma roundUp_spec k v :
  0 <= k < 64 -> 0 <= v -> v + 2 ^ k - 1 < 2 ^ 64 ->
  roundUp v (2 ^ k) = (v + 2 ^ k - 1) / 2 ^ k * 2 ^ k.
Proof.
  intros Hk Hv Hb. assert (0 < 2 ^ k) by lia.
  assert (2 ^ k < 2 ^ 64) by (apply Z.pow_lt_mono_r; lia).
  unfold roundUp. rewrite (wrap_small 64 (2 ^ k - 1)) by lia.
  replace (u64 (u64 (v + 2 ^ k) - 1)) with (v + 2 ^ k - 1).
  - apply land_lnot_mask; lia.
  - unfold wrap. rewrite Zminus_mod_idemp_l. rewrite Z.mod_small; lia.
Qed.

Lemma roundUp_ge k v :
  0 <= k < 64 -> 0 <= v -> v + 2 ^ k - 1 < 2 ^ 64 ->
  v <= roundUp v (2 ^ k) < v + 2 ^ k /\ roundUp v (2 ^ k) mod 2 ^ k = 0.
Proof.
  intros. rewrite roundUp_spec by lia. assert (0 < 2 ^ k) by lia. split.
  - dnia.
  - apply Z.mod_mul. lia.
Qed.

(** ** Logarithms *)

Lemma log2Floor_eq x : log2Floor x = Z.log2 x.
Proof. unfold log2Floor, clz. lia. Qed.
