(* ===== verification/Config.v ===== *)
(** * Compile-time constants and run-time knobs (include/smash/config.h)

    The page geometry is a class: [kPageSize] comes from the platform header
    ([ALLOC8_PAGE_SIZE]) and is 4 KiB or 16 KiB.  A run-time knob is a function
    of the value of its environment variable ([None] when unset); the
    header caches the result of the first call. *)

From Stdlib Require Import String Ascii.
From S2P Require Import Prelude BitOps.

(* include/smash/config.h:14-16 kPageSize *)
Class PageGeometry := {
  kPageShift : Z;
  kPageShift_cases : kPageShift = 12 \/ kPageShift = 14
}.
(* include/smash/config.h:14-16 kPageSize *)
Definition kPageSize `{PageGeometry} : Z := 2 ^ kPageShift.

(** The two geometries the code is built for. *)
Definition pages4K : PageGeometry := {| kPageShift := 12; kPageShift_cases := or_introl eq_refl |}.
Definition pages16K : PageGeometry := {| kPageShift := 14; kPageShift_cases := or_intror eq_refl |}.

(* include/smash/config.h:18-21 kMaxSmallSize *)
Definition kMaxSmallSize : Z := 16384.
(* include/smash/config.h:20-20 kNumClasses *)
Definition kNumClasses : Z := 36.
(* include/smash/config.h:21-21 kMinAlignment *)
Definition kMinAlignment : Z := 16.
(* include/smash/config.h:32-32 kNumLargeClasses *)
Definition kNumLargeClasses : Z := 8.
(* include/smash/config.h:33-33 kTotalBucketsPerArena *)
Definition kTotalBucketsPerArena : Z := kNumClasses + kNumLargeClasses.
(* include/smash/config.h:56-60 kMaxArenas *)
Definition kMaxArenas : Z := 128.
(* include/smash/config.h:620-620 kVmMaxPages *)
Definition kVmMaxPages : Z := 16 * 1024 * 1024.
(* include/smash/config.h:621-621 kVmRegionSize *)
Definition kVmRegionSize `{PageGeometry} : Z := kVmMaxPages * kPageSize.

(** ** C library number parsing

    [strtol(s, &end, 10)]: skip white space, an optional sign, decimal digits,
    saturating at the ends of [long].  [None] is [end == s]. *)

Definition is_space (c : ascii) : bool :=
  let n := Z.of_N (N_of_ascii c) in (n =? 32) || ((9 <=? n) && (n <=? 13)).
Definition digit_val (c : ascii) : option Z :=
  let n := Z.of_N (N_of_ascii c) in
  if (48 <=? n) && (n <=? 57) then Some (n - 48) else None.

Fixpoint skip_space (s : string) : string :=
  match s with
  | String c r => if is_space c then skip_space r else s
  | EmptyString => s
  end.

Fixpoint digits (s : string) (acc : option Z) : option Z :=
  match s with
  | EmptyString => acc
  | String c r =>
    match digit_val c with
    | Some d => digits r (Some (default 0 acc * 10 + d))
    | None => acc
    end
  end.

Definition clamp (lo hi x : Z) : Z := if x <? lo then lo else if hi <? x then hi else x.

Definition strtol (s : string) : option Z :=
  match skip_space s with
  | String c r =>
    let n := if Ascii.eqb c "-" then Z.opp <$> digits r None
             else if Ascii.eqb c "+" then digits r None
             else digits (String c r) None in
    clamp (- 2 ^ 63) (2 ^ 63 - 1) <$> n
  | EmptyString => None
  end.

(** [atoi(s)] is [(int) strtol(s, NULL, 10)]. *)
Definition atoi (s : string) : Z := i32 (default 0 (strtol s)).

Definition nonempty (s : string) : bool :=
  match s with EmptyString => false | _ => true end.

(** ** Knobs *)

(* include/smash/config.h:35-42 log2FloorU32 *)
Definition log2FloorU32 (n : Z) : Z :=
  if n <=? 1 then 0 else 31 - (31 - Z.log2 n).

(* include/smash/config.h:44-51 largeSizeClass *)
Definition largeSizeClass (num_pages : Z) : Z :=
  let bucket := log2FloorU32 num_pages in
  let bucket := if kNumLargeClasses <=? bucket then kNumLargeClasses - 1 else bucket in
  u8 (kNumClasses + bucket).

(** [while (p < parsed) p <<= 1;] for [parsed <= 128]: at most 7 doublings. *)
Fixpoint pow2_up (fuel : nat) (p bound cap : Z) : Z :=
  match fuel with
  | O => p
  | S f => if (p <? bound) && (p <? cap) then pow2_up f (2 * p) bound cap else p
  end.

(** [for (i = 0; i < 20 && sqrtn * sqrtn < ncpu; ++i) sqrtn += 0.5], with
    [sqrtn] kept in halves (every value is exact in a double). *)
Fixpoint sqrt_halves (i : nat) (h ncpu : Z) : Z :=
  match i with
  | O => h
  | S i' => if h * h <? 4 * ncpu then sqrt_halves i' (h + 1) ncpu else h
  end.

(* include/smash/config.h:75-110 getNumArenas *)
Definition getNumArenas (env : option string) (ncpu : Z) : Z :=
  let auto :=
    let ncpu := if ncpu <=? 0 then 4 else ncpu in
    (* target = sqrtn * 4.0, with sqrtn = h / 2 *)
    let target := if 4 <? ncpu then 2 * sqrt_halves 20 2 ncpu else 4 in
    pow2_up 8 4 target kMaxArenas in
  match env with
  | Some s =>
    if nonempty s then
      let parsed := atoi s in
      if (0 <? parsed) && (parsed <=? kMaxArenas) then
        let p := pow2_up 8 1 parsed (2 ^ 31) in
        if p <=? kMaxArenas then p else kMaxArenas
      else auto
    else auto
  | None => auto
  end.

(* include/smash/config.h:112-116 getArenaMask *)
Definition getArenaMask (env : option string) (ncpu : Z) : Z := getNumArenas env ncpu - 1.

(* include/smash/config.h:329-335 coolingCloseDefaultTicks *)
Definition coolingCloseDefaultTicks (cold_ticks : Z) : Z :=
  let half := Z.quot cold_ticks 2 in if half <? 1 then 1 else half.

(* include/smash/config.h:337-347 getCoolingCloseTicks *)
Definition getCoolingCloseTicks (env : option string) (cold_ticks : Z) : Z :=
  match env with
  | Some s => let v := atoi s in if v <? 0 then 0 else v
  | None => coolingCloseDefaultTicks cold_ticks
  end.

(* include/smash/config.h:371-390 getTimeBudgetPct *)
Definition getTimeBudgetPct (env : option string) : Z :=
  match env with
  | Some s =>
    if nonempty s then
      match strtol s with
      | Some n => let n := if n <? 0 then 0 else n in if 100 <? n then 100 else n
      | None => -1
      end
    else -1
  | None => -1
  end.

(* include/smash/config.h:455-485 getDictTrainSamples *)
Definition getDictTrainSamples (env : option string) : Z :=
  match env with
  | Some s =>
    if nonempty s then
      match strtol s with
      | Some n => let n := if n <? 0 then 0 else n in if 256 <? n then 256 else n
      | None => 0
      end
    else 0
  | None => 0
  end.

(* include/smash/config.h:623-640 getVmRegionSize *)
Definition getVmRegionSize `{PageGeometry} (env : option string) : Z :=
  let kGiB := 2 ^ 30 in
  let bytes := 16 * kGiB in
  let bytes := match env with
    | Some s => match strtol s with
                | Some g => if 0 <? g then u64 (u64 g * kGiB) else bytes
                | None => bytes
                end
    | None => bytes
    end in
  let bytes := if bytes <? kGiB / 4 then kGiB / 4 else bytes in
  if kVmRegionSize <? bytes then kVmRegionSize else bytes.

(* include/smash/config.h:648-648 SmashMode *)
Inductive SmashMode := Full | CompressOnly.
(* include/smash/config.h:657-668 getSmashMode *)
Definition getSmashMode (env : option string) : SmashMode :=
  match env with
  | Some s => if String.eqb s "compress_only" then CompressOnly else Full
  | None => Full
  end.

Definition env_is (c : ascii) (env : option string) : bool :=
  match env with Some (String d _) => Ascii.eqb d c | _ => false end.

(* include/smash/config.h:685-694 isLargeOnlyMode *)
Definition isLargeOnlyMode (env : option string) : bool := env_is "1" env.

(* include/smash/config.h:704-718 largeOnlyThreshold *)
Definition largeOnlyThreshold (env : option string) : Z :=
  match env with
  | Some s =>
    if nonempty s then
      let parsed := u64 (default 0 (strtol s)) in
      if (0 <? parsed) && (parsed <=? kMaxSmallSize) then parsed else kMaxSmallSize
    else kMaxSmallSize
  | None => kMaxSmallSize
  end.

(* include/smash/config.h:727-740 isDeferredReclaimMode *)
Definition isDeferredReclaimMode (env : option string) : bool := negb (env_is "0" env).

(* include/smash/config.h:742-748 getDeferredReclaimDelay *)
Definition getDeferredReclaimDelay (env : option string) : Z :=
  match env with
  | Some s => if 0 <? atoi s then atoi s else 2
  | None => 2
  end.

(* include/smash/config.h:759-768 isEagerZeroMode *)
Definition isEagerZeroMode (env : option string) : bool := env_is "1" env.

(** ** Geometry facts *)

Lemma kPageSize_cases `{PageGeometry} : kPageSize = 4096 \/ kPageSize = 16384.
Proof. unfold kPageSize. destruct kPageShift_cases as [-> | ->]; auto. Qed.

Lemma kPageSize_pos `{PageGeometry} : 4096 <= kPageSize <= 16384.
Proof. destruct kPageSize_cases as [-> | ->]; lia. Qed.

(** Reduce a goal about the page size to its two instances. *)
Ltac page_cases := destruct kPageSize_cases as [Hpsz | Hpsz]; rewrite ?Hpsz in *.

(** ** Knob facts *)

Lemma pow2_up_pow fuel k bound cap :
  0 <= k -> exists j, k <= j <= k + Z.of_nat fuel /\ pow2_up fuel (2 ^ k) bound cap = 2 ^ j.
Proof.
  revert k. induction fuel as [|f IH]; intros k Hk; cbn [pow2_up].
  - exists k. split; [lia|done].
  - case_if.
    + replace (2 * 2 ^ k) with (2 ^ (k + 1)) by (rewrite Z.pow_add_r; lia).
      destruct (IH (k + 1)) as (j & ? & ->); [lia|]. exists j. split; [lia|done].
    + exists k. split; [lia|done].
Qed.

(** The doubling loop never passes twice the cap. *)
Lemma pow2_up_le_cap fuel k c bound :
  0 <= k <= c -> pow2_up fuel (2 ^ k) bound (2 ^ c) <= 2 ^ c.
Proof.
  revert k. induction fuel as [|f IH]; intros k Hk; cbn [pow2_up].
  - apply Z.pow_le_mono_r; lia.
  - case_if.
    + replace (2 * 2 ^ k) with (2 ^ (k + 1)) by (rewrite Z.pow_add_r; lia).
      apply IH. assert (k < c); [|lia]. apply Z.pow_lt_mono_r_iff with 2; lia.
    + apply Z.pow_le_mono_r; lia.
Qed.

Lemma log2FloorU32_bound n : 0 <= n < 2 ^ 32 -> 0 <= log2FloorU32 n < 32.
Proof.
  intros. unfold log2FloorU32. case_if; [lia|].
  assert (Z.log2 n < 32) by (apply Z.log2_lt_pow2; lia).
  pose proof (Z.log2_nonneg n). lia.
Qed.

Lemma largeSizeClass_range n :
  0 <= n < 2 ^ 32 -> kNumClasses <= largeSizeClass n < kTotalBucketsPerArena.
Proof.
  intros. pose proof (log2FloorU32_bound n ltac:(lia)).
  unfold largeSizeClass, kTotalBucketsPerArena, kNumClasses, kNumLargeClasses in *.
  case_if; rewrite wrap_small by lia; lia.
Qed.

(** for every value of SMASH_NUM_ARENAS and every CPU count, the number of
    arenas is a power of two between 1 and [kMaxArenas], so that masking with
    [getArenaMask] reduces a hash modulo the arena count. *)
Theorem getNumArenas_pow2 (env : option string) (ncpu hash : Z) :
  (exists j, 0 <= j <= 7 /\ getNumArenas env ncpu = 2 ^ j) /\
  Z.land hash (getArenaMask env ncpu) = hash mod getNumArenas env ncpu.
Proof.
  assert (exists j, 0 <= j <= 7 /\ getNumArenas env ncpu = 2 ^ j) as (j & Hj & E).
  { unfold getNumArenas, kMaxArenas.
    assert (Hauto : forall t, exists j, 0 <= j <= 7 /\ pow2_up 8 4 t 128 = 2 ^ j).
    { intros t. change 4 with (2 ^ 2). change 128 with (2 ^ 7).
      destruct (pow2_up_pow 8 2 t (2 ^ 7)) as (j & ? & E); [lia|].
      pose proof (pow2_up_le_cap 8 2 7 t ltac:(lia)) as Hle. rewrite E in *.
      exists j. split; [|done]. split; [lia|].
      apply (Z.pow_le_mono_r_iff 2); lia. }
    destruct env as [s|]; [|apply Hauto].
    destruct (nonempty s); [|apply Hauto].
    case_if; [|apply Hauto].
    destruct (pow2_up_pow 8 0 (atoi s) (2 ^ 31)) as (j & ? & E'); [lia|].
    change (2 ^ 0) with 1 in E'. rewrite E'. case_if; [|by exists 7].
    exists j. split; [|done]. split; [lia|].
    change 128 with (2 ^ 7) in *. apply (Z.pow_le_mono_r_iff 2); lia. }
  split; [eauto|]. unfold getArenaMask. rewrite E.
  replace (2 ^ j - 1) with (Z.ones j) by (rewrite Z.ones_equiv; lia).
  apply Z.land_ones. lia.
Qed.
