(* ===== verification/SizeClasses.v ===== *)
(** * Size classes (src/core/size_classes.h)

    The class table, the span geometry computed from it and the size-to-class
    map: a table lookup up to 1 KiB and a logarithm above it. *)

From S2P Require Import Prelude BitOps Config.

(* src/core/size_classes.h:21-25 SizeClassInfo *)
Record SizeClassInfo := { sci_size : Z; sci_pages : Z; sci_objects : Z }.

(* src/core/size_classes.h:29-38 kClassSizes *)
Definition kClassSizes : list Z :=
  [ 16;    32;    48;    64;    80;    96;    112;   128;
    160;   192;   224;   256;
    320;   384;   448;   512;
    640;   768;   896;   1024;
    1280;  1536;  1792;  2048;
    2560;  3072;  3584;  4096;
    5120;  6144;  7168;  8192;
    10240; 12288; 14336; 16384 ].

(* include/smash/config.h:235-235 kTargetObjectsPerSpan *)
Definition kTargetObjectsPerSpan : Z := 64.
(* include/smash/config.h:236-236 kMaxSpanPages *)
Definition kMaxSpanPages : Z := 8.

(* src/core/size_classes.h:40-47 computeClassInfo *)
Definition computeClassInfo `{PageGeometry} (size : Z) : SizeClassInfo :=
  let target_bytes := u32 (kTargetObjectsPerSpan * size) in
  let pages := u32 ((target_bytes + kPageSize - 1) / kPageSize) in
  let pages := if pages <? 1 then 1 else pages in
  let pages := if kMaxSpanPages <? pages then kMaxSpanPages else pages in
  let objects := u32 ((pages * kPageSize) / size) in
  {| sci_size := size; sci_pages := pages; sci_objects := objects |}.

(* src/core/size_classes.h:49-57 buildClassTable *)
Definition buildClassTable `{PageGeometry} : list SizeClassInfo :=
  map computeClassInfo kClassSizes.

(** The first class whose size reaches [n], scanning from class [c]. *)
Fixpoint first_class_from (sizes : list Z) (c n : Z) : option Z :=
  match sizes with
  | [] => None
  | s :: rest => if n <=? s then Some c else first_class_from rest (c + 1) n
  end.

(* src/core/size_classes.h:59-79 buildSmallLookup *)
Definition buildSmallLookup : list Z :=
  map (fun idx =>
         let maxSize := u32 (idx * 16) in
         let maxSize := if maxSize =? 0 then 1 else maxSize in
         u8 (default 0 (first_class_from kClassSizes 0 maxSize)))
      (seqZ 0 65).

(** The lookup table is a compile-time constant of the program. *)
Definition kSmallLookup : list Z := Eval vm_compute in buildSmallLookup.

(* src/core/size_classes.h:86-102 sizeToClass *)
Definition sizeToClass (size : Z) : Z :=
  let size := if size =? 0 then 1 else size in
  if size <=? 1024 then zget 0 kSmallLookup (Z.shiftr (u64 (size + 15)) 4)
  else if size <=? kMaxSmallSize then
    let bits := 63 - clz (size - 1) in
    let group := bits - 10 in
    let groupBase := Z.shiftl 1 bits in
    let sub := Z.shiftr (size - groupBase - 1) (bits - 2) in
    u8 (20 + group * 4 + sub)
  else kNumClasses.

(* src/core/size_classes.h:104-107 classSize *)
Definition classSize `{PageGeometry} (sc : Z) : Z :=
  sci_size (zget {| sci_size := 0; sci_pages := 0; sci_objects := 0 |} buildClassTable sc).

Definition classPages `{PageGeometry} (sc : Z) : Z :=
  sci_pages (zget {| sci_size := 0; sci_pages := 0; sci_objects := 0 |} buildClassTable sc).
Definition classObjects `{PageGeometry} (sc : Z) : Z :=
  sci_objects (zget {| sci_size := 0; sci_pages := 0; sci_objects := 0 |} buildClassTable sc).

(** ** Reference: the smallest class that holds a request *)

Definition fitClass (size : Z) : Z :=
  default kNumClasses (first_class_from kClassSizes 0 (Z.max 1 size)).

(** Deciding a property of every integer below a bound by evaluation. *)
Definition forall_below (n : Z) (P : Z -> bool) : bool := forallb P (seqZ 0 n).

Lemma forall_below_spec n P :
  forall_below n P = true -> forall i, 0 <= i < n -> P i = true.
Proof.
  unfold forall_below. rewrite forallb_forall. intros H i Hi. apply H.
  apply list_elem_of_In, elem_of_seqZ. lia.
Qed.

Lemma zget_map {A B} (f : A -> B) da db l i :
  0 <= i < zlen l -> zget db (map f l) i = f (zget da l i).
Proof.
  unfold zget, zlen. intros. rewrite (proj2 (Z.leb_le 0 i)) by lia.
  change (map f l) with (f <$> l). rewrite list_lookup_fmap.
  destruct (l !! Z.to_nat i) eqn:E; simpl; [done|]. apply lookup_ge_None in E. lia.
Qed.

(** The size table does not depend on the page size. *)
Lemma classSize_zget `{PageGeometry} sc :
  0 <= sc < kNumClasses -> classSize sc = zget 0 kClassSizes sc.
Proof.
  intros. unfold classSize, buildClassTable. rewrite (zget_map computeClassInfo 0); [done|].
  done.
Qed.

Lemma kSmallLookup_built : kSmallLookup = buildSmallLookup.
Proof. reflexivity. Qed.

(** What the lookup entry for the bucket of sizes [16 (idx-1) + 1 .. 16 idx] holds. *)
Lemma small_bucket idx :
  1 <= idx <= 64 ->
  let c := zget 0 kSmallLookup idx in
  0 <= c < 36 /\ 16 * idx <= zget 0 kClassSizes c < 16 * (idx - 1) + 1 + Z.max 16 (4 * (idx - 1) + 1) /\
  (c = 0 \/ zget 0 kClassSizes (c - 1) <= 16 * (idx - 1)).
Proof.
  intros Hi. cbv zeta. pose proof (forall_below_spec 65 (fun idx =>
    let c := zget 0 kSmallLookup idx in
    (idx =? 0) || ((0 <=? c) && (c <? 36) && (16 * idx <=? zget 0 kClassSizes c)
     && (zget 0 kClassSizes c <? 16 * (idx - 1) + 1 + Z.max 16 (4 * (idx - 1) + 1))
     && ((c =? 0) || (zget 0 kClassSizes (c - 1) <=? 16 * (idx - 1))))) eq_refl idx ltac:(lia)) as H.
  cbv beta zeta in H. apply orb_true_iff in H as [H|H]; b2p; [lia|].
  splits; lia.
Qed.

(** The four logarithmic groups above 1 KiB. *)
Lemma large_group bits sub :
  10 <= bits <= 13 -> 0 <= sub <= 3 ->
  let c := 20 + (bits - 10) * 4 + sub in
  0 <= c < 36 /\ zget 0 kClassSizes c = 2 ^ bits + (sub + 1) * 2 ^ (bits - 2) /\
  zget 0 kClassSizes (c - 1) = 2 ^ bits + sub * 2 ^ (bits - 2).
Proof.
  intros Hb Hs.
  assert (bits = 10 \/ bits = 11 \/ bits = 12 \/ bits = 13) as [-> | [-> | [-> | ->]]] by lia;
  assert (sub = 0 \/ sub = 1 \/ sub = 2 \/ sub = 3) as [-> | [-> | [-> | ->]]] by lia;
  vm_compute; intuition discriminate.
Qed.

(** The class of a small request: in range, large enough, and the one below
    is too small; with the bound on the waste. *)
Lemma sizeToClass_fits n :
  0 <= n <= 16384 ->
  let c := sizeToClass n in
  0 <= c < 36 /\ n <= zget 0 kClassSizes c /\
  (c = 0 \/ zget 0 kClassSizes (c - 1) < n) /\
  (1 <= n -> zget 0 kClassSizes c - n < Z.max 16 (n / 4 + 1)).
Proof.
  intros Hn. cbv zeta. unfold sizeToClass.
  set (m := if n =? 0 then 1 else n).
  assert (Hm : 1 <= m <= 16384 /\ n <= m /\ (1 <= n -> m = n)) by (unfold m; case_if; lia).
  assert (Hm0 : n = m \/ n = 0 /\ m = 1) by (unfold m; case_if; lia).
  clearbody m. rewrite Z.shiftr_div_pow2 by lia. unfold kMaxSmallSize. case_if; [|case_if; [|lia]].
  - rewrite wrap_small by lia. change (2 ^ 4) with 16.
    pose proof (small_bucket ((m + 15) / 16) ltac:(dlia)) as (? & ? & ?).
    destruct Hm0 as [-> | [-> ->]]; [|vm_compute; intuition discriminate].
    splits; try lia; dlia.
  - assert (n = m) as -> by lia. replace (63 - clz (m - 1)) with (Z.log2 (m - 1)) by (unfold clz; lia).
    pose proof (Z.log2_spec (m - 1) ltac:(lia)) as Hl.
    assert (10 <= Z.log2 (m - 1) <= 13).
    { split; [apply (Z.log2_le_mono 1024); lia|]. apply (Z.log2_le_mono _ 16383). lia. }
    generalize dependent (Z.log2 (m - 1)). intros b Hl Hb.
    rewrite Z.shiftl_mul_pow2, Z.mul_1_l, Z.shiftr_div_pow2 by lia.
    replace (2 ^ Z.succ b) with (2 * 2 ^ b) in Hl by (rewrite Z.pow_succ_r; lia).
    assert (E2 : 2 ^ b = 4 * 2 ^ (b - 2)) by (rewrite <- (Z.pow_add_r 2 2) by lia; f_equal; lia).
    assert (0 < 2 ^ (b - 2)) by lia.
    pose proof (large_group b ((m - 2 ^ b - 1) / 2 ^ (b - 2)) Hb ltac:(dnia)) as (? & Hc & Hp).
    rewrite wrap_small by lia. rewrite Hc, Hp. splits; try lia; dnia.
Qed.

Lemma kClassSizes_sorted i j :
  0 <= i -> i <= j -> j < kNumClasses -> zget 0 kClassSizes i <= zget 0 kClassSizes j.
Proof.
  unfold kNumClasses. intros. pose proof (forall_below_spec 36 (fun i => forall_below 36 (fun j =>
    implb (i <=? j) (zget 0 kClassSizes i <=? zget 0 kClassSizes j))) eq_refl i ltac:(lia)) as Hi.
  pose proof (forall_below_spec _ _ Hi j ltac:(lia)) as Hj. simpl in Hj.
  rewrite (proj2 (Z.leb_le i j)) in Hj by lia. simpl in Hj. b2p. lia.
Qed.

(** Each class divides its span into at least one and at most 8192 objects. *)
Lemma class_geometry `{PageGeometry} sc :
  0 <= sc < kNumClasses ->
  16 <= classSize sc <= 16384 /\ classSize sc mod 16 = 0 /\
  1 <= classPages sc <= 8 /\
  classObjects sc = classPages sc * kPageSize / classSize sc /\
  1 <= classObjects sc <= 8192.
Proof.
  unfold kNumClasses. intros Hsc.
  pose (test := fun (g : PageGeometry) sc =>
    (16 <=? @classSize g sc) && (@classSize g sc <=? 16384) && (@classSize g sc mod 16 =? 0)
    && (1 <=? @classPages g sc) && (@classPages g sc <=? 8)
    && (@classObjects g sc =? @classPages g sc * @kPageSize g / @classSize g sc)
    && (1 <=? @classObjects g sc) && (@classObjects g sc <=? 8192)).
  assert (Hg : test H sc = true).
  { unfold test, classSize, classPages, classObjects, buildClassTable, computeClassInfo.
    unfold kPageSize. destruct H as [sh [-> | ->]]; simpl kPageShift.
    - exact (forall_below_spec 36 (test pages4K) eq_refl sc Hsc).
    - exact (forall_below_spec 36 (test pages16K) eq_refl sc Hsc). }
  unfold test in Hg. b2p. splits; lia.
Qed.

(** The table lookup below 1 KiB and the logarithm above it compute the
    smallest class that holds the request: the class is in range, the request
    fits in it and no smaller class holds it; a larger request is reported as
    [kNumClasses]. *)
Lemma sizeToClass_smallest_fit `{PageGeometry} (size : Z) :
  0 <= size < 2 ^ 64 ->
  if size <=? kMaxSmallSize then
    0 <= sizeToClass size < kNumClasses /\ size <= classSize (sizeToClass size) /\
    (forall c, 0 <= c < kNumClasses -> Z.max 1 size <= classSize c -> sizeToClass size <= c)
  else sizeToClass size = kNumClasses.
Proof.
  intros Hs. case_if.
  - unfold kMaxSmallSize in E.
    pose proof (sizeToClass_fits size ltac:(lia)) as (? & ? & Hp & _). unfold kNumClasses. rewrite classSize_zget by (unfold kNumClasses; lia).
    splits; try lia. intros c Hc Hfit.
    rewrite classSize_zget in Hfit by (unfold kNumClasses; lia).
    destruct (Z.lt_ge_cases c (sizeToClass size)); [|lia]. exfalso.
    destruct Hp; [lia|]. pose proof (kClassSizes_sorted c (sizeToClass size - 1)). unfold kNumClasses in *. lia.
  - unfold sizeToClass, kMaxSmallSize in *.
    rewrite (proj2 (Z.eqb_neq size 0)) by lia.
    rewrite (proj2 (Z.leb_gt size 1024)) by lia.
    rewrite (proj2 (Z.leb_gt size 16384)) by lia. done.
Qed.

(** the internal fragmentation of a small request is below 16 bytes or at
    most a quarter of the request. *)
Theorem sizeToClass_waste `{PageGeometry} (size : Z) :
  1 <= size <= kMaxSmallSize ->
  classSize (sizeToClass size) - size < Z.max 16 (size / 4 + 1).
Proof.
  unfold kMaxSmallSize. intros Hs.
  pose proof (sizeToClass_fits size ltac:(lia)) as (? & _ & _ & Hw).
  rewrite classSize_zget by (unfold kNumClasses; lia). apply Hw. lia.
Qed.

Lemma sizeToClass_waste_witness :
  1 <= 1281 <= kMaxSmallSize /\
  @classSize pages4K (sizeToClass 1281) - 1281 < Z.max 16 (1281 / 4 + 1).
Proof.
  split; [unfold kMaxSmallSize; lia|].
  apply (@sizeToClass_waste pages4K 1281). unfold kMaxSmallSize. lia.
Defined.
