(* ===== verification/PageState.v ===== *)
(** * Page states and page locks (src/vm/page_state.h)

    [PageStateTable] is one atomic byte per page of the reservation, zeroed at
    start ([EMPTY]), with a process-wide latch recording that some page was
    ever driven to [COMPRESSED].  [PageLockTable] is one test-and-set flag and
    one owner slot per page; its operations are split into the atomic accesses
    the code performs, so that the interleavings of several threads are the
    paths of a step relation. *)

From S2P Require Import Prelude.

(* src/vm/page_state.h:19-26 PageState *)
Inductive PageState :=
  | EMPTY
  | ACTIVE
  | COMPRESSED
  | COMPRESSING
  | ACTIVE_MONITORING
  | COMPRESSED_SHADOW.

#[export] Instance PageState_eq_dec : EqDecision PageState.
Proof. solve_decision. Defined.

Definition state_eqb (a b : PageState) : bool := bool_decide (a = b).

(** [g_any_page_compressed] is written only by the table, so it is a field. *)
(* src/vm/page_state.h:37-41 PageStateTable *)
Record PageStateTable := {
  states : gmap Z PageState;
  num_pages : Z;
  g_any_page_compressed : bool
}.

(* src/vm/page_state.h:44-47 PageStateTable::init *)
Definition pst_init (n : Z) (latch : bool) : PageStateTable :=
  {| states := ∅; num_pages := n; g_any_page_compressed := latch |}.

(* src/vm/page_state.h:49-51 PageStateTable::get *)
Definition pst_get (t : PageStateTable) (page_idx : Z) : PageState :=
  rd EMPTY (states t) page_idx.

(* src/vm/page_state.h:53-60 PageStateTable::set *)
Definition pst_set (t : PageStateTable) (page_idx : Z) (st : PageState) : PageStateTable :=
  {| states := <[page_idx := st]> (states t);
     num_pages := num_pages t;
     g_any_page_compressed :=
       if state_eqb st COMPRESSED then true else g_any_page_compressed t |}.

(** The store loop of [setRange]. *)
Fixpoint set_states (m : gmap Z PageState) (first : Z) (n : nat) (st : PageState) : gmap Z PageState :=
  match n with
  | O => m
  | S n' => set_states (<[first := st]> m) (first + 1) n' st
  end.

(* src/vm/page_state.h:66-75 PageStateTable::setRange *)
Definition pst_setRange (t : PageStateTable) (first_page_idx n : Z) (st : PageState) : PageStateTable :=
  {| states := set_states (states t) first_page_idx (Z.to_nat n) st;
     num_pages := num_pages t;
     g_any_page_compressed :=
       if state_eqb st COMPRESSED then true else g_any_page_compressed t |}.

(* src/vm/page_state.h:77-83 PageStateTable::transition *)
Definition pst_transition (t : PageStateTable) (page_idx : Z) (expected desired : PageState)
    : bool * PageStateTable :=
  if state_eqb (pst_get t page_idx) expected
  then (true, {| states := <[page_idx := desired]> (states t);
                 num_pages := num_pages t;
                 g_any_page_compressed := g_any_page_compressed t |})
  else (false, t).

(** ** Lock table *)

(** Thread identities are the values of [pthread_self()]; [pthread_t{}] is 0. *)
(* src/vm/page_state.h:106-109 PageLockTable *)
Record PageLockTable := {
  locks : gmap Z bool;
  owners : gmap Z Z
}.

(* src/vm/page_state.h:111-123 PageLockTable::init *)
Definition plt_init : PageLockTable := {| locks := ∅; owners := ∅ |}.

(** The atomic accesses. *)
Definition test_and_set (l : PageLockTable) (p : Z) : bool * PageLockTable :=
  (rd false (locks l) p, {| locks := <[p := true]> (locks l); owners := owners l |}).
Definition set_owner (l : PageLockTable) (p t : Z) : PageLockTable :=
  {| locks := locks l; owners := <[p := t]> (owners l) |}.
Definition clear_flag (l : PageLockTable) (p : Z) : PageLockTable :=
  {| locks := <[p := false]> (locks l); owners := owners l |}.

(* src/vm/page_state.h:136-141 PageLockTable::tryLock *)
Definition tryLock (l : PageLockTable) (self p : Z) : bool * PageLockTable :=
  let '(was, l1) := test_and_set l p in
  if was then (false, l1) else (true, set_owner l1 p self).

(** [None]: the flag is held and the caller spins. *)
(* src/vm/page_state.h:125-134 PageLockTable::lock *)
Definition lock (l : PageLockTable) (self p : Z) : option PageLockTable :=
  let '(was, l1) := test_and_set l p in
  if was then None else Some (set_owner l1 p self).

(* src/vm/page_state.h:143-148 PageLockTable::unlock *)
Definition unlock (l : PageLockTable) (p : Z) : PageLockTable :=
  clear_flag (set_owner l p 0) p.

(* src/vm/page_state.h:156-166 PageLockTable::heldByThisThread *)
Definition heldByThisThread (l : PageLockTable) (self p : Z) : bool :=
  rd 0 (owners l) p =? self.

(** ** Interleavings of the lock operations

    The control point of one thread with respect to one page: outside, after
    the successful [test_and_set], owner written, owner cleared. *)
Inductive LockPc := Outside | Taken | Held | Releasing.

#[export] Instance LockPc_eq_dec : EqDecision LockPc.
Proof. solve_decision. Defined.

Record LockWorld := { lw_table : PageLockTable; lw_pc : gmap (Z * Z) LockPc }.

Definition pc_of (w : LockWorld) (t p : Z) : LockPc := default Outside (lw_pc w !! (t, p)).
Definition set_pc (w : LockWorld) (t p : Z) (c : LockPc) : gmap (Z * Z) LockPc :=
  <[(t, p) := c]> (lw_pc w).

(** One atomic access by thread [t] (whose identity is nonzero). *)
Inductive lock_step : LockWorld -> LockWorld -> Prop :=
  | step_acquire w t p l' :
      t <> 0 -> pc_of w t p = Outside -> test_and_set (lw_table w) p = (false, l') ->
      lock_step w {| lw_table := l'; lw_pc := set_pc w t p Taken |}
  | step_acquire_fail w t p l' :
      t <> 0 -> pc_of w t p = Outside -> test_and_set (lw_table w) p = (true, l') ->
      lock_step w {| lw_table := l'; lw_pc := lw_pc w |}
  | step_own w t p :
      pc_of w t p = Taken ->
      lock_step w {| lw_table := set_owner (lw_table w) p t; lw_pc := set_pc w t p Held |}
  | step_disown w t p :
      pc_of w t p = Held ->
      lock_step w {| lw_table := set_owner (lw_table w) p 0; lw_pc := set_pc w t p Releasing |}
  | step_release w t p :
      pc_of w t p = Releasing ->
      lock_step w {| lw_table := clear_flag (lw_table w) p; lw_pc := set_pc w t p Outside |}.

Definition lock_init : LockWorld := {| lw_table := plt_init; lw_pc := ∅ |}.

(** The flag of a page is set exactly while one thread is past the
    [test_and_set], and the owner slot names that thread exactly while it is
    between its two owner writes. *)
Record lock_inv (w : LockWorld) : Prop := {
  li_flag : forall p, rd false (locks (lw_table w)) p = true <-> exists t, pc_of w t p <> Outside;
  li_excl : forall p t u, pc_of w t p <> Outside -> pc_of w u p <> Outside -> t = u;
  li_tid : forall p t, pc_of w t p <> Outside -> t <> 0;
  li_held : forall p t, pc_of w t p = Held -> rd 0 (owners (lw_table w)) p = t;
  li_owner : forall p, (forall t, pc_of w t p <> Held) -> rd 0 (owners (lw_table w)) p = 0
}.

(** ** Lemmas: state table *)

Lemma pst_get_set t i j st :
  pst_get (pst_set t i st) j = if i =? j then st else pst_get t j.
Proof. unfold pst_get, pst_set. simpl. apply rd_insert. Qed.

Lemma set_states_get m first n st j :
  rd EMPTY (set_states m first n st) j =
    if (first <=? j) && (j <? first + Z.of_nat n) then st else rd EMPTY m j.
Proof.
  revert m first. induction n as [|n IH]; intros m first; simpl.
  - case_if; [lia|done].
  - rewrite IH, rd_insert. repeat case_if; try done; lia.
Qed.

Lemma pst_get_setRange t first n st j :
  0 <= n ->
  pst_get (pst_setRange t first n st) j =
    if (first <=? j) && (j <? first + n) then st else pst_get t j.
Proof.
  intros. unfold pst_get, pst_setRange. simpl. rewrite set_states_get.
  by rewrite Z2Nat.id by lia.
Qed.

(** ** Lemmas: lock invariant *)

Lemma pc_set_eq w t p c l : pc_of {| lw_table := l; lw_pc := set_pc w t p c |} t p = c.
Proof. unfold pc_of, set_pc. simpl. by rewrite lookup_insert_eq. Qed.

Lemma pc_set_ne w t p c l u q :
  (u, q) <> (t, p) -> pc_of {| lw_table := l; lw_pc := set_pc w t p c |} u q = pc_of w u q.
Proof. intros. unfold pc_of, set_pc. simpl. by rewrite lookup_insert_ne by congruence. Qed.

Lemma pc_set w t p c l u q :
  pc_of {| lw_table := l; lw_pc := set_pc w t p c |} u q =
    if bool_decide ((u, q) = (t, p)) then c else pc_of w u q.
Proof.
  case_bool_decide as E; [injection E as -> ->; apply pc_set_eq | by apply pc_set_ne].
Qed.

Ltac pc_cases :=
  repeat match goal with
  | H : context [pc_of {| lw_table := _; lw_pc := set_pc _ _ _ _ |} _ _] |- _ => rewrite pc_set in H
  | |- context [pc_of {| lw_table := _; lw_pc := set_pc _ _ _ _ |} _ _] => rewrite pc_set
  end;
  repeat case_bool_decide; simplify_eq.

Lemma lock_inv_init : lock_inv lock_init.
Proof.
  assert (H : forall t p, pc_of lock_init t p = Outside) by (intros; done).
  constructor; intros *; try rewrite !H; try done.
  split; [done|]. intros [t Ht]. by rewrite H in Ht.
Qed.

(** A thread that passes the [test_and_set] finds the page free of others. *)
Lemma lock_inv_acquire w t p l' :
  lock_inv w -> t <> 0 -> pc_of w t p = Outside -> test_and_set (lw_table w) p = (false, l') ->
  lock_inv {| lw_table := l'; lw_pc := set_pc w t p Taken |}.
Proof.
  intros [Hf He Ht Hh Ho] Htid Hpc Hts. unfold test_and_set in Hts. injection Hts as Hfree <-.
  assert (Hnone : forall u, pc_of w u p = Outside).
  { intros u. destruct (decide (pc_of w u p = Outside)) as [|Hu]; [done|].
    assert (rd false (locks (lw_table w)) p = true) by (apply Hf; eauto). congruence. }
  constructor; simpl.
  - intros q. rewrite rd_insert. case_if; [subst|].
    + split; [|done]. exists t. pc_cases; done.
    + rewrite Hf. split; intros [u Hu]; exists u; revert Hu; pc_cases; done.
  - intros q u v Hu Hv. pc_cases; try done; try (by rewrite Hnone in *); by eapply He.
  - intros q u Hu. pc_cases; [done|by eapply Ht].
  - intros q u Hu. pc_cases. by apply Hh.
  - intros q Hq. apply Ho. intros u Hu. apply (Hq u). pc_cases; [|done].
    by rewrite Hnone in Hu.
Qed.

Lemma lock_inv_own w t p :
  lock_inv w -> pc_of w t p = Taken ->
  lock_inv {| lw_table := set_owner (lw_table w) p t; lw_pc := set_pc w t p Held |}.
Proof.
  intros [Hf He Ht Hh Ho] Hpc.
  assert (Honly : forall u, pc_of w u p <> Outside -> u = t) by (intros; eapply He; [done|by rewrite Hpc]).
  constructor; simpl.
  - intros q. rewrite Hf. split; intros [u Hu].
    + exists u. pc_cases; done.
    + revert Hu. pc_cases; intros Hu; [exists t; by rewrite Hpc|by exists u].
  - intros q u v Hu Hv. pc_cases; try done; try (symmetry; by apply Honly); try (by apply Honly); by eapply He.
  - intros q u Hu. pc_cases; [|by eapply Ht]. eapply Ht. by rewrite Hpc.
  - intros q u Hu. rewrite rd_insert. pc_cases.
    + by rewrite Z.eqb_refl.
    + case_if; subst; [|by apply Hh]. symmetry. apply Honly. by rewrite Hu.
  - intros q Hq. rewrite rd_insert. case_if; subst.
    + exfalso. apply (Hq t). by rewrite pc_set_eq.
    + apply Ho. intros u Hu. apply (Hq u). pc_cases; done.
Qed.

Lemma lock_inv_disown w t p :
  lock_inv w -> pc_of w t p = Held ->
  lock_inv {| lw_table := set_owner (lw_table w) p 0; lw_pc := set_pc w t p Releasing |}.
Proof.
  intros [Hf He Ht Hh Ho] Hpc.
  assert (Honly : forall u, pc_of w u p <> Outside -> u = t) by (intros; eapply He; [done|by rewrite Hpc]).
  constructor; simpl.
  - intros q. rewrite Hf. split; intros [u Hu].
    + exists u. pc_cases; done.
    + revert Hu. pc_cases; intros Hu; [exists t; by rewrite Hpc|by exists u].
  - intros q u v Hu Hv. pc_cases; try done; try (symmetry; by apply Honly); try (by apply Honly); by eapply He.
  - intros q u Hu. pc_cases; [|by eapply Ht]. eapply Ht. by rewrite Hpc.
  - intros q u Hu. rewrite rd_insert. pc_cases.
    case_if; subst; [|by apply Hh]. exfalso.
    assert (u = t) by (apply Honly; by rewrite Hu). subst. done.
  - intros q Hq. rewrite rd_insert. case_if; subst; [done|].
    apply Ho. intros u Hu. apply (Hq u). pc_cases; done.
Qed.

Lemma lock_inv_release w t p :
  lock_inv w -> pc_of w t p = Releasing ->
  lock_inv {| lw_table := clear_flag (lw_table w) p; lw_pc := set_pc w t p Outside |}.
Proof.
  intros [Hf He Ht Hh Ho] Hpc.
  assert (Honly : forall u, pc_of w u p <> Outside -> u = t) by (intros; eapply He; [done|by rewrite Hpc]).
  constructor; simpl.
  - intros q. rewrite rd_insert. case_if; subst.
    + split; [done|]. intros [u Hu]. revert Hu. pc_cases; [done|]. intros Hu.
      assert (u = t) by (by apply Honly). subst. done.
    + rewrite Hf. split; intros [u Hu]; exists u; revert Hu; pc_cases; done.
  - intros q u v Hu Hv. pc_cases; try done. by eapply He.
  - intros q u Hu. pc_cases. by eapply Ht.
  - intros q u Hu. pc_cases. by apply Hh.
  - intros q Hq. apply Ho. intros u Hu. apply (Hq u). pc_cases; congruence.
Qed.

Lemma lock_inv_step w w' : lock_step w w' -> lock_inv w -> lock_inv w'.
Proof.
  intros [? t p l' Htid Hpc Hts | ? t p l' Htid Hpc Hts | ? t p Hpc | ? t p Hpc | ? t p Hpc] Hinv.
  - by apply lock_inv_acquire.
  - unfold test_and_set in Hts. injection Hts as Hflag <-. destruct Hinv as [Hf He Ht Hh Ho].
    constructor; simpl; try done.
    intros q. rewrite rd_insert. case_if; subst; [|apply Hf].
    split; [intros _; by apply Hf|done].
  - by apply lock_inv_own.
  - by apply lock_inv_disown.
  - by apply lock_inv_release.
Qed.

(** C34: in every interleaving of the atomic accesses of [lock], [tryLock] and
    [unlock] by any number of threads, at most one thread is past the
    [test_and_set] of a page, and [heldByThisThread] answers true for a thread
    exactly while it is between the two owner writes of its critical section. *)
Theorem page_lock_mutual_exclusion (w : LockWorld) :
  rtc lock_step lock_init w ->
  (forall p t u, pc_of w t p <> Outside -> pc_of w u p <> Outside -> t = u) /\
  (forall p t, t <> 0 -> heldByThisThread (lw_table w) t p = true <-> pc_of w t p = Held).
Proof.
  intros Hreach. assert (Hinv : lock_inv w).
  { eapply rtc_invariant; [apply lock_inv_step|done|apply lock_inv_init]. }
  destruct Hinv as [Hf He Ht Hh Ho]. split; [exact He|].
  intros p t Htid. unfold heldByThisThread. rewrite Z.eqb_eq. split; [|apply Hh].
  intros Hown. destruct (decide (pc_of w t p = Held)) as [|Hn]; [done|].
  exfalso. rewrite Ho in Hown; [congruence|]. intros u Hu.
  rewrite (Hh _ _ Hu) in Hown. congruence.
Qed.

Lemma page_lock_mutual_exclusion_witness :
  let w := {| lw_table := set_owner (snd (test_and_set plt_init 7)) 7 3;
              lw_pc := <[(3, 7) := Held]> (<[(3, 7) := Taken]> ∅) |} in
  rtc lock_step lock_init w /\ heldByThisThread (lw_table w) 3 7 = true /\
  heldByThisThread (lw_table w) 4 7 = false /\
  (forall p t u, pc_of w t p <> Outside -> pc_of w u p <> Outside -> t = u).
Proof.
  intros w. assert (Hr : rtc lock_step lock_init w).
  { apply rtc_l with {| lw_table := snd (test_and_set plt_init 7); lw_pc := <[(3, 7) := Taken]> ∅ |}.
    - apply (step_acquire lock_init 3 7); [done|reflexivity|reflexivity].
    - apply rtc_once.
      exact (step_own {| lw_table := snd (test_and_set plt_init 7); lw_pc := <[(3, 7) := Taken]> ∅ |} 3 7 eq_refl). }
  split; [exact Hr|]. split; [reflexivity|]. split; [reflexivity|].
  exact (proj1 (page_lock_mutual_exclusion w Hr)).
Defined.
