(* ===== verification/IntrusiveList.v ===== *)
(** * Intrusive doubly-linked lists (src/util/intrusive_list.h)

    The list object holds head, tail and size; the links live in the nodes, so
    the nodes are a store from addresses to link pairs ([nullptr] is 0).  The
    representation predicate [rep] relates the pointers to a list of node
    addresses, and every operation is shown to implement the list operation
    of the same name, to preserve the predicate and to leave the links of every
    other node alone (so that the lists a slab keeps do not disturb each
    other). *)

From S2P Require Import Prelude.

Record Links := { list_prev : Z; list_next : Z }.

Abbreviation store := (gmap Z Links).

Definition null_links : Links := {| list_prev := 0; list_next := 0 |}.
Definition prev_of (h : store) (n : Z) : Z := list_prev (rd null_links h n).
Definition next_of (h : store) (n : Z) : Z := list_next (rd null_links h n).
Definition set_prev (h : store) (n v : Z) : store :=
  <[n := {| list_prev := v; list_next := next_of h n |}]> h.
Definition set_next (h : store) (n v : Z) : store :=
  <[n := {| list_prev := prev_of h n; list_next := v |}]> h.

(* src/util/intrusive_list.h:10-20 IntrusiveList *)
Record IntrusiveList := { head_ : Z; tail_ : Z; size_ : Z }.

Definition list_empty : IntrusiveList := {| head_ := 0; tail_ := 0; size_ := 0 |}.

(* src/util/intrusive_list.h:22-32 IntrusiveList::pushFront *)
Definition pushFront (L : IntrusiveList) (h : store) (node : Z) : IntrusiveList * store :=
  let h := set_prev h node 0 in
  let h := set_next h node (head_ L) in
  let '(tail, h) := if negb (head_ L =? 0) then (tail_ L, set_prev h (head_ L) node)
                    else (node, h) in
  ({| head_ := node; tail_ := tail; size_ := u64 (size_ L + 1) |}, h).

(* src/util/intrusive_list.h:34-44 IntrusiveList::pushBack *)
Definition pushBack (L : IntrusiveList) (h : store) (node : Z) : IntrusiveList * store :=
  let h := set_next h node 0 in
  let h := set_prev h node (tail_ L) in
  let '(hd, h) := if negb (tail_ L =? 0) then (head_ L, set_next h (tail_ L) node)
                  else (node, h) in
  ({| head_ := hd; tail_ := node; size_ := u64 (size_ L + 1) |}, h).

(* src/util/intrusive_list.h:46-59 IntrusiveList::popFront *)
Definition popFront (L : IntrusiveList) (h : store) : Z * IntrusiveList * store :=
  if head_ L =? 0 then (0, L, h)
  else
    let node := head_ L in
    let hd := next_of h node in
    let '(tail, h) := if negb (hd =? 0) then (tail_ L, set_prev h hd 0) else (0, h) in
    let h := set_next h node 0 in
    let h := set_prev h node 0 in
    (node, {| head_ := hd; tail_ := tail; size_ := u64 (size_ L - 1) |}, h).

(* src/util/intrusive_list.h:61-75 IntrusiveList::remove *)
Definition remove (L : IntrusiveList) (h : store) (node : Z) : IntrusiveList * store :=
  let '(hd, h) := if negb (prev_of h node =? 0)
                  then (head_ L, set_next h (prev_of h node) (next_of h node))
                  else (next_of h node, h) in
  let '(tl, h) := if negb (next_of h node =? 0)
                  then (tail_ L, set_prev h (next_of h node) (prev_of h node))
                  else (prev_of h node, h) in
  let h := set_prev h node 0 in
  let h := set_next h node 0 in
  ({| head_ := hd; tail_ := tl; size_ := u64 (size_ L - 1) |}, h).

(** ** Representation *)

Definition hd_or (d : Z) (l : list Z) : Z := match l with [] => d | x :: _ => x end.
Fixpoint last_or (d : Z) (l : list Z) : Z := match l with [] => d | x :: r => last_or x r end.

(** A segment of linked nodes between [p] and [n]. *)
Fixpoint dseg (h : store) (p : Z) (xs : list Z) (n : Z) : Prop :=
  match xs with
  | [] => True
  | x :: r => prev_of h x = p /\ next_of h x = hd_or n r /\ dseg h x r n
  end.

Record rep (L : IntrusiveList) (h : store) (xs : list Z) : Prop := {
  rep_head : head_ L = hd_or 0 xs;
  rep_tail : tail_ L = last_or 0 xs;
  rep_size : size_ L = u64 (zlen xs);
  rep_nodup : NoDup xs;
  rep_null : 0 ∉ xs;
  rep_seg : dseg h 0 xs 0
}.

(** Only the nodes of [xs] may differ. *)
Definition agree_off (h h' : store) (xs : list Z) : Prop :=
  forall n, n ∉ xs -> rd null_links h' n = rd null_links h n.

(** ** Abstract specification: a list of distinct non-null addresses

    A caller may push a node that is in no list and remove a node of the list;
    [None] is a call outside that contract. *)
Inductive list_op := OpPushFront (n : Z) | OpPushBack (n : Z) | OpPopFront | OpRemove (n : Z).

Definition list_remove (x : Z) (xs : list Z) : list Z := filter (fun y => y <> x) xs.

Definition spec_op (xs : list Z) (o : list_op) : option (Z * list Z) :=
  match o with
  | OpPushFront n => if bool_decide (n <> 0 /\ n ∉ xs) then Some (0, n :: xs) else None
  | OpPushBack n => if bool_decide (n <> 0 /\ n ∉ xs) then Some (0, xs ++ [n]) else None
  | OpPopFront => Some (hd_or 0 xs, tail xs)
  | OpRemove n => if bool_decide (n ∈ xs) then Some (0, list_remove n xs) else None
  end.

Definition exec_op (L : IntrusiveList) (h : store) (o : list_op) : Z * IntrusiveList * store :=
  match o with
  | OpPushFront n => let '(L, h) := pushFront L h n in (0, L, h)
  | OpPushBack n => let '(L, h) := pushBack L h n in (0, L, h)
  | OpPopFront => popFront L h
  | OpRemove n => let '(L, h) := remove L h n in (0, L, h)
  end.

Fixpoint spec_run (xs : list Z) (ops : list list_op) : option (list Z * list Z) :=
  match ops with
  | [] => Some ([], xs)
  | o :: rest =>
    match spec_op xs o with
    | Some (r, ys) => match spec_run ys rest with Some (rs, zs) => Some (r :: rs, zs) | None => None end
    | None => None
    end
  end.

Fixpoint exec_run (L : IntrusiveList) (h : store) (ops : list list_op)
    : list Z * IntrusiveList * store :=
  match ops with
  | [] => ([], L, h)
  | o :: rest =>
    let '(r, L, h) := exec_op L h o in
    let '(rs, L, h) := exec_run L h rest in (r :: rs, L, h)
  end.

(** ** Lemmas: links *)

Lemma prev_set_prev h n m v : prev_of (set_prev h n v) m = if n =? m then v else prev_of h m.
Proof. unfold prev_of, set_prev. rewrite rd_insert. by case_if. Qed.

Lemma next_set_prev h n m v : next_of (set_prev h n v) m = next_of h m.
Proof. unfold next_of, set_prev. rewrite rd_insert. case_if; subst; done. Qed.

Lemma next_set_next h n m v : next_of (set_next h n v) m = if n =? m then v else next_of h m.
Proof. unfold next_of, set_next. rewrite rd_insert. by case_if. Qed.

Lemma prev_set_next h n m v : prev_of (set_next h n v) m = prev_of h m.
Proof. unfold prev_of, set_next. rewrite rd_insert. case_if; subst; done. Qed.

Lemma agree_set_prev h n v xs : n ∈ xs -> agree_off h (set_prev h n v) xs.
Proof. intros Hn m Hm. unfold set_prev. rewrite rd_insert_ne; [done|]. congruence. Qed.

Lemma agree_set_next h n v xs : n ∈ xs -> agree_off h (set_next h n v) xs.
Proof. intros Hn m Hm. unfold set_next. rewrite rd_insert_ne; [done|]. congruence. Qed.

Lemma agree_off_trans h1 h2 h3 xs : agree_off h1 h2 xs -> agree_off h2 h3 xs -> agree_off h1 h3 xs.
Proof. intros H1 H2 n Hn. by rewrite H2, H1. Qed.

Lemma agree_off_refl h xs : agree_off h h xs.
Proof. by intros n Hn. Qed.

#[export] Hint Resolve agree_set_prev agree_set_next agree_off_trans agree_off_refl : smash.

(** ** Lemmas: segments *)

Lemma last_or_app d l x : last_or d (l ++ [x]) = x.
Proof. revert d. induction l as [|y l IH]; intros d; simpl; [done|apply IH]. Qed.

Lemma last_or_app2 d l k : last_or d (l ++ k) = last_or (last_or d l) k.
Proof. revert d. induction l as [|y l IH]; intros d; simpl; [done|apply IH]. Qed.

Lemma last_or_in d l : l <> [] -> last_or d l ∈ l.
Proof.
  revert d. induction l as [|y [|z l] IH]; intros d H; [done|simpl; set_solver|].
  apply elem_of_cons. right. by apply (IH y).
Qed.

Lemma hd_or_app d l k : hd_or d (l ++ k) = hd_or (hd_or d k) l.
Proof. by destruct l. Qed.

Lemma dseg_app h p l k n :
  dseg h p (l ++ k) n <-> dseg h p l (hd_or n k) /\ dseg h (last_or p l) k n.
Proof.
  revert p. induction l as [|x l IH]; intros p; simpl; [naive_solver|].
  rewrite IH, hd_or_app. tauto.
Qed.

Lemma dseg_frame h h' p xs n :
  (forall x, x ∈ xs -> rd null_links h' x = rd null_links h x) -> dseg h p xs n -> dseg h' p xs n.
Proof.
  revert p. induction xs as [|x xs IH]; intros p Hag; simpl; [done|].
  intros (? & ? & ?). unfold prev_of, next_of in *. rewrite Hag by set_solver. splits; try done.
  apply IH; [|done]. intros. apply Hag. set_solver.
Qed.

(** Rewriting the back link of the first node of a segment. *)
Lemma dseg_set_prev h p p' x xs n :
  x ∉ xs -> dseg h p (x :: xs) n -> dseg (set_prev h x p') p' (x :: xs) n.
Proof.
  intros Hx (? & ? & Hs). simpl. rewrite prev_set_prev, next_set_prev, Z.eqb_refl. splits; try done.
  eapply dseg_frame; [|done]. intros y Hy. unfold set_prev. rewrite rd_insert_ne; [done|]. congruence.
Qed.

(** Rewriting the forward link of the last node of a segment. *)
Lemma dseg_set_next h p x xs n n' :
  x ∉ xs -> dseg h p (xs ++ [x]) n -> dseg (set_next h x n') p (xs ++ [x]) n'.
Proof.
  intros Hx. rewrite !dseg_app. simpl. rewrite prev_set_next, next_set_next, Z.eqb_refl.
  intros [H1 (? & ? & _)]. splits; try done. eapply dseg_frame; [|done].
  intros y Hy. unfold set_next. rewrite rd_insert_ne; [done|]. congruence.
Qed.

Lemma dseg_one h p x n : prev_of h x = p -> next_of h x = n -> dseg h p [x] n.
Proof. done. Qed.

(** A list is determined by its nodes: other updates do not touch it. *)
Lemma rep_frame L h h' xs ys :
  rep L h xs -> agree_off h h' ys -> (forall x, x ∈ xs -> x ∉ ys) -> rep L h' xs.
Proof.
  intros [] Hag Hd. constructor; try done. eapply dseg_frame; [|done].
  intros x Hx. apply Hag. by apply Hd.
Qed.

Lemma hd_or_null xs : 0 ∉ xs -> hd_or 0 xs = 0 -> xs = [].
Proof. destruct xs; [done|]. simpl. set_solver. Qed.

Lemma last_or_null xs : 0 ∉ xs -> last_or 0 xs = 0 -> xs = [].
Proof.
  destruct xs as [|x xs]; [done|]. intros H0 H1. exfalso. apply H0. rewrite <- H1 at 1.
  by apply last_or_in.
Qed.

Lemma u64_add a b : u64 (u64 a + b) = u64 (a + b).
Proof. unfold wrap. apply Zplus_mod_idemp_l. Qed.

Lemma u64_sub a b : u64 (u64 a - b) = u64 (a - b).
Proof. unfold wrap. apply Zminus_mod_idemp_l. Qed.

(** ** Refinement of the list operations *)

Lemma pushFront_rep L h xs node :
  rep L h xs -> node <> 0 -> node ∉ xs ->
  let '(L', h') := pushFront L h node in
  rep L' h' (node :: xs) /\ agree_off h h' (node :: xs).
Proof.
  intros [Hh Ht Hs Hd Hn Hseg] Hnode Hfresh. unfold pushFront.
  assert (Hseg' : dseg (set_next (set_prev h node 0) node (head_ L)) 0 xs 0).
  { eapply dseg_frame; [|done]. intros x Hx. unfold set_next, set_prev.
    rewrite !rd_insert_ne; [done|congruence|congruence]. }
  destruct (negb (head_ L =? 0)) eqn:E; b2p.
  - destruct xs as [|x xs]; [done|]. simpl in Hh. rewrite Hh in *.
    assert (node <> x) by set_solver.
    split.
    + constructor; cbn [head_ tail_ size_]; [done|done| | | |].
      * rewrite Hs, u64_add. rewrite !zlen_cons. f_equal. lia.
      * by constructor.
      * set_solver.
      * split; [|split].
        -- rewrite prev_set_prev, prev_set_next, prev_set_prev, Z.eqb_refl. by case_if.
        -- rewrite next_set_prev, next_set_next, Z.eqb_refl. done.
        -- apply (dseg_set_prev _ 0 node x xs); [by inversion Hd|done].
    + intros m Hm. unfold set_prev at 1.
      rewrite rd_insert_ne by set_solver.
      unfold set_next, set_prev. rewrite !rd_insert_ne by set_solver. done.
  - assert (xs = []) as -> by (apply hd_or_null; congruence). split.
    + constructor; simpl; [done|done| | | |].
      * rewrite Hs, u64_add. done.
      * apply NoDup_singleton.
      * set_solver.
      * rewrite prev_set_next, next_set_next, prev_set_prev, Z.eqb_refl. simpl. by rewrite E.
    + intros m Hm. unfold set_next, set_prev. rewrite !rd_insert_ne by set_solver. done.
Qed.

Lemma pushBack_rep L h xs node :
  rep L h xs -> node <> 0 -> node ∉ xs ->
  let '(L', h') := pushBack L h node in
  rep L' h' (xs ++ [node]) /\ agree_off h h' (xs ++ [node]).
Proof.
  intros [Hh Ht Hs Hd Hn Hseg] Hnode Hfresh. unfold pushBack.
  set (h1 := set_prev (set_next h node 0) node (tail_ L)).
  assert (Hseg' : dseg h1 0 xs 0).
  { eapply dseg_frame; [|done]. intros x Hx. unfold h1, set_next, set_prev.
    rewrite !rd_insert_ne; [done|congruence|congruence]. }
  assert (Hnd : NoDup (xs ++ [node])).
  { apply NoDup_app. splits; [done|set_solver|apply NoDup_singleton]. }
  assert (Hp : prev_of h1 node = tail_ L) by (unfold h1; by rewrite prev_set_prev, Z.eqb_refl).
  assert (Hx : next_of h1 node = 0) by (unfold h1; by rewrite next_set_prev, next_set_next, Z.eqb_refl).
  assert (Hag : agree_off h h1 (xs ++ [node])).
  { intros m Hm. unfold h1, set_next, set_prev. rewrite !rd_insert_ne by set_solver. done. }
  assert (Hsz : u64 (size_ L + 1) = u64 (zlen (xs ++ [node]))).
  { rewrite Hs, u64_add, zlen_app. done. }
  destruct (negb (tail_ L =? 0)) eqn:E; b2p.
  - destruct (exists_last (l := xs)) as (l & y & ->).
    { intros ->. simpl in Ht. congruence. }
    rewrite last_or_app in Ht. rewrite Ht in *.
    assert (y ∉ l) by (apply NoDup_app in Hd; set_solver).
    split; [|eapply agree_off_trans; [exact Hag|apply agree_set_next; set_solver]].
    constructor; simpl; [by rewrite Hh, !hd_or_app|by rewrite last_or_app|done|done|set_solver|].
    apply dseg_app. split; [simpl; by apply dseg_set_next with 0|].
    rewrite last_or_app. apply dseg_one; [by rewrite prev_set_next|].
    rewrite next_set_next, (proj2 (Z.eqb_neq y node)); [done|set_solver].
  - assert (xs = []) as -> by (apply last_or_null; congruence). split; [|done].
    constructor; simpl; try done; [set_solver|]. splits; try done. congruence.
Qed.

Lemma popFront_rep L h xs :
  rep L h xs ->
  let '(r, L', h') := popFront L h in
  r = hd_or 0 xs /\ rep L' h' (tail xs) /\ agree_off h h' xs.
Proof.
  intros [Hh Ht Hs Hd Hn Hseg]. unfold popFront. destruct (head_ L =? 0) eqn:E; b2p.
  - assert (xs = []) as -> by (apply hd_or_null; congruence). splits; [done| |apply agree_off_refl].
    by constructor.
  - destruct xs as [|x xs]; [done|]. simpl in Hh, Hseg. destruct Hseg as (Hp & Hnx & Hseg).
    rewrite Hh, Hnx. apply NoDup_cons in Hd as [Hx Hd'].
    assert (Hsz : u64 (size_ L - 1) = u64 (zlen xs)).
    { rewrite Hs, u64_sub, zlen_cons. f_equal. lia. }
    destruct (negb (hd_or 0 xs =? 0)) eqn:E2; b2p.
    + destruct xs as [|y ys]; [done|]. simpl in *.
      assert (y <> x /\ (y ∉ ys) /\ (0 ∉ (y :: ys))) as (? & ? & ?).
      { apply NoDup_cons in Hd' as [? _]. splits; set_solver. }
      splits; [done| |].
      * constructor; cbn [head_ tail_ size_ tail]; try done.
        apply (dseg_frame (set_prev h y 0)).
        { intros z Hz. unfold set_prev at 1. rewrite rd_insert_ne by set_solver.
          unfold set_next. by rewrite rd_insert_ne by set_solver. }
        apply (dseg_set_prev h x 0 y ys 0); done.
      * intros m Hm. unfold set_prev, set_next. rewrite !rd_insert_ne by set_solver. done.
    + assert (xs = []) as ->. { apply hd_or_null; [set_solver|done]. } simpl in *.
      splits; [done| |].
      * constructor; cbn [head_ tail_ size_ tail]; try done. set_solver.
      * intros m Hm. unfold set_prev, set_next. rewrite !rd_insert_ne by set_solver. done.
Qed.

(** Unlinking a node between [l1] and [l2]. *)
Lemma remove_rep_split L h l1 x l2 :
  rep L h (l1 ++ x :: l2) ->
  let '(L', h') := remove L h x in
  rep L' h' (l1 ++ l2) /\ agree_off h h' (l1 ++ x :: l2).
Proof.
  intros [Hh Ht Hs Hd Hn Hseg].
  pose proof Hd as Hd0. apply NoDup_app in Hd0 as (Hd1 & Hd12 & Hd2).
  apply NoDup_cons in Hd2 as [Hx2 Hd2].
  assert (Hx1 : x ∉ l1) by set_solver.
  apply dseg_app in Hseg as [Hs1 Hs2]. simpl in Hs1. destruct Hs2 as (Hp & Hnx & Hs2).
  assert (Hsz : u64 (size_ L - 1) = u64 (zlen (l1 ++ l2))).
  { rewrite Hs, u64_sub, !zlen_app, zlen_cons. f_equal. lia. }
  unfold remove. rewrite Hp.
  (* the forward link of the node before x *)
  set (h1 := if negb (last_or 0 l1 =? 0) then set_next h (last_or 0 l1) (next_of h x) else h).
  assert (E1 : (if negb (last_or 0 l1 =? 0) then (head_ L, h1) else (next_of h x, h))
               = (hd_or 0 (l1 ++ l2), h1)).
  { unfold h1. case_if.
    - destruct l1; [done|]. by rewrite Hh.
    - apply last_or_null in E; [|set_solver]. subst. by rewrite Hnx. }
  replace (if negb (last_or 0 l1 =? 0) then (head_ L, set_next h (last_or 0 l1) (next_of h x))
           else (next_of h x, h))
    with (hd_or 0 (l1 ++ l2), h1) by (rewrite <- E1; unfold h1; by case_if).
  assert (Hh1 : rd null_links h1 x = rd null_links h x /\ dseg h1 0 l1 (hd_or 0 l2) /\
                dseg h1 x l2 0 /\ agree_off h h1 (l1 ++ x :: l2)).
  { unfold h1. case_if.
    - destruct (exists_last (l := l1)) as (k & y & ->); [by intros ->|]. rewrite last_or_app.
      assert (y <> x /\ (y ∉ k) /\ (y ∉ l2)) as (? & ? & ?).
      { apply NoDup_app in Hd1 as (_ & ? & _). set_solver. }
      splits.
      + unfold set_next. by rewrite rd_insert_ne.
      + rewrite Hnx. by apply dseg_set_next with x.
      + eapply dseg_frame; [|done]. intros z Hz. unfold set_next. rewrite rd_insert_ne; [done|]. congruence.
      + apply agree_set_next. set_solver.
    - apply last_or_null in E; [|set_solver]. subst. splits; try done. }
  clearbody h1. destruct Hh1 as (Ex & Hd1' & Hd2' & Hag).
  assert (Hnx1 : next_of h1 x = hd_or 0 l2) by (unfold next_of in *; by rewrite Ex).
  assert (Hp1 : prev_of h1 x = last_or 0 l1) by (unfold prev_of in *; by rewrite Ex).
  rewrite Hnx1, Hp1.
  (* the back link of the node after x *)
  assert (Hfin : forall t h2, t = last_or 0 (l1 ++ l2) -> dseg h2 0 (l1 ++ l2) 0 ->
    agree_off h1 h2 (l1 ++ x :: l2) ->
    rep {| head_ := hd_or 0 (l1 ++ l2); tail_ := t; size_ := u64 (size_ L - 1) |}
        (set_next (set_prev h2 x 0) x 0) (l1 ++ l2) /\
    agree_off h (set_next (set_prev h2 x 0) x 0) (l1 ++ x :: l2)).
  { intros t h2 -> Hseg2 Hag2. split.
    - constructor; cbn [head_ tail_ size_]; try done; [|set_solver|].
      + apply NoDup_app. set_solver.
      + eapply dseg_frame; [|done]. intros z Hz. unfold set_next, set_prev.
        rewrite !rd_insert_ne by set_solver. done.
    - eapply agree_off_trans; [exact Hag|]. eapply agree_off_trans; [exact Hag2|].
      intros m Hm. unfold set_next, set_prev. rewrite !rd_insert_ne by set_solver. done. }
  destruct (negb (hd_or 0 l2 =? 0)) eqn:E; b2p.
  - destruct l2 as [|y l2]; [done|]. simpl hd_or in *.
    apply NoDup_cons in Hd2 as [? ?]. apply Hfin.
    + rewrite Ht, !last_or_app2. done.
    + apply dseg_app. split.
      * eapply dseg_frame; [|done]. intros z Hz. unfold set_prev. rewrite rd_insert_ne; [done|]. set_solver.
      * by apply dseg_set_prev with x.
    + apply agree_set_prev. set_solver.
  - apply hd_or_null in E; [|set_solver]. subst. apply Hfin; [by rewrite app_nil_r|..].
    + by rewrite app_nil_r.
    + apply agree_off_refl.
Qed.

Lemma list_remove_split x l1 l2 : x ∉ l1 -> x ∉ l2 -> list_remove x (l1 ++ x :: l2) = l1 ++ l2.
Proof.
  intros H1 H2. unfold list_remove. rewrite filter_app, filter_cons_False by (intros ?; done).
  f_equal; apply filter_all; intros; set_solver.
Qed.

Lemma remove_rep L h xs x :
  rep L h xs -> x ∈ xs ->
  let '(L', h') := remove L h x in rep L' h' (list_remove x xs) /\ agree_off h h' xs.
Proof.
  intros Hr Hx. apply list_elem_of_split in Hx as (l1 & l2 & ->).
  pose proof (rep_nodup _ _ _ Hr) as Hd. apply NoDup_app in Hd as (? & ? & [? ?]%NoDup_cons).
  rewrite list_remove_split by set_solver. by apply remove_rep_split.
Qed.

Lemma exec_op_refines L h xs o r ys :
  rep L h xs -> spec_op xs o = Some (r, ys) ->
  exists L' h', exec_op L h o = (r, L', h') /\ rep L' h' ys.
Proof.
  intros Hr. destruct o as [n|n| |n]; simpl.
  - case_bool_decide as Hc; [|done]. intros [= <- <-].
    pose proof (pushFront_rep L h xs n Hr (proj1 Hc) (proj2 Hc)) as H.
    destruct (pushFront L h n) as [L' h']. exists L', h'. naive_solver.
  - case_bool_decide as Hc; [|done]. intros [= <- <-].
    pose proof (pushBack_rep L h xs n Hr (proj1 Hc) (proj2 Hc)) as H.
    destruct (pushBack L h n) as [L' h']. exists L', h'. naive_solver.
  - intros [= <- <-]. pose proof (popFront_rep L h xs Hr) as H.
    destruct (popFront L h) as [[v L'] h']. exists L', h'. naive_solver.
  - case_bool_decide as Hc; [|done]. intros [= <- <-].
    pose proof (remove_rep L h xs n Hr Hc) as H.
    destruct (remove L h n) as [L' h']. exists L', h'. naive_solver.
Qed.

(** The pointer manipulations of [pushFront], [pushBack], [popFront] and
    [remove] implement the list operations: for every sequence of calls within
    the contract (a pushed node is in no list, a removed node is in the list),
    the values returned are those of the list and the links again represent
    the resulting list. *)
Lemma intrusive_list_refines (L : IntrusiveList) (h : store) (xs : list Z)
    (ops : list list_op) (rs ys : list Z) :
  rep L h xs -> spec_run xs ops = Some (rs, ys) ->
  exists L' h', exec_run L h ops = (rs, L', h') /\ rep L' h' ys.
Proof.
  revert L h xs rs. induction ops as [|o ops IH]; intros L h xs rs Hr Hs; simpl in *.
  - injection Hs as <- <-. eauto.
  - destruct (spec_op xs o) as [[r zs]|] eqn:Eo; [|done].
    destruct (spec_run zs ops) as [[rs' zs']|] eqn:Er; [|done]. injection Hs as <- <-.
    destruct (exec_op_refines L h xs o r zs Hr Eo) as (L1 & h1 & -> & Hr1).
    destruct (IH L1 h1 zs rs' Hr1 Er) as (L2 & h2 & -> & Hr2). eauto.
Qed.

Lemma rep_empty : rep list_empty ∅ [].
Proof. constructor; try done; [constructor|set_solver]. Qed.
