(* ===== verification/Bootstrap.v ===== *)
(** * Metadata bump allocator (src/core/bootstrap_alloc.h)

    Regions reserved from the kernel are bump-allocated and never freed.  The
    compare-and-swap of [tryAllocFrom] makes one allocation atomic, so the
    model takes it as one step.  The kernel's answer to [reservePages] is an
    argument (the address, or [None]); [fresh_mapping] states what [mmap] promises
    about it.  [ps] is [sysconf(_SC_PAGESIZE)]. *)

From S2P Require Import Prelude BitOps Config.

(* src/core/bootstrap_alloc.h:25-30 BootstrapAlloc::Region *)
Record Region := mkRegion { r_base : Z; r_capacity : Z; r_offset : Z; r_committed : Z }.

(* src/core/bootstrap_alloc.h:32-44 BootstrapAlloc *)
Record BootstrapAlloc := mkBoot { regions : list Region; bounds_lo : Z; bounds_hi : Z }.

(* include/smash/config.h:239-239 kBootstrapInitialSize *)
Definition kBootstrapInitialSize : Z := 64 * 1024 * 1024.
(* include/smash/config.h:240-240 kBootstrapExpandSize *)
Definition kBootstrapExpandSize : Z := 16 * 1024 * 1024.
(* include/smash/config.h:241-241 kBootstrapMaxRegions *)
Definition kBootstrapMaxRegions : Z := 64.

(** [roundUpToPage] is the expression of [roundUp] at the system page size. *)
(* src/core/bootstrap_alloc.h:51-54 BootstrapAlloc::roundUpToPage *)
Definition roundUpToPage (ps n : Z) : Z := roundUp n ps.

(* src/core/bootstrap_alloc.h:56-64 BootstrapAlloc::commitLocked *)
Definition commitLocked (ps : Z) (r : Region) (end_ : Z) : Region :=
  let target := roundUpToPage ps end_ in
  let target := if r_capacity r <? target then r_capacity r else target in
  if target <=? r_committed r then r
  else mkRegion (r_base r) (r_capacity r) (r_offset r) target.

(* src/core/bootstrap_alloc.h:66-81 BootstrapAlloc::ensureCommitted *)
Definition boot_ensureCommitted (ps : Z) (r : Region) (end_ : Z) : Region :=
  if end_ <=? r_committed r then r else commitLocked ps r end_.

(* src/core/bootstrap_alloc.h:83-94 BootstrapAlloc::tryAllocFrom *)
Definition tryAllocFrom (ps : Z) (r : Region) (size align : Z) : option (Z * Region) :=
  let aligned := roundUp (r_offset r) align in
  let end_ := u64 (aligned + size) in
  if r_capacity r <? end_ then None
  else
    let r := mkRegion (r_base r) (r_capacity r) end_ (r_committed r) in
    Some (r_base r + aligned, boot_ensureCommitted ps r end_).

(* src/core/bootstrap_alloc.h:96-125 BootstrapAlloc::addRegion *)
Definition addRegion (b : BootstrapAlloc) (mem : option Z) (size : Z) : bool * BootstrapAlloc :=
  match mem with
  | None => (false, b)
  | Some base =>
    if kBootstrapMaxRegions <=? zlen (regions b) then (false, b)  (* unmapped again *)
    else
      (true, {| regions := regions b ++ [mkRegion base size 0 0];
                bounds_lo := if base <? bounds_lo b then base else bounds_lo b;
                bounds_hi := if bounds_hi b <? base + size then base + size else bounds_hi b |})
  end.

Definition region0 : Region := mkRegion 0 0 0 0.

(** [tryAllocFrom(regions_[i])], writing the region back. *)
Definition try_region (ps : Z) (b : BootstrapAlloc) (i size align : Z) : option (Z * BootstrapAlloc) :=
  match tryAllocFrom ps (zget region0 (regions b) i) size align with
  | Some (p, r) => Some (p, {| regions := zset (regions b) i r;
                               bounds_lo := bounds_lo b; bounds_hi := bounds_hi b |})
  | None => None
  end.

(* src/core/bootstrap_alloc.h:127-140 BootstrapAlloc::expandAndAllocate *)
Definition expandAndAllocate (ps : Z) (b : BootstrapAlloc) (mem : Z -> option Z) (size align : Z)
    : option Z * BootstrapAlloc :=
  let n := zlen (regions b) in
  let retry := if 0 <? n then try_region ps b (n - 1) size align else None in
  match retry with
  | Some (p, b) => (Some p, b)
  | None =>
    let region_size := kBootstrapExpandSize in
    let region_size := if region_size <? u64 (size + align) then u64 (size + align) else region_size in
    match addRegion b (mem region_size) region_size with
    | (false, b) => (None, b)
    | (true, b) =>
      match try_region ps b (zlen (regions b) - 1) size align with
      | Some (p, b) => (Some p, b)
      | None => (None, b)
      end
    end
  end.

(** [for (i = n; i > 0; --i)] *)
Fixpoint try_all (ps : Z) (b : BootstrapAlloc) (n : nat) (size align : Z) : option (Z * BootstrapAlloc) :=
  match n with
  | O => None
  | S i =>
    match try_region ps b (Z.of_nat i) size align with
    | Some r => Some r
    | None => try_all ps b i size align
    end
  end.

(* src/core/bootstrap_alloc.h:185-194 BootstrapAlloc::allocate *)
Definition boot_allocate (ps : Z) (b : BootstrapAlloc) (mem : Z -> option Z) (size align : Z)
    : option Z * BootstrapAlloc :=
  let size := if size =? 0 then 1 else size in
  match try_all ps b (length (regions b)) size align with
  | Some (p, b) => (Some p, b)
  | None => expandAndAllocate ps b mem size align
  end.

(* src/core/bootstrap_alloc.h:225-241 BootstrapAlloc::owns *)
Definition boot_owns (b : BootstrapAlloc) (p : Z) : bool :=
  if p <? bounds_lo b then false
  else if bounds_hi b <=? p then false
  else existsb (fun r => (r_base r <=? p) && (p <? r_base r + r_capacity r)) (regions b).

(* src/core/bootstrap_alloc.h:142-144 BootstrapAlloc::BootstrapAlloc *)
Definition boot_init (mem : option Z) : BootstrapAlloc :=
  snd (addRegion {| regions := []; bounds_lo := 2 ^ 64 - 1; bounds_hi := 0 |} mem kBootstrapInitialSize).

(** ** Specification *)

Definition in_region (r : Region) (p n : Z) : Prop := r_base r <= p /\ p + n <= r_base r + r_offset r.

Record region_ok (r : Region) : Prop := {
  ro_base : 0 <= r_base r /\ r_base r mod 4096 = 0 /\ r_base r + r_capacity r < 2 ^ 64;
  ro_offset : 0 <= r_offset r <= r_committed r;
  ro_committed : r_committed r <= r_capacity r
}.

Definition regions_apart (r q : Region) : Prop :=
  disjoint_iv (r_base r) (r_capacity r) (r_base q) (r_capacity q).

Definition blocks_apart (a c : Z * Z) : Prop := disjoint_iv a.1 a.2 c.1 c.2.

(** [blocks] are the (address, size) pairs handed out so far. *)
Record boot_inv (b : BootstrapAlloc) (blocks : list (Z * Z)) : Prop := {
  bi_ok : Forall region_ok (regions b);
  bi_apart : forall i j, 0 <= i < j -> j < zlen (regions b) ->
    regions_apart (zget region0 (regions b) i) (zget region0 (regions b) j);
  bi_bounds : Forall (fun r => bounds_lo b <= r_base r /\ r_base r + r_capacity r <= bounds_hi b) (regions b);
  bi_max : zlen (regions b) <= kBootstrapMaxRegions;
  bi_in : Forall (fun a => 1 <= a.2 /\ exists i, 0 <= i < zlen (regions b) /\
                           in_region (zget region0 (regions b) i) a.1 a.2) blocks;
  bi_disj : ForallOrdPairs blocks_apart blocks
}.

(** What [mmap] promises of a new reservation. *)
Definition fresh_mapping (b : BootstrapAlloc) (mem : Z -> option Z) : Prop :=
  forall size base, mem size = Some base -> 0 <= size ->
    0 <= base /\ base mod 4096 = 0 /\ base + size < 2 ^ 64 /\
    Forall (fun r => disjoint_iv base size (r_base r) (r_capacity r)) (regions b).

(** ** Lemmas *)

Lemma zget_region_in rs i :
  0 <= i < zlen rs -> zget region0 rs i ∈ rs.
Proof.
  unfold zget, zlen. intros Hi. rewrite (proj2 (Z.leb_le 0 i)) by lia.
  destruct (rs !! Z.to_nat i) as [r|] eqn:E; [by apply list_elem_of_lookup_2 in E|].
  apply lookup_ge_None in E. lia.
Qed.

Lemma region_get_ok b blocks i :
  boot_inv b blocks -> 0 <= i < zlen (regions b) -> region_ok (zget region0 (regions b) i).
Proof.
  intros I Hi. pose proof (bi_ok _ _ I) as Hok. rewrite Forall_forall in Hok.
  by apply Hok, zget_region_in.
Qed.

Lemma roundUp_align off k :
  0 <= k <= 12 -> 0 <= off < 2 ^ 63 -> off <= roundUp off (2 ^ k) < off + 2 ^ k /\ roundUp off (2 ^ k) mod 2 ^ k = 0.
Proof.
  intros Hk Ho. assert (2 ^ k <= 2 ^ 12) by (apply Z.pow_le_mono_r; lia). apply roundUp_ge; lia.
Qed.

Lemma commit_target kp end_ cap :
  0 <= kp <= 16 -> 0 <= end_ <= cap -> cap < 2 ^ 63 ->
  end_ <= (if cap <? roundUpToPage (2 ^ kp) end_ then cap else roundUpToPage (2 ^ kp) end_) <= cap.
Proof.
  intros Hkp He Hc. assert (2 ^ kp <= 2 ^ 16) by (apply Z.pow_le_mono_r; lia).
  pose proof (roundUp_ge kp end_ ltac:(lia) ltac:(lia) ltac:(lia)). unfold roundUpToPage. case_if; lia.
Qed.

(** One bump: aligned, past everything handed out from the region, committed. *)
Lemma tryAllocFrom_spec kp r size k p r' :
  0 <= kp <= 16 -> 0 <= k <= 12 -> region_ok r -> r_capacity r < 2 ^ 63 -> 1 <= size < 2 ^ 62 ->
  tryAllocFrom (2 ^ kp) r size (2 ^ k) = Some (p, r') ->
  p mod 2 ^ k = 0 /\ r_base r + r_offset r <= p /\ in_region r' p size /\ region_ok r' /\
  r_base r' = r_base r /\ r_capacity r' = r_capacity r /\ r_offset r <= r_offset r'.
Proof.
  intros Hkp Hk [(Hb & Hbm & Hbc) Ho Hc] Hcap Hs. unfold tryAllocFrom.
  pose proof (roundUp_align (r_offset r) k Hk ltac:(lia)) as [Hr Hrm].
  assert (2 ^ k <= 2 ^ 12) by (apply Z.pow_le_mono_r; lia). assert (0 < 2 ^ k) by lia.
  set (al := roundUp (r_offset r) (2 ^ k)) in *. rewrite wrap_small by lia.
  case_if; [done|]. intros [= <- <-].
  assert (Hbk : r_base r mod 2 ^ k = 0).
  { change 4096 with (2 ^ 12) in Hbm.
    assert (2 ^ 12 = 2 ^ k * 2 ^ (12 - k)) as E2 by (rewrite <- Z.pow_add_r by lia; f_equal; lia).
    apply Z.mod_divide; [lia|]. apply Z.mod_divide in Hbm; [|lia]. rewrite E2 in Hbm.
    etransitivity; [|exact Hbm]. apply Z.divide_factor_l. }
  unfold boot_ensureCommitted. cbn [r_base r_capacity r_committed r_offset]. splits.
  - rewrite Z.add_mod, Hbk, Hrm by lia. done.
  - lia.
  - unfold in_region, commitLocked. repeat case_if; cbn; lia.
  - unfold commitLocked. cbn [r_base r_capacity r_committed r_offset].
    pose proof (commit_target kp (al + size) (r_capacity r) Hkp ltac:(lia) Hcap).
    repeat case_if; constructor; cbn; try done; lia.
  - unfold commitLocked. repeat case_if; done.
  - unfold commitLocked. repeat case_if; done.
  - unfold commitLocked. repeat case_if; cbn; lia.
Qed.

Lemma blocks_region_apart b blocks i p n :
  boot_inv b blocks -> 0 <= i < zlen (regions b) -> 1 <= n ->
  r_base (zget region0 (regions b) i) + r_offset (zget region0 (regions b) i) <= p ->
  p + n <= r_base (zget region0 (regions b) i) + r_capacity (zget region0 (regions b) i) ->
  Forall (blocks_apart (p, n)) blocks.
Proof.
  intros I Hi Hn Hp Hpe. pose proof (bi_in _ _ I) as Hin. rewrite Forall_forall in Hin |- *.
  intros [q m] Hq. destruct (Hin _ Hq) as (Hm & j & Hj & Hreg). unfold in_region in Hreg. simpl in *.
  unfold blocks_apart, disjoint_iv. simpl.
  pose proof (ro_offset _ (region_get_ok b blocks j I Hj)).
  pose proof (ro_committed _ (region_get_ok b blocks j I Hj)).
  pose proof (ro_offset _ (region_get_ok b blocks i I Hi)).
  destruct (Z.lt_trichotomy i j) as [Hlt|[->|Hlt]]; [|lia|].
  - pose proof (bi_apart _ _ I i j ltac:(lia) ltac:(lia)). unfold regions_apart, disjoint_iv in *. lia.
  - pose proof (bi_apart _ _ I j i ltac:(lia) ltac:(lia)). unfold regions_apart, disjoint_iv in *. lia.
Qed.

Lemma Forall_zset {A} (P : A -> Prop) l i v : Forall P l -> P v -> Forall P (zset l i v).
Proof. intros Hl Hv. unfold zset. case_if; [by apply Forall_insert|done]. Qed.

Lemma try_region_spec kp b blocks i size k p b' :
  0 <= kp <= 16 -> 0 <= k <= 12 -> 1 <= size < 2 ^ 62 -> boot_inv b blocks ->
  Forall (fun r => r_capacity r < 2 ^ 63) (regions b) -> 0 <= i < zlen (regions b) ->
  try_region (2 ^ kp) b i size (2 ^ k) = Some (p, b') ->
  p mod 2 ^ k = 0 /\ Forall (blocks_apart (p, size)) blocks /\ boot_inv b' ((p, size) :: blocks).
Proof.
  intros Hkp Hk Hs I Hcap Hi. unfold try_region.
  pose proof (region_get_ok b blocks i I Hi) as Hok.
  assert (Hc : r_capacity (zget region0 (regions b) i) < 2 ^ 63).
  { rewrite Forall_forall in Hcap. by apply Hcap, zget_region_in. }
  destruct (tryAllocFrom _ _ _ _) as [[q r']|] eqn:E; [|done]. intros [= <- <-].
  destruct (tryAllocFrom_spec kp _ size k q r' Hkp Hk Hok Hc Hs E) as (Ha & Hlo & Hin & Hok' & Eb & Ec & Hoff).
  assert (Hhi : q + size <= r_base (zget region0 (regions b) i) + r_capacity (zget region0 (regions b) i)).
  { destruct Hin. pose proof (ro_offset _ Hok'). pose proof (ro_committed _ Hok'). lia. }
  pose proof (blocks_region_apart b blocks i q size I Hi ltac:(lia) Hlo Hhi) as Hap.
  splits; [done|done|]. constructor; cbn [regions bounds_lo bounds_hi].
  - by apply Forall_zset, Hok'; apply I.
  - rewrite zlen_zset. intros a c Hac Hc'. pose proof (bi_apart _ _ I a c Hac Hc') as Hap'.
    rewrite !zget_zset by lia. unfold regions_apart in *. repeat case_if; subst; rewrite ?Eb, ?Ec; try done; lia.
  - apply Forall_zset; [apply I|]. rewrite Eb, Ec. pose proof (bi_bounds _ _ I) as Hb.
    rewrite Forall_forall in Hb. by apply Hb, zget_region_in.
  - rewrite zlen_zset. apply I.
  - apply Forall_cons. split.
    + simpl. split; [lia|]. exists i. rewrite zlen_zset, zget_zset_eq by lia. done.
    + eapply Forall_impl; [apply (bi_in _ _ I)|]. intros [x m] (Hm & j & Hj & Hr). split; [done|].
      exists j. rewrite zlen_zset. split; [done|]. rewrite zget_zset by lia.
      case_if; [|done]. subst. unfold in_region in *. simpl in *. lia.
  - constructor; [done|apply I].
Qed.

Lemma try_all_spec kp b blocks n size k p b' :
  0 <= kp <= 16 -> 0 <= k <= 12 -> 1 <= size < 2 ^ 62 -> boot_inv b blocks ->
  Forall (fun r => r_capacity r < 2 ^ 63) (regions b) -> (n <= length (regions b))%nat ->
  try_all (2 ^ kp) b n size (2 ^ k) = Some (p, b') ->
  p mod 2 ^ k = 0 /\ Forall (blocks_apart (p, size)) blocks /\ boot_inv b' ((p, size) :: blocks).
Proof.
  intros Hkp Hk Hs I Hcap. induction n as [|n IH]; intros Hn; simpl; [done|].
  destruct (try_region _ b (Z.of_nat n) size _) as [[q b1]|] eqn:E.
  - intros [= <- <-]. eapply try_region_spec; try done. unfold zlen. lia.
  - apply IH. lia.
Qed.

Lemma addRegion_inv b blocks mem size b' :
  boot_inv b blocks -> fresh_mapping b mem -> 0 <= size ->
  addRegion b (mem size) size = (true, b') ->
  boot_inv b' blocks /\ zlen (regions b') = zlen (regions b) + 1 /\
  zget region0 (regions b') (zlen (regions b)) = mkRegion (default 0 (mem size)) size 0 0 /\
  (forall P, Forall P (regions b) -> P (mkRegion (default 0 (mem size)) size 0 0) -> Forall P (regions b')).
Proof.
  intros I Hf Hs. unfold addRegion. destruct (mem size) as [base|] eqn:Em; [|done]. case_if; [done|].
  intros [= <-]. destruct (Hf size base Em Hs) as (Hb0 & Hbm & Hbe & Hdis). simpl default.
  assert (Hget : forall i, 0 <= i < zlen (regions b) ->
    zget region0 (regions b ++ [mkRegion base size 0 0]) i = zget region0 (regions b) i).
  { intros i Hi. unfold zget, zlen in *. case_if; [|done]. by rewrite lookup_app_l by lia. }
  assert (Hlast : zget region0 (regions b ++ [mkRegion base size 0 0]) (zlen (regions b)) = mkRegion base size 0 0).
  { unfold zget, zlen. rewrite (proj2 (Z.leb_le 0 _)) by lia. rewrite Nat2Z.id, lookup_app_r by lia.
    by rewrite Nat.sub_diag. }
  pose proof (zlen_nonneg (regions b)).
  assert (Hz : zlen (regions b ++ [mkRegion base size 0 0]) = zlen (regions b) + 1) by (by rewrite zlen_app).
  splits; cbn [regions]; [|done|done|intros P HP Hn; apply Forall_app; split; [done|by constructor]].
  constructor; cbn [regions bounds_lo bounds_hi].
  - apply Forall_app. split; [apply I|]. constructor; [|done]. by constructor; cbn.
  - rewrite Hz. intros i j Hij Hj. rewrite (Hget i) by lia.
    destruct (Z.eq_dec j (zlen (regions b))) as [->|].
    + rewrite Hlast. rewrite Forall_forall in Hdis. specialize (Hdis _ (zget_region_in (regions b) i ltac:(lia))).
      unfold regions_apart, disjoint_iv in *. simpl. lia.
    + rewrite (Hget j) by lia. apply I; lia.
  - apply Forall_app. split.
    + eapply Forall_impl; [apply (bi_bounds _ _ I)|]. intros r Hr. cbv beta in *. repeat case_if; lia.
    + constructor; [|done]. cbn. repeat case_if; lia.
  - unfold kBootstrapMaxRegions in *. lia.
  - eapply Forall_impl; [apply (bi_in _ _ I)|]. intros a (Ha & i & Hi & Hr). split; [done|].
    exists i. split; [lia|]. by rewrite Hget.
  - apply I.
Qed.

Lemma expand_spec kp b blocks mem size k p b' :
  0 <= kp <= 16 -> 0 <= k <= 12 -> 1 <= size < 2 ^ 62 -> boot_inv b blocks ->
  Forall (fun r => r_capacity r < 2 ^ 63) (regions b) -> fresh_mapping b mem ->
  expandAndAllocate (2 ^ kp) b mem size (2 ^ k) = (Some p, b') ->
  p mod 2 ^ k = 0 /\ Forall (blocks_apart (p, size)) blocks /\ boot_inv b' ((p, size) :: blocks).
Proof.
  intros Hkp Hk Hs I Hcap Hf. unfold expandAndAllocate. pose proof (zlen_nonneg (regions b)).
  assert (2 ^ k <= 2 ^ 12) by (apply Z.pow_le_mono_r; lia). assert (0 < 2 ^ k) by lia.
  destruct (if 0 <? zlen (regions b) then _ else None) as [[q b1]|] eqn:E.
  - case_if_in E; [|done]. intros [= <- <-]. eapply try_region_spec; [..|exact E]; try done. lia.
  - rewrite (wrap_small 64 (size + 2 ^ k)) by lia.
    set (rs := if _ <? _ then size + 2 ^ k else _).
    assert (0 <= rs < 2 ^ 63) as Hrs by (unfold rs, kBootstrapExpandSize; case_if; lia).
    destruct (addRegion b (mem rs) rs) as [[|] b1] eqn:Ea; [|done].
    destruct (addRegion_inv b blocks mem rs b1 I Hf ltac:(lia) Ea) as (I1 & Hz & _ & HP).
    destruct (try_region _ b1 _ size _) as [[q b2]|] eqn:Et; [|done]. intros [= <- <-].
    eapply try_region_spec; [..|exact Et]; try done; [|lia].
    apply HP; [done|cbn; lia].
Qed.

Lemma boot_empty_inv : boot_inv {| regions := []; bounds_lo := 2 ^ 64 - 1; bounds_hi := 0 |} [].
Proof.
  constructor; cbn [regions]; [constructor| |constructor|done|constructor|constructor].
  intros i j ? Hj. unfold zlen in Hj. simpl in Hj. lia.
Qed.

(** A block the metadata allocator returns is aligned as asked, disjoint
    from every block returned before, and lies inside the committed prefix of
    one of its regions; the allocator's invariant (regions disjoint, inside the
    ownership bounds, at most 64 of them) is preserved. *)
Lemma boot_allocate_correct kp b blocks mem size k p b' :
  0 <= kp <= 16 -> 0 <= k <= 12 -> 0 <= size < 2 ^ 62 -> boot_inv b blocks ->
  Forall (fun r => r_capacity r < 2 ^ 63) (regions b) -> fresh_mapping b mem ->
  boot_allocate (2 ^ kp) b mem size (2 ^ k) = (Some p, b') ->
  p mod 2 ^ k = 0 /\ Forall (blocks_apart (p, Z.max 1 size)) blocks /\
  boot_inv b' ((p, Z.max 1 size) :: blocks) /\ boot_owns b' p = true.
Proof.
  intros Hkp Hk Hs I Hcap Hf. unfold boot_allocate.
  set (sz := if size =? 0 then 1 else size). assert (Hsz : sz = Z.max 1 size) by (unfold sz; case_if; lia).
  rewrite <- Hsz. intros H.
  assert (G : p mod 2 ^ k = 0 /\ Forall (blocks_apart (p, sz)) blocks /\ boot_inv b' ((p, sz) :: blocks)).
  { destruct (try_all _ b _ sz _) as [[q b1]|] eqn:E.
    - injection H as -> ->. eapply try_all_spec; [..|exact E]; try done; lia.
    - eapply expand_spec; [..|exact H]; try done; lia. }
  destruct G as (Ha & Hd & I'). splits; [done..|].
  pose proof (bi_in _ _ I') as Hin. apply Forall_cons in Hin as [(Hm & i & Hi & Hr) _]. simpl in Hm, Hr.
  pose proof (region_get_ok _ _ i I' Hi) as Hok. destruct Hr as [Hr1 Hr2].
  pose proof (ro_offset _ Hok). pose proof (ro_committed _ Hok).
  pose proof (zget_region_in _ i Hi) as Hmem.
  pose proof (bi_bounds _ _ I') as Hb. rewrite Forall_forall in Hb. specialize (Hb _ Hmem). cbv beta in Hb.
  unfold boot_owns. do 2 (case_if; [lia|]). apply existsb_exists. eexists. split.
  - apply list_elem_of_In. exact Hmem.
  - lia.
Qed.
