(* ===== verification/VmArena.v ===== *)
(** * Contiguous page arena (src/vm/vm_region.h, full mode)

    The free lists (one per shard), the background decommit queue, the bump
    pointer and the commit watermark of [VmRegion].  List nodes come from and
    go back to recycle pools; the pools only hold unused nodes, so a node is
    the run or entry it carries.  The shard of the calling thread, the
    outcome of [tryLock] on the other shards and of [pthread_create] are
    arguments.  Calls into the kernel are recorded in [vm_log], oldest last. *)

From S2P Require Import Prelude BitOps Config.

Section Arena.
Context `{PG : PageGeometry}.

(* src/vm/vm_region.h:63-67 VmRegion::FreeRun *)
Record FreeRun := mkRun { page_index : Z; page_count : Z }.

(* src/vm/vm_region.h:126-132 VmRegion::DecommitEntry *)
Record DecommitEntry := mkEntry { e_addr : Z; e_num_pages : Z; e_page_index : Z; e_shard_idx : Z }.

Inductive vm_call := CommitPages (addr bytes : Z) | DecommitPages (addr bytes : Z)
  | UnmapPages (addr bytes : Z) | ProtectNone (addr bytes : Z) | ZeroPages (addr bytes : Z).

(* src/vm/vm_region.h:40-98 VmRegion *)
Record Arena := mkArena {
  base_ : Z; contig_pages_ : Z; next_page_ : Z; committed_pages_ : Z;
  shards : list (list FreeRun);
  decommit_queue : list DecommitEntry;
  decommit_running : bool;
  vm_log : list vm_call
}.

(* src/vm/vm_region.h:83-84 VmRegion::kNumFreeShards *)
Definition kNumFreeShards : Z := 64.

Definition with_shards (a : Arena) (s : list (list FreeRun)) : Arena :=
  mkArena (base_ a) (contig_pages_ a) (next_page_ a) (committed_pages_ a) s
    (decommit_queue a) (decommit_running a) (vm_log a).
Definition with_next (a : Arena) (n : Z) : Arena :=
  mkArena (base_ a) (contig_pages_ a) n (committed_pages_ a) (shards a)
    (decommit_queue a) (decommit_running a) (vm_log a).
Definition with_queue (a : Arena) (q : list DecommitEntry) : Arena :=
  mkArena (base_ a) (contig_pages_ a) (next_page_ a) (committed_pages_ a) (shards a)
    q (decommit_running a) (vm_log a).
Definition with_running (a : Arena) (r : bool) : Arena :=
  mkArena (base_ a) (contig_pages_ a) (next_page_ a) (committed_pages_ a) (shards a)
    (decommit_queue a) r (vm_log a).
Definition with_log (a : Arena) (c : vm_call) : Arena :=
  mkArena (base_ a) (contig_pages_ a) (next_page_ a) (committed_pages_ a) (shards a)
    (decommit_queue a) (decommit_running a) (c :: vm_log a).

(** ** Decommit queue *)

(* src/vm/vm_region.h:158-173 VmRegion::queueForDecommit *)
Definition queueForDecommit (a : Arena) (addr num_pages page_index shard_idx : Z) : Arena :=
  with_queue a (mkEntry addr num_pages page_index shard_idx :: decommit_queue a).

(* src/vm/vm_region.h:175-213 VmRegion::processDecommitEntry *)
Definition processDecommitEntry (a : Arena) (e : DecommitEntry) : Arena :=
  let a := with_log a (CommitPages (e_addr e) (u64 (e_num_pages e * kPageSize))) in
  let a := with_log a (DecommitPages (e_addr e) (u64 (e_num_pages e * kPageSize))) in
  let run := mkRun (e_page_index e) (e_num_pages e) in
  with_shards a (zset (shards a) (e_shard_idx e) (run :: zget [] (shards a) (e_shard_idx e))).

(** The drain loop: exchange the head for null, then process the batch. *)
(* src/vm/vm_region.h:235-243 VmRegion::decommitThreadEntry *)
Definition drainDecommit (a : Arena) : Arena :=
  let batch := decommit_queue a in
  foldl processDecommitEntry (with_queue a []) batch.

(* src/vm/vm_region.h:256-283 VmRegion::startDecommitThread *)
Definition startDecommitThread (a : Arena) (created : bool) : Arena :=
  if decommit_running a then a
  else
    let a := with_running a true in
    if created then a else drainDecommit (with_running a false).

(* src/vm/vm_region.h:285-289 VmRegion::ensureDecommitThreadStarted *)
Definition ensureDecommitThreadStarted (a : Arena) (created : bool) : Arena :=
  if decommit_running a then a else startDecommitThread a created.

(* src/vm/vm_region.h:291-304 VmRegion::stopDecommitThread *)
Definition stopDecommitThread (a : Arena) : Arena :=
  if decommit_running a then drainDecommit (with_running a false) else a.

(* src/vm/vm_region.h:455-467 VmRegion::resetDecommitThreadForFork *)
Definition resetDecommitThreadForFork (a : Arena) : Arena :=
  drainDecommit (with_running a false).

(** ** Commit watermark *)

(* src/vm/vm_region.h:79-79 VmRegion::kCommitChunkPages *)
Definition kCommitChunkPages : Z := 0.

(** [env] is [atol] of [SMASH_COMMIT_CHUNK_KIB], if set. *)
(* src/vm/vm_region.h:543-552 VmRegion::commitChunkPages *)
Definition commitChunkPages (env : option Z) : Z :=
  match env with
  | None => kCommitChunkPages
  | Some kib => if kib <? 0 then kCommitChunkPages else u64 (kib * 1024) / kPageSize
  end.

(* src/vm/vm_region.h:554-573 VmRegion::ensureCommitted *)
Definition ensureCommitted (chunk : Z) (a : Arena) (end_page : Z) : Arena :=
  if end_page <=? committed_pages_ a then a
  else
    let already := committed_pages_ a in
    let target := if chunk =? 0 then end_page else u64 (already + chunk) in
    let target := if target <? end_page
                  then u64 (u64 (u64 (end_page + chunk) - 1) / chunk * chunk) else target in
    let target := if contig_pages_ a <? target then contig_pages_ a else target in
    let a := with_log a (CommitPages (base_ a + already * kPageSize) (u64 (u64 (target - already) * kPageSize))) in
    mkArena (base_ a) (contig_pages_ a) (next_page_ a) target (shards a)
      (decommit_queue a) (decommit_running a) (vm_log a).

(** ** Allocation *)

(** First fit in one shard's list: a run of exactly the size is unlinked, a
    longer one gives its first pages. *)
(* src/vm/vm_region.h:478-495 VmRegion::allocatePages *)
Fixpoint take_run (num_pages : Z) (free_list : list FreeRun) : option (Z * list FreeRun) :=
  match free_list with
  | [] => None
  | run :: next =>
    if num_pages <=? page_count run then
      if page_count run =? num_pages then Some (page_index run, next)
      else Some (page_index run, mkRun (page_index run + num_pages) (page_count run - num_pages) :: next)
    else
      match take_run num_pages next with
      | Some (idx, next) => Some (idx, run :: next)
      | None => None
      end
  end.

(* src/vm/vm_region.h:499-520 VmRegion::allocatePages *)
Fixpoint try_shards (avail : Z -> bool) (num_pages my_shard : Z) (sh : list (list FreeRun)) (order : list Z)
    : option (Z * list (list FreeRun)) :=
  match order with
  | [] => None
  | i :: order =>
    let s := Z.land (my_shard + i) (kNumFreeShards - 1) in
    if negb (avail s) then try_shards avail num_pages my_shard sh order
    else
      match take_run num_pages (zget [] sh s) with
      | Some (idx, l) => Some (idx, zset sh s l)
      | None => try_shards avail num_pages my_shard sh order
      end
  end.

(** The result is the page index; the address returned is
    [base_ + idx * kPageSize]. *)
(* src/vm/vm_region.h:470-531 VmRegion::allocatePages *)
Definition allocatePageRun (chunk : Z) (avail : Z -> bool) (my_shard : Z) (a : Arena) (num_pages : Z)
    : option Z * Arena :=
  match take_run num_pages (zget [] (shards a) my_shard) with
  | Some (idx, l) => (Some idx, with_shards a (zset (shards a) my_shard l))
  | None =>
    match try_shards avail num_pages my_shard (shards a) (seqZ 1 (kNumFreeShards - 1)) with
    | Some (idx, sh) => (Some idx, with_shards a sh)
    | None =>
      let start := next_page_ a in
      let a := with_next a (u64 (start + num_pages)) in
      if contig_pages_ a <? u64 (start + num_pages)
      then (None, with_next a (u64 (next_page_ a - num_pages)))
      else (Some start, ensureCommitted chunk a (u64 (start + num_pages)))
    end
  end.

Definition run_addr (a : Arena) (idx : Z) : Z := base_ a + idx * kPageSize.

(* src/vm/vm_region.h:920-923 VmRegion::inContigArena *)
Definition inContigArena (a : Arena) (addr : Z) : bool :=
  (base_ a <=? addr) && (addr <? base_ a + contig_pages_ a * kPageSize).

(* src/vm/vm_region.h:929-931 VmRegion::contigPageIndex *)
Definition contigPageIndex (a : Arena) (addr : Z) : Z := Z.shiftr (addr - base_ a) kPageShift.

(** [landmines] and [zero_free] are the debug modes [SMASH_LANDMINES=1] and
    [SMASH_ZERO_FREE=1]; [created] is the outcome of [pthread_create]. *)
(* src/vm/vm_region.h:587-662 VmRegion::releasePages *)
Definition arena_releasePages (landmines zero_free created : bool) (my_shard : Z) (a : Arena)
    (addr num_pages : Z) : Arena :=
  let bytes := u64 (num_pages * kPageSize) in
  if negb (inContigArena a addr) then with_log a (UnmapPages addr bytes)
  else if landmines then with_log a (ProtectNone addr bytes)
  else
    let a := if zero_free then with_log a (ZeroPages addr bytes) else a in
    let a := ensureDecommitThreadStarted a created in
    let page_idx := (addr - base_ a) / kPageSize in
    queueForDecommit a addr num_pages page_idx my_shard.

(** ** Specification: every page of the bump prefix is in exactly one place *)

Definition pages_of (runs : list FreeRun) : list Z :=
  runs ≫= fun r => seqZ (page_index r) (page_count r).
Definition run_of (e : DecommitEntry) : FreeRun := mkRun (e_page_index e) (e_num_pages e).

(** [batch] is what the decommit thread took off the queue and still has to
    process; [live] is what clients hold. *)
Record arena_inv (a : Arena) (batch : list DecommitEntry) (live : list FreeRun) : Prop := {
  ai_pages : pages_of (concat (shards a) ++ map run_of (decommit_queue a ++ batch) ++ live)
             ≡ₚ seqZ 0 (next_page_ a);
  ai_pos : Forall (fun r => 1 <= page_count r)
             (concat (shards a) ++ map run_of (decommit_queue a ++ batch) ++ live);
  ai_shards : zlen (shards a) = kNumFreeShards;
  ai_entries : Forall (fun e => 0 <= e_shard_idx e < kNumFreeShards) (decommit_queue a ++ batch);
  ai_range : 0 <= next_page_ a <= committed_pages_ a /\ committed_pages_ a <= contig_pages_ a;
  ai_base : 0 < base_ a /\ base_ a mod kPageSize = 0 /\ base_ a + contig_pages_ a * kPageSize < 2 ^ 64
}.

(** The steps of the arena: clients allocate and release, the decommit
    thread takes the queue and processes one entry at a time, a forked child
    drains the queue itself. *)
Inductive arena_step (chunk : Z) :
  Arena * list DecommitEntry * list FreeRun -> Arena * list DecommitEntry * list FreeRun -> Prop :=
| arena_step_alloc a batch live avail my_shard n idx a' :
    0 <= my_shard < kNumFreeShards -> 1 <= n < 2 ^ 32 ->
    allocatePageRun chunk avail my_shard a n = (Some idx, a') ->
    arena_step chunk (a, batch, live) (a', batch, mkRun idx n :: live)
| arena_step_alloc_fail a batch live avail my_shard n a' :
    0 <= my_shard < kNumFreeShards -> 1 <= n < 2 ^ 32 ->
    allocatePageRun chunk avail my_shard a n = (None, a') ->
    arena_step chunk (a, batch, live) (a', batch, live)
| arena_step_release a batch live live' r zero_free created my_shard :
    0 <= my_shard < kNumFreeShards -> live ≡ₚ r :: live' ->
    arena_step chunk (a, batch, live)
      (arena_releasePages false zero_free created my_shard a (run_addr a (page_index r)) (page_count r), batch, live')
| arena_step_take a live :
    arena_step chunk (a, [], live) (with_queue a [], decommit_queue a, live)
| arena_step_process a e batch live :
    arena_step chunk (a, e :: batch, live) (processDecommitEntry a e, batch, live)
| arena_step_fork a live :
    arena_step chunk (a, [], live) (resetDecommitThreadForFork a, [], live).

(** ** Concurrent bump: the three memory operations of a request taken apart *)

Inductive bump_phase := BumpIdle | BumpAdded (start : Z) | BumpOk (start : Z) | BumpFailed.

(** One request: the pages asked for and how far it got. *)
Definition bump_req : Type := Z * bump_phase.

(* src/vm/vm_region.h:522-530 VmRegion::allocatePages *)
Definition bump_micro (contig : Z) (next : Z) (q : bump_req) : Z * bump_req :=
  match q with
  | (n, BumpIdle) => (u64 (next + n), (n, BumpAdded next))
  | (n, BumpAdded start) =>
    if contig <? u64 (start + n) then (u64 (next - n), (n, BumpFailed)) else (next, (n, BumpOk start))
  | q => (next, q)
  end.

Fixpoint bump_run (contig next : Z) (reqs : list bump_req) (sched : list nat) : Z * list bump_req :=
  match sched with
  | [] => (next, reqs)
  | t :: sched =>
    match reqs !! t with
    | Some q => let (next, q) := bump_micro contig next q in bump_run contig next (<[t := q]> reqs) sched
    | None => bump_run contig next reqs sched
    end
  end.

(** ** Lemmas *)

Lemma pages_of_app l k : pages_of (l ++ k) = pages_of l ++ pages_of k.
Proof. apply bind_app. Qed.

Lemma pages_of_cons r l : pages_of (r :: l) = seqZ (page_index r) (page_count r) ++ pages_of l.
Proof. done. Qed.

#[export] Instance pages_of_proper : Proper ((≡ₚ) ==> (≡ₚ)) pages_of.
Proof.
  intros l k H. induction H as [|x l k _ IH|x y l|l k m _ IH1 _ IH2]; rewrite ?pages_of_cons; [done| | |].
  - by rewrite IH.
  - rewrite !app_assoc. f_equiv. apply Permutation_app_comm.
  - by rewrite IH1.
Qed.

Lemma seqZ_split i n m : 0 <= n <= m -> seqZ i m = seqZ i n ++ seqZ (i + n) (m - n).
Proof. intros. rewrite <- seqZ_app by lia. f_equal. lia. Qed.

Lemma take_run_spec n l idx l' :
  1 <= n -> Forall (fun r => 1 <= page_count r) l -> take_run n l = Some (idx, l') ->
  pages_of l ≡ₚ seqZ idx n ++ pages_of l' /\ Forall (fun r => 1 <= page_count r) l'.
Proof.
  intros Hn. revert idx l'. induction l as [|r l IH]; intros idx l' Hp; [done|]. cbn [take_run].
  apply Forall_cons in Hp as [Hr Hp]. case_if; [case_if|].
  - intros [= <- <-]. rewrite pages_of_cons. replace n with (page_count r) by lia. done.
  - intros [= <- <-]. rewrite !pages_of_cons. cbn [page_index page_count].
    rewrite (seqZ_split (page_index r) n) by lia. split; [by rewrite <- app_assoc|].
    constructor; [cbn; lia|done].
  - destruct (take_run n l) as [[i k]|] eqn:Et; [|done]. intros [= <- <-].
    destruct (IH _ _ Hp eq_refl) as [Hpg Hk]. rewrite !pages_of_cons, Hpg. split; [|by constructor].
    rewrite !app_assoc. f_equiv. apply Permutation_app_comm.
Qed.

(** One shard of the free lists, and replacing it. *)
Lemma shard_focus (sh : list (list FreeRun)) s :
  0 <= s < zlen sh ->
  exists rest, concat sh ≡ₚ zget [] sh s ++ rest /\ forall l, concat (zset sh s l) ≡ₚ l ++ rest.
Proof.
  unfold zlen, zget, zset. intros Hs. rewrite (proj2 (Z.leb_le 0 s)) by lia.
  destruct (sh !! Z.to_nat s) as [l0|] eqn:E; [|apply lookup_ge_None in E; lia].
  apply list_elem_of_split_length in E as (l1 & l2 & -> & Hl).
  exists (concat l1 ++ concat l2). split; [|intros l; rewrite Hl, insert_app_r_alt, Nat.sub_diag by lia; simpl];
    rewrite concat_app; simpl; rewrite !app_assoc; f_equiv; apply Permutation_app_comm.
Qed.

Definition pos_runs (l : list FreeRun) : Prop := Forall (fun r => 1 <= page_count r) l.

#[export] Instance pos_runs_proper : Proper ((≡ₚ) ==> iff) pos_runs.
Proof. intros l k H. unfold pos_runs. by rewrite H. Qed.

(** Taking [n] pages out of shard [s]. *)
Lemma take_shard_spec sh s n idx l' rest0 :
  0 <= s < zlen sh -> 1 <= n -> pos_runs (concat sh ++ rest0) ->
  take_run n (zget [] sh s) = Some (idx, l') ->
  pages_of (concat sh) ≡ₚ seqZ idx n ++ pages_of (concat (zset sh s l')) /\
  pos_runs (concat (zset sh s l') ++ rest0).
Proof.
  intros Hs Hn Hp Ht. destruct (shard_focus sh s Hs) as (rest & E1 & E2).
  rewrite E1 in Hp. unfold pos_runs in Hp. rewrite !Forall_app in Hp. destruct Hp as [[Hl Hr] H0].
  destruct (take_run_spec _ _ _ _ Hn Hl Ht) as [Hpg Hl'].
  rewrite E1, (E2 l'), !pages_of_app, Hpg. split; [by rewrite app_assoc|].
  unfold pos_runs. rewrite !Forall_app. done.
Qed.

Lemma land63 x : Z.land x (kNumFreeShards - 1) = x mod 64.
Proof. change (kNumFreeShards - 1) with (Z.ones 6). by rewrite Z.land_ones by lia. Qed.

Lemma try_shards_spec avail n my sh order idx sh' rest0 :
  zlen sh = kNumFreeShards -> 1 <= n -> pos_runs (concat sh ++ rest0) ->
  try_shards avail n my sh order = Some (idx, sh') ->
  pages_of (concat sh) ≡ₚ seqZ idx n ++ pages_of (concat sh') /\
  pos_runs (concat sh' ++ rest0) /\ zlen sh' = kNumFreeShards.
Proof.
  intros Hz Hn Hp. induction order as [|i order IH]; simpl; [done|]. case_if; [done|].
  destruct (take_run n _) as [[j l]|] eqn:Et; [|done]. intros [= <- <-].
  assert (0 <= Z.land (my + i) (kNumFreeShards - 1) < zlen sh).
  { rewrite land63, Hz. unfold kNumFreeShards. apply Z.mod_pos_bound. lia. }
  destruct (take_shard_spec sh _ n j l rest0 ltac:(done) Hn Hp Et). by rewrite zlen_zset.
Qed.

Lemma ensureCommitted_spec chunk a end_page :
  0 <= chunk < 2 ^ 32 -> 0 <= committed_pages_ a <= contig_pages_ a -> contig_pages_ a < 2 ^ 63 ->
  0 <= end_page <= contig_pages_ a ->
  let a' := ensureCommitted chunk a end_page in
  end_page <= committed_pages_ a' <= contig_pages_ a /\ committed_pages_ a <= committed_pages_ a' /\
  base_ a' = base_ a /\ contig_pages_ a' = contig_pages_ a /\ next_page_ a' = next_page_ a /\
  shards a' = shards a /\ decommit_queue a' = decommit_queue a /\ decommit_running a' = decommit_running a.
Proof.
  intros Hch Hc Hm He. unfold ensureCommitted. case_if; [simpl; splits; done || lia|].
  cbn [with_log base_ contig_pages_ next_page_ committed_pages_ shards decommit_queue decommit_running].
  assert (end_page <= (if contig_pages_ a <? (if (if chunk =? 0 then end_page else u64 (committed_pages_ a + chunk)) <? end_page
             then u64 (u64 (u64 (end_page + chunk) - 1) / chunk * chunk)
             else if chunk =? 0 then end_page else u64 (committed_pages_ a + chunk)) then contig_pages_ a else
             (if (if chunk =? 0 then end_page else u64 (committed_pages_ a + chunk)) <? end_page
             then u64 (u64 (u64 (end_page + chunk) - 1) / chunk * chunk)
             else if chunk =? 0 then end_page else u64 (committed_pages_ a + chunk))) <= contig_pages_ a).
  { rewrite (wrap_small 64 (committed_pages_ a + chunk)), (wrap_small 64 (end_page + chunk)) by lia.
    rewrite (wrap_small 64 (end_page + chunk - 1)) by lia.
    destruct (Z.eqb_spec chunk 0) as [->|]; [repeat case_if; lia|].
    assert (end_page <= (end_page + chunk - 1) / chunk * chunk < end_page + chunk) by dnia.
    rewrite wrap_small by lia. repeat case_if; lia. }
  splits; try done; lia.
Qed.

Definition places (a : Arena) (batch : list DecommitEntry) (live : list FreeRun) : list FreeRun :=
  concat (shards a) ++ map run_of (decommit_queue a ++ batch) ++ live.

Lemma places_cons_live a batch r live : places a batch (r :: live) ≡ₚ r :: places a batch live.
Proof. unfold places. by rewrite <- !Permutation_middle. Qed.

(** Replacing the free lists by ones from which [n] pages were taken. *)
Lemma taken_inv a batch live sh' idx n :
  1 <= n -> arena_inv a batch live -> zlen sh' = kNumFreeShards ->
  pages_of (concat (shards a)) ≡ₚ seqZ idx n ++ pages_of (concat sh') ->
  pos_runs (concat sh' ++ map run_of (decommit_queue a ++ batch) ++ live) ->
  arena_inv (with_shards a sh') batch (mkRun idx n :: live).
Proof.
  intros Hn I Hz Hpg Hp. constructor; cbn; try apply I; try done.
  - etransitivity; [|apply (ai_pages _ _ _ I)]. rewrite <- !Permutation_middle, pages_of_cons, !pages_of_app.
    cbn. by rewrite Hpg, app_assoc.
  - change (pos_runs (places (with_shards a sh') batch (mkRun idx n :: live))). rewrite places_cons_live.
    by constructor.
Qed.

Lemma pg_pos : 4096 <= kPageSize <= 16384.
Proof. page_cases; lia. Qed.

Lemma contig_bound a batch live : arena_inv a batch live -> contig_pages_ a < 2 ^ 52.
Proof. intros I. pose proof (ai_base _ _ _ I). pose proof pg_pos. nia. Qed.

Lemma alloc_inv chunk avail my a batch live n idx a' :
  0 <= chunk < 2 ^ 32 -> 0 <= my < kNumFreeShards -> 1 <= n < 2 ^ 32 -> arena_inv a batch live ->
  allocatePageRun chunk avail my a n = (Some idx, a') -> arena_inv a' batch (mkRun idx n :: live).
Proof.
  intros Hch Hmy Hn I. unfold allocatePageRun. pose proof (contig_bound _ _ _ I) as Hcb.
  destruct (take_run n _) as [[i l]|] eqn:E1.
  { intros [= <- <-]. destruct (take_shard_spec (shards a) my n i l _ ltac:(rewrite (ai_shards _ _ _ I); lia) ltac:(lia)
      (ai_pos _ _ _ I) E1) as [Hpg Hp]. apply taken_inv; try done; [lia|]. rewrite zlen_zset. apply I. }
  destruct (try_shards _ n _ _ _) as [[i sh]|] eqn:E2.
  { intros [= <- <-]. destruct (try_shards_spec avail n my (shards a) _ _ _ _ (ai_shards _ _ _ I) ltac:(lia)
      (ai_pos _ _ _ I) E2) as (Hpg & Hp & Hz). by apply taken_inv; try lia. }
  pose proof (ai_range _ _ _ I) as Hr. rewrite wrap_small by lia. cbn [with_next contig_pages_].
  case_if; [done|]. intros [= <- <-].
  pose proof (ensureCommitted_spec chunk (with_next a (next_page_ a + n)) (next_page_ a + n) Hch) as Hs.
  cbn in Hs. destruct Hs as (S1 & S2 & S3 & S4 & S5 & S6 & S7 & S8); try lia.
  cbn in S3, S4, S5, S6, S7. constructor; rewrite ?S3, ?S4, ?S5, ?S6, ?S7; try apply I.
  - rewrite <- !Permutation_middle, pages_of_cons, (ai_pages _ _ _ I). cbn.
    rewrite (seqZ_split 0 (next_page_ a) (next_page_ a + n)) by lia. rewrite Permutation_app_comm. do 2 f_equiv; lia.
  - change (pos_runs (places a batch (mkRun (next_page_ a) n :: live))). rewrite places_cons_live.
    constructor; [cbn; lia|apply I].
  - lia.
Qed.

Lemma alloc_fail_same chunk avail my a batch live n a' :
  1 <= n < 2 ^ 32 -> arena_inv a batch live ->
  allocatePageRun chunk avail my a n = (None, a') -> a' = a.
Proof.
  intros Hn I. unfold allocatePageRun. pose proof (contig_bound _ _ _ I). pose proof (ai_range _ _ _ I).
  destruct (take_run n _) as [[i l]|]; [done|]. destruct (try_shards _ n _ _ _) as [[i sh]|]; [done|].
  rewrite wrap_small by lia. cbn [with_next contig_pages_ next_page_]. case_if; [|done]. intros [= <-].
  rewrite wrap_small by lia. unfold with_next. cbn. destruct a. cbn. f_equal. lia.
Qed.

Lemma process_inv a e batch live :
  arena_inv a (e :: batch) live -> arena_inv (processDecommitEntry a e) batch live.
Proof.
  intros I. pose proof (ai_entries _ _ _ I) as He. rewrite Forall_app, Forall_cons in He. destruct He as (Hq & He & Hb).
  destruct (shard_focus (shards a) (e_shard_idx e) ltac:(rewrite (ai_shards _ _ _ I); lia)) as (rest & E1 & E2).
  assert (HP : places (processDecommitEntry a e) batch live ≡ₚ places a (e :: batch) live).
  { unfold places. cbn. rewrite (E2 (_ :: _)), E1. rewrite <- !Permutation_middle. simpl.
    by rewrite <- Permutation_middle. }
  constructor; cbn; try apply I.
  - etransitivity; [|apply (ai_pages _ _ _ I)]. by apply pages_of_proper.
  - apply (pos_runs_proper _ _ HP), I.
  - rewrite zlen_zset. apply I.
  - by apply Forall_app.
Qed.

Lemma take_queue_inv a batch live :
  arena_inv a batch live -> arena_inv (with_queue a []) (decommit_queue a ++ batch) live.
Proof. intros []. by constructor. Qed.

Lemma foldl_process_inv a q batch live :
  arena_inv a (q ++ batch) live -> arena_inv (foldl processDecommitEntry a q) batch live.
Proof. revert a. induction q as [|e q IH]; intros a I; [done|]. apply IH. by apply process_inv. Qed.

Lemma drain_inv a batch live : arena_inv a batch live -> arena_inv (drainDecommit a) batch live.
Proof. intros I. by apply foldl_process_inv, take_queue_inv. Qed.

Lemma running_inv a b batch live : arena_inv a batch live -> arena_inv (with_running a b) batch live.
Proof. intros []. by constructor. Qed.

Lemma log_inv a c batch live : arena_inv a batch live -> arena_inv (with_log a c) batch live.
Proof. intros []. by constructor. Qed.

#[local] Hint Resolve running_inv log_inv drain_inv take_queue_inv process_inv : smash.

Lemma start_inv a created batch live :
  arena_inv a batch live -> arena_inv (ensureDecommitThreadStarted a created) batch live.
Proof. intros I. unfold ensureDecommitThreadStarted, startDecommitThread. repeat case_if; auto with smash. Qed.

Lemma foldl_process_const a q :
  let a' := foldl processDecommitEntry a q in base_ a' = base_ a /\ contig_pages_ a' = contig_pages_ a /\
  next_page_ a' = next_page_ a /\ committed_pages_ a' = committed_pages_ a /\ decommit_queue a' = decommit_queue a.
Proof. revert a. induction q as [|e q IH]; intros a; simpl; [done|]. by destruct (IH (processDecommitEntry a e)) as (-> & -> & -> & -> & ->). Qed.

Lemma start_const a created :
  let a' := ensureDecommitThreadStarted a created in base_ a' = base_ a /\ contig_pages_ a' = contig_pages_ a /\
  next_page_ a' = next_page_ a /\ committed_pages_ a' = committed_pages_ a.
Proof.
  unfold ensureDecommitThreadStarted, startDecommitThread, drainDecommit. repeat case_if; try done.
  by destruct (foldl_process_const (with_queue (with_running (with_running a true) false) [])
    (decommit_queue (with_running (with_running a true) false))) as (-> & -> & -> & -> & _).
Qed.

Lemma live_run_bounds a batch live r :
  arena_inv a batch live -> r ∈ live ->
  0 <= page_index r /\ 1 <= page_count r /\ page_index r + page_count r <= next_page_ a.
Proof.
  intros I Hr. pose proof (ai_pos _ _ _ I) as Hp. rewrite !Forall_app in Hp. destruct Hp as (_ & _ & Hp).
  rewrite Forall_forall in Hp. specialize (Hp r Hr). cbv beta in Hp.
  assert (forall p, page_index r <= p < page_index r + page_count r -> 0 <= p < next_page_ a) as Hin.
  { intros p Hpr. cut (p ∈ seqZ 0 (next_page_ a)); [rewrite elem_of_seqZ; lia|].
    rewrite <- (ai_pages _ _ _ I), !pages_of_app, !elem_of_app. right. right.
    apply list_elem_of_bind. exists r. split; [rewrite elem_of_seqZ; lia|done]. }
  pose proof (Hin (page_index r) ltac:(lia)). pose proof (Hin (page_index r + page_count r - 1) ltac:(lia)). lia.
Qed.

Lemma run_addr_in a batch live r :
  arena_inv a batch live -> r ∈ live -> inContigArena a (run_addr a (page_index r)) = true.
Proof.
  intros I Hr. destruct (live_run_bounds _ _ _ _ I Hr) as (H1 & H2 & H3). pose proof (ai_range _ _ _ I).
  pose proof pg_pos. unfold inContigArena, run_addr. apply andb_true_iff. split; [apply Z.leb_le|apply Z.ltb_lt]; nia.
Qed.

Lemma queue_inv a batch live r live' my addr :
  0 <= my < kNumFreeShards -> live ≡ₚ r :: live' -> arena_inv a batch live ->
  arena_inv (queueForDecommit a addr (page_count r) (page_index r) my) batch live'.
Proof.
  intros Hmy Hl I. assert (HP : places (queueForDecommit a addr (page_count r) (page_index r) my) batch live'
    ≡ₚ places a batch live).
  { unfold places. rewrite Hl. cbn. rewrite <- !Permutation_middle. unfold run_of. cbn. by destruct r. }
  constructor; cbn; try apply I.
  - etransitivity; [|apply (ai_pages _ _ _ I)]. by apply pages_of_proper.
  - apply (pos_runs_proper _ _ HP), I.
  - constructor; [done|apply I].
Qed.

Lemma run_addr_index a idx : 0 <= idx -> (run_addr a idx - base_ a) / kPageSize = idx.
Proof. intros. unfold run_addr. pose proof pg_pos. replace (base_ a + idx * kPageSize - base_ a) with (idx * kPageSize) by lia. apply Z.div_mul. lia. Qed.

Lemma release_eq zf cr my a batch live r :
  arena_inv a batch live -> r ∈ live -> exists a0, arena_inv a0 batch live /\ next_page_ a0 = next_page_ a /\
  arena_releasePages false zf cr my a (run_addr a (page_index r)) (page_count r) =
    queueForDecommit a0 (run_addr a (page_index r)) (page_count r) (page_index r) my.
Proof.
  intros I Hr. unfold arena_releasePages. rewrite (run_addr_in _ _ _ _ I Hr). cbn [negb].
  set (a1 := if zf then _ else a). assert (arena_inv a1 batch live) as I1 by (unfold a1; case_if; auto with smash).
  exists (ensureDecommitThreadStarted a1 cr). split; [by apply start_inv|].
  destruct (start_const a1 cr) as (Eb & _ & En & _). rewrite Eb, En.
  assert (base_ a1 = base_ a /\ next_page_ a1 = next_page_ a) as [-> ->] by (unfold a1; by case_if).
  split; [done|]. destruct (live_run_bounds _ _ _ _ I Hr). by rewrite run_addr_index.
Qed.

Lemma arena_step_inv chunk s s' :
  0 <= chunk < 2 ^ 32 -> arena_step chunk s s' -> arena_inv s.1.1 s.1.2 s.2 -> arena_inv s'.1.1 s'.1.2 s'.2.
Proof.
  intros Hch Hs. destruct Hs as [a batch live avail my n idx a' Hmy Hn Ha|a batch live avail my n a' Hmy Hn Ha
    |a batch live live' r zf cr my Hmy Hl|a live|a e batch live|a live]; cbn; intros I.
  - by eapply alloc_inv.
  - by rewrite (alloc_fail_same _ _ _ _ _ _ _ _ Hn I Ha).
  - destruct (release_eq zf cr my a batch live r I) as (a0 & I0 & _ & ->); [rewrite Hl; by left|]. by eapply queue_inv.
  - rewrite <- (app_nil_r (decommit_queue a)). by apply take_queue_inv.
  - by apply process_inv.
  - exact (drain_inv (with_running a false) [] live (running_inv _ _ _ _ I)).
Qed.

(** A fresh arena. *)
Definition arena_init (base contig : Z) : Arena :=
  mkArena base contig 0 0 (replicate (Z.to_nat kNumFreeShards) []) [] false [].

Lemma arena_init_inv base contig :
  0 < base -> base mod kPageSize = 0 -> 0 <= contig -> base + contig * kPageSize < 2 ^ 64 ->
  arena_inv (arena_init base contig) [] [].
Proof. intros. constructor; cbn; try done; by constructor. Qed.

(** ** Properties *)

(** Calls that run one after the other: the free lists, the decommit queue, the
    entries in flight and the live allocations together hold every page below the
    bump pointer exactly once, and live pages lie below the commit watermark.
    (ArenaThreads takes the calls apart.) *)
Lemma calls_conserve chunk a batch live a' batch' live' :
  0 <= chunk < 2 ^ 32 -> arena_inv a batch live ->
  rtc (arena_step chunk) (a, batch, live) (a', batch', live') ->
  arena_inv a' batch' live' /\
  NoDup (pages_of (concat (shards a') ++ map run_of (decommit_queue a' ++ batch') ++ live')) /\
  Forall (fun p => 0 <= p < committed_pages_ a') (pages_of live').
Proof.
  intros Hch I Hr.
  assert (I' : arena_inv a' batch' live').
  { apply (rtc_invariant (arena_step chunk) (fun s => arena_inv s.1.1 s.1.2 s.2) _ _
      (fun x y => arena_step_inv chunk x y Hch) Hr I). }
  splits; [done| |].
  - rewrite (ai_pages _ _ _ I'). apply NoDup_seqZ.
  - apply Forall_forall. intros p Hp. pose proof (ai_range _ _ _ I').
    cut (p ∈ seqZ 0 (next_page_ a')); [rewrite elem_of_seqZ; lia|].
    rewrite <- (ai_pages _ _ _ I'), !pages_of_app, !elem_of_app. auto.
Qed.

Lemma take_run_complete n l r : r ∈ l -> n <= page_count r -> is_Some (take_run n l).
Proof.
  intros Hr Hn. induction l as [|q l IH]; [set_solver|]. cbn [take_run]. case_if; [case_if; by eexists|].
  apply elem_of_cons in Hr as [->|Hr]; [lia|]. destruct (IH Hr) as [[i k] ->]. by eexists.
Qed.

(** No run of [n] pages is left: the bump pointer is too close to the end, and the
    free lists that could be searched hold only shorter runs. *)
Definition arena_exhausted (avail : Z -> bool) (my n : Z) (a : Arena) : Prop :=
  contig_pages_ a < next_page_ a + n /\
  forall s, 0 <= s < kNumFreeShards -> s = my \/ avail s = true -> Forall (fun r => page_count r < n) (zget [] (shards a) s).

Lemma take_run_none n l : take_run n l = None -> Forall (fun r => page_count r < n) l.
Proof.
  intros Ht. apply Forall_forall. intros r Hr. destruct (Z.lt_ge_cases (page_count r) n) as [|Hge]; [done|exfalso].
  destruct (take_run_complete n l r Hr Hge) as [x Hx]. congruence.
Qed.

Lemma try_shards_none avail n my sh order i :
  try_shards avail n my sh order = None -> i ∈ order -> avail (Z.land (my + i) (kNumFreeShards - 1)) = true ->
  take_run n (zget [] sh (Z.land (my + i) (kNumFreeShards - 1))) = None.
Proof.
  induction order as [|j order IH]; cbn [try_shards]; [by intros _ ?%not_elem_of_nil|]. intros Ht Hi Ha.
  apply elem_of_cons in Hi as [->|Hi].
  - revert Ht. rewrite Ha. cbn [negb]. by destruct (take_run n _) as [[]|].
  - apply IH; [|done|done]. revert Ht. clear IH. case_if; [done|]. by destruct (take_run n _) as [[]|].
Qed.

Lemma alloc_fail_exhausted chunk avail my a batch live n a' :
  0 <= my < kNumFreeShards -> 1 <= n < 2 ^ 32 -> arena_inv a batch live ->
  allocatePageRun chunk avail my a n = (None, a') -> arena_exhausted avail my n a.
Proof.
  intros Hmy Hn I. unfold allocatePageRun. pose proof (contig_bound _ _ _ I). pose proof (ai_range _ _ _ I).
  destruct (take_run n _) as [[i l]|] eqn:E1; [done|]. destruct (try_shards _ n _ _ _) as [[i sh]|] eqn:E2; [done|].
  rewrite wrap_small by lia. cbn [with_next contig_pages_ next_page_]. case_if; [|done]. intros _. split; [lia|].
  intros s Hs Hav. apply take_run_none. destruct (decide (s = my)) as [->|Hne]; [done|]. destruct Hav as [|Hav]; [done|].
  unfold kNumFreeShards in *. assert (Es : Z.land (my + (s - my) mod 64) (64 - 1) = s).
  { change (64 - 1) with (kNumFreeShards - 1). rewrite land63, Zplus_mod_idemp_r. replace (my + (s - my)) with s by lia. by apply Z.mod_small. }
  pose proof (try_shards_none avail n my (shards a) _ ((s - my) mod 64) E2) as Hx. unfold kNumFreeShards in Hx. rewrite Es in Hx.
  apply Hx; [|done]. apply elem_of_seqZ. pose proof (Z.mod_pos_bound (s - my) 64 ltac:(lia)).
  pose proof (Z.div_mod (s - my) 64 ltac:(lia)). lia.
Qed.

Lemma foldl_process_keeps r s a q :
  0 <= s -> r ∈ zget [] (shards a) s -> r ∈ zget [] (shards (foldl processDecommitEntry a q)) s.
Proof.
  intros Hs. revert a. induction q as [|e q IH]; intros a Hr; [done|]. simpl. apply IH. cbn.
  destruct (Z.eq_dec (e_shard_idx e) s) as [<-|]; [|by rewrite zget_zset_ne].
  destruct (Z.lt_ge_cases (e_shard_idx e) (zlen (shards a))).
  - rewrite zget_zset_eq by lia. set_solver.
  - rewrite zget_out in Hr by lia. set_solver.
Qed.

(** A released range is reusable once the decommit thread has drained the
    queue: a request of at most its size from the releasing thread's shard is
    then served from the free list, without moving the bump pointer. *)
Lemma release_then_reuse chunk avail zero_free created my a live r n :
  0 <= my < kNumFreeShards -> arena_inv a [] live -> r ∈ live -> 1 <= n <= page_count r ->
  let a1 := drainDecommit (arena_releasePages false zero_free created my a (run_addr a (page_index r)) (page_count r)) in
  exists idx a2, allocatePageRun chunk avail my a1 n = (Some idx, a2) /\ next_page_ a2 = next_page_ a /\
    0 <= idx /\ idx + n <= next_page_ a.
Proof.
  intros Hmy I Hr Hn. simpl. destruct (release_eq zero_free created my a [] live r I Hr) as (a0 & I0 & En & ->).
  apply elem_of_Permutation in Hr as [live' Hl].
  pose proof (queue_inv _ _ _ _ _ my (run_addr a (page_index r)) Hmy Hl I0) as I1.
  set (a1 := queueForDecommit _ _ _ _ _) in *. pose proof (drain_inv _ _ _ I1) as I2.
  assert (Hin : r ∈ zget [] (shards (drainDecommit a1)) my).
  { unfold drainDecommit, a1. cbn [queueForDecommit with_queue decommit_queue foldl].
    apply foldl_process_keeps; [lia|]. cbn. rewrite zget_zset_eq by (rewrite (ai_shards _ _ _ I0); lia).
    destruct r. set_solver. }
  destruct (take_run_complete n _ r Hin ltac:(lia)) as [[idx l] Et].
  assert (next_page_ (drainDecommit a1) = next_page_ a) as En2.
  { unfold drainDecommit. destruct (foldl_process_const (with_queue a1 []) (decommit_queue a1)) as (_ & _ & -> & _). done. }
  exists idx, (with_shards (drainDecommit a1) (zset (shards (drainDecommit a1)) my l)).
  unfold allocatePageRun. rewrite Et. split; [done|]. split; [done|].
  destruct (take_shard_spec (shards (drainDecommit a1)) my n idx l _ ltac:(rewrite (ai_shards _ _ _ I2); lia) ltac:(lia) (ai_pos _ _ _ I2) Et) as [Hpg Hp].
  pose proof (taken_inv _ _ _ _ idx n ltac:(lia) I2 ltac:(rewrite zlen_zset; apply I2) Hpg Hp) as I3.
  destruct (live_run_bounds _ _ _ (mkRun idx n) I3 ltac:(set_solver)) as (B1 & B2 & B3).
  cbn [page_index page_count with_shards next_page_] in B1, B3. lia.
Qed.

(** C36: The bump path on its own is not safe under concurrency: a request that
    overshoots the arena adds, checks and subtracts in three separate steps,
    and with two such requests in flight the counter can be moved back below
    pages already handed out.  In an arena of 10 pages with 8 used there is
    a schedule of four requests after which two of them own page 9. *)
Theorem bump_race_double_allocation :
  exists sched next n1 n2 r1 r2,
    bump_run 10 8 [(4, BumpIdle); (1, BumpIdle); (1, BumpIdle); (1, BumpIdle)] sched =
      (next, [r1; r2; (n1, BumpOk 9); (n2, BumpOk 9)]) /\ 1 <= n1 /\ 1 <= n2.
Proof.
  exists [0; 1; 0; 2; 2; 1; 3; 3]%nat. do 5 eexists. split; [vm_compute; reflexivity|lia].
Qed.

End Arena.

Section Witnesses.
#[local] Existing Instance pages4K.

Lemma demo_arena_inv : arena_inv (arena_init 4194304 100) [] [].
Proof. apply arena_init_inv; try done. Qed.

End Witnesses.
