(* ===== verification/ArenaThreads.v ===== *)
(** * The page arena used by several threads (src/vm/vm_region.h)

    The calls of VmArena taken apart into their accesses to shared memory: each
    shard is searched under its own lock, the bump pointer is advanced, checked
    and moved back by separate accesses, the decommit thread is started by a load, a
    compare-and-swap and [pthread_create], and every entry of a batch is processed on
    its own.  A thread is the point it has reached in its call.  The pages are
    conserved as long as no request takes fresh pages while another one, which
    did not fit, has yet to move the bump pointer back. *)

From S2P Require Import Prelude BitOps Config VmArena.

Section Threads.
Context `{PG : PageGeometry}.

(** Where a thread is: between calls; before looking at the [i]-th shard from its
    own; before [fetch_add]; after it; in [releasePages] before the load of
    [decommit_running_], before the compare-and-swap, before [pthread_create], before the push; before taking the
    queue and processing what was taken, with the release to go on with, if any. *)
Inductive Pc :=
| P_idle
| P_scan (my_shard num_pages i : Z)
| P_bump (num_pages : Z)
| P_added (num_pages start : Z)
| P_release (r : FreeRun) (my_shard : Z)
| P_cas (r : FreeRun) (my_shard : Z)
| P_create (r : FreeRun) (my_shard : Z)
| P_push (r : FreeRun) (my_shard : Z)
| P_take (k : option (FreeRun * Z))
| P_drain (batch : list DecommitEntry) (k : option (FreeRun * Z)).

(** The next access of [allocatePages]: the thread's new place, the arena and the
    run given to the caller.  [got] is the outcome of [tryLock]. *)
(* src/vm/vm_region.h:470-531 VmRegion::allocatePages *)
Definition alloc_access (chunk : Z) (got : bool) (a : Arena) (pc : Pc) : Pc * Arena * list FreeRun :=
  match pc with
  | P_scan my n i =>
    let more := if i + 1 <? kNumFreeShards then P_scan my n (i + 1) else P_bump n in
    let s := if i =? 0 then my else Z.land (my + i) (kNumFreeShards - 1) in
    if negb (i =? 0) && negb got then (more, a, [])
    else
      match take_run n (zget [] (shards a) s) with
      | Some (idx, l) => (P_idle, with_shards a (zset (shards a) s l), [mkRun idx n])
      | None => (more, a, [])
      end
  | P_bump n => (P_added n (next_page_ a), with_next a (u64 (next_page_ a + n)), [])
  | P_added n start =>
    if contig_pages_ a <? u64 (start + n) then (P_idle, with_next a (u64 (next_page_ a - n)), [])
    else (P_idle, ensureCommitted chunk a (u64 (start + n)), [mkRun start n])
  | _ => (pc, a, [])
  end.

(** The next access of [releasePages], and of a drain of the queue.  [created] is
    the outcome of [pthread_create]. *)
(* src/vm/vm_region.h:230-304 VmRegion::startDecommitThread *)
Definition release_access (created : bool) (a : Arena) (pc : Pc) : Pc * Arena :=
  match pc with
  | P_release r my => (if decommit_running a then P_push r my else P_cas r my, a)
  | P_cas r my => if decommit_running a then (P_push r my, a) else (P_create r my, with_running a true)
  | P_create r my => if created then (P_push r my, a) else (P_take (Some (r, my)), with_running a false)
  | P_push r my =>
    let addr := run_addr a (page_index r) in
    (P_idle, queueForDecommit a addr (page_count r) ((addr - base_ a) / kPageSize) my)
  | P_take k => (P_drain (decommit_queue a) k, with_queue a [])
  | P_drain [] k => (match k with Some (r, my) => P_push r my | None => P_idle end, a)
  | P_drain (e :: batch) k => (P_drain batch k, processDecommitEntry a e)
  | _ => (pc, a)
  end.

Definition access (chunk : Z) (got created : bool) (a : Arena) (pc : Pc) : Pc * Arena * list FreeRun :=
  match pc with
  | P_scan _ _ _ | P_bump _ | P_added _ _ => alloc_access chunk got a pc
  | _ => let '(pc, a) := release_access created a pc in (pc, a, [])
  end.

(** The arena, the runs that clients hold, and the threads. *)
Record Threads := mkThreads { arena : Arena; live : list FreeRun; pcs : list Pc }.

(** Steps: a thread between calls starts one (the decommit thread's turn is a call
    of its own), a thread in a call makes its next access; a process whose threads are
    all between calls is forked. *)
Inductive thread_step (chunk : Z) : Threads -> Threads -> Prop :=
| ts_alloc a live pcs t my n :
    pcs !! t = Some P_idle -> 0 <= my < kNumFreeShards -> 1 <= n < 2 ^ 32 ->
    thread_step chunk (mkThreads a live pcs) (mkThreads a live (<[t := P_scan my n 0]> pcs))
| ts_release a live live' pcs t r zero_free my :
    pcs !! t = Some P_idle -> 0 <= my < kNumFreeShards -> live ≡ₚ r :: live' ->
    thread_step chunk (mkThreads a live pcs)
      (mkThreads (if zero_free : bool then with_log a (ZeroPages (run_addr a (page_index r)) (u64 (page_count r * kPageSize))) else a)
         live' (<[t := P_release r my]> pcs))
| ts_drain a live pcs t :
    pcs !! t = Some P_idle ->
    thread_step chunk (mkThreads a live pcs) (mkThreads a live (<[t := P_take None]> pcs))
| ts_stop a live pcs t :
    pcs !! t = Some P_idle -> decommit_running a = true ->
    thread_step chunk (mkThreads a live pcs) (mkThreads (with_running a false) live (<[t := P_take None]> pcs))
| ts_fork a live pcs t :
    is_Some (pcs !! t) -> Forall (fun pc => pc = P_idle) pcs ->
    thread_step chunk (mkThreads a live pcs) (mkThreads (with_running a false) live (<[t := P_take None]> pcs))
| ts_access a live pcs t pc got created pc' a' given :
    pcs !! t = Some pc -> access chunk got created a pc = (pc', a', given) ->
    thread_step chunk (mkThreads a live pcs) (mkThreads a' (given ++ live) (<[t := pc']> pcs)).

(** What a thread holds: entries still to process; runs on their way from or to the
    client; pages it added to the bump pointer beyond the end. *)
Definition batch_of (pc : Pc) : list DecommitEntry := match pc with P_drain batch _ => batch | _ => [] end.
Definition over_of (contig : Z) (pc : Pc) : Z :=
  match pc with P_added n start => if contig <? u64 (start + n) then n else 0 | _ => 0 end.
Definition adding (contig : Z) (pc : Pc) : list FreeRun :=
  match pc with P_added n start => if contig <? u64 (start + n) then [] else [mkRun start n] | _ => [] end.
Definition releasing (pc : Pc) : list FreeRun :=
  match pc with
  | P_release r _ | P_cas r _ | P_create r _ | P_push r _ => [r]
  | P_take (Some (r, _)) | P_drain _ (Some (r, _)) => [r]
  | _ => []
  end.
Definition held_of (contig : Z) (pc : Pc) : list FreeRun := adding contig pc ++ releasing pc.

Definition entries_of (s : Threads) : list DecommitEntry := decommit_queue (arena s) ++ (pcs s ≫= batch_of).
Definition in_calls (s : Threads) : list FreeRun := pcs s ≫= held_of (contig_pages_ (arena s)).
Definition overshoot (s : Threads) : Z := zsum (map (over_of (contig_pages_ (arena s))) (pcs s)).

(** While a request that did not fit has yet to move the bump pointer back, the step
    does not hand out fresh pages. *)
Definition careful (s s' : Threads) : Prop :=
  0 < overshoot s -> next_page_ (arena s') <= next_page_ (arena s) \/ contig_pages_ (arena s) < next_page_ (arena s').

Definition careful_step (chunk : Z) (s s' : Threads) : Prop := thread_step chunk s s' /\ careful s s'.

Definition fresh_threads (base contig : Z) (threads : nat) : Threads :=
  mkThreads (arena_init base contig) [] (replicate threads P_idle).

(** ** Invariant *)

(** The arena with the bump pointer at [e] and the pages below it committed. *)
Definition at_end (a : Arena) (e : Z) : Arena :=
  mkArena (base_ a) (contig_pages_ a) e (Z.max (committed_pages_ a) e) (shards a)
    (decommit_queue a) (decommit_running a) (vm_log a).

Definition shard_ok (k : Z) : Prop := 0 <= k < kNumFreeShards.
Definition pc_ok (pc : Pc) : Prop :=
  match pc with
  | P_idle | P_take None | P_drain _ None => True
  | P_scan my n i => shard_ok my /\ 1 <= n < 2 ^ 32
  | P_bump n => 1 <= n < 2 ^ 32
  | P_added n start => 1 <= n < 2 ^ 32 /\ 0 <= start < 2 ^ 63 + 2 ^ 52
  | P_release _ my | P_cas _ my | P_create _ my | P_push _ my | P_take (Some (_, my)) | P_drain _ (Some (_, my)) => shard_ok my
  end.

Record threads_inv (a : Arena) (live : list FreeRun) (pcs : list Pc) (e : Z) : Prop := {
  ti_arena : arena_inv (at_end a e) (pcs ≫= batch_of) (live ++ (pcs ≫= held_of (contig_pages_ a)));
  ti_next : next_page_ a = e + zsum (map (over_of (contig_pages_ a)) pcs);
  ti_committed : 0 <= committed_pages_ a <= contig_pages_ a;
  ti_gap : forall p, committed_pages_ a <= p < e -> exists pc, pc ∈ pcs /\ p ∈ pages_of (adding (contig_pages_ a) pc);
  ti_pcs : Forall pc_ok pcs;
  ti_len : zlen pcs < 2 ^ 31
}.

Lemma arena_inv_perm a batch batch' live live' :
  batch ≡ₚ batch' -> live ≡ₚ live' -> arena_inv a batch live -> arena_inv a batch' live'.
Proof.
  intros Hb Hl [H1 H2 H3 H4 H5 H6].
  assert (HP : concat (shards a) ++ map run_of (decommit_queue a ++ batch') ++ live' ≡ₚ concat (shards a) ++ map run_of (decommit_queue a ++ batch) ++ live)
    by (by rewrite Hb, Hl).
  constructor; try done.
  - by rewrite HP.
  - by rewrite HP.
  - by rewrite <- Hb.
Qed.

Lemma threads_inv_perm a live pcs pcs' e : pcs ≡ₚ pcs' -> threads_inv a live pcs e -> threads_inv a live pcs' e.
Proof.
  intros Hp [H1 H2 H3 H4 H5 H6]. constructor; [| |done| | |].
  - eapply arena_inv_perm; [| |exact H1]; by rewrite Hp.
  - rewrite H2. f_equal. apply zsum_perm. by rewrite Hp.
  - intros p Hpp. destruct (H4 p Hpp) as (pc & Hin & ?). exists pc. split; [by rewrite <- Hp|done].
  - by rewrite <- Hp.
  - unfold zlen in *. by rewrite <- Hp.
Qed.

(** One thread, and replacing it. *)
Lemma thread_focus (pcs : list Pc) t pc :
  pcs !! t = Some pc -> exists rest, pcs ≡ₚ pc :: rest /\ forall pc', <[t := pc']> pcs ≡ₚ pc' :: rest.
Proof.
  intros Ht. apply list_elem_of_split_length in Ht as (l1 & l2 & -> & Hl). exists (l1 ++ l2). split; [by rewrite Permutation_middle|].
  intros pc'. rewrite Hl, insert_app_r_alt, Nat.sub_diag by lia. simpl. by rewrite Permutation_middle.
Qed.

Lemma over_nonneg contig pc : pc_ok pc -> 0 <= over_of contig pc < 2 ^ 32.
Proof. destruct pc; cbn; try lia. intros [? _]. case_if; lia. Qed.

Lemma over_bound contig l : Forall pc_ok l -> 0 <= zsum (map (over_of contig) l) <= zlen l * 2 ^ 32.
Proof.
  intros Hp. induction Hp as [|pc l Hpc _ IH]; [done|]. rewrite zlen_cons.
  change (zsum (map (over_of contig) (pc :: l))) with (over_of contig pc + zsum (map (over_of contig) l)).
  pose proof (over_nonneg contig pc Hpc). lia.
Qed.

(** Bounds of the counters. *)
Lemma counters_bound a live pcs e : threads_inv a live pcs e ->
  0 <= e <= contig_pages_ a /\ contig_pages_ a < 2 ^ 52 /\ e <= next_page_ a < 2 ^ 63 + 2 ^ 52.
Proof.
  intros I. pose proof (contig_bound _ _ _ (ti_arena _ _ _ _ I)) as Hc. pose proof (ai_range _ _ _ (ti_arena _ _ _ _ I)) as Hr.
  pose proof (over_bound (contig_pages_ a) pcs (ti_pcs _ _ _ _ I)). pose proof (ti_next _ _ _ _ I). pose proof (ti_len _ _ _ _ I).
  cbn in Hc, Hr. lia.
Qed.

(** A step that moves runs between places, and leaves the counters and what other
    threads hold alone. *)
Lemma moved_inv a a' live live' pc pc' rest e :
  threads_inv a live (pc :: rest) e ->
  base_ a' = base_ a -> contig_pages_ a' = contig_pages_ a -> next_page_ a' = next_page_ a -> committed_pages_ a' = committed_pages_ a ->
  adding (contig_pages_ a) pc = [] -> over_of (contig_pages_ a) pc = 0 ->
  adding (contig_pages_ a) pc' = [] -> over_of (contig_pages_ a) pc' = 0 -> pc_ok pc' ->
  arena_inv (at_end a' e) (batch_of pc' ++ (rest ≫= batch_of)) (live' ++ releasing pc' ++ (rest ≫= held_of (contig_pages_ a))) ->
  threads_inv a' live' (pc' :: rest) e.
Proof.
  intros I Eb Ec En Em A1 O1 A2 O2 Hok HI. destruct I as [_ J2 J3 J4 J5 J6]. apply Forall_cons in J5 as [_ J5].
  assert (Hcons : forall p, map (over_of (contig_pages_ a)) (p :: rest) = over_of (contig_pages_ a) p :: map (over_of (contig_pages_ a)) rest) by done.
  constructor; rewrite ?Ec, ?En, ?Em; [| |done| |by constructor|exact J6].
  - cbn [mbind list_bind]. unfold held_of at 1. by rewrite A2.
  - rewrite J2, !Hcons, O1, O2. done.
  - intros p Hp. destruct (J4 p Hp) as (q & [->|Hq]%elem_of_cons & Hin); [rewrite A1 in Hin; by apply not_elem_of_nil in Hin|]. exists q. split; [by right|done].
Qed.

(** What the invariant says about the thread in front. *)
Lemma front_inv a live pc rest e : threads_inv a live (pc :: rest) e -> adding (contig_pages_ a) pc = [] ->
  arena_inv (at_end a e) (batch_of pc ++ (rest ≫= batch_of)) (live ++ releasing pc ++ (rest ≫= held_of (contig_pages_ a))).
Proof. intros I A. pose proof (ti_arena _ _ _ _ I) as HI. cbn [mbind list_bind] in HI. unfold held_of at 1 in HI. by rewrite A in HI. Qed.

Lemma front_ok a live pc rest e : threads_inv a live (pc :: rest) e -> pc_ok pc.
Proof. intros I. pose proof (ti_pcs _ _ _ _ I) as Hp. by apply Forall_cons in Hp as [? _]. Qed.

Ltac moved I HI := eapply (moved_inv _ _ _ _ _ _ _ _ I); [done..|exact HI].

(** ** The accesses of an allocation *)

Lemma scan_inv a live my n i got rest e pc' a' given chunk :
  threads_inv a live (P_scan my n i :: rest) e ->
  alloc_access chunk got a (P_scan my n i) = (pc', a', given) -> threads_inv a' (given ++ live) (pc' :: rest) e.
Proof.
  intros I. pose proof (front_inv _ _ _ _ _ I eq_refl) as HI. destruct (front_ok _ _ _ _ _ I) as [Hmy Hn]. cbn in HI.
  assert (Hmore : threads_inv a live ((if i + 1 <? kNumFreeShards then P_scan my n (i + 1) else P_bump n) :: rest) e).
  { case_if; moved I HI. }
  cbn [alloc_access]. set (s := if i =? 0 then my else _). case_if; [by intros [= <- <- <-]|].
  assert (Hs : 0 <= s < zlen (shards a)).
  { change (shards a) with (shards (at_end a e)). rewrite (ai_shards _ _ _ HI). unfold s. case_if; [exact Hmy|]. rewrite land63. unfold kNumFreeShards. apply Z.mod_pos_bound. lia. }
  destruct (take_run n _) as [[idx l]|] eqn:Et; [|by intros [= <- <- <-]]. intros [= <- <- <-].
  destruct (take_shard_spec (shards a) s n idx l _ Hs ltac:(lia) (ai_pos _ _ _ HI) Et) as [Hpg Hp].
  assert (HI' := taken_inv (at_end a e) _ _ _ idx n ltac:(lia) HI ltac:(rewrite zlen_zset; apply HI) Hpg Hp).
  moved I HI'.
Qed.

(** The bump pointer of the invariant moves over [n] fresh pages. *)
Lemma fresh_inv a batch live e n x :
  arena_inv (at_end a e) batch live -> 1 <= n -> e + n <= contig_pages_ a -> committed_pages_ a <= contig_pages_ a ->
  arena_inv (at_end (with_next a x) (e + n)) batch (mkRun e n :: live).
Proof.
  intros I Hn He Hc. pose proof (ai_range _ _ _ I) as Hr. cbn in Hr. constructor; cbn; try apply I; [| |lia].
  - rewrite <- !Permutation_middle, pages_of_cons. change (concat (shards a) ++ map run_of (decommit_queue a ++ batch) ++ live)
      with (places (at_end a e) batch live). unfold places. rewrite (ai_pages _ _ _ I). cbn.
    rewrite (seqZ_split 0 e (e + n)) by lia. rewrite Permutation_app_comm. do 2 f_equiv; lia.
  - change (pos_runs (places (at_end a e) batch (mkRun e n :: live))). rewrite places_cons_live. constructor; [cbn; lia|apply I].
Qed.

Lemma bump_inv a live n rest e :
  threads_inv a live (P_bump n :: rest) e ->
  (0 < zsum (map (over_of (contig_pages_ a)) rest) -> contig_pages_ a < u64 (next_page_ a + n)) ->
  exists e', threads_inv (with_next a (u64 (next_page_ a + n))) live (P_added n (next_page_ a) :: rest) e'.
Proof.
  intros I Hcare. pose proof (front_inv _ _ _ _ _ I eq_refl) as HI. pose proof (front_ok _ _ _ _ _ I) as Hn. cbn in HI, Hn.
  destruct (counters_bound _ _ _ _ I) as (He & Hc & Hx). pose proof I as [_ J2 J3 J4 J5 J6]. apply Forall_cons in J5 as [_ J5].
  change (map _ (P_bump n :: rest)) with (0 :: map (over_of (contig_pages_ a)) rest) in J2.
  change (zsum (0 :: ?l)) with (0 + zsum l) in J2. pose proof (over_bound (contig_pages_ a) rest J5).
  rewrite wrap_small in * by lia.
  assert (Hok : Forall pc_ok (P_added n (next_page_ a) :: rest)) by (constructor; [cbn; lia|done]).
  assert (Hsum : zsum (map (over_of (contig_pages_ a)) (P_added n (next_page_ a) :: rest)) =
    (if contig_pages_ a <? next_page_ a + n then n else 0) + zsum (map (over_of (contig_pages_ a)) rest)).
  { cbn [map over_of]. rewrite wrap_small by lia. done. }
  destruct (Z.ltb_spec (contig_pages_ a) (next_page_ a + n)) as [Hov|Hfit].
  - exists e. constructor; cbn [with_next contig_pages_ next_page_ committed_pages_]; [|rewrite Hsum; lia|done| |done|exact J6].
    + cbn [mbind list_bind]. unfold held_of at 1. cbn [adding batch_of releasing app]. rewrite wrap_small by lia.
      rewrite (proj2 (Z.ltb_lt _ _) Hov). exact HI.
    + intros p Hp. destruct (J4 p Hp) as (q & [->|Hq]%elem_of_cons & Hin); [by apply not_elem_of_nil in Hin|]. exists q. split; [by right|done].
  - assert (E : next_page_ a = e) by lia. exists (e + n).
    constructor; cbn [with_next contig_pages_ next_page_ committed_pages_]; [|rewrite Hsum; lia|done| |done|exact J6].
    + cbn [mbind list_bind]. unfold held_of at 1. cbn [adding batch_of releasing app]. rewrite wrap_small by lia.
      rewrite (proj2 (Z.ltb_ge _ _) Hfit). eapply arena_inv_perm; [reflexivity| |apply fresh_inv; [exact HI|lia|lia|lia]].
      rewrite E. apply Permutation_middle.
    + intros p Hp. destruct (decide (p < e)).
      * destruct (J4 p ltac:(lia)) as (q & [->|Hq]%elem_of_cons & Hin); [by apply not_elem_of_nil in Hin|]. exists q. split; [by right|done].
      * eexists. split; [by left|]. cbn [adding]. rewrite wrap_small by lia. rewrite (proj2 (Z.ltb_ge _ _) Hfit).
        rewrite pages_of_cons. apply elem_of_app. left. apply elem_of_seqZ. cbn. lia.
Qed.

Lemma undo_inv a live n start rest e :
  threads_inv a live (P_added n start :: rest) e -> contig_pages_ a < u64 (start + n) ->
  threads_inv (with_next a (u64 (next_page_ a - n))) live (P_idle :: rest) e.
Proof.
  intros I Hov. assert (A : adding (contig_pages_ a) (P_added n start) = []) by (cbn; by rewrite (proj2 (Z.ltb_lt _ _) Hov)).
  pose proof (front_inv _ _ _ _ _ I A) as HI. destruct (front_ok _ _ _ _ _ I) as [Hn _].
  destruct (counters_bound _ _ _ _ I) as (He & Hc & Hx). destruct I as [_ J2 J3 J4 J5 J6]. apply Forall_cons in J5 as [_ J5].
  change (map _ (P_added n start :: rest)) with (over_of (contig_pages_ a) (P_added n start) :: map (over_of (contig_pages_ a)) rest) in J2.
  change (zsum (?x :: ?l)) with (x + zsum l) in J2. cbn [over_of] in J2. rewrite (proj2 (Z.ltb_lt _ _) Hov) in J2.
  pose proof (over_bound (contig_pages_ a) rest J5). rewrite wrap_small by lia.
  constructor; cbn [with_next contig_pages_ next_page_ committed_pages_]; [exact HI| |done| |by constructor|exact J6].
  - change (map _ (P_idle :: rest)) with (0 :: map (over_of (contig_pages_ a)) rest). change (zsum (0 :: ?l)) with (0 + zsum l). lia.
  - intros p Hp. destruct (J4 p Hp) as (q & [->|Hq]%elem_of_cons & Hin); [rewrite A in Hin; by apply not_elem_of_nil in Hin|].
    exists q. split; [by right|done].
Qed.

Lemma commit_inv chunk a live n start rest e :
  0 <= chunk < 2 ^ 32 -> threads_inv a live (P_added n start :: rest) e -> u64 (start + n) <= contig_pages_ a ->
  threads_inv (ensureCommitted chunk a (u64 (start + n))) (mkRun start n :: live) (P_idle :: rest) e.
Proof.
  intros Hch I Hfit. destruct (front_ok _ _ _ _ _ I) as [Hn Hst]. destruct (counters_bound _ _ _ _ I) as (He & Hc & Hx).
  rewrite wrap_small in Hfit by lia. assert (A : adding (contig_pages_ a) (P_added n start) = [mkRun start n]).
  { cbn. rewrite wrap_small by lia. by rewrite (proj2 (Z.ltb_ge _ _) Hfit). }
  assert (O : over_of (contig_pages_ a) (P_added n start) = 0).
  { cbn. rewrite wrap_small by lia. by rewrite (proj2 (Z.ltb_ge _ _) Hfit). }
  rewrite wrap_small by lia. destruct I as [J1 J2 J3 J4 J5 J6]. apply Forall_cons in J5 as [_ J5].
  change (map _ (P_added n start :: rest)) with (over_of (contig_pages_ a) (P_added n start) :: map (over_of (contig_pages_ a)) rest) in J2.
  rewrite O in J2. destruct (ensureCommitted_spec chunk a (start + n) Hch ltac:(lia) ltac:(lia) ltac:(lia)) as (S1 & S2 & S3 & S4 & S5 & S6 & S7 & S8).
  cbn [mbind list_bind] in J1. unfold held_of at 1 in J1. rewrite A in J1. cbn [batch_of releasing app] in J1.
  assert (J1' : arena_inv (at_end a e) (rest ≫= batch_of) (mkRun start n :: live ++ (rest ≫= held_of (contig_pages_ a)))).
  { eapply arena_inv_perm; [reflexivity| |exact J1]. symmetry. apply Permutation_middle. }
  constructor; rewrite ?S3, ?S4, ?S5; [| |lia| |by constructor|exact J6].
  - destruct J1' as [K1 K2 K3 K4 K5 K6]. cbn in K1, K2, K3, K4, K5, K6.
    constructor; cbn; rewrite ?S3, ?S4, ?S6, ?S7; try done. lia.
  - rewrite J2. done.
  - intros p Hp. destruct (J4 p ltac:(lia)) as (q & [->|Hq]%elem_of_cons & Hin); [|exists q; split; [by right|done]].
    rewrite A in Hin. rewrite pages_of_cons, elem_of_app, elem_of_seqZ in Hin. cbn in Hin. destruct Hin as [?|?%not_elem_of_nil]; [lia|done].
Qed.

(** ** The accesses of a release and of a drain *)

Lemma release_access_inv created a live pc rest e :
  threads_inv a live (pc :: rest) e ->
  match pc with P_scan _ _ _ | P_bump _ | P_added _ _ => False | _ => True end ->
  threads_inv (release_access created a pc).2 live ((release_access created a pc).1 :: rest) e.
Proof.
  intros I Hpc. assert (A : adding (contig_pages_ a) pc = []) by (by destruct pc).
  pose proof (front_inv _ _ _ _ _ I A) as HI. pose proof (front_ok _ _ _ _ _ I) as Hok.
  destruct pc as [| | | |r my|r my|r my|r my|k|batch k]; try done; cbn [release_access].
  - case_if; moved I HI.
  - case_if; cbn [fst snd]; [moved I HI|]. moved I (running_inv _ true _ _ HI).
  - case_if; cbn [fst snd]; [moved I HI|]. moved I (running_inv _ false _ _ HI).
  - assert (Hp : live ++ releasing (P_push r my) ++ (rest ≫= held_of (contig_pages_ a)) ≡ₚ r :: live ++ (rest ≫= held_of (contig_pages_ a))).
    { symmetry. apply Permutation_middle. }
    assert (Hr : r ∈ live ++ releasing (P_push r my) ++ (rest ≫= held_of (contig_pages_ a))) by (rewrite Hp; by left).
    destruct (live_run_bounds _ _ _ _ HI Hr) as [Hi _].
    rewrite run_addr_index by done. moved I (queue_inv _ _ _ r _ my (run_addr a (page_index r)) Hok Hp HI).
  - moved I (take_queue_inv _ _ _ HI).
  - destruct batch as [|b batch]; cbn [fst snd].
    + destruct k as [[r my]|]; moved I HI.
    + moved I (process_inv _ _ _ _ HI).
Qed.

(** ** Every step *)

Definition conserved (s : Threads) : Prop := exists e, threads_inv (arena s) (live s) (pcs s) e.

Lemma access_inv chunk got created a live pc rest e pc' a' given :
  0 <= chunk < 2 ^ 32 -> threads_inv a live (pc :: rest) e ->
  (0 < zsum (map (over_of (contig_pages_ a)) (pc :: rest)) -> next_page_ a' <= next_page_ a \/ contig_pages_ a < next_page_ a') ->
  access chunk got created a pc = (pc', a', given) -> exists e', threads_inv a' (given ++ live) (pc' :: rest) e'.
Proof.
  intros Hch I Hcare Hx. pose proof (front_ok _ _ _ _ _ I) as Hok. destruct (counters_bound _ _ _ _ I) as (He & Hc & Hn).
  assert (Hrel : match pc with P_scan _ _ _ | P_bump _ | P_added _ _ => False | _ => True end ->
    (let '(pc, a) := release_access created a pc in (pc, a, [])) = (pc', a', given) -> exists e', threads_inv a' (given ++ live) (pc' :: rest) e').
  { intros Hpc Hr. pose proof (release_access_inv created _ _ _ _ _ I Hpc) as HI. destruct (release_access created a pc) as [q b].
    injection Hr as <- <- <-. by exists e. }
  destruct pc; try (by apply Hrel); clear Hrel; cbn [access] in Hx.
  - exists e. by eapply scan_inv.
  - cbn [alloc_access] in Hx. injection Hx as <- <- <-. apply bump_inv with (e := e); [done|]. cbn [with_next next_page_] in Hcare. cbn in Hok.
    change (zsum (map _ (P_bump num_pages :: rest))) with (0 + zsum (map (over_of (contig_pages_ a)) rest)) in Hcare.
    rewrite wrap_small in * by lia. intros Ho. destruct Hcare; lia.
  - exists e. cbn [alloc_access] in Hx. case_if_in Hx; injection Hx as <- <- <-; [by apply undo_inv with (start := start)|by apply commit_inv].
Qed.

(** A thread between calls starts one. *)
Lemma begin_inv a a' live live' t pcs pc e :
  pcs !! t = Some P_idle -> threads_inv a live pcs e ->
  base_ a' = base_ a -> contig_pages_ a' = contig_pages_ a -> next_page_ a' = next_page_ a -> committed_pages_ a' = committed_pages_ a ->
  adding (contig_pages_ a) pc = [] -> over_of (contig_pages_ a) pc = 0 -> batch_of pc = [] -> pc_ok pc ->
  live' ++ releasing pc ≡ₚ live ->
  (forall batch live, arena_inv (at_end a e) batch live -> arena_inv (at_end a' e) batch live) ->
  threads_inv a' live' (<[t := pc]> pcs) e.
Proof.
  intros Ht I Eb Ec En Em A O B Hok Hl Ha. destruct (thread_focus _ _ _ Ht) as (rest & E1 & E2).
  eapply threads_inv_perm; [symmetry; apply E2|]. pose proof (threads_inv_perm _ _ _ _ _ E1 I) as I1.
  eapply (moved_inv _ _ _ _ _ _ _ _ I1); [done..|]. rewrite B. pose proof (front_inv _ _ _ _ _ I1 eq_refl) as HI. apply Ha in HI.
  eapply arena_inv_perm; [reflexivity| |exact HI]. cbn [releasing app]. rewrite <- Hl. by rewrite <- app_assoc.
Qed.

Lemma step_conserved chunk s s' : 0 <= chunk < 2 ^ 32 -> careful_step chunk s s' -> conserved s -> conserved s'.
Proof.
  intros Hch [Hs Hcare] [e I]. revert I Hcare.
  destruct Hs as [a lv ps t my n Ht Hmy Hn|a lv lv' ps t r zf my Ht Hmy Hl|a lv ps t Ht|a lv ps t Ht _|a lv ps t Ht Hall
    |a lv ps t pc got created pc' a' given Ht Hx]; cbn [arena live pcs]; intros I Hcare.
  - exists e. eapply begin_inv; try done. by rewrite app_nil_r.
  - exists e. cbn. eapply begin_inv; try done; try (by case_if).
    + rewrite Hl. cbn [releasing]. symmetry. apply Permutation_cons_append.
    + case_if; [|done]. intros b l HI. exact (log_inv _ _ _ _ HI).
  - exists e. eapply begin_inv; try done. by rewrite app_nil_r.
  - exists e. eapply begin_inv; try done; [by rewrite app_nil_r|]. intros b l HI. exact (running_inv _ false _ _ HI).
  - exists e. destruct Ht as [pc Ht]. assert (pc = P_idle) as -> by (by eapply (proj1 (Forall_lookup _ _) Hall)).
    eapply begin_inv; try done; [by rewrite app_nil_r|]. intros b l HI. exact (running_inv _ false _ _ HI).
  - destruct (thread_focus _ _ _ Ht) as (rest & E1 & E2). pose proof (threads_inv_perm _ _ _ _ _ E1 I) as I1.
    unfold careful, overshoot in Hcare. cbn [arena pcs] in Hcare.
    assert (Hz : zsum (map (over_of (contig_pages_ a)) ps) = zsum (map (over_of (contig_pages_ a)) (pc :: rest))) by (by rewrite E1).
    rewrite Hz in Hcare. destruct (access_inv _ _ _ _ _ _ _ _ _ _ _ Hch I1 Hcare Hx) as [e' I2]. exists e'.
    eapply threads_inv_perm; [symmetry; apply E2|exact I2].
Qed.

Lemma fresh_conserved base contig threads :
  0 < base -> base mod kPageSize = 0 -> 0 <= contig -> base + contig * kPageSize < 2 ^ 64 -> Z.of_nat threads < 2 ^ 31 ->
  conserved (fresh_threads base contig threads).
Proof.
  intros Hb Hm Hc Hf Ht. exists 0.
  assert (E : forall (A : Type) (f : Pc -> list A), f P_idle = [] -> replicate threads P_idle ≫= f = []).
  { intros A f Hf0. clear Ht. induction threads as [|n IH]; [done|]. cbn in *. by rewrite Hf0. }
  constructor; cbn [arena live pcs fresh_threads].
  - rewrite !E by done. apply arena_init_inv; done.
  - cbn [arena_init next_page_ contig_pages_]. clear. induction threads as [|n IH]; [done|]. exact IH.
  - cbn. lia.
  - cbn. lia.
  - by apply Forall_replicate.
  - unfold zlen. rewrite length_replicate. lia.
Qed.

(** ** A thread alone *)

(** A thread that is not interrupted, [avail] saying which [tryLock]s succeed. *)
Fixpoint alone (fuel : nat) (chunk : Z) (avail : Z -> bool) (a : Arena) (pc : Pc) : Arena * list FreeRun :=
  match fuel with
  | O => (a, [])
  | S fuel =>
    let got := match pc with P_scan my _ i => avail (Z.land (my + i) (kNumFreeShards - 1)) | _ => true end in
    let '(pc, a, given) := alloc_access chunk got a pc in
    match pc with
    | P_idle => (a, given)
    | _ => alone fuel chunk avail a pc
    end
  end.

Definition outcome (n : Z) (r : option Z * Arena) : Arena * list FreeRun :=
  (snd r, match fst r with Some idx => [mkRun idx n] | None => [] end).

Lemma alone_bump k chunk avail a n :
  alone (2 + k) chunk avail a (P_bump n) =
  outcome n (if contig_pages_ a <? u64 (next_page_ a + n)
    then (None, with_next a (u64 (u64 (next_page_ a + n) - n)))
    else (Some (next_page_ a), ensureCommitted chunk (with_next a (u64 (next_page_ a + n))) (u64 (next_page_ a + n)))).
Proof. cbn [alone Nat.add alloc_access with_next contig_pages_ next_page_]. by case_if. Qed.

Lemma alone_scan chunk avail a my n k :
  (k < 64)%nat ->
  alone (2 + k) chunk avail a (if 64 - Z.of_nat k <? kNumFreeShards then P_scan my n (64 - Z.of_nat k) else P_bump n) =
  match try_shards avail n my (shards a) (seqZ (64 - Z.of_nat k) (Z.of_nat k)) with
  | Some (idx, sh) => outcome n (Some idx, with_shards a sh)
  | None => alone 2 chunk avail a (P_bump n)
  end.
Proof.
  unfold kNumFreeShards at 1. induction k as [|k IH]; intros Hk; [done|].
  rewrite (proj2 (Z.ltb_lt _ _)) by lia. rewrite seqZ_cons by lia. cbn [try_shards].
  change (2 + S k)%nat with (S (2 + k)). cbn [alone alloc_access].
  rewrite (proj2 (Z.eqb_neq (64 - Z.of_nat (S k)) 0)) by lia. cbn [negb andb].
  replace (64 - Z.of_nat (S k) + 1) with (64 - Z.of_nat k) by lia.
  replace (Z.succ (64 - Z.of_nat (S k))) with (64 - Z.of_nat k) by lia. replace (Z.pred (Z.of_nat (S k))) with (Z.of_nat k) by lia.
  specialize (IH ltac:(lia)). change kNumFreeShards with 64 at 2 4. revert IH. generalize (64 - Z.of_nat (S k)). intros i IH.
  assert (Hcont : forall pc, pc = (if 64 - Z.of_nat k <? 64 then P_scan my n (64 - Z.of_nat k) else P_bump n) ->
    match pc with P_idle => (a, []) | _ => alone (2 + k) chunk avail a pc end = alone (2 + k) chunk avail a pc).
  { intros pc ->. by case_if. }
  destruct (avail _); cbn [negb]; [|rewrite Hcont by done; exact IH].
  destruct (take_run n _) as [[idx l]|]; [done|]. rewrite Hcont by done. exact IH.
Qed.

Lemma alone_first chunk avail my a n k :
  k = 63%nat -> alone (3 + k) chunk avail a (P_scan my n 0) = outcome n (allocatePageRun chunk avail my a n).
Proof.
  intros Hk. change (3 + k)%nat with (S (2 + k)). cbn [alone alloc_access]. rewrite Z.eqb_refl. cbn [negb andb]. unfold allocatePageRun.
  destruct (take_run n (zget [] (shards a) my)) as [[idx l]|]; [done|]. assert ((0 + 1 <? kNumFreeShards) = true) as -> by done.
  pose proof (alone_scan chunk avail a my n k ltac:(lia)) as Hs. replace (64 - Z.of_nat k) with 1 in Hs by lia.
  assert ((1 <? kNumFreeShards) = true) as E by done. rewrite E in Hs. replace (0 + 1) with 1 by lia. rewrite Hs.
  replace (kNumFreeShards - 1) with (Z.of_nat k) by (unfold kNumFreeShards; lia).
  destruct (try_shards _ n my _ _) as [[idx sh]|]; [done|]. rewrite (alone_bump 0).
  cbn [with_next contig_pages_ next_page_]. by case_if.
Qed.

(** A thread alone computes [allocatePageRun]. *)
Lemma alone_allocates chunk avail my a n :
  alone 66 chunk avail a (P_scan my n 0) = outcome n (allocatePageRun chunk avail my a n).
Proof. exact (alone_first chunk avail my a n 63 eq_refl). Qed.

(** C14: The pages of the arena are conserved by its threads.  Fewer than 2^31 threads
    allocate (at most 2^32 - 1 pages at a time), release and drain a fresh arena, in any
    interleaving of their accesses to shared memory: searches of single shards,
    [fetch_add] on the bump pointer, the check with [ensureCommitted] or
    [fetch_sub], the start of the decommit thread, pushes, and single entries of a batch;
    the process may fork while its threads are between calls.  One condition is put on
    the interleaving: while a request that did not fit has yet to move the bump
    pointer back, no other request takes fresh pages (VmArena has a schedule that
    breaks it, after which two requests own a page).  Then the free lists, the queue, the batches being processed, the
    runs of clients and the runs on their way from or to them hold the pages below
    some end exactly once, so that none is lost and none is handed out twice; the bump
    pointer is that end plus what requests that did not fit have yet to
    take back; and the pages of clients lie below the commit watermark. *)
Theorem arena_conservation chunk base contig threads s :
  0 <= chunk < 2 ^ 32 -> 0 < base -> base mod kPageSize = 0 -> 0 <= contig -> base + contig * kPageSize < 2 ^ 64 ->
  Z.of_nat threads < 2 ^ 31 -> rtc (careful_step chunk) (fresh_threads base contig threads) s ->
  exists e, pages_of (concat (shards (arena s)) ++ map run_of (entries_of s) ++ live s ++ in_calls s) ≡ₚ seqZ 0 e /\
    NoDup (pages_of (concat (shards (arena s)) ++ map run_of (entries_of s) ++ live s ++ in_calls s)) /\
    next_page_ (arena s) = e + overshoot s /\
    Forall (fun p => 0 <= p < committed_pages_ (arena s)) (pages_of (live s)).
Proof.
  intros Hch Hb Hm Hc Hf Ht Hr.
  assert (Hs : conserved s).
  { apply (rtc_invariant (careful_step chunk) conserved _ _ (fun x y => step_conserved chunk x y Hch) Hr). by apply fresh_conserved. }
  destruct Hs as [e I]. pose proof (ai_pages _ _ _ (ti_arena _ _ _ _ I)) as Hp. cbn in Hp. exists e.
  assert (Hn : NoDup (pages_of (concat (shards (arena s)) ++ map run_of (entries_of s) ++ live s ++ in_calls s))).
  { unfold entries_of, in_calls. rewrite Hp. apply NoDup_seqZ. }
  splits; [exact Hp|exact Hn|apply I|].
  apply Forall_forall. intros p Hin. assert (He : p ∈ seqZ 0 e).
  { rewrite <- Hp, !pages_of_app, !elem_of_app. auto. }
  apply elem_of_seqZ in He. split; [lia|]. destruct (Z.lt_ge_cases p (committed_pages_ (arena s))) as [|Hge]; [done|exfalso].
  destruct (ti_gap _ _ _ _ I p ltac:(lia)) as (pc & Hpc & Hadd). rewrite !pages_of_app in Hn.
  apply NoDup_app in Hn as (_ & _ & Hn). apply NoDup_app in Hn as (_ & _ & Hn). apply NoDup_app in Hn as (_ & Hn & _).
  apply (Hn p Hin). unfold in_calls. apply list_elem_of_bind in Hadd as (r & Hpr & Hr'). apply list_elem_of_bind. exists r. split; [done|].
  apply list_elem_of_bind. exists pc. split; [|done]. unfold held_of. apply elem_of_app. by left.
Qed.
End Threads.

(** ** A run *)

Section Run.
#[local] Existing Instance pages4K.

Inductive move := M_alloc (t : nat) (my n : Z) | M_release (t : nat) (my : Z) | M_drain (t : nat) | M_go (t : nat) (got created : bool).

(** A move made, if it is a careful step; a release is of the run held first. *)
Definition make (chunk : Z) (s : Threads) (m : move) : option Threads :=
  let start t pc a l := match pcs s !! t with Some P_idle => Some (mkThreads a l (<[t := pc]> (pcs s))) | _ => None end in
  match m with
  | M_alloc t my n =>
    if (0 <=? my) && (my <? kNumFreeShards) && (1 <=? n) && (n <? 2 ^ 32) then start t (P_scan my n 0) (arena s) (live s) else None
  | M_release t my =>
    match live s with
    | r :: l => if (0 <=? my) && (my <? kNumFreeShards) then start t (P_release r my) (arena s) l else None
    | [] => None
    end
  | M_drain t => start t (P_take None) (arena s) (live s)
  | M_go t got created =>
    match pcs s !! t with
    | Some pc =>
      let '(pc', a', given) := access chunk got created (arena s) pc in
      if (overshoot s <=? 0) || (next_page_ a' <=? next_page_ (arena s)) || (contig_pages_ (arena s) <? next_page_ a')
      then Some (mkThreads a' (given ++ live s) (<[t := pc']> (pcs s))) else None
    | None => None
    end
  end.

Fixpoint play (chunk : Z) (s : Threads) (l : list move) : option Threads :=
  match l with
  | [] => Some s
  | m :: l => match make chunk s m with Some s => play chunk s l | None => None end
  end.

Lemma make_sound chunk s m s' : make chunk s m = Some s' -> careful_step chunk s s'.
Proof.
  destruct s as [a l ps]. destruct m as [t my n|t my|t|t got created]; cbn [make arena live pcs].
  - case_if; [|done]. b2p. destruct (ps !! t) as [[]|] eqn:E; try done. intros [= <-]. split; [constructor; [done|lia|lia]|]. cbn. by left.
  - destruct l as [|r l]; [done|]. case_if; [|done]. b2p. destruct (ps !! t) as [[]|] eqn:E; try done. intros [= <-].
    split; [apply (ts_release chunk a _ l ps t r false my); [done|lia|done]|]. by left.
  - destruct (ps !! t) as [[]|] eqn:E; try done. intros [= <-]. split; [by constructor|]. by left.
  - destruct (ps !! t) as [pc|] eqn:E; [|done]. destruct (access _ _ _ _ _) as [[pc' a'] given] eqn:Ex.
    case_if; [|done]. intros [= <-]. split; [by eapply ts_access|]. intros Ho. cbn in *. b2p. lia.
Qed.

Lemma play_sound chunk s l s' : play chunk s l = Some s' -> rtc (careful_step chunk) s s'.
Proof.
  revert s. induction l as [|m l IH]; intros s; cbn [play]; [by intros [= ->]|].
  destruct (make chunk s m) as [s1|] eqn:E; [|done]. intros Hp. eapply rtc_l; [by eapply make_sound|by apply IH].
Qed.

Definition go (n t : nat) : list move := replicate n (M_go t true true).

(** Two threads in an arena of ten pages: the first takes three, the second's request of
    eight is seen not to fit and is undone; the first gives its pages back, a
    third thread drains the queue, and the second gets them. *)
Definition demo : list move :=
  [M_alloc 0 5 3] ++ go 66 0 ++ [M_alloc 1 7 8] ++ go 65 1 ++ [M_release 0 5] ++ go 1 0 ++ go 1 1 ++ go 3 0 ++
  [M_drain 2] ++ go 3 2 ++ [M_alloc 1 5 3] ++ go 1 1.

Lemma arena_conservation_witness :
  exists s, play 0 (fresh_threads 4194304 10 3) demo = Some s /\ live s = [mkRun 0 3] /\ next_page_ (arena s) = 3 /\
    Forall (fun p => 0 <= p < committed_pages_ (arena s)) (pages_of (live s)).
Proof.
  destruct (play 0 (fresh_threads 4194304 10 3) demo) as [s|] eqn:E; [|vm_compute in E; discriminate]. exists s. split; [done|].
  assert (Hm : 4194304 mod kPageSize = 0) by reflexivity. assert (Hb : 4194304 + 10 * kPageSize < 2 ^ 64) by reflexivity.
  destruct (arena_conservation 0 4194304 10 3 s ltac:(lia) ltac:(lia) Hm ltac:(lia) Hb ltac:(lia) (play_sound _ _ _ _ E)) as (e & _ & _ & _ & Hl).
  vm_compute in E. injection E as <-. split; [done|]. split; [done|exact Hl].
Defined.
End Run.
