(* ===== verification/VmTrack.v ===== *)
(** * External page directory (src/vm/vm_region.h, tracking hash)

    The open-addressing table from page addresses to page indices and its
    reverse map.  The table is a sparse array of (key, index) pairs with key 0
    for a free slot.  The probe loop of each operation stops at the first slot
    that is free or holds the key; [probe] is that loop. *)

From S2P Require Import Prelude BitOps Config.

Section Track.
Context `{PG : PageGeometry}.

(* src/vm/vm_region.h:317-317 VmRegion::kTrackMaxPages *)
Definition kTrackMaxPages : Z := 128 * 1024.
(* src/vm/vm_region.h:318-319 VmRegion::kTrackHashCap *)
Definition kTrackHashCap : Z := 256 * 1024.
Definition kTombstone : Z := 2 ^ 64 - 1.

(* src/vm/vm_region.h:321-337 VmRegion::TrackEntry *)
Record Tracker := mkTracker {
  track_hash : gmap Z (Z * Z);   (* slot -> (key, idx) *)
  track_reverse : gmap Z Z;      (* local index -> page address, 0 if absent *)
  external_slot_next_ : Z;
  external_count_ : Z
}.

Definition key_at (h : gmap Z (Z * Z)) (s : Z) : Z := (rd (0, 0) h s).1.
Definition idx_at (h : gmap Z (Z * Z)) (s : Z) : Z := (rd (0, 0) h s).2.

(** [(slot + i) & kTrackHashMask] with the multiplicative hash of the key. *)
(* src/vm/vm_region.h:355-357 VmRegion::lookupIdx *)
Definition trackSlot (key i : Z) : Z :=
  Z.land (Z.shiftr (u64 (key * 0x9E3779B97F4A7C15)) (64 - 18) + i) (kTrackHashCap - 1).

(* src/vm/vm_region.h:356-363 VmRegion::lookupIdx *)
Fixpoint probe (h : gmap Z (Z * Z)) (key i : Z) (fuel : nat) : option Z :=
  match fuel with
  | O => None
  | S fuel =>
    let s := trackSlot key i in
    if (key_at h s =? key) || (key_at h s =? 0) then Some s else probe h key (i + 1) fuel
  end.

Definition find_slot (h : gmap Z (Z * Z)) (key : Z) : option Z := probe h key 0 (Z.to_nat kTrackHashCap).

(* src/vm/vm_region.h:351-365 VmRegion::lookupIdx *)
Definition lookupIdx (t : Tracker) (addr : Z) : Z :=
  let key := Z.shiftr addr kPageShift in
  if key =? 0 then 0
  else match find_slot (track_hash t) key with
       | Some s => if key_at (track_hash t) s =? key then idx_at (track_hash t) s else 0
       | None => 0
       end.

(** Compress-only mode: indices come from the region's page counter, which is
    returned with the index. *)
(* src/vm/vm_region.h:667-694 VmRegion::trackPage *)
Definition trackPage (total_pages next_page : Z) (t : Tracker) (page_addr : Z) : Z * Z * Tracker :=
  let key := Z.shiftr page_addr kPageShift in
  if key =? 0 then (0, next_page, t)
  else match find_slot (track_hash t) key with
       | None => (0, next_page, t)
       | Some s =>
         if key_at (track_hash t) s =? key then (idx_at (track_hash t) s, next_page, t)
         else
           let t := mkTracker (<[s := (key, idx_at (track_hash t) s)]> (track_hash t)) (track_reverse t)
                      (external_slot_next_ t) (external_count_ t) in
           let idx := next_page in
           if total_pages <=? idx then (0, u64 (next_page + 1), t)
           else (idx, u64 (next_page + 1),
                 mkTracker (<[s := (key, idx)]> (track_hash t)) (<[idx := page_addr]> (track_reverse t))
                   (external_slot_next_ t) (external_count_ t))
       end.

(* src/vm/vm_region.h:704-757 VmRegion::trackExternalPage *)
Definition trackExternalPage (base contig : Z) (t : Tracker) (page_addr : Z) : Z * Tracker :=
  if kTrackMaxPages <=? external_slot_next_ t then (0, t)
  else if (base <=? page_addr) && (page_addr <? base + contig * kPageSize) then (0, t)
  else
    let key := Z.shiftr page_addr kPageShift in
    if key =? 0 then (0, t)
    else match find_slot (track_hash t) key with
         | None => (0, t)
         | Some s =>
           if key_at (track_hash t) s =? key then (idx_at (track_hash t) s, t)
           else
             let h := <[s := (key, idx_at (track_hash t) s)]> (track_hash t) in
             let local := external_slot_next_ t in
             if kTrackMaxPages <=? local then (0, mkTracker h (track_reverse t) (local + 1) (external_count_ t))
             else
               let idx := contig + local in
               (idx, mkTracker (<[s := (key, idx)]> h) (<[local := page_addr]> (track_reverse t))
                       (local + 1) (external_count_ t + 1))
         end.

(* src/vm/vm_region.h:765-780 VmRegion::untrackExternalPage *)
Definition untrackExternalPage (t : Tracker) (page_addr : Z) : Tracker :=
  let key := Z.shiftr page_addr kPageShift in
  if key =? 0 then t
  else match find_slot (track_hash t) key with
       | None => t
       | Some s =>
         if key_at (track_hash t) s =? key
         then mkTracker (<[s := (kTombstone, idx_at (track_hash t) s)]> (track_hash t)) (track_reverse t)
                (external_slot_next_ t) (external_count_ t)
         else t
       end.

(** The last lines of [untrackExternalPageLocked]. *)
(* src/vm/vm_region.h:811-814 VmRegion::untrackExternalPageLocked *)
Definition clearReverse (contig : Z) (t : Tracker) (idx : Z) : Tracker :=
  if contig <=? idx then
    let local := idx - contig in
    if local <? kTrackMaxPages
    then mkTracker (track_hash t) (<[local := 0]> (track_reverse t)) (external_slot_next_ t) (external_count_ t)
    else t
  else t.

(** ** Specification: a finite map from page numbers to indices *)

(** The first [i] probes of [k] neither hit [k] nor a free slot. *)
Definition path (h : gmap Z (Z * Z)) (k i : Z) : Prop :=
  forall j, 0 <= j < i -> key_at h (trackSlot k j) <> k /\ key_at h (trackSlot k j) <> 0.

Record track_rep (contig : Z) (t : Tracker) (m : gmap Z Z) : Prop := {
  tr_in : forall k idx, m !! k = Some idx ->
    0 < k < kTombstone /\ exists i, 0 <= i < kTrackHashCap /\ track_hash t !! trackSlot k i = Some (k, idx) /\ path (track_hash t) k i;
  tr_out : forall s k idx, track_hash t !! s = Some (k, idx) -> 0 <= s < kTrackHashCap /\ k <> 0 /\
    (k = kTombstone \/ m !! k = Some idx /\ exists i, 0 <= i < kTrackHashCap /\ s = trackSlot k i /\ path (track_hash t) k i);
  tr_size : Z.of_nat (size (track_hash t)) <= external_slot_next_ t;
  tr_next : 0 <= external_slot_next_ t <= kTrackMaxPages;
  tr_count : external_count_ t = external_slot_next_ t;
  tr_idx : forall k idx, m !! k = Some idx -> contig <= idx < contig + external_slot_next_ t /\
    track_reverse t !! (idx - contig) = Some (Z.shiftl k kPageShift)
}.

(** ** Lemmas *)

Lemma trackSlot_mod key i :
  trackSlot key i = (Z.shiftr (u64 (key * 0x9E3779B97F4A7C15)) (64 - 18) + i) mod kTrackHashCap.
Proof. unfold trackSlot. change (kTrackHashCap - 1) with (Z.ones 18). by rewrite Z.land_ones by lia. Qed.

Lemma trackSlot_range key i : 0 <= trackSlot key i < kTrackHashCap.
Proof. rewrite trackSlot_mod. apply Z.mod_pos_bound. done. Qed.

Lemma trackSlot_inj key i j :
  0 <= i < kTrackHashCap -> 0 <= j < kTrackHashCap -> trackSlot key i = trackSlot key j -> i = j.
Proof. rewrite !trackSlot_mod. set (x := Z.shiftr _ _). unfold kTrackHashCap. intros. dlia. Qed.

Lemma trackSlot_onto key s :
  0 <= s < kTrackHashCap -> exists i, 0 <= i < kTrackHashCap /\ trackSlot key i = s.
Proof.
  intros Hs. pose proof (trackSlot_mod key) as E. set (x := Z.shiftr _ _) in E.
  exists ((s - x) mod kTrackHashCap). split; [apply Z.mod_pos_bound; done|]. rewrite E. unfold kTrackHashCap in *. dlia.
Qed.

Lemma probe_some h key i n s :
  probe h key i n = Some s ->
  exists j, i <= j < i + Z.of_nat n /\ s = trackSlot key j /\ (key_at h s = key \/ key_at h s = 0) /\
    forall j', i <= j' < j -> key_at h (trackSlot key j') <> key /\ key_at h (trackSlot key j') <> 0.
Proof.
  revert i. induction n as [|n IH]; intros i; simpl; [done|]. case_if.
  - intros [= <-]. exists i. splits; [lia|lia|done|lia|lia].
  - intros Hq. destruct (IH _ Hq) as (j & Hj & -> & Hk & Hp). exists j. splits; [lia|lia|done|done|].
    intros j' Hj'. destruct (Z.eq_dec j' i) as [->|]; [lia|]. apply Hp. lia.
Qed.

Lemma probe_none h key i n :
  probe h key i n = None -> forall j, i <= j < i + Z.of_nat n -> key_at h (trackSlot key j) <> key /\ key_at h (trackSlot key j) <> 0.
Proof.
  revert i. induction n as [|n IH]; intros i; simpl; [lia|]. case_if; [done|].
  intros Hq j Hj. destruct (Z.eq_dec j i) as [->|]; [lia|]. apply (IH _ Hq). lia.
Qed.

Lemma probe_path h key i n j :
  i <= j < i + Z.of_nat n -> (key_at h (trackSlot key j) = key \/ key_at h (trackSlot key j) = 0) ->
  (forall j', i <= j' < j -> key_at h (trackSlot key j') <> key /\ key_at h (trackSlot key j') <> 0) ->
  probe h key i n = Some (trackSlot key j).
Proof.
  revert i. induction n as [|n IH]; intros i Hj Hk Hp; simpl; [lia|].
  destruct (Z.eq_dec i j) as [->|]; [case_if; [done|lia]|].
  pose proof (Hp i ltac:(lia)). case_if; [lia|]. apply IH; [lia|done|]. intros. apply Hp. lia.
Qed.

Lemma key_at_some h s k idx : h !! s = Some (k, idx) -> key_at h s = k /\ idx_at h s = idx.
Proof. unfold key_at, idx_at, rd. by intros ->. Qed.

Lemma key_at_insert h s s' k idx : key_at (<[s := (k, idx)]> h) s' = if s =? s' then k else key_at h s'.
Proof. unfold key_at. rewrite rd_insert. by case_if. Qed.

Section Rep.
Context (contig : Z) (t : Tracker) (m : gmap Z Z) (R : track_rep contig t m).

Lemma find_present k idx :
  m !! k = Some idx -> exists i, 0 <= i < kTrackHashCap /\ find_slot (track_hash t) k = Some (trackSlot k i) /\
    track_hash t !! trackSlot k i = Some (k, idx) /\ path (track_hash t) k i.
Proof.
  intros Hk. destruct (tr_in _ _ _ R _ _ Hk) as (_ & i & Hi & Hh & Hp). exists i. splits; try done; [lia|lia|].
  apply probe_path; [rewrite Z2Nat.id by done; lia| |exact Hp]. left. by destruct (key_at_some _ _ _ _ Hh).
Qed.

(** With fewer than [kTrackHashCap] slots in use a probe always stops. *)
Lemma find_absent k :
  0 < k < kTombstone -> m !! k = None -> exists i, 0 <= i < kTrackHashCap /\ find_slot (track_hash t) k = Some (trackSlot k i) /\
    track_hash t !! trackSlot k i = None /\ path (track_hash t) k i.
Proof.
  intros Hk Hm. unfold find_slot. destruct (probe _ k 0 _) as [s|] eqn:E.
  - apply probe_some in E as (i & Hi & -> & Hkey & Hp). rewrite Z2Nat.id in Hi by done. exists i.
    splits; try done; try lia. destruct (track_hash t !! _) as [[k' idx]|] eqn:Eh; [|done]. exfalso.
    destruct (tr_out _ _ _ R _ _ _ Eh) as (_ & Hnz & Ho). destruct (key_at_some _ _ _ _ Eh) as [Ek _].
    rewrite Ek in Hkey. destruct Hkey as [->|]; [|done]. destruct Ho as [|[Ho _]]; [lia|congruence].
  - exfalso. pose proof (probe_none _ _ _ _ E) as Hn. rewrite Z2Nat.id in Hn by done.
    assert (Hsub : list_to_set (seqZ 0 kTrackHashCap) ⊆ dom (track_hash t)).
    { intros s. rewrite elem_of_list_to_set, elem_of_seqZ. intros Hs.
      destruct (trackSlot_onto k s ltac:(lia)) as (i & Hi & <-). destruct (Hn i ltac:(lia)) as [_ Hz].
      apply elem_of_dom. unfold key_at, rd in Hz. destruct (track_hash t !! _) as [|]; [by eexists|done]. }
    apply subseteq_size in Hsub. rewrite size_dom, size_list_to_set in Hsub by apply NoDup_seqZ.
    rewrite length_seqZ in Hsub. pose proof (tr_size _ _ _ R). pose proof (tr_next _ _ _ R).
    unfold kTrackHashCap, kTrackMaxPages in *. lia.
Qed.

Lemma lookup_rep addr :
  0 <= addr < 2 ^ 64 -> lookupIdx t addr = default 0 (if Z.shiftr addr kPageShift =? 0 then None else m !! Z.shiftr addr kPageShift).
Proof.
  intros Ha. unfold lookupIdx. case_if; [done|]. set (k := Z.shiftr addr kPageShift) in *.
  assert (0 <= k < 2 ^ 63).
  { unfold k. rewrite Z.shiftr_div_pow2 by (destruct kPageShift_cases; lia).
    destruct kPageShift_cases as [-> | ->]; dlia. }
  destruct (m !! k) as [idx|] eqn:Em.
  - destruct (find_present k idx Em) as (i & Hi & -> & Hh & _). destruct (key_at_some _ _ _ _ Hh) as [-> ->].
    by rewrite Z.eqb_refl.
  - destruct (find_absent k ltac:(unfold kTombstone; lia) Em) as (i & Hi & -> & Hh & _).
    unfold key_at, rd. rewrite Hh. simpl. by destruct k.
Qed.

Lemma path_insert h k i s v idx :
  v <> k -> v <> 0 -> path h k i -> path (<[s := (v, idx)]> h) k i.
Proof. intros Hv H0 Hp j Hj. rewrite key_at_insert. case_if; [done|by apply Hp]. Qed.

Lemma path_unique k idx idx' i i' :
  0 <= i -> 0 <= i' -> track_hash t !! trackSlot k i = Some (k, idx) -> path (track_hash t) k i ->
  track_hash t !! trackSlot k i' = Some (k, idx') -> path (track_hash t) k i' -> i = i'.
Proof.
  intros H0 H0' Hh Hp Hh' Hp'. apply key_at_some in Hh as [Hh _]. apply key_at_some in Hh' as [Hh' _].
  destruct (Z.lt_trichotomy i i') as [|[|]]; [|done|].
  - by destruct (Hp' i ltac:(lia)).
  - by destruct (Hp i' ltac:(lia)).
Qed.

Lemma shift_page addr : 0 <= addr < 2 ^ 64 -> addr mod kPageSize = 0 ->
  0 <= Z.shiftr addr kPageShift < 2 ^ 63 /\ Z.shiftl (Z.shiftr addr kPageShift) kPageShift = addr.
Proof.
  intros Ha Hm. unfold kPageSize in Hm. assert (0 <= kPageShift) by (destruct kPageShift_cases; lia).
  rewrite Z.shiftl_mul_pow2, Z.shiftr_div_pow2 by done.
  split; [destruct kPageShift_cases as [-> | ->]; dlia|]. pose proof (Z.div_mod addr (2 ^ kPageShift)). lia.
Qed.

Lemma track_insert_rep page_addr k i :
  0 <= page_addr < 2 ^ 64 -> page_addr mod kPageSize = 0 -> k = Z.shiftr page_addr kPageShift ->
  0 < k -> m !! k = None -> 0 <= i < kTrackHashCap -> external_slot_next_ t < kTrackMaxPages ->
  track_hash t !! trackSlot k i = None -> path (track_hash t) k i ->
  let idx := contig + external_slot_next_ t in
  track_rep contig
    (mkTracker (<[trackSlot k i := (k, idx)]> (track_hash t)) (<[external_slot_next_ t := page_addr]> (track_reverse t))
       (external_slot_next_ t + 1) (external_count_ t + 1))
    (<[k := idx]> m).
Proof.
  intros Ha Hmod Ek Hk Hm Hi Hmax Hh Hp idx. destruct (shift_page page_addr Ha Hmod) as [Hkb Eback].
  rewrite <- Ek in Hkb, Eback. pose proof (tr_next _ _ _ R) as Hnx.
  assert (Hpk : path (<[trackSlot k i := (k, idx)]> (track_hash t)) k i).
  { intros j Hj. rewrite key_at_insert. case_if; [|by apply Hp].
    assert (i = j) by (eapply (trackSlot_inj k); unfold kTrackHashCap in *; lia). lia. }
  constructor; cbn [track_hash track_reverse external_slot_next_ external_count_].
  - intros k' idx'. rewrite lookup_insert_Some. intros [[<- <-]|[Hne Hk']].
    + split; [unfold kTombstone; lia|]. exists i. rewrite lookup_insert_eq. done.
    + destruct (tr_in _ _ _ R _ _ Hk') as (Hr & i' & Hi' & Hh' & Hp'). split; [done|]. exists i'. splits; try lia.
      * rewrite lookup_insert_ne; [done|]. intros E. rewrite E in Hh. congruence.
      * apply path_insert; [done|lia|done].
  - intros s k' idx'. rewrite lookup_insert_Some. intros [[<- [= <- <-]]|[Hne Hs]].
    + split; [apply trackSlot_range|]. split; [lia|]. right. rewrite lookup_insert_eq. split; [done|]. by exists i.
    + destruct (tr_out _ _ _ R _ _ _ Hs) as (Hsr & Hnz & Ho). splits; try lia. destruct Ho as [->|(Hk' & i' & Hi' & -> & Hp')]; [by left|].
      right. assert (k <> k') by congruence. rewrite lookup_insert_ne by done. split; [done|]. exists i'. splits; try lia.
      apply path_insert; [done|lia|done].
  - rewrite map_size_insert_None by done. pose proof (tr_size _ _ _ R). lia.
  - lia.
  - rewrite (tr_count _ _ _ R). done.
  - intros k' idx'. rewrite lookup_insert_Some. intros [[<- <-]|[Hne Hk']].
    + split; [lia|]. replace (idx - contig) with (external_slot_next_ t) by lia. by rewrite lookup_insert_eq, Eback.
    + destruct (tr_idx _ _ _ R _ _ Hk') as [Hb Hrv]. split; [lia|]. rewrite lookup_insert_ne by lia. done.
Qed.

Lemma untrack_rep k i idx :
  0 < k < kTombstone -> m !! k = Some idx -> 0 <= i < kTrackHashCap -> track_hash t !! trackSlot k i = Some (k, idx) ->
  path (track_hash t) k i ->
  track_rep contig (mkTracker (<[trackSlot k i := (kTombstone, idx)]> (track_hash t)) (track_reverse t)
    (external_slot_next_ t) (external_count_ t)) (delete k m).
Proof.
  intros Hk Hm Hi Hh Hp. constructor; cbn [track_hash track_reverse external_slot_next_ external_count_]; try apply R.
  - intros k' idx'. rewrite lookup_delete_Some. intros [Hne Hk'].
    destruct (tr_in _ _ _ R _ _ Hk') as (Hr & i' & Hi' & Hh' & Hp'). split; [done|]. exists i'. splits; try lia.
    + rewrite lookup_insert_ne; [done|]. intros E. rewrite E in Hh. congruence.
    + apply path_insert; [lia|done|done].
  - intros s k' idx'. rewrite lookup_insert_Some. intros [[<- [= <- <-]]|[Hne Hs]].
    + split; [apply trackSlot_range|]. split; [done|]. by left.
    + destruct (tr_out _ _ _ R _ _ _ Hs) as (Hsr & Hnz & Ho). splits; try lia. destruct Ho as [->|(Hk' & i' & Hi' & -> & Hp')]; [by left|].
      destruct (decide (k' = k)) as [->|Hkk].
      { exfalso. apply Hne. f_equal. by eapply path_unique; [lia|lia|..]. }
      destruct (tr_in _ _ _ R _ _ Hk') as [Hr _].
      right. rewrite lookup_delete_ne by done. split; [done|]. exists i'. splits; try lia. apply path_insert; [lia|done|done].
  - rewrite map_size_insert_Some by (by eexists). apply R.
  - intros k' idx'. rewrite lookup_delete_Some. intros [_ Hk']. by apply (tr_idx _ _ _ R).
Qed.
End Rep.

Definition track_init : Tracker := mkTracker ∅ ∅ 0 0.

Lemma track_init_rep contig : track_rep contig track_init ∅.
Proof. by constructor. Qed.

(** Abstractly, tracking a page inserts the next free index for its page
    number unless the page is known, lies in the arena or the index space is
    used up. *)
Definition spec_track (base contig next : Z) (m : gmap Z Z) (page_addr : Z) : Z * gmap Z Z :=
  let k := Z.shiftr page_addr kPageShift in
  if kTrackMaxPages <=? next then (0, m)
  else if (base <=? page_addr) && (page_addr <? base + contig * kPageSize) then (0, m)
  else if k =? 0 then (0, m)
  else match m !! k with
       | Some idx => (idx, m)
       | None => (contig + next, <[k := contig + next]> m)
       end.

Definition key_of (addr : Z) : Z := Z.shiftr addr kPageShift.

(** C31: The hash table of external pages implements a finite map from page
    numbers to page indices: looking up, tracking and untracking a page
    return and change exactly what the map operations do.  In particular a
    probe always finds a free slot, tombstones never hide a tracked page, and
    every tracked index leads back to its page. *)
Theorem tracker_refines base contig t m page_addr :
  track_rep contig t m -> 0 <= page_addr < 2 ^ 64 -> page_addr mod kPageSize = 0 ->
  lookupIdx t page_addr = default 0 (m !! key_of page_addr) /\
  (trackExternalPage base contig t page_addr).1 = (spec_track base contig (external_slot_next_ t) m page_addr).1 /\
  track_rep contig (trackExternalPage base contig t page_addr).2
    (spec_track base contig (external_slot_next_ t) m page_addr).2 /\
  track_rep contig (untrackExternalPage t page_addr) (delete (key_of page_addr) m).
Proof.
  intros R Ha Hmod. unfold key_of. destruct (shift_page page_addr Ha Hmod) as [Hkb Eback].
  rewrite (lookup_rep _ _ _ R) by done. unfold trackExternalPage, spec_track, untrackExternalPage.
  set (k := Z.shiftr page_addr kPageShift) in *.
  assert (H0 : m !! 0 = None).
  { destruct (m !! 0) eqn:E; [|done]. destruct (tr_in _ _ _ R _ _ E). lia. }
  destruct (Z.eqb_spec k 0) as [Ek|Ek].
  { rewrite Ek, H0, delete_id by done. repeat case_if; done. }
  assert (Hk : 0 < k < kTombstone) by (unfold kTombstone; lia).
  destruct (m !! k) as [idx|] eqn:Em.
  - destruct (find_present _ _ _ R k idx Em) as (i & Hi & -> & Hh & Hp).
    destruct (key_at_some _ _ _ _ Hh) as [-> ->]. rewrite Z.eqb_refl. splits; try done; try (repeat case_if; done).
    by apply untrack_rep.
  - destruct (find_absent _ _ _ R k Hk Em) as (i & Hi & -> & Hh & Hp).
    assert (E0 : (key_at (track_hash t) (trackSlot k i) =? k) = false).
    { unfold key_at, rd. rewrite Hh. apply Z.eqb_neq. simpl. congruence. }
    rewrite E0, delete_id by done. destruct (kTrackMaxPages <=? external_slot_next_ t) eqn:Emax; [done|].
    destruct (_ && _) eqn:Ein; [done|]. cbn. rewrite insert_insert_eq. splits; try done.
    apply (track_insert_rep _ _ _ R page_addr); try done; lia.
Qed.

End Track.

Section Witness.
#[local] Existing Instance pages4K.

Lemma tracker_refines_witness :
  lookupIdx (trackExternalPage 4194304 100 track_init 81920).2 81920 = 100.
Proof.
  destruct (tracker_refines (PG := pages4K) 4194304 100 track_init ∅ 81920 (track_init_rep 100) ltac:(lia) ltac:(reflexivity))
    as (_ & _ & R & _).
  destruct (tracker_refines (PG := pages4K) 4194304 100 _ _ 81920 R ltac:(lia) ltac:(reflexivity)) as (-> & _). reflexivity.
Defined.
End Witness.
