(* ===== verification/VmRegion.v ===== *)
(** * Page indices and the flat span table (src/vm/vm_region.h)

    [VmRegion] puts the page arena and the external page directory together:
    one index space in which arena pages come first and tracked external
    pages follow, and the flat table from page indices to spans with its
    page tags.  A [Span*] is its address, 0 for null. *)

From S2P Require Import Prelude BitOps Config PageState.
From S2P Require Export VmArena VmTrack.

Section Region.
Context `{PG : PageGeometry}.

(* src/vm/vm_region.h:339-349 VmRegion::page_to_span_ *)
Record FlatTable := mkFlat { page_to_span : gmap Z Z; page_tag : option (gmap Z Z) }.

(* src/vm/vm_region.h:37-45 VmRegion *)
Record VmRegion := mkRegionVm {
  tracking_mode : bool;
  total_pages_ : Z;
  arena : Arena;
  tracker : Tracker;
  flat : option FlatTable;
  vm_bounds : option (Z * Z)
}.

Definition with_arena (v : VmRegion) (a : Arena) : VmRegion :=
  mkRegionVm (tracking_mode v) (total_pages_ v) a (tracker v) (flat v) (vm_bounds v).
Definition with_tracker (v : VmRegion) (t : Tracker) : VmRegion :=
  mkRegionVm (tracking_mode v) (total_pages_ v) (arena v) t (flat v) (vm_bounds v).
Definition with_flat (v : VmRegion) (f : option FlatTable) : VmRegion :=
  mkRegionVm (tracking_mode v) (total_pages_ v) (arena v) (tracker v) f (vm_bounds v).

(** [reserved] is the kernel's answer to [reservePages], [span_ok] and
    [tag_ok] whether the two table mappings succeeded; the metadata
    allocations are taken to succeed. *)
(* src/vm/vm_region.h:383-444 VmRegion::init *)
Definition vm_init (compress_only : bool) (region_size : Z) (reserved : option Z) (span_ok tag_ok : bool)
    : option VmRegion :=
  let tables := if span_ok then Some (mkFlat ∅ (if tag_ok then Some ∅ else None)) else None in
  if negb compress_only then
    let contig := region_size / kPageSize in
    match reserved with
    | None => None
    | Some base =>
      Some (mkRegionVm false (u64 (contig + kTrackMaxPages)) (arena_init base contig) track_init tables
              (Some (base, region_size)))
    end
  else
    Some (mkRegionVm true kTrackMaxPages (with_next (arena_init 0 0) 1) track_init tables None).

(* src/vm/vm_region.h:470-531 VmRegion::allocatePages *)
Definition allocatePages (chunk : Z) (avail : Z -> bool) (my_shard : Z) (v : VmRegion) (num_pages : Z)
    : option Z * VmRegion :=
  if tracking_mode v then (None, v)
  else match allocatePageRun chunk avail my_shard (arena v) num_pages with
       | (Some idx, a) => (Some (run_addr a idx), with_arena v a)
       | (None, a) => (None, with_arena v a)
       end.

(* src/vm/vm_region.h:587-662 VmRegion::releasePages *)
Definition releasePages (landmines zero_free created : bool) (my_shard : Z) (v : VmRegion) (addr num_pages : Z)
    : VmRegion :=
  if tracking_mode v then v
  else with_arena v (arena_releasePages landmines zero_free created my_shard (arena v) addr num_pages).

(* src/vm/vm_region.h:818-826 VmRegion::contains *)
Definition vm_contains (v : VmRegion) (addr : Z) : bool :=
  if tracking_mode v then negb (lookupIdx (tracker v) addr =? 0)
  else if inContigArena (arena v) addr then true
  else negb (lookupIdx (tracker v) addr =? 0).

(* src/vm/vm_region.h:828-834 VmRegion::pageIndex *)
Definition pageIndex (v : VmRegion) (addr : Z) : Z :=
  if tracking_mode v then lookupIdx (tracker v) addr
  else if inContigArena (arena v) addr then (addr - base_ (arena v)) / kPageSize
  else lookupIdx (tracker v) addr.

(** 0 is the null pointer. *)
(* src/vm/vm_region.h:836-850 VmRegion::pageAddress *)
Definition pageAddress (v : VmRegion) (index : Z) : Z :=
  if tracking_mode v then
    if (index =? 0) || (total_pages_ v <=? index) then 0 else rd 0 (track_reverse (tracker v)) index
  else if index <? contig_pages_ (arena v) then base_ (arena v) + index * kPageSize
  else
    let local := index - contig_pages_ (arena v) in
    if kTrackMaxPages <=? local then 0 else rd 0 (track_reverse (tracker v)) local.

(** [lock] returns [None] while another thread holds the page, when the
    caller spins. *)
(* src/vm/vm_region.h:799-816 VmRegion::untrackExternalPageLocked *)
Definition untrackExternalPageLocked (v : VmRegion) (locks : option PageLockTable) (states : option PageStateTable)
    (self page_addr : Z) : option (VmRegion * option PageLockTable * option PageStateTable) :=
  if tracking_mode v then Some (v, locks, states)
  else
    let idx := pageIndex v page_addr in
    if idx =? 0 then Some (v, locks, states)
    else
      match locks with
      | None =>
        let states := option_map (fun st => pst_set st idx EMPTY) states in
        let t := clearReverse (contig_pages_ (arena v)) (untrackExternalPage (tracker v) page_addr) idx in
        Some (with_tracker v t, None, states)
      | Some l =>
        match lock l self idx with
        | None => None
        | Some l =>
          let states := option_map (fun st => pst_set st idx EMPTY) states in
          let t := clearReverse (contig_pages_ (arena v)) (untrackExternalPage (tracker v) page_addr) idx in
          Some (with_tracker v t, Some (unlock l idx), states)
        end
      end.

(* src/vm/vm_region.h:858-862 VmRegion::getSpan *)
Definition getSpan (v : VmRegion) (page_idx : Z) : Z :=
  match flat v with
  | None => 0
  | Some f => if total_pages_ v <=? page_idx then 0 else rd 0 (page_to_span f) page_idx
  end.

(* src/vm/vm_region.h:864-864 VmRegion::kPageTagSmall *)
Definition kPageTagSmall : Z := 0x8000.

(* src/vm/vm_region.h:868-880 VmRegion::setSpan *)
Definition setSpan (v : VmRegion) (page_idx span tag : Z) : VmRegion :=
  match flat v with
  | None => v
  | Some f =>
    if total_pages_ v <=? page_idx then v
    else if negb (span =? 0)
    then with_flat v (Some (mkFlat (<[page_idx := span]> (page_to_span f))
                              (option_map (fun t => <[page_idx := tag]> t) (page_tag f))))
    else with_flat v (Some (mkFlat (<[page_idx := 0]> (page_to_span f))
                              (option_map (fun t => <[page_idx := 0]> t) (page_tag f))))
  end.

Fixpoint fill (m : gmap Z Z) (first : Z) (n : nat) (x : Z) : gmap Z Z :=
  match n with
  | O => m
  | S n => fill (<[first := x]> m) (first + 1) n x
  end.

(* src/vm/vm_region.h:888-904 VmRegion::setSpanRange *)
Definition setSpanRange (v : VmRegion) (first_page_idx num_pages span tag : Z) : VmRegion :=
  match flat v with
  | None => v
  | Some f =>
    if total_pages_ v <? u64 (first_page_idx + num_pages) then v
    else
      let n := Z.to_nat num_pages in
      let tag := if negb (span =? 0) then tag else 0 in
      with_flat v (Some (mkFlat (fill (page_to_span f) first_page_idx n span)
                           (option_map (fun t => fill t first_page_idx n tag) (page_tag f))))
  end.

(* src/vm/vm_region.h:946-949 VmRegion::externalSlotsRemaining *)
Definition externalSlotsRemaining (v : VmRegion) : Z :=
  let used := external_slot_next_ (tracker v) in
  if kTrackMaxPages <=? used then 0 else kTrackMaxPages - used.

(* src/vm/vm_region.h:952-961 VmRegion::committedPages *)
Definition committedPages (v : VmRegion) : Z :=
  let bump := next_page_ (arena v) in
  if tracking_mode v then bump
  else let ext := external_count_ (tracker v) in
       if ext =? 0 then bump else contig_pages_ (arena v) + ext.

(** ** Lemmas *)

Record vm_ok (v : VmRegion) (batch : list DecommitEntry) (live : list FreeRun) (ext : gmap Z Z) : Prop := {
  vo_mode : tracking_mode v = false;
  vo_arena : arena_inv (arena v) batch live;
  vo_track : track_rep (contig_pages_ (arena v)) (tracker v) ext;
  vo_contig : 0 < contig_pages_ (arena v) < 2 ^ 48;
  vo_total : total_pages_ v = contig_pages_ (arena v) + kTrackMaxPages
}.

Lemma fill_lookup m first n x i :
  rd 0 (fill m first n x) i = if (first <=? i) && (i <? first + Z.of_nat n) then x else rd 0 m i.
Proof.
  revert m first. induction n as [|n IH]; intros m first; simpl; [case_if; [lia|done]|].
  rewrite IH, rd_insert. repeat case_if; done || lia.
Qed.

Lemma arena_page_roundtrip (v : VmRegion) idx off :
  tracking_mode v = false -> 0 <= idx < contig_pages_ (arena v) -> 0 <= off < kPageSize ->
  inContigArena (arena v) (base_ (arena v) + idx * kPageSize + off) = true /\
  pageIndex v (base_ (arena v) + idx * kPageSize + off) = idx.
Proof.
  intros Hm Hi Ho. pose proof pg_pos.
  assert (Hin : inContigArena (arena v) (base_ (arena v) + idx * kPageSize + off) = true).
  { unfold inContigArena. apply andb_true_iff. split; [apply Z.leb_le|apply Z.ltb_lt]; nia. }
  split; [done|]. unfold pageIndex. rewrite Hm, Hin.
  replace (base_ (arena v) + idx * kPageSize + off - base_ (arena v)) with (off + idx * kPageSize) by lia.
  rewrite Z.div_add, Z.div_small by lia. lia.
Qed.

(** Page indices and page addresses agree: the index of any byte of an
    arena page leads back to that page, and so does the index of every
    tracked external page; indices of the two kinds never collide. *)
Theorem pageIndex_pageAddress v batch live ext addr :
  vm_ok v batch live ext -> 0 <= addr < 2 ^ 64 -> vm_contains v addr = true -> addr mod kPageSize = 0 ->
  pageAddress v (pageIndex v addr) = addr /\ 0 <= pageIndex v addr < total_pages_ v /\
  (pageIndex v addr < contig_pages_ (arena v) <-> inContigArena (arena v) addr = true).
Proof.
  intros O Ha Hc Hmod. pose proof (vo_mode _ _ _ _ O) as Hm. pose proof (vo_contig _ _ _ _ O).
  rewrite (vo_total _ _ _ _ O). pose proof pg_pos. pose proof (ai_base _ _ _ (vo_arena _ _ _ _ O)) as (Hb0 & Hbm & Hbe).
  unfold vm_contains, pageIndex, pageAddress in *. rewrite Hm in *.
  destruct (inContigArena (arena v) addr) eqn:Hin.
  - unfold inContigArena in Hin. b2p.
    set (q := (addr - base_ (arena v)) / kPageSize).
    assert (Hq : addr = base_ (arena v) + q * kPageSize).
    { assert (Hz : (addr - base_ (arena v)) mod kPageSize = 0) by (rewrite Zminus_mod, Hmod, Hbm; done).
      pose proof (Z.div_mod (addr - base_ (arena v)) kPageSize ltac:(lia)) as Hd. fold q in Hd. lia. }
    assert (0 <= q < contig_pages_ (arena v)) by nia.
    rewrite (proj2 (Z.ltb_lt q _)) by lia. unfold kTrackMaxPages. splits; lia || done.
  - rewrite (lookup_rep _ _ _ (vo_track _ _ _ _ O)) in * by done.
    set (k := Z.shiftr addr kPageShift) in *.
    destruct (Z.eqb_spec k 0); [done|]. destruct (ext !! k) as [idx|] eqn:Ee; [|done]. simpl in *.
    destruct (tr_idx _ _ _ (vo_track _ _ _ _ O) _ _ Ee) as [Hi Hrev].
    pose proof (tr_next _ _ _ (vo_track _ _ _ _ O)).
    rewrite (proj2 (Z.ltb_ge idx _)) by lia. rewrite (proj2 (Z.leb_gt kTrackMaxPages _)) by lia.
    unfold rd. rewrite Hrev. simpl. destruct (shift_page addr Ha Hmod) as [_ Es]. fold k in Es. rewrite Es.
    splits; try lia; done.
Qed.

Lemma clearReverse_rep contig t m idx :
  track_rep contig t m -> (forall k' idx', m !! k' = Some idx' -> idx' <> idx) ->
  track_rep contig (clearReverse contig t idx) m.
Proof.
  intros R Hne. unfold clearReverse. repeat case_if; try done.
  constructor; cbn; try apply R. intros k' idx' Hk'. destruct (tr_idx _ _ _ R _ _ Hk') as [Hb Hr]. split; [done|].
  specialize (Hne _ _ Hk'). by rewrite lookup_insert_ne by lia.
Qed.

Lemma track_idx_inj contig t m k k' idx :
  track_rep contig t m -> m !! k = Some idx -> m !! k' = Some idx -> k = k'.
Proof.
  intros R Hk Hk'. destruct (tr_idx _ _ _ R _ _ Hk) as [_ H1]. destruct (tr_idx _ _ _ R _ _ Hk') as [_ H2].
  rewrite H1 in H2. injection H2 as H2. assert (0 <= kPageShift) by (destruct kPageShift_cases; lia).
  rewrite !Z.shiftl_mul_pow2 in H2 by done. nia.
Qed.

(** Unmapping a tracked page under its page lock removes exactly that page
    from the directory: its index then has no address (a worker holding the
    index sees null), the page is unknown, its state is EMPTY, the page lock is
    free again, and every other tracked page keeps its index. *)
Lemma untrackLocked_correct v batch live ext l st self page_addr v' l' st' :
  vm_ok v batch live ext -> 0 <= page_addr < 2 ^ 64 -> page_addr mod kPageSize = 0 ->
  inContigArena (arena v) page_addr = false -> is_Some (ext !! key_of page_addr) -> key_of page_addr <> 0 ->
  untrackExternalPageLocked v (Some l) (Some st) self page_addr = Some (v', l', st') ->
  vm_ok v' batch live (delete (key_of page_addr) ext) /\
  pageAddress v' (pageIndex v page_addr) = 0 /\ vm_contains v' page_addr = false /\
  st' = Some (pst_set st (pageIndex v page_addr) EMPTY) /\
  (exists l1, l' = Some (clear_flag l1 (pageIndex v page_addr))).
Proof.
  intros O Ha Hmod Hout [idx Hidx] Hk0. unfold untrackExternalPageLocked.
  pose proof (vo_mode _ _ _ _ O) as Hm. pose proof (vo_contig _ _ _ _ O) as Hc. pose proof (vo_track _ _ _ _ O) as R.
  assert (Epi : pageIndex v page_addr = idx).
  { unfold pageIndex. rewrite Hm, Hout, (lookup_rep _ _ _ R) by done. unfold key_of in *.
    by rewrite (proj2 (Z.eqb_neq _ _) Hk0), Hidx. }
  destruct (tr_idx _ _ _ R _ _ Hidx) as [Hi _]. pose proof (tr_next _ _ _ R).
  rewrite Hm, Epi, (proj2 (Z.eqb_neq idx 0)) by lia. destruct (lock l self idx) as [l1|]; [|done].
  intros [= <- <- <-].
  assert (R' : track_rep (contig_pages_ (arena v)) (untrackExternalPage (tracker v) page_addr) (delete (key_of page_addr) ext)).
  { unfold untrackExternalPage, key_of in *. rewrite (proj2 (Z.eqb_neq _ _) Hk0).
    destruct (find_present _ _ _ R _ _ Hidx) as (i & Hib & -> & Hh & Hp). destruct (key_at_some _ _ _ _ Hh) as [-> ->].
    rewrite Z.eqb_refl. apply untrack_rep; try done. by destruct (tr_in _ _ _ R _ _ Hidx). }
  assert (R2 : track_rep (contig_pages_ (arena v)) (clearReverse (contig_pages_ (arena v)) (untrackExternalPage (tracker v) page_addr) idx)
    (delete (key_of page_addr) ext)).
  { apply clearReverse_rep; [done|]. intros k' idx' Hk' ->. apply lookup_delete_Some in Hk' as [Hne Hk'].
    apply Hne. exact (track_idx_inj _ _ _ _ _ _ R Hidx Hk'). }
  splits.
  - by constructor; cbn; try apply O.
  - unfold pageAddress. cbn. rewrite Hm, (proj2 (Z.ltb_ge idx _)), (proj2 (Z.leb_gt kTrackMaxPages _)) by lia.
    unfold clearReverse. rewrite (proj2 (Z.leb_le _ idx)), (proj2 (Z.ltb_lt (idx - _) _)) by lia. cbn. by rewrite rd_insert_eq.
  - unfold vm_contains. cbn. rewrite Hm, Hout, (lookup_rep _ _ _ R2) by done. unfold key_of.
    rewrite lookup_delete_eq. by case_if.
  - done.
  - by eexists.
Qed.

End Region.

Section Witnesses.
#[local] Existing Instance pages4K.

Definition demo_vm : VmRegion := mkRegionVm false (100 + kTrackMaxPages) (arena_init 4194304 100) track_init
  (Some (mkFlat ∅ (Some ∅))) None.
Definition demo_vm1 : VmRegion := with_tracker demo_vm (trackExternalPage 4194304 100 track_init 81920).2.

Lemma demo_vm1_ok : vm_ok demo_vm1 [] [] {[ 20 := 100 ]}.
Proof.
  constructor; [done|exact demo_arena_inv| |done|done].
  apply (track_insert_rep 100 track_init ∅ (track_init_rep 100) 81920 20 0); try done.
  intros j Hj. lia.
Qed.

Lemma pageIndex_pageAddress_witness :
  pageAddress demo_vm1 (pageIndex demo_vm1 81920) = 81920 /\ pageAddress demo_vm1 (pageIndex demo_vm1 4198400) = 4198400.
Proof.
  split.
  - apply (pageIndex_pageAddress demo_vm1 [] [] {[ 20 := 100 ]} 81920 demo_vm1_ok); [lia|vm_compute; reflexivity|reflexivity].
  - apply (pageIndex_pageAddress demo_vm1 [] [] {[ 20 := 100 ]} 4198400 demo_vm1_ok); [lia|reflexivity|reflexivity].
Defined.
End Witnesses.
