(* ===== verification/Span.v ===== *)
(** * Spans (src/core/span.h)

    A span is a run of pages cut into equal slots with a bitmap (1 = free).
    The record keeps the fields of [struct Span] except the intrusive links
    ([IntrusiveList.v]) and the recycling link; [has_page_states] and
    [has_cold_counts] say whether the optional table pointers are set.  What a
    span reads or writes outside itself (page states, cold counters, the re-heat
    counter and the two cooling thresholds) is the [PageEnv] it is passed. *)

From S2P Require Import Prelude BitOps Config SizeClasses PageState.

(* src/core/span.h:28-79 Span *)
Record Span := mkSpan {
  base : Z;
  bitmap : list Z;
  page_count : Z;
  object_size : Z;
  div_magic : Z;
  full_capacity : Z;
  object_count : Z;
  allocated_count : Z;
  size_class : Z;
  is_large : bool;
  arena_id : Z;
  free_hint_word : Z;
  current_cap_per_page : Z;
  resident_empty : bool;
  empty_tick : Z;
  large_size : Z;
  has_page_states : bool;
  first_page_vm_idx : Z;
  has_cold_counts : bool
}.

(** The shared state a span consults: the page table and the cold counters of
    the compressor, the re-heat counter, and the two cooling thresholds
    ([getCoolingCloseTicks()], [coolingCloseDefaultTicks()]). *)
Record PageEnv := mkEnv {
  pe_states : PageStateTable;
  cold_counts : gmap Z Z;
  g_reheat_events : Z;
  cfg_close_ticks : Z;
  cfg_telem_ticks : Z
}.

Definition set_alloc (s : Span) (bm : list Z) (n hint : Z) : Span :=
  mkSpan (base s) bm (page_count s) (object_size s) (div_magic s) (full_capacity s)
    (object_count s) n (size_class s) (is_large s) (arena_id s) hint (current_cap_per_page s)
    (resident_empty s) (empty_tick s) (large_size s) (has_page_states s) (first_page_vm_idx s)
    (has_cold_counts s).

Definition set_cap (s : Span) (bm : list Z) (n hint cap : Z) : Span :=
  mkSpan (base s) bm (page_count s) (object_size s) (div_magic s) (full_capacity s)
    n (allocated_count s) (size_class s) (is_large s) (arena_id s) hint cap
    (resident_empty s) (empty_tick s) (large_size s) (has_page_states s) (first_page_vm_idx s)
    (has_cold_counts s).

Definition set_resident (s : Span) (r : bool) (tick : Z) : Span :=
  mkSpan (base s) (bitmap s) (page_count s) (object_size s) (div_magic s) (full_capacity s)
    (object_count s) (allocated_count s) (size_class s) (is_large s) (arena_id s)
    (free_hint_word s) (current_cap_per_page s) r tick (large_size s) (has_page_states s)
    (first_page_vm_idx s) (has_cold_counts s).

(* src/core/span.h:37-37 kDivShift *)
Definition kDivShift : Z := 40.

(** Bitmap words. *)
Definition num_words (capacity : Z) : Z := (capacity + 63) / 64.
Definition word_of (bm : list Z) (i : Z) : Z := zget 0 bm i.
Definition free_bit (bm : list Z) (slot : Z) : bool :=
  Z.testbit (word_of bm (slot / 64)) (slot mod 64).
Definition set_bit (bm : list Z) (slot : Z) : list Z :=
  zset bm (slot / 64) (Z.lor (word_of bm (slot / 64)) (bit1 (slot mod 64))).
Definition clear_bit (bm : list Z) (word bit : Z) : list Z :=
  zset bm word (Z.land (word_of bm word) (u64 (Z.lnot (bit1 bit)))).

(** First slot that starts on page [p]. *)
(* src/core/span.h:140-140 Span::init *)
Definition first_slot `{PageGeometry} (osz p : Z) : Z := (p * kPageSize + osz - 1) / osz.

(** Slots starting on page [p]. *)
(* src/core/span.h:140-143 Span::init *)
Definition avail_on_page `{PageGeometry} (osz fc p : Z) : Z :=
  let first := first_slot osz p in
  let next := first_slot osz (p + 1) in
  let next := if fc <? next then fc else next in
  if first <? next then next - first else 0.

(** The slots the sparse bitmap of [init] makes available, in loop order. *)
(* src/core/span.h:139-150 Span::init *)
Definition capped_slots `{PageGeometry} (osz fc pages cap : Z) : list Z :=
  seqZ 0 pages ≫= fun p =>
    let use := if avail_on_page osz fc p <? cap then avail_on_page osz fc p else cap in
    (fun i => first_slot osz p + i) <$> seqZ 0 use.

(** The dense bitmap: all ones, with the tail of the last word cleared. *)
(* src/core/span.h:122-133 Span::init *)
Definition dense_bitmap (fc : Z) : list Z :=
  let nw := num_words fc in
  let bm := replicate (Z.to_nat nw) (2 ^ 64 - 1) in
  if 0 <? nw then
    let valid_bits := fc mod 64 in
    if negb (valid_bits =? 0) then zset bm (nw - 1) (bit1 valid_bits - 1) else bm
  else bm.

(* src/core/span.h:93-156 Span::init *)
Definition span_init `{PageGeometry} (base_ pages sc arena max_slots_per_page : Z) : Span :=
  let osz := classSize sc in
  let magic := (2 ^ kDivShift + osz - 1) / osz in
  let fc := u32 ((pages * kPageSize) / osz) in
  let cap_active := (0 <? max_slots_per_page) && (osz <? kPageSize) in
  let '(bm, count, cap) :=
    if negb cap_active then (dense_bitmap fc, u16 fc, 0)
    else
      let bm := replicate (Z.to_nat (num_words fc)) 0 in
      let slots := capped_slots osz fc pages max_slots_per_page in
      let bm := foldl set_bit bm slots in
      let live := zlen slots in
      let '(bm, live) :=
        if live =? 0 then (zset bm 0 (Z.lor (word_of bm 0) 1), 1) else (bm, live) in
      (bm, u16 live, u16 max_slots_per_page) in
  mkSpan base_ bm pages osz magic fc count 0 sc false arena 0 cap false 0 0 false 0 false.

(** Unlock one slot if its bit is clear, counting the unlocked slots. *)
Definition unlock_slot (acc : list Z * Z) (slot : Z) : list Z * Z :=
  let '(bm, added) := acc in
  if negb (free_bit bm slot) then (set_bit bm slot, added + 1) else (bm, added).

(** The slots [widenCap] visits: on each page those between the old and the
    new limit (no new limit when the cap is removed). *)
(* src/core/span.h:174-188 Span::widenCap *)
Definition widen_slots `{PageGeometry} (osz fc pages cur : Z) (new_cap : option Z) : list Z :=
  seqZ 0 pages ≫= fun p =>
    let avail := avail_on_page osz fc p in
    let old_end := if avail <? cur then avail else cur in
    let new_end := match new_cap with
                   | None => avail
                   | Some c => if avail <? c then avail else c
                   end in
    (fun i => first_slot osz p + i) <$> seqZ old_end (new_end - old_end).

(** One pass of the unlocking loop and the update of the counters after it. *)
(* src/core/span.h:171-216 Span::widenCap *)
Definition widen_with `{PageGeometry} (s : Span) (new_cap : option Z) (cap' : Z) : Span :=
  let slots := widen_slots (object_size s) (full_capacity s) (page_count s)
                 (current_cap_per_page s) new_cap in
  let '(bm, added) := foldl unlock_slot (bitmap s, 0) slots in
  if negb (added =? 0) then
    let nc := u32 (object_count s + added) in
    let nc := if full_capacity s <? nc then full_capacity s else nc in
    let nc := if 65535 <? nc then 65535 else nc in
    set_cap s bm (u16 nc) 0 cap'
  else set_cap s bm (object_count s) (free_hint_word s) cap'.

(* src/core/span.h:158-217 Span::widenCap *)
Definition widenCap `{PageGeometry} (s : Span) (new_cap_per_page : Z) : Span :=
  if is_large s || (object_size s =? 0) || (kPageSize <=? object_size s) then s
  else
    let cur := current_cap_per_page s in
    if cur =? 0 then s
    else if new_cap_per_page =? 0 then widen_with s None 0
    else if new_cap_per_page <=? cur then s
    else widen_with s (Some new_cap_per_page) (u16 new_cap_per_page).

(** [div_magic] is not assigned by [initLarge]; a recycled or fresh descriptor
    is zeroed before it ([newSpanDescriptor]). *)
(* src/core/span.h:219-242 Span::initLarge *)
Definition span_initLarge (base_ size pages arena : Z) : Span :=
  mkSpan base_ [] pages 0 0 0 0 1 kNumClasses true arena 0 0 false 0 size false 0 false.

(* src/core/span.h:253-261 Span::resetColdCountForSlot *)
Definition resetColdCountForSlot `{PageGeometry} (e : PageEnv) (s : Span)
    (slot_byte_offset telemetry_ticks : Z) : PageEnv :=
  if negb (has_cold_counts s) then e
  else
    let page_idx := first_page_vm_idx s + slot_byte_offset / kPageSize in
    let reheat := if (0 <? telemetry_ticks) && (telemetry_ticks <=? rd 0 (cold_counts e) page_idx)
                  then u64 (g_reheat_events e + 1) else g_reheat_events e in
    mkEnv (pe_states e) (<[page_idx := 0]> (cold_counts e)) reheat (cfg_close_ticks e)
      (cfg_telem_ticks e).

(* src/core/span.h:264-270 Span::SlotPageClass *)
Inductive SlotPageClass := WARM | COOLING | COMPRESSED_PAGE.

(* src/core/span.h:276-302 Span::classifySlotPage *)
Definition classifySlotPage `{PageGeometry} (e : PageEnv) (s : Span)
    (slot_byte_offset close_ticks : Z) : SlotPageClass :=
  if negb (has_page_states s) then WARM
  else if negb (g_any_page_compressed (pe_states e)) then WARM
  else
    let page_idx := first_page_vm_idx s + slot_byte_offset / kPageSize in
    match pst_get (pe_states e) page_idx with
    | COMPRESSED => COMPRESSED_PAGE
    | EMPTY => WARM
    | COMPRESSING => COOLING
    | _ => if (0 <? close_ticks) && has_cold_counts s && (close_ticks <=? rd 0 (cold_counts e) page_idx)
           then COOLING else WARM
    end.

(* src/core/span.h:342-346 Span::AllocFallback *)
Record AllocFallback := mkFb { cool_word : Z; cool_bit : Z; comp_word : Z; comp_bit : Z }.
Definition no_fallback : AllocFallback := mkFb (-1) 0 (-1) 0.
(* src/core/span.h:345-345 Span::AllocFallback::any *)
Definition fb_any (fb : AllocFallback) : bool := (0 <=? cool_word fb) || (0 <=? comp_word fb).

(** The [while (word)] loop; a word has at most 64 bits to visit. *)
(* src/core/span.h:310-336 Span::pickActiveBit *)
Fixpoint pickActiveBit `{PageGeometry} (fuel : nat) (e : PageEnv) (s : Span) (word_idx word close_ticks : Z)
    (fb : AllocFallback) : Z * AllocFallback :=
  match fuel with
  | O => (-1, fb)
  | S fuel' =>
    if word =? 0 then (-1, fb)
    else
      let bit := ctz word in
      let slot := word_idx * 64 + bit in
      let off := slot * object_size s in
      let next := Z.land word (word - 1) in
      match classifySlotPage e s off close_ticks with
      | WARM => (bit, fb)
      | COOLING =>
        let fb := if cool_word fb <? 0 then mkFb word_idx bit (comp_word fb) (comp_bit fb) else fb in
        pickActiveBit fuel' e s word_idx next close_ticks fb
      | COMPRESSED_PAGE =>
        let fb := if comp_word fb <? 0 then mkFb (cool_word fb) (cool_bit fb) word_idx bit else fb in
        pickActiveBit fuel' e s word_idx next close_ticks fb
      end
  end.

(* src/core/span.h:348-357 Span::takeSlot *)
Definition takeSlot `{PageGeometry} (e : PageEnv) (s : Span) (word bit : Z) (reset_cold : bool)
    (telem_ticks : Z) : Z * Span * PageEnv :=
  let slot := word * 64 + bit in
  let s' := set_alloc s (clear_bit (bitmap s) word bit) (u16 (allocated_count s + 1)) (u16 word) in
  let off := slot * object_size s in
  let e' := if reset_cold then resetColdCountForSlot e s off telem_ticks else e in
  (base s + off, s', e').

(** One [for] loop of [allocateWarm] over the word indices [idxs]. *)
(* src/core/span.h:373-381 Span::allocateWarm *)
Fixpoint scan_words `{PageGeometry} (e : PageEnv) (s : Span) (close_ticks : Z) (idxs : list Z)
    (fb : AllocFallback) : option (Z * Z) * AllocFallback :=
  match idxs with
  | [] => (None, fb)
  | i :: rest =>
    let w := word_of (bitmap s) i in
    if w =? 0 then scan_words e s close_ticks rest fb
    else
      let '(bit, fb) := pickActiveBit 64 e s i w close_ticks fb in
      if bit <? 0 then scan_words e s close_ticks rest fb else (Some (i, bit), fb)
  end.

(* src/core/span.h:368-392 Span::allocateWarm *)
Definition allocateWarm `{PageGeometry} (e : PageEnv) (s : Span) (fb : AllocFallback)
    : option (Z * Span * PageEnv) * AllocFallback :=
  let nw := num_words (full_capacity s) in
  let close_ticks := if has_cold_counts s then cfg_close_ticks e else 0 in
  let telem_ticks := if has_cold_counts s then cfg_telem_ticks e else 0 in
  let '(r, fb) := scan_words e s close_ticks (seqZ (free_hint_word s) (nw - free_hint_word s)) fb in
  match r with
  | Some (i, bit) => (Some (takeSlot e s i bit true telem_ticks), fb)
  | None =>
    let '(r, fb) := scan_words e s close_ticks (seqZ 0 (free_hint_word s)) fb in
    match r with
    | Some (i, bit) => (Some (takeSlot e s i bit true telem_ticks), fb)
    | None => (None, fb)
    end
  end.

(* src/core/span.h:398-405 Span::consumeFallback *)
Definition consumeFallback `{PageGeometry} (e : PageEnv) (s : Span) (fb : AllocFallback)
    : option (Z * Span * PageEnv) :=
  let telem_ticks := if has_cold_counts s then cfg_telem_ticks e else 0 in
  if 0 <=? cool_word fb then Some (takeSlot e s (cool_word fb) (cool_bit fb) true telem_ticks)
  else if 0 <=? comp_word fb then Some (takeSlot e s (comp_word fb) (comp_bit fb) false 0)
  else None.

(* src/core/span.h:407-417 Span::allocate *)
Definition span_allocate `{PageGeometry} (e : PageEnv) (s : Span) : option (Z * Span * PageEnv) :=
  match allocateWarm e s no_fallback with
  | (Some r, _) => Some r
  | (None, fb) => consumeFallback e s fb
  end.

(* src/core/span.h:432-439 Span::slotOf *)
Definition slotOf (s : Span) (offset : Z) : Z :=
  Z.shiftr (u64 (offset * div_magic s)) kDivShift.

(* src/core/span.h:419-430 Span::deallocate *)
Definition span_deallocate (s : Span) (ptr : Z) : Span :=
  let offset := u64 (ptr - base s) in
  let slot := slotOf s offset in
  let word := slot / 64 in
  let bit := slot mod 64 in
  set_alloc s (zset (bitmap s) word (Z.lor (word_of (bitmap s) word) (bit1 bit)))
    (u16 (allocated_count s - 1))
    (if word <? free_hint_word s then u16 word else free_hint_word s).

(* src/core/span.h:441-441 Span::full *)
Definition span_full (s : Span) : bool := allocated_count s =? object_count s.
(* src/core/span.h:442-442 Span::empty *)
Definition span_empty (s : Span) : bool := allocated_count s =? 0.

(* src/core/span.h:444-449 Span::contains *)
Definition span_contains `{PageGeometry} (s : Span) (p : Z) : bool :=
  (base s <=? p) && (p <? base s + page_count s * kPageSize).
