(* ===== verification/SpanFacts.v ===== *)
(** * Span invariant and the bitmap scan

    The invariant [span_inv s A] says what the bitmap and the counters of a
    span mean when [A] is the set of slots handed out: the free bits and [A]
    are disjoint parts of the span's slots, the counters count them, and the
    usable slots (free or handed out) are all of them without a per-page cap and
    the first [current_cap_per_page] of each page with one. *)

From S2P Require Import Prelude BitOps Config SizeClasses PageState Span.

(** Position of a slot among those starting on its page. *)
Definition slot_page `{PageGeometry} (osz slot : Z) : Z := slot * osz / kPageSize.
Definition slot_index `{PageGeometry} (osz slot : Z) : Z := slot - first_slot osz (slot_page osz slot).

Record span_inv `{PageGeometry} (s : Span) (A : gset Z) : Prop := {
  si_osz : 16 <= object_size s <= 16384;
  si_magic : div_magic s = (2 ^ kDivShift + object_size s - 1) / object_size s;
  si_pages : 1 <= page_count s <= 8;
  si_fc : full_capacity s = page_count s * kPageSize / object_size s;
  si_base : 0 <= base s /\ base s + page_count s * kPageSize <= 2 ^ 64;
  si_small : is_large s = false;
  si_len : zlen (bitmap s) = num_words (full_capacity s);
  si_word : forall i, 0 <= word_of (bitmap s) i < 2 ^ 64;
  si_tail : forall x, full_capacity s <= x -> free_bit (bitmap s) x = false;
  si_hint : 0 <= free_hint_word s <= num_words (full_capacity s);
  si_alloc : allocated_count s = Z.of_nat (size A);
  si_count : zcount (free_bit (bitmap s)) (Z.to_nat (full_capacity s)) + allocated_count s = object_count s;
  si_live : forall x, x ∈ A -> 0 <= x < full_capacity s /\ free_bit (bitmap s) x = false;
  si_usable : forall x, 0 <= x < full_capacity s ->
    free_bit (bitmap s) x = true \/ x ∈ A <->
    current_cap_per_page s = 0 \/ slot_index (object_size s) x < current_cap_per_page s
}.

(** ** Bits of the bitmap *)

Lemma slot_split x : x = x / 64 * 64 + x mod 64 /\ 0 <= x mod 64 < 64.
Proof. dlia. Qed.

Lemma free_bit_set_bit bm slot j :
  0 <= slot < 64 * zlen bm -> 0 <= j ->
  free_bit (set_bit bm slot) j = (j =? slot) || free_bit bm j.
Proof.
  intros Hs Hj. unfold free_bit, set_bit, word_of.
  rewrite zget_zset by dlia.
  pose proof (slot_split slot). pose proof (slot_split j). case_if.
  - rewrite Z.lor_spec, bit1_spec by lia. rewrite E, orb_comm. f_equal. lia.
  - destruct (Z.eqb_spec j slot); [subst; done|done].
Qed.

Lemma word_of_set_bit bm slot i :
  0 <= slot < 64 * zlen bm -> (forall i, 0 <= word_of bm i < 2 ^ 64) ->
  0 <= word_of (set_bit bm slot) i < 2 ^ 64.
Proof.
  intros Hs Hw. unfold set_bit, word_of in *. rewrite zget_zset by dlia. case_if; [|done].
  apply lor_bound; [lia|apply Hw|]. apply bit1_bound. dlia.
Qed.

Lemma zlen_set_bit bm slot : zlen (set_bit bm slot) = zlen bm.
Proof. apply zlen_zset. Qed.

Lemma free_bit_clear_bit bm word bit j :
  0 <= word < zlen bm -> 0 <= bit < 64 -> 0 <= j ->
  free_bit (clear_bit bm word bit) j = free_bit bm j && negb (j =? word * 64 + bit).
Proof.
  intros Hw Hb Hj. unfold free_bit, clear_bit, word_of. rewrite zget_zset by lia.
  pose proof (slot_split j). case_if.
  - rewrite Z.land_spec, E. f_equal. unfold wrap. rewrite Z.mod_pow2_bits_low by lia.
    rewrite Z.lnot_spec, bit1_spec by lia. f_equal. lia.
  - destruct (Z.eqb_spec j (word * 64 + bit)); [dlia|]. by rewrite andb_true_r.
Qed.

Lemma word_of_clear_bit bm word bit i :
  0 <= word < zlen bm -> (forall i, 0 <= word_of bm i < 2 ^ 64) ->
  0 <= word_of (clear_bit bm word bit) i < 2 ^ 64.
Proof.
  intros Hs Hw. unfold clear_bit, word_of in *. rewrite zget_zset by lia. case_if; [|done].
  apply land_bound; [lia|apply Hw].
Qed.

(** ** Exact division by multiplication *)

(** With [m = ceil(2^40 / d)], multiplying and shifting divides exactly as long
    as the rounding error stays below one unit. *)
Lemma magic_div n d :
  16 <= d <= 2 ^ 14 -> 0 <= n < 2 ^ 26 ->
  Z.shiftr (u64 (n * ((2 ^ 40 + d - 1) / d))) 40 = n / d.
Proof.
  intros Hd Hn. set (m := (2 ^ 40 + d - 1) / d).
  assert (Hm : 2 ^ 40 <= m * d < 2 ^ 40 + d) by (unfold m; dnia).
  assert (0 <= m <= 2 ^ 37) by nia. assert (0 <= n * m < 2 ^ 64) by nia.
  rewrite wrap_small by lia. rewrite Z.shiftr_div_pow2 by lia.
  symmetry. apply Z.div_unique with (n * m - 2 ^ 40 * (n / d)); [|lia]. left.
  assert (Hq : d * (n / d) <= n < d * (n / d) + d) by dlia.
  assert (0 <= n / d) by (apply Z.div_pos; lia). nia.
Qed.

Section Geometry.
Context `{PageGeometry}.

Lemma fc_bound s A : span_inv s A -> 0 <= full_capacity s <= 8192.
Proof.
  intros I. pose proof (si_osz _ _ I). pose proof (si_pages _ _ I). rewrite (si_fc _ _ I).
  pose proof kPageSize_pos. split; [apply Z.div_pos; lia|].
  apply Z.div_le_upper_bound; nia.
Qed.

(** A slot lies inside the span. *)
Lemma slot_inside s A x :
  span_inv s A -> 0 <= x < full_capacity s ->
  x * object_size s + object_size s <= page_count s * kPageSize.
Proof.
  intros I Hx. pose proof (si_osz _ _ I). rewrite (si_fc _ _ I) in Hx. dnia.
Qed.

(** Different slots do not overlap. *)
Lemma slots_disjoint s A x y :
  span_inv s A -> x <> y ->
  disjoint_iv (base s + x * object_size s) (object_size s) (base s + y * object_size s) (object_size s).
Proof. intros I Hxy. pose proof (si_osz _ _ I). unfold disjoint_iv. nia. Qed.

Lemma words_cover s A x :
  span_inv s A -> 0 <= x < full_capacity s -> 0 <= x < 64 * zlen (bitmap s).
Proof. intros I Hx. rewrite (si_len _ _ I). unfold num_words. dlia. Qed.

Lemma slotOf_exact s A off :
  span_inv s A -> 0 <= off < page_count s * kPageSize -> slotOf s off = off / object_size s.
Proof.
  intros I Hoff. pose proof (si_osz _ _ I). pose proof (si_pages _ _ I). pose proof kPageSize_pos.
  unfold slotOf. rewrite (si_magic _ _ I). apply magic_div; [lia|nia].
Qed.

Lemma slotOf_slot s A x :
  span_inv s A -> 0 <= x < full_capacity s -> slotOf s (u64 (base s + x * object_size s - base s)) = x.
Proof.
  intros I Hx. pose proof (si_osz _ _ I). pose proof (slot_inside s A x I Hx).
  pose proof (si_pages _ _ I). pose proof kPageSize_pos.
  replace (base s + x * object_size s - base s) with (x * object_size s) by lia.
  rewrite wrap_small by nia. rewrite (slotOf_exact s A) by (done || nia).
  apply Z.div_mul. lia.
Qed.
End Geometry.

(** ** The order in which free slots are visited *)

Definition word_slots (bm : list Z) (i : Z) : list Z := (fun b => i * 64 + b) <$> setbits (word_of bm i).

Lemma elem_of_word_slots bm i j :
  0 <= i -> j ∈ word_slots bm i <-> 0 <= j /\ j / 64 = i /\ free_bit bm j = true.
Proof.
  intros Hi. unfold word_slots. rewrite list_elem_of_fmap. setoid_rewrite elem_of_setbits. split.
  - intros (b & -> & Hb & Ht). assert ((i * 64 + b) / 64 = i) as E by dlia.
    splits; [lia|done|]. unfold free_bit. rewrite E.
    replace ((i * 64 + b) mod 64) with b by dlia. done.
  - intros (Hj & <- & Hf). exists (j mod 64). splits; [dlia|dlia|dlia|done].
Qed.

(** The preference cascade over a list of free slots: the first warm one wins,
    the first cooling and the first compressed one are remembered. *)
Definition note_cool (fb : AllocFallback) (x : Z) : AllocFallback :=
  if cool_word fb <? 0 then mkFb (x / 64) (x mod 64) (comp_word fb) (comp_bit fb) else fb.
Definition note_comp (fb : AllocFallback) (x : Z) : AllocFallback :=
  if comp_word fb <? 0 then mkFb (cool_word fb) (cool_bit fb) (x / 64) (x mod 64) else fb.

Fixpoint pref (cls : Z -> SlotPageClass) (xs : list Z) (fb : AllocFallback) : option Z * AllocFallback :=
  match xs with
  | [] => (None, fb)
  | x :: r =>
    match cls x with
    | WARM => (Some x, fb)
    | COOLING => pref cls r (note_cool fb x)
    | COMPRESSED_PAGE => pref cls r (note_comp fb x)
    end
  end.

Lemma pref_app cls l k fb :
  pref cls (l ++ k) fb =
    match pref cls l fb with (Some x, fb') => (Some x, fb') | (None, fb') => pref cls k fb' end.
Proof.
  revert fb. induction l as [|x l IH]; intros fb; simpl; [done|]. destruct (cls x); auto.
Qed.

Section Scan.
Context `{PageGeometry} (e : PageEnv) (s : Span) (close_ticks : Z).

Definition slot_class (x : Z) : SlotPageClass :=
  classifySlotPage e s (x * object_size s) close_ticks.

(** The fuelled [while (word)] loop is the cascade over the set bits: 64
    iterations are enough for any word. *)
Lemma pickActiveBit_pref fuel i w fb :
  0 <= i -> 0 <= w < 2 ^ 64 -> (length (setbits w) <= fuel)%nat ->
  pickActiveBit fuel e s i w close_ticks fb =
    match pref slot_class ((fun b => i * 64 + b) <$> setbits w) fb with
    | (Some x, fb') => (x mod 64, fb')
    | (None, fb') => (-1, fb')
    end.
Proof.
  intros Hi. revert w fb. induction fuel as [|fuel IH]; intros w fb Hw Hf; cbn [pickActiveBit].
  - destruct (setbits w) eqn:E; [|simpl in Hf; lia]. done.
  - destruct (w =? 0) eqn:E; b2p; [by subst|].
    rewrite setbits_step in Hf |- * by lia. simpl length in Hf.
    pose proof (ctz_bound w ltac:(lia)). pose proof (clear_lowest_bound w ltac:(lia)).
    simpl fmap. cbn [pref]. unfold slot_class at 1. unfold note_cool, note_comp.
    replace ((i * 64 + ctz w) / 64) with i by dlia.
    replace ((i * 64 + ctz w) mod 64) with (ctz w) by dlia.
    destruct (classifySlotPage _ _ _ _); [f_equal; dlia| |]; apply IH; lia.
Qed.

Lemma pref_some_mod xs fb x fb' :
  pref slot_class xs fb = (Some x, fb') -> x ∈ xs /\ slot_class x = WARM.
Proof.
  revert fb. induction xs as [|y xs IH]; intros fb; simpl; [done|].
  destruct (slot_class y) eqn:E.
  - intros [= <- _]. split; [left|done].
  - intros Hp. destruct (IH _ Hp). split; [by right|done].
  - intros Hp. destruct (IH _ Hp). split; [by right|done].
Qed.

Lemma scan_words_pref idxs fb :
  Forall (fun i => 0 <= i) idxs -> (forall i, 0 <= word_of (bitmap s) i < 2 ^ 64) ->
  scan_words e s close_ticks idxs fb =
    match pref slot_class (idxs ≫= word_slots (bitmap s)) fb with
    | (Some x, fb') => (Some (x / 64, x mod 64), fb')
    | (None, fb') => (None, fb')
    end.
Proof.
  intros Hi Hw. revert fb. induction Hi as [|i idxs Hi0 Hi IH]; intros fb; cbn [scan_words]; [done|].
  cbn [mbind list_bind]. rewrite pref_app. unfold word_slots at 1.
  destruct (word_of (bitmap s) i =? 0) eqn:E; b2p.
  - rewrite E. simpl. apply IH.
  - rewrite pickActiveBit_pref; [|lia|apply Hw|apply setbits_length].
    destruct (pref _ _ fb) as [[x|] fb'] eqn:Ep; simpl; [|apply IH].
    apply pref_some_mod in Ep as [Hx _]. apply (elem_of_word_slots _ _ _ Hi0) in Hx as (? & <- & _).
    destruct (x mod 64 <? 0) eqn:E2; b2p; [dlia|done].
Qed.

(** What the cascade remembers. *)
Definition cool_ok (xs : list Z) (fb : AllocFallback) : Prop :=
  (cool_word fb = -1 /\ forall x, x ∈ xs -> slot_class x <> COOLING) \/
  (exists x, x ∈ xs /\ slot_class x = COOLING /\ cool_word fb = x / 64 /\ cool_bit fb = x mod 64).
Definition comp_ok (xs : list Z) (fb : AllocFallback) : Prop :=
  (comp_word fb = -1 /\ forall x, x ∈ xs -> slot_class x <> COMPRESSED_PAGE) \/
  (exists x, x ∈ xs /\ slot_class x = COMPRESSED_PAGE /\ comp_word fb = x / 64 /\ comp_bit fb = x mod 64).

Lemma pref_none xs ys fb fb' :
  Forall (fun x => 0 <= x) (ys ++ xs) -> cool_ok ys fb -> comp_ok ys fb ->
  pref slot_class xs fb = (None, fb') ->
  (forall x, x ∈ xs -> slot_class x <> WARM) /\ cool_ok (ys ++ xs) fb' /\ comp_ok (ys ++ xs) fb'.
Proof.
  revert ys fb. induction xs as [|x xs IH]; intros ys fb Hpos Hco Hcm; simpl.
  - intros [= <-]. rewrite app_nil_r. splits; [set_solver|done|done].
  - rewrite cons_middle, app_assoc in *.
    assert (0 <= x) by (rewrite !Forall_app in Hpos; destruct Hpos as [[_ Hx] _]; by inversion Hx).
    assert (0 <= x / 64) by dlia.
    destruct (slot_class x) eqn:E; intros Hp; [done| |].
    + destruct (IH (ys ++ [x]) (note_cool fb x) Hpos) as (? & ? & ?); [..|done|].
      * unfold note_cool, cool_ok. destruct Hco as [[Hc Hn]|(y & ? & ? & Hc & ?)].
        -- rewrite Hc. simpl. right. exists x. set_solver.
        -- rewrite Forall_app in Hpos. destruct Hpos as [Hpos _]. rewrite Forall_app in Hpos.
           destruct Hpos as [Hpos _]. rewrite Forall_forall in Hpos.
           assert (0 <= y) by (by apply Hpos). rewrite (proj2 (Z.ltb_ge _ 0)) by (rewrite Hc; dlia).
           right. exists y. set_solver.
      * unfold note_cool, comp_ok in *. case_if; simpl.
        all: destruct Hcm as [[? Hn]|(y & ? & ? & ? & ?)]; [left; split; [done|]|right; exists y; set_solver].
        all: intros z [Hz|Hz]%elem_of_app; [by apply Hn|]; apply list_elem_of_singleton in Hz as ->; congruence.
      * splits; try done. intros z [->|Hz]%elem_of_cons; [congruence|auto].
    + destruct (IH (ys ++ [x]) (note_comp fb x) Hpos) as (? & ? & ?); [..|done|].
      * unfold note_comp, cool_ok in *. case_if; simpl.
        all: destruct Hco as [[? Hn]|(y & ? & ? & ? & ?)]; [left; split; [done|]|right; exists y; set_solver].
        all: intros z [Hz|Hz]%elem_of_app; [by apply Hn|]; apply list_elem_of_singleton in Hz as ->; congruence.
      * unfold note_comp, comp_ok. destruct Hcm as [[Hc Hn]|(y & ? & ? & Hc & ?)].
        -- rewrite Hc. simpl. right. exists x. set_solver.
        -- rewrite Forall_app in Hpos. destruct Hpos as [Hpos _]. rewrite Forall_app in Hpos.
           destruct Hpos as [Hpos _]. rewrite Forall_forall in Hpos.
           assert (0 <= y) by (by apply Hpos). rewrite (proj2 (Z.ltb_ge _ 0)) by (rewrite Hc; dlia).
           right. exists y. set_solver.
      * splits; try done. intros z [->|Hz]%elem_of_cons; [congruence|auto].
Qed.
End Scan.

(** ** Taking and returning one slot *)

Section Slots.
Context `{PageGeometry}.

Lemma size_below (A : gset Z) n : 0 <= n -> (forall x, x ∈ A -> 0 <= x < n) -> Z.of_nat (size A) <= n.
Proof.
  intros Hn HA. assert (size A <= size (list_to_set (seqZ 0 n) : gset Z))%nat as Hle.
  { apply subseteq_size. intros x Hx. apply elem_of_list_to_set, elem_of_seqZ. specialize (HA x Hx). lia. }
  rewrite size_list_to_set in Hle by apply NoDup_seqZ. rewrite length_seqZ in Hle. lia.
Qed.

Lemma allocated_bound s A : span_inv s A -> 0 <= allocated_count s <= 8192.
Proof.
  intros I. pose proof (fc_bound s A I). rewrite (si_alloc _ _ I).
  pose proof (size_below A (full_capacity s) ltac:(lia) (fun x Hx => proj1 (si_live _ _ I x Hx))). lia.
Qed.

Lemma takeSlot_inv e s A x b t :
  span_inv s A -> 0 <= x < full_capacity s -> free_bit (bitmap s) x = true ->
  let '(p, s', e') := takeSlot e s (x / 64) (x mod 64) b t in
  p = base s + x * object_size s /\ span_inv s' ({[x]} ∪ A) /\
  s' = set_alloc s (clear_bit (bitmap s) (x / 64) (x mod 64)) (allocated_count s + 1) (x / 64) /\
  pe_states e' = pe_states e.
Proof.
  intros I Hx Hfree. unfold takeSlot. replace (x / 64 * 64 + x mod 64) with x by dlia.
  pose proof (words_cover s A x I Hx) as Hcov. pose proof (fc_bound s A I).
  pose proof (allocated_bound s A I). pose proof (slot_split x).
  assert (HxA : x ∉ A) by (intros Hin; destruct (si_live _ _ I x Hin); congruence).
  assert (Hbits : forall y, 0 <= y ->
    free_bit (clear_bit (bitmap s) (x / 64) (x mod 64)) y = free_bit (bitmap s) y && negb (y =? x)).
  { intros y Hy. rewrite free_bit_clear_bit by dlia. do 2 f_equal. dlia. }
  splits; [done| |by rewrite !wrap_small by dlia|].
  - destruct I. constructor; cbn [set_alloc base bitmap page_count object_size div_magic full_capacity
      object_count allocated_count is_large free_hint_word current_cap_per_page]; try done.
    + unfold clear_bit. by rewrite zlen_zset.
    + intros i. apply word_of_clear_bit; [dlia|done].
    + intros y Hy. rewrite Hbits by lia. by rewrite si_tail0.
    + rewrite wrap_small; [|dlia]. unfold num_words in *. dlia.
    + rewrite size_union, size_singleton by set_solver. rewrite wrap_small by lia. lia.
    + rewrite wrap_small by lia. rewrite <- si_count0.
      rewrite (zcount_flip (free_bit (bitmap s)) (free_bit (clear_bit (bitmap s) (x / 64) (x mod 64)))
                 (Z.to_nat (full_capacity s)) x); [lia|lia|done|..].
      * rewrite Hbits by lia. by rewrite Z.eqb_refl, andb_false_r.
      * intros j Hj Hne. rewrite Hbits by lia. rewrite (proj2 (Z.eqb_neq j x)) by done.
        by rewrite andb_true_r.
    + intros y [->%elem_of_singleton|Hy]%elem_of_union.
      * split; [lia|]. rewrite Hbits by lia. by rewrite Z.eqb_refl, andb_false_r.
      * destruct (si_live0 y Hy) as [? Hnf]. split; [lia|]. rewrite Hbits by lia.
        by rewrite Hnf.
    + intros y Hy. rewrite <- si_usable0 by done. rewrite Hbits by lia.
      rewrite elem_of_union, elem_of_singleton.
      destruct (Z.eqb_spec y x) as [->|]; [rewrite Hfree; naive_solver|].
      rewrite andb_true_r. naive_solver.
  - unfold resetColdCountForSlot. destruct b; [|done]. by case_if.
Qed.

Lemma deallocate_inv s A x :
  span_inv s A -> x ∈ A ->
  let s' := span_deallocate s (base s + x * object_size s) in
  span_inv s' (A ∖ {[x]}) /\ base s' = base s /\ object_size s' = object_size s /\
  object_count s' = object_count s /\
  (forall y, 0 <= y -> free_bit (bitmap s') y = (y =? x) || free_bit (bitmap s) y).
Proof.
  intros I HxA. destruct (si_live _ _ I x HxA) as [Hx Hnf]. cbv zeta. unfold span_deallocate.
  rewrite (slotOf_slot s A x I Hx).
  change (zset (bitmap s) (x / 64) (Z.lor (word_of (bitmap s) (x / 64)) (bit1 (x mod 64))))
    with (set_bit (bitmap s) x).
  pose proof (words_cover s A x I Hx) as Hcov. pose proof (fc_bound s A I).
  pose proof (allocated_bound s A I) as Hb.
  assert (Hbits : forall y, 0 <= y -> free_bit (set_bit (bitmap s) x) y = (y =? x) || free_bit (bitmap s) y).
  { intros y Hy. by apply free_bit_set_bit. }
  assert (Hsz : size A = S (size (A ∖ {[x]}))).
  { rewrite (union_difference_singleton_L x A) at 1 by done.
    rewrite size_union, size_singleton by set_solver. done. }
  splits; try done.
  destruct I. constructor; cbn [set_alloc base bitmap page_count object_size div_magic full_capacity
      object_count allocated_count is_large free_hint_word current_cap_per_page]; try done.
  - by rewrite zlen_set_bit.
  - intros i. by apply word_of_set_bit.
  - intros y Hy. rewrite Hbits by lia. rewrite si_tail0 by lia. rewrite (proj2 (Z.eqb_neq y x)) by lia. done.
  - unfold num_words in *. case_if; [rewrite wrap_small by dlia; dlia|done].
  - rewrite wrap_small by lia. lia.
  - rewrite wrap_small by lia. rewrite <- si_count0.
    rewrite (zcount_flip (free_bit (set_bit (bitmap s) x)) (free_bit (bitmap s))
               (Z.to_nat (full_capacity s)) x); [lia|lia| |done|].
    + rewrite Hbits by lia. by rewrite Z.eqb_refl.
    + intros j Hj Hne. rewrite Hbits by lia. by rewrite (proj2 (Z.eqb_neq j x)) by done.
  - intros y [Hy Hyx]%elem_of_difference. destruct (si_live0 y Hy). split; [lia|].
    rewrite Hbits by lia. rewrite (proj2 (Z.eqb_neq y x)) by set_solver. done.
  - intros y Hy. rewrite <- si_usable0 by done. rewrite Hbits by lia.
    rewrite elem_of_difference, elem_of_singleton.
    destruct (Z.eqb_spec y x) as [->|]; naive_solver.
Qed.

(** ** The whole scan *)

Definition scan_order (s : Span) : list Z :=
  seqZ (free_hint_word s) (num_words (full_capacity s) - free_hint_word s) ++ seqZ 0 (free_hint_word s).

Definition visited (s : Span) : list Z := scan_order s ≫= word_slots (bitmap s).

Lemma elem_of_visited s A x :
  span_inv s A -> x ∈ visited s <-> 0 <= x < full_capacity s /\ free_bit (bitmap s) x = true.
Proof.
  intros I. unfold visited. rewrite list_elem_of_bind. pose proof (si_hint _ _ I).
  assert (Hord : forall i, i ∈ scan_order s <-> 0 <= i < num_words (full_capacity s)).
  { intros i. unfold scan_order. rewrite elem_of_app, !elem_of_seqZ. lia. }
  split.
  - intros (i & Hx & Hi%Hord). apply elem_of_word_slots in Hx as (? & <- & Hf); [|lia].
    split; [|done]. destruct (Z.lt_ge_cases x (full_capacity s)); [lia|].
    rewrite (si_tail _ _ I) in Hf by lia. done.
  - intros [Hx Hf]. exists (x / 64). split; [apply elem_of_word_slots; [dlia|]; splits; done || lia|].
    apply Hord. unfold num_words. dlia.
Qed.

Definition span_close (e : PageEnv) (s : Span) : Z := if has_cold_counts s then cfg_close_ticks e else 0.
Definition span_class (e : PageEnv) (s : Span) (x : Z) : SlotPageClass := slot_class e s (span_close e s) x.

Lemma allocateWarm_pref e s A fb :
  span_inv s A ->
  allocateWarm e s fb =
    match pref (span_class e s) (visited s) fb with
    | (Some x, fb') => (Some (takeSlot e s (x / 64) (x mod 64) true
                                (if has_cold_counts s then cfg_telem_ticks e else 0)), fb')
    | (None, fb') => (None, fb')
    end.
Proof.
  intros I. pose proof (si_hint _ _ I). unfold allocateWarm, visited, scan_order.
  rewrite bind_app, pref_app. fold (span_close e s).
  assert (Hpos : forall a n, 0 <= a -> Forall (fun i => 0 <= i) (seqZ a n)).
  { intros a n Ha. apply Forall_forall. intros i Hi%elem_of_seqZ. lia. }
  rewrite scan_words_pref; [|by apply Hpos; lia|apply I]. fold (span_class e s).
  destruct (pref _ _ fb) as [[x|] fb1]; [done|].
  rewrite scan_words_pref; [|by apply Hpos|apply I]. fold (span_class e s).
  by destruct (pref _ _ fb1) as [[x|] fb2].
Qed.

(** Allocation preference: warm before cooling before compressed. *)
Definition class_rank (c : SlotPageClass) : Z :=
  match c with WARM => 0 | COOLING => 1 | COMPRESSED_PAGE => 2 end.

(** What one [allocate] on a span delivers. *)
Definition alloc_result (e : PageEnv) (s : Span) (A : gset Z) (r : Z * Span * PageEnv) : Prop :=
  let '(p, s', e') := r in
  exists x, 0 <= x < full_capacity s /\ free_bit (bitmap s) x = true /\ (x ∉ A) /\
    p = base s + x * object_size s /\ span_inv s' ({[x]} ∪ A) /\
    s' = set_alloc s (clear_bit (bitmap s) (x / 64) (x mod 64)) (allocated_count s + 1) (x / 64) /\
    pe_states e' = pe_states e /\
    (forall y, 0 <= y < full_capacity s -> free_bit (bitmap s) y = true ->
       class_rank (span_class e s x) <= class_rank (span_class e s y)).

Lemma take_result e s A x b t :
  span_inv s A -> x ∈ visited s ->
  (forall y, y ∈ visited s -> class_rank (span_class e s x) <= class_rank (span_class e s y)) ->
  alloc_result e s A (takeSlot e s (x / 64) (x mod 64) b t).
Proof.
  intros I Hx Hrank. apply (elem_of_visited s A) in Hx as [Hx Hf]; [|done].
  pose proof (takeSlot_inv e s A x b t I Hx Hf) as Ht.
  unfold alloc_result. destruct (takeSlot _ _ _ _ _ _) as [[p s'] e'].
  destruct Ht as (? & ? & ? & ?). exists x. splits; try done; try lia.
  - intros HxA. destruct (si_live _ _ I x HxA). congruence.
  - intros y Hy Hfy. apply Hrank. by apply (elem_of_visited s A).
Qed.

Lemma span_allocate_cases e s A :
  span_inv s A ->
  match span_allocate e s with
  | Some r => alloc_result e s A r
  | None => visited s = []
  end.
Proof.
  intros I. unfold span_allocate. rewrite (allocateWarm_pref e s A) by done.
  destruct (pref (span_class e s) (visited s) no_fallback) as [[x|] fb] eqn:Ep.
  - apply pref_some_mod in Ep as [Hx Hw]. apply take_result; [done|done|].
    intros y _. fold (span_class e s x) in Hw. rewrite Hw. destruct (span_class e s y); simpl; lia.
  - assert (Hpos : forall y, y ∈ visited s -> 0 <= y).
    { intros y Hy. apply (elem_of_visited s A) in Hy; [lia|done]. }
    apply (pref_none e s (span_close e s) (visited s) []) in Ep as (Hnw & Hco & Hcm);
      [|by apply Forall_forall|left; split; [done|set_solver]|left; split; [done|set_solver]].
    simpl in Hco, Hcm. fold (span_class e s) in *. unfold consumeFallback.
    assert (Hnw' : forall y, y ∈ visited s -> 1 <= class_rank (span_class e s y)).
    { intros y Hy. specialize (Hnw y Hy). fold (span_class e s y) in Hnw.
      destruct (span_class e s y); simpl; [done|lia|lia]. }
    destruct Hco as [[Hc Hnc]|(x & Hx & Hxc & Hc & Hb)].
    + rewrite Hc. simpl. destruct Hcm as [[Hm Hnm]|(x & Hx & Hxc & Hm & Hb)].
      * rewrite Hm. simpl. destruct (visited s) as [|y l]; [done|]. exfalso.
        assert (Hy : y ∈ (y :: l)) by left. specialize (Hnw y Hy). specialize (Hnc y Hy). specialize (Hnm y Hy).
        by destruct (slot_class e s (span_close e s) y).
      * rewrite (proj2 (Z.leb_le 0 _)) by (rewrite Hm; specialize (Hpos x Hx); dlia).
        rewrite Hm, Hb. apply take_result; [done|done|]. intros y Hy.
        specialize (Hnw y Hy). specialize (Hnc y Hy). unfold span_class. rewrite Hxc.
        destruct (slot_class e s (span_close e s) y); simpl; done || lia.
    + rewrite (proj2 (Z.leb_le 0 _)) by (rewrite Hc; specialize (Hpos x Hx); dlia).
      rewrite Hc, Hb. apply take_result; [done|done|]. intros y Hy.
      specialize (Hnw' y Hy). unfold span_class at 1. rewrite Hxc. done.
Qed.
End Slots.

(** Two bitmaps with the same bits are the same words. *)
Lemma bitmap_ext bm bm' :
  zlen bm = zlen bm' -> (forall i, 0 <= word_of bm i < 2 ^ 64) -> (forall i, 0 <= word_of bm' i < 2 ^ 64) ->
  (forall y, 0 <= y -> free_bit bm y = free_bit bm' y) -> bm = bm'.
Proof.
  intros Hl Hw Hw' Hb. apply (zget_ext 0); [done|]. intros i Hi.
  apply Z.bits_inj'. intros b Hb0. destruct (Z.lt_ge_cases b 64).
  - specialize (Hb (i * 64 + b) ltac:(lia)). unfold free_bit, word_of in Hb.
    replace ((i * 64 + b) / 64) with i in Hb by dlia.
    by replace ((i * 64 + b) mod 64) with b in Hb by dlia.
  - rewrite (testbit_high 64 (zget 0 bm i)) by (exact (Hw i) || lia).
    by rewrite (testbit_high 64 (zget 0 bm' i)) by (exact (Hw' i) || lia).
Qed.
