(* ===== verification/SpanCorrect.v ===== *)
(** * Span initialisation, cap widening and the span theorems

    [init] establishes the invariant of [SpanFacts.v] (dense, or sparse under
    a per-page cap), [widenCap] preserves it, and the theorems on allocation
    and release follow from the scan lemmas. *)

From S2P Require Import Prelude BitOps Config SizeClasses PageState Span SpanFacts.

(** ** Slots and pages *)

Section Pages.
Context `{PageGeometry}.

(** A slot starts on the page its first byte lies on. *)
Lemma slot_page_iff osz x p :
  0 < osz -> first_slot osz p <= x < first_slot osz (p + 1) <-> slot_page osz x = p.
Proof.
  intros Ho. unfold first_slot, slot_page. pose proof kPageSize_pos.
  assert (Hc : forall q, (q * kPageSize + osz - 1) / osz <= x <-> q * kPageSize <= x * osz).
  { intros q. split; intros Hq.
    - assert (q * kPageSize + osz - 1 < osz * x + osz) by dnia. lia.
    - apply Z.lt_succ_r, Z.div_lt_upper_bound; [lia|]. lia. }
  pose proof (Hc p) as Hp. pose proof (Hc (p + 1)) as Hp1.
  split.
  - intros [H1 H2]. symmetry. apply Z.div_unique_pos with (x * osz - kPageSize * p); [|lia].
    apply Hp in H1. assert (~ (p + 1) * kPageSize <= x * osz) by (intros Hn; apply Hp1 in Hn; lia). lia.
  - intros Hd. assert (p * kPageSize <= x * osz < (p + 1) * kPageSize) by (subst p; dlia).
    split; [apply Hp; lia|]. apply Z.nle_gt. intros Hn. apply Hp1 in Hn. lia.
Qed.

Lemma slot_index_nonneg osz x : 0 < osz -> 0 <= slot_index osz x.
Proof.
  intros. unfold slot_index.
  pose proof (proj2 (slot_page_iff osz x (slot_page osz x) ltac:(lia)) eq_refl). lia.
Qed.

(** The slots available on page [p] are those that start on it. *)
Lemma avail_spec osz fc p x :
  0 < osz -> 0 <= x ->
  (first_slot osz p <= x < first_slot osz p + avail_on_page osz fc p <-> x < fc /\ slot_page osz x = p).
Proof.
  intros Ho Hx. rewrite <- slot_page_iff by done. unfold avail_on_page. repeat case_if; lia.
Qed.

Lemma slot_page_bound osz fc pages x :
  0 < osz -> fc = pages * kPageSize / osz -> 0 <= x < fc -> 0 <= slot_page osz x < pages.
Proof.
  intros Ho -> Hx. unfold slot_page. pose proof kPageSize_pos. split; [apply Z.div_pos; nia|].
  apply Z.div_lt_upper_bound; [lia|]. dnia.
Qed.
End Pages.

(** ** Setting several bits *)

Lemma foldl_set_bit bm slots :
  Forall (fun x => 0 <= x < 64 * zlen bm) slots -> (forall i, 0 <= word_of bm i < 2 ^ 64) ->
  zlen (foldl set_bit bm slots) = zlen bm /\
  (forall i, 0 <= word_of (foldl set_bit bm slots) i < 2 ^ 64) /\
  (forall y, 0 <= y -> free_bit (foldl set_bit bm slots) y = bool_decide (y ∈ slots) || free_bit bm y).
Proof.
  revert bm. induction slots as [|x slots IH]; intros bm Hf Hw; simpl.
  - splits; try done.
  - apply Forall_cons in Hf as [Hx Hf]. destruct (IH (set_bit bm x)) as (Hl & Hw' & Hb).
    + by rewrite zlen_set_bit.
    + intros i. by apply word_of_set_bit.
    + rewrite zlen_set_bit in Hl. splits; try done. intros y Hy. rewrite Hb by done.
      rewrite free_bit_set_bit by done. rewrite (bool_decide_ext (y ∈ x :: slots) (y = x \/ y ∈ slots))
        by apply elem_of_cons.
      rewrite bool_decide_or. rewrite orb_assoc, (orb_comm (bool_decide (y ∈ slots))).
      do 2 f_equal. apply Bool.eq_iff_eq_true. rewrite bool_decide_eq_true. lia.
Qed.

(** Counting the members of a list without duplicates. *)
Lemma zcount_members (slots : list Z) n :
  NoDup slots -> Forall (fun x => 0 <= x < Z.of_nat n) slots ->
  zcount (fun y => bool_decide (y ∈ slots)) n = zlen slots.
Proof.
  induction slots as [|x slots IH]; intros Hd Hf.
  - rewrite (zcount_ext _ (fun _ => false)); [apply zcount_false|].
    intros i _. apply bool_decide_false. set_solver.
  - apply NoDup_cons in Hd as [Hx Hd]. apply Forall_cons in Hf as [Hxn Hf].
    rewrite zlen_cons, <- IH by done.
    rewrite (zcount_flip _ (fun y => bool_decide (y ∈ slots)) n x); [lia|done|..].
    + apply bool_decide_true. set_solver.
    + by apply bool_decide_false.
    + intros j _ Hne. apply bool_decide_ext. set_solver.
Qed.

(** Unlocking slots that are clear: they become free and are counted. *)
Lemma foldl_unlock bm added slots :
  Forall (fun x => 0 <= x < 64 * zlen bm) slots -> (forall i, 0 <= word_of bm i < 2 ^ 64) ->
  NoDup slots -> (forall x, x ∈ slots -> free_bit bm x = false) ->
  foldl unlock_slot (bm, added) slots = (foldl set_bit bm slots, added + zlen slots).
Proof.
  revert bm added. induction slots as [|x slots IH]; intros bm added Hf Hw Hd Hc; simpl.
  - by rewrite Z.add_0_r.
  - apply NoDup_cons in Hd as [Hx Hd]. apply Forall_cons in Hf as [Hxn Hf].
    rewrite (Hc x) by set_solver. simpl. rewrite IH; [|by rewrite zlen_set_bit| |done|].
    + rewrite zlen_cons. f_equal. lia.
    + intros i. by apply word_of_set_bit.
    + intros y Hy. rewrite free_bit_set_bit; [|done|rewrite Forall_forall in Hf; specialize (Hf y Hy); lia].
      rewrite Hc by set_solver. rewrite (proj2 (Z.eqb_neq y x)); [done|]. congruence.
Qed.

(** ** The slots selected by the cap loops *)

Section Caps.
Context `{PageGeometry} (osz fc pages : Z).
Context (Hosz : 0 < osz) (Hfc : fc = pages * kPageSize / osz).

(** A block of consecutive slots per page. *)
Definition page_blocks (lo hi : Z -> Z) : list Z :=
  seqZ 0 pages ≫= fun p => (fun i => first_slot osz p + i) <$> seqZ (lo p) (hi p - lo p).

Lemma elem_of_block lo hi p x :
  x ∈ (fun i => first_slot osz p + i) <$> seqZ lo (hi - lo) <->
  lo <= x - first_slot osz p < hi.
Proof.
  rewrite list_elem_of_fmap. split.
  - intros (i & -> & Hi%elem_of_seqZ). lia.
  - intros Hx. exists (x - first_slot osz p). rewrite elem_of_seqZ. lia.
Qed.

Lemma elem_of_page_blocks lo hi x :
  (forall p, 0 <= lo p) -> (forall p, hi p <= avail_on_page osz fc p) -> 0 <= x ->
  x ∈ page_blocks lo hi <->
  0 <= x < fc /\ lo (slot_page osz x) <= slot_index osz x < hi (slot_page osz x).
Proof.
  intros Hlo Hhi Hx. unfold page_blocks. rewrite list_elem_of_bind. split.
  - intros (p & Hi%elem_of_block & Hp%elem_of_seqZ). specialize (Hlo p). specialize (Hhi p).
    destruct (proj1 (avail_spec osz fc p x Hosz Hx)) as [Hlt Hpg]; [lia|].
    unfold slot_index. rewrite Hpg. lia.
  - intros [Hxf Hidx]. pose proof (slot_page_bound osz fc pages x Hosz Hfc Hxf).
    exists (slot_page osz x). split; [apply elem_of_block|apply elem_of_seqZ; lia]. done.
Qed.

Lemma first_slot_nonneg p : 0 <= p -> 0 <= first_slot osz p.
Proof. intros. unfold first_slot. pose proof kPageSize_pos. apply Z.div_pos; nia. Qed.

Lemma page_blocks_nonneg lo hi x : (forall p, 0 <= lo p) -> x ∈ page_blocks lo hi -> 0 <= x.
Proof.
  intros Hlo. unfold page_blocks. rewrite list_elem_of_bind.
  intros (p & Hi%elem_of_block & Hp%elem_of_seqZ). specialize (Hlo p).
  pose proof (first_slot_nonneg p). lia.
Qed.

Lemma NoDup_page_blocks lo hi :
  (forall p, 0 <= lo p) -> (forall p, hi p <= avail_on_page osz fc p) -> NoDup (page_blocks lo hi).
Proof.
  intros Hlo Hhi. apply NoDup_bind.
  - intros p q x Hp%elem_of_seqZ Hq%elem_of_seqZ Hi%elem_of_block Hj%elem_of_block.
    pose proof (Hlo p). pose proof (Hlo q). pose proof (Hhi p). pose proof (Hhi q).
    pose proof (first_slot_nonneg p ltac:(lia)).
    destruct (proj1 (avail_spec osz fc p x Hosz ltac:(lia))) as [_ <-]; [lia|].
    destruct (proj1 (avail_spec osz fc q x Hosz ltac:(lia))) as [_ <-]; [lia|]. done.
  - intros p _. apply NoDup_fmap; [intros i j; lia|apply NoDup_seqZ].
  - apply NoDup_seqZ.
Qed.
End Caps.

Lemma bind_ext {A B} (f g : A -> list B) (l : list A) : (forall x, f x = g x) -> l ≫= f = l ≫= g.
Proof. intros Hfg. induction l as [|x l IH]; simpl; [done|]. rewrite Hfg. f_equal. apply IH. Qed.

(** ** The dense bitmap *)

Lemma ones_word i : 0 <= i < 64 -> Z.testbit (2 ^ 64 - 1) i = true.
Proof.
  intros. replace (2 ^ 64 - 1) with (Z.ones 64) by (rewrite Z.ones_equiv; lia).
  apply Z.ones_spec_low. lia.
Qed.

Lemma dense_bitmap_spec fc :
  0 <= fc ->
  zlen (dense_bitmap fc) = num_words fc /\
  (forall i, 0 <= word_of (dense_bitmap fc) i < 2 ^ 64) /\
  (forall y, 0 <= y -> free_bit (dense_bitmap fc) y = (y <? fc)).
Proof.
  intros Hfc. unfold dense_bitmap. set (nw := num_words fc).
  assert (Hnw : nw = (fc + 63) / 64) by done. assert (0 <= nw) by dlia.
  set (bm := replicate (Z.to_nat nw) (2 ^ 64 - 1)).
  assert (Hlen : zlen bm = nw) by (apply zlen_replicate; lia).
  assert (Hw : forall i, word_of bm i = if (0 <=? i) && (i <? nw) then 2 ^ 64 - 1 else 0).
  { intros i. unfold word_of. case_if; [apply zget_replicate; lia|apply zget_out; lia]. }
  assert (Hfull : forall y, 0 <= y -> free_bit bm y = (y <? 64 * nw)).
  { intros y Hy. unfold free_bit. rewrite Hw. case_if.
    - rewrite ones_word by dlia. symmetry. apply Z.ltb_lt. dlia.
    - rewrite Z.bits_0. symmetry. apply Z.ltb_ge. dlia. }
  assert (Hb : forall i, 0 <= word_of bm i < 2 ^ 64) by (intros i; rewrite Hw; case_if; lia).
  case_if; [case_if|].
  - assert (0 < fc mod 64 < 64) by dlia. rewrite bit1_pow by lia.
    assert (0 < 2 ^ (fc mod 64) < 2 ^ 64) by (split; [lia|apply Z.pow_lt_mono_r; lia]).
    splits; [by rewrite zlen_zset| |].
    + intros i. unfold word_of. rewrite zget_zset by lia. case_if; [lia|apply Hb].
    + intros y Hy. unfold free_bit, word_of. rewrite zget_zset by lia. case_if.
      * replace (2 ^ (fc mod 64) - 1) with (Z.ones (fc mod 64)) by (rewrite Z.ones_equiv; lia).
        destruct (Z.ltb_spec y fc); [apply Z.ones_spec_low; dlia|apply Z.ones_spec_high; dlia].
      * change (free_bit bm y = (y <? fc)). rewrite Hfull by lia. dlia.
  - splits; [done|done|]. intros y Hy. rewrite Hfull by lia. dlia.
  - splits; [done|done|]. intros y Hy. rewrite Hfull by lia. dlia.
Qed.

(** ** Initialisation *)

Section Init.
Context `{PageGeometry}.

Lemma capped_slots_blocks osz fc pages cap :
  capped_slots osz fc pages cap =
    page_blocks osz pages (fun _ => 0)
      (fun p => if avail_on_page osz fc p <? cap then avail_on_page osz fc p else cap).
Proof. apply bind_ext. intros p. by rewrite Z.sub_0_r. Qed.

Lemma elem_of_capped_slots osz fc pages cap x :
  0 < osz -> fc = pages * kPageSize / osz -> 0 <= x ->
  x ∈ capped_slots osz fc pages cap <-> 0 <= x < fc /\ slot_index osz x < cap.
Proof.
  intros Ho Hfc Hx. rewrite capped_slots_blocks.
  rewrite (elem_of_page_blocks osz fc pages Ho Hfc); [|lia|intros p; case_if; lia|done].
  pose proof (slot_index_nonneg osz x Ho). split.
  - intros [Hxf Hi]. case_if_in Hi; lia.
  - intros [Hxf Hi]. split; [done|]. split; [done|].
    destruct (proj2 (avail_spec osz fc (slot_page osz x) x Ho Hx)) as [_ Ha]; [split; [lia|done]|].
    unfold slot_index in *. case_if; lia.
Qed.

Lemma capped_slots_range osz fc pages cap :
  0 < osz -> fc = pages * kPageSize / osz ->
  NoDup (capped_slots osz fc pages cap) /\
  Forall (fun x => 0 <= x < fc) (capped_slots osz fc pages cap).
Proof.
  intros Ho Hfc. split.
  - rewrite capped_slots_blocks. apply (NoDup_page_blocks osz fc pages Ho); [lia|].
    intros p. case_if; lia.
  - apply Forall_forall. intros x Hx.
    assert (0 <= x).
    { rewrite capped_slots_blocks in Hx. revert Hx. apply page_blocks_nonneg; [done|lia]. }
    apply elem_of_capped_slots in Hx; [lia|done..].
Qed.

Definition zero_bitmap (fc : Z) : list Z := replicate (Z.to_nat (num_words fc)) 0.

Lemma zero_bitmap_spec fc :
  0 <= fc -> zlen (zero_bitmap fc) = num_words fc /\ (forall i, word_of (zero_bitmap fc) i = 0) /\
  (forall y, free_bit (zero_bitmap fc) y = false).
Proof.
  intros Hfc. unfold zero_bitmap. assert (0 <= num_words fc) by (unfold num_words; dlia).
  assert (Hz : forall i, word_of (replicate (Z.to_nat (num_words fc)) 0) i = 0).
  { intros i. unfold word_of. destruct (decide (0 <= i < num_words fc)).
    - apply zget_replicate. lia.
    - apply zget_out. rewrite zlen_replicate by lia. lia. }
  splits; [by apply zlen_replicate|done|]. intros y. unfold free_bit. by rewrite Hz, Z.bits_0.
Qed.

(** The first slot is usable under any cap, so a fresh span is never empty of
    usable slots. *)
Lemma slot0_index osz : 0 < osz -> slot_index osz 0 = 0.
Proof.
  intros. unfold slot_index, slot_page, first_slot. pose proof kPageSize_pos.
  change (0 * osz) with 0. rewrite Zdiv_0_l. change (0 * kPageSize) with 0.
  rewrite Z.div_small by lia. lia.
Qed.

Lemma span_init_inv b pages sc arena cap :
  0 <= sc < kNumClasses -> pages = classPages sc -> 0 <= cap < 2 ^ 16 ->
  0 <= b -> b + pages * kPageSize <= 2 ^ 64 ->
  span_inv (span_init b pages sc arena cap) ∅ /\
  current_cap_per_page (span_init b pages sc arena cap) =
    (if (0 <? cap) && (classSize sc <? kPageSize) then cap else 0).
Proof.
  intros Hsc -> Hcap Hb Hend. destruct (class_geometry sc Hsc) as (Hosz & _ & Hpg & Hobj & Hobjb).
  unfold span_init. set (osz := classSize sc) in *. set (pages := classPages sc) in *.
  rewrite (wrap_small 32 (pages * kPageSize / osz)) by lia. rewrite <- Hobj.
  set (fc := classObjects sc) in *. assert (Hfc0 : 0 <= fc) by lia.
  assert (Hhint : 0 <= 0 <= num_words fc) by (unfold num_words; dlia).
  destruct ((0 <? cap) && (osz <? kPageSize)) eqn:Ecap; cbn [negb].
  - b2p. destruct (capped_slots_range osz fc pages cap ltac:(lia) Hobj) as [Hnd Hrange].
    destruct (zero_bitmap_spec fc Hfc0) as (Hzl & Hzw & Hzf). fold (zero_bitmap fc).
    destruct (foldl_set_bit (zero_bitmap fc) (capped_slots osz fc pages cap)) as (Hl & Hw & Hbits).
    { eapply Forall_impl; [exact Hrange|]. intros x Hx. cbv beta in *. rewrite Hzl. unfold num_words. dlia. }
    { intros i. rewrite Hzw. lia. }
    assert (Hin0 : 0 ∈ capped_slots osz fc pages cap).
    { apply elem_of_capped_slots; [lia|done|lia|]. rewrite slot0_index by lia. lia. }
    assert (Hcnt : zcount (free_bit (foldl set_bit (zero_bitmap fc) (capped_slots osz fc pages cap)))
               (Z.to_nat fc) = zlen (capped_slots osz fc pages cap)).
    { rewrite <- (zcount_members _ (Z.to_nat fc)); [|done|].
      - apply zcount_ext. intros i Hi. rewrite Hbits by lia. by rewrite Hzf, orb_false_r.
      - eapply Forall_impl; [exact Hrange|]. cbv beta. lia. }
    pose proof (zcount_bound (free_bit (foldl set_bit (zero_bitmap fc) (capped_slots osz fc pages cap))) (Z.to_nat fc)).
    assert (zlen (capped_slots osz fc pages cap) <> 0).
    { destruct (capped_slots osz fc pages cap); [by apply not_elem_of_nil in Hin0|]. rewrite zlen_cons.
      pose proof (zlen_nonneg l). lia. }
    rewrite (proj2 (Z.eqb_neq _ 0)) by done.
    rewrite (wrap_small 16 (zlen _)) by lia. rewrite (wrap_small 16 cap) by lia.
    split; [|done]. constructor; cbn; try done; try lia.
    + intros x Hx. rewrite Hbits by lia. rewrite Hzf, orb_false_r. apply bool_decide_false.
      intros Hin. rewrite Forall_forall in Hrange. specialize (Hrange x Hin). lia.
    + intros x Hx. rewrite Hbits, Hzf, orb_false_r by lia. rewrite bool_decide_eq_true.
      rewrite elem_of_capped_slots by (done || lia).
      split; [intros [?|Hin]; [lia|by apply not_elem_of_empty in Hin]|]. intros [?|?]; [lia|by left].
  - destruct (dense_bitmap_spec fc Hfc0) as (Hl & Hw & Hbits).
    rewrite (wrap_small 16 fc) by lia. split; [|done]. constructor; cbn; try done; try lia.
    + intros x Hx. rewrite Hbits by lia. lia.
    + rewrite (zcount_ext _ (fun _ => true)); [rewrite zcount_true; lia|].
      intros i Hi. rewrite Hbits by lia. lia.
    + intros x Hx. rewrite Hbits by lia. split; [by left|]. intros _. left. lia.
Qed.
End Init.

(** ** Widening the cap *)

Lemma zcount_disjoint P (A : gset Z) n :
  (forall x, x ∈ A -> 0 <= x < Z.of_nat n /\ P x = false) ->
  zcount P n + Z.of_nat (size A) <= Z.of_nat n.
Proof.
  intros HA.
  assert (Hs : zcount (fun y => bool_decide (y ∈ elements A)) n = Z.of_nat (size A)).
  { rewrite zcount_members; [done|apply NoDup_elements|].
    apply Forall_forall. intros x Hx%elem_of_elements. by apply HA. }
  rewrite <- Hs. assert (HP : forall x, x ∈ elements A -> P x = false).
  { intros x Hx%elem_of_elements. by apply HA. }
  clear Hs HA. induction n as [|n IH]; simpl; [lia|].
  destruct (P (Z.of_nat n)) eqn:E; [|case_if; lia].
  rewrite bool_decide_false; [lia|]. intros Hin. rewrite HP in E; done.
Qed.

Section Widen.
Context `{PageGeometry}.

Lemma elem_of_widen_slots osz fc pages cur nc x :
  0 < osz -> fc = pages * kPageSize / osz -> 0 <= cur -> 0 <= x ->
  x ∈ widen_slots osz fc pages cur nc <->
  0 <= x < fc /\ cur <= slot_index osz x /\ match nc with None => True | Some c => slot_index osz x < c end.
Proof.
  intros Ho Hfc Hcur Hx.
  change (widen_slots osz fc pages cur nc) with
    (page_blocks osz pages
      (fun p => if avail_on_page osz fc p <? cur then avail_on_page osz fc p else cur)
      (fun p => match nc with None => avail_on_page osz fc p
                | Some c => if avail_on_page osz fc p <? c then avail_on_page osz fc p else c end)).
  assert (Ha0 : forall p, 0 <= avail_on_page osz fc p) by (intros p; unfold avail_on_page; repeat case_if; lia).
  rewrite (elem_of_page_blocks osz fc pages Ho Hfc); [|intros p; specialize (Ha0 p); case_if; lia
    |intros p; destruct nc; [case_if; lia|lia]|done].
  split; intros [Hxf Hi]; (split; [done|]).
  all: destruct (proj2 (avail_spec osz fc (slot_page osz x) x Ho Hx)) as [_ Ha]; [split; [lia|done]|].
  all: unfold slot_index in *; destruct nc as [c|]; repeat case_if; repeat case_if_in Hi; lia.
Qed.

Lemma widen_slots_range osz fc pages cur nc :
  0 < osz -> fc = pages * kPageSize / osz -> 0 <= cur ->
  NoDup (widen_slots osz fc pages cur nc) /\ Forall (fun x => 0 <= x < fc) (widen_slots osz fc pages cur nc).
Proof.
  intros Ho Hfc Hcur.
  assert (Ha0 : forall p, 0 <= avail_on_page osz fc p) by (intros p; unfold avail_on_page; repeat case_if; lia).
  split.
  - apply (NoDup_page_blocks osz fc pages Ho (fun p => if avail_on_page osz fc p <? cur then _ else _)
             (fun p => match nc with None => _ | Some c => if avail_on_page osz fc p <? c then _ else _ end)).
    + intros p. specialize (Ha0 p). case_if; lia.
    + intros p. destruct nc; [case_if; lia|lia].
  - apply Forall_forall. intros x Hx. assert (0 <= x).
    { revert Hx. apply (page_blocks_nonneg osz pages Ho
        (fun p => if avail_on_page osz fc p <? cur then avail_on_page osz fc p else cur)
        (fun p => match nc with None => avail_on_page osz fc p
                  | Some c => if avail_on_page osz fc p <? c then avail_on_page osz fc p else c end)).
      intros p. specialize (Ha0 p). case_if; lia. }
    apply elem_of_widen_slots in Hx; [lia|done..].
Qed.

(** One widening pass: the selected slots become free, everything else stays. *)
Lemma widen_pass s A nc cap' :
  span_inv s A -> current_cap_per_page s <> 0 -> 0 <= current_cap_per_page s ->
  (match nc with None => cap' = 0 | Some c => cap' = c /\ current_cap_per_page s < c end) ->
  let slots := widen_slots (object_size s) (full_capacity s) (page_count s) (current_cap_per_page s) nc in
  foldl unlock_slot (bitmap s, 0) slots = (foldl set_bit (bitmap s) slots, zlen slots) /\
  0 <= object_count s + zlen slots <= full_capacity s /\
  forall hint, 0 <= hint <= num_words (full_capacity s) ->
    span_inv (set_cap s (foldl set_bit (bitmap s) slots) (object_count s + zlen slots) hint cap') A.
Proof.
  intros I Hc0 Hc Hnc slots. pose proof (si_osz _ _ I). pose proof (fc_bound s A I) as Hfcb.
  destruct (widen_slots_range (object_size s) (full_capacity s) (page_count s) (current_cap_per_page s) nc)
    as [Hnd Hr]; [lia|apply I|done|]. fold slots in Hnd, Hr.
  assert (Hsel : forall x, 0 <= x -> x ∈ slots <-> 0 <= x < full_capacity s /\
      current_cap_per_page s <= slot_index (object_size s) x /\
      match nc with None => True | Some c => slot_index (object_size s) x < c end).
  { intros x Hx. apply elem_of_widen_slots; [lia|apply I|done|done]. }
  assert (Hclear : forall x, x ∈ slots -> free_bit (bitmap s) x = false /\ x ∉ A).
  { intros x Hx. rewrite Forall_forall in Hr. specialize (Hr x Hx). apply Hsel in Hx; [|lia].
    pose proof (si_usable _ _ I x ltac:(lia)) as Hu.
    destruct (free_bit (bitmap s) x) eqn:E; [exfalso; destruct (proj1 Hu (or_introl eq_refl)); lia|].
    split; [done|]. intros HxA. destruct (proj1 Hu (or_intror HxA)); lia. }
  assert (Hcov : Forall (fun x => 0 <= x < 64 * zlen (bitmap s)) slots).
  { eapply Forall_impl; [exact Hr|]. intros x Hx. apply (words_cover s A x I Hx). }
  destruct (foldl_set_bit (bitmap s) slots Hcov (si_word _ _ I)) as (Hl & Hw & Hbits).
  assert (Hcnt : zcount (free_bit (foldl set_bit (bitmap s) slots)) (Z.to_nat (full_capacity s))
     = zcount (free_bit (bitmap s)) (Z.to_nat (full_capacity s)) + zlen slots).
  { rewrite <- (zcount_members slots (Z.to_nat (full_capacity s)) Hnd); [|eapply Forall_impl; [exact Hr|]; cbv beta; lia].
    rewrite <- zcount_or.
    - apply zcount_ext. intros i Hi. rewrite Hbits by lia. by rewrite orb_comm.
    - intros i Hi Hf. apply bool_decide_false. intros Hin. apply Hclear in Hin as [? _]. congruence. }
  assert (Hlive : forall x, x ∈ A -> 0 <= x < full_capacity s /\ free_bit (foldl set_bit (bitmap s) slots) x = false).
  { intros x Hx. destruct (si_live _ _ I x Hx) as [Hxf Hfr]. split; [done|].
    rewrite Hbits by lia. rewrite Hfr, orb_false_r. apply bool_decide_false.
    intros Hin. by apply Hclear in Hin as [_ ?]. }
  pose proof (zcount_disjoint (free_bit (foldl set_bit (bitmap s) slots)) A (Z.to_nat (full_capacity s))) as Hle.
  pose proof (si_count _ _ I) as Hsc. pose proof (si_alloc _ _ I) as Hsa.
  pose proof (zcount_bound (free_bit (bitmap s)) (Z.to_nat (full_capacity s))).
  pose proof (zlen_nonneg slots).
  splits; [apply foldl_unlock; try done; [apply I|by apply Hclear]|lia|..].
  { enough (zcount (free_bit (foldl set_bit (bitmap s) slots)) (Z.to_nat (full_capacity s))
            + Z.of_nat (size A) <= Z.of_nat (Z.to_nat (full_capacity s))) by lia.
    apply Hle. intros x Hx. destruct (Hlive x Hx). split; [lia|done]. }
  intros hint Hh. constructor; cbn [set_cap base bitmap page_count object_size div_magic full_capacity
      object_count allocated_count is_large free_hint_word current_cap_per_page]; try apply I; try done.
  - rewrite Hl. apply I.
  - intros x Hx. rewrite Hbits by lia. rewrite (si_tail _ _ I) by done. rewrite orb_false_r. apply bool_decide_false.
    intros Hin. rewrite Forall_forall in Hr. specialize (Hr x Hin). lia.
  - lia.
  - intros x Hx. rewrite Hbits by lia. pose proof (si_usable _ _ I x Hx) as Hu.
    rewrite orb_true_iff, bool_decide_eq_true, (Hsel x) by lia.
    destruct nc as [c|]; [destruct Hnc as [-> ?]|subst cap'].
    + split; [intros [[?|?]|?]; [lia| |]; naive_solver lia|]. intros [?|?]; [lia|].
      destruct (Z.lt_ge_cases (slot_index (object_size s) x) (current_cap_per_page s)); [|by left; left].
      destruct (proj2 Hu ltac:(by right)); [by left; right|by right].
    + split; [by left|]. intros _.
      destruct (Z.lt_ge_cases (slot_index (object_size s) x) (current_cap_per_page s)); [|by left; left].
      destruct (proj2 Hu ltac:(by right)); [by left; right|by right].
Qed.

Lemma widenCap_inv s A nc :
  span_inv s A -> 0 <= current_cap_per_page s -> 0 <= nc < 2 ^ 16 ->
  span_inv (widenCap s nc) A /\ 0 <= current_cap_per_page (widenCap s nc) /\
  (forall y, 0 <= y -> free_bit (bitmap s) y = true -> free_bit (bitmap (widenCap s nc)) y = true) /\
  (object_size s < kPageSize ->
   current_cap_per_page (widenCap s nc) =
     if (current_cap_per_page s =? 0) || (nc =? 0) then 0 else Z.max (current_cap_per_page s) nc).
Proof.
  intros I Hc Hnc. pose proof (si_osz _ _ I). pose proof (fc_bound s A I).
  unfold widenCap. rewrite (si_small _ _ I). cbn [orb].
  destruct ((object_size s =? 0) || (kPageSize <=? object_size s)) eqn:E0.
  { splits; try done. intros Hlt. lia. }
  destruct (current_cap_per_page s =? 0) eqn:E1; b2p; [by splits|].
  assert (Hw : forall o cap', (match o with None => cap' = 0 | Some c => cap' = c /\ current_cap_per_page s < c end) ->
    0 <= cap' ->
    span_inv (widen_with s o cap') A /\ current_cap_per_page (widen_with s o cap') = cap' /\
    (forall y, 0 <= y -> free_bit (bitmap s) y = true -> free_bit (bitmap (widen_with s o cap')) y = true)).
  { intros o cap' Ho Hcap'.
    destruct (widen_pass s A o cap' I ltac:(lia) Hc Ho) as (Ef & Hb & Hinv). unfold widen_with. rewrite Ef.
    set (slots := widen_slots _ _ _ _ _) in *.
    assert (Hbits : forall y, 0 <= y -> free_bit (bitmap s) y = true ->
              free_bit (foldl set_bit (bitmap s) slots) y = true).
    { intros y Hy Hf. destruct (widen_slots_range (object_size s) (full_capacity s) (page_count s)
        (current_cap_per_page s) o ltac:(lia) (si_fc _ _ I) Hc) as [_ Hr].
      destruct (foldl_set_bit (bitmap s) slots) as (_ & _ & Hfb); [|apply I|].
      - eapply Forall_impl; [exact Hr|]. intros x Hx. apply (words_cover s A x I Hx).
      - rewrite Hfb by done. by rewrite Hf, orb_true_r. }
    destruct (negb (zlen slots =? 0)) eqn:E2; b2p.
    - rewrite (wrap_small 32) by lia. rewrite (proj2 (Z.ltb_ge (full_capacity s) _)) by lia.
      rewrite (proj2 (Z.ltb_ge 65535 _)) by lia. rewrite (wrap_small 16) by lia.
      splits; [apply Hinv; unfold num_words; dlia|done|done].
    - rewrite E2, Z.add_0_r in Hinv. splits; [apply Hinv, I|done|done]. }
  case_if; [|case_if].
  - destruct (Hw None 0 eq_refl ltac:(lia)) as (? & Hr & ?). splits; [done|rewrite Hr; lia|done|rewrite Hr; intros _; case_if; lia].
  - splits; try done. intros _. case_if; lia.
  - rewrite (wrap_small 16 nc) by lia.
    destruct (Hw (Some nc) nc ltac:(split; [done|lia]) ltac:(lia)) as (? & Hr & ?). splits; [done|rewrite Hr; lia|done|].
    rewrite Hr. intros _. case_if; lia.
Qed.
End Widen.

(** A fresh span: which slots are free, and that there is one. *)
Lemma span_init_free `{PageGeometry} (b sc arena cap : Z) :
  0 <= sc < kNumClasses -> 0 <= cap < 2 ^ 16 -> 0 <= b -> b + classPages sc * kPageSize <= 2 ^ 64 ->
  let s := span_init b (classPages sc) sc arena cap in
  forall x, 0 <= x < full_capacity s ->
    free_bit (bitmap s) x = negb ((0 <? cap) && (classSize sc <? kPageSize)) || (slot_index (object_size s) x <? cap).
Proof.
  intros Hsc Hcap Hb Hend s x Hx.
  destruct (span_init_inv b (classPages sc) sc arena cap Hsc eq_refl Hcap Hb Hend) as [I Hc]. fold s in I, Hc.
  pose proof (si_usable _ _ I x Hx) as Hu. rewrite Hc in Hu. clear Hc. revert Hu.
  pose proof (not_elem_of_empty (C := gset Z) x) as Hemp.
  destruct ((0 <? cap) && (classSize sc <? kPageSize)) eqn:E; cbn [negb orb]; intros Hu; b2p; apply Bool.eq_iff_eq_true.
  - rewrite Z.ltb_lt. naive_solver lia.
  - naive_solver.
Qed.

Lemma span_init_size `{PageGeometry} (b pages sc arena cap : Z) :
  object_size (span_init b pages sc arena cap) = classSize sc.
Proof. unfold span_init. repeat case_if; done. Qed.

Lemma span_init_count `{PageGeometry} (b sc arena cap : Z) :
  0 <= sc < kNumClasses -> 0 <= cap < 2 ^ 16 -> 0 <= b -> b + classPages sc * kPageSize <= 2 ^ 64 ->
  1 <= object_count (span_init b (classPages sc) sc arena cap).
Proof.
  intros Hsc Hcap Hb Hend. pose proof (span_init_free b sc arena cap Hsc Hcap Hb Hend) as Hfree.
  destruct (span_init_inv b (classPages sc) sc arena cap Hsc eq_refl Hcap Hb Hend) as [I _].
  pose proof (span_init_size b (classPages sc) sc arena cap) as Eo.
  set (s := span_init b (classPages sc) sc arena cap) in *.
  assert (He : allocated_count s = 0) by (rewrite (si_alloc _ _ I); done). pose proof (si_count _ _ I).
  enough (0 < zcount (free_bit (bitmap s)) (Z.to_nat (full_capacity s))) by lia.
  destruct (class_geometry sc Hsc) as (Ho & _ & _ & Hobj & Hobjb).
  assert (Hfc1 : 1 <= full_capacity s).
  { rewrite (si_fc _ _ I). unfold s, span_init. case_if; cbn; rewrite <- Hobj; try lia. case_if; cbn; lia. }
  apply (zcount_pos _ _ 0); [lia|]. rewrite (Hfree 0) by lia. rewrite Eo, slot0_index by lia. lia.
Qed.

(** A span initialised for any size class satisfies the invariant with no
    live slot: without a cap every slot is usable, with a cap exactly the first
    [cap] slots starting on each page are, and the object counter counts them. *)
Lemma span_init_correct `{PageGeometry} (b sc arena cap : Z) :
  0 <= sc < kNumClasses -> 0 <= cap < 2 ^ 16 -> 0 <= b -> b + classPages sc * kPageSize <= 2 ^ 64 ->
  let s := span_init b (classPages sc) sc arena cap in
  span_inv s ∅ /\ span_empty s = true /\
  (forall x, 0 <= x < full_capacity s ->
     free_bit (bitmap s) x = negb ((0 <? cap) && (classSize sc <? kPageSize)) || (slot_index (object_size s) x <? cap)) /\
  object_count s = zcount (free_bit (bitmap s)) (Z.to_nat (full_capacity s)) /\ 1 <= object_count s.
Proof.
  intros Hsc Hcap Hb Hend s.
  destruct (span_init_inv b (classPages sc) sc arena cap Hsc eq_refl Hcap Hb Hend) as [I Hc]. fold s in I, Hc.
  assert (He : allocated_count s = 0) by (rewrite (si_alloc _ _ I); done).
  splits; try done.
  - unfold span_empty. lia.
  - by apply span_init_free.
  - pose proof (si_count _ _ I). lia.
  - by apply span_init_count.
Qed.

(** Widening the per-page cap keeps every free slot free and every live
    slot live, preserves the invariant (so the usable slots are exactly those
    of the new cap, all of them when it is removed, and the object counter
    counts them), and never narrows the cap. *)
Lemma widenCap_correct `{PageGeometry} (s : Span) (A : gset Z) (new_cap : Z) :
  span_inv s A -> 0 <= current_cap_per_page s -> 0 <= new_cap < 2 ^ 16 ->
  span_inv (widenCap s new_cap) A /\
  (forall y, 0 <= y -> free_bit (bitmap s) y = true -> free_bit (bitmap (widenCap s new_cap)) y = true) /\
  (object_size s < kPageSize ->
   current_cap_per_page (widenCap s new_cap) =
     if (current_cap_per_page s =? 0) || (new_cap =? 0) then 0 else Z.max (current_cap_per_page s) new_cap).
Proof. intros I Hc Hn. destruct (widenCap_inv s A new_cap I Hc Hn) as (? & _ & ? & ?). done. Qed.

(** A capped span of 48-byte objects on one 4 KiB page, used by the witnesses. *)
Definition demo_span : Span := @span_init pages4K 65536 (@classPages pages4K 2) 2 0 16.

Lemma demo_span_inv : @span_inv pages4K demo_span ∅.
Proof.
  refine (proj1 (@span_init_inv pages4K 65536 (@classPages pages4K 2) 2 0 16 _ eq_refl _ _ _));
    [unfold kNumClasses; lia|lia|lia|vm_compute; discriminate].
Qed.

(** C23: [allocate] on a span returns a slot that was free and not handed out,
    at its address, and marks it; the invariant holds for the extended set of
    live slots; no free slot of the span lies on a page the cascade prefers
    (warm before cooling before compressed); and it fails only when every
    usable slot is handed out. *)
Theorem span_allocate_correct `{PageGeometry} (e : PageEnv) (s : Span) (A : gset Z) :
  span_inv s A ->
  match span_allocate e s with
  | Some r => alloc_result e s A r /\ span_full s = false
  | None => span_full s = true
  end.
Proof.
  intros I. pose proof (span_allocate_cases e s A I) as Hc. pose proof (fc_bound s A I).
  unfold span_full. rewrite <- (si_count _ _ I).
  destruct (span_allocate e s) as [[[p s'] e']|].
  - split; [done|]. destruct Hc as (x & Hx & Hf & _).
    pose proof (zcount_pos (free_bit (bitmap s)) (Z.to_nat (full_capacity s)) x ltac:(lia) Hf). lia.
  - destruct (decide (0 < zcount (free_bit (bitmap s)) (Z.to_nat (full_capacity s)))) as [Hpos|].
    + apply zcount_exists in Hpos as (x & Hx & Hf).
      assert (x ∈ visited s) as Hv by (apply (elem_of_visited s A); [done|split; [lia|done]]).
      rewrite Hc in Hv. by apply not_elem_of_nil in Hv.
    + pose proof (zcount_bound (free_bit (bitmap s)) (Z.to_nat (full_capacity s))). lia.
Qed.

(** Releasing a live slot of a span makes exactly that slot free and keeps
    the invariant for the remaining live slots; releasing the slot an
    allocation just returned restores the bitmap and the counters. *)
Lemma span_release_correct `{PageGeometry} (s : Span) (A : gset Z) :
  span_inv s A ->
  (forall x, x ∈ A ->
     span_inv (span_deallocate s (base s + x * object_size s)) (A ∖ {[x]}) /\
     forall y, 0 <= y -> free_bit (bitmap (span_deallocate s (base s + x * object_size s))) y
                         = (y =? x) || free_bit (bitmap s) y) /\
  (forall e p s' e', span_allocate e s = Some (p, s', e') ->
     bitmap (span_deallocate s' p) = bitmap s /\
     allocated_count (span_deallocate s' p) = allocated_count s /\
     object_count (span_deallocate s' p) = object_count s).
Proof.
  intros I. split.
  - intros x HxA. by pose proof (deallocate_inv s A x I HxA) as (? & _ & _ & _ & ?).
  - intros e p s' e' Ha. pose proof (span_allocate_cases e s A I) as Hc. rewrite Ha in Hc.
    destruct Hc as (x & Hx & Hf & HxA & -> & I' & Es' & _).
    assert (Hin : x ∈ {[x]} ∪ A) by set_solver.
    pose proof (deallocate_inv s' _ x I' Hin) as (I'' & _ & _ & Hoc & Hbits).
    replace (base s + x * object_size s) with (base s' + x * object_size s') by (by rewrite Es').
    pose proof (words_cover s A x I Hx). splits.
    + apply bitmap_ext; [by rewrite (si_len _ _ I''), (si_len _ _ I), Es'|apply I''|apply I|].
      intros y Hy. rewrite Hbits by done. rewrite Es'. cbn [set_alloc bitmap].
      rewrite free_bit_clear_bit by dlia. pose proof (slot_split x).
      replace (x / 64 * 64 + x mod 64) with x by lia.
      destruct (Z.eqb_spec y x) as [->|]; [by rewrite Hf|by rewrite andb_true_r].
    + rewrite (si_alloc _ _ I''), (si_alloc _ _ I). do 2 f_equal. set_solver.
    + rewrite Hoc. by rewrite Es'.
Qed.

(** for every offset inside a span, the multiply-and-shift of [slotOf]
    computes the quotient by the object size, without overflowing 64 bits. *)
Theorem slotOf_is_division `{PageGeometry} (s : Span) (A : gset Z) (off : Z) :
  span_inv s A -> 0 <= off < page_count s * kPageSize ->
  slotOf s off = off / object_size s /\ off * div_magic s < 2 ^ 64.
Proof.
  intros I Hoff. split; [by apply (slotOf_exact s A)|].
  pose proof (si_osz _ _ I). pose proof (si_pages _ _ I). pose proof kPageSize_pos.
  rewrite (si_magic _ _ I). unfold kDivShift.
  assert ((2 ^ 40 + object_size s - 1) / object_size s <= 2 ^ 37) by dnia.
  assert (0 <= (2 ^ 40 + object_size s - 1) / object_size s) by (apply Z.div_pos; lia). nia.
Qed.

(** No page compressed yet: the environment of a fresh process. *)
Definition demo_env : PageEnv := mkEnv (pst_init 1024 false) ∅ 0 5 5.

Lemma span_allocate_correct_witness :
  (exists s' e', @span_allocate pages4K demo_env demo_span = Some (65536, s', e') /\ allocated_count s' = 1) /\
  match @span_allocate pages4K demo_env demo_span with
  | Some r => @alloc_result pages4K demo_env demo_span ∅ r /\ span_full demo_span = false
  | None => span_full demo_span = true
  end.
Proof.
  split; [eexists _, _; split; [vm_compute; reflexivity|reflexivity]|].
  exact (@span_allocate_correct pages4K demo_env demo_span ∅ demo_span_inv).
Defined.

Lemma slotOf_is_division_witness :
  0 <= 4000 < page_count demo_span * @kPageSize pages4K /\ slotOf demo_span 4000 = 4000 / 48.
Proof.
  split; [vm_compute; split; [discriminate|reflexivity]|].
  refine (proj1 (@slotOf_is_division pages4K demo_span ∅ 4000 demo_span_inv _)).
  vm_compute; split; [discriminate|reflexivity].
Defined.
