(* ===== verification/PageMap.v ===== *)
(** * Page map (src/core/page_map.h)

    The two-level radix tree from addresses to spans and its mirror in the flat
    table of the page region.  A level-1 entry is absent until [ensureL2]
    creates its table; metadata allocation is taken to succeed.  [span_of]
    gives the descriptor at an address. *)

From S2P Require Import Prelude BitOps Config SizeClasses PageState VmRegion.
From S2P Require Span.

Section PageMap.
Context `{PG : PageGeometry}.

(* include/smash/config.h:263-263 kPageMapL2Bits *)
Definition kPageMapL2Bits : Z := 16.
(* include/smash/config.h:264-264 kPageMapL2Size *)
Definition kPageMapL2Size : Z := Z.shiftl 1 kPageMapL2Bits.

(* src/core/page_map.h:24-32 PageMap *)
Record PageMap := mkPageMap { level1 : gmap Z (gmap Z Z); vm_region : option VmRegion }.

(* src/core/page_map.h:34-45 PageMap::ensureL2 *)
Definition ensureL2 (l1 : gmap Z (gmap Z Z)) (l1_idx : Z) : gmap Z Z * gmap Z (gmap Z Z) :=
  match l1 !! l1_idx with
  | Some tbl => (tbl, l1)
  | None => (∅, <[l1_idx := ∅]> l1)
  end.

(* src/core/page_map.h:51-56 PageMap::pageTag *)
Definition pageTag (span_of : Z -> Span.Span) (span : Z) : Z :=
  if (span =? 0) || Span.is_large (span_of span) then 0
  else u16 (Z.lor (Z.lor kPageTagSmall (Z.shiftl (u16 (Span.arena_id (span_of span))) 6))
              (Span.size_class (span_of span))).

(* src/core/page_map.h:62-71 PageMap::mirrorFlat *)
Definition mirrorFlat (span_of : Z -> Span.Span) (pm : PageMap) (addr span : Z) : PageMap :=
  match vm_region pm with
  | None => pm
  | Some v =>
    if negb (vm_contains v addr) then pm
    else mkPageMap (level1 pm) (Some (setSpan v (pageIndex v addr) span (pageTag span_of span)))
  end.

(* src/core/page_map.h:79-84 PageMap::init *)
Definition pm_init (v : option VmRegion) : PageMap := mkPageMap ∅ v.

(* src/core/page_map.h:92-99 PageMap::set *)
Definition pm_set (span_of : Z -> Span.Span) (pm : PageMap) (addr span : Z) : PageMap :=
  let page_idx := Z.shiftr addr kPageShift in
  let l1 := Z.shiftr page_idx kPageMapL2Bits in
  let l2 := Z.land page_idx (kPageMapL2Size - 1) in
  let '(tbl, lv) := ensureL2 (level1 pm) l1 in
  mirrorFlat span_of (mkPageMap (<[l1 := <[l2 := span]> tbl]> lv) (vm_region pm)) addr span.

(* src/core/page_map.h:101-108 PageMap::get *)
Definition pm_get (pm : PageMap) (addr : Z) : Z :=
  let page_idx := Z.shiftr addr kPageShift in
  let l1 := Z.shiftr page_idx kPageMapL2Bits in
  let l2 := Z.land page_idx (kPageMapL2Size - 1) in
  match level1 pm !! l1 with
  | None => 0
  | Some tbl => rd 0 tbl l2
  end.

(** The [while (page <= last_page)] loop; each turn completes one level-2
    table, so [fuel] bounds the number of tables. *)
(* src/core/page_map.h:126-138 PageMap::setRange *)
Fixpoint set_tables (fuel : nat) (lv : gmap Z (gmap Z Z)) (page last_page span : Z) : gmap Z (gmap Z Z) :=
  match fuel with
  | O => lv
  | S fuel =>
    if last_page <? page then lv
    else
      let l1 := Z.shiftr page kPageMapL2Bits in
      let l2 := Z.land page (kPageMapL2Size - 1) in
      let '(tbl, lv) := ensureL2 lv l1 in
      let l2_end := if l2 + (last_page - page) <? kPageMapL2Size - 1
                    then l2 + (last_page - page) else kPageMapL2Size - 1 in
      let lv := <[l1 := fill tbl l2 (Z.to_nat (l2_end - l2 + 1)) span]> lv in
      set_tables fuel lv (page + (l2_end - l2) + 1) last_page span
  end.

(* src/core/page_map.h:116-144 PageMap::setRange *)
Definition pm_setRange (span_of : Z -> Span.Span) (pm : PageMap) (addr num_pages span : Z) : PageMap :=
  if num_pages =? 0 then pm
  else
    let first_page := Z.shiftr addr kPageShift in
    let last_page := first_page + num_pages - 1 in
    let lv := set_tables (Z.to_nat num_pages) (level1 pm) first_page last_page span in
    match vm_region pm with
    | None => mkPageMap lv None
    | Some v =>
      mkPageMap lv (Some (if vm_contains v addr
                          then setSpanRange v (pageIndex v addr) num_pages span (pageTag span_of span)
                          else v))
    end.

(* src/core/page_map.h:147-149 PageMap::clearRange *)
Definition pm_clearRange (span_of : Z -> Span.Span) (pm : PageMap) (addr num_pages : Z) : PageMap :=
  pm_setRange span_of pm addr num_pages 0.

(** The naive form: [set] for every page in turn. *)
Fixpoint set_loop (span_of : Z -> Span.Span) (pm : PageMap) (addr : Z) (n : nat) (span : Z) : PageMap :=
  match n with
  | O => pm
  | S n => set_loop span_of (pm_set span_of pm addr span) (addr + kPageSize) n span
  end.

(** ** Lemmas *)

(** The radix tree read at a page number. *)
Definition radix (lv : gmap Z (gmap Z Z)) (page : Z) : Z :=
  match lv !! (page / 65536) with None => 0 | Some tbl => rd 0 tbl (page mod 65536) end.

Lemma l1_div page : Z.shiftr page kPageMapL2Bits = page / 65536.
Proof. unfold kPageMapL2Bits. by rewrite Z.shiftr_div_pow2 by lia. Qed.

Lemma l2_mod page : Z.land page (kPageMapL2Size - 1) = page mod 65536.
Proof. change (kPageMapL2Size - 1) with (Z.ones 16). by rewrite Z.land_ones by lia. Qed.

Lemma pm_get_radix pm addr : pm_get pm addr = radix (level1 pm) (Z.shiftr addr kPageShift).
Proof. unfold pm_get, radix. by rewrite l1_div, l2_mod. Qed.

(** Writing slots [a .. a + n) of one level-2 table. *)
Lemma radix_fill lv l1 a n x page :
  0 <= a -> a + Z.of_nat n <= 65536 -> 0 <= page ->
  radix (<[l1 := fill (ensureL2 lv l1).1 a n x]> (ensureL2 lv l1).2) page =
  if (l1 * 65536 + a <=? page) && (page <? l1 * 65536 + a + Z.of_nat n) then x else radix lv page.
Proof.
  intros Ha Hn Hp. unfold radix.
  assert (Hdm : page = page / 65536 * 65536 + page mod 65536 /\ 0 <= page mod 65536 < 65536) by dlia.
  destruct (Z.eq_dec l1 (page / 65536)) as [->|Hne].
  - rewrite lookup_insert_eq, fill_lookup.
    assert (E : rd 0 (ensureL2 lv (page / 65536)).1 (page mod 65536) =
      match lv !! (page / 65536) with None => 0 | Some tbl => rd 0 tbl (page mod 65536) end).
    { unfold ensureL2. by destruct (lv !! _). }
    rewrite E. repeat case_if; done || lia.
  - rewrite lookup_insert_ne by done.
    assert (E : (ensureL2 lv l1).2 !! (page / 65536) = lv !! (page / 65536)).
    { unfold ensureL2. destruct (lv !! l1); [done|]. cbn. by rewrite lookup_insert_ne. }
    rewrite E. case_if; [lia|done].
Qed.

Lemma set_tables_spec fuel lv page last x p :
  0 <= page -> last - page < Z.of_nat fuel -> 0 <= p ->
  radix (set_tables fuel lv page last x) p = if (page <=? p) && (p <=? last) then x else radix lv p.
Proof.
  revert lv page. induction fuel as [|fuel IH]; intros lv page Hpg Hf Hp; cbn [set_tables].
  { case_if; [lia|done]. }
  case_if; [case_if; [lia|done]|]. rewrite l1_div, l2_mod.
  destruct (ensureL2 lv (page / 65536)) as [tbl lv1] eqn:Ee.
  assert (Hm : page = page / 65536 * 65536 + page mod 65536 /\ 0 <= page mod 65536 < 65536) by dlia.
  set (q := page / 65536) in *. set (r := page mod 65536) in *. change (kPageMapL2Size - 1) with 65535.
  set (e := if r + (last - page) <? 65535 then r + (last - page) else 65535).
  assert (Hlast : r <= e <= 65535 /\ e - r <= last - page) by (unfold e; case_if; lia).
  rewrite IH by lia.
  pose proof (radix_fill lv q r (Z.to_nat (e - r + 1)) x p ltac:(lia) ltac:(lia) Hp) as Hrf.
  rewrite Ee in Hrf. cbn in Hrf. rewrite Hrf, Z2Nat.id by lia.
  assert (e = r + (last - page) \/ e = 65535) by (unfold e; case_if; lia).
  clearbody e q r. clear IH Hrf Ee. repeat case_if; done || lia.
Qed.

Lemma set_spec span_of pm addr x p :
  0 <= addr -> 0 <= p -> radix (level1 (pm_set span_of pm addr x)) p =
  if Z.shiftr addr kPageShift =? p then x else radix (level1 pm) p.
Proof.
  intros Ha Hp. assert (0 <= Z.shiftr addr kPageShift) by (by apply Z.shiftr_nonneg).
  unfold pm_set. rewrite l1_div, l2_mod. set (page := Z.shiftr addr kPageShift) in *.
  pose proof (radix_fill (level1 pm) (page / 65536) (page mod 65536) 1 x p) as Hrf.
  destruct (ensureL2 (level1 pm) (page / 65536)) as [tbl lv]. cbn in Hrf.
  assert (Hl : forall pm', level1 (mirrorFlat span_of pm' addr x) = level1 pm').
  { intros pm'. unfold mirrorFlat. destruct (vm_region pm'); [|done]. by case_if. }
  rewrite Hl. cbn. rewrite Hrf by dlia. repeat case_if; done || dlia.
Qed.

(** The flat table and its tags read at a page index. *)
Definition flat_span (v : VmRegion) (i : Z) : Z := match flat v with Some f => rd 0 (page_to_span f) i | None => 0 end.
Definition flat_tag (v : VmRegion) (i : Z) : Z :=
  match flat v with Some (mkFlat _ (Some t)) => rd 0 t i | _ => 0 end.
Definition has_tables (v : VmRegion) : Prop := exists ps pt, flat v = Some (mkFlat ps (Some pt)).

(** The page region but for its flat table. *)
Definition same_region (v w : VmRegion) : Prop :=
  tracking_mode v = tracking_mode w /\ total_pages_ v = total_pages_ w /\ arena v = arena w /\ tracker v = tracker w.

Lemma setSpan_spec span_of v i x :
  has_tables v -> 0 <= i < total_pages_ v ->
  let v' := setSpan v i x (pageTag span_of x) in
  same_region v' v /\ has_tables v' /\
  (forall j, flat_span v' j = if i =? j then x else flat_span v j) /\
  (forall j, flat_tag v' j = if i =? j then pageTag span_of x else flat_tag v j).
Proof.
  intros (ps & pt & Hf) Hi. unfold setSpan, flat_span, flat_tag. rewrite Hf, (proj2 (Z.leb_gt _ _)) by lia.
  destruct (Z.eqb_spec x 0) as [->|]; cbn; (splits; [by splits|by do 2 eexists|..]; intros j; by rewrite rd_insert).
Qed.

Lemma setSpanRange_spec span_of v i n x :
  has_tables v -> 0 <= i -> 0 <= n -> i + n <= total_pages_ v -> total_pages_ v < 2 ^ 64 ->
  let v' := setSpanRange v i n x (pageTag span_of x) in
  same_region v' v /\ has_tables v' /\
  (forall j, flat_span v' j = if (i <=? j) && (j <? i + n) then x else flat_span v j) /\
  (forall j, flat_tag v' j = if (i <=? j) && (j <? i + n) then pageTag span_of x else flat_tag v j).
Proof.
  intros (ps & pt & Hf) Hi Hn Ht Hb. unfold setSpanRange, flat_span, flat_tag.
  rewrite wrap_small, Hf, (proj2 (Z.ltb_ge _ _)) by lia. cbn.
  splits; [by splits|by do 2 eexists|..]; intros j; rewrite fill_lookup, Z2Nat.id by done; [done|].
  destruct (Z.eqb_spec x 0) as [->|]; done.
Qed.

(** Page numbers of arena pages. *)
Lemma arena_page_number a batch live idx :
  arena_inv a batch live -> 0 <= idx -> Z.shiftr (run_addr a idx) kPageShift = base_ a / kPageSize + idx.
Proof.
  intros I Hi. pose proof pg_pos. unfold run_addr, kPageSize in *.
  rewrite Z.shiftr_div_pow2 by (destruct kPageShift_cases; lia). by rewrite Z.div_add by lia.
Qed.

(** A page map over an arena whose flat table is mapped. *)
Record pm_ok (pm : PageMap) (v : VmRegion) batch live ext : Prop := {
  po_vm : vm_region pm = Some v;
  po_ok : vm_ok v batch live ext;
  po_tables : has_tables v
}.

Lemma vm_ok_same v w batch live ext : same_region w v -> vm_ok v batch live ext -> vm_ok w batch live ext.
Proof. intros (E1 & E2 & E3 & E4) []. constructor; rewrite ?E1, ?E2, ?E3, ?E4; done. Qed.

Lemma arena_page_in v batch live ext idx :
  vm_ok v batch live ext -> 0 <= idx < contig_pages_ (arena v) ->
  vm_contains v (run_addr (arena v) idx) = true /\ pageIndex v (run_addr (arena v) idx) = idx.
Proof.
  intros O Hi. pose proof pg_pos as Hpp. assert (H0 : 0 <= 0 < kPageSize) by lia.
  destruct (arena_page_roundtrip v idx 0 (vo_mode _ _ _ _ O) Hi H0) as [H1 H2].
  unfold run_addr in *. rewrite Z.add_0_r in H1, H2. split; [|done]. unfold vm_contains. by rewrite (vo_mode _ _ _ _ O), H1.
Qed.

Lemma total_bound v batch live ext : vm_ok v batch live ext ->
  contig_pages_ (arena v) < total_pages_ v < 2 ^ 64.
Proof. intros O. rewrite (vo_total _ _ _ _ O). pose proof (vo_contig _ _ _ _ O). unfold kTrackMaxPages. lia. Qed.

(** What [setRange] leaves behind on a run of arena pages. *)
Lemma pm_setRange_arena span_of pm v batch live ext idx n x :
  pm_ok pm v batch live ext -> 0 <= idx -> 1 <= n -> idx + n <= contig_pages_ (arena v) ->
  let pm' := pm_setRange span_of pm (run_addr (arena v) idx) n x in
  exists v', pm_ok pm' v' batch live ext /\ same_region v' v /\
  (forall p, 0 <= p -> radix (level1 pm') p =
     if (base_ (arena v) / kPageSize + idx <=? p) && (p <? base_ (arena v) / kPageSize + idx + n) then x else radix (level1 pm) p) /\
  (forall j, flat_span v' j = if (idx <=? j) && (j <? idx + n) then x else flat_span v j) /\
  (forall j, flat_tag v' j = if (idx <=? j) && (j <? idx + n) then pageTag span_of x else flat_tag v j).
Proof.
  intros [Hvm O HT] Hi Hn Hc. unfold pm_setRange. rewrite (proj2 (Z.eqb_neq n 0)), Hvm by lia.
  destruct (arena_page_in v _ _ _ idx O ltac:(lia)) as [-> ->]. pose proof (total_bound _ _ _ _ O).
  destruct (setSpanRange_spec span_of v idx n x HT Hi ltac:(lia) ltac:(lia) ltac:(lia)) as (S1 & S2 & S3 & S4).
  eexists. splits; [constructor; [done| |]|..]; try done; [by eapply vm_ok_same|].
  intros p Hp. cbn. rewrite (arena_page_number _ _ _ idx (vo_arena _ _ _ _ O) Hi).
  pose proof (ai_base _ _ _ (vo_arena _ _ _ _ O)) as (Hb & _). pose proof pg_pos.
  assert (0 <= base_ (arena v) / kPageSize) by (apply Z.div_pos; lia).
  rewrite set_tables_spec by lia. repeat case_if; done || lia.
Qed.

Lemma pm_set_arena span_of pm v batch live ext idx x :
  pm_ok pm v batch live ext -> 0 <= idx < contig_pages_ (arena v) ->
  let pm' := pm_set span_of pm (run_addr (arena v) idx) x in
  exists v', pm_ok pm' v' batch live ext /\ same_region v' v /\
  (forall p, 0 <= p -> radix (level1 pm') p = if base_ (arena v) / kPageSize + idx =? p then x else radix (level1 pm) p) /\
  (forall j, flat_span v' j = if idx =? j then x else flat_span v j) /\
  (forall j, flat_tag v' j = if idx =? j then pageTag span_of x else flat_tag v j).
Proof.
  intros [Hvm O HT] Hi. pose proof (total_bound _ _ _ _ O).
  destruct (setSpan_spec span_of v idx x HT ltac:(lia)) as (S1 & S2 & S3 & S4).
  exists (setSpan v idx x (pageTag span_of x)).
  assert (E : vm_region (pm_set span_of pm (run_addr (arena v) idx) x) = Some (setSpan v idx x (pageTag span_of x))).
  { unfold pm_set, mirrorFlat. destruct (ensureL2 _ _) as [tbl lv]. cbn. rewrite Hvm.
    destruct (arena_page_in v _ _ _ idx O Hi) as [-> ->]. done. }
  splits; [constructor; [done|by eapply vm_ok_same|done]|done| |done|done].
  intros p Hp. pose proof (ai_base _ _ _ (vo_arena _ _ _ _ O)) as (Hb & _). pose proof pg_pos.
  rewrite set_spec; [|unfold run_addr; nia|done].
  by rewrite (arena_page_number _ _ _ idx (vo_arena _ _ _ _ O)) by lia.
Qed.

Lemma set_loop_arena span_of n pm v batch live ext idx x :
  pm_ok pm v batch live ext -> 0 <= idx -> idx + Z.of_nat n <= contig_pages_ (arena v) ->
  let pm' := set_loop span_of pm (run_addr (arena v) idx) n x in
  exists v', pm_ok pm' v' batch live ext /\ same_region v' v /\
  (forall p, 0 <= p -> radix (level1 pm') p =
     if (base_ (arena v) / kPageSize + idx <=? p) && (p <? base_ (arena v) / kPageSize + idx + Z.of_nat n) then x else radix (level1 pm) p) /\
  (forall j, flat_span v' j = if (idx <=? j) && (j <? idx + Z.of_nat n) then x else flat_span v j) /\
  (forall j, flat_tag v' j = if (idx <=? j) && (j <? idx + Z.of_nat n) then pageTag span_of x else flat_tag v j).
Proof.
  revert pm v idx. induction n as [|n IH]; intros pm v idx P Hi Hc; cbn [set_loop].
  { exists v. splits; try done; intros; case_if; lia || done. }
  destruct (pm_set_arena span_of pm v _ _ _ idx x P ltac:(lia)) as (v1 & P1 & S1 & R1 & F1 & T1).
  destruct S1 as (E1 & E2 & E3 & E4).
  assert (Ea : run_addr (arena v) idx + kPageSize = run_addr (arena v1) (idx + 1)) by (rewrite E3; unfold run_addr; lia).
  rewrite Ea. destruct (IH _ v1 (idx + 1) P1 ltac:(lia) ltac:(rewrite E3; lia)) as (v2 & P2 & (E5 & E6 & E7 & E8) & R2 & F2 & T2).
  exists v2. splits; [done|unfold same_region; splits; congruence|..].
  - intros p Hp. rewrite R2, R1, E3 by done. repeat case_if; done || lia.
  - intros j. rewrite F2, F1. repeat case_if; done || lia.
  - intros j. rewrite T2, T1. repeat case_if; done || lia.
Qed.

(** ** Properties *)

(** The batched [setRange] of a run of arena pages leaves the radix tree,
    the flat table and the page tags as storing page by page with [set] does,
    for any number of level-2 tables the run crosses. *)
Lemma setRange_is_set_loop span_of pm v batch live ext idx n x :
  pm_ok pm v batch live ext -> 0 <= idx -> 1 <= n -> idx + n <= contig_pages_ (arena v) ->
  let pm1 := pm_setRange span_of pm (run_addr (arena v) idx) n x in
  let pm2 := set_loop span_of pm (run_addr (arena v) idx) (Z.to_nat n) x in
  (forall a, 0 <= a -> pm_get pm1 a = pm_get pm2 a) /\
  exists v1 v2, vm_region pm1 = Some v1 /\ vm_region pm2 = Some v2 /\
    forall i, flat_span v1 i = flat_span v2 i /\ flat_tag v1 i = flat_tag v2 i.
Proof.
  intros P Hi Hn Hc. simpl.
  destruct (pm_setRange_arena span_of pm v _ _ _ idx n x P Hi Hn Hc) as (v1 & P1 & _ & R1 & F1 & T1).
  destruct (set_loop_arena span_of (Z.to_nat n) pm v _ _ _ idx x P Hi ltac:(lia)) as (v2 & P2 & _ & R2 & F2 & T2).
  rewrite Z2Nat.id in * by lia. split.
  - intros a Ha. assert (0 <= Z.shiftr a kPageShift) by (by apply Z.shiftr_nonneg).
    by rewrite !pm_get_radix, R1, R2.
  - exists v1, v2. splits; [apply P1|apply P2|]. intros i. by rewrite F1, F2, T1, T2.
Qed.

(** Radix tree and flat table agree on the arena. *)
Definition pm_coherent (pm : PageMap) (v : VmRegion) : Prop :=
  forall i, 0 <= i < contig_pages_ (arena v) -> pm_get pm (run_addr (arena v) i) = getSpan v i.

(** After [setRange] of arena pages the map answers the new span exactly on
    the pages of the run, and the single-load lookup through the flat table
    still gives the radix tree's answer on every arena page. *)
Theorem setRange_coherent span_of pm v batch live ext idx n x :
  pm_ok pm v batch live ext -> pm_coherent pm v -> 0 <= idx -> 1 <= n -> idx + n <= contig_pages_ (arena v) ->
  let pm' := pm_setRange span_of pm (run_addr (arena v) idx) n x in
  exists v', pm_ok pm' v' batch live ext /\ pm_coherent pm' v' /\
  forall i, 0 <= i < contig_pages_ (arena v) ->
    getSpan v' i = if (idx <=? i) && (i <? idx + n) then x else getSpan v i.
Proof.
  intros P C Hi Hn Hc. simpl.
  destruct (pm_setRange_arena span_of pm v _ _ _ idx n x P Hi Hn Hc) as (v' & P' & (E1 & E2 & E3 & E4) & R & F & _).
  pose proof (total_bound _ _ _ _ (po_ok _ _ _ _ _ P)) as Ht.
  assert (G : forall w i, has_tables w -> total_pages_ w = total_pages_ v -> 0 <= i < contig_pages_ (arena v) -> getSpan w i = flat_span w i).
  { intros w i (ps & pt & Hf) Hw Hi'. unfold getSpan, flat_span. rewrite Hf, Hw. case_if; [lia|done]. }
  assert (Hget : forall i, 0 <= i < contig_pages_ (arena v) -> getSpan v' i = if (idx <=? i) && (i <? idx + n) then x else getSpan v i).
  { intros i Hi'. rewrite (G v') by (apply P' || done). rewrite F, (G v) by (apply P || done). done. }
  exists v'. splits; try done. intros i Hi'. rewrite E3 in *. rewrite Hget by done. rewrite <- (C i Hi'), !pm_get_radix.
  pose proof (vo_arena _ _ _ _ (po_ok _ _ _ _ _ P)) as I. pose proof (ai_base _ _ _ I) as (Hb & _). pose proof pg_pos.
  assert (0 <= base_ (arena v) / kPageSize) by (apply Z.div_pos; lia).
  rewrite (arena_page_number _ _ _ i I), R by lia. repeat case_if; done || lia.
Qed.

End PageMap.

Section Witnesses.
#[local] Existing Instance pages4K.

Definition demo_span_of (_ : Z) : Span.Span := Span.mkSpan 0 [] 0 0 0 0 0 0 3 false 5 0 0 false 0 0 false 0 false.

Lemma demo_pm_ok : pm_ok (mkPageMap ∅ (Some demo_vm1)) demo_vm1 [] [] {[ 20 := 100 ]}.
Proof. constructor; [done|apply demo_vm1_ok|by do 2 eexists]. Qed.

Lemma demo_pm_coherent : pm_coherent (mkPageMap ∅ (Some demo_vm1)) demo_vm1.
Proof. intros i Hi. cbn in Hi. unfold pm_get, getSpan. cbn. by case_if. Qed.

Lemma setRange_coherent_witness :
  exists v', vm_region (pm_setRange demo_span_of (mkPageMap ∅ (Some demo_vm1)) (run_addr (arena demo_vm1) 7) 20 4096) = Some v' /\
    getSpan v' 26 = 4096 /\ getSpan v' 27 = 0.
Proof.
  destruct (setRange_coherent demo_span_of _ demo_vm1 [] [] {[ 20 := 100 ]} 7 20 4096 demo_pm_ok demo_pm_coherent)
    as (v' & P & _ & G); [lia|lia|cbn; lia|].
  exists v'. split; [apply P|]. split; rewrite G by (cbn; lia); reflexivity.
Defined.
End Witnesses.
