(* ===== verification/Slab.v ===== *)
(** * Per-size-class span manager (src/core/slab.h)

    A slab keeps the spans of one size class on three lists, a stack of
    deferred frees and a depot of magazines.  The lists are lists of
    descriptor addresses: [IntrusiveList.v] shows that the linked lists
    behave so.  Descriptors, the page map with its page region, the page
    environment and the process-wide counters form the [World] that slabs
    share.  Every operation below runs under the slab's lock, or, for the
    magazine depot and the pending stack, is one atomic list operation.

    Arguments of the component, fixed for a run: whether the page-state and
    cold-count tables are plumbed in, the release hook (the compressor's, which
    acts on the page environment), the adaptive cap callback, the cap on resident
    empty spans, the commit chunk, the page-local batching switch.  The debug
    modes of [releasePages] are off. *)

From S2P Require Import Prelude BitOps Config SizeClasses PageState IntrusiveList Span.
From S2P Require Import VmRegion PageMap.

#[local] Abbreviation page_count := Span.page_count.
#[local] Abbreviation Span := Span.Span.

(** An object as the free path carries it: its address and the span resolved
    for it, 0 if none was found. *)
Abbreviation Obj := (Z * Z)%type.

(* src/core/slab.h:26-73 Slab *)
Record Slab := mkSlab {
  size_class_ : Z;
  arena_id_ : Z;
  max_slots_per_page_ : Z;
  partial_ : list Z;
  full_ : list Z;
  empty_ : list Z;
  pending : list (list Obj);   (* nodes, head first *)
  pending_depth_ : Z;
  mags : list (list Obj);
  mag_count_ : Z;
  resident_empty_count_ : Z
}.

Record World := mkWorld {
  descr : gmap Z Span;
  pmap : PageMap;
  penv : PageEnv;
  resident_empty_bytes_ : Z;
  slab_tick_ : Z;
  sys_log : list vm_call
}.

Record SlabCfg := mkCfg {
  c_page_states : bool;
  c_cold_counts : bool;
  c_hook : option (Z -> Z -> PageEnv -> PageEnv);
  c_cap_fn : option (Z -> Z -> Z);
  c_resident_max : Z;
  c_chunk : Z;
  c_page_local : bool
}.

(** What the outside decides during one call: the free-list shard of the
    calling thread and the shards whose lock is free, the outcome of
    [pthread_create], the address of the next descriptor, and the kernel's
    answer to a plain mapping request. *)
Record Oracle := mkOracle {
  o_shard : Z;
  o_avail : Z -> bool;
  o_created : bool;
  o_descr : World -> Z;
  o_map : Z -> option Z
}.

Definition set_lists (s : Slab) (p f e : list Z) : Slab :=
  mkSlab (size_class_ s) (arena_id_ s) (max_slots_per_page_ s) p f e (pending s) (pending_depth_ s)
    (mags s) (mag_count_ s) (resident_empty_count_ s).
Definition set_pending (s : Slab) (p : list (list Obj)) (d : Z) : Slab :=
  mkSlab (size_class_ s) (arena_id_ s) (max_slots_per_page_ s) (partial_ s) (full_ s) (empty_ s) p d
    (mags s) (mag_count_ s) (resident_empty_count_ s).
Definition set_mags (s : Slab) (m : list (list Obj)) (n : Z) : Slab :=
  mkSlab (size_class_ s) (arena_id_ s) (max_slots_per_page_ s) (partial_ s) (full_ s) (empty_ s)
    (pending s) (pending_depth_ s) m n (resident_empty_count_ s).
Definition set_resident_count (s : Slab) (n : Z) : Slab :=
  mkSlab (size_class_ s) (arena_id_ s) (max_slots_per_page_ s) (partial_ s) (full_ s) (empty_ s)
    (pending s) (pending_depth_ s) (mags s) (mag_count_ s) n.

Definition w_descr (w : World) (d : gmap Z Span) : World :=
  mkWorld d (pmap w) (penv w) (resident_empty_bytes_ w) (slab_tick_ w) (sys_log w).
Definition w_pmap (w : World) (p : PageMap) : World :=
  mkWorld (descr w) p (penv w) (resident_empty_bytes_ w) (slab_tick_ w) (sys_log w).
Definition w_penv (w : World) (e : PageEnv) : World :=
  mkWorld (descr w) (pmap w) e (resident_empty_bytes_ w) (slab_tick_ w) (sys_log w).
Definition w_bytes (w : World) (n : Z) : World :=
  mkWorld (descr w) (pmap w) (penv w) n (slab_tick_ w) (sys_log w).
Definition w_log (w : World) (c : vm_call) : World :=
  mkWorld (descr w) (pmap w) (penv w) (resident_empty_bytes_ w) (slab_tick_ w) (c :: sys_log w).

Definition null_span : Span := mkSpan 0 [] 0 0 0 0 0 0 0 false 0 0 0 false 0 0 false 0 false.
Definition span_at (w : World) (a : Z) : Span := default null_span (descr w !! a).
Definition put_span (w : World) (a : Z) (sp : Span) : World := w_descr w (<[a := sp]> (descr w)).

(** [list.remove(span)]. *)
Definition unlink (a : Z) (l : list Z) : list Z := filter (fun b => b <> a) l.

Definition env_states (e : PageEnv) (t : PageStateTable) : PageEnv :=
  mkEnv t (cold_counts e) (g_reheat_events e) (cfg_close_ticks e) (cfg_telem_ticks e).
Definition env_colds (e : PageEnv) (c : gmap Z Z) : PageEnv :=
  mkEnv (pe_states e) c (g_reheat_events e) (cfg_close_ticks e) (cfg_telem_ticks e).

Section Slab.
Context `{PG : PageGeometry} (cfg : SlabCfg).

(** [vm_region_->pageIndex(span->base)] *)
Definition span_page_index (v : VmRegion) (sp : Span) : Z := pageIndex v (base sp).

Definition run_hook (w : World) (sp : Span) : World :=
  match c_hook cfg, vm_region (pmap w) with
  | Some h, Some v => w_penv w (h (span_page_index v sp) (page_count sp) (penv w))
  | _, _ => w
  end.

Definition set_page_states (w : World) (sp : Span) (st : PageState) : World :=
  match vm_region (pmap w) with
  | Some v =>
    if c_page_states cfg
    then w_penv w (env_states (penv w)
                     (pst_setRange (pe_states (penv w)) (span_page_index v sp) (page_count sp) st))
    else w
  | None => w
  end.

(* src/core/slab.h:357-368 Slab::decommitEmptySpan *)
Definition decommitEmptySpan (w : World) (a : Z) : World :=
  let sp := span_at w a in
  let w := run_hook w sp in
  let w := w_log w (DecommitPages (base sp) (u64 (page_count sp * kPageSize))) in
  set_page_states w sp EMPTY.

(* src/core/slab.h:257-275 Slab::retireEmptySpan *)
Definition retireEmptySpan (s : Slab) (w : World) (a : Z) : Slab * World :=
  let sp := span_at w a in
  let bytes := u64 (page_count sp * kPageSize) in
  if c_resident_max cfg <? u64 (resident_empty_bytes_ w + bytes) then (s, decommitEmptySpan w a)
  else
    let w := run_hook w sp in
    let w := set_page_states w sp EMPTY in
    let w := put_span w a (set_resident sp true (slab_tick_ w)) in
    (set_resident_count s (u32 (resident_empty_count_ s + 1)),
     w_bytes w (u64 (resident_empty_bytes_ w + bytes))).

(* src/core/slab.h:277-282 Slab::clearResident *)
Definition clearResident (s : Slab) (w : World) (a : Z) : Slab * World :=
  let sp := span_at w a in
  if negb (resident_empty sp) then (s, w)
  else
    (set_resident_count s (u32 (resident_empty_count_ s - 1)),
     w_bytes (put_span w a (set_resident sp false (empty_tick sp)))
       (u64 (resident_empty_bytes_ w - page_count sp * kPageSize))).

(* src/core/slab.h:285-285 Slab::advanceTick *)
Definition advanceTick (w : World) : World :=
  mkWorld (descr w) (pmap w) (penv w) (resident_empty_bytes_ w) (u32 (slab_tick_ w + 1)) (sys_log w).

(* src/core/slab.h:225-225 Slab::kResidentEmptyTicks *)
Definition kResidentEmptyTicks : Z := 2.

(* src/core/slab.h:294-299 Slab::purgeResidentEmpty *)
Fixpoint purge_spans (now : Z) (s : Slab) (w : World) (l : list Z) : Slab * World :=
  match l with
  | [] => (s, w)
  | a :: l =>
    let sp := span_at w a in
    if resident_empty sp && (kResidentEmptyTicks <=? u32 (now - empty_tick sp)) then
      let '(s, w) := clearResident s w a in
      purge_spans now s (w_log w (DecommitPages (base sp) (u64 (page_count sp * kPageSize)))) l
    else purge_spans now s w l
  end.

(* src/core/slab.h:290-300 Slab::purgeResidentEmpty *)
Definition purgeResidentEmpty (s : Slab) (w : World) : Slab * World :=
  if resident_empty_count_ s =? 0 then (s, w) else purge_spans (slab_tick_ w) s w (empty_ s).

(* src/core/slab.h:374-378 Slab::resetColdCounts *)
Definition resetColdCounts (w : World) (sp : Span) : World :=
  match vm_region (pmap w) with
  | Some v =>
    if c_cold_counts cfg
    then w_penv w (env_colds (penv w)
                     (fill (cold_counts (penv w)) (span_page_index v sp) (Z.to_nat (page_count sp)) 0))
    else w
  | None => w
  end.

(* src/core/slab.h:383-393 Slab::recommitEmptySpan *)
Definition recommitEmptySpan (s : Slab) (w : World) (a : Z) : Slab * World :=
  let '(s, w) := clearResident s w a in
  let w := set_page_states w (span_at w a) ACTIVE in
  (s, resetColdCounts w (span_at w a)).

(* src/core/slab.h:416-419 Slab::currentCap *)
Definition currentCap (s : Slab) : Z :=
  match c_cap_fn cfg with
  | Some f => f (arena_id_ s) (size_class_ s)
  | None => max_slots_per_page_ s
  end.

(** [span->page_states = ..; first_page_vm_idx = ..; cold_counts = ..] *)
Definition plumb (sp : Span) (idx : Z) (colds : bool) : Span :=
  mkSpan (base sp) (bitmap sp) (page_count sp) (object_size sp) (div_magic sp) (full_capacity sp)
    (object_count sp) (allocated_count sp) (size_class sp) (is_large sp) (arena_id sp) (free_hint_word sp)
    (current_cap_per_page sp) (resident_empty sp) (empty_tick sp) (large_size sp) true (u32 idx) colds.

(* src/core/slab.h:303-337 Slab::allocateNewSpan *)
Definition allocateNewSpan (o : Oracle) (s : Slab) (w : World) : option Z * World :=
  let pages := classPages (size_class_ s) in
  let finish (w : World) (mem : Z) (idx : option Z) : option Z * World :=
    let a := o_descr o w in
    let sp := span_init mem pages (size_class_ s) (arena_id_ s) (currentCap s) in
    let '(sp, w) :=
      match idx with
      | Some i => if c_page_states cfg
                  then let sp := plumb sp i (c_cold_counts cfg) in (sp, resetColdCounts w sp)
                  else (sp, w)
      | None => (sp, w)
      end in
    let w := put_span w a sp in
    (Some a, w_pmap w (pm_setRange (span_at w) (pmap w) mem pages a)) in
  match vm_region (pmap w) with
  | Some v =>
    match allocatePages (c_chunk cfg) (o_avail o) (o_shard o) v pages with
    | (None, v) => (None, w_pmap w (mkPageMap (level1 (pmap w)) (Some v)))
    | (Some mem, v) =>
      let w := w_pmap w (mkPageMap (level1 (pmap w)) (Some v)) in
      let idx := pageIndex v mem in
      let w := if c_page_states cfg
               then w_penv w (env_states (penv w) (pst_setRange (pe_states (penv w)) idx pages ACTIVE))
               else w in
      finish w mem (Some idx)
    end
  | None =>
    match o_map o (u64 (pages * kPageSize)) with
    | None => (None, w)
    | Some mem => finish w mem None
    end
  end.

(* src/core/slab.h:339-351 Slab::releaseSpan *)
Definition releaseSpan (o : Oracle) (s : Slab) (w : World) (a : Z) : Slab * World :=
  let '(s, w) := clearResident s w a in
  let sp := span_at w a in
  let w := w_pmap w (pm_clearRange (span_at w) (pmap w) (base sp) (page_count sp)) in
  match vm_region (pmap w) with
  | Some _ =>
    let w := run_hook w sp in
    match vm_region (pmap w) with
    | Some v =>
      (s, w_pmap w (mkPageMap (level1 (pmap w))
                      (Some (releasePages false false (o_created o) (o_shard o) v (base sp) (page_count sp)))))
    | None => (s, w)
    end
  | None => (s, w_log w (UnmapPages (base sp) (u64 (page_count sp * kPageSize))))
  end.

(* src/core/slab.h:425-431 Slab::maybeWiden *)
Definition maybeWiden (s : Slab) (w : World) (a : Z) : World :=
  let sp := span_at w a in
  match c_cap_fn cfg with
  | None => w
  | Some _ =>
    if current_cap_per_page sp =? 0 then w
    else
      let cur_cap := currentCap s in
      if (cur_cap =? 0) || (current_cap_per_page sp <? cur_cap) then put_span w a (widenCap sp cur_cap) else w
  end.

(* src/core/slab.h:199-214 Slab::deallocateOne *)
Definition deallocateOne (s : Slab) (w : World) (ptr a : Z) : Slab * World :=
  let was_full := span_full (span_at w a) in
  let w := put_span w a (span_deallocate (span_at w a) ptr) in
  if was_full then (set_lists s (a :: partial_ s) (unlink a (full_ s)) (empty_ s), w)
  else if span_empty (span_at w a) then
    let s := set_lists s (unlink a (partial_ s)) (full_ s) (empty_ s) in
    let '(s, w) := retireEmptySpan s w a in
    (set_lists s (partial_ s) (full_ s) (a :: empty_ s), w)
  else (s, w).

(** [for (i < count) if (spans[i]) deallocateOne(ptrs[i], spans[i])] *)
Fixpoint deallocateAll (s : Slab) (w : World) (objs : list Obj) : Slab * World :=
  match objs with
  | [] => (s, w)
  | (ptr, a) :: objs =>
    if a =? 0 then deallocateAll s w objs
    else let '(s, w) := deallocateOne s w ptr a in deallocateAll s w objs
  end.

(* src/core/slab.h:171-182 Slab::pushPending *)
Definition pushPending (s : Slab) (objs : list Obj) : Slab :=
  set_pending s (objs :: pending s) (u32 (pending_depth_ s + 1)).

(** Nodes are processed head first after the stack head was exchanged for
    null. *)
(* src/core/slab.h:188-196 Slab::drainPending *)
Fixpoint drain_nodes (s : Slab) (w : World) (nodes : list (list Obj)) : Slab * World :=
  match nodes with
  | [] => (s, w)
  | n :: nodes =>
    let '(s, w) := deallocateAll s w n in
    drain_nodes (set_pending s (pending s) (u32 (pending_depth_ s - 1))) w nodes
  end.

(* src/core/slab.h:186-197 Slab::drainPending *)
Definition drainPending (s : Slab) (w : World) : Slab * World :=
  drain_nodes (set_pending s [] (pending_depth_ s)) w (pending s).

(* src/core/slab.h:106-109 Slab::kMaxMagazines *)
Definition kMaxMagazines : Z := 64.

(* src/core/slab.h:113-129 Slab::magazinePush *)
Definition magazinePush (s : Slab) (objs : list Obj) : bool * Slab :=
  if kMaxMagazines <=? mag_count_ s then (false, s)
  else (true, set_mags s (objs :: mags s) (mag_count_ s + 1)).

(* src/core/slab.h:132-145 Slab::magazinePop *)
Definition magazinePop (s : Slab) : list Obj * Slab :=
  match mags s with
  | [] => ([], s)
  | m :: ms => (m, set_mags s ms (u32 (mag_count_ s - 1)))
  end.

(* src/core/slab.h:668-682 Slab::drainMagazines *)
Fixpoint drain_mags (s : Slab) (w : World) (ms : list (list Obj)) : Slab * World :=
  match ms with
  | [] => (s, w)
  | m :: ms =>
    let s := set_mags s ms (u32 (mag_count_ s - 1)) in
    let '(s, w) := deallocateAll s w m in
    drain_mags s w ms
  end.
Definition drainMagazines (s : Slab) (w : World) : Slab * World := drain_mags s w (mags s).

(** After taking a slot: a span that is full moves to the full list. *)
Definition settle_front (s : Slab) (w : World) (a : Z) : Slab :=
  if span_full (span_at w a) then set_lists s (unlink a (partial_ s)) (a :: full_ s) (empty_ s) else s.

(** [span->allocate()] and [span->allocateWarm(&fb)] on a descriptor. *)
Definition alloc_from (w : World) (a : Z) : option Z * World :=
  match span_allocate (penv w) (span_at w a) with
  | Some (p, sp, e) => (Some p, w_penv (put_span w a sp) e)
  | None => (None, w)
  end.
Definition warm_from (w : World) (a : Z) : option (Z * World) * AllocFallback :=
  match allocateWarm (penv w) (span_at w a) no_fallback with
  | (Some (p, sp, e), fb) => (Some (p, w_penv (put_span w a sp) e), fb)
  | (None, fb) => (None, fb)
  end.
Definition fallback_from (w : World) (a : Z) (fb : AllocFallback) : option Z * World :=
  match consumeFallback (penv w) (span_at w a) fb with
  | Some (p, sp, e) => (Some p, w_penv (put_span w a sp) e)
  | None => (None, w)
  end.

(** Move the warmless front span to the back and promote an empty span. *)
(* src/core/slab.h:452-459 Slab::allocate *)
Definition redirect (s : Slab) (w : World) (span es : Z) (rest : list Z) : Slab * World :=
  let s := set_lists s (unlink span (partial_ s) ++ [span]) (full_ s) rest in
  let '(s, w) := recommitEmptySpan s w es in
  (set_lists s (es :: partial_ s) (full_ s) (empty_ s), w).

(* src/core/slab.h:434-489 Slab::allocate *)
Definition slab_allocate (o : Oracle) (s : Slab) (w : World) : option Z * Slab * World :=
  let '(s, w) := drainPending s w in
  match partial_ s with
  | span :: _ =>
    let w := maybeWiden s w span in
    match warm_from w span with
    | (Some (ptr, w), _) => (Some ptr, settle_front s w span, w)
    | (None, fb) =>
      if fb_any fb then
        match empty_ s with
        | es :: rest =>
          let '(s, w) := redirect s w span es rest in
          let '(ptr, w) := alloc_from w es in
          (ptr, settle_front s w es, w)
        | [] =>
          let '(ptr, w) := fallback_from w span fb in
          (ptr, settle_front s w span, w)
        end
      else (None, settle_front s w span, w)
    end
  | [] =>
    let got :=
      match empty_ s with
      | es :: rest =>
        let s := set_lists s (partial_ s) (full_ s) rest in
        let '(s, w) := recommitEmptySpan s w es in (Some es, s, w)
      | [] => let '(r, w) := allocateNewSpan o s w in (r, s, w)
      end in
    match got with
    | (None, s, w) => (None, s, w)
    | (Some span, s, w) =>
      let '(ptr, w) := alloc_from w span in
      if span_full (span_at w span)
      then (ptr, set_lists s (partial_ s) (span :: full_ s) (empty_ s), w)
      else (ptr, set_lists s (span :: partial_ s) (full_ s) (empty_ s), w)
    end
  end.

(* src/core/slab.h:492-510 Slab::deallocate *)
Definition slab_deallocate (s : Slab) (w : World) (a ptr : Z) : Slab * World :=
  let was_full := span_full (span_at w a) in
  let w := put_span w a (span_deallocate (span_at w a) ptr) in
  if was_full then (set_lists s (a :: partial_ s) (unlink a (full_ s)) (empty_ s), w)
  else if span_empty (span_at w a)
  then (set_lists s (unlink a (partial_ s)) (full_ s) (a :: empty_ s), w)
  else (s, w).

(** How the inner loop of [allocateBatch] ends. *)
Inductive inner_exit := InnerBreak | InnerReturn.

Record batch_state := mkBatch {
  b_slab : Slab; b_world : World; b_out : list Z; b_redirected : bool
}.

(** [page_of] is [ptr & ~(kPageSize - 1)]. *)
Definition page_of (ptr : Z) : Z := Z.land ptr (u64 (Z.lnot (kPageSize - 1))).

(** The inner [while (allocated < count)]; [fuel] counts the turns left. *)
(* src/core/slab.h:548-580 Slab::allocateBatch *)
Fixpoint batch_inner (fuel : nat) (span count : Z) (b : batch_state) (first_page : Z) (first_in_batch : bool)
    : inner_exit * batch_state :=
  match fuel with
  | O => (InnerBreak, b)
  | S fuel =>
    if count <=? zlen (b_out b) then (InnerBreak, b)
    else
      let take (ptr : Z) (w : World) :=
        if c_page_local cfg then
          let p := page_of ptr in
          if first_in_batch
          then batch_inner fuel span count (mkBatch (b_slab b) w (b_out b ++ [ptr]) (b_redirected b)) p false
          else if negb (p =? first_page)
          then (InnerReturn, mkBatch (b_slab b) (put_span w span (span_deallocate (span_at w span) ptr))
                               (b_out b) (b_redirected b))
          else batch_inner fuel span count (mkBatch (b_slab b) w (b_out b ++ [ptr]) (b_redirected b)) first_page false
        else batch_inner fuel span count (mkBatch (b_slab b) w (b_out b ++ [ptr]) (b_redirected b))
               first_page first_in_batch in
      match warm_from (b_world b) span with
      | (Some (ptr, w), _) => take ptr w
      | (None, fb) =>
        if fb_any fb then
          match (if b_redirected b then [] else empty_ (b_slab b)) with
          | es :: rest =>
            let '(s, w) := redirect (b_slab b) (b_world b) span es rest in
            (InnerBreak, mkBatch s w (b_out b) true)
          | [] =>
            match fallback_from (b_world b) span fb with
            | (Some ptr, w) => take ptr w
            | (None, w) => (InnerBreak, mkBatch (b_slab b) w (b_out b) (b_redirected b))
            end
          end
        else (InnerBreak, b)
      end
  end.

(** The span the outer loop works on: the front partial span, an empty one,
    or a new one, which becomes the front. *)
(* src/core/slab.h:534-544 Slab::allocateBatch *)
Definition batch_span (o : Oracle) (s : Slab) (w : World) : option Z * Slab * World :=
  match partial_ s with
  | span :: _ => (Some span, s, w)
  | [] =>
    match empty_ s with
    | es :: rest =>
      let s := set_lists s (partial_ s) (full_ s) rest in
      let '(s, w) := recommitEmptySpan s w es in
      (Some es, set_lists s (es :: partial_ s) (full_ s) (empty_ s), w)
    | [] =>
      match allocateNewSpan o s w with
      | (None, w) => (None, s, w)
      | (Some a, w) => (Some a, set_lists s (a :: partial_ s) (full_ s) (empty_ s), w)
      end
    end
  end.

(** The outer loop; [None] if the fuel runs out. *)
(* src/core/slab.h:533-587 Slab::allocateBatch *)
Fixpoint batch_outer (fuel : nat) (os : nat -> Oracle) (count : Z) (b : batch_state) : option batch_state :=
  match fuel with
  | O => None
  | S fuel =>
    if count <=? zlen (b_out b) then Some b
    else
      match batch_span (os fuel) (b_slab b) (b_world b) with
      | (None, s, w) => Some (mkBatch s w (b_out b) (b_redirected b))
      | (Some span, s, w) =>
        let w := maybeWiden s w span in
        match batch_inner (Z.to_nat count) span count (mkBatch s w (b_out b) (b_redirected b)) 0 (zlen (b_out b) =? 0) with
        | (InnerReturn, b) => Some b
        | (InnerBreak, b) =>
          batch_outer fuel os count
            (mkBatch (settle_front (b_slab b) (b_world b) span) (b_world b) (b_out b) (b_redirected b))
        end
      end
  end.

(** At most one turn per object and one for the redirect, and one that sees
    the batch complete. *)
(* src/core/slab.h:520-588 Slab::allocateBatch *)
Definition allocateBatch (os : nat -> Oracle) (s : Slab) (w : World) (count : Z) : option batch_state :=
  let '(s, w) := drainPending s w in
  batch_outer (Z.to_nat count + 2) os count (mkBatch s w [] false).

(* src/core/slab.h:591-599 Slab::deallocateBatch *)
Definition deallocateBatch (s : Slab) (w : World) (ptrs : list Z) : Slab * World :=
  foldl (fun sw ptr =>
           let '(s, w) := sw in
           let a := pm_get (pmap w) ptr in
           if a =? 0 then (s, w) else deallocateOne s w ptr a) (s, w) ptrs.

(* src/core/slab.h:604-611 Slab::deallocateBatchResolved *)
Definition deallocateBatchResolved (s : Slab) (w : World) (objs : list Obj) : Slab * World :=
  let '(s, w) := drainPending s w in deallocateAll s w objs.

(* src/core/slab.h:149-149 Slab::kPendingNodeCap *)
Definition kPendingNodeCap : Z := 64.

(** [free] is the outcome of [lock_.tryLock()]. *)
(* src/core/slab.h:618-638 Slab::deallocateBatchDeferred *)
Definition deallocateBatchDeferred (free : bool) (s : Slab) (w : World) (objs : list Obj) : Slab * World :=
  match objs with
  | [] => (s, w)
  | _ =>
    if pending_depth_ s <? kPendingNodeCap then
      if free then deallocateBatchResolved s w objs else (pushPending s objs, w)
    else deallocateBatchResolved s w objs
  end.

(* src/core/slab.h:689-691 Slab::scavenge *)
Fixpoint release_spans (o : Oracle) (s : Slab) (w : World) (l : list Z) : Slab * World :=
  match l with
  | [] => (s, w)
  | a :: l =>
    let s := set_lists s (partial_ s) (full_ s) l in
    let '(s, w) := releaseSpan o s w a in
    release_spans o s w l
  end.

(* src/core/slab.h:685-692 Slab::scavenge *)
Definition scavenge (o : Oracle) (magazines : bool) (s : Slab) (w : World) : Slab * World :=
  let '(s, w) := drainPending s w in
  let '(s, w) := if magazines then drainMagazines s w else (s, w) in
  release_spans o s w (empty_ s).

(* src/core/slab.h:396-412 Slab::init *)
Definition slab_init (sc arena max_slots : Z) : Slab :=
  mkSlab sc arena max_slots [] [] [] [] 0 [] 0 0.

End Slab.
