(* ===== verification/SlabFacts.v ===== *)
(** * The slab invariant and its preservation (for [Slab.v])

    A slab's spans are on exactly one of its three lists, each list holds the
    spans its name says, every span satisfies the span invariant, their pages
    are runs the page arena has handed out, and the objects on their way
    (deferred frees, magazines, objects clients hold) are exactly the allocated
    slots, each once. *)

From stdpp Require Import functions.
From S2P Require Import Prelude BitOps Config SizeClasses PageState IntrusiveList.
From S2P Require Import Span SpanFacts SpanCorrect VmRegion PageMap Slab.

#[local] Abbreviation page_count := Span.page_count.
#[local] Abbreviation Span := Span.Span.

Section Facts.
Context `{PG : PageGeometry}.

(** ** One span *)

Lemma not_full_visited sp A :
  span_inv sp A -> span_full sp = false -> visited sp <> [].
Proof.
  intros I Hf Hv. unfold span_full in Hf. b2p. apply Hf.
  assert (zcount (free_bit (bitmap sp)) (Z.to_nat (full_capacity sp)) = 0) as Hz.
  { rewrite (zcount_ext _ (fun _ => false)); [apply zcount_false|]. intros i Hi.
    destruct (free_bit (bitmap sp) i) eqn:E; [|done]. pose proof (fc_bound sp A I).
    assert (i ∈ visited sp) by (apply (elem_of_visited sp A); [done|split; [lia|done]]). rewrite Hv in *. set_solver. }
  pose proof (si_count _ _ I). lia.
Qed.

Lemma alloc_not_full e sp A :
  span_inv sp A -> span_full sp = false -> exists r, span_allocate e sp = Some r /\ alloc_result e sp A r.
Proof.
  intros I Hf. pose proof (span_allocate_cases e sp A I) as H. destruct (span_allocate e sp) as [r|]; [by exists r|].
  by destruct (not_full_visited sp A I Hf).
Qed.

(** A scan that finds no warm slot of a span that is not full leaves a
    fallback, and consuming it is what [allocate] does. *)
Lemma warm_none_fallback e sp A fb :
  span_inv sp A -> span_full sp = false -> allocateWarm e sp no_fallback = (None, fb) ->
  fb_any fb = true /\ exists r, consumeFallback e sp fb = Some r /\ alloc_result e sp A r.
Proof.
  intros I Hf Hw. destruct (alloc_not_full e sp A I Hf) as (r & Ha & Hr). unfold span_allocate in Ha. rewrite Hw in Ha.
  split; [|by exists r]. unfold consumeFallback in Ha. unfold fb_any. repeat case_if_in Ha; try done; lia.
Qed.

Lemma warm_some_result e sp A r fb :
  span_inv sp A -> allocateWarm e sp no_fallback = (Some r, fb) -> alloc_result e sp A r.
Proof.
  intros I Hw. pose proof (span_allocate_cases e sp A I) as H. unfold span_allocate in H. by rewrite Hw in H.
Qed.

(** The fields no operation on a span in use changes. *)
Definition same_shape (sp sp' : Span) : Prop :=
  base sp' = base sp /\ page_count sp' = page_count sp /\ object_size sp' = object_size sp /\
  size_class sp' = size_class sp /\ is_large sp' = is_large sp /\ arena_id sp' = arena_id sp.

#[export] Instance same_shape_equiv : Equivalence same_shape.
Proof.
  unfold same_shape. split; [done|intros x y; naive_solver|intros x y z; intuition congruence].
Qed.

Lemma alloc_result_shape e sp A p sp' e' :
  span_inv sp A -> alloc_result e sp A (p, sp', e') ->
  exists x, (x ∉ A) /\ 0 <= x < full_capacity sp /\ p = base sp + x * object_size sp /\ span_inv sp' ({[x]} ∪ A) /\
    same_shape sp sp' /\ object_count sp' = object_count sp /\ allocated_count sp' = allocated_count sp + 1 /\
    current_cap_per_page sp' = current_cap_per_page sp.
Proof. intros I (x & Hx & Hb & Hn & -> & Hi & -> & _). exists x. done. Qed.

Lemma resident_inv sp A r t : span_inv sp A -> span_inv (set_resident sp r t) A.
Proof. intros []. by constructor. Qed.

Lemma plumb_inv sp A i c : span_inv sp A -> span_inv (plumb sp i c) A.
Proof. intros []. by constructor. Qed.

(** ** The world *)

Lemma span_at_put w a sp b : span_at (put_span w a sp) b = if a =? b then sp else span_at w b.
Proof.
  unfold span_at, put_span. cbn. destruct (Z.eqb_spec a b) as [->|]; [by rewrite lookup_insert_eq|by rewrite lookup_insert_ne].
Qed.

(** Steps that touch at most the residency fields of spans. *)
Record quiet (w w' : World) : Prop := {
  q_pmap : pmap w' = pmap w;
  q_dom : dom (descr w') = dom (descr w);
  q_span : forall a, a ∈ dom (descr w) -> exists r t, span_at w' a = set_resident (span_at w a) r t
}.

#[export] Instance quiet_preorder : PreOrder quiet.
Proof.
  split.
  - intros w. constructor; [done|done|]. intros a _. exists (resident_empty (span_at w a)), (empty_tick (span_at w a)).
    by destruct (span_at w a).
  - intros x y z [P1 D1 S1] [P2 D2 S2]. constructor; [congruence|congruence|]. intros a Ha.
    destruct (S1 a Ha) as (r1 & t1 & E1). destruct (S2 a ltac:(rewrite D1; done)) as (r2 & t2 & E2).
    exists r2, t2. rewrite E2, E1. done.
Qed.

Lemma quiet_same w w' : descr w' = descr w -> pmap w' = pmap w -> quiet w w'.
Proof.
  intros Ed Ep. constructor; [done|congruence|]. intros a _. unfold span_at. rewrite Ed.
  exists (resident_empty (span_at w a)), (empty_tick (span_at w a)). unfold span_at. by destruct (default _ _).
Qed.

Lemma quiet_put w a r t : a ∈ dom (descr w) -> quiet w (put_span w a (set_resident (span_at w a) r t)).
Proof.
  intros Ha. constructor; [done|cbn; set_solver|]. intros b _. rewrite span_at_put.
  destruct (Z.eqb_spec a b) as [->|]; [by eexists _, _|].
  exists (resident_empty (span_at w b)), (empty_tick (span_at w b)). by destruct (span_at w b).
Qed.

Lemma quiet_then_same w w' w'' : quiet w w' -> descr w'' = descr w' -> pmap w'' = pmap w' -> quiet w w''.
Proof. intros Q E1 E2. etransitivity; [done|by apply quiet_same]. Qed.

(** ** The invariant *)

Definition span_run (ar : Arena) (sp : Span) : FreeRun :=
  mkRun ((base sp - base_ ar) / kPageSize) (page_count sp).

(** The pages of the slab's spans are live runs of the arena; [rest] are the
    runs others hold. *)
Definition vm_side (own : list Z) (w : World) (rest : list FreeRun) : Prop :=
  exists v batch live ext,
    pm_ok (pmap w) v batch live ext /\
    live ≡ₚ map (fun a => span_run (arena v) (span_at w a)) own ++ rest /\
    Forall (fun a => base (span_at w a) = run_addr (arena v) (page_index (span_run (arena v) (span_at w a)))) own.

(** A usable span has a slot, and a cap that is none (0) or positive. *)
Definition span_good (sp : Span) : Prop := 0 < object_count sp /\ 0 <= current_cap_per_page sp.

Record core (own : list Z) (w : World) (A : Z -> gset Z) (rest : list FreeRun) : Prop := {
  co_nodup : NoDup own;
  co_span : forall a, a ∈ own -> a <> 0 /\ a ∈ dom (descr w) /\ span_inv (span_at w a) (A a) /\
    span_good (span_at w a);
  co_vm : vm_side own w rest
}.

Definition obj_ok (own : list Z) (w : World) (A : Z -> gset Z) (o : Obj) : Prop :=
  o.2 ∈ own /\ exists x, x ∈ A o.2 /\ o.1 = base (span_at w o.2) + x * object_size (span_at w o.2).

(** [P], [F], [E] are the partial, full and empty spans, [all] the objects
    handed out and not yet returned to their span. *)
Record inv (P F E : list Z) (all : list Obj) (w : World) (A : Z -> gset Z) (rest : list FreeRun) : Prop := {
  iv_core : core (P ++ F ++ E) w A rest;
  iv_partial : forall a, a ∈ P -> span_full (span_at w a) = false;
  iv_full : forall a, a ∈ F -> span_full (span_at w a) = true;
  iv_empty : forall a, a ∈ E -> allocated_count (span_at w a) = 0;
  iv_nodup : NoDup all;
  iv_objs : forall o, o ∈ all <-> obj_ok (P ++ F ++ E) w A o
}.

Definition non_null (o : Obj) : Prop := o.2 <> 0.
#[export] Instance non_null_dec o : Decision (non_null o).
Proof. unfold non_null. apply _. Defined.

(** Objects on the pending stack and in the magazines. *)
Definition held (s : Slab) : list Obj := filter non_null (concat (pending s) ++ concat (mags s)).

Definition slab_inv (s : Slab) (w : World) (rest : list FreeRun) (C : list Obj) : Prop :=
  exists A, inv (partial_ s) (full_ s) (empty_ s) (held s ++ C) w A rest.

(** ** Preservation: permuting lists and quiet steps *)

Lemma core_perm own own' w A rest : own ≡ₚ own' -> core own w A rest -> core own' w A rest.
Proof.
  intros Hp [Hn Hs (v & batch & live & ext & Hpm & Hl & Hb)]. constructor.
  - by rewrite <- Hp.
  - intros a Ha. apply Hs. by rewrite Hp.
  - exists v, batch, live, ext. rewrite <- Hp. done.
Qed.

Lemma quiet_at own w w' A rest a :
  quiet w w' -> core own w A rest -> a ∈ own -> exists r t, span_at w' a = set_resident (span_at w a) r t.
Proof. intros Q K Ha. apply (q_span _ _ Q). by destruct (co_span _ _ _ _ K a Ha) as (_ & ? & _). Qed.

Lemma core_quiet own w w' A rest : quiet w w' -> core own w A rest -> core own w' A rest.
Proof.
  intros Q K. pose proof (quiet_at own w w' A rest) as Hat.
  pose proof K as [Hn Hs (v & batch & live & ext & Hpm & Hl & Hb)]. constructor; [done| |].
  - intros a Ha. destruct (Hs a Ha) as (H1 & H2 & H3 & H4). destruct (Hat a Q K Ha) as (r & t & ->).
    splits; [done|by rewrite (q_dom _ _ Q)|by apply resident_inv|done].
  - exists v, batch, live, ext. rewrite (q_pmap _ _ Q). splits; [done| |].
    + rewrite Hl. f_equiv. apply reflexive_eq, map_ext_in. intros a Ha%list_elem_of_In.
      by destruct (Hat a Q K Ha) as (r & t & ->).
    + rewrite Forall_forall in Hb |- *. intros a Ha. specialize (Hb a Ha). cbv beta in Hb.
      by destruct (Hat a Q K Ha) as (r & t & ->).
Qed.

Lemma inv_quiet P F E all w w' A rest : quiet w w' -> inv P F E all w A rest -> inv P F E all w' A rest.
Proof.
  intros Q I. pose proof (iv_core _ _ _ _ _ _ _ I) as K.
  assert (Hat : forall a, a ∈ P ++ F ++ E -> exists r t, span_at w' a = set_resident (span_at w a) r t)
    by (intros a; by eapply quiet_at).
  constructor; [by eapply core_quiet|..].
  - intros a Ha. destruct (Hat a ltac:(set_solver)) as (r & t & ->). by apply (iv_partial _ _ _ _ _ _ _ I).
  - intros a Ha. destruct (Hat a ltac:(set_solver)) as (r & t & ->). by apply (iv_full _ _ _ _ _ _ _ I).
  - intros a Ha. destruct (Hat a ltac:(set_solver)) as (r & t & ->). by apply (iv_empty _ _ _ _ _ _ _ I).
  - apply I.
  - intros o. rewrite (iv_objs _ _ _ _ _ _ _ I). unfold obj_ok. split; intros [Ho (x & Hx & Ep)]; (split; [done|]; exists x; split; [done|]);
      destruct (Hat _ Ho) as (r & t & E1); rewrite E1 in *; done.
Qed.

Lemma obj_ok_perm own own' w A o : own ≡ₚ own' -> obj_ok own w A o <-> obj_ok own' w A o.
Proof. intros Hp. unfold obj_ok. by rewrite Hp. Qed.

(** Reordering, and moving a span between lists that both fit it. *)
Lemma inv_relist P F E P' F' E' all all' w A rest :
  P ++ F ++ E ≡ₚ P' ++ F' ++ E' -> all ≡ₚ all' ->
  (forall a, a ∈ P' -> span_full (span_at w a) = false) ->
  (forall a, a ∈ F' -> span_full (span_at w a) = true) ->
  (forall a, a ∈ E' -> allocated_count (span_at w a) = 0) ->
  inv P F E all w A rest -> inv P' F' E' all' w A rest.
Proof.
  intros Hp Hall HP HF HE I. constructor; try done.
  - eapply core_perm; [exact Hp|apply I].
  - rewrite <- Hall. apply I.
  - intros o. rewrite <- Hall, (iv_objs _ _ _ _ _ _ _ I). by apply obj_ok_perm.
Qed.

(** ** Preservation: one span changes *)

Lemma core_put own w w' A rest a X sp' :
  core own w A rest -> a ∈ own -> span_inv sp' X -> same_shape (span_at w a) sp' -> span_good sp' ->
  descr w' = <[a := sp']> (descr w) -> pmap w' = pmap w -> core own w' (<[a := X]> A) rest.
Proof.
  intros [Hn Hs (v & batch & live & ext & Hpm & Hl & Hb)] Ha Hi (Eb & Ep & _) Hc Ed Epm.
  assert (Hat : forall b, span_at w' b = if a =? b then sp' else span_at w b).
  { intros b. rewrite <- span_at_put. unfold span_at, put_span. cbn. by rewrite Ed. }
  assert (Hrun : forall b ar, span_run ar (span_at w' b) = span_run ar (span_at w b)).
  { intros b ar. rewrite Hat. destruct (Z.eqb_spec a b) as [->|]; [|done]. unfold span_run. by rewrite Eb, Ep. }
  constructor; [done| |].
  - intros b Hb'. destruct (Hs b Hb') as (H1 & H2 & H3 & H4). rewrite Hat.
    splits; [done|rewrite Ed; set_solver|..].
    + destruct (Z.eqb_spec a b) as [->|]; [by rewrite fn_lookup_insert|by rewrite fn_lookup_insert_ne].
    + by case_if.
  - exists v, batch, live, ext. rewrite Epm. splits; [done| |].
    + rewrite Hl. f_equiv. apply reflexive_eq, map_ext. intros b. by rewrite Hrun.
    + eapply Forall_impl; [exact Hb|]. intros b E. cbv beta. rewrite Hrun, <- E, Hat.
      destruct (Z.eqb_spec a b) as [->|]; done.
Qed.

(** Replacing the descriptor of [a], with the objects of [a] now being the
    slots [X] and the others as before. *)
Lemma inv_update P F E all w A rest a X sp' w' P' F' E' all' :
  inv P F E all w A rest -> a ∈ P ++ F ++ E -> span_inv sp' X -> same_shape (span_at w a) sp' -> span_good sp' ->
  descr w' = <[a := sp']> (descr w) -> pmap w' = pmap w -> P ++ F ++ E ≡ₚ P' ++ F' ++ E' ->
  (forall b, b ∈ P' -> if decide (b = a) then span_full sp' = false else b ∈ P) ->
  (forall b, b ∈ F' -> if decide (b = a) then span_full sp' = true else b ∈ F) ->
  (forall b, b ∈ E' -> if decide (b = a) then allocated_count sp' = 0 else b ∈ E) ->
  NoDup all' -> (forall o : Obj, o.2 <> a -> o ∈ all' <-> o ∈ all) ->
  (forall p, (p, a) ∈ all' <-> exists x, x ∈ X /\ p = base (span_at w a) + x * object_size (span_at w a)) ->
  inv P' F' E' all' w' (<[a := X]> A) rest.
Proof.
  intros I Ha Hi Hsh Hc Ed Epm Hp HP HF HE Hnd Ho Hoa.
  assert (Hat : forall b, span_at w' b = if a =? b then sp' else span_at w b).
  { intros b. rewrite <- span_at_put. unfold span_at, put_span. cbn. by rewrite Ed. }
  constructor.
  - eapply core_perm; [exact Hp|]. eapply core_put; try done. apply I.
  - intros b Hb. specialize (HP b Hb). rewrite Hat. case_decide; case_if; try (lia || done). by apply (iv_partial _ _ _ _ _ _ _ I).
  - intros b Hb. specialize (HF b Hb). rewrite Hat. case_decide; case_if; try (lia || done). by apply (iv_full _ _ _ _ _ _ _ I).
  - intros b Hb. specialize (HE b Hb). rewrite Hat. case_decide; case_if; try (lia || done). by apply (iv_empty _ _ _ _ _ _ _ I).
  - done.
  - intros [p b]. unfold obj_ok. cbn [fst snd]. rewrite <- Hp, Hat. destruct (decide (b = a)) as [->|Hne].
    + rewrite Hoa, Z.eqb_refl, fn_lookup_insert. destruct Hsh as (-> & _ & -> & _). naive_solver.
    + rewrite (Ho (p, b)) by done. rewrite (iv_objs _ _ _ _ _ _ _ I). unfold obj_ok. cbn [fst snd].
      rewrite fn_lookup_insert_ne by done. rewrite (proj2 (Z.eqb_neq a b)) by congruence. done.
Qed.

Lemma unlink_perm a l : NoDup l -> a ∈ l -> l ≡ₚ a :: unlink a l.
Proof.
  intros Hn Ha. unfold unlink. induction l as [|b l IH]; [set_solver|]. apply NoDup_cons in Hn as [Hb Hn].
  rewrite filter_cons. case_decide as Hd.
  - rewrite IH at 1 by (done || set_solver). apply perm_swap.
  - assert (b = a) as -> by (destruct (decide (b = a)); [done|congruence]). f_equiv. rewrite filter_all; [done|].
    intros x Hx ->. done.
Qed.

Lemma elem_of_unlink a b l : b ∈ unlink a l <-> b ∈ l /\ b <> a.
Proof. unfold unlink. rewrite list_elem_of_filter. naive_solver. Qed.

Lemma own_nodup P F E all w A rest : inv P F E all w A rest -> NoDup (P ++ F ++ E).
Proof. intros I. apply (iv_core _ _ _ _ _ _ _ I). Qed.

(** Objects are determined by span and slot. *)
Lemma slot_addr_inj sp A x y :
  span_inv sp A -> base sp + x * object_size sp = base sp + y * object_size sp -> x = y.
Proof. intros I H. pose proof (si_osz _ _ I). nia. Qed.

Definition slot_addr (w : World) (a x : Z) : Z := base (span_at w a) + x * object_size (span_at w a).

(** Taking slot [x] of span [a]. *)
Lemma inv_take P F E all w A rest a x sp' w' P' F' E' :
  inv P F E all w A rest -> a ∈ P ++ F ++ E -> (x ∉ A a) -> span_inv sp' ({[x]} ∪ A a) ->
  same_shape (span_at w a) sp' -> span_good sp' ->
  descr w' = <[a := sp']> (descr w) -> pmap w' = pmap w -> P ++ F ++ E ≡ₚ P' ++ F' ++ E' ->
  (forall b, b ∈ P' -> if decide (b = a) then span_full sp' = false else b ∈ P) ->
  (forall b, b ∈ F' -> if decide (b = a) then span_full sp' = true else b ∈ F) ->
  (forall b, b ∈ E' -> if decide (b = a) then allocated_count sp' = 0 else b ∈ E) ->
  inv P' F' E' ((slot_addr w a x, a) :: all) w' (<[a := {[x]} ∪ A a]> A) rest.
Proof.
  intros I Ha Hx Hi Hsh Hc Ed Epm Hp HP HF HE. eapply inv_update; try done.
  - constructor; [|apply I]. rewrite (iv_objs _ _ _ _ _ _ _ I). intros [_ (y & Hy & Ey)]. cbn in *.
    destruct (co_span _ _ _ _ (iv_core _ _ _ _ _ _ _ I) a Ha) as (_ & _ & Hsi & _).
    apply (slot_addr_inj _ _ _ _ Hsi) in Ey. by subst.
  - intros o Ho. rewrite elem_of_cons. naive_solver.
  - intros p. rewrite elem_of_cons, (iv_objs _ _ _ _ _ _ _ I). unfold obj_ok, slot_addr. cbn. split.
    + intros [[= ->]|[_ (y & Hy & ->)]]; [exists x|exists y]; set_solver.
    + intros (y & Hy & ->). apply elem_of_union in Hy as [->%elem_of_singleton|Hy]; [by left|right; eauto].
Qed.

(** Returning slot [x] of span [a]. *)
Lemma inv_give P F E all w A rest a x sp' w' P' F' E' :
  inv P F E ((slot_addr w a x, a) :: all) w A rest -> a ∈ P ++ F ++ E -> span_inv sp' (A a ∖ {[x]}) ->
  same_shape (span_at w a) sp' -> span_good sp' ->
  descr w' = <[a := sp']> (descr w) -> pmap w' = pmap w -> P ++ F ++ E ≡ₚ P' ++ F' ++ E' ->
  (forall b, b ∈ P' -> if decide (b = a) then span_full sp' = false else b ∈ P) ->
  (forall b, b ∈ F' -> if decide (b = a) then span_full sp' = true else b ∈ F) ->
  (forall b, b ∈ E' -> if decide (b = a) then allocated_count sp' = 0 else b ∈ E) ->
  inv P' F' E' all w' (<[a := A a ∖ {[x]}]> A) rest.
Proof.
  intros I Ha Hi Hsh Hc Ed Epm Hp HP HF HE. pose proof (iv_nodup _ _ _ _ _ _ _ I) as Hnd. apply NoDup_cons in Hnd as [Hni Hnd].
  destruct (co_span _ _ _ _ (iv_core _ _ _ _ _ _ _ I) a Ha) as (_ & _ & Hsi & _).
  eapply inv_update; try done.
  - intros o Ho. rewrite elem_of_cons. split; [by right|]. intros [->|]; [done|done].
  - intros p. pose proof (iv_objs _ _ _ _ _ _ _ I (p, a)) as Hio. rewrite elem_of_cons in Hio. unfold obj_ok, slot_addr in *. cbn in Hio. split.
    + intros Hpa. destruct (proj1 Hio (or_intror Hpa)) as [_ (y & Hy & ->)]. exists y. split; [|done].
      apply elem_of_difference. split; [done|]. intros ->%elem_of_singleton. done.
    + intros (y & [Hy Hne]%elem_of_difference & ->). destruct (proj2 Hio) as [[= Heq]|]; [by eauto| |done].
      apply (slot_addr_inj _ _ _ _ Hsi) in Heq. set_solver.
Qed.
End Facts.
