(* ===== verification/SlabOps.v ===== *)
(** * Slab operations preserve the slab invariant (for [Slab.v]) *)

From stdpp Require Import functions.
From S2P Require Import Prelude BitOps Config SizeClasses PageState IntrusiveList.
From S2P Require Import Span SpanFacts SpanCorrect VmRegion PageMap Slab SlabFacts.

#[local] Abbreviation page_count := Span.page_count.
#[local] Abbreviation Span := Span.Span.

(** What a call relies on from outside: a shard index, and that descriptors
    come fresh and non-null. *)
Record oracle_ok (o : Oracle) : Prop := {
  oo_shard : 0 <= o_shard o < kNumFreeShards;
  oo_descr : forall w, o_descr o w <> 0 /\ o_descr o w ∉ dom (descr w)
}.

(** The slab but for its counters. *)
Definition same_lists (s s' : Slab) : Prop :=
  size_class_ s' = size_class_ s /\ arena_id_ s' = arena_id_ s /\ max_slots_per_page_ s' = max_slots_per_page_ s /\
  partial_ s' = partial_ s /\ full_ s' = full_ s /\ empty_ s' = empty_ s /\ pending s' = pending s /\ mags s' = mags s.

Section Ops.
Context `{PG : PageGeometry} (cfg : SlabCfg).

(** ** Quiet operations *)

Lemma run_hook_same w sp : descr (run_hook cfg w sp) = descr w /\ pmap (run_hook cfg w sp) = pmap w.
Proof. unfold run_hook. destruct (c_hook cfg), (vm_region (pmap w)); done. Qed.

Lemma set_page_states_same w sp st :
  descr (set_page_states cfg w sp st) = descr w /\ pmap (set_page_states cfg w sp st) = pmap w.
Proof. unfold set_page_states. destruct (vm_region (pmap w)); [case_if|]; done. Qed.

Lemma resetColdCounts_same w sp :
  descr (resetColdCounts cfg w sp) = descr w /\ pmap (resetColdCounts cfg w sp) = pmap w.
Proof. unfold resetColdCounts. destruct (vm_region (pmap w)); [case_if|]; done. Qed.

Lemma decommit_quiet w a : quiet w (decommitEmptySpan cfg w a).
Proof.
  unfold decommitEmptySpan. set (w1 := w_log _ _).
  destruct (set_page_states_same w1 (span_at w a) EMPTY) as [E1 E2].
  destruct (run_hook_same w (span_at w a)) as [E3 E4]. apply quiet_same; [by rewrite E1|by rewrite E2].
Qed.

Lemma clearResident_quiet s w a s' w' :
  a ∈ dom (descr w) -> clearResident s w a = (s', w') -> quiet w w' /\ same_lists s s'.
Proof.
  intros Ha. unfold clearResident. case_if; [by intros [= <- <-]|]. intros [= <- <-]. split; [|done].
  eapply quiet_then_same; [by apply quiet_put|done|done].
Qed.

Lemma retire_quiet s w a s' w' :
  a ∈ dom (descr w) -> retireEmptySpan cfg s w a = (s', w') -> quiet w w' /\ same_lists s s'.
Proof.
  intros Ha. unfold retireEmptySpan. case_if; intros [= <- <-]; (split; [|done]); [apply decommit_quiet|].
  set (w1 := set_page_states cfg _ _ _).
  assert (Q : quiet w w1).
  { destruct (set_page_states_same (run_hook cfg w (span_at w a)) (span_at w a) EMPTY) as [E1 E2].
    destruct (run_hook_same w (span_at w a)) as [E3 E4]. apply quiet_same; unfold w1; congruence. }
  etransitivity; [exact Q|].
  apply (quiet_then_same _ (put_span w1 a (set_resident (span_at w a) true (slab_tick_ w1)))); [|done|done].
  destruct (q_span _ _ Q a Ha) as (r & t & E1).
  assert (Eset : set_resident (span_at w a) true (slab_tick_ w1) = set_resident (span_at w1 a) true (slab_tick_ w1)) by (by rewrite E1).
  rewrite Eset. apply quiet_put. by rewrite (q_dom _ _ Q).
Qed.

Lemma recommit_quiet s w a s' w' :
  a ∈ dom (descr w) -> recommitEmptySpan cfg s w a = (s', w') -> quiet w w' /\ same_lists s s'.
Proof.
  intros Ha. unfold recommitEmptySpan. destruct (clearResident s w a) as [s1 w1] eqn:E1.
  destruct (clearResident_quiet _ _ _ _ _ Ha E1) as [Q S1]. intros [= <- <-]. split; [|done].
  destruct (set_page_states_same w1 (span_at w1 a) ACTIVE) as [D1 P1].
  set (w2 := set_page_states cfg w1 _ _) in *. destruct (resetColdCounts_same w2 (span_at w2 a)) as [D2 P2].
  eapply quiet_then_same; [exact Q|congruence|congruence].
Qed.

Lemma purge_quiet now s w l s' w' :
  Forall (fun a => a ∈ dom (descr w)) l -> purge_spans now s w l = (s', w') -> quiet w w' /\ same_lists s s'.
Proof.
  revert s w. induction l as [|a l IH]; intros s w Hl; cbn [purge_spans]; [by intros [= <- <-]|].
  apply Forall_cons in Hl as [Ha Hl]. case_if; [|by apply IH].
  destruct (clearResident s w a) as [s1 w1] eqn:E1. destruct (clearResident_quiet _ _ _ _ _ Ha E1) as [Q S1].
  intros Hp. apply IH in Hp; [|by rewrite <- (q_dom _ _ Q) in Hl]. destruct Hp as [Q2 S2]. split.
  - etransitivity; [exact Q|]. etransitivity; [|exact Q2]. by apply quiet_same.
  - unfold same_lists in *. intuition congruence.
Qed.

Lemma alloc_le sp A : span_inv sp A -> 0 <= allocated_count sp <= object_count sp.
Proof.
  intros I. pose proof (si_count _ _ I) as Hc. pose proof (allocated_bound _ _ I).
  pose proof (zcount_bound (free_bit (bitmap sp)) (Z.to_nat (full_capacity sp))). lia.
Qed.

(** ** Widening *)

Lemma widenCap_shape sp nc : same_shape sp (widenCap sp nc) /\ allocated_count (widenCap sp nc) = allocated_count sp.
Proof.
  unfold widenCap, widen_with. repeat case_if; try done; destruct (foldl _ _ _) as [bm added]; by case_if.
Qed.

Lemma widenCap_good sp A nc :
  span_inv sp A -> span_good sp -> 0 <= nc < 2 ^ 16 ->
  span_inv (widenCap sp nc) A /\ span_good (widenCap sp nc) /\ object_count sp <= object_count (widenCap sp nc).
Proof.
  intros I [Hc Hcap] Hnc. destruct (widenCap_inv sp A nc I Hcap Hnc) as (I' & Hcap' & Hmono & _).
  destruct (widenCap_shape sp nc) as [(Eb & Ep & Eo & _) Ea].
  assert (Ef : full_capacity (widenCap sp nc) = full_capacity sp).
  { rewrite (si_fc _ _ I), (si_fc _ _ I'), Ep, Eo. done. }
  assert (object_count sp <= object_count (widenCap sp nc)).
  { rewrite <- (si_count _ _ I), <- (si_count _ _ I'), Ea, Ef. apply Z.add_le_mono_r, zcount_mono. intros. apply Hmono; [lia|done]. }
  unfold span_good. splits; try done; lia.
Qed.

Lemma maybeWiden_inv s P F E all w A rest a :
  0 <= currentCap cfg s < 2 ^ 16 -> a ∈ P -> inv P F E all w A rest ->
  exists A', inv P F E all (maybeWiden cfg s w a) A' rest.
Proof.
  intros Hcap Ha I. unfold maybeWiden. destruct (c_cap_fn cfg); [|by eexists]. case_if; [by eexists|].
  case_if; [|by eexists].
  assert (Hown : a ∈ P ++ F ++ E) by set_solver.
  destruct (co_span _ _ _ _ (iv_core _ _ _ _ _ _ _ I) a Hown) as (H0 & Hd & Hi & Hg).
  destruct (widenCap_good _ _ (currentCap cfg s) Hi Hg Hcap) as (Hi' & Hg' & Hle).
  destruct (widenCap_shape (span_at w a) (currentCap cfg s)) as [Hsh Hal].
  pose proof (iv_partial _ _ _ _ _ _ _ I a Ha) as Hnf.
  pose proof (own_nodup _ _ _ _ _ _ _ I) as Hnd. rewrite !NoDup_app in Hnd.
  pose proof (alloc_le _ _ Hi).
  eexists. eapply inv_update; try done.
  - intros b Hb. case_decide; [|done]. unfold span_full in *. b2p. apply Z.eqb_neq. lia.
  - intros b Hb. case_decide; [|done]. set_solver.
  - intros b Hb. case_decide; [|done]. set_solver.
  - apply I.
  - intros p. rewrite (iv_objs _ _ _ _ _ _ _ I). unfold obj_ok. cbn. naive_solver.
Qed.

(** ** Taking a slot *)

Lemma take_partial P F E all w A rest a p sp e :
  inv P F E all w A rest -> a ∈ P -> alloc_result (penv w) (span_at w a) (A a) (p, sp, e) ->
  exists A', inv (if span_full sp then unlink a P else P) (if span_full sp then a :: F else F) E
    ((p, a) :: all) (w_penv (put_span w a sp) e) A' rest.
Proof.
  intros I Ha Hr. assert (Hown : a ∈ P ++ F ++ E) by set_solver.
  destruct (co_span _ _ _ _ (iv_core _ _ _ _ _ _ _ I) a Hown) as (H0 & Hd & Hi & [Hg1 Hg2]).
  destruct (alloc_result_shape _ _ _ _ _ _ Hi Hr) as (x & Hx & Hxb & -> & Hi' & Hsh & Ec & Ea & Ecap).
  pose proof (own_nodup _ _ _ _ _ _ _ I) as Hnd. rewrite NoDup_app in Hnd. destruct Hnd as (HnP & HPd & _).
  eexists. apply (inv_take P F E all w A rest a x sp); try done.
  - split; [by rewrite Ec|by rewrite Ecap].
  - case_if; [|done]. rewrite (unlink_perm a P) at 1 by done. simpl. apply Permutation_middle.
  - intros b. case_if; [rewrite elem_of_unlink|]; intros Hb; case_decide; naive_solver.
  - intros b. case_if; [rewrite elem_of_cons|]; intros Hb; case_decide; naive_solver set_solver.
  - intros b Hb. case_decide; [|done]. subst. set_solver.
Qed.

Lemma settle_front_lists s w a :
  let s' := settle_front s w a in
  partial_ s' = (if span_full (span_at w a) then unlink a (partial_ s) else partial_ s) /\
  full_ s' = (if span_full (span_at w a) then a :: full_ s else full_ s) /\
  empty_ s' = empty_ s /\ held s' = held s.
Proof. unfold settle_front. by case_if. Qed.

(** An empty span becomes the front partial span. *)
Lemma promote_empty P F es E all w A rest :
  inv P F (es :: E) all w A rest -> inv (es :: P) F E all w A rest.
Proof.
  intros I. assert (Hown : es ∈ P ++ F ++ es :: E) by set_solver.
  destruct (co_span _ _ _ _ (iv_core _ _ _ _ _ _ _ I) es Hown) as (_ & _ & _ & [Hg _]).
  eapply inv_relist; [..|exact I]; try done.
  - simpl. rewrite !app_assoc. by rewrite <- Permutation_middle.
  - intros a [->|Ha]%elem_of_cons; [|by apply (iv_partial _ _ _ _ _ _ _ I)].
    pose proof (iv_empty _ _ _ _ _ _ _ I es ltac:(by left)). unfold span_full. apply Z.eqb_neq. lia.
  - apply I.
  - intros a Ha. apply (iv_empty _ _ _ _ _ _ _ I). by right.
Qed.

(** ** New spans *)

Lemma allocatePages_side chunk avail my v batch live ext n :
  0 <= chunk < 2 ^ 32 -> 0 <= my < kNumFreeShards -> 1 <= n < 2 ^ 32 -> vm_ok v batch live ext ->
  match allocatePages chunk avail my v n with
  | (None, v') => v' = v
  | (Some mem, v') => exists idx, mem = run_addr (arena v') idx /\ 0 <= idx /\ idx + n <= contig_pages_ (arena v') /\
      vm_ok v' batch (mkRun idx n :: live) ext /\ base_ (arena v') = base_ (arena v) /\
      flat v' = flat v /\ contig_pages_ (arena v') = contig_pages_ (arena v)
  end.
Proof.
  intros Hch Hmy Hn O. unfold allocatePages. rewrite (vo_mode _ _ _ _ O).
  destruct (allocatePageRun chunk avail my (arena v) n) as [[idx|] a'] eqn:E.
  - pose proof (alloc_inv _ _ _ _ _ _ _ _ _ Hch Hmy Hn (vo_arena _ _ _ _ O) E) as I'.
    destruct (live_run_bounds _ _ _ (mkRun idx n) I' ltac:(by left)) as (B1 & B2 & B3). cbn in B1, B3.
    assert (base_ a' = base_ (arena v) /\ contig_pages_ a' = contig_pages_ (arena v)) as [Eb Ec].
    { revert E. unfold allocatePageRun. destruct (take_run n _) as [[i l]|]; [by intros [= <- <-]|].
      destruct (try_shards _ _ _ _ _) as [[i sh]|]; [by intros [= <- <-]|].
      case_if; [done|]. intros [= <- <-]. unfold ensureCommitted. by case_if. }
    pose proof (ai_range _ _ _ I'). exists idx. cbn [with_arena arena flat]. splits; try done; [lia|].
    constructor; cbn; rewrite ?Ec; try apply O; done.
  - rewrite (alloc_fail_same _ _ _ _ _ _ _ _ Hn (vo_arena _ _ _ _ O) E). by destruct v.
Qed.

Lemma init_good mem sc arena cap :
  0 <= sc < kNumClasses -> 0 <= cap < 2 ^ 16 -> 0 <= mem -> mem + classPages sc * kPageSize <= 2 ^ 64 ->
  let sp := span_init mem (classPages sc) sc arena cap in
  span_inv sp ∅ /\ span_good sp /\ base sp = mem /\ page_count sp = classPages sc /\ allocated_count sp = 0.
Proof.
  intros Hsc Hcap Hm He. destruct (span_init_inv mem (classPages sc) sc arena cap Hsc eq_refl Hcap Hm He) as [I Ec].
  pose proof (span_init_count mem sc arena cap Hsc Hcap Hm He). cbv zeta. splits; [done| | | |].
  - split; [lia|]. rewrite Ec. case_if; lia.
  - unfold span_init. repeat case_if; done.
  - unfold span_init. repeat case_if; done.
  - rewrite (si_alloc _ _ I). done.
Qed.

(** A span carries the class and the arena of its slab. *)
Definition labelled (s : Slab) (sp : Span) : Prop :=
  size_class sp = size_class_ s /\ arena_id sp = arena_id_ s /\ is_large sp = false /\ object_size sp = classSize (size_class_ s).

Lemma init_labelled s mem pages cap : labelled s (span_init mem pages (size_class_ s) (arena_id_ s) cap).
Proof. unfold labelled, span_init. repeat case_if; done. Qed.

(** What a successful [allocateNewSpan] changes: one descriptor, and the page
    map with one more live run. *)
Lemma allocateNewSpan_shape o s own w A rest r w' :
  oracle_ok o -> 0 <= size_class_ s < kNumClasses -> 0 <= currentCap cfg s < 2 ^ 16 -> 0 <= c_chunk cfg < 2 ^ 32 ->
  core own w A rest -> allocateNewSpan cfg o s w = (r, w') ->
  match r with
  | None => descr w' = descr w /\ pmap w' = pmap w
  | Some a => exists sp v v' batch live ext idx,
      a <> 0 /\ (a ∉ dom (descr w)) /\ descr w' = <[a := sp]> (descr w) /\
      vm_region (pmap w) = Some v /\ pm_ok (pmap w) v batch live ext /\
      live ≡ₚ map (fun a => span_run (arena v) (span_at w a)) own ++ rest /\
      Forall (fun a => base (span_at w a) = run_addr (arena v) (page_index (span_run (arena v) (span_at w a)))) own /\
      pm_ok (pmap w') v' batch (mkRun idx (page_count sp) :: live) ext /\ base_ (arena v') = base_ (arena v) /\
      0 <= idx /\ base sp = run_addr (arena v') idx /\ span_inv sp ∅ /\ span_good sp /\ allocated_count sp = 0 /\
      labelled s sp /\ contig_pages_ (arena v') = contig_pages_ (arena v) /\ idx + page_count sp <= contig_pages_ (arena v') /\
      (forall p, 0 <= p -> radix (level1 (pmap w')) p =
         if (base_ (arena v) / kPageSize + idx <=? p) && (p <? base_ (arena v) / kPageSize + idx + page_count sp) then a
         else radix (level1 (pmap w)) p) /\
      (forall j, flat_span v' j = if (idx <=? j) && (j <? idx + page_count sp) then a else flat_span v j) /\
      (forall j, flat_tag v' j = if (idx <=? j) && (j <? idx + page_count sp) then pageTag (span_at w') a else flat_tag v j)
  end.
Proof.
  intros [Hsh Hfr] Hsc Hcap Hch K. destruct (co_vm _ _ _ _ K) as (v & batch & live & ext & [Hvm O HT] & Hl & Hb).
  unfold allocateNewSpan. rewrite Hvm. destruct (class_geometry _ Hsc) as (_ & _ & Hpg & _).
  assert (Hn : 1 <= classPages (size_class_ s) < 2 ^ 32) by lia.
  pose proof (allocatePages_side (c_chunk cfg) (o_avail o) (o_shard o) v batch live ext (classPages (size_class_ s)) Hch Hsh Hn O) as Hal.
  destruct (allocatePages _ _ _ v _) as [[mem|] v'].
  2:{ intros [= <- <-]. subst v'. split; [done|]. cbn. destruct (pmap w). cbn in Hvm. by rewrite Hvm. }
  destruct Hal as (idx & -> & Hi0 & Hic & O' & Eb & Ef & Ec).
  set (w1 := if c_page_states cfg then w_penv _ _ else _).
  assert (Hw1 : descr w1 = descr w /\ pmap w1 = mkPageMap (level1 (pmap w)) (Some v')) by (unfold w1; by case_if).
  destruct Hw1 as [Hd1 Hp1]. set (a := o_descr o w1). destruct (Hfr w1) as [Ha0 Had]. fold a in Ha0, Had.
  pose proof (ai_base _ _ _ (vo_arena _ _ _ _ O')) as (Hb0 & _ & Hb2). pose proof pg_pos.
  destruct (init_good (run_addr (arena v') idx) (size_class_ s) (arena_id_ s) (currentCap cfg s) Hsc Hcap) as (I1 & G1 & B1 & P1 & A1);
    [unfold run_addr; nia|unfold run_addr; nia|].
  set (sp0 := span_init _ _ _ _ _) in *.
  set (pl := if c_page_states cfg then (plumb _ _ _, _) else _).
  assert (Hpl : span_inv pl.1 ∅ /\ span_good pl.1 /\ base pl.1 = run_addr (arena v') idx /\
    page_count pl.1 = classPages (size_class_ s) /\ allocated_count pl.1 = 0 /\ descr pl.2 = descr w /\
    pmap pl.2 = mkPageMap (level1 (pmap w)) (Some v') /\ labelled s pl.1).
  { pose proof (init_labelled s (run_addr (arena v') idx) (classPages (size_class_ s)) (currentCap cfg s)) as Lb. fold sp0 in Lb.
    unfold pl. case_if; cbn [fst snd]; [|done]. destruct (resetColdCounts_same w1 (plumb sp0 (pageIndex v' (run_addr (arena v') idx)) (c_cold_counts cfg))) as [-> ->].
    splits; try done. by apply plumb_inv. }
  destruct pl as [sp w2]. cbn [fst snd] in Hpl. destruct Hpl as (I2 & G2 & B2 & P2 & A2 & D2 & M2 & Lb). intros [= <- <-].
  assert (PO : pm_ok (pmap (put_span w2 a sp)) v' batch (mkRun idx (page_count sp) :: live) ext).
  { cbn. rewrite M2, P2. constructor; [done|done|]. unfold has_tables. rewrite Ef. exact HT. }
  destruct (pm_setRange_arena (span_at (put_span w2 a sp)) _ v' _ _ _ idx (classPages (size_class_ s)) a PO Hi0 (proj1 Hn) Hic)
    as (v2 & PO2 & (_ & _ & E3 & _) & R2 & F2 & T2).
  assert (Efl : flat_span v' = flat_span v /\ flat_tag v' = flat_tag v) by (unfold flat_span, flat_tag; by rewrite Ef).
  destruct Efl as [Efs Eft]. rewrite Efs in F2. rewrite Eft in T2. rewrite Eb in R2. rewrite <- P2 in PO2, R2, F2, T2 |- *.
  assert (R3 : level1 (pmap (put_span w2 a sp)) = level1 (pmap w)) by (cbn; by rewrite M2). rewrite R3 in R2.
  exists sp, v, v2, batch, live, ext, idx. rewrite E3. splits; try done.
  - by rewrite <- Hd1.
  - cbn. by rewrite D2.
  - by rewrite P2.
Qed.

(** It fails only when the arena has no run of the class's pages left. *)
Lemma allocateNewSpan_fails o s own w A rest w' :
  oracle_ok o -> 0 <= size_class_ s < kNumClasses -> core own w A rest -> allocateNewSpan cfg o s w = (None, w') ->
  exists v, vm_region (pmap w') = Some v /\ arena_exhausted (o_avail o) (o_shard o) (classPages (size_class_ s)) (arena v).
Proof.
  intros [Hsh _] Hsc K. destruct (co_vm _ _ _ _ K) as (v & batch & live & ext & [Hvm O HT] & _).
  unfold allocateNewSpan. rewrite Hvm. destruct (class_geometry _ Hsc) as (_ & _ & Hpg & _).
  assert (Hn : 1 <= classPages (size_class_ s) < 2 ^ 32) by lia. unfold allocatePages. rewrite (vo_mode _ _ _ _ O).
  destruct (allocatePageRun _ _ _ _ _) as [[idx|] a'] eqn:E.
  - by destruct (if c_page_states cfg then (_, _) else _) as [sp2 w2].
  - intros [= <-]. eexists. split; [done|]. cbn. rewrite (alloc_fail_same _ _ _ _ _ _ _ _ Hn (vo_arena _ _ _ _ O) E).
    exact (alloc_fail_exhausted _ _ _ _ _ _ _ _ Hsh Hn (vo_arena _ _ _ _ O) E).
Qed.

Lemma new_span_inv o s P F E all w A rest r w' :
  oracle_ok o -> 0 <= size_class_ s < kNumClasses -> 0 <= currentCap cfg s < 2 ^ 16 -> 0 <= c_chunk cfg < 2 ^ 32 ->
  inv P F E all w A rest -> allocateNewSpan cfg o s w = (r, w') ->
  match r with
  | None => inv P F E all w' A rest
  | Some a => exists A', inv (a :: P) F E all w' A' rest
  end.
Proof.
  intros Ho Hsc Hcap Hch I Hal. pose proof (iv_core _ _ _ _ _ _ _ I) as K.
  pose proof (allocateNewSpan_shape o s _ w A rest r w' Ho Hsc Hcap Hch K Hal) as Hs. destruct r as [a|].
  2:{ destruct Hs as [E1 E2]. eapply inv_quiet; [by apply quiet_same|done]. }
  destruct Hs as (sp & v & v' & batch & live & ext & idx & Ha0 & Had & Ed & Hvm & PO & Hl & Hb & PO' & Eb & Hi0 & Bsp & Isp & Gsp & Asp & _).
  set (own := P ++ F ++ E) in *.
  assert (Hnew : a ∉ own) by (intros Hin; by destruct (co_span _ _ _ _ K a Hin) as (_ & ? & _)).
  assert (Hat : forall b, span_at w' b = if a =? b then sp else span_at w b).
  { intros b. rewrite <- span_at_put. unfold span_at, put_span. cbn. by rewrite Ed. }
  assert (Hold : forall b, b ∈ own -> span_at w' b = span_at w b).
  { intros b Hb'. rewrite Hat. destruct (Z.eqb_spec a b); [congruence|done]. }
  assert (Hrun : span_run (arena v') sp = mkRun idx (page_count sp)).
  { unfold span_run. rewrite Bsp. f_equal. by apply run_addr_index. }
  assert (Erun : forall b, span_run (arena v') (span_at w b) = span_run (arena v) (span_at w b)) by (intros b; unfold span_run; by rewrite Eb).
  assert (Haddr : forall i, run_addr (arena v') i = run_addr (arena v) i) by (intros i; unfold run_addr; by rewrite Eb).
  assert (Hata : span_at w' a = sp) by (by rewrite Hat, Z.eqb_refl).
  exists (<[a := ∅]> A). constructor; try change ((a :: P) ++ F ++ E) with (a :: own).
  - constructor; [apply NoDup_cons; split; [done|apply K]| |].
    + intros b [->|Hb']%elem_of_cons.
      * rewrite Hata, fn_lookup_insert, Ed. splits; try done. set_solver.
      * assert (b <> a) by congruence. destruct (co_span _ _ _ _ K b Hb') as (? & ? & ? & ?).
        rewrite (Hold b Hb'), fn_lookup_insert_ne, Ed by done. splits; try done. set_solver.
    + exists v', batch, (mkRun idx (page_count sp) :: live), ext. splits; [done| |].
      * cbn [map]. rewrite Hata, Hrun, Hl. simpl. do 2 f_equiv. apply reflexive_eq, map_ext_in.
        intros b Hb'%list_elem_of_In. by rewrite (Hold b Hb'), Erun.
      * constructor; [by rewrite Hata, Hrun|]. rewrite Forall_forall in Hb |- *. intros b Hb'.
        rewrite (Hold b Hb'), Erun, Haddr. by apply Hb.
  - intros b [->|Hb']%elem_of_cons; [rewrite Hata; unfold span_full; apply Z.eqb_neq; destruct Gsp; lia|].
    rewrite (Hold b) by (unfold own; set_solver). by apply (iv_partial _ _ _ _ _ _ _ I).
  - intros b Hb'. rewrite (Hold b) by (unfold own; set_solver). by apply (iv_full _ _ _ _ _ _ _ I).
  - intros b Hb'. rewrite (Hold b) by (unfold own; set_solver). by apply (iv_empty _ _ _ _ _ _ _ I).
  - apply I.
  - intros [p b]. rewrite (iv_objs _ _ _ _ _ _ _ I). unfold obj_ok. cbn [fst snd]. fold own. rewrite elem_of_cons.
    destruct (decide (b = a)) as [->|Hne].
    + rewrite fn_lookup_insert. set_solver.
    + rewrite fn_lookup_insert_ne by done. split.
      * intros [Hb' Hx]. split; [by right|]. by rewrite (Hold b Hb').
      * intros [[?|Hb'] Hx]; [done|]. split; [done|]. by rewrite (Hold b Hb') in Hx.
Qed.

(** ** Returning objects *)

Definition sinv (s : Slab) (w : World) (rest : list FreeRun) (all : list Obj) : Prop :=
  exists A, inv (partial_ s) (full_ s) (empty_ s) all w A rest.

(** The parts of a slab that freeing objects leaves alone. *)
Definition same_stash (s s' : Slab) : Prop :=
  size_class_ s' = size_class_ s /\ arena_id_ s' = arena_id_ s /\ max_slots_per_page_ s' = max_slots_per_page_ s /\
  pending s' = pending s /\ mags s' = mags s.

#[export] Instance same_stash_preorder : PreOrder same_stash.
Proof. unfold same_stash. split; [done|]. intros x y z. intuition congruence. Qed.

Lemma dealloc_shape sp A x :
  span_inv sp A -> x ∈ A -> span_good sp ->
  let sp' := span_deallocate sp (base sp + x * object_size sp) in
  span_inv sp' (A ∖ {[x]}) /\ same_shape sp sp' /\ span_good sp' /\ object_count sp' = object_count sp /\
  allocated_count sp' = allocated_count sp - 1 /\ 0 < allocated_count sp.
Proof.
  intros I Hx [G1 G2]. destruct (deallocate_inv sp A x I Hx) as (I' & _ & _ & Ec & _).
  cbv zeta in *. splits; try done.
  - rewrite (si_alloc _ _ I'), (si_alloc _ _ I), size_difference by set_solver. rewrite size_singleton.
    pose proof (subseteq_size {[x]} A ltac:(set_solver)). rewrite size_singleton in *. lia.
  - rewrite (si_alloc _ _ I). pose proof (subseteq_size {[x]} A ltac:(set_solver)). rewrite size_singleton in *. lia.
Qed.

(** A span with live objects is on the list its fill level says. *)
Lemma in_full P F E all w A rest a :
  inv P F E all w A rest -> a ∈ P ++ F ++ E -> 0 < allocated_count (span_at w a) -> span_full (span_at w a) = true -> a ∈ F.
Proof.
  intros I Hown Hpos Hf. rewrite !elem_of_app in Hown. destruct Hown as [Hin|[|Hin]]; [|done|].
  - rewrite (iv_partial _ _ _ _ _ _ _ I a Hin) in Hf. done.
  - rewrite (iv_empty _ _ _ _ _ _ _ I a Hin) in Hpos. lia.
Qed.

Lemma in_partial P F E all w A rest a :
  inv P F E all w A rest -> a ∈ P ++ F ++ E -> 0 < allocated_count (span_at w a) -> span_full (span_at w a) = false -> a ∈ P.
Proof.
  intros I Hown Hpos Hf. rewrite !elem_of_app in Hown. destruct Hown as [|[Hin|Hin]]; [done| |].
  - rewrite (iv_full _ _ _ _ _ _ _ I a Hin) in Hf. done.
  - rewrite (iv_empty _ _ _ _ _ _ _ I a Hin) in Hpos. lia.
Qed.

Lemma dealloc_one s w rest ptr a all s' w' :
  sinv s w rest ((ptr, a) :: all) -> deallocateOne cfg s w ptr a = (s', w') ->
  sinv s' w' rest all /\ same_stash s s'.
Proof.
  intros [A I]. destruct (proj1 (iv_objs _ _ _ _ _ _ _ I (ptr, a)) ltac:(by left)) as [Hown (x & Hx & Ep)]. cbn in Hown, Hx, Ep. subst ptr.
  destruct (co_span _ _ _ _ (iv_core _ _ _ _ _ _ _ I) a Hown) as (H0 & Hd & Hi & Hg).
  destruct (dealloc_shape _ _ _ Hi Hx Hg) as (Hi' & Hsh & Hg' & Ec & Ea & Hpos).
  pose proof (own_nodup _ _ _ _ _ _ _ I) as Hnd. pose proof (alloc_le _ _ Hi). destruct Hg as [Hg _].
  unfold deallocateOne. set (sp' := span_deallocate _ _) in *. rewrite span_at_put, Z.eqb_refl.
  destruct (span_full (span_at w a)) eqn:Hf; [|destruct (span_empty sp') eqn:He].
  - pose proof (in_full _ _ _ _ _ _ _ _ I Hown Hpos Hf) as HaF.
    rewrite !NoDup_app in Hnd. destruct Hnd as (HnP & HPd & HnF & HFd & HnE).
    intros [= <- <-]. split; [|done]. eexists. cbn [set_lists partial_ full_ empty_].
    apply (inv_give _ _ _ _ w A rest a x sp' _ _ _ _ I); try done.
    + rewrite (unlink_perm a (full_ s)) at 1 by done. simpl. by rewrite <- Permutation_middle.
    + intros b Hb. case_decide; [|set_solver]. unfold span_full in *. b2p. apply Z.eqb_neq. lia.
    + intros b [Hb Hne]%elem_of_unlink. by case_decide.
    + intros b Hb. case_decide; [|done]. subst. set_solver.
  - pose proof (in_partial _ _ _ _ _ _ _ _ I Hown Hpos Hf) as HaP.
    set (s1 := set_lists s _ _ _). set (w1 := put_span w a sp').
    destruct (retireEmptySpan cfg s1 w1 a) as [s2 w2] eqn:Er.
    assert (Hd1 : a ∈ dom (descr w1)) by (cbn; set_solver).
    destruct (retire_quiet _ _ _ _ _ Hd1 Er) as [Q (S1 & S2 & S3 & S4 & S5 & S6 & S7 & S8)].
    intros [= <- <-]. split; [|done]. eexists. cbn [set_lists partial_ full_ empty_]. rewrite S4, S5, S6. cbn [s1 set_lists partial_ full_ empty_].
    eapply inv_quiet; [exact Q|]. rewrite !NoDup_app in Hnd. destruct Hnd as (HnP & HPd & HnF & HFd & HnE).
    apply (inv_give _ _ _ _ w A rest a x sp' _ _ _ _ I); try done.
    + rewrite (unlink_perm a (partial_ s)) at 1 by done. simpl. by rewrite <- !Permutation_middle.
    + intros b [Hb Hne]%elem_of_unlink. by case_decide.
    + intros b Hb. case_decide; [|done]. subst. set_solver.
    + intros b Hb. case_decide; [|set_solver]. unfold span_empty in He. b2p. done.
  - pose proof (in_partial _ _ _ _ _ _ _ _ I Hown Hpos Hf) as HaP.
    rewrite !NoDup_app in Hnd. destruct Hnd as (HnP & HPd & HnF & HFd & HnE).
    intros [= <- <-]. split; [|done]. eexists.
    apply (inv_give _ _ _ _ w A rest a x sp' _ _ _ _ I); try done.
    + intros b Hb. case_decide; [|done]. unfold span_full in *. b2p. apply Z.eqb_neq. lia.
    + intros b Hb. case_decide; [|done]. subst. set_solver.
    + intros b Hb. case_decide; [|done]. subst. set_solver.
Qed.

Lemma dealloc_all s w rest objs all s' w' :
  sinv s w rest (filter non_null objs ++ all) -> deallocateAll cfg s w objs = (s', w') ->
  sinv s' w' rest all /\ same_stash s s'.
Proof.
  revert s w. induction objs as [|[ptr a] objs IH]; intros s w I; cbn [deallocateAll]; [by intros [= <- <-]|].
  rewrite filter_cons in I. unfold non_null at 1 in I. cbn in I. case_decide; case_if; try lia; [|by apply IH].
  destruct (deallocateOne cfg s w ptr a) as [s1 w1] eqn:E1. intros Hd.
  destruct (dealloc_one _ _ _ _ _ _ _ _ I E1) as [I1 S1]. destruct (IH _ _ I1 Hd) as [I2 S2]. split; [done|by etransitivity].
Qed.

Lemma drain_nodes_inv s w rest nodes all s' w' :
  sinv s w rest (filter non_null (concat nodes) ++ all) -> drain_nodes cfg s w nodes = (s', w') ->
  sinv s' w' rest all /\ same_stash s s'.
Proof.
  revert s w. induction nodes as [|n nodes IH]; intros s w I; cbn [drain_nodes]; [by intros [= <- <-]|].
  cbn [concat] in I. rewrite filter_app, <- app_assoc in I.
  destruct (deallocateAll cfg s w n) as [s1 w1] eqn:E1. intros Hd.
  destruct (dealloc_all _ _ _ _ _ _ _ I E1) as [I1 S1]. destruct (IH (set_pending s1 (pending s1) (u32 (pending_depth_ s1 - 1))) w1 I1 Hd) as [I2 S2]. split; [done|].
  etransitivity; [exact S1|exact S2].
Qed.

Lemma slab_inv_sinv s w rest C : slab_inv s w rest C <-> sinv s w rest (held s ++ C).
Proof. done. Qed.

Lemma drainPending_inv s w rest C s' w' :
  slab_inv s w rest C -> drainPending cfg s w = (s', w') ->
  slab_inv s' w' rest C /\ pending s' = [] /\ size_class_ s' = size_class_ s /\ arena_id_ s' = arena_id_ s /\
  max_slots_per_page_ s' = max_slots_per_page_ s.
Proof.
  intros I Hd. unfold drainPending in Hd.
  assert (I0 : sinv (set_pending s [] (pending_depth_ s)) w rest
    (filter non_null (concat (pending s)) ++ filter non_null (concat (mags s)) ++ C)).
  { rewrite slab_inv_sinv in I. unfold held in I. rewrite filter_app, <- app_assoc in I. exact I. }
  destruct (drain_nodes_inv _ _ _ _ _ _ _ I0 Hd) as [I1 (S1 & S2 & S3 & S4 & S5)]. cbn in S1, S2, S3, S4, S5.
  splits; try done. rewrite slab_inv_sinv. unfold held. rewrite S4, S5. done.
Qed.

(** ** Releasing a span *)

Lemma release_vm created my v batch live r live' ext :
  0 <= my < kNumFreeShards -> vm_ok v batch live ext -> live ≡ₚ r :: live' ->
  let v' := releasePages false false created my v (run_addr (arena v) (page_index r)) (VmArena.page_count r) in
  vm_ok v' batch live' ext /\ flat v' = flat v /\ base_ (arena v') = base_ (arena v) /\
  contig_pages_ (arena v') = contig_pages_ (arena v).
Proof.
  intros Hmy O Hl. unfold releasePages. rewrite (vo_mode _ _ _ _ O). cbn [with_arena arena flat].
  assert (Hr : r ∈ live) by (rewrite Hl; by left).
  destruct (release_eq false created my (arena v) batch live r (vo_arena _ _ _ _ O) Hr) as (a0 & I0 & _ & E).
  pose proof (queue_inv a0 batch live r live' my (run_addr (arena v) (page_index r)) Hmy Hl I0) as I1. rewrite <- E in I1.
  set (a1 := arena_releasePages _ _ _ _ _ _ _) in *.
  assert (Ec : base_ a1 = base_ (arena v) /\ contig_pages_ a1 = contig_pages_ (arena v)).
  { unfold a1, arena_releasePages. case_if; [done|]. cbn. destruct (start_const (arena v) created) as (-> & -> & _). done. }
  destruct Ec as [Eb Ec]. splits; [|done|done|done]. constructor; cbn; rewrite ?Ec; try apply O; done.
Qed.

(** Forgetting an empty span whose pages went back. *)
Lemma inv_drop P F E all w w' A rest a :
  inv P F (a :: E) all w A rest -> (forall b, span_at w' b = span_at w b) -> dom (descr w') = dom (descr w) ->
  vm_side (P ++ F ++ E) w' rest -> inv P F E all w' A rest.
Proof.
  intros I Hat Hdom Hvm. pose proof (iv_core _ _ _ _ _ _ _ I) as K.
  assert (Hp : P ++ F ++ a :: E ≡ₚ a :: P ++ F ++ E) by (by rewrite <- !Permutation_middle).
  pose proof (own_nodup _ _ _ _ _ _ _ I) as Hnd. rewrite Hp in Hnd. apply NoDup_cons in Hnd as [Hna Hnd].
  destruct (co_span _ _ _ _ K a ltac:(set_solver)) as (_ & _ & Isp & _).
  assert (He : A a = ∅).
  { pose proof (si_alloc _ _ Isp) as Hal. rewrite (iv_empty _ _ _ _ _ _ _ I a ltac:(by left)) in Hal.
    apply leibniz_equiv, size_empty_iff. lia. }
  constructor; try (intros b Hb; rewrite Hat).
  - constructor; [done| |done]. intros b Hb. rewrite Hat, Hdom. apply (co_span _ _ _ _ K). rewrite Hp. by right.
  - by apply (iv_partial _ _ _ _ _ _ _ I).
  - by apply (iv_full _ _ _ _ _ _ _ I).
  - apply (iv_empty _ _ _ _ _ _ _ I). by right.
  - apply I.
  - intros [p b]. rewrite (iv_objs _ _ _ _ _ _ _ I), (obj_ok_perm _ _ _ _ _ Hp). unfold obj_ok. cbn. rewrite Hat, elem_of_cons.
    split; [|naive_solver]. intros [[->|Hb] (x & Hx & ->)]; [rewrite He in Hx; set_solver|naive_solver].
Qed.

Lemma release_span_inv o s P F E all w A rest a s' w' :
  oracle_ok o -> inv P F (a :: E) all w A rest -> releaseSpan cfg o s w a = (s', w') ->
  inv P F E all w' A rest /\ same_lists s s'.
Proof.
  intros [Hmy _] I. unfold releaseSpan. assert (Ha : a ∈ P ++ F ++ a :: E) by set_solver.
  destruct (co_span _ _ _ _ (iv_core _ _ _ _ _ _ _ I) a Ha) as (_ & Hd & _).
  destruct (clearResident s w a) as [s1 w1] eqn:E1. destruct (clearResident_quiet _ _ _ _ _ Hd E1) as [Q S1].
  pose proof (inv_quiet _ _ _ _ _ _ _ _ Q I) as I1. clear I Hd E1 Q w. pose proof (iv_core _ _ _ _ _ _ _ I1) as K.
  destruct (co_vm _ _ _ _ K) as (v & batch & live & ext & PO & Hl & Hb). set (sp := span_at w1 a) in *.
  rewrite Forall_forall in Hb. pose proof (Hb a Ha) as Eb. cbv beta in Eb. fold sp in Eb.
  rewrite <- (Permutation_middle F), <- (Permutation_middle P) in Hl. cbn [map app] in Hl. fold sp in Hl. set (r := span_run (arena v) sp) in *.
  destruct (live_run_bounds _ _ _ r (vo_arena _ _ _ _ (po_ok _ _ _ _ _ PO)) ltac:(rewrite Hl; by left)) as (B1 & B2 & B3).
  pose proof (ai_range _ _ _ (vo_arena _ _ _ _ (po_ok _ _ _ _ _ PO))) as Har.
  change (VmArena.page_count r) with (page_count sp) in B2, B3.
  destruct (pm_setRange_arena (span_at w1) (pmap w1) v batch live ext (page_index r) (page_count sp) 0 PO B1 B2 ltac:(lia))
    as (v1 & PO1 & (E2 & E3 & E4 & E5) & _). rewrite <- Eb in PO1.
  unfold pm_clearRange. set (w2 := w_pmap w1 _). assert (Hv1 : vm_region (pmap w2) = Some v1) by apply PO1.
  destruct (run_hook_same w2 sp) as [D2 M2]. rewrite M2, Hv1. intros [= <- <-]. split; [|done].
  destruct (release_vm (o_created o) (o_shard o) v1 batch live r _ ext Hmy (po_ok _ _ _ _ _ PO1) Hl) as (O2 & Ef & Ebase & _).
  rewrite E4, <- Eb in O2, Ef, Ebase. change (VmArena.page_count r) with (page_count sp) in O2, Ef, Ebase.
  set (v2 := releasePages _ _ _ _ _ _ _) in *. eapply inv_drop; [exact I1|intros b; unfold span_at; cbn; by rewrite D2|cbn; by rewrite D2|].
  exists v2, batch, (map (fun a => span_run (arena v) (span_at w1 a)) (P ++ F ++ E) ++ rest), ext. splits.
  - constructor; [done|exact O2|]. unfold has_tables. rewrite Ef. apply PO1.
  - apply reflexive_eq. f_equal. apply map_ext. intros b. unfold span_run, span_at. cbn. by rewrite D2, Ebase.
  - apply Forall_forall. intros b Hb'. 
    assert (Eat : forall lv, span_at (w_pmap (run_hook cfg w2 sp) lv) b = span_at w1 b)
      by (intros lv; unfold span_at; cbn; by rewrite D2).
    rewrite !Eat. unfold span_run, run_addr. rewrite Ebase. apply Hb. set_solver.
Qed.
End Ops.
