(* ===== verification/SlabCorrect.v ===== *)
(** * The slab theorems (for [Slab.v])

    Allocation, single and batched, hands out objects disjoint from all others;
    every free path returns exactly the objects it was given. *)

From stdpp Require Import functions.
From S2P Require Import Prelude BitOps Config SizeClasses PageState IntrusiveList.
From S2P Require Import Span SpanFacts SpanCorrect VmRegion PageMap Slab SlabFacts SlabOps.

#[local] Abbreviation page_count := Span.page_count.
#[local] Abbreviation Span := Span.Span.

Section Correct.
Context `{PG : PageGeometry} (cfg : SlabCfg).

(** ** Taking objects *)

Lemma sinv_span s w rest all a :
  sinv s w rest all -> a ∈ partial_ s -> exists A, span_inv (span_at w a) (A a) /\ span_full (span_at w a) = false /\
    inv (partial_ s) (full_ s) (empty_ s) all w A rest.
Proof.
  intros [A I] Ha. exists A. destruct (co_span _ _ _ _ (iv_core _ _ _ _ _ _ _ I) a ltac:(set_solver)) as (_ & _ & Hi & _).
  splits; [done|by apply (iv_partial _ _ _ _ _ _ _ I)|done].
Qed.

Lemma settle_taken s w rest all a A p sp e :
  inv (partial_ s) (full_ s) (empty_ s) all w A rest -> a ∈ partial_ s ->
  alloc_result (penv w) (span_at w a) (A a) (p, sp, e) ->
  sinv (settle_front s (w_penv (put_span w a sp) e) a) (w_penv (put_span w a sp) e) rest ((p, a) :: all).
Proof.
  intros I Ha Hr. destruct (take_partial _ _ _ _ _ _ _ a p sp e I Ha Hr) as [A' I'].
  set (w' := w_penv (put_span w a sp) e) in *.
  assert (Ew : span_at w' a = sp) by (change (span_at (put_span w a sp) a = sp); by rewrite span_at_put, Z.eqb_refl).
  destruct (settle_front_lists s w' a) as (E1 & E2 & E3 & _). exists A'. by rewrite E1, E2, E3, Ew.
Qed.

Lemma warm_from_some s w rest all a p w' fb :
  sinv s w rest all -> a ∈ partial_ s -> warm_from w a = (Some (p, w'), fb) ->
  sinv (settle_front s w' a) w' rest ((p, a) :: all).
Proof.
  intros Hs Ha. destruct (sinv_span _ _ _ _ a Hs Ha) as (A & Hi & Hf & I). unfold warm_from.
  destruct (allocateWarm _ _ _) as [[[[q sp] e]|] fb'] eqn:E; [|done]. intros [= <- <- <-].
  eapply settle_taken; [exact I|done|]. by eapply warm_some_result.
Qed.

(** No warm slot in a span that is not full: there is a fallback to take. *)
Lemma warm_from_none s w rest all a fb :
  sinv s w rest all -> a ∈ partial_ s -> warm_from w a = (None, fb) ->
  fb_any fb = true /\ exists p w', fallback_from w a fb = (Some p, w') /\ sinv (settle_front s w' a) w' rest ((p, a) :: all).
Proof.
  intros Hs Ha. destruct (sinv_span _ _ _ _ a Hs Ha) as (A & Hi & Hf & I). unfold warm_from.
  destruct (allocateWarm _ _ _) as [[[[q sp] e]|] fb'] eqn:E; [done|]. intros [= <-].
  destruct (warm_none_fallback _ _ _ _ Hi Hf E) as (Hany & [[p sp] e] & Hc & Hr). split; [done|].
  unfold fallback_from. rewrite Hc. eexists _, _. split; [done|]. by eapply settle_taken.
Qed.

Lemma alloc_from_some s w rest all a :
  sinv s w rest all -> a ∈ partial_ s ->
  exists p w', alloc_from w a = (Some p, w') /\ sinv (settle_front s w' a) w' rest ((p, a) :: all).
Proof.
  intros Hs Ha. destruct (sinv_span _ _ _ _ a Hs Ha) as (A & Hi & Hf & I).
  destruct (alloc_not_full (penv w) _ _ Hi Hf) as ([[p sp] e] & Hal & Hr). unfold alloc_from. rewrite Hal.
  eexists _, _. split; [done|]. by eapply settle_taken.
Qed.

(** Moving the warmless front to the back and an empty span to the front. *)
Lemma redirect_inv s w rest all span es E s' w' :
  sinv s w rest all -> span ∈ partial_ s -> empty_ s = es :: E -> redirect cfg s w span es E = (s', w') ->
  sinv s' w' rest all /\ (exists l, partial_ s' = es :: l) /\ span ∈ partial_ s' /\ held s' = held s /\
  span_full (span_at w' span) = false /\ same_stash s s'.
Proof.
  intros [A I] Ha He. rewrite He in I. unfold redirect. set (s1 := set_lists s _ _ _).
  destruct (recommitEmptySpan cfg s1 w es) as [s2 w2] eqn:Er.
  destruct (co_span _ _ _ _ (iv_core _ _ _ _ _ _ _ I) es ltac:(set_solver)) as (_ & Hd & _).
  destruct (recommit_quiet _ _ _ _ _ _ Hd Er) as [Q (S1 & S2 & S3 & S4 & S5 & S6 & S7 & S8)]. intros [= <- <-].
  pose proof (own_nodup _ _ _ _ _ _ _ I) as Hnd. rewrite NoDup_app in Hnd. destruct Hnd as (HnP & _).
  assert (I2 : inv (es :: unlink span (partial_ s) ++ [span]) (full_ s) E all w2 A rest).
  { eapply inv_quiet; [exact Q|]. apply promote_empty. eapply inv_relist; [..|exact I]; try done; try apply I.
    - f_equiv. rewrite (unlink_perm span (partial_ s)) at 1 by done. by rewrite Permutation_app_comm.
    - intros b. rewrite elem_of_app, elem_of_unlink. intros Hb. apply (iv_partial _ _ _ _ _ _ _ I). set_solver. }
  splits.
  - exists A. cbn. rewrite S4, S5, S6. done.
  - cbn. rewrite S4. by eexists.
  - cbn. rewrite S4. set_solver.
  - unfold held. cbn. rewrite S7, S8. done.
  - apply (iv_partial _ _ _ _ _ _ _ I2). set_solver.
  - unfold same_stash. cbn. rewrite S1, S2, S3, S7, S8. done.
Qed.

Lemma settle_held s w a : held (settle_front s w a) = held s /\ same_stash s (settle_front s w a).
Proof. unfold settle_front. by case_if. Qed.

(** Objects taken go on top of the clients' objects. *)
Lemma sinv_slab s w rest o C : sinv s w rest (o :: held s ++ C) -> slab_inv s w rest (o :: C).
Proof.
  intros [A I]. exists A. eapply inv_relist; [..|exact I]; try done; try apply I. apply Permutation_middle.
Qed.

(** ** Objects do not overlap *)

Lemma spans_disjoint own w A rest a b :
  core own w A rest -> a ∈ own -> b ∈ own -> a <> b ->
  disjoint_iv (base (span_at w a)) (page_count (span_at w a) * kPageSize)
              (base (span_at w b)) (page_count (span_at w b) * kPageSize).
Proof.
  intros K Ha Hb Hne. destruct (co_vm _ _ _ _ K) as (v & batch & live & ext & [_ O _] & Hl & Hbase).
  rewrite Forall_forall in Hbase. pose proof (Hbase a Ha) as Ea. pose proof (Hbase b Hb) as Eb. cbv beta in Ea, Eb.
  destruct (co_span _ _ _ _ K a Ha) as (_ & _ & Ia & _). destruct (co_span _ _ _ _ K b Hb) as (_ & _ & Ib & _).
  pose proof (si_pages _ _ Ia) as Pa. pose proof (si_pages _ _ Ib) as Pb.
  apply elem_of_Permutation in Ha as [l1 Hp1]. assert (Hb1 : b ∈ l1) by (rewrite Hp1 in Hb; set_solver).
  apply elem_of_Permutation in Hb1 as [l2 Hp2]. rewrite Hp1, Hp2 in Hl. cbn [map app] in Hl.
  set (ra := span_run (arena v) (span_at w a)) in *. set (rb := span_run (arena v) (span_at w b)) in *.
  assert (Hn : NoDup (pages_of live)).
  { pose proof (ai_pages _ _ _ (vo_arena _ _ _ _ O)) as Hpg. rewrite !pages_of_app in Hpg.
    assert (Hnd := NoDup_seqZ 0 (next_page_ (arena v))). rewrite <- Hpg, !NoDup_app in Hnd. naive_solver. }
  rewrite (pages_of_proper _ _ Hl), !pages_of_cons, NoDup_app in Hn. destruct Hn as (_ & Hd & _).
  assert (Epa : VmArena.page_count ra = page_count (span_at w a)) by done.
  assert (Epb : VmArena.page_count rb = page_count (span_at w b)) by done.
  clearbody ra rb. rewrite Ea, Eb. unfold disjoint_iv, run_addr. pose proof pg_pos.
  assert (page_index ra + page_count (span_at w a) <= page_index rb \/ page_index rb + page_count (span_at w b) <= page_index ra) as [|]; [|left; nia|right; nia].
  destruct (Z.le_gt_cases (page_index ra + page_count (span_at w a)) (page_index rb)); [by left|].
  destruct (Z.le_gt_cases (page_index rb + page_count (span_at w b)) (page_index ra)); [by right|]. exfalso.
  apply (Hd (Z.max (page_index ra) (page_index rb))).
  - apply elem_of_seqZ. rewrite Epa. lia.
  - apply elem_of_app. left. apply elem_of_seqZ. rewrite Epb. lia.
Qed.

(** The extent of an object. *)
Definition obj_size (w : World) (o : Obj) : Z := object_size (span_at w o.2).

Lemma objs_disjoint P F E all w A rest o q :
  inv P F E all w A rest -> o ∈ all -> q ∈ all -> o <> q ->
  disjoint_iv o.1 (obj_size w o) q.1 (obj_size w q).
Proof.
  intros I Ho Hq Hne. apply (iv_objs _ _ _ _ _ _ _ I) in Ho as [Hoa (x & Hx & Ex)].
  apply (iv_objs _ _ _ _ _ _ _ I) in Hq as [Hqa (y & Hy & Ey)]. unfold obj_size. destruct o as [p a], q as [p' b]. cbn in *.
  destruct (co_span _ _ _ _ (iv_core _ _ _ _ _ _ _ I) a Hoa) as (_ & _ & Ia & _).
  destruct (co_span _ _ _ _ (iv_core _ _ _ _ _ _ _ I) b Hqa) as (_ & _ & Ib & _).
  destruct (decide (a = b)) as [->|Hab].
  - rewrite Ex, Ey. apply (slots_disjoint _ _ _ _ Ia). intros ->. congruence.
  - pose proof (spans_disjoint _ _ _ _ a b (iv_core _ _ _ _ _ _ _ I) Hoa Hqa Hab) as Hd.
    pose proof (slot_inside _ _ _ Ia (proj1 (si_live _ _ Ia x Hx))). pose proof (slot_inside _ _ _ Ib (proj1 (si_live _ _ Ib y Hy))).
    pose proof (proj1 (si_live _ _ Ia x Hx)). pose proof (proj1 (si_live _ _ Ib y Hy)).
    pose proof (si_osz _ _ Ia). pose proof (si_osz _ _ Ib). unfold disjoint_iv in *. nia.
Qed.

(** ** Allocation *)

(** Conditions on the configuration and the slab: a valid class, a cap that
    fits the 16-bit field, a commit chunk below 2^32 pages. *)
Definition slab_params_ok (s : Slab) : Prop :=
  0 <= size_class_ s < kNumClasses /\ 0 <= currentCap cfg s < 2 ^ 16 /\ 0 <= c_chunk cfg < 2 ^ 32.

Lemma params_stash s s' : same_stash s s' -> slab_params_ok s -> slab_params_ok s'.
Proof. intros (E1 & E2 & E3 & _) Hp. unfold slab_params_ok, currentCap in *. by rewrite E1, E2, E3. Qed.

(** The span a refill works on is a partial one. *)
Lemma batch_span_inv o s w rest all r s' w' :
  oracle_ok o -> slab_params_ok s -> sinv s w rest all -> batch_span cfg o s w = (r, s', w') ->
  sinv s' w' rest all /\ same_stash s s' /\
  match r with
  | Some a => exists l, partial_ s' = a :: l
  | None => partial_ s' = [] /\ empty_ s' = []
  end.
Proof.
  intros Ho (Hsc & Hcap & Hch) Hs. unfold batch_span.
  destruct (partial_ s) as [|a l] eqn:Ep; [|intros [= <- <- <-]; splits; try done; by eexists].
  destruct (empty_ s) as [|es E] eqn:Ee.
  - destruct (allocateNewSpan cfg o s w) as [r1 w1] eqn:En. destruct Hs as [A I].
    pose proof (new_span_inv cfg o s _ _ _ _ _ _ _ _ _ Ho Hsc Hcap Hch I En) as Hn. destruct r1 as [a|].
    + intros [= <- <- <-]. destruct Hn as [A' I']. splits; [|done|by eexists].
      exists A'. cbn. rewrite ?Ep, ?Ee in *. exact I'.
    + intros [= <- <- <-]. splits; [by eexists|done|done|done].
  - set (s1 := set_lists s _ _ _). destruct (recommitEmptySpan cfg s1 w es) as [s2 w2] eqn:Er.
    destruct Hs as [A I]. rewrite Ee in I. rewrite Ep in I.
    destruct (co_span _ _ _ _ (iv_core _ _ _ _ _ _ _ I) es ltac:(set_solver)) as (_ & Hd & _).
    destruct (recommit_quiet _ _ _ _ _ _ Hd Er) as [Q (S1 & S2 & S3 & S4 & S5 & S6 & S7 & S8)]. intros [= <- <- <-].
    splits.
    + exists A. cbn. rewrite S4, S5, S6. eapply inv_quiet; [exact Q|]. by apply promote_empty.
    + unfold same_stash. cbn. rewrite S1, S2, S3, S7, S8. done.
    + cbn. rewrite S4. by eexists.
Qed.

(** What a failed refill says about the arena. *)
Lemma batch_span_fails o s w rest all s' w' :
  oracle_ok o -> slab_params_ok s -> sinv s w rest all -> batch_span cfg o s w = (None, s', w') ->
  exists v, vm_region (pmap w') = Some v /\ arena_exhausted (o_avail o) (o_shard o) (classPages (size_class_ s)) (arena v).
Proof.
  intros Ho (Hsc & _ & _) [A I]. unfold batch_span. destruct (partial_ s) as [|a l]; [|done]. destruct (empty_ s) as [|es E].
  - destruct (allocateNewSpan cfg o s w) as [[a|] w1] eqn:En; [done|]. intros [= <- <-].
    eapply allocateNewSpan_fails; [done|done|apply I|done].
  - by destruct (recommitEmptySpan _ _ _ _).
Qed.

Lemma maybeWiden_sinv s w rest all a :
  slab_params_ok s -> a ∈ partial_ s -> sinv s w rest all -> sinv s (maybeWiden cfg s w a) rest all.
Proof. intros (_ & Hcap & _) Ha [A I]. by eapply maybeWiden_inv. Qed.

(** With no partial span, [Slab::allocate] takes the first object of the span
    a refill would work on. *)
Lemma allocate_no_partial o s w :
  partial_ s = [] -> forall r,
  match (match empty_ s with
         | es :: rest =>
           let s := set_lists s (partial_ s) (full_ s) rest in
           let '(s, w) := recommitEmptySpan cfg s w es in (Some es, s, w)
         | [] => let '(r, w) := allocateNewSpan cfg o s w in (r, s, w)
         end) with
  | (None, s, w) => (None, s, w)
  | (Some span, s, w) =>
    let '(ptr, w) := alloc_from w span in
    if span_full (span_at w span)
    then (ptr, set_lists s (partial_ s) (span :: full_ s) (empty_ s), w)
    else (ptr, set_lists s (span :: partial_ s) (full_ s) (empty_ s), w)
  end = r ->
  match batch_span cfg o s w with
  | (None, s, w) => (None, s, w)
  | (Some a, s, w) => let '(ptr, w) := alloc_from w a in (ptr, settle_front s w a, w)
  end = r.
Proof.
  intros Ep r <-. unfold batch_span. rewrite Ep.
  assert (Hun : forall a, unlink a [a] = []) by (intros a; unfold unlink; rewrite filter_cons; by case_decide).
  assert (Hgo : forall s a w, partial_ s = [] ->
    (let '(ptr, w) := alloc_from w a in (ptr, settle_front (set_lists s (a :: partial_ s) (full_ s) (empty_ s)) w a, w)) =
    (let '(ptr, w) := alloc_from w a in
     if span_full (span_at w a) then (ptr, set_lists s (partial_ s) (a :: full_ s) (empty_ s), w)
     else (ptr, set_lists s (a :: partial_ s) (full_ s) (empty_ s), w))).
  { intros s1 a w1 E1. destruct (alloc_from w1 a) as [ptr w2]. unfold settle_front. case_if; [|done].
    unfold set_lists. cbn [partial_ full_ empty_]. by rewrite E1, Hun. }
  destruct (empty_ s) as [|es E] eqn:Ee.
  - destruct (allocateNewSpan cfg o s w) as [[a|] w1]; [|done].
    pose proof (Hgo s a w1 Ep) as Hg. rewrite ?Ep, ?Ee in Hg |- *. exact Hg.
  - destruct (recommitEmptySpan cfg _ w es) as [s2 w2] eqn:Er. apply Hgo. revert Er. unfold recommitEmptySpan, clearResident.
    case_if; intros [= <- _]; done.
Qed.

Lemma allocate_inv o s w rest C r s' w' :
  oracle_ok o -> slab_params_ok s -> slab_inv s w rest C -> slab_allocate cfg o s w = (r, s', w') ->
  match r with
  | Some p => exists a, slab_inv s' w' rest ((p, a) :: C)
  | None => slab_inv s' w' rest C /\ partial_ s' = [] /\ empty_ s' = [] /\
      exists v, vm_region (pmap w') = Some v /\ arena_exhausted (o_avail o) (o_shard o) (classPages (size_class_ s)) (arena v)
  end.
Proof.
  intros Ho Hp0 I0. unfold slab_allocate. destruct (drainPending cfg s w) as [s1 w1] eqn:Ed.
  destruct (drainPending_inv _ _ _ _ _ _ _ I0 Ed) as (I1 & _ & E1 & E2 & E3).
  assert (Hp : slab_params_ok s1) by (unfold slab_params_ok, currentCap in *; by rewrite E1, E2, E3).
  rewrite <- E1. clear I0 Ed Hp0 E1 E2 E3 s w. rename s1 into s, w1 into w. rewrite slab_inv_sinv in I1.
  assert (Hend : forall s0 w0 a p, held s0 = held s -> sinv (settle_front s0 w0 a) w0 rest ((p, a) :: held s ++ C) ->
    exists a', slab_inv (settle_front s0 w0 a) w0 rest ((p, a') :: C)).
  { intros s0 w0 a p Eh Hi. exists a. apply sinv_slab. by rewrite (proj1 (settle_held _ _ _)), Eh. }
  destruct (partial_ s) as [|a l] eqn:Ep.
  - intros H. rewrite <- Ep in H. apply (allocate_no_partial o s w Ep) in H.
    destruct (batch_span cfg o s w) as [[[a|] s1] w1] eqn:Eb;
      destruct (batch_span_inv _ _ _ _ _ _ _ _ Ho Hp I1 Eb) as (I2 & (_ & _ & _ & S4 & S5) & Hr);
      assert (Eh : held s1 = held s) by (unfold held; by rewrite S4, S5).
    + destruct Hr as [l El]. destruct (alloc_from_some _ _ _ _ a I2 ltac:(rewrite El; by left)) as (p & w2 & Ea & I3).
      rewrite Ea in H. injection H as <- <- <-. by apply Hend.
    + injection H as <- <- <-. rewrite slab_inv_sinv, Eh. destruct Hr. splits; try done. by eapply batch_span_fails.
  - assert (Ha : a ∈ partial_ s) by (rewrite Ep; by left).
    pose proof (maybeWiden_sinv s w rest _ a Hp Ha I1) as I2. set (w1 := maybeWiden cfg s w a) in *.
    destruct (warm_from w1 a) as [[[p w2]|] fb] eqn:Ew.
    + intros [= <- <- <-]. apply Hend; [done|]. by eapply warm_from_some.
    + destruct (warm_from_none _ _ _ _ a fb I2 Ha Ew) as (-> & p & w2 & Ef & I3). destruct (empty_ s) as [|es E] eqn:Ee.
      * rewrite Ef. intros [= <- <- <-]. by apply Hend.
      * destruct (redirect cfg s w1 a es E) as [s2 w3] eqn:Er.
        destruct (redirect_inv _ _ _ _ _ _ _ _ _ I2 Ha Ee Er) as (I4 & [l4 El4] & _ & Eh & _).
        destruct (alloc_from_some _ _ _ _ es I4 ltac:(rewrite El4; by left)) as (q & w4 & Ea & I5).
        rewrite Ea. intros [= <- <- <-]. by apply Hend.
Qed.

(** C13: [Slab::allocate] returns an object of one of the slab's spans that
    overlaps no object in clients' hands, on the pending stack or in the
    magazines, and keeps the slab invariant; it returns null only when no
    partial or empty span is left and the page arena is exhausted: the pages of a
    span no longer fit above its bump pointer, and every free run in the caller's shard and
    in the shards whose lock it could take is too short. *)
Theorem slab_allocate_correct o s w rest C r s' w' :
  oracle_ok o -> slab_params_ok s -> slab_inv s w rest C -> slab_allocate cfg o s w = (r, s', w') ->
  match r with
  | Some p => exists a, slab_inv s' w' rest ((p, a) :: C) /\
      Forall (fun q => disjoint_iv p (obj_size w' (p, a)) q.1 (obj_size w' q)) (held s' ++ C)
  | None => slab_inv s' w' rest C /\ partial_ s' = [] /\ empty_ s' = [] /\
      exists v, vm_region (pmap w') = Some v /\ arena_exhausted (o_avail o) (o_shard o) (classPages (size_class_ s)) (arena v)
  end.
Proof.
  intros Ho Hp I Hal. pose proof (allocate_inv _ _ _ _ _ _ _ _ Ho Hp I Hal) as Hr. destruct r as [p|]; [|done].
  destruct Hr as [a I']. exists a. split; [done|]. destruct I' as [A I'].
  pose proof (iv_nodup _ _ _ _ _ _ _ I') as Hnd. rewrite <- Permutation_middle in Hnd. apply NoDup_cons in Hnd as [Hnew _].
  apply Forall_forall. intros q Hq. apply (objs_disjoint _ _ _ _ _ _ _ (p, a) q I'); [set_solver|set_solver|].
  intros <-. done.
Qed.

End Correct.
