(* ===== verification/SlabBatch.v ===== *)
(** * Batched slab operations and reclamation (for [Slab.v])

    Refills of the thread caches, the free paths with their deferred and
    magazine variants, and the return of empty spans to the page arena. *)

From stdpp Require Import functions.
From S2P Require Import Prelude BitOps Config SizeClasses PageState IntrusiveList.
From S2P Require Import Span SpanFacts SpanCorrect VmRegion PageMap Slab SlabFacts SlabOps SlabCorrect.

#[local] Abbreviation page_count := Span.page_count.
#[local] Abbreviation Span := Span.Span.

Section Batch.
Context `{PG : PageGeometry} (cfg : SlabCfg).

(** The state inside the inner loop: the span worked on may have become full
    while it is still on the partial list. *)
Definition inner_inv (rest : list FreeRun) (all0 : list Obj) (span : Z) (b : batch_state) : Prop :=
  span ∈ partial_ (b_slab b) /\ NoDup (partial_ (b_slab b)) /\
  exists L, map fst L = b_out b /\
    sinv (settle_front (b_slab b) (b_world b) span) (b_world b) rest (L ++ all0).

Lemma sinv_perm s w rest l k : l ≡ₚ k -> sinv s w rest l -> sinv s w rest k.
Proof. intros Hp [A I]. exists A. eapply inv_relist; [done|exact Hp|..|exact I]; apply I. Qed.

Lemma settle_not_full s w a : span_full (span_at w a) = false -> settle_front s w a = s.
Proof. unfold settle_front. by intros ->. Qed.

(** A full span has nothing to offer. *)
Lemma full_warm_none s w rest all a r fb :
  sinv (settle_front s w a) w rest all -> span_full (span_at w a) = true ->
  warm_from w a = (r, fb) -> r = None /\ fb_any fb = false.
Proof.
  intros [A I] Hf Hw.
  assert (Ha : a ∈ full_ (settle_front s w a)) by (unfold settle_front; rewrite Hf; by left).
  destruct (co_span _ _ _ _ (iv_core _ _ _ _ _ _ _ I) a ltac:(set_solver)) as (_ & _ & Hi & _).
  assert (Hv : visited (span_at w a) = []).
  { destruct (visited (span_at w a)) as [|x l] eqn:Ev; [done|]. exfalso.
    assert (Hx : x ∈ visited (span_at w a)) by (rewrite Ev; by left). apply (elem_of_visited _ _ _ Hi) in Hx as [Hx Hfree].
    pose proof (zcount_pos (free_bit (bitmap (span_at w a))) (Z.to_nat (full_capacity (span_at w a))) x ltac:(lia) Hfree).
    pose proof (si_count _ _ Hi). unfold span_full in Hf. b2p. lia. }
  unfold warm_from in Hw. rewrite (allocateWarm_pref _ _ _ _ Hi), Hv in Hw. cbn in Hw. by injection Hw as <- <-.
Qed.

(** Giving back the object just taken, at a page boundary. *)
Lemma untake s w rest p a all :
  NoDup (partial_ s) -> a ∈ partial_ s -> sinv (settle_front s w a) w rest ((p, a) :: all) ->
  sinv s (put_span w a (span_deallocate (span_at w a) p)) rest all.
Proof.
  intros HnP Ha [A I]. destruct (settle_front_lists s w a) as (E1 & E2 & E3 & _). rewrite E1, E2, E3 in I.
  destruct (proj1 (iv_objs _ _ _ _ _ _ _ I (p, a)) ltac:(by left)) as [Hown (x & Hx & Ep)]. cbn in Hown, Hx, Ep. subst p.
  destruct (co_span _ _ _ _ (iv_core _ _ _ _ _ _ _ I) a Hown) as (H0 & Hd & Hi & Hg).
  destruct (dealloc_shape _ _ _ Hi Hx Hg) as (Hi' & Hsh & Hg' & Ec & Ea & Hpos). pose proof (alloc_le _ _ Hi).
  pose proof (own_nodup _ _ _ _ _ _ _ I) as Hnd.
  assert (Hperm : (if span_full (span_at w a) then unlink a (partial_ s) else partial_ s) ++
    (if span_full (span_at w a) then a :: full_ s else full_ s) ++ empty_ s ≡ₚ partial_ s ++ full_ s ++ empty_ s).
  { case_if; [|done]. rewrite (unlink_perm a (partial_ s)) at 2 by done. simpl. by rewrite <- Permutation_middle. }
  pose proof Hnd as Hnd2. rewrite Hperm, !NoDup_app in Hnd2. destruct Hnd2 as (_ & HPd & _).
  eexists. set (sp' := span_deallocate _ _) in *. apply (inv_give _ _ _ _ w A rest a x sp' _ _ _ _ I); try done.
  - intros b Hb. case_decide as Hba; [unfold span_full; apply Z.eqb_neq; lia|]. case_if; [|done]. by apply elem_of_unlink.
  - intros b Hb. case_decide as Hba; [subst; set_solver|]. case_if; [by right|done].
  - intros b Hb. case_decide as Hba; [subst; set_solver|done].
Qed.

Lemma sinv_partial_nodup s w rest all : sinv s w rest all -> NoDup (partial_ s).
Proof. intros [A I]. pose proof (own_nodup _ _ _ _ _ _ _ I) as Hn. rewrite NoDup_app in Hn. apply Hn. Qed.

(** Taking one more object inside the loop. *)
Lemma inner_inv_take rest all0 span b L p w' :
  span ∈ partial_ (b_slab b) -> NoDup (partial_ (b_slab b)) -> map fst L = b_out b ->
  sinv (settle_front (b_slab b) w' span) w' rest ((p, span) :: L ++ all0) ->
  inner_inv rest all0 span (mkBatch (b_slab b) w' (b_out b ++ [p]) (b_redirected b)).
Proof.
  intros Ha Hnp HL I. split; [done|]. split; [done|]. exists (L ++ [(p, span)]). split; [by rewrite map_app, HL|].
  eapply sinv_perm; [|exact I]. rewrite <- app_assoc. simpl. apply Permutation_middle.
Qed.

(** What the inner loop guarantees: the invariant, at most [count] objects,
    and progress unless the batch is complete. *)
Definition inner_post (rest : list FreeRun) (all0 : list Obj) (span count : Z) (b : batch_state) (r : inner_exit * batch_state) : Prop :=
  let b' := r.2 in
  zlen (b_out b) <= zlen (b_out b') <= count /\
  match r.1 with
  | InnerBreak => inner_inv rest all0 span b' /\ same_stash (b_slab b) (b_slab b') /\
      (b_redirected b = true -> b_redirected b' = true) /\
      (span_full (span_at (b_world b) span) = false -> zlen (b_out b) < count ->
         zlen (b_out b) < zlen (b_out b') \/ b_redirected b = false /\ b_redirected b' = true)
  | InnerReturn => c_page_local cfg = true /\ same_stash (b_slab b) (b_slab b') /\
      exists L, map fst L = b_out b' /\ sinv (b_slab b') (b_world b') rest (L ++ all0)
  end.

Lemma inner_post_more rest all0 span count b w' p r :
  zlen (b_out b) < count -> span ∈ partial_ (b_slab b) ->
  inner_post rest all0 span count (mkBatch (b_slab b) w' (b_out b ++ [p]) (b_redirected b)) r ->
  inner_post rest all0 span count b r.
Proof.
  intros Hlt Ha. unfold inner_post. cbn [b_out b_slab b_redirected b_world].
  rewrite zlen_app. change (zlen [p]) with 1. intros [Hz Hr]. split; [lia|].
  destruct r as [[|] b']; cbn in *; [|done]. destruct Hr as (H1 & H2 & H3 & _). splits; try done. intros _ _. left. lia.
Qed.

(** The branch that keeps or returns an object just taken. *)
Lemma inner_take_post fuel rest all0 span count (b : batch_state) (L : list Obj) ptr w' (fp : Z) (fib : bool) :
  (forall (b : batch_state) (fp : Z) (fib : bool), count - zlen (b_out b) <= Z.of_nat fuel -> zlen (b_out b) <= count -> inner_inv rest all0 span b ->
     inner_post rest all0 span count b (batch_inner cfg fuel span count b fp fib)) ->
  count - zlen (b_out b) <= Z.of_nat (S fuel) -> zlen (b_out b) < count ->
  span ∈ partial_ (b_slab b) -> NoDup (partial_ (b_slab b)) -> map fst L = b_out b ->
  sinv (settle_front (b_slab b) w' span) w' rest ((ptr, span) :: L ++ all0) ->
  inner_post rest all0 span count b
    (if c_page_local cfg then
       if fib
       then batch_inner cfg fuel span count (mkBatch (b_slab b) w' (b_out b ++ [ptr]) (b_redirected b)) (page_of ptr) false
       else if negb (page_of ptr =? fp)
       then (InnerReturn, mkBatch (b_slab b) (put_span w' span (span_deallocate (span_at w' span) ptr)) (b_out b) (b_redirected b))
       else batch_inner cfg fuel span count (mkBatch (b_slab b) w' (b_out b ++ [ptr]) (b_redirected b)) fp false
     else batch_inner cfg fuel span count (mkBatch (b_slab b) w' (b_out b ++ [ptr]) (b_redirected b)) fp fib).
Proof.
  intros IH Hf Hlt Ha Hnp HL I.
  assert (Hz : zlen (b_out b ++ [ptr]) = zlen (b_out b) + 1) by (rewrite zlen_app; done).
  assert (Hmore : forall fp' fib', inner_post rest all0 span count b
    (batch_inner cfg fuel span count (mkBatch (b_slab b) w' (b_out b ++ [ptr]) (b_redirected b)) fp' fib')).
  { intros fp' fib'. eapply inner_post_more; [done|done|]. apply IH; cbn [b_out]; [lia|lia|]. by eapply inner_inv_take. }
  destruct (c_page_local cfg) eqn:Epl; [|by apply Hmore]. do 2 (case_if; [try by apply Hmore|]); [|by apply Hmore].
  unfold inner_post. cbn. splits; try done; try lia. exists L. split; [done|]. by apply untake.
Qed.

Lemma batch_inner_inv fuel rest all0 span count b fp fib :
  count - zlen (b_out b) <= Z.of_nat fuel -> zlen (b_out b) <= count -> inner_inv rest all0 span b ->
  inner_post rest all0 span count b (batch_inner cfg fuel span count b fp fib).
Proof.
  revert b fp fib. induction fuel as [|fuel IH]; intros b fp fib Hf Hle Hin; cbn [batch_inner].
  { unfold inner_post. cbn. splits; try done; lia. }
  case_if.
  { unfold inner_post. cbn. splits; try done; lia. }
  destruct Hin as (Ha & Hnp & L & HL & I). destruct (warm_from (b_world b) span) as [r fb] eqn:Ew.
  destruct (span_full (span_at (b_world b) span)) eqn:Hfull.
  { destruct (full_warm_none _ _ _ _ _ _ _ I Hfull Ew) as [-> ->]. unfold inner_post. cbn [fst snd]. rewrite Hfull.
    splits; try done; try lia. unfold inner_inv. splits; try done. by exists L. }
  rewrite settle_not_full in I by done. destruct r as [[ptr w']|].
  { apply (inner_take_post fuel rest all0 span count b L ptr w' fp fib); [exact IH|lia|lia|done|done|done|].
    by eapply warm_from_some. }
  destruct (warm_from_none _ _ _ _ _ _ I Ha Ew) as (-> & ptr & w' & Efb & I').
  destruct (if b_redirected b then [] else empty_ (b_slab b)) as [|es E1] eqn:Ee.
  { rewrite Efb. apply (inner_take_post fuel rest all0 span count b L ptr w' fp fib); try done; lia. }
  destruct (b_redirected b) eqn:Er; [done|]. destruct (redirect cfg _ _ span es E1) as [s2 w2] eqn:Ered.
  destruct (redirect_inv cfg _ _ _ _ _ _ _ _ _ I Ha Ee Ered) as (I2 & _ & Hin2 & _ & Hnf2 & Hst).
  unfold inner_post. cbn. splits; try done; try lia.
  unfold inner_inv. splits; [done|by eapply sinv_partial_nodup|]. exists L. split; [done|]. by rewrite settle_not_full.
Qed.

(** The outer loop: with a turn per missing object and one for the redirect
    it completes, and stops short only for want of pages or at a page
    boundary. *)
Lemma batch_outer_inv fuel os rest all0 count b L :
  (forall n, oracle_ok (os n)) -> slab_params_ok cfg (b_slab b) ->
  zlen (b_out b) <= count -> map fst L = b_out b -> sinv (b_slab b) (b_world b) rest (L ++ all0) ->
  count - zlen (b_out b) + (if b_redirected b then 0 else 1) < Z.of_nat fuel ->
  exists b' L', batch_outer cfg fuel os count b = Some b' /\ map fst L' = b_out b' /\
    sinv (b_slab b') (b_world b') rest (L' ++ all0) /\ same_stash (b_slab b) (b_slab b') /\ zlen (b_out b') <= count /\
    (c_page_local cfg = false -> zlen (b_out b') = count \/ partial_ (b_slab b') = [] /\ empty_ (b_slab b') = []).
Proof.
  intros Hos. revert b L. induction fuel as [|fuel IH]; intros b L Hp Hle HL I Hf.
  { destruct (b_redirected b); lia. }
  cbn [batch_outer]. case_if; [exists b, L; splits; try done; left; lia|].
  destruct (batch_span cfg (os fuel) (b_slab b) (b_world b)) as [[r s1] w1] eqn:Eb.
  destruct (batch_span_inv cfg _ _ _ _ _ _ _ _ (Hos fuel) Hp I Eb) as (I1 & St1 & Hr). destruct r as [a|].
  2:{ eexists _, L. split; [done|]. splits; try done. by right. }
  destruct Hr as [l El]. assert (Ha : a ∈ partial_ s1) by (rewrite El; by left).
  pose proof (params_stash cfg _ _ St1 Hp) as Hp1. pose proof (maybeWiden_sinv cfg s1 w1 rest _ a Hp1 Ha I1) as I2.
  set (w2 := maybeWiden cfg s1 w1 a) in *. set (b1 := mkBatch s1 w2 (b_out b) (b_redirected b)).
  destruct (sinv_span _ _ _ _ a I2 Ha) as (_ & _ & Hnf & _).
  assert (Hin : inner_inv rest all0 a b1).
  { unfold inner_inv. splits; [done|by eapply sinv_partial_nodup|]. exists L. split; [done|]. cbn. by rewrite settle_not_full. }
  pose proof (batch_inner_inv (Z.to_nat count) rest all0 a count b1 0 (zlen (b_out b) =? 0)) as Hpost.
  specialize (Hpost ltac:(cbn; pose proof (zlen_nonneg (b_out b)); lia) Hle Hin).
  destruct (batch_inner _ _ _ _ b1 _ _) as [[|] b2]; unfold inner_post in Hpost; cbn in Hpost.
  - destruct Hpost as (Hz & (Ha2 & Hnp2 & L2 & HL2 & I3) & St2 & Hred & Hprog).
    destruct (settle_held (b_slab b2) (b_world b2) a) as [_ St3].
    assert (St : same_stash (b_slab b) (settle_front (b_slab b2) (b_world b2) a))
      by (etransitivity; [exact St1|]; etransitivity; [exact St2|exact St3]).
    destruct (IH (mkBatch (settle_front (b_slab b2) (b_world b2) a) (b_world b2) (b_out b2) (b_redirected b2)) L2) as (b' & L' & H1 & H2 & H3 & H4 & H5 & H6);
      [by eapply params_stash|cbn; lia|done|done| |].
    + cbn. revert Hprog Hred Hf. destruct (b_redirected b), (b_redirected b2); cbn; intros Hprog Hred Hf;
        destruct (Hprog Hnf ltac:(lia)) as [|[]]; try done; try lia.
    + exists b', L'. splits; try done. by etransitivity.
  - destruct Hpost as (Hz & Hpl & St2 & L2 & HL2 & I3). exists b2, L2. splits; try done; [by etransitivity|lia|congruence].
Qed.

(** ** Properties *)

(** A refill always completes: [Slab::allocateBatch] returns at most
    [count] objects, distinct from each other and from every object handed
    out before and still out, and keeps the slab invariant; without page-local
    batching it returns fewer than asked only when the slab has no span left and
    the page arena is exhausted. *)
Lemma allocateBatch_correct os s w rest C count :
  (forall n, oracle_ok (os n)) -> slab_params_ok cfg s -> slab_inv s w rest C -> 0 <= count ->
  exists b L, allocateBatch cfg os s w count = Some b /\ map fst L = b_out b /\
    slab_inv (b_slab b) (b_world b) rest (L ++ C) /\ zlen (b_out b) <= count /\
    (forall o q, o ∈ L -> q ∈ L ++ C -> o <> q ->
       disjoint_iv o.1 (obj_size (b_world b) o) q.1 (obj_size (b_world b) q)) /\
    (c_page_local cfg = false -> zlen (b_out b) = count \/ partial_ (b_slab b) = [] /\ empty_ (b_slab b) = []).
Proof.
  intros Hos Hp I Hc. unfold allocateBatch. destruct (drainPending cfg s w) as [s1 w1] eqn:Ed.
  destruct (drainPending_inv _ _ _ _ _ _ _ I Ed) as (I1 & _ & E1 & E2 & E3).
  assert (Hp1 : slab_params_ok cfg s1) by (unfold slab_params_ok, currentCap in *; by rewrite E1, E2, E3).
  destruct (batch_outer_inv (Z.to_nat count + 2) os rest (held s1 ++ C) count (mkBatch s1 w1 [] false) [] Hos Hp1)
    as (b & L & Hb & HL & I2 & (_ & _ & _ & S4 & S5) & Hz & Hfull); [done|done|exact I1|change (zlen (b_out _)) with 0; cbn [b_redirected]; lia|].
  assert (Eh : held (b_slab b) = held s1) by (unfold held; by rewrite S4, S5).
  assert (I3 : slab_inv (b_slab b) (b_world b) rest (L ++ C)).
  { rewrite slab_inv_sinv, Eh. eapply sinv_perm; [|exact I2]. rewrite !app_assoc. f_equiv. apply Permutation_app_comm. }
  exists b, L. splits; try done. destruct I3 as [A I3]. intros o q Ho Hq Hne.
  apply (objs_disjoint _ _ _ _ _ _ _ o q I3); [set_solver|set_solver|done].
Qed.

Lemma held_push s objs : held (pushPending s objs) = filter non_null objs ++ held s.
Proof. unfold held, pushPending. cbn [pending mags set_pending concat]. by rewrite <- app_assoc, filter_app. Qed.

Lemma dealloc_resolved_inv s w rest objs C s' w' :
  slab_inv s w rest (filter non_null objs ++ C) -> deallocateBatchResolved cfg s w objs = (s', w') -> slab_inv s' w' rest C.
Proof.
  intros I. unfold deallocateBatchResolved. destruct (drainPending cfg s w) as [s1 w1] eqn:Ed.
  destruct (drainPending_inv _ _ _ _ _ _ _ I Ed) as (I1 & _). intros Hd.
  assert (I2 : sinv s1 w1 rest (filter non_null objs ++ held s1 ++ C)).
  { eapply sinv_perm; [|exact I1]. rewrite !app_assoc. f_equiv. apply Permutation_app_comm. }
  destruct (dealloc_all _ _ _ _ _ _ _ _ I2 Hd) as [I3 (_ & _ & _ & S4 & S5)].
  rewrite slab_inv_sinv. unfold held. rewrite S4, S5. exact I3.
Qed.

(** Freeing a batch returns exactly its objects, whatever the contention:
    applied at once or parked on the pending stack, the objects leave the
    clients' hands, none is lost or returned twice, and every other object
    stays as it was.  Entries with no span are skipped. *)
Lemma deallocateBatchDeferred_correct free s w rest objs C s' w' :
  slab_inv s w rest (filter non_null objs ++ C) ->
  deallocateBatchDeferred cfg free s w objs = (s', w') -> slab_inv s' w' rest C.
Proof.
  intros I. unfold deallocateBatchDeferred. destruct objs as [|o objs]; [by intros [= <- <-]|]. set (l := o :: objs) in *.
  case_if; [case_if|]; try (by apply dealloc_resolved_inv). intros [= <- <-].
  rewrite slab_inv_sinv, held_push. eapply sinv_perm; [|exact I]. rewrite !app_assoc. f_equiv. apply Permutation_app_comm.
Qed.

(** The magazine depot is a faithful detour: a batch that is pushed stays
    accounted for until it is popped by a refill, with no object lost, duplicated
    or overlapping; a full depot refuses the batch and changes nothing. *)
Lemma magazines_correct s w rest C :
  (forall objs, slab_inv s w rest (filter non_null objs ++ C) ->
     match magazinePush s objs with
     | (true, s') => slab_inv s' w rest C /\ zlen (mags s') = zlen (mags s) + 1
     | (false, s') => s' = s /\ kMaxMagazines <= mag_count_ s
     end) /\
  (slab_inv s w rest C ->
     let '(m, s') := magazinePop s in slab_inv s' w rest (filter non_null m ++ C) /\ (m = [] -> held s' = held s)).
Proof.
  split.
  - intros objs I. unfold magazinePush. case_if; [done|]. split; [|cbn [mags set_mags]; rewrite zlen_cons; lia].
    rewrite slab_inv_sinv in *. unfold held in *. cbn [set_mags pending mags concat].
    eapply sinv_perm; [|exact I]. rewrite !filter_app, <- !app_assoc.
    apply Permutation_app_head. rewrite !app_assoc. apply Permutation_app_tail, Permutation_app_comm.
  - intros I. unfold magazinePop. destruct (mags s) as [|m ms] eqn:Em; [done|].
    split; [|intros ->; unfold held; cbn; by rewrite Em]. rewrite slab_inv_sinv in *. unfold held in *. cbn [set_mags pending mags].
    rewrite Em in I. cbn [concat] in I. eapply sinv_perm; [|exact I]. rewrite !filter_app, <- !app_assoc.
    apply Permutation_app_head. rewrite !app_assoc. apply Permutation_app_tail, Permutation_app_comm.
Qed.

Lemma drain_mags_inv s w rest ms all s' w' :
  sinv s w rest (filter non_null (concat ms) ++ all) -> drain_mags cfg s w ms = (s', w') ->
  sinv s' w' rest all /\ pending s' = pending s /\ (ms <> [] \/ mags s = [] -> mags s' = []).
Proof.
  revert s w. induction ms as [|m ms IH]; intros s w I; cbn [drain_mags]; [intros [= <- <-]; naive_solver|].
  cbn [concat] in I. rewrite filter_app, <- app_assoc in I. set (s0 := set_mags s ms _).
  destruct (deallocateAll cfg s0 w m) as [s1 w1] eqn:E1. intros Hd.
  assert (I0 : sinv s0 w rest (filter non_null m ++ filter non_null (concat ms) ++ all)) by exact I.
  destruct (dealloc_all _ _ _ _ _ _ _ _ I0 E1) as [I1 (_ & _ & _ & S4 & S5)]. destruct (IH _ _ I1 Hd) as (I2 & P2 & M2).
  splits; [done|by rewrite P2, S4|]. intros _. apply M2. destruct ms as [|m' ms]; [right; by rewrite S5|by left].
Qed.

Lemma release_spans_inv o s w rest all l s' w' :
  oracle_ok o -> empty_ s = l -> sinv s w rest all -> release_spans cfg o s w l = (s', w') ->
  sinv s' w' rest all /\ empty_ s' = [] /\ pending s' = pending s /\ mags s' = mags s /\ partial_ s' = partial_ s /\ full_ s' = full_ s.
Proof.
  intros Ho. revert s w. induction l as [|a l IH]; intros s w He I; cbn [release_spans]; [by intros [= <- <-]|].
  set (s1 := set_lists s _ _ l). destruct (releaseSpan cfg o s1 w a) as [s2 w2] eqn:Er. destruct I as [A I]. rewrite He in I.
  destruct (release_span_inv cfg o s1 _ _ _ _ _ _ _ _ _ _ Ho I Er) as [I2 (_ & _ & _ & S4 & S5 & S6 & S7 & S8)].
  cbn in S4, S5, S6, S7, S8. intros Hr. apply IH in Hr; [|by rewrite S6|exists A; rewrite S4, S5, S6; exact I2].
  destruct Hr as (I3 & E3 & P3 & M3 & Pa3 & Fu3). splits; try done; congruence.
Qed.

(** Scavenging gives every empty span back to the page arena and forgets
    it, after returning all deferred and magazine objects to their spans; the
    objects clients hold are untouched. *)
Lemma scavenge_correct o s w rest C s' w' :
  oracle_ok o -> slab_inv s w rest C -> scavenge cfg o true s w = (s', w') ->
  slab_inv s' w' rest C /\ empty_ s' = [] /\ pending s' = [] /\ mags s' = [].
Proof.
  intros Ho I. unfold scavenge. destruct (drainPending cfg s w) as [s1 w1] eqn:Ed.
  destruct (drainPending_inv _ _ _ _ _ _ _ I Ed) as (I1 & Hp1 & _). unfold drainMagazines.
  destruct (drain_mags cfg s1 w1 (mags s1)) as [s2 w2] eqn:Em. rewrite slab_inv_sinv in I1. unfold held in I1. rewrite Hp1 in I1.
  destruct (drain_mags_inv _ _ _ _ _ _ _ I1 Em) as (I2 & P2 & M2). intros Hr.
  destruct (release_spans_inv _ _ _ _ _ _ _ _ Ho eq_refl I2 Hr) as (I3 & E3 & P3 & M3 & _).
  assert (Hm : mags s2 = []) by (apply M2; destruct (mags s1); [by right|by left]).
  splits; try done; [|congruence|congruence]. rewrite slab_inv_sinv. unfold held. rewrite P3, M3, P2, Hp1, Hm. exact I3.
Qed.

End Batch.

Section Witnesses.
#[local] Existing Instance pages4K.

Definition demo_cfg : SlabCfg := mkCfg true true None None (64 * 2 ^ 20) 0 false.
Definition top_descr (w : World) : Z := 1 + map_fold (fun k _ m => Z.max k m) 0 (descr w).
Definition demo_oracle : Oracle := mkOracle 3 (fun _ => true) true top_descr (fun _ => None).
Definition demo_world : World := mkWorld ∅ (mkPageMap ∅ (Some demo_vm1)) demo_env 0 0 [].
Definition demo_slab : Slab := slab_init 2 0 0.

Lemma map_fold_max (m : gmap Z Span) :
  0 <= map_fold (fun k _ m => Z.max k m) 0 m /\ forall k, k ∈ dom m -> k <= map_fold (fun k _ m => Z.max k m) 0 m.
Proof.
  apply (map_fold_weak_ind (fun r m => 0 <= r /\ forall k, k ∈ dom m -> k <= r)); [set_solver|].
  intros i x m' r Hi [Hr IH]. split; [lia|]. intros k. rewrite dom_insert, elem_of_union, elem_of_singleton.
  intros [->|Hk]; [lia|]. specialize (IH k Hk). lia.
Qed.

Lemma demo_oracle_ok : oracle_ok demo_oracle.
Proof.
  constructor; [done|]. intros w. cbn. unfold top_descr. destruct (map_fold_max (descr w)) as [H0 Hd].
  split; [lia|]. intros Hin. specialize (Hd _ Hin). lia.
Qed.

Lemma demo_slab_inv : slab_inv demo_slab demo_world [] [].
Proof.
  exists (fun _ => ∅). constructor; try done; try set_solver.
  - constructor; [constructor|set_solver|]. exists demo_vm1, [], [], {[ 20 := 100 ]}. splits; [exact demo_pm_ok|done|done].
  - constructor.
  - intros o. unfold obj_ok. cbn. split; [set_solver|]. intros [? _]. set_solver.
Qed.

Lemma demo_params_ok : slab_params_ok demo_cfg demo_slab.
Proof. splits; done. Qed.

Lemma slab_allocate_correct_witness :
  exists a s' w', slab_allocate demo_cfg demo_oracle demo_slab demo_world = (Some 4194304, s', w') /\
    slab_inv s' w' [] [(4194304, a)].
Proof.
  destruct (slab_allocate demo_cfg demo_oracle demo_slab demo_world) as [[r s'] w'] eqn:E.
  assert (Er : r = Some 4194304).
  { transitivity (slab_allocate demo_cfg demo_oracle demo_slab demo_world).1.1; [by rewrite E|vm_compute; reflexivity]. }
  subst r. destruct (slab_allocate_correct demo_cfg demo_oracle demo_slab demo_world [] [] (Some 4194304) s' w'
    demo_oracle_ok demo_params_ok demo_slab_inv E) as (a & I & _).
  exists a, s', w'. split; [reflexivity|exact I].
Defined.

(** Two objects taken from the empty slab. *)
Lemma demo_batch : exists s w L, slab_inv s w [] (filter non_null L ++ []) /\ map fst L = [4194304; 4194352].
Proof.
  destruct (batch_outer_inv demo_cfg 4 (fun _ => demo_oracle) [] [] 2 (mkBatch demo_slab demo_world [] false) [])
    as (b & L & Hb & HL & I & St & _); [intros; exact demo_oracle_ok|exact demo_params_ok|done|done|exact demo_slab_inv|reflexivity|].
  assert (HL2 : forall o, o ∈ L -> non_null o).
  { intros o Ho. destruct I as [A I]. destruct (proj1 (iv_objs _ _ _ _ _ _ _ I o) (proj2 (elem_of_app _ _ _) (or_introl Ho))) as [Hown _].
    by destruct (co_span _ _ _ _ (iv_core _ _ _ _ _ _ _ I) _ Hown) as [? _]. }
  exists (b_slab b), (b_world b), L. rewrite filter_all by done. split.
  - rewrite slab_inv_sinv. destruct St as (_ & _ & _ & S4 & S5). unfold held. rewrite S4, S5. exact I.
  - rewrite HL. transitivity (from_option b_out [] (batch_outer demo_cfg 4 (fun _ => demo_oracle) 2 (mkBatch demo_slab demo_world [] false)));
      [by rewrite Hb|vm_compute; reflexivity].
Qed.
End Witnesses.
