(* ===== verification/ThreadCache.v ===== *)
(** * Thread caches (src/core/thread_cache.h, src/smash_heap.cpp)

    A thread cache holds, per lane and size class, an array of pointers used
    as a stack and its count.  Refills come from a slab in batches, drains
    resolve each pointer's span and route it to the slab of the span's arena,
    grouping by arena with a counting sort. *)

From S2P Require Import Prelude BitOps Config SizeClasses PageState.
From S2P Require Import Span VmRegion PageMap Slab.

#[local] Abbreviation Span := Span.Span.

(* include/smash/config.h:249-253 kThreadCacheMaxPerClass *)
Definition kThreadCacheMaxPerClass : Z := 256.
(* include/smash/config.h:254-258 kThreadCacheBatchSize *)
Definition kThreadCacheBatchSize : Z := 128.
(* src/core/thread_cache.h:47-51 ThreadCache::kCacheLanes *)
Definition kCacheLanes : Z := 16.
(* src/core/thread_cache.h:52-54 ThreadCache::kPerLaneDepth *)
Definition kPerLaneDepth : Z := kThreadCacheMaxPerClass / kCacheLanes.

(* src/core/thread_cache.h:56-71 ThreadCache *)
Record ThreadCache := mkTC { ptrs_ : list (list Z); counts_ : list Z }.

(* src/core/thread_cache.h:73-76 ThreadCache::idx *)
Definition tc_idx (arena sc : Z) : Z := Z.land arena (kCacheLanes - 1) * kNumClasses + sc.

Definition lane_ptrs (tc : ThreadCache) (i : Z) : list Z := zget [] (ptrs_ tc) i.
Definition lane_count (tc : ThreadCache) (i : Z) : Z := zget 0 (counts_ tc) i.
Definition set_lane (tc : ThreadCache) (i : Z) (ps : list Z) (n : Z) : ThreadCache :=
  mkTC (zset (ptrs_ tc) i ps) (zset (counts_ tc) i n).

(* src/core/thread_cache.h:81-84 ThreadCache::ThreadCache *)
Definition tc_init (garbage : list (list Z)) : ThreadCache :=
  mkTC garbage (replicate (Z.to_nat (kCacheLanes * kNumClasses)) 0).

(* src/core/thread_cache.h:87-93 ThreadCache::allocate *)
Definition tc_allocate (tc : ThreadCache) (sc arena : Z) : option Z * ThreadCache :=
  let i := tc_idx arena sc in
  let c := lane_count tc i in
  if 0 <? c
  then (Some (zget 0 (lane_ptrs tc i) (c - 1)), set_lane tc i (lane_ptrs tc i) (c - 1))
  else (None, tc).

(* src/core/thread_cache.h:97-103 ThreadCache::allocate *)
Fixpoint tc_allocate_any (tc : ThreadCache) (sc : Z) (arenas : list Z) : option Z * ThreadCache :=
  match arenas with
  | [] => (None, tc)
  | a :: arenas =>
    if 0 <? lane_count tc (tc_idx a sc) then tc_allocate tc sc a else tc_allocate_any tc sc arenas
  end.

(* src/core/thread_cache.h:106-113 ThreadCache::deallocate *)
Definition tc_deallocate (tc : ThreadCache) (sc arena ptr : Z) : bool * ThreadCache :=
  let i := tc_idx arena sc in
  let c := lane_count tc i in
  if c <? kPerLaneDepth
  then (true, set_lane tc i (zset (lane_ptrs tc i) c ptr) (u16 (c + 1)))
  else (false, tc).

(* src/core/thread_cache.h:120-122 ThreadCache::isFull *)
Definition tc_isFull (tc : ThreadCache) (sc arena : Z) : bool := kPerLaneDepth <=? lane_count tc (tc_idx arena sc).
(* src/core/thread_cache.h:128-130 ThreadCache::isEmpty *)
Definition tc_isEmpty (tc : ThreadCache) (sc arena : Z) : bool := lane_count tc (tc_idx arena sc) =? 0.
(* src/core/thread_cache.h:158-161 ThreadCache::reset *)
Definition tc_reset (tc : ThreadCache) : ThreadCache :=
  mkTC (ptrs_ tc) (replicate (Z.to_nat (kCacheLanes * kNumClasses)) 0).

(** Writing a batch at the start of an array. *)
Definition overwrite (batch arr : list Z) : list Z := batch ++ drop (length batch) arr.

Section Traffic.
Context `{PG : PageGeometry} (cfg : SlabCfg) (magazines defer_free : bool).

(** The pointers a magazine or a slab batch leaves in the lane; [None] if the
    batch does not complete. *)
(* src/smash_heap.cpp:87-109 ThreadCache::refill *)
Definition tc_refill (os : nat -> Oracle) (tc : ThreadCache) (sc arena : Z) (s : Slab) (w : World)
    : option (option Z * ThreadCache * Slab * World) :=
  let i := tc_idx arena sc in
  let batch := if kPerLaneDepth <? kThreadCacheBatchSize then kPerLaneDepth else kThreadCacheBatchSize in
  let keep (got : list Z) (s : Slab) (w : World) :=
    let ps := overwrite got (lane_ptrs tc i) in
    Some (Some (zget 0 ps (zlen got - 1)), set_lane tc i ps (u16 (zlen got - 1)), s, w) in
  let slow (s : Slab) :=
    match allocateBatch cfg os s w batch with
    | None => None
    | Some b =>
      if zlen (b_out b) =? 0 then Some (None, tc, b_slab b, b_world b) else keep (b_out b) (b_slab b) (b_world b)
    end in
  if magazines then
    let '(m, s) := magazinePop s in
    if 0 <? zlen m then keep (map fst m) s w else slow s
  else slow s.

(** The flat table serves arena addresses, the radix tree the others; the
    fast table's bounds are those of the region attached to the page map. *)
(* src/smash_heap.cpp:125-131 resolveSpanForDrain *)
Definition resolveSpanForDrain (w : World) (p : Z) : Z :=
  match vm_region (pmap w) with
  | Some v =>
    match flat v with
    | Some f =>
      let off := u64 (p - base_ (arena v)) in
      if off <? contig_pages_ (arena v) * kPageSize
      then rd 0 (page_to_span f) (Z.shiftr off kPageShift)
      else pm_get (pmap w) p
    | None => pm_get (pmap w) p
    end
  | None => pm_get (pmap w) p
  end.

(** [free] is the outcome of the slab's [tryLock]. *)
(* src/smash_heap.cpp:134-158 dispatchToSlab *)
Definition dispatchToSlab (free : bool) (s : Slab) (w : World) (objs : list Obj) : Slab * World :=
  let '(pushed, s) := if magazines then magazinePush s objs else (false, s) in
  if pushed then (s, w)
  else if defer_free then deallocateBatchDeferred cfg free s w objs
  else deallocateBatchResolved cfg s w objs.

(** The arena a resolved pointer is routed to. *)
(* src/smash_heap.cpp:177-181 drainRangeToSlabs *)
Definition drain_arena (total_arenas : Z) (w : World) (span : Z) : Z :=
  let arena := if negb (span =? 0) && negb (is_large (span_at w span)) then arena_id (span_at w span) else 0 in
  if total_arenas <=? arena then 0 else arena.

(** The slab array and the world, threaded through the dispatches. *)
Definition send (free : Z -> bool) (sc : Z) (st : list Slab * World) (a : Z) (objs : list Obj) : list Slab * World :=
  let '(slabs, w) := st in
  let i := a * kNumClasses + sc in
  let '(s, w) := dispatchToSlab (free i) (zget (slab_init 0 0 0) slabs i) w objs in
  (zset slabs i s, w).

(** Counting sort, step by step. *)
(* src/smash_heap.cpp:189-190 drainRangeToSlabs *)
Definition count_arenas (total : Z) (arenas : list Z) : list Z :=
  foldl (fun c a => zset c a (zget 0 c a + 1)) (replicate (Z.to_nat total) 0) arenas.

(* src/smash_heap.cpp:191-195 drainRangeToSlabs *)
Fixpoint prefix_sums (acc : Z) (counts : list Z) : list Z :=
  match counts with
  | [] => []
  | c :: counts => acc :: prefix_sums (acc + c) counts
  end.

(* src/smash_heap.cpp:197-203 drainRangeToSlabs *)
Definition scatter (items : list (Obj * Z)) (offsets : list Z) : list Obj :=
  fst (foldl (fun st it =>
         let '(out, cursor) := st in
         let '(o, a) := it in
         let pos := zget 0 cursor a in
         (zset out pos o, zset cursor a (pos + 1)))
       (replicate (length items) (0, 0), offsets) items).

(* src/smash_heap.cpp:167-209 drainRangeToSlabs *)
Definition drainRangeToSlabs (total_arenas : Z) (free : Z -> bool) (sc : Z) (st : list Slab * World) (ps : list Z)
    : list Slab * World :=
  match ps with
  | [] => st
  | _ =>
    let w := snd st in
    let items := map (fun p => let sp := resolveSpanForDrain w p in ((p, sp), drain_arena total_arenas w sp)) ps in
    let arenas := map snd items in
    let a0 := zget 0 arenas 0 in
    if forallb (fun a => a =? a0) arenas then send free sc st a0 (map fst items)
    else
      let counts := count_arenas total_arenas arenas in
      let offsets := prefix_sums 0 counts in
      let out := scatter items offsets in
      foldl (fun st a =>
               let n := zget 0 counts a in
               if n =? 0 then st
               else send free sc st a (take (Z.to_nat n) (drop (Z.to_nat (zget 0 offsets a)) out)))
        st (seqZ 0 total_arenas)
  end.

(* src/smash_heap.cpp:213-221 ThreadCache::drain *)
Definition tc_drain (total_arenas : Z) (free : Z -> bool) (tc : ThreadCache) (sc arena : Z) (st : list Slab * World)
    : ThreadCache * (list Slab * World) :=
  let i := tc_idx arena sc in
  let c := lane_count tc i in
  let to_drain := if c / 2 =? 0 then c else c / 2 in
  let start := c - to_drain in
  let ps := take (Z.to_nat to_drain) (drop (Z.to_nat start) (lane_ptrs tc i)) in
  (set_lane tc i (lane_ptrs tc i) (u16 start), drainRangeToSlabs total_arenas free sc st ps).

(* src/smash_heap.cpp:223-238 ThreadCache::drainAll *)
Definition tc_drainAll (total_arenas : Z) (free : Z -> bool) (tc : ThreadCache) (st : list Slab * World)
    : ThreadCache * (list Slab * World) :=
  foldl (fun acc i =>
           let '(tc, st) := acc in
           let c := lane_count tc i in
           if 0 <? c
           then (set_lane tc i (lane_ptrs tc i) 0,
                 drainRangeToSlabs total_arenas free (i mod kNumClasses) st (take (Z.to_nat c) (lane_ptrs tc i)))
           else acc)
    (tc, st) (seqZ 0 (kCacheLanes * kNumClasses)).
End Traffic.

(** The pool of caches: a stack under a lock. *)
(* src/core/thread_cache.h:183-191 ThreadCachePool::acquire *)
Definition pool_acquire (pool : list ThreadCache) : option ThreadCache * list ThreadCache :=
  match pool with
  | [] => (None, [])
  | tc :: pool => (Some tc, pool)
  end.
(* src/core/thread_cache.h:193-197 ThreadCachePool::release *)
Definition pool_release (pool : list ThreadCache) (tc : ThreadCache) : list ThreadCache := tc :: pool.
(* src/core/thread_cache.h:200-209 newThreadCache *)
Definition newThreadCache (garbage : list (list Z)) (pool : list ThreadCache) : ThreadCache * list ThreadCache :=
  match pool_acquire pool with
  | (Some tc, pool) => (tc, pool)
  | (None, pool) => (tc_init garbage, pool)
  end.
(* src/core/thread_cache.h:211-215 returnThreadCache *)
Definition returnThreadCache (tc : ThreadCache) (pool : list ThreadCache) : list ThreadCache :=
  pool_release pool (tc_reset tc).
