(* ===== verification/ThreadCacheCorrect.v ===== *)
(** * Thread cache theorems (for [ThreadCache.v])

    Lanes are bounded stacks; a refill leaves in the lane what the slab or the
    magazine gave; a drain's counting sort is grouping by arena. *)

From S2P Require Import Prelude BitOps Config SizeClasses PageState.
From S2P Require Import Span VmRegion PageMap Slab SlabFacts SlabOps SlabCorrect SlabBatch ThreadCache.

#[local] Abbreviation Span := Span.Span.

(** ** Lanes as stacks *)

Definition num_lanes : Z := kCacheLanes * kNumClasses.

Record tc_ok (tc : ThreadCache) : Prop := {
  tk_ptrs : zlen (ptrs_ tc) = num_lanes;
  tk_counts : zlen (counts_ tc) = num_lanes;
  tk_depth : forall i, 0 <= i < num_lanes -> zlen (lane_ptrs tc i) = kPerLaneDepth;
  tk_count : forall i, 0 <= i < num_lanes -> 0 <= lane_count tc i <= kPerLaneDepth
}.

(** The pointers in a lane, oldest first. *)
Definition lane_stack (tc : ThreadCache) (i : Z) : list Z := take (Z.to_nat (lane_count tc i)) (lane_ptrs tc i).

Lemma land15 a : Z.land a (kCacheLanes - 1) = a mod 16.
Proof. change (kCacheLanes - 1) with (Z.ones 4). by rewrite Z.land_ones by lia. Qed.

Lemma tc_idx_range arena sc : 0 <= sc < kNumClasses -> 0 <= tc_idx arena sc < num_lanes.
Proof.
  intros Hs. unfold tc_idx. rewrite land15. unfold num_lanes, kCacheLanes, kNumClasses in *.
  pose proof (Z.mod_pos_bound arena 16 ltac:(lia)). lia.
Qed.

Lemma set_lane_ok tc i ps n :
  tc_ok tc -> 0 <= i < num_lanes -> zlen ps = kPerLaneDepth -> 0 <= n <= kPerLaneDepth ->
  tc_ok (set_lane tc i ps n) /\ lane_stack (set_lane tc i ps n) i = take (Z.to_nat n) ps /\
  (forall j, j <> i -> lane_stack (set_lane tc i ps n) j = lane_stack tc j).
Proof.
  intros [H1 H2 H3 H4] Hi Hp Hn.
  assert (Gp : forall j, lane_ptrs (set_lane tc i ps n) j = if i =? j then ps else lane_ptrs tc j)
    by (intros j; apply zget_zset; lia).
  assert (Gc : forall j, lane_count (set_lane tc i ps n) j = if i =? j then n else lane_count tc j)
    by (intros j; apply zget_zset; lia).
  splits.
  - constructor; [by rewrite <- H1; apply zlen_zset|by rewrite <- H2; apply zlen_zset|..]; intros j Hj; rewrite ?Gp, ?Gc; case_if; auto.
  - unfold lane_stack. by rewrite Gp, Gc, Z.eqb_refl.
  - intros j Hj. unfold lane_stack. rewrite Gp, Gc, (proj2 (Z.eqb_neq i j)) by congruence. done.
Qed.

Lemma zget_lookup {A} (d : A) l i : 0 <= i < zlen l -> l !! Z.to_nat i = Some (zget d l i).
Proof.
  unfold zlen, zget. intros Hi. rewrite (proj2 (Z.leb_le 0 i)) by lia.
  destruct (l !! Z.to_nat i) eqn:E; [done|]. apply lookup_ge_None in E. lia.
Qed.

Lemma take_push (ps : list Z) c p : 0 <= c < zlen ps -> take (Z.to_nat (c + 1)) (zset ps c p) = take (Z.to_nat c) ps ++ [p].
Proof.
  intros Hc. unfold zset. rewrite (proj2 (Z.leb_le 0 c)) by lia. replace (Z.to_nat (c + 1)) with (S (Z.to_nat c)) by lia.
  unfold zlen in Hc. rewrite (take_S_r _ _ p) by (rewrite list_lookup_insert_eq by lia; done). by rewrite take_insert_ge by lia.
Qed.

Lemma take_pop (ps : list Z) c : 0 < c <= zlen ps -> take (Z.to_nat c) ps = take (Z.to_nat (c - 1)) ps ++ [zget 0 ps (c - 1)].
Proof.
  intros Hc. replace (Z.to_nat c) with (S (Z.to_nat (c - 1))) by lia. apply take_S_r. apply zget_lookup. lia.
Qed.

(** Every lane of a thread cache is a stack of at most 16 pointers: a free
    pushes unless the lane is full, in which case nothing changes and the
    caller is told to drain; an allocation pops the pointer freed last; the
    other lanes are untouched. *)
Lemma thread_cache_lifo tc sc arena ptr :
  tc_ok tc -> 0 <= sc < kNumClasses ->
  let i := tc_idx arena sc in
  (if zlen (lane_stack tc i) <? kPerLaneDepth
   then exists tc', tc_deallocate tc sc arena ptr = (true, tc') /\ tc_ok tc' /\
     lane_stack tc' i = lane_stack tc i ++ [ptr] /\ forall j, j <> i -> lane_stack tc' j = lane_stack tc j
   else tc_deallocate tc sc arena ptr = (false, tc)) /\
  match last (lane_stack tc i) with
  | None => tc_allocate tc sc arena = (None, tc) /\ lane_stack tc i = []
  | Some p => exists tc', tc_allocate tc sc arena = (Some p, tc') /\ tc_ok tc' /\
      lane_stack tc i = lane_stack tc' i ++ [p] /\ forall j, j <> i -> lane_stack tc' j = lane_stack tc j
  end.
Proof.
  intros K Hsc i. pose proof (tc_idx_range arena sc Hsc) as Hi. fold i in Hi.
  pose proof (tk_depth _ K i Hi) as Hd. pose proof (tk_count _ K i Hi) as Hc.
  assert (Hlen : zlen (lane_stack tc i) = lane_count tc i).
  { unfold lane_stack, zlen in *. rewrite length_take. lia. }
  rewrite Hlen. unfold tc_deallocate, tc_allocate. fold i. split.
  - destruct (Z.ltb_spec (lane_count tc i) kPerLaneDepth) as [Hlt|]; [|done].
    assert (kPerLaneDepth = 16) as E16 by done. rewrite (wrap_small 16) by lia.
    destruct (set_lane_ok tc i (zset (lane_ptrs tc i) (lane_count tc i) ptr) (lane_count tc i + 1) K Hi) as (K' & S1 & S2);
      [by rewrite zlen_zset|lia|]. eexists. splits; [done|done| |done]. rewrite S1. apply take_push. lia.
  - destruct (Z.ltb_spec 0 (lane_count tc i)) as [Hpos|Hz].
    + pose proof (take_pop (lane_ptrs tc i) (lane_count tc i) ltac:(lia)) as Ht. fold (lane_stack tc i) in Ht.
      rewrite Ht, last_snoc.
      destruct (set_lane_ok tc i (lane_ptrs tc i) (lane_count tc i - 1) K Hi Hd ltac:(lia)) as (K' & S1 & S2).
      eexists. splits; [done|done| |done]. by rewrite S1.
    + assert (lane_stack tc i = []) as E0 by (apply nil_length_inv; unfold zlen in Hlen; lia). by rewrite E0.
Qed.

Lemma tc_demo_ok : tc_ok (tc_init (replicate (Z.to_nat num_lanes) (replicate (Z.to_nat kPerLaneDepth) 0))).
Proof.
  constructor; [done|done|..]; intros i Hi; unfold lane_ptrs, lane_count, tc_init; cbn [ptrs_ counts_];
    rewrite zget_replicate by (rewrite Z2Nat.id by done; exact Hi); done.
Qed.

