(* ===== verification/Drain.v ===== *)
(** * Drains: the counting sort of [drainRangeToSlabs] (for [ThreadCache.v]) *)

From S2P Require Import Prelude BitOps Config SizeClasses PageState.
From S2P Require Import Span VmRegion PageMap Slab SlabFacts SlabOps SlabCorrect SlabBatch ThreadCache ThreadCacheCorrect.

#[local] Abbreviation Span := Span.Span.

(** ** Grouping by arena *)

(** The objects routed to arena [a], in order. *)
Definition group (items : list (Obj * Z)) (a : Z) : list Obj := map fst (filter (fun it => it.2 = a) items).

Lemma group_app l k a : group (l ++ k) a = group l a ++ group k a.
Proof. unfold group. by rewrite filter_app, map_app. Qed.

Lemma group_one o b a : group [(o, b)] a = if b =? a then [o] else [].
Proof. unfold group. rewrite filter_cons, filter_nil. case_decide; case_if; cbn in *; try done; lia. Qed.

Lemma count_step total c a b : 0 <= b < total -> zlen c = total ->
  zget 0 (zset c b (zget 0 c b + 1)) a = zget 0 c a + if b =? a then 1 else 0.
Proof. intros Hb Hz. rewrite zget_zset by lia. case_if; [b2p; subst; lia|lia]. Qed.

Lemma foldl_count total c items a :
  Forall (fun it => 0 <= it.2 < total) items -> zlen c = total -> 0 <= a < total ->
  zget 0 (foldl (fun c a => zset c a (zget 0 c a + 1)) c (map snd items)) a = zget 0 c a + zlen (group items a) /\
  zlen (foldl (fun c a => zset c a (zget 0 c a + 1)) c (map snd items)) = total.
Proof.
  intros Hf. revert c. induction Hf as [|[o b] items Hb Hf IH]; intros c Hz Ha; cbn [map foldl snd].
  { unfold group. cbn. split; [change (zlen []) with 0; lia|done]. }
  cbn in Hb. destruct (IH (zset c b (zget 0 c b + 1)) ltac:(by rewrite zlen_zset) Ha) as [E1 E2]. split; [|done].
  rewrite E1, (count_step total) by done. change (group ((o, b) :: items) a) with (group ([(o, b)] ++ items) a).
  rewrite group_app, group_one, zlen_app. case_if; change (zlen [o]) with 1 || change (zlen []) with 0; lia.
Qed.

Lemma count_arenas_spec total items :
  0 <= total -> Forall (fun it => 0 <= it.2 < total) items ->
  zlen (count_arenas total (map snd items)) = total /\
  forall a, 0 <= a < total -> zget 0 (count_arenas total (map snd items)) a = zlen (group items a).
Proof.
  intros Ht Hf. unfold count_arenas. assert (Hz : zlen (replicate (Z.to_nat total) 0) = total) by (by apply zlen_replicate).
  split.
  - destruct (decide (total = 0)) as [->|].
    + destruct items as [|it items]; [done|]. apply Forall_cons in Hf as [Hf _]. lia.
    + apply (foldl_count total _ items 0); [done|done|lia].
  - intros a Ha. rewrite (proj1 (foldl_count total _ items a Hf Hz Ha)), zget_replicate by lia. lia.
Qed.

(** ** Prefix sums *)

Fixpoint psum (f : Z -> Z) (n : nat) : Z :=
  match n with O => 0 | S n => psum f n + f (Z.of_nat n) end.

Lemma psum_ext f g n : (forall i, 0 <= i < Z.of_nat n -> f i = g i) -> psum f n = psum g n.
Proof. induction n as [|n IH]; intros H; simpl; [done|]. rewrite IH by (intros; apply H; lia). by rewrite H by lia. Qed.

Lemma psum_shift f n : psum f (S n) = f 0 + psum (fun i => f (i + 1)) n.
Proof.
  induction n as [|n IH]; [cbn; change (Z.of_nat 0) with 0; lia|]. cbn [psum] in *. rewrite IH. replace (Z.of_nat (S n)) with (Z.of_nat n + 1) by lia. lia.
Qed.

Lemma zget_cons {A} (d : A) x l i : 0 < i -> zget d (x :: l) i = zget d l (i - 1).
Proof.
  intros Hi. unfold zget. rewrite !(proj2 (Z.leb_le 0 _)) by lia.
  replace (Z.to_nat i) with (S (Z.to_nat (i - 1))) by lia. done.
Qed.

Lemma prefix_sums_spec acc counts a :
  0 <= a < zlen counts -> zget 0 (prefix_sums acc counts) a = acc + psum (zget 0 counts) (Z.to_nat a).
Proof.
  revert acc a. induction counts as [|c counts IH]; intros acc a Ha; [unfold zlen in Ha; cbn in Ha; lia|]. cbn [prefix_sums].
  rewrite zlen_cons in Ha. destruct (Z.eq_dec a 0) as [->|].
  - change (acc = acc + 0). lia.
  - rewrite zget_cons, IH by lia. replace (Z.to_nat a) with (S (Z.to_nat (a - 1))) by lia. rewrite psum_shift.
    change (zget 0 (c :: counts) 0) with c. rewrite (psum_ext (fun i => zget 0 (c :: counts) (i + 1)) (zget 0 counts)); [lia|].
    intros i Hi. rewrite zget_cons by lia. f_equal. lia.
Qed.

Lemma prefix_sums_len acc counts : zlen (prefix_sums acc counts) = zlen counts.
Proof. revert acc. induction counts as [|c counts IH]; intros acc; [done|]. cbn [prefix_sums]. by rewrite !zlen_cons, IH. Qed.

Lemma psum_mono f n m : (forall i, 0 <= f i) -> (n <= m)%nat -> psum f n <= psum f m.
Proof. intros Hf. induction 1 as [|m _ IH]; [lia|]. simpl. pose proof (Hf (Z.of_nat m)). lia. Qed.

(** The groups partition the items. *)
Lemma psum_groups total items :
  0 <= total -> Forall (fun it => 0 <= it.2 < total) items ->
  psum (fun a => zlen (group items a)) (Z.to_nat total) = zlen items.
Proof.
  intros Ht. induction 1 as [|[o b] items Hb Hf IH].
  - assert (Hz : forall n, psum (fun a => zlen (group [] a)) n = 0) by (induction n as [|n IH]; simpl; [done|rewrite IH; done]). apply Hz.
  - rewrite zlen_cons, <- IH. clear IH Hf. cbn in Hb.
    assert (Hone : forall n, psum (fun a => zlen (group ((o, b) :: items) a)) n =
      psum (fun a => zlen (group items a)) n + if b <? Z.of_nat n then 1 else 0).
    { induction n as [|n IH]; [cbn; case_if; lia|]. cbn [psum]. rewrite IH.
      change (group ((o, b) :: items) (Z.of_nat n)) with (group ([(o, b)] ++ items) (Z.of_nat n)).
      rewrite group_app, group_one, zlen_app. repeat case_if; try change (zlen [o]) with 1; try change (zlen []) with 0; lia. }
    rewrite Hone, Z2Nat.id by done. case_if; lia.
Qed.

(** ** Scatter *)

Section Scatter.
Context (total : Z) (items : list (Obj * Z)) (Ht : 0 <= total) (Hf : Forall (fun it => 0 <= it.2 < total) items).

Definition off (a : Z) : Z := psum (fun a => zlen (group items a)) (Z.to_nat a).

Lemma off_step a : 0 <= a -> off (a + 1) = off a + zlen (group items a).
Proof. intros Ha. unfold off. replace (Z.to_nat (a + 1)) with (S (Z.to_nat a)) by lia. cbn. by rewrite Z2Nat.id. Qed.

Lemma off_apart a b : 0 <= a < b -> off a + zlen (group items a) <= off b.
Proof. intros Hab. rewrite <- off_step by lia. apply psum_mono; [intros; apply zlen_nonneg|lia]. Qed.

Lemma off_end a : 0 <= a < total -> 0 <= off a /\ off a + zlen (group items a) <= zlen items.
Proof.
  intros Ha. split; [unfold off; change 0 with (psum (fun a => zlen (group items a)) 0); apply psum_mono; [intros; apply zlen_nonneg|lia]|].
  rewrite <- off_step, <- (psum_groups total items Ht Hf) by lia. apply psum_mono; [intros; apply zlen_nonneg|lia].
Qed.

(** After the items [pre], the cursor of each arena is past what it received. *)
Definition scattered (pre : list (Obj * Z)) (out : list Obj) (cursor : list Z) : Prop :=
  zlen out = zlen items /\ zlen cursor = total /\
  (forall a, 0 <= a < total -> zget 0 cursor a = off a + zlen (group pre a)) /\
  (forall a j, 0 <= a < total -> 0 <= j < zlen (group pre a) -> zget (0, 0) out (off a + j) = zget (0, 0) (group pre a) j).

Lemma scattered_step pre post o b out cursor :
  items = pre ++ (o, b) :: post -> scattered pre out cursor ->
  scattered (pre ++ [(o, b)]) (zset out (zget 0 cursor b) o) (zset cursor b (zget 0 cursor b + 1)).
Proof.
  intros Hit (Z1 & Z2 & Hc & Ho).
  assert (Hb : 0 <= b < total) by (rewrite Hit, Forall_app, Forall_cons in Hf; apply Hf).
  assert (Hlt : forall a, zlen (group pre a) + zlen (group [(o, b)] a) <= zlen (group items a)).
  { intros a. rewrite Hit. change ((o, b) :: post) with ([(o, b)] ++ post). rewrite !group_app, !zlen_app.
    pose proof (zlen_nonneg (group post a)). lia. }
  pose proof (Hlt b) as Hltb. rewrite group_one, Z.eqb_refl in Hltb. change (zlen [o]) with 1 in Hltb.
  pose proof (off_end b Hb) as Heb. pose proof (zlen_nonneg (group pre b)). rewrite (Hc b Hb). unfold scattered. splits.
  - by rewrite zlen_zset.
  - by rewrite zlen_zset.
  - intros a Ha. rewrite zget_zset, group_app, group_one, zlen_app by lia. rewrite (Hc a Ha).
    case_if; [b2p; subst; change (zlen [o]) with 1; lia|change (zlen []) with 0; lia].
  - assert (Hpos : 0 <= off b + zlen (group pre b) < zlen out) by lia.
    intros a j Ha Hj. rewrite zget_zset by exact Hpos. rewrite group_app, group_one in Hj |- *.
    destruct (Z.eqb_spec b a) as [<-|Hne].
    + rewrite zlen_app in Hj. change (zlen [o]) with 1 in Hj.
      destruct (Z.eqb_spec (off b + zlen (group pre b)) (off b + j)) as [Ej|].
      * replace j with (zlen (group pre b)) by lia. unfold zget, zlen. rewrite (proj2 (Z.leb_le 0 _)) by lia.
        rewrite Nat2Z.id, lookup_app_r, Nat.sub_diag by lia. done.
      * rewrite (Ho b j) by lia. unfold zget, zlen in *. case_if; [|done]. by rewrite lookup_app_l by lia.
    + rewrite app_nil_r in *. destruct (Z.eqb_spec (off b + zlen (group pre b)) (off a + j)); [|by apply Ho].
      exfalso. pose proof (Hlt a). pose proof (zlen_nonneg (group [(o, b)] a)).
      destruct (Z.lt_total a b) as [Hab|[->|Hab]]; [|done|].
      * pose proof (off_apart a b ltac:(lia)). lia.
      * pose proof (off_apart b a ltac:(lia)). lia.
Qed.

Lemma scatter_spec :
  let offsets := prefix_sums 0 (count_arenas total (map snd items)) in
  forall a, 0 <= a < total ->
    take (Z.to_nat (zget 0 (count_arenas total (map snd items)) a))
      (drop (Z.to_nat (zget 0 offsets a)) (scatter items offsets)) = group items a.
Proof.
  destruct (count_arenas_spec total items Ht Hf) as [Hcl Hc]. set (counts := count_arenas _ _) in *.
  assert (Hoff : forall a, 0 <= a < total -> zget 0 (prefix_sums 0 counts) a = off a).
  { intros a Ha. rewrite prefix_sums_spec by lia. unfold off. rewrite Z.add_0_l. apply psum_ext. intros i Hi. apply Hc. lia. }
  assert (Hloop : forall post pre out cursor, items = pre ++ post -> scattered pre out cursor ->
    exists cursor', scattered items (fst (foldl (fun st it => let '(out, cursor) := st in let '(o, a) := it in
         let pos := zget 0 cursor a in (zset out pos o, zset cursor a (pos + 1))) (out, cursor) post)) cursor').
  { induction post as [|[o b] post IH]; intros pre out cursor Hit Hs; cbn [foldl].
    - rewrite app_nil_r in Hit. subst pre. by eexists.
    - apply (IH (pre ++ [(o, b)])); [by rewrite <- app_assoc|]. by eapply scattered_step. }
  cbv zeta. intros a Ha. rewrite Hc, Hoff by done.
  destruct (Hloop items [] (replicate (length items) (0, 0)) (prefix_sums 0 counts) eq_refl) as [cur (Z1 & _ & _ & Ho)].
  { unfold scattered. splits; [unfold zlen; by rewrite length_replicate|by rewrite prefix_sums_len| |].
    - intros b Hb. rewrite Hoff by done. change (zlen (group [] b)) with 0. lia.
    - intros b j Hb Hj. change (zlen (group [] b)) with 0 in Hj. lia. }
  change (fst (foldl _ _ items)) with (scatter items (prefix_sums 0 counts)) in *.
  pose proof (off_end a Ha). pose proof (zlen_nonneg (group items a)).
  apply (zget_ext (0, 0)).
  - unfold zlen in *. rewrite length_take, length_drop. lia.
  - intros j Hj. assert (Hj2 : 0 <= j < zlen (group items a)) by (unfold zlen in *; rewrite length_take, length_drop in Hj; lia).
    rewrite <- (Ho a j Ha Hj2). unfold zget. rewrite !(proj2 (Z.leb_le 0 _)) by lia.
    rewrite lookup_take_lt by (unfold zlen in *; lia). rewrite lookup_drop. do 2 f_equal. lia.
Qed.
End Scatter.

(** ** Drains *)

Section DrainCorrect.
Context `{PG : PageGeometry} (cfg : SlabCfg) (magazines defer_free : bool).

Definition resolved (total_arenas : Z) (w : World) (ps : list Z) : list (Obj * Z) :=
  map (fun p => let sp := resolveSpanForDrain w p in ((p, sp), drain_arena total_arenas w sp)) ps.

Lemma resolved_range total w ps :
  0 < total -> (forall a, 0 <= arena_id (span_at w a)) -> Forall (fun it => 0 <= it.2 < total) (resolved total w ps).
Proof.
  intros Ht Ha. unfold resolved. apply Forall_forall. intros it Hit. apply list_elem_of_fmap in Hit as (p & -> & _).
  cbn [snd]. unfold drain_arena. cbv zeta. specialize (Ha (resolveSpanForDrain w p)). repeat case_if; lia.
Qed.

Lemma foldl_none {A} (f : A -> Z -> A) st l : (forall st a, a ∈ l -> f st a = st) -> foldl f st l = st.
Proof.
  revert st. induction l as [|a l IH]; intros st H; [done|]. cbn. rewrite H by (by left). apply IH.
  intros. apply H. by right.
Qed.

Lemma foldl_single {A} (f : A -> Z -> A) st total a0 :
  0 <= a0 < total -> (forall st a, a <> a0 -> f st a = st) -> foldl f st (seqZ 0 total) = f st a0.
Proof.
  intros Ha Hf. rewrite (seqZ_split 0 a0) by lia. rewrite foldl_app.
  rewrite (foldl_none f st (seqZ 0 a0)) by (intros st' a Hin%elem_of_seqZ; apply Hf; lia).
  rewrite (seqZ_cons (0 + a0)) by lia. cbn. rewrite Z.add_0_l.
  rewrite (foldl_none f); [done|]. intros st' a Hin%elem_of_seqZ. apply Hf. lia.
Qed.

Lemma groups_perm total items :
  0 <= total -> Forall (fun it => 0 <= it.2 < total) items ->
  concat (map (group items) (seqZ 0 total)) ≡ₚ map fst items.
Proof.
  intros Ht. induction 1 as [|[o b] items Hb Hf IH].
  - cbn. assert (E : forall l, concat (map (group []) l) = []) by (induction l as [|a l IHl]; [done|exact IHl]). by rewrite E.
  - cbn [map]. rewrite <- IH. cbn in Hb. clear IH Hf.
    assert (E : forall l, b ∈ l -> NoDup l -> concat (map (group ((o, b) :: items)) l) ≡ₚ o :: concat (map (group items) l)).
    { induction l as [|a l IHl]; [set_solver|]. intros Hin Hnd. apply NoDup_cons in Hnd as [Hna Hnd]. cbn [map concat].
      change (group ((o, b) :: items) a) with (group ([(o, b)] ++ items) a). rewrite group_app, group_one.
      destruct (Z.eqb_spec b a) as [->|Hne].
      - simpl. f_equiv. f_equiv. apply reflexive_eq. f_equal. apply map_ext_in. intros x Hx%list_elem_of_In.
        change (group ((o, a) :: items) x) with (group ([(o, a)] ++ items) x). rewrite group_app, group_one.
        destruct (Z.eqb_spec a x) as [->|]; [done|done].
      - apply elem_of_cons in Hin as [|Hin]; [done|]. simpl. rewrite (IHl Hin Hnd). by rewrite Permutation_middle. }
    apply E; [apply elem_of_seqZ; lia|apply NoDup_seqZ].
Qed.

(** The counting sort hands each arena its group, in order. *)
Lemma drain_groups total free sc st ps :
  0 < total -> let items := resolved total (snd st) ps in Forall (fun it => 0 <= it.2 < total) items ->
  drainRangeToSlabs cfg magazines defer_free total free sc st ps =
    foldl (fun st a => match group items a with
                       | [] => st
                       | objs => send cfg magazines defer_free free sc st a objs
                       end) st (seqZ 0 total).
Proof.
  intros Ht items Hf.
  destruct ps as [|p0 ps0]; [by rewrite foldl_none|].
  unfold drainRangeToSlabs. cbv zeta.
  change (map (fun p => ((p, resolveSpanForDrain (snd st) p), drain_arena total (snd st) (resolveSpanForDrain (snd st) p))) (p0 :: ps0)) with items.
  assert (Harn : forall i, 0 <= i < zlen items -> 0 <= zget 0 (map snd items) i < total).
  { intros i Hi. unfold zget. rewrite (proj2 (Z.leb_le 0 i)), list_lookup_fmap by lia.
    destruct (items !! Z.to_nat i) as [it|] eqn:E; [|apply lookup_ge_None in E; unfold zlen in Hi; lia].
    rewrite Forall_forall in Hf. apply Hf. by eapply list_elem_of_lookup_2. }
  assert (Hlen : 0 < zlen items) by (unfold items, resolved, zlen; rewrite length_map; cbn [length]; lia).
  case_if.
  - set (a0 := zget 0 (map snd items) 0) in *. rewrite forallb_forall in E.
    assert (Hall : forall a, group items a = if a0 =? a then map fst items else []).
    { intros a. unfold group. case_if; [rewrite filter_all|rewrite filter_none]; try done; intros it Hit;
        specialize (E it.2 ltac:(apply list_elem_of_In, list_elem_of_fmap; by exists it)); b2p; cbv beta; congruence. }
    rewrite (foldl_single _ _ total a0); [|apply Harn; lia|].
    + by rewrite Hall, Z.eqb_refl.
    + intros st' a Hne. rewrite Hall. by rewrite (proj2 (Z.eqb_neq a0 a)).
  - destruct (count_arenas_spec total items ltac:(lia) Hf) as [_ Hc].
    assert (Hext : forall l st', (forall a, a ∈ l -> 0 <= a < total) ->
      foldl (fun st a => if zget 0 (count_arenas total (map snd items)) a =? 0 then st
        else send cfg magazines defer_free free sc st a (take (Z.to_nat (zget 0 (count_arenas total (map snd items)) a))
               (drop (Z.to_nat (zget 0 (prefix_sums 0 (count_arenas total (map snd items))) a))
                  (scatter items (prefix_sums 0 (count_arenas total (map snd items))))))) st' l =
      foldl (fun st a => match group items a with [] => st | objs => send cfg magazines defer_free free sc st a objs end) st' l).
    { induction l as [|a l IH]; intros st' Hl; [done|]. cbn [foldl]. rewrite IH by (intros; apply Hl; by right). f_equal.
      rewrite (scatter_spec total items ltac:(lia) Hf) by (apply Hl; by left). rewrite Hc by (apply Hl; by left).
      destruct (group items a) as [|o os]; [done|]. rewrite zlen_cons. pose proof (zlen_nonneg os). case_if; [lia|done]. }
    apply Hext. intros a Ha'%elem_of_seqZ. lia.
Qed.

(** Draining is grouping by arena: the counting sort (count, prefix sums,
    scatter, slice) hands the slab of each arena exactly the drained objects
    whose span belongs to that arena, in their order, one batch per arena, so
    that together the batches are the drained objects. *)
Lemma drain_groups_by_arena total free sc st ps :
  0 < total -> (forall a, 0 <= arena_id (span_at (snd st) a)) ->
  let items := resolved total (snd st) ps in
  drainRangeToSlabs cfg magazines defer_free total free sc st ps =
    foldl (fun st a => match group items a with
                       | [] => st
                       | objs => send cfg magazines defer_free free sc st a objs
                       end) st (seqZ 0 total) /\
  concat (map (group items) (seqZ 0 total)) ≡ₚ map (fun p => (p, resolveSpanForDrain (snd st) p)) ps.
Proof.
  intros Ht Ha items. pose proof (resolved_range total (snd st) ps Ht Ha) as Hf. fold items in Hf.
  split; [by apply drain_groups|]. rewrite (groups_perm total items ltac:(lia) Hf). unfold items, resolved. by rewrite map_map.
Qed.

(** ** Refills *)

Lemma keep_batch tc i got :
  tc_ok tc -> 0 <= i < num_lanes -> 0 < zlen got <= kPerLaneDepth ->
  let ps := overwrite got (lane_ptrs tc i) in
  let tc' := set_lane tc i ps (u16 (zlen got - 1)) in
  tc_ok tc' /\ lane_stack tc' i ++ [zget 0 ps (zlen got - 1)] = got /\ forall j, j <> i -> lane_stack tc' j = lane_stack tc j.
Proof.
  intros K Hi Hg. cbv zeta. assert (kPerLaneDepth = 16) as E16 by done. rewrite wrap_small by lia.
  assert (Hz : zlen (overwrite got (lane_ptrs tc i)) = kPerLaneDepth).
  { unfold overwrite. rewrite zlen_app. pose proof (tk_depth _ K i Hi) as Hd. unfold zlen in *. rewrite length_drop. lia. }
  destruct (set_lane_ok tc i _ (zlen got - 1) K Hi Hz ltac:(lia)) as (K' & S1 & S2). splits; [done| |done].
  rewrite S1. rewrite <- take_pop by lia. unfold overwrite. unfold zlen in *. rewrite Nat2Z.id. by rewrite take_app_length.
Qed.

(** What a refill leaves behind. *)
Definition refill_post (tc : ThreadCache) (i : Z) (rest : list FreeRun) (C : list Obj)
    (res : option (option Z * ThreadCache * Slab * World)) : Prop :=
  exists r tc' s' w' L, res = Some (r, tc', s', w') /\ tc_ok tc' /\ slab_inv s' w' rest (L ++ C) /\
    (forall j, j <> i -> lane_stack tc' j = lane_stack tc j) /\
    match r with
    | None => L = [] /\ tc' = tc
    | Some p => lane_stack tc' i ++ [p] = map fst L
    end.

Lemma refill_keep tc i rest C got L s w :
  tc_ok tc -> 0 <= i < num_lanes -> map fst L = got -> 0 < zlen got <= kPerLaneDepth -> slab_inv s w rest (L ++ C) ->
  refill_post tc i rest C (Some (Some (zget 0 (overwrite got (lane_ptrs tc i)) (zlen got - 1)),
    set_lane tc i (overwrite got (lane_ptrs tc i)) (u16 (zlen got - 1)), s, w)).
Proof.
  intros K Hi HL Hg I. destruct (keep_batch tc i got K Hi Hg) as (K' & S1 & S2). eexists _, _, _, _, L.
  split; [done|]. by rewrite HL.
Qed.

Lemma refill_slow os tc i rest C s w :
  (forall n, oracle_ok (os n)) -> slab_params_ok cfg s -> slab_inv s w rest C -> tc_ok tc -> 0 <= i < num_lanes ->
  refill_post tc i rest C
    match allocateBatch cfg os s w kPerLaneDepth with
    | None => None
    | Some b => if zlen (b_out b) =? 0 then Some (None, tc, b_slab b, b_world b)
                else Some (Some (zget 0 (overwrite (b_out b) (lane_ptrs tc i)) (zlen (b_out b) - 1)),
                           set_lane tc i (overwrite (b_out b) (lane_ptrs tc i)) (u16 (zlen (b_out b) - 1)), b_slab b, b_world b)
    end.
Proof.
  intros Hos Hp I0 K Hi. unfold allocateBatch. destruct (drainPending cfg s w) as [s1 w1] eqn:Ed.
  destruct (drainPending_inv _ _ _ _ _ _ _ I0 Ed) as (I1 & _ & E1 & E2 & E3).
  assert (Hp1 : slab_params_ok cfg s1) by (unfold slab_params_ok, currentCap in *; by rewrite E1, E2, E3).
  destruct (batch_outer_inv cfg (Z.to_nat kPerLaneDepth + 2) os rest (held s1 ++ C) kPerLaneDepth (mkBatch s1 w1 [] false) [] Hos Hp1)
    as (b & L & -> & HL & I2 & (_ & _ & _ & S4 & S5) & Hz & _); [done|done|exact I1|done|].
  assert (I3 : slab_inv (b_slab b) (b_world b) rest (L ++ C)).
  { rewrite slab_inv_sinv. unfold held at 1. rewrite S4, S5. fold (held s1).
    eapply sinv_perm; [|exact I2]. rewrite !app_assoc. f_equiv. apply Permutation_app_comm. }
  pose proof (zlen_nonneg (b_out b)). case_if; [|apply (refill_keep tc i rest C _ L); [done|done|done|lia|done]].
  eexists _, _, _, _, []. splits; try done. assert (L = []) as ->; [|done].
  apply nil_length_inv. rewrite <- (length_map fst), HL. unfold zlen in *. lia.
Qed.

(** A refill leaves the lane holding what the slab (or a magazine) handed
    over but for the one pointer it returns, never more than the lane's depth,
    with the other lanes unchanged and the slab invariant kept; it always
    completes, and returns null only with nothing taken. *)
Lemma refill_correct os tc sc arena s w rest C :
  (forall n, oracle_ok (os n)) -> slab_params_ok cfg s -> slab_inv s w rest C -> tc_ok tc -> 0 <= sc < kNumClasses ->
  lane_stack tc (tc_idx arena sc) = [] ->
  Forall (fun m => zlen m <= kPerLaneDepth /\ Forall non_null m) (mags s) ->
  refill_post tc (tc_idx arena sc) rest C (tc_refill cfg magazines os tc sc arena s w).
Proof.
  intros Hos Hp I K Hsc Hst Hm. set (i := tc_idx arena sc) in *. pose proof (tc_idx_range arena sc Hsc) as Hi. fold i in Hi.
  unfold tc_refill. fold i. change (if kPerLaneDepth <? kThreadCacheBatchSize then kPerLaneDepth else kThreadCacheBatchSize) with kPerLaneDepth.
  cbv zeta. destruct magazines; [|by apply refill_slow].
  unfold magazinePop. destruct (mags s) as [|m ms] eqn:Em; [by apply refill_slow|].
  apply Forall_cons in Hm as [[Hm1 Hm2] _]. set (s1 := set_mags s ms _).
  assert (I1 : slab_inv s1 w rest (m ++ C)).
  { rewrite slab_inv_sinv in *. unfold held in *. rewrite Em in I. cbn [concat] in I. cbn [s1 set_mags pending mags].
    eapply sinv_perm; [|exact I]. rewrite !filter_app, (filter_all non_null m) by (by apply Forall_forall). rewrite <- !app_assoc.
    apply Permutation_app_head. rewrite !app_assoc. apply Permutation_app_tail, Permutation_app_comm. }
  assert (Hzm : zlen (map fst m) = zlen m) by (unfold zlen; by rewrite length_map).
  case_if; [apply (refill_keep tc i rest C _ m); [done|done|done|lia|exact I1]|].
  assert (m = []) as -> by (apply nil_length_inv; unfold zlen in *; lia). by apply refill_slow.
Qed.
End DrainCorrect.

Section Witnesses.
#[local] Existing Instance pages4K.

Definition demo_tc : ThreadCache := tc_init (replicate (Z.to_nat num_lanes) (replicate (Z.to_nat kPerLaneDepth) 0)).

End Witnesses.
