(* ===== verification/LargeCache.v ===== *)
(** * Cache of freed large blocks (src/core/large_alloc.h, LargeBlockCache)

    Freed large blocks are kept, with their descriptor, in buckets by page
    count.  Page counts are rounded to a grid of eight steps per power of two.
    A bucket is the stack of the descriptors it holds, the most recently
    freed first, and the tick of its last free.  Lock and counter updates of
    one bucket are one step. *)

From S2P Require Import Prelude BitOps Config.

(** ** The size grid *)

(* src/core/large_alloc.h:60-65 LargeBlockCache::roundPages *)
Definition roundPages (n : Z) : Z :=
  if n <=? 8 then n
  else
    let b := 63 - clz (n - 1) in
    let step := Z.shiftl 1 (b - 3) in
    Z.land (u64 (n + step - 1)) (u64 (Z.lnot (step - 1))).

(* src/core/large_alloc.h:67-71 LargeBlockCache::nextRounded *)
Definition nextRounded (r : Z) : Z :=
  if r <? 8 then r + 1
  else
    let b := 63 - clz r in
    u64 (r + Z.shiftl 1 (b - 3)).

(* src/core/large_alloc.h:72-77 LargeBlockCache::bucketOf *)
Definition bucketOf (rounded : Z) : Z :=
  if rounded <=? 8 then rounded - 1
  else
    let b := 63 - clz (rounded - 1) in
    let step := Z.shiftl 1 (b - 3) in
    8 + (b - 3) * 8 + (rounded / step - 9).

(* src/core/large_alloc.h:44-44 LargeBlockCache::kDepth *)
Definition kDepth : Z := 32.
(* src/core/large_alloc.h:45-45 LargeBlockCache::kMaxBytesDefault *)
Definition kMaxBytesDefault : Z := Z.shiftl 32 20.
(* src/core/large_alloc.h:57-57 LargeBlockCache::kIdleTicks *)
Definition kIdleTicks : Z := 2.

(** [cap_mb] is the parsed value of SMASH_LARGE_CACHE_MB, if set. *)
(* src/core/large_alloc.h:47-56 LargeBlockCache::maxBytes *)
Definition maxBytes (cap_mb : option Z) : Z :=
  match cap_mb with
  | Some n => u64 (Z.shiftl (u64 n) 20)
  | None => kMaxBytesDefault
  end.

(** ** The cache *)

(* src/core/large_alloc.h:146-151 LargeBlockCache::Bucket *)
Record Bucket := mkBucket { blocks : list Z; last_use : Z }.

(* src/core/large_alloc.h:161-162 LargeBlockCache *)
Record LargeBlockCache := mkCache { buckets_ : list Bucket; bytes_ : Z }.

Definition no_bucket : Bucket := mkBucket [] 0.

Section Cache.
Context `{PG : PageGeometry} (maxb : Z).

(* src/core/large_alloc.h:43-43 LargeBlockCache::kMaxPages *)
Definition kMaxPages : Z := Z.shiftl 8 20 / kPageSize.

(** The initializer of [kUsedBuckets]: [fuel] turns of its loop. *)
(* src/core/large_alloc.h:153-158 LargeBlockCache::kUsedBuckets *)
Fixpoint used_loop (fuel : nat) (r b : Z) : Z :=
  match fuel with
  | O => b
  | S fuel =>
    if kMaxPages <? r then b
    else used_loop fuel (if r <=? 8 then r + 1 else r + Z.shiftl 1 (63 - clz r - 3)) (b + 1)
  end.
Definition kUsedBuckets : Z := used_loop (Z.to_nat kMaxPages) 1 0.

(* src/core/large_alloc.h:161-162 LargeBlockCache *)
Definition cache_init : LargeBlockCache :=
  mkCache (replicate (Z.to_nat (kUsedBuckets + 1)) no_bucket) 0.

(* src/core/large_alloc.h:159-159 LargeBlockCache::bucketFor *)
Definition bucketFor (c : LargeBlockCache) (rounded : Z) : Bucket :=
  zget no_bucket (buckets_ c) (bucketOf rounded).
Definition set_bucket (c : LargeBlockCache) (rounded : Z) (bk : Bucket) (bytes : Z) : LargeBlockCache :=
  mkCache (zset (buckets_ c) (bucketOf rounded) bk) bytes.

(* src/core/large_alloc.h:82-92 LargeBlockCache::pop *)
Definition cache_pop (c : LargeBlockCache) (rounded : Z) : option Z * LargeBlockCache :=
  let bk := bucketFor c rounded in
  match blocks bk with
  | [] => (None, c)
  | p :: rest =>
    (Some p, set_bucket c rounded (mkBucket rest (last_use bk)) (u64 (bytes_ c - rounded * kPageSize)))
  end.

(* src/core/large_alloc.h:96-108 LargeBlockCache::push *)
Definition cache_push (c : LargeBlockCache) (span rounded now : Z) : bool * LargeBlockCache :=
  let sz := u64 (rounded * kPageSize) in
  if maxb <? u64 (bytes_ c + sz) then (false, c)
  else
    let bk := bucketFor c rounded in
    if kDepth <=? zlen (blocks bk) then (false, c)
    else (true, set_bucket c rounded (mkBucket (span :: blocks bk) now) (u64 (bytes_ c + sz))).

(* src/core/large_alloc.h:111-113 LargeBlockCache::canAccept *)
Definition canAccept (c : LargeBlockCache) (rounded : Z) : bool :=
  u64 (bytes_ c + rounded * kPageSize) <=? maxb.

(** The purge loop from grid size [r]; [release] disposes of a victim. *)
(* src/core/large_alloc.h:119-134 LargeBlockCache::purgeIdle *)
Fixpoint purge_loop {W} (fuel : nat) (now : Z) (release : Z -> Z -> W -> W) (r : Z)
    (c : LargeBlockCache) (w : W) : LargeBlockCache * W :=
  match fuel with
  | O => (c, w)
  | S fuel =>
    if kMaxPages <? r then (c, w)
    else
      let bk := bucketFor c r in
      let nv := zlen (blocks bk) in
      if (nv =? 0) || (u32 (now - last_use bk) <? kIdleTicks)
      then purge_loop fuel now release (nextRounded r) c w
      else
        let c := set_bucket c r (mkBucket [] (last_use bk)) (u64 (bytes_ c - u64 (nv * r * kPageSize))) in
        let w := fold_left (fun w sp => release sp r w) (rev (blocks bk)) w in
        purge_loop fuel now release (nextRounded r) c w
  end.

(* src/core/large_alloc.h:116-135 LargeBlockCache::purgeIdle *)
Definition purgeIdle {W} (now : Z) (release : Z -> Z -> W -> W) (c : LargeBlockCache) (w : W)
    : LargeBlockCache * W :=
  if bytes_ c =? 0 then (c, w) else purge_loop (Z.to_nat kMaxPages) now release 1 c w.
End Cache.

(** ** The grid *)

(** Grid sizes above 8 are nine to sixteen steps of a power of two. *)
Definition on_grid (r : Z) : Prop :=
  1 <= r <= 8 \/ exists j k, 0 <= j /\ 9 <= k <= 16 /\ r = k * 2 ^ j.

Lemma log2_octave j m : 0 <= j -> 8 * 2 ^ j <= m < 16 * 2 ^ j -> Z.log2 m = j + 3.
Proof.
  intros Hj Hm. apply Z.log2_unique; [lia|]. replace (Z.succ (j + 3)) with (j + 4) by lia.
  rewrite !Z.pow_add_r by lia. lia.
Qed.

(** Every page count above 8 lies in one octave. *)
Lemma octave n : 8 < n -> exists j, 0 <= j /\ Z.log2 (n - 1) = j + 3 /\ 8 * 2 ^ j < n <= 16 * 2 ^ j.
Proof.
  intros Hn. pose proof (Z.log2_spec (n - 1) ltac:(lia)) as Hs. pose proof (Z.log2_le_mono 8 (n - 1) ltac:(lia)) as Hl.
  change (Z.log2 8) with 3 in Hl. exists (Z.log2 (n - 1) - 3). splits; [lia|lia| |].
  - replace (Z.log2 (n - 1)) with (Z.log2 (n - 1) - 3 + 3) in Hs by lia. rewrite Z.pow_add_r in Hs by lia. lia.
  - replace (Z.succ (Z.log2 (n - 1))) with (Z.log2 (n - 1) - 3 + 4) in Hs by lia. rewrite Z.pow_add_r in Hs by lia. lia.
Qed.

Lemma clz_log2 x : 63 - clz x = Z.log2 x.
Proof. unfold clz. lia. Qed.

Lemma roundPages_octave n j :
  0 <= j -> 8 * 2 ^ j < n <= 16 * 2 ^ j -> n < 2 ^ 63 ->
  roundPages n = (n + 2 ^ j - 1) / 2 ^ j * 2 ^ j.
Proof.
  intros Hj Hn Hb. assert (0 < 2 ^ j) by lia. unfold roundPages. rewrite (proj2 (Z.leb_gt _ _)), clz_log2 by nia.
  rewrite (log2_octave j (n - 1)) by lia. replace (j + 3 - 3) with j by lia. rewrite Z.shiftl_mul_pow2, Z.mul_1_l by lia.
  assert (Hj64 : j < 64) by (apply (Z.pow_lt_mono_r_iff 2); lia).
  rewrite (wrap_small 64 (n + 2 ^ j - 1)) by lia. apply land_lnot_mask; lia.
Qed.

(** Rounding lands on the grid, never below the request, and adds less than
    an eighth of it. *)
Lemma roundPages_on_grid n :
  1 <= n < 2 ^ 62 -> let r := roundPages n in on_grid r /\ n <= r /\ 8 * (r - n) <= n.
Proof.
  intros Hn. cbv zeta. destruct (Z.leb_spec n 8) as [Hs|Hs].
  { unfold roundPages. rewrite (proj2 (Z.leb_le _ _)) by lia. splits; [by left; lia|lia|lia]. }
  destruct (octave n Hs) as (j & Hj & _ & Hr). rewrite (roundPages_octave n j) by lia.
  assert (0 < 2 ^ j) by lia. splits; [right; exists j, ((n + 2 ^ j - 1) / 2 ^ j); splits; try done; dnia|dnia|dnia].
Qed.

Lemma grid_bucket j k : 0 <= j -> 9 <= k <= 16 -> bucketOf (k * 2 ^ j) = 8 * j + k - 1.
Proof.
  intros Hj Hk. assert (0 < 2 ^ j) by lia. unfold bucketOf. rewrite (proj2 (Z.leb_gt _ _)), clz_log2 by nia.
  rewrite (log2_octave j) by (lia || nia). replace (j + 3 - 3) with j by lia.
  rewrite Z.shiftl_mul_pow2, Z.mul_1_l, Z.div_mul by lia. lia.
Qed.

Lemma grid_round r : on_grid r -> r < 2 ^ 62 -> roundPages r = r.
Proof.
  intros [Hs|(j & k & Hj & Hk & ->)] Hb; [unfold roundPages; by rewrite (proj2 (Z.leb_le _ _)) by lia|].
  assert (0 < 2 ^ j) by lia. rewrite (roundPages_octave _ j) by (lia || nia). f_equal. dnia.
Qed.

(** The rounded size is the least grid size at or above the request. *)
Lemma round_least n m : 1 <= n < 2 ^ 62 -> on_grid m -> n <= m -> roundPages n <= m.
Proof.
  intros Hn G Hm. destruct (Z.leb_spec n 8) as [Hs|Hs].
  { unfold roundPages. by rewrite (proj2 (Z.leb_le _ _)) by lia. }
  destruct (octave n Hs) as (j & Hj & _ & Hr). rewrite (roundPages_octave n j) by lia. assert (0 < 2 ^ j) by lia.
  destruct G as [?|(j' & k & Hj' & Hk & ->)]; [lia|]. assert (0 < 2 ^ j') by lia.
  destruct (Z.lt_ge_cases j' j) as [Hlt|Hge].
  { exfalso. assert (2 ^ (j' + 1) <= 2 ^ j) by (apply Z.pow_le_mono_r; lia). rewrite Z.pow_add_r in * by lia. nia. }
  replace (2 ^ j') with (2 ^ (j' - j) * 2 ^ j) in * by (rewrite <- Z.pow_add_r by lia; f_equal; lia).
  rewrite Z.mul_assoc in *. set (q := k * 2 ^ (j' - j)) in *. apply Z.mul_le_mono_nonneg_r; [lia|].
  apply Z.lt_succ_r, Z.div_lt_upper_bound; nia.
Qed.

Lemma grid_pos r : on_grid r -> 1 <= r.
Proof. intros [?|(j & k & ? & ? & ->)]; [lia|]. assert (0 < 2 ^ j) by lia. nia. Qed.

(** Bucket numbers grow with the size. *)
Lemma bucket_mono r r' : on_grid r -> on_grid r' -> r < r' -> bucketOf r < bucketOf r'.
Proof.
  intros [Hs|(j & k & Hj & Hk & ->)] [Hs'|(j' & k' & Hj' & Hk' & ->)] Hlt; rewrite ?grid_bucket by done.
  - unfold bucketOf. rewrite !(proj2 (Z.leb_le _ _)) by lia. lia.
  - unfold bucketOf. rewrite (proj2 (Z.leb_le _ _)) by lia. lia.
  - assert (0 < 2 ^ j) by lia. nia.
  - destruct (Z.lt_trichotomy j j') as [H|[->|H]]; [lia|nia|].
    exfalso. assert (2 ^ (j' + 1) <= 2 ^ j) by (apply Z.pow_le_mono_r; lia). rewrite Z.pow_add_r in * by lia.
    assert (0 < 2 ^ j') by lia. nia.
Qed.

Lemma bucket_inj r r' : on_grid r -> on_grid r' -> bucketOf r = bucketOf r' -> r = r'.
Proof.
  intros G G' He. destruct (Z.lt_trichotomy r r') as [H|[H|H]]; [|done|];
    [pose proof (bucket_mono r r' G G' H)|pose proof (bucket_mono r' r G' G H)]; lia.
Qed.

(** [nextRounded] moves to the next bucket. *)
Lemma nextRounded_grid r :
  on_grid r -> r < 2 ^ 62 -> on_grid (nextRounded r) /\ bucketOf (nextRounded r) = bucketOf r + 1 /\ r < nextRounded r.
Proof.
  intros G Hb. destruct (Z.ltb_spec r 8) as [Hlt|Hge].
  { pose proof (grid_pos r G). unfold nextRounded. rewrite (proj2 (Z.ltb_lt _ _)) by lia. splits; [left; lia| |lia].
    unfold bucketOf. rewrite !(proj2 (Z.leb_le _ _)) by lia. lia. }
  assert (exists j k, 0 <= j /\ 8 <= k < 16 /\ r = k * 2 ^ j /\ bucketOf r = 8 * j + k - 1) as (j & k & Hj & Hk & -> & Eb).
  { destruct G as [Hs|(j & k & Hj & Hk & ->)].
    - exists 0, 8. assert (r = 8) as -> by lia. done.
    - destruct (Z.eq_dec k 16) as [->|Hn].
      + exists (j + 1), 8. rewrite grid_bucket, Z.pow_add_r by lia. splits; lia.
      + exists j, k. rewrite grid_bucket by lia. splits; lia. }
  assert (0 < 2 ^ j) by lia. unfold nextRounded. rewrite (proj2 (Z.ltb_ge _ _)), clz_log2 by nia.
  rewrite (log2_octave j) by (lia || nia). replace (j + 3 - 3) with j by lia.
  rewrite Z.shiftl_mul_pow2, Z.mul_1_l, wrap_small by (lia || nia). replace (k * 2 ^ j + 2 ^ j) with ((k + 1) * 2 ^ j) by ring.
  splits; [right; exists j, (k + 1); splits; lia|rewrite grid_bucket by lia; lia|nia].
Qed.

(** ** The buckets cover the grid *)

Section CacheFacts.
Context `{PG : PageGeometry} (maxb : Z).

Lemma max_pages_cases :
  (kPageSize = 4096 /\ kMaxPages = 2048) \/ (kPageSize = 16384 /\ kMaxPages = 512).
Proof. unfold kMaxPages, kPageSize. destruct kPageShift_cases as [-> | ->]; [by left|by right]. Qed.

Lemma max_pages_grid : on_grid kMaxPages.
Proof. right. destruct max_pages_cases as [[_ ->]|[_ ->]]; [by exists 7, 16|by exists 5, 16]. Qed.

Lemma used_buckets : kUsedBuckets = bucketOf kMaxPages + 1.
Proof. destruct PG as [k Hk]. destruct Hk as [-> | ->]; vm_compute; reflexivity. Qed.

(** The sizes the purge loop visits from [r] on. *)
Fixpoint sizes (fuel : nat) (r : Z) : list Z :=
  match fuel with
  | O => []
  | S fuel => if kMaxPages <? r then [] else r :: sizes fuel (nextRounded r)
  end.
Definition grid : list Z := sizes (Z.to_nat kMaxPages) 1.

Lemma elem_of_sizes fuel r x :
  on_grid r -> kMaxPages <= r + Z.of_nat fuel - 1 ->
  x ∈ sizes fuel r <-> on_grid x /\ r <= x <= kMaxPages.
Proof.
  pose proof max_pages_cases as Hm. revert r. induction fuel as [|fuel IH]; intros r G Hf.
  { split; [set_solver|]. lia. }
  cbn [sizes]. case_if; [split; [set_solver|lia]|].
  destruct (nextRounded_grid r G ltac:(lia)) as (G' & Eb & Hlt). rewrite elem_of_cons, IH by (done || lia). split.
  - intros [->|[? ?]]; [split; [done|lia]|split; [done|lia]].
  - intros [Gx Hx]. destruct (Z.eq_dec x r) as [->|Hne]; [by left|right]. split; [done|]. split; [|lia].
    destruct (Z.le_gt_cases (nextRounded r) x) as [?|Hgt]; [done|].
    pose proof (bucket_mono r x G Gx ltac:(lia)). pose proof (bucket_mono x _ Gx G' Hgt). lia.
Qed.

Lemma elem_of_grid x : x ∈ grid <-> on_grid x /\ x <= kMaxPages.
Proof.
  unfold grid. pose proof max_pages_cases. rewrite elem_of_sizes; [|left; lia|lia].
  split; [intros [? ?]|intros [G ?]; pose proof (grid_pos x G)]; split; done || lia.
Qed.

Lemma sizes_lower fuel r x : on_grid r -> x ∈ sizes fuel r -> r <= x.
Proof.
  pose proof max_pages_cases. revert r. induction fuel as [|fuel IH]; intros r G; cbn [sizes]; [set_solver|].
  case_if; [set_solver|]. destruct (nextRounded_grid r G ltac:(lia)) as (G' & _ & Hlt).
  intros [->|Hx]%elem_of_cons; [lia|]. pose proof (IH _ G' Hx). lia.
Qed.

Lemma sizes_nodup fuel r : on_grid r -> NoDup (sizes fuel r).
Proof.
  pose proof max_pages_cases. revert r. induction fuel as [|fuel IH]; intros r G; cbn [sizes]; [constructor|].
  case_if; [constructor|]. destruct (nextRounded_grid r G ltac:(lia)) as (G' & _ & Hlt).
  constructor; [|by apply IH]. intros Hx%sizes_lower; [lia|done].
Qed.

Lemma grid_nodup : NoDup grid.
Proof. apply sizes_nodup. left. lia. Qed.

Lemma bucket_range r : on_grid r -> r <= kMaxPages -> 0 <= bucketOf r < kUsedBuckets.
Proof.
  intros G Hr. rewrite used_buckets. pose proof (grid_pos r G). split.
  - destruct (Z.eq_dec r 1) as [->|]; [done|]. pose proof (bucket_mono 1 r ltac:(left; lia) G ltac:(lia)).
    change (bucketOf 1) with 0 in *. lia.
  - destruct (Z.eq_dec r kMaxPages) as [->|]; [lia|]. pose proof (bucket_mono r _ G max_pages_grid ltac:(lia)). lia.
Qed.

Lemma sizes_buckets fuel r :
  on_grid r -> kMaxPages <= r + Z.of_nat fuel - 1 ->
  map bucketOf (sizes fuel r) = seqZ (bucketOf r) (kUsedBuckets - bucketOf r).
Proof.
  pose proof max_pages_cases as Hm. rewrite used_buckets. revert r. induction fuel as [|fuel IH]; intros r G Hf; cbn [sizes].
  { pose proof (bucket_mono _ r max_pages_grid G ltac:(lia)). by rewrite seqZ_nil by lia. }
  case_if; [pose proof (bucket_mono _ r max_pages_grid G ltac:(lia)); by rewrite seqZ_nil by lia|].
  destruct (nextRounded_grid r G ltac:(lia)) as (G' & Eb & Hlt).
  assert (bucketOf r <= bucketOf kMaxPages).
  { destruct (Z.eq_dec r kMaxPages) as [->|]; [lia|]. pose proof (bucket_mono r _ G max_pages_grid ltac:(lia)). lia. }
  cbn [map]. rewrite IH, Eb, (seqZ_cons (bucketOf r)) by (done || lia). do 2 f_equal. lia.
Qed.

(** The size grid of the large-block cache.  For a request of [n] pages up
    to the cache's limit, the rounded size is the least grid size at or above
    [n], within the limit, with at most an eighth of [n] added; rounding is
    idempotent; the bucket index of a rounded size is inside the bucket array,
    no two grid sizes share a bucket, and [nextRounded] steps to the next
    bucket, so that the purge loop visits each of the buckets once. *)
Lemma large_size_grid n :
  1 <= n <= kMaxPages ->
  let r := roundPages n in
  n <= r <= kMaxPages /\ 8 * (r - n) <= n /\ roundPages r = r /\ 0 <= bucketOf r < kUsedBuckets /\
  (forall m, n <= m <= kMaxPages -> roundPages m = m -> r <= m) /\
  (forall m, 1 <= m <= kMaxPages -> bucketOf (roundPages m) = bucketOf r -> roundPages m = r) /\
  bucketOf (nextRounded r) = bucketOf r + 1 /\
  map bucketOf grid = seqZ 0 kUsedBuckets.
Proof.
  intros Hn. cbv zeta. pose proof max_pages_cases as Hm. destruct (roundPages_on_grid n ltac:(lia)) as (G & Hge & Hw).
  pose proof (round_least n kMaxPages ltac:(lia) max_pages_grid ltac:(lia)). splits; try done.
  - apply grid_round; [done|lia].
  - by apply bucket_range.
  - by apply bucket_range.
  - intros m Hm' Em. apply round_least; [lia| |lia]. rewrite <- Em. apply roundPages_on_grid. lia.
  - intros m Hm' He. by apply bucket_inj; [apply roundPages_on_grid; lia| |].
  - apply (nextRounded_grid _ G). lia.
  - unfold grid. rewrite sizes_buckets by (lia || (left; lia)). change (bucketOf 1) with 0. f_equal. lia.
Qed.


(** ** Contents *)

(** The cached blocks with their page counts. *)
Definition contents (c : LargeBlockCache) : list (Z * Z) :=
  grid ≫= fun r => map (fun a => (a, r)) (blocks (bucketFor c r)).

(** Bytes of a list of blocks. *)
Definition cost (l : list (Z * Z)) : Z := zsum (map (fun x => x.2 * kPageSize) l).

Lemma cost_cons x l : cost (x :: l) = x.2 * kPageSize + cost l.
Proof. done. Qed.
Lemma cost_same_size r l : cost (map (fun a => (a, r)) l) = zlen l * r * kPageSize.
Proof. induction l as [|a l IH]; [done|]. rewrite zlen_cons. cbn [map]. rewrite cost_cons, IH. cbn [snd]. ring. Qed.
Lemma cost_app k l : cost (k ++ l) = cost k + cost l.
Proof. unfold cost. by rewrite map_app, zsum_app. Qed.
#[local] Instance cost_proper : Proper ((≡ₚ) ==> (=)) cost.
Proof. intros k l H. unfold cost. by rewrite H. Qed.

Record cache_ok (c : LargeBlockCache) : Prop := {
  ck_len : zlen (buckets_ c) = kUsedBuckets + 1;
  ck_depth : forall r, r ∈ grid -> zlen (blocks (bucketFor c r)) <= kDepth;
  ck_bytes : bytes_ c = cost (contents c);
  ck_cap : bytes_ c <= maxb
}.

Lemma bucketFor_set c r bk n r' :
  zlen (buckets_ c) = kUsedBuckets + 1 -> r ∈ grid -> r' ∈ grid ->
  bucketFor (set_bucket c r bk n) r' = if r =? r' then bk else bucketFor c r'.
Proof.
  rewrite !elem_of_grid. intros Hl [G Hr] [G' Hr']. unfold bucketFor, set_bucket. cbn. pose proof (bucket_range r G Hr).
  rewrite zget_zset by lia. destruct (Z.eqb_spec r r') as [->|Hne]; [by rewrite Z.eqb_refl|].
  case_if; [|done]. by apply bucket_inj in E.
Qed.

Lemma contents_split r : r ∈ grid ->
  exists rest, (forall r', r' ∈ rest -> r' ∈ grid /\ r' <> r) /\
  forall c, contents c ≡ₚ map (fun a => (a, r)) (blocks (bucketFor c r)) ++
    (rest ≫= fun r => map (fun a => (a, r)) (blocks (bucketFor c r))).
Proof.
  intros Hr. destruct (elem_of_Permutation grid r) as [[rest Hp] _]; [done|]. exists rest. split.
  - intros r' Hr'. pose proof grid_nodup as Hnd. rewrite Hp in Hnd. apply NoDup_cons in Hnd as [Hn _].
    split; [rewrite Hp; by right|]. by intros ->.
  - intros c. unfold contents. by rewrite Hp.
Qed.

Lemma bind_ext_in {A B} (f g : A -> list B) l : (forall x, x ∈ l -> f x = g x) -> (l ≫= f) = (l ≫= g).
Proof. induction l as [|x l IH]; intros H; [done|]. cbn. rewrite (H x), IH by (intros; (by left) || (apply H; by right)). done. Qed.

(** Replacing one bucket replaces its part of the contents. *)
Lemma contents_set c r bk n :
  zlen (buckets_ c) = kUsedBuckets + 1 -> r ∈ grid ->
  exists R, contents c ≡ₚ map (fun a => (a, r)) (blocks (bucketFor c r)) ++ R /\
            contents (set_bucket c r bk n) ≡ₚ map (fun a => (a, r)) (blocks bk) ++ R.
Proof.
  intros Hl Hr. destruct (contents_split r Hr) as (rest & Hrest & Hc). eexists. split; [apply Hc|].
  rewrite Hc, bucketFor_set, Z.eqb_refl by done. apply Permutation_app_head, reflexive_eq.
  apply bind_ext_in. intros r' Hr'. destruct (Hrest r' Hr') as [? ?].
  rewrite bucketFor_set by done. by rewrite (proj2 (Z.eqb_neq _ _)).
Qed.

Lemma contents_sizes c x : x ∈ contents c -> x.2 ∈ grid.
Proof.
  unfold contents. intros (r & Hx & Hr)%list_elem_of_bind. apply list_elem_of_fmap in Hx as (a & -> & _). done.
Qed.

Lemma contents_bytes c : 0 <= cost (contents c).
Proof.
  apply zsum_nonneg, Forall_fmap, Forall_forall. intros x Hx%contents_sizes%elem_of_grid. destruct Hx as [G%grid_pos _].
  unfold compose. destruct max_pages_cases as [[-> _]|[-> _]]; cbn [snd]; lia.
Qed.

(** ** The operations on the contents *)

Lemma pop_spec c r :
  maxb < 2 ^ 63 -> cache_ok c -> r ∈ grid ->
  match cache_pop c r with
  | (None, c') => c' = c /\ blocks (bucketFor c r) = []
  | (Some a, c') => contents c ≡ₚ (a, r) :: contents c' /\ cache_ok c'
  end.
Proof.
  intros Hm [Hl Hd Hb Hc] Hr. unfold cache_pop. destruct (blocks (bucketFor c r)) as [|a l] eqn:E; [done|].
  set (bk := mkBucket _ _). set (n := u64 _). destruct (contents_set c r bk n Hl Hr) as (R & H1 & H2).
  rewrite E in H1. cbn [map app blocks bk] in H1, H2. assert (Hp : contents c ≡ₚ (a, r) :: contents (set_bucket c r bk n)) by (by rewrite H1, H2).
  assert (Hn : n = cost (contents (set_bucket c r bk n))).
  { rewrite Hp, cost_cons in Hb. cbn [snd] in Hb. pose proof (contents_bytes (set_bucket c r bk n)). unfold n at 1. rewrite wrap_small; [|split; [lia|]]; [lia|].
    apply elem_of_grid in Hr as [G%grid_pos _]. pose proof max_pages_cases. lia. }
  split; [done|]. constructor; cbn.
  - by rewrite zlen_zset.
  - intros r' Hr'. rewrite bucketFor_set by done. case_if; [|by apply Hd]. subst r'. pose proof (Hd r Hr) as Hd'. rewrite E, zlen_cons in Hd'.
    cbn. lia.
  - exact Hn.
  - rewrite Hp, cost_cons in Hb. cbn [snd] in Hb. apply elem_of_grid in Hr as [G%grid_pos _]. pose proof max_pages_cases. lia.
Qed.

Lemma push_spec c a r now :
  maxb < 2 ^ 63 -> cache_ok c -> r ∈ grid ->
  match cache_push maxb c a r now with
  | (true, c') => contents c' ≡ₚ (a, r) :: contents c /\ cache_ok c'
  | (false, c') => c' = c /\ (maxb < bytes_ c + r * kPageSize \/ zlen (blocks (bucketFor c r)) = kDepth)
  end.
Proof.
  intros Hm [Hl Hd Hb Hc] Hr. unfold cache_push. pose proof (contents_bytes c) as H0.
  pose proof Hr as [G%grid_pos Hmx]%elem_of_grid. pose proof max_pages_cases as Hpg.
  assert (Hsz : u64 (r * kPageSize) = r * kPageSize) by (apply wrap_small; nia).
  assert (Hsum : u64 (bytes_ c + r * kPageSize) = bytes_ c + r * kPageSize) by (apply wrap_small; nia).
  rewrite Hsz, Hsum. case_if; [split; [done|by left]|]. case_if; [split; [done|right; pose proof (Hd r Hr); lia]|].
  set (bk := mkBucket _ _). destruct (contents_set c r bk (bytes_ c + r * kPageSize) Hl Hr) as (R & H1 & H2).
  cbn [map app blocks bk] in H2. assert (Hp : contents (set_bucket c r bk (bytes_ c + r * kPageSize)) ≡ₚ (a, r) :: contents c) by (by rewrite H1, H2).
  split; [done|]. constructor; cbn.
  - by rewrite zlen_zset.
  - intros r' Hr'. rewrite bucketFor_set by done. case_if; [|by apply Hd]. cbn. rewrite zlen_cons. lia.
  - rewrite Hp, cost_cons. cbn [snd]. lia.
  - lia.
Qed.

(** ** Purging *)

Definition idle (now : Z) (bk : Bucket) : bool := kIdleTicks <=? u32 (now - last_use bk).
Definition purged (now : Z) (bk : Bucket) : Bucket := if idle now bk then mkBucket [] (last_use bk) else bk.

(** Emptying one bucket. *)
Lemma clear_bucket c r :
  maxb < 2 ^ 63 -> cache_ok c -> r ∈ grid ->
  let bk := bucketFor c r in
  let c' := set_bucket c r (mkBucket [] (last_use bk)) (u64 (bytes_ c - u64 (zlen (blocks bk) * r * kPageSize))) in
  contents c ≡ₚ map (fun a => (a, r)) (blocks bk) ++ contents c' /\ cache_ok c'.
Proof.
  intros Hm [Hl Hd Hb Hc] Hr bk c'. destruct (contents_set c r (mkBucket [] (last_use bk)) (u64 (bytes_ c - u64 (zlen (blocks bk) * r * kPageSize))) Hl Hr) as (R & H1 & H2).
  fold c' in H2. cbn [blocks map app] in H2. fold bk in H1. rewrite <- H2 in H1. split; [done|].
  pose proof (cost_same_size r (blocks bk)) as Hk.
  pose proof (contents_bytes c') as H0. rewrite H1, cost_app, Hk in Hb.
  assert (0 <= zlen (blocks bk) * r * kPageSize).
  { rewrite <- Hk. apply zsum_nonneg, Forall_fmap, Forall_fmap, Forall_forall. intros a _. unfold compose. cbn [snd].
    apply elem_of_grid in Hr as [G%grid_pos _]. destruct max_pages_cases as [[-> _]|[-> _]]; lia. }
  assert (Hbytes : bytes_ c' = cost (contents c')).
  { change (bytes_ c') with (u64 (bytes_ c - u64 (zlen (blocks bk) * r * kPageSize))).
    rewrite (wrap_small 64 (zlen (blocks bk) * r * kPageSize)) by lia. rewrite wrap_small by lia. lia. }
  constructor; [unfold c'; cbn; by rewrite zlen_zset| |done|lia].
  intros r' Hr'. unfold c'. rewrite bucketFor_set by done. case_if; [done|by apply Hd].
Qed.

Lemma bucket_eta bk : blocks bk = [] -> mkBucket [] (last_use bk) = bk.
Proof. by destruct bk as [l u]; intros [= ->]. Qed.

Lemma fold_release {W} (release : Z -> Z -> W -> W) r l w :
  fold_left (fun w sp => release sp r w) l w = fold_left (fun w x => release x.1 x.2 w) (map (fun a => (a, r)) l) w.
Proof. revert w. induction l as [|a l IH]; intros w; [done|]. cbn. apply IH. Qed.

Lemma purge_loop_spec {W} fuel now (release : Z -> Z -> W -> W) r c w :
  maxb < 2 ^ 63 -> cache_ok c -> on_grid r -> kMaxPages <= r + Z.of_nat fuel - 1 ->
  exists V c', purge_loop fuel now release r c w = (c', fold_left (fun w x => release x.1 x.2 w) V w) /\
    contents c ≡ₚ V ++ contents c' /\ cache_ok c' /\
    forall r', r' ∈ grid -> bucketFor c' r' = if r <=? r' then purged now (bucketFor c r') else bucketFor c r'.
Proof.
  intros Hm. pose proof max_pages_cases as Hpg. revert r c w. induction fuel as [|fuel IH]; intros r c w O G Hf.
  { exists [], c. splits; try done. intros r' [_ Hr']%elem_of_grid. by rewrite (proj2 (Z.leb_gt _ _)) by lia. }
  cbn [purge_loop]. destruct (Z.ltb_spec kMaxPages r) as [Hgt|Hle].
  { exists [], c. splits; try done. intros r' [_ Hr']%elem_of_grid. by rewrite (proj2 (Z.leb_gt _ _)) by lia. }
  assert (Hr : r ∈ grid) by (by apply elem_of_grid). destruct (nextRounded_grid r G ltac:(lia)) as (G' & Eb & Hlt).
  assert (Hnext : forall r', r' ∈ grid -> r' <> r -> (nextRounded r <=? r') = (r <=? r')).
  { intros r' [Gr _]%elem_of_grid Hne. destruct (Z.leb_spec (nextRounded r) r'), (Z.leb_spec r r'); try done; [lia|].
    pose proof (bucket_mono r r' G Gr ltac:(lia)). pose proof (bucket_mono r' _ Gr G' ltac:(lia)). lia. }
  case_if.
  - destruct (IH (nextRounded r) c w O G' ltac:(lia)) as (V & c' & -> & HV & O' & HB). exists V, c'. splits; try done.
    intros r' Hr'. rewrite (HB r' Hr'). destruct (Z.eq_dec r' r) as [->|Hne]; [|by rewrite Hnext].
    rewrite (proj2 (Z.leb_gt _ _)), (proj2 (Z.leb_le r r)) by lia. unfold purged, idle. case_if; [|done].
    rewrite bucket_eta; [done|]. apply orb_true_iff in E. destruct E as [E|E]; b2p; [|lia].
    destruct (blocks (bucketFor c r)); [done|]. rewrite zlen_cons in E. pose proof (zlen_nonneg l). lia.
  - destruct (clear_bucket c r Hm O Hr) as [HC OC]. set (c1 := set_bucket _ _ _ _) in *. rewrite fold_release.
    set (V0 := map _ (rev _)).
    destruct (IH (nextRounded r) c1 (fold_left (fun w x => release x.1 x.2 w) V0 w) OC G' ltac:(lia)) as (V & c' & -> & HV & O' & HB).
    exists (V0 ++ V), c'. splits; [by rewrite fold_left_app| |done|].
    + rewrite HC, HV, <- app_assoc. apply Permutation_app_tail. unfold V0. by rewrite <- Permutation_rev.
    + intros r' Hr'. rewrite (HB r' Hr'). unfold c1. rewrite bucketFor_set by (done || apply O).
      destruct (Z.eqb_spec r r') as [<-|Hne]; [|by rewrite Hnext].
      rewrite (proj2 (Z.leb_gt _ _)), (proj2 (Z.leb_le r r)) by lia. unfold purged, idle. rewrite (proj2 (Z.leb_le _ _)); [done|lia].
Qed.

Lemma purgeIdle_spec {W} now (release : Z -> Z -> W -> W) c w :
  maxb < 2 ^ 63 -> cache_ok c ->
  exists V c', purgeIdle now release c w = (c', fold_left (fun w x => release x.1 x.2 w) V w) /\
    contents c ≡ₚ V ++ contents c' /\ cache_ok c' /\
    forall r, r ∈ grid -> bucketFor c' r = purged now (bucketFor c r).
Proof.
  intros Hm O. unfold purgeIdle. case_if.
  - exists [], c. splits; try done. intros r Hr. unfold purged. case_if; [|done]. rewrite bucket_eta; [done|].
    destruct (blocks (bucketFor c r)) as [|a l] eqn:Eb; [done|]. exfalso.
    pose proof (pop_spec c r Hm O Hr) as Hp. unfold cache_pop in Hp. rewrite Eb in Hp. destruct Hp as [Hp O'].
    set (c' := set_bucket _ _ _ _) in *. pose proof (ck_bytes c O) as Hb. pose proof (contents_bytes c').
    rewrite Hp, cost_cons in Hb. cbn [snd] in Hb. apply elem_of_grid in Hr as [G%grid_pos _].
    destruct max_pages_cases as [[Ek _]|[Ek _]]; rewrite Ek in Hb; lia.
  - pose proof max_pages_cases. destruct (purge_loop_spec (Z.to_nat kMaxPages) now release 1 c w Hm O ltac:(left; lia) ltac:(lia)) as (V & c' & E1 & E2 & E3 & E4).
    exists V, c'. splits; try done. intros r Hr. rewrite (E4 r Hr). apply elem_of_grid in Hr as [G%grid_pos _].
    by rewrite (proj2 (Z.leb_le _ _)).
Qed.

Lemma cache_init_bucket r : bucketFor cache_init r = no_bucket.
Proof.
  unfold bucketFor, cache_init, zget. cbn [buckets_]. case_if; [|done].
  destruct (replicate _ no_bucket !! _) as [bk|] eqn:Eb; [|done]. by apply lookup_replicate in Eb as [-> _].
Qed.

Lemma cache_init_contents : contents cache_init = [].
Proof. unfold contents. induction grid as [|r l IH]; [done|]. cbn. by rewrite cache_init_bucket, IH. Qed.

Lemma cache_init_ok : 0 <= maxb -> cache_ok cache_init.
Proof.
  intros Hm. pose proof cache_init_contents as Hc. constructor; [|intros r _; by rewrite cache_init_bucket|by rewrite Hc|done].
  cbn. apply zlen_replicate. pose proof (bucket_range kMaxPages max_pages_grid ltac:(lia)). lia.
Qed.

(** The cache is a bag of blocks under a byte cap.  In a well-formed cache
    the byte counter is exactly the size of the cached blocks and within the
    cap, and no bucket is over its depth; [pop] returns a block of exactly the
    asked size and removes it, and fails only if there is none; [push] adds the
    block, or leaves the cache alone because the cap or the depth is reached;
    [purgeIdle] releases each block of each bucket with no free in the last
    [kIdleTicks] ticks once and keeps every other; all three keep the cache
    well-formed. *)
Lemma large_cache_correct {W} c a r now (release : Z -> Z -> W -> W) (w : W) :
  maxb < 2 ^ 63 -> cache_ok c -> r ∈ grid ->
  bytes_ c = cost (contents c) /\ bytes_ c <= maxb /\
  match cache_pop c r with
  | (None, c') => c' = c /\ forall b, (b, r) ∉ contents c
  | (Some b, c') => contents c ≡ₚ (b, r) :: contents c' /\ cache_ok c'
  end /\
  match cache_push maxb c a r now with
  | (true, c') => contents c' ≡ₚ (a, r) :: contents c /\ cache_ok c'
  | (false, c') => c' = c /\ (maxb < bytes_ c + r * kPageSize \/ zlen (blocks (bucketFor c r)) = kDepth)
  end /\
  exists V c', purgeIdle now release c w = (c', fold_left (fun w x => release x.1 x.2 w) V w) /\
    contents c ≡ₚ V ++ contents c' /\ cache_ok c' /\
    forall r, r ∈ grid -> bucketFor c' r = purged now (bucketFor c r).
Proof.
  intros Hm O Hr. splits; [apply O|apply (ck_cap c O)| |by apply push_spec|by apply purgeIdle_spec].
  pose proof (pop_spec c r Hm O Hr) as Hp. destruct (cache_pop c r) as [[b|] c']; [done|]. destruct Hp as [-> Hb].
  split; [done|]. intros b Hin. unfold contents in Hin. apply list_elem_of_bind in Hin as (r' & Hx & _).
  apply list_elem_of_fmap in Hx as (a' & [= -> <-] & Hx). rewrite Hb in Hx. set_solver.
Qed.
End CacheFacts.

Section CacheWitness.
#[local] Existing Instance pages4K.
End CacheWitness.
