(* ===== verification/LargeAlloc.v ===== *)
(** * Large allocations (src/core/large_alloc.h, LargeAlloc)

    Allocations above the small-object limit, and all over-aligned ones, are
    whole page runs: a cached block, a run of the page arena, or a mapping of
    their own.  They live in the same [World] as the slabs; the page map and
    the region it mirrors into are the ones the slabs use.  The release debug
    modes of the page region are off. *)

From S2P Require Import Prelude BitOps Config SizeClasses PageState IntrusiveList Span.
From S2P Require Import VmRegion PageMap Slab SlabFacts SlabOps LargeCache.

#[local] Abbreviation page_count := Span.page_count.
#[local] Abbreviation Span := Span.Span.

(* include/smash/config.h:602-606 kLargeAllocVmThreshold *)
Definition kLargeAllocVmThreshold : Z := 1024 * 1024.

(* src/core/large_alloc.h:165-174 LargeAlloc *)
Record LargeAlloc := mkLarge { cache_ : LargeBlockCache; tick_ : Z }.

(** A block found or made by [allocate]: address, page count, the cached
    descriptor if any, known to be zero. *)
Record Found := mkFound { f_mem : Z; f_pages : Z; f_span : option Z; f_zeroed : bool }.

Section LargeAlloc.
Context `{PG : PageGeometry} (cfg : SlabCfg) (maxb : Z).

(* src/core/large_alloc.h:190-196 LargeAlloc::markActiveIfVm *)
Definition markActiveIfVm (w : World) (mem pages : Z) : World :=
  match vm_region (pmap w) with
  | None => w
  | Some v =>
    if negb (c_page_states cfg) then w
    else if negb (inContigArena (arena v) mem) then w
    else
      let idx := pageIndex v mem in
      w_penv w (env_states (penv w)
        (foldl (fun t p => pst_set t (idx + p) ACTIVE) (pe_states (penv w)) (seqZ 0 pages)))
  end.

(** A block of the rounded size, else of one of the next two sizes. *)
(* src/core/large_alloc.h:232-239 LargeAlloc::allocate *)
Fixpoint probe_up (up : nat) (c : LargeBlockCache) (rounded : Z) : option (Z * Z) * LargeBlockCache :=
  match cache_pop c rounded with
  | (Some a, c) => (Some (a, rounded), c)
  | (None, c) =>
    match up with
    | O => (None, c)
    | S up =>
      let bigger := nextRounded rounded in
      if kMaxPages <? bigger then (None, c) else probe_up up c bigger
    end
  end.

(* src/core/large_alloc.h:230-245 LargeAlloc::allocate *)
Definition from_cache (L : LargeAlloc) (w : World) (num_pages : Z) : option Found * LargeAlloc * World :=
  match probe_up 2 (cache_ L) (roundPages num_pages) with
  | (None, c) => (None, mkLarge c (tick_ L), w)
  | (Some (a, rounded), c) =>
    let mem := base (span_at w a) in
    let num_pages := u32 rounded in
    (Some (mkFound mem num_pages (Some a) false), mkLarge c (tick_ L), markActiveIfVm w mem num_pages)
  end.

(* src/core/large_alloc.h:249-256 LargeAlloc::allocate *)
Definition from_region (o : Oracle) (w : World) (cacheable : bool) (num_pages : Z) : option Found * World :=
  match vm_region (pmap w) with
  | None => (None, w)
  | Some v =>
    let np := if cacheable then u32 (roundPages num_pages) else num_pages in
    let '(r, v) := allocatePages (c_chunk cfg) (o_avail o) (o_shard o) v np in
    let w := w_pmap w (mkPageMap (level1 (pmap w)) (Some v)) in
    match r with
    | None => (None, w)
    | Some mem => (Some (mkFound mem np None false), markActiveIfVm w mem np)
    end
  end.

(** A mapping aligned beyond a page: map more, give back both ends. *)
(* src/core/large_alloc.h:274-290 LargeAlloc::allocate *)
Definition map_aligned (o : Oracle) (w : World) (alloc_size alignment num_pages : Z) : option Found * World :=
  let map_size := u64 (alloc_size + alignment) in
  match o_map o map_size with
  | None => (None, w)
  | Some addr =>
    let aligned_addr := roundUp addr alignment in
    let prefix := u64 (aligned_addr - addr) in
    let suffix := u64 (map_size - prefix - alloc_size) in
    let w := if 0 <? prefix then w_log w (UnmapPages addr prefix) else w in
    let w := if 0 <? suffix then w_log w (UnmapPages (u64 (aligned_addr + alloc_size)) suffix) else w in
    (Some (mkFound aligned_addr num_pages None false), w)
  end.

(* src/core/large_alloc.h:260-292 LargeAlloc::allocate *)
Definition from_mmap (o : Oracle) (w : World) (cacheable : bool) (alloc_size alignment num_pages : Z)
    : option Found * World :=
  let rounded := roundPages num_pages in
  let direct :=
    if cacheable
    then match o_map o (u64 (rounded * kPageSize)) with
         | Some mem => Some (mkFound mem (u32 rounded) None true)
         | None => None
         end
    else None in
  match direct with
  | Some f => (Some f, w)
  | None =>
    if alignment <=? kPageSize
    then match o_map o alloc_size with
         | Some mem => (Some (mkFound mem num_pages None true), w)
         | None => (None, w)
         end
    else map_aligned o w alloc_size alignment num_pages
  end.

(** The block is described and its first page registered. *)
(* src/core/large_alloc.h:294-302 LargeAlloc::allocate *)
Definition register_block (o : Oracle) (w : World) (f : Found) (size arena_id : Z) : World :=
  let a := match f_span f with Some a => a | None => o_descr o w end in
  let w := put_span w a (span_initLarge (f_mem f) size (f_pages f) arena_id) in
  w_pmap w (pm_set (span_at w) (pmap w) (f_mem f) a).

(** The result is the address and the [zeroed] flag. *)
(* src/core/large_alloc.h:212-302 LargeAlloc::allocate *)
Definition large_allocate (o : Oracle) (L : LargeAlloc) (w : World) (size alignment arena_id : Z)
    : option (Z * bool) * LargeAlloc * World :=
  let alignment := if alignment <? kPageSize then kPageSize else alignment in
  let alloc_size := roundUp size kPageSize in
  let num_pages := u32 (alloc_size / kPageSize) in
  let cacheable := (alignment <=? kPageSize) && (num_pages <=? kMaxPages) in
  let '(f, L, w) := if cacheable then from_cache L w num_pages else (None, L, w) in
  let '(f, w) :=
    match f with
    | Some f => (Some f, w)
    | None =>
      if (alignment <=? kPageSize) && (kLargeAllocVmThreshold <=? alloc_size)
      then from_region o w cacheable num_pages else (None, w)
    end in
  let '(f, w) :=
    match f with
    | Some f => (Some f, w)
    | None => from_mmap o w cacheable alloc_size alignment num_pages
    end in
  match f with
  | None => (None, L, w)
  | Some f => (Some (f_mem f, f_zeroed f), L, register_block o w f size arena_id)
  end.

(** Pages of the arena go back to it, a mapping of its own to the kernel. *)
(* src/core/large_alloc.h:180-185 LargeAlloc::onTick *)
Definition release_block (o : Oracle) (w : World) (mem pages : Z) : World :=
  match vm_region (pmap w) with
  | Some v =>
    if inContigArena (arena v) mem
    then w_pmap w (mkPageMap (level1 (pmap w)) (Some (releasePages false false (o_created o) (o_shard o) v mem pages)))
    else w_log w (UnmapPages mem (u64 (pages * kPageSize)))
  | None => w_log w (UnmapPages mem (u64 (pages * kPageSize)))
  end.

(** [any_compressed] is [g_any_page_compressed]. *)
(* src/core/large_alloc.h:304-347 LargeAlloc::deallocate *)
Definition large_deallocate (o : Oracle) (any_compressed : bool) (L : LargeAlloc) (w : World) (a : Z)
    : LargeAlloc * World :=
  let sp := span_at w a in
  let mem := base sp in
  let num_pages := page_count sp in
  let w := w_pmap w (pm_set (span_at w) (pmap w) mem 0) in
  let cacheable := (num_pages <=? kMaxPages) && (roundPages num_pages =? num_pages) in
  let now := tick_ L in
  let in_arena := match vm_region (pmap w) with Some v => inContigArena (arena v) mem | None => false end in
  if in_arena then
    let w := run_hook cfg w sp in
    if cacheable && canAccept maxb (cache_ L) num_pages then
      let w := if any_compressed then w_log w (CommitPages mem (u64 (num_pages * kPageSize))) else w in
      match cache_push maxb (cache_ L) a num_pages now with
      | (true, c) => (mkLarge c now, w)
      | (false, c) => (mkLarge c now, release_block o w mem num_pages)
      end
    else (L, release_block o w mem num_pages)
  else if cacheable then
    match cache_push maxb (cache_ L) a num_pages now with
    | (true, c) => (mkLarge c now, w)
    | (false, c) => (mkLarge c now, release_block o w mem num_pages)
    end
  else (L, release_block o w mem num_pages).

(* src/core/large_alloc.h:178-187 LargeAlloc::onTick *)
Definition large_onTick (o : Oracle) (L : LargeAlloc) (w : World) : LargeAlloc * World :=
  let now := u32 (tick_ L + 1) in
  let '(c, w) := purgeIdle now (fun a pages w => release_block o w (base (span_at w a)) pages) (cache_ L) w in
  (mkLarge c now, w).

(* src/core/large_alloc.h:349-351 LargeAlloc::getSize *)
Definition large_getSize (w : World) (a : Z) : Z := large_size (span_at w a).
End LargeAlloc.
