(* ===== verification/LargeCorrect.v ===== *)
(** * Correctness of large allocations (for [LargeAlloc.v])

    The blocks clients hold and the cached ones are pairwise disjoint, the
    arena's among them are runs the arena has handed out, and the page map
    leads from the address of a held block to its descriptor. *)

From S2P Require Import Prelude BitOps Config SizeClasses PageState IntrusiveList Span.
From S2P Require Import VmRegion PageMap Slab SlabFacts SlabOps LargeCache LargeAlloc.

#[local] Abbreviation page_count := Span.page_count.
#[local] Abbreviation Span := Span.Span.

Section Large.
Context `{PG : PageGeometry}.

(** ** Resolving an address to its span *)

(** The flat table inside the arena, the radix tree outside. *)
(* src/smash_heap.h:1505-1515 SmashHeap::free *)
Definition resolveSpan (pm : PageMap) (addr : Z) : Z :=
  match vm_region pm with
  | Some v => if inContigArena (arena v) addr && (match flat v with Some _ => true | None => false end)
              then getSpan v (contigPageIndex (arena v) addr) else pm_get pm addr
  | None => pm_get pm addr
  end.

Lemma contig_page_shift a addr : contigPageIndex a addr = (addr - base_ a) / kPageSize.
Proof.
  unfold contigPageIndex, kPageSize. rewrite Z.shiftr_div_pow2; [done|]. destruct kPageShift_cases; lia.
Qed.

Lemma resolve_arena pm v batch live ext addr :
  pm_ok pm v batch live ext -> inContigArena (arena v) addr = true ->
  resolveSpan pm addr = flat_span v ((addr - base_ (arena v)) / kPageSize).
Proof.
  intros [Hvm O (ps & pt & Hf)] Ha. unfold resolveSpan. rewrite Hvm, Ha, Hf. cbn [andb]. unfold getSpan, flat_span.
  rewrite Hf, contig_page_shift. pose proof (total_bound _ _ _ _ O). unfold inContigArena in Ha. b2p. pose proof pg_pos.
  rewrite (proj2 (Z.leb_gt _ _)); [done|]. assert ((addr - base_ (arena v)) / kPageSize < contig_pages_ (arena v)); [|lia].
  apply Z.div_lt_upper_bound; nia.
Qed.

Lemma resolve_out pm v batch live ext addr :
  pm_ok pm v batch live ext -> inContigArena (arena v) addr = false ->
  resolveSpan pm addr = radix (level1 pm) (Z.shiftr addr kPageShift).
Proof. intros [Hvm _ _] Ha. unfold resolveSpan. by rewrite Hvm, Ha, pm_get_radix. Qed.

Lemma page_number_inj x y :
  x mod kPageSize = 0 -> y mod kPageSize = 0 -> Z.shiftr x kPageShift = Z.shiftr y kPageShift -> x = y.
Proof.
  unfold kPageSize. rewrite !Z.shiftr_div_pow2 by (destruct kPageShift_cases; lia).
  destruct kPageShift_cases as [-> | ->]; dlia.
Qed.

Lemma aligned_run a addr :
  base_ a mod kPageSize = 0 -> addr mod kPageSize = 0 -> run_addr a ((addr - base_ a) / kPageSize) = addr.
Proof.
  intros Hb Ha. pose proof pg_pos. unfold run_addr.
  assert (Hm : (addr - base_ a) mod kPageSize = 0) by (rewrite Zminus_mod, Ha, Hb; apply Zmod_0_l).
  apply Z.div_exact in Hm; lia.
Qed.

(** An address outside the arena writes the flat table beyond the arena's pages. *)
Lemma pm_set_out span_of pm v batch live ext addr x :
  pm_ok pm v batch live ext -> 0 <= addr < 2 ^ 64 -> inContigArena (arena v) addr = false ->
  exists v', pm_ok (pm_set span_of pm addr x) v' batch live ext /\ same_region v' v /\
    forall j, j < contig_pages_ (arena v) -> flat_span v' j = flat_span v j /\ flat_tag v' j = flat_tag v j.
Proof.
  intros [Hvm O HT] Ha Hout. unfold pm_set, mirrorFlat. destruct (ensureL2 _ _) as [tbl lv]. cbn [vm_region]. rewrite Hvm.
  case_if; [by exists v|]. unfold vm_contains in E. rewrite (vo_mode _ _ _ _ O), Hout in E. b2p.
  unfold pageIndex. rewrite (vo_mode _ _ _ _ O), Hout. set (i := lookupIdx (tracker v) addr) in *.
  assert (Hi : contig_pages_ (arena v) <= i).
  { unfold i in *. rewrite (lookup_rep _ _ _ (vo_track _ _ _ _ O)) in * by done. case_if; [done|].
    destruct (ext !! _) as [idx|] eqn:Em; [|done]. cbn in *. pose proof (tr_idx _ _ _ (vo_track _ _ _ _ O) _ _ Em). lia. }
  destruct (Z.leb_spec (total_pages_ v) i) as [Hge|Hlt].
  - assert (setSpan v i x (pageTag span_of x) = v) as ->.
    { unfold setSpan. destruct (flat v); [|done]. by rewrite (proj2 (Z.leb_le _ _)). }
    by exists v.
  - pose proof (vo_contig _ _ _ _ O). destruct (setSpan_spec span_of v i x HT ltac:(lia)) as (S1 & S2 & S3 & S4).
    eexists. splits; [constructor; [done|by eapply vm_ok_same|done]|done|]. intros j Hj. rewrite S3, S4. case_if; [lia|done].
Qed.

(** Writing one page changes what that page resolves to and nothing else. *)
Lemma pm_set_resolve span_of pm v batch live ext addr x :
  pm_ok pm v batch live ext -> 0 <= addr < 2 ^ 64 -> addr mod kPageSize = 0 ->
  exists v', pm_ok (pm_set span_of pm addr x) v' batch live ext /\ same_region v' v /\
    resolveSpan (pm_set span_of pm addr x) addr = x /\
    forall q, 0 <= q -> q mod kPageSize = 0 -> q <> addr ->
      resolveSpan (pm_set span_of pm addr x) q = resolveSpan pm q.
Proof.
  intros P Ha Hal. pose proof (po_ok _ _ _ _ _ P) as O. pose proof (ai_base _ _ _ (vo_arena _ _ _ _ O)) as (Hb0 & Hbm & Hbt).
  pose proof pg_pos as Hpp.
  assert (Hsh : forall q, 0 <= q -> 0 <= Z.shiftr q kPageShift) by (intros q Hq; by apply Z.shiftr_nonneg).
  destruct (inContigArena (arena v) addr) eqn:Hin.
  - set (idx := (addr - base_ (arena v)) / kPageSize).
    assert (Hidx : 0 <= idx < contig_pages_ (arena v) /\ addr = run_addr (arena v) idx).
    { unfold inContigArena in Hin. b2p. unfold idx. splits; [apply Z.div_pos; lia|apply Z.div_lt_upper_bound; nia|by rewrite aligned_run]. }
    destruct Hidx as [Hi Ead]. destruct (pm_set_arena span_of pm v _ _ _ idx x P Hi) as (v' & P' & S & R & F & _).
    rewrite <- Ead in P', R. exists v'. pose proof S as (_ & _ & Ea & _). splits; [done|done| |].
    + rewrite (resolve_arena _ v' _ _ _ addr P') by (by rewrite Ea). rewrite Ea, F. fold idx. by rewrite Z.eqb_refl.
    + intros q Hq Hqm Hne. destruct (inContigArena (arena v) q) eqn:Hiq.
      * rewrite (resolve_arena _ v' _ _ _ q P'), (resolve_arena _ v _ _ _ q P) by (by rewrite ?Ea). rewrite Ea, F.
        case_if; [|done]. exfalso. apply Hne. by rewrite Ead, E, aligned_run.
      * rewrite (resolve_out _ v' _ _ _ q P'), (resolve_out _ v _ _ _ q P) by (by rewrite ?Ea). rewrite R by auto.
        rewrite <- (arena_page_number _ _ _ idx (vo_arena _ _ _ _ O)), <- Ead by lia. case_if; [|done].
        exfalso. apply Hne. by apply page_number_inj.
  - destruct (pm_set_out span_of pm v _ _ _ addr x P Ha Hin) as (v' & P' & S & F). exists v'. pose proof S as (_ & _ & Ea & _).
    splits; [done|done| |].
    + rewrite (resolve_out _ v' _ _ _ addr P') by (by rewrite Ea). rewrite set_spec by (lia || (apply Hsh; lia)). by rewrite Z.eqb_refl.
    + intros q Hq Hqm Hne. destruct (inContigArena (arena v) q) eqn:Hiq.
      * rewrite (resolve_arena _ v' _ _ _ q P'), (resolve_arena _ v _ _ _ q P) by (by rewrite ?Ea). rewrite Ea.
        refine (proj1 (F _ _)). unfold inContigArena in Hiq. b2p. apply Z.div_lt_upper_bound; nia.
      * rewrite (resolve_out _ v' _ _ _ q P'), (resolve_out _ v _ _ _ q P) by (by rewrite ?Ea). rewrite set_spec by (lia || (apply Hsh; lia)).
        case_if; [|done]. exfalso. apply Hne. symmetry. by apply page_number_inj.
Qed.

(** The arena's range. *)
Definition bounds (pm : PageMap) : option (Z * Z) :=
  match vm_region pm with Some v => Some (base_ (arena v), contig_pages_ (arena v)) | None => None end.

(** The tag the lean entry points read. *)
Definition tag_at (pm : PageMap) (q : Z) : Z :=
  match vm_region pm with
  | Some v => if inContigArena (arena v) q then flat_tag v ((q - base_ (arena v)) / kPageSize) else 0
  | None => 0
  end.

(** Two page maps that answer alike. *)
Definition still (pm pm' : PageMap) : Prop :=
  bounds pm' = bounds pm /\ forall q, resolveSpan pm' q = resolveSpan pm q /\ tag_at pm' q = tag_at pm q.

#[export] Instance still_preorder : PreOrder still.
Proof. split; [done|]. intros x y z [B1 K1] [B2 K2]. split; [congruence|]. intros q. destruct (K1 q), (K2 q). split; congruence. Qed.

Lemma still_same pm pm' v v' batch live ext batch' live' ext' :
  pm_ok pm v batch live ext -> pm_ok pm' v' batch' live' ext' -> level1 pm' = level1 pm -> flat v' = flat v ->
  base_ (arena v') = base_ (arena v) -> contig_pages_ (arena v') = contig_pages_ (arena v) -> still pm pm'.
Proof.
  intros P P' El Ef Eb Ec. pose proof (po_vm _ _ _ _ _ P) as V. pose proof (po_vm _ _ _ _ _ P') as V'.
  split; [unfold bounds; by rewrite V, V', Eb, Ec|]. intros q.
  assert (Hin : inContigArena (arena v') q = inContigArena (arena v) q) by (unfold inContigArena; by rewrite Eb, Ec).
  assert (Hf : flat_span v' = flat_span v /\ flat_tag v' = flat_tag v) by (unfold flat_span, flat_tag; by rewrite Ef). destruct Hf as [Hf1 Hf2].
  unfold tag_at. rewrite V, V', Hin, Eb, Hf2. split; [|done]. destruct (inContigArena (arena v) q) eqn:E.
  - rewrite (resolve_arena _ _ _ _ _ _ P' Hin), (resolve_arena _ _ _ _ _ _ P E). by rewrite Hf1, Eb.
  - rewrite (resolve_out _ _ _ _ _ _ P' Hin), (resolve_out _ _ _ _ _ _ P E). by rewrite El.
Qed.

Lemma page_bounds x : x / kPageSize * kPageSize <= x < (x / kPageSize + 1) * kPageSize.
Proof.
  pose proof pg_pos. assert (Hp : 0 < kPageSize) by lia.
  pose proof (Z.mul_div_le x kPageSize Hp). pose proof (Z.mul_succ_div_gt x kPageSize Hp). lia.
Qed.

(** Writing one page leaves every other page as it was. *)
Lemma pm_set_apart span_of pm v batch live ext addr x :
  pm_ok pm v batch live ext -> 0 <= addr < 2 ^ 64 -> addr mod kPageSize = 0 ->
  let pm' := pm_set span_of pm addr x in
  bounds pm' = bounds pm /\ tag_at pm' addr = (if inContigArena (arena v) addr then pageTag span_of x else 0) /\
  forall q, 0 <= q -> q / kPageSize <> addr / kPageSize -> resolveSpan pm' q = resolveSpan pm q /\ tag_at pm' q = tag_at pm q.
Proof.
  intros P Ha Hal. pose proof (po_ok _ _ _ _ _ P) as O. pose proof (ai_base _ _ _ (vo_arena _ _ _ _ O)) as (Hb0 & Hbm & _).
  pose proof pg_pos as Hpp. pose proof (po_vm _ _ _ _ _ P) as V. set (b := base_ (arena v)) in *.
  assert (Hbd : b = b / kPageSize * kPageSize) by (apply Z.div_exact in Hbm; lia).
  assert (Hj : forall q, (q - b) / kPageSize = q / kPageSize - b / kPageSize).
  { intros q. rewrite Hbd at 1. replace (q - b / kPageSize * kPageSize) with (q + (- (b / kPageSize)) * kPageSize) by lia. rewrite Z.div_add by lia. lia. }
  assert (Hsh : forall q, Z.shiftr q kPageShift = q / kPageSize) by (intros q; unfold kPageSize; rewrite Z.shiftr_div_pow2; [done|destruct kPageShift_cases; lia]).
  assert (Hsn : forall q, 0 <= q -> 0 <= Z.shiftr q kPageShift) by (intros q Hq; by apply Z.shiftr_nonneg).
  assert (Hlow : forall q, inContigArena (arena v) q = true -> (q - b) / kPageSize < contig_pages_ (arena v)).
  { intros q Hq. unfold inContigArena in Hq. fold b in Hq. b2p. apply Z.div_lt_upper_bound; nia. }
  cbv zeta. destruct (inContigArena (arena v) addr) eqn:Hin.
  - set (idx := (addr - b) / kPageSize).
    assert (Hidx : 0 <= idx < contig_pages_ (arena v) /\ addr = run_addr (arena v) idx).
    { split; [|by unfold idx; rewrite (aligned_run (arena v))]. split; [|by apply Hlow]. unfold inContigArena in Hin. fold b in Hin. b2p. apply Z.div_pos; lia. }
    destruct Hidx as [Hi Ead]. destruct (pm_set_arena span_of pm v _ _ _ idx x P Hi) as (v' & P' & (_ & _ & Ea & _) & R & F & T).
    rewrite <- Ead in P', R. pose proof (po_vm _ _ _ _ _ P') as V'. unfold bounds, tag_at. rewrite V, V', Ea. fold b. rewrite Hin. fold idx. rewrite T, Z.eqb_refl.
    splits; [done|done|]. intros q Hq Hne. rewrite T. split.
    + destruct (inContigArena (arena v) q) eqn:Hiq.
      * rewrite (resolve_arena _ v' _ _ _ q P'), (resolve_arena _ v _ _ _ q P) by (by rewrite ?Ea). rewrite Ea, F. fold b.
        case_if; [|done]. b2p. unfold idx in *. rewrite !Hj in *. lia.
      * rewrite (resolve_out _ v' _ _ _ q P'), (resolve_out _ v _ _ _ q P) by (by rewrite ?Ea). rewrite R by auto.
        case_if; [|done]. b2p. unfold idx in *. rewrite Hsh, Hj in *. fold b in E. lia.
    + case_if; [|done]. case_if; [|done]. b2p. unfold idx in *. rewrite !Hj in *. lia.
  - destruct (pm_set_out span_of pm v _ _ _ addr x P Ha Hin) as (v' & P' & (_ & _ & Ea & _) & F). pose proof (po_vm _ _ _ _ _ P') as V'.
    unfold bounds, tag_at. rewrite V, V', Ea, Hin. splits; [done|done|]. intros q Hq Hne. fold b. destruct (inContigArena (arena v) q) eqn:Hiq.
    + rewrite (resolve_arena _ v' _ _ _ q P'), (resolve_arena _ v _ _ _ q P) by (by rewrite ?Ea). rewrite Ea. apply F. by apply Hlow.
    + rewrite (resolve_out _ v' _ _ _ q P'), (resolve_out _ v _ _ _ q P) by (by rewrite ?Ea). rewrite set_spec by (lia || (apply Hsn; lia)).
      split; [|done]. case_if; [|done]. b2p. rewrite !Hsh in *. lia.
Qed.

(** ** Blocks *)

Definition blk_base (w : World) (a : Z) : Z := base (span_at w a).
Definition blk_len (w : World) (a : Z) : Z := page_count (span_at w a) * kPageSize.
Definition in_arena (ar : Arena) (w : World) (a : Z) : Prop := inContigArena ar (blk_base w a) = true.
#[export] Instance in_arena_dec ar w a : Decision (in_arena ar w a).
Proof. unfold in_arena. apply _. Defined.

Definition arena_runs (ar : Arena) (w : World) (own : list Z) : list FreeRun :=
  map (fun a => span_run ar (span_at w a)) (filter (in_arena ar w) own).

(** A page run inside the address space. *)
Definition range_ok (mem pages : Z) : Prop :=
  0 < mem /\ mem mod kPageSize = 0 /\ 1 <= pages < 2 ^ 32 /\ mem + pages * kPageSize <= 2 ^ 64.

(** Away from the arena. *)
Definition off_arena (ar : Arena) (mem len : Z) : Prop := disjoint_iv mem len (base_ ar) (contig_pages_ ar * kPageSize).

Record own_ok (own : list Z) (w : World) (ar : Arena) : Prop := {
  ow_nodup : NoDup own;
  ow_span : forall a, a ∈ own -> a <> 0 /\ a ∈ dom (descr w) /\ is_large (span_at w a) = true /\
    range_ok (blk_base w a) (page_count (span_at w a));
  ow_out : forall a, a ∈ own -> ~ in_arena ar w a -> off_arena ar (blk_base w a) (blk_len w a);
  ow_disj : forall a b, a ∈ own -> b ∈ own -> a <> b -> ~ in_arena ar w a -> ~ in_arena ar w b ->
    disjoint_iv (blk_base w a) (blk_len w a) (blk_base w b) (blk_len w b)
}.

(** [pages] pages at [mem] belong to nobody in [own]; if they lie in the arena
    they are a live run. *)
Definition room (own : list Z) (w : World) (ar : Arena) (live rest : list FreeRun) (mem pages : Z) : Prop :=
  range_ok mem pages /\
  if inContigArena ar mem
  then live ≡ₚ mkRun ((mem - base_ ar) / kPageSize) pages :: arena_runs ar w own ++ rest
  else live ≡ₚ arena_runs ar w own ++ rest /\ off_arena ar mem (pages * kPageSize) /\
       forall b, b ∈ own -> ~ in_arena ar w b -> disjoint_iv mem (pages * kPageSize) (blk_base w b) (blk_len w b).

Definition blocks_ok (own : list Z) (w : World) (ar : Arena) (live rest : list FreeRun) : Prop :=
  own_ok own w ar /\ live ≡ₚ arena_runs ar w own ++ rest.

Lemma own_ok_perm own own' w ar : own ≡ₚ own' -> own_ok own w ar -> own_ok own' w ar.
Proof.
  intros Hp [N S O D]. constructor; [by rewrite <- Hp|..].
  - intros a Ha. apply S. by rewrite Hp.
  - intros a Ha. apply O. by rewrite Hp.
  - intros a b Ha Hb. apply D; by rewrite Hp.
Qed.

Lemma blocks_ok_perm own own' w ar live rest : own ≡ₚ own' -> blocks_ok own w ar live rest -> blocks_ok own' w ar live rest.
Proof.
  intros Hp [O L]. split; [by eapply own_ok_perm|]. rewrite L. unfold arena_runs. by rewrite Hp.
Qed.

(** Only the descriptors of [own] and the bounds of the arena matter. *)
Lemma own_ok_same own w w' ar ar' :
  base_ ar' = base_ ar -> contig_pages_ ar' = contig_pages_ ar ->
  (forall a, a ∈ own -> span_at w' a = span_at w a /\ a ∈ dom (descr w')) ->
  own_ok own w ar -> own_ok own w' ar' /\ arena_runs ar' w' own = arena_runs ar w own.
Proof.
  intros Eb Ec Hat [N S O D].
  assert (Hin : forall a, a ∈ own -> in_arena ar' w' a <-> in_arena ar w a).
  { intros a Ha. unfold in_arena, inContigArena, blk_base. destruct (Hat a Ha) as [-> _]. by rewrite Eb, Ec. }
  assert (Hb : forall a, a ∈ own -> blk_base w' a = blk_base w a /\ blk_len w' a = blk_len w a).
  { intros a Ha. unfold blk_base, blk_len. by destruct (Hat a Ha) as [-> _]. }
  split; [constructor; [done|..]|].
  - intros a Ha. destruct (S a Ha) as (? & ? & ? & ?). destruct (Hb a Ha) as [-> _]. destruct (Hat a Ha) as [-> ?]. done.
  - intros a Ha Hn. destruct (Hb a Ha) as [-> ->]. unfold off_arena. rewrite Eb, Ec. apply O; [done|]. by rewrite <- Hin.
  - intros a b Ha Hb' Hne H1 H2. destruct (Hb a Ha) as [-> ->]. destruct (Hb b Hb') as [-> ->].
    apply D; try done; by rewrite <- Hin.
  - unfold arena_runs. rewrite (filter_ext_in _ (in_arena ar w)) by (intros a Ha; by apply Hin).
    apply map_ext_in. intros a Ha%list_elem_of_In%list_elem_of_filter. destruct Ha as [_ Ha].
    destruct (Hat a Ha) as [-> _]. unfold span_run. by rewrite Eb.
Qed.

Lemma room_same own w w' ar ar' live rest mem pages :
  base_ ar' = base_ ar -> contig_pages_ ar' = contig_pages_ ar ->
  (forall a, a ∈ own -> span_at w' a = span_at w a /\ a ∈ dom (descr w')) -> own_ok own w ar ->
  room own w ar live rest mem pages -> room own w' ar' live rest mem pages.
Proof.
  intros Eb Ec Hat O [Hr HR]. split; [done|]. destruct (own_ok_same own w w' ar ar' Eb Ec Hat O) as [_ ->].
  revert HR. unfold inContigArena at 1 2. rewrite Eb, Ec. case_if; [done|]. intros (L & Off & Hd). splits; [done| |].
  - unfold off_arena. by rewrite Eb, Ec.
  - intros b Hb Hnb. unfold blk_base, blk_len, in_arena, inContigArena, blk_base in *. destruct (Hat b Hb) as [Es _].
    rewrite Es in Hnb |- *. apply Hd; [done|]. by rewrite Eb, Ec in Hnb.
Qed.

(** Taking a block out of the owned ones leaves room where it was. *)
Lemma blocks_uncons a own w ar live rest :
  blocks_ok (a :: own) w ar live rest ->
  own_ok own w ar /\ (a ∉ own) /\ a <> 0 /\ room own w ar live rest (blk_base w a) (page_count (span_at w a)).
Proof.
  intros [[N S O D] L]. apply NoDup_cons in N as [Na N]. destruct (S a ltac:(by left)) as (A1 & A2 & A3 & A4).
  splits; [|done|done|].
  - constructor; [done|..]; intros; [apply S|apply O|apply D]; try done; by right.
  - split; [done|]. unfold arena_runs in L. rewrite filter_cons in L.
    destruct (decide (in_arena ar w a)) as [Hin|Hin]; unfold in_arena in Hin.
    + rewrite Hin. exact L.
    + destruct (inContigArena ar (blk_base w a)) eqn:E; [done|]. splits; [done| |].
      * apply O; [by left|]. unfold in_arena. by rewrite E.
      * intros b Hb Hnb. apply D; [by left|by right|congruence| |done]. unfold in_arena. by rewrite E.
Qed.

(** Describing a block where there is room adds it. *)
Lemma blocks_cons a own w ar live rest mem pages size arena :
  own_ok own w ar -> (a ∉ own) -> a <> 0 -> room own w ar live rest mem pages ->
  blocks_ok (a :: own) (put_span w a (span_initLarge mem size pages arena)) ar live rest.
Proof.
  intros O Hna Ha0 [Hr HR]. set (w' := put_span _ _ _).
  assert (Hat : forall b, b ∈ own -> span_at w' b = span_at w b /\ b ∈ dom (descr w')).
  { intros b Hb. unfold w'. rewrite span_at_put, (proj2 (Z.eqb_neq _ _)) by congruence. split; [done|].
    cbn. rewrite dom_insert_L. apply elem_of_union_r. by apply (ow_span _ _ _ O). }
  destruct (own_ok_same own w w' ar ar eq_refl eq_refl Hat O) as [[N S OO D] ER].
  assert (Ea : span_at w' a = span_initLarge mem size pages arena) by (unfold w'; by rewrite span_at_put, Z.eqb_refl).
  assert (Eb : blk_base w' a = mem /\ blk_len w' a = pages * kPageSize) by (unfold blk_base, blk_len; by rewrite Ea).
  destruct Eb as [Eb El].
  assert (Hd : ~ in_arena ar w' a -> off_arena ar mem (pages * kPageSize) /\
    forall b, b ∈ own -> ~ in_arena ar w' b -> disjoint_iv mem (pages * kPageSize) (blk_base w' b) (blk_len w' b)).
  { unfold in_arena at 1. rewrite Eb. intros Hn. case_if_in HR; [done|]. destruct HR as (_ & H1 & H2). split; [done|].
    intros b Hb Hnb. unfold blk_base, blk_len, in_arena, blk_base in *. destruct (Hat b Hb) as [Es _]. rewrite Es in *. by apply H2. }
  split; [constructor|].
  - by apply NoDup_cons.
  - intros b [->|Hb]%elem_of_cons; [|by apply S]. rewrite Eb, Ea. splits; try done. cbn. rewrite dom_insert_L. set_solver.
  - intros b [->|Hb]%elem_of_cons Hn; [|by apply OO]. rewrite Eb, El. by apply Hd.
  - intros b c [->|Hb]%elem_of_cons [->|Hc]%elem_of_cons Hne Hnb Hnc; [done| | |by apply D]; rewrite Eb, El.
    + by apply Hd.
    + destruct (Hd Hnc) as [_ Hd']. specialize (Hd' b Hb Hnb). unfold disjoint_iv in *. lia.
  - unfold arena_runs. rewrite filter_cons. destruct (decide (in_arena ar w' a)) as [Hin|Hin].
    + cbn [map]. fold (arena_runs ar w' own). rewrite ER, Ea. unfold in_arena in Hin. rewrite Eb in Hin. by rewrite Hin in HR.
    + fold (arena_runs ar w' own). rewrite ER. unfold in_arena in Hin. rewrite Eb in Hin. case_if_in HR; [done|apply HR].
Qed.

(** Live runs do not overlap. *)
Lemma live_disjoint ar batch live x y l :
  arena_inv ar batch live -> live ≡ₚ x :: y :: l ->
  disjoint_iv (page_index x) (VmArena.page_count x) (page_index y) (VmArena.page_count y).
Proof.
  intros I Hl. assert (Hn : NoDup (pages_of live)).
  { pose proof (ai_pages _ _ _ I) as Hpg. rewrite !pages_of_app in Hpg.
    assert (Hnd := NoDup_seqZ 0 (next_page_ ar)). rewrite <- Hpg, !NoDup_app in Hnd. naive_solver. }
  rewrite (pages_of_proper _ _ Hl), !pages_of_cons, NoDup_app in Hn. destruct Hn as (_ & Hd & _).
  destruct (live_run_bounds _ _ _ x I ltac:(rewrite Hl; by left)) as (_ & Px & _).
  destruct (live_run_bounds _ _ _ y I ltac:(rewrite Hl; right; by left)) as (_ & Py & _).
  unfold disjoint_iv. destruct (Z.le_gt_cases (page_index x + VmArena.page_count x) (page_index y)); [by left|].
  destruct (Z.le_gt_cases (page_index y + VmArena.page_count y) (page_index x)); [by right|]. exfalso.
  apply (Hd (Z.max (page_index x) (page_index y))).
  - apply elem_of_seqZ. lia.
  - apply elem_of_app. left. apply elem_of_seqZ. lia.
Qed.

Lemma runs_apart ar mem mem' n n' :
  base_ ar mod kPageSize = 0 -> mem mod kPageSize = 0 -> mem' mod kPageSize = 0 ->
  disjoint_iv ((mem - base_ ar) / kPageSize) n ((mem' - base_ ar) / kPageSize) n' ->
  disjoint_iv mem (n * kPageSize) mem' (n' * kPageSize).
Proof.
  intros Hb Hm Hm' Hd. pose proof (aligned_run ar mem Hb Hm) as E1. pose proof (aligned_run ar mem' Hb Hm') as E2.
  pose proof pg_pos. unfold run_addr, disjoint_iv in *.
  set (i := (mem - base_ ar) / kPageSize) in *. set (j := (mem' - base_ ar) / kPageSize) in *. rewrite <- E1, <- E2. nia.
Qed.

(** A run of the arena stays inside it. *)
Lemma live_inside ar batch live mem pages l :
  arena_inv ar batch live -> mem mod kPageSize = 0 -> live ≡ₚ mkRun ((mem - base_ ar) / kPageSize) pages :: l ->
  base_ ar <= mem /\ mem + pages * kPageSize <= base_ ar + contig_pages_ ar * kPageSize.
Proof.
  intros I Hm Hl. destruct (live_run_bounds _ _ _ _ I ltac:(rewrite Hl; by left)) as (B1 & _ & B3). cbn in B1, B3.
  pose proof (ai_range _ _ _ I). pose proof (ai_base _ _ _ I) as (_ & Hb & _). pose proof (aligned_run ar mem Hb Hm) as E. pose proof pg_pos.
  unfold run_addr in E. set (i := (mem - base_ ar) / kPageSize) in *. rewrite <- E. nia.
Qed.

(** New room is disjoint from every block, inside the arena or out. *)
Lemma room_disjoint own w ar batch live rest mem pages b :
  arena_inv ar batch live -> own_ok own w ar -> room own w ar live rest mem pages -> b ∈ own ->
  disjoint_iv mem (pages * kPageSize) (blk_base w b) (blk_len w b).
Proof.
  intros I O [(R1 & R2 & R3 & R4) HR] Hb. destruct (ow_span _ _ _ O b Hb) as (_ & _ & _ & (B1 & B2 & B3 & B4)).
  pose proof (ai_base _ _ _ I) as (_ & Hb0 & _).
  assert (Hrun : in_arena ar w b -> exists l, arena_runs ar w own ≡ₚ span_run ar (span_at w b) :: l).
  { intros Hin. assert (Hf : b ∈ filter (in_arena ar w) own) by (by apply list_elem_of_filter).
    apply elem_of_Permutation in Hf as [l Hl]. exists (map (fun a => span_run ar (span_at w a)) l).
    unfold arena_runs. by rewrite Hl. }
  destruct (inContigArena ar mem) eqn:Em.
  - destruct (decide (in_arena ar w b)) as [Hin|Hout].
    + destruct (Hrun Hin) as [l El]. rewrite El in HR. pose proof (live_disjoint _ _ _ _ _ _ I HR) as Hd.
      by apply (runs_apart ar).
    + pose proof (ow_out _ _ _ O b Hb Hout) as Hoff. destruct (live_inside _ _ _ _ _ _ I R2 HR).
      unfold off_arena, disjoint_iv in *. lia.
  - destruct HR as (HL & Hoff & Hd). destruct (decide (in_arena ar w b)) as [Hin|Hout]; [|by apply Hd].
    destruct (Hrun Hin) as [l El].
    assert (HL' : live ≡ₚ span_run ar (span_at w b) :: l ++ rest) by (rewrite HL, El; done).
    destruct (live_inside _ _ _ _ _ _ I B2 HL') as [L1 L2].
    fold (blk_base w b) in L1, L2. fold (blk_len w b) in L2. unfold off_arena, disjoint_iv in *. lia.
Qed.
End Large.
