(* ===== verification/LargeOps.v ===== *)
(** * The operations on large blocks keep the invariant (for [LargeAlloc.v])

    [large_allocate] hands out memory nobody else holds, [large_deallocate] and
    the tick take blocks back, and the page map follows. *)

From S2P Require Import Prelude BitOps Config SizeClasses PageState IntrusiveList Span.
From S2P Require Import VmRegion PageMap Slab SlabFacts SlabOps SlabBatch LargeCache LargeAlloc LargeCorrect.

#[local] Abbreviation page_count := Span.page_count.
#[local] Abbreviation Span := Span.Span.

Section LargeOps.
Context `{PG : PageGeometry} (cfg : SlabCfg) (maxb : Z).

(** Descriptors of the cached blocks. *)
Definition cached (L : LargeAlloc) : list Z := map fst (contents (cache_ L)).

(** Cached blocks have the page count of their bucket; held blocks resolve to
    their descriptor and are large enough. *)
Definition tracked (L : LargeAlloc) (w : World) (C : list Z) : Prop :=
  (forall x, x ∈ contents (cache_ L) -> page_count (span_at w x.1) = x.2) /\
  (forall a, a ∈ C -> resolveSpan (pmap w) (blk_base w a) = a /\ large_size (span_at w a) <= blk_len w a).

Definition la_inv (L : LargeAlloc) (w : World) (C : list Z) (rest : list FreeRun) : Prop :=
  cache_ok maxb (cache_ L) /\ tracked L w C /\
  exists v batch live ext, pm_ok (pmap w) v batch live ext /\ blocks_ok (C ++ cached L) w (arena v) live rest.

(** [f] is a block that may be registered: it overlaps no block of [C] or of the
    cache. *)
Definition offered (L : LargeAlloc) (w : World) (C : list Z) (rest : list FreeRun) (f : Found) : Prop :=
  cache_ok maxb (cache_ L) /\ tracked L w C /\
  match f_span f with Some a => a <> 0 /\ (a ∉ C ++ cached L) | None => True end /\
  exists v batch live ext, pm_ok (pmap w) v batch live ext /\ own_ok (C ++ cached L) w (arena v) /\
    room (C ++ cached L) w (arena v) live rest (f_mem f) (f_pages f).

(** The kernel maps pages nobody has mapped. *)
Definition fresh_map (o : Oracle) (w : World) (own : list Z) : Prop :=
  forall bytes p, o_map o bytes = Some p ->
    0 < p /\ p mod kPageSize = 0 /\ p + bytes <= 2 ^ 64 /\
    (forall v, vm_region (pmap w) = Some v -> off_arena (arena v) p bytes) /\
    (forall b, b ∈ own -> disjoint_iv p bytes (blk_base w b) (blk_len w b)).

Lemma fst_contents L L' a r :
  contents (cache_ L) ≡ₚ (a, r) :: contents (cache_ L') -> cached L ≡ₚ a :: cached L'.
Proof. intros H. unfold cached. by rewrite H. Qed.

(** ** World steps that leave blocks alone *)

Lemma markActive_same w mem n : descr (markActiveIfVm cfg w mem n) = descr w /\ pmap (markActiveIfVm cfg w mem n) = pmap w.
Proof. unfold markActiveIfVm. destruct (vm_region (pmap w)); [|done]. by repeat case_if. Qed.

Lemma span_at_descr w w' a : descr w' = descr w -> span_at w' a = span_at w a.
Proof. unfold span_at. by intros ->. Qed.

Lemma resolve_same pm pm' v v' batch live ext batch' live' ext' q :
  pm_ok pm v batch live ext -> pm_ok pm' v' batch' live' ext' -> level1 pm' = level1 pm -> flat v' = flat v ->
  base_ (arena v') = base_ (arena v) -> contig_pages_ (arena v') = contig_pages_ (arena v) ->
  resolveSpan pm' q = resolveSpan pm q.
Proof.
  intros P P' El Ef Eb Ec. assert (Hin : inContigArena (arena v') q = inContigArena (arena v) q) by (unfold inContigArena; by rewrite Eb, Ec).
  destruct (inContigArena (arena v) q) eqn:E.
  - rewrite (resolve_arena _ _ _ _ _ _ P' Hin), (resolve_arena _ _ _ _ _ _ P E). unfold flat_span. by rewrite Ef, Eb.
  - rewrite (resolve_out _ _ _ _ _ _ P' Hin), (resolve_out _ _ _ _ _ _ P E). by rewrite El.
Qed.

Lemma tracked_same L w w' C :
  descr w' = descr w -> (forall q, resolveSpan (pmap w') q = resolveSpan (pmap w) q) -> tracked L w C -> tracked L w' C.
Proof.
  intros Ed Er [T1 T2]. split.
  - intros x Hx. rewrite (span_at_descr _ w' _ Ed). by apply T1.
  - intros a Ha. unfold blk_base, blk_len. rewrite (span_at_descr _ w' _ Ed), Er. by apply T2.
Qed.

Lemma offered_same L w w' C rest f :
  descr w' = descr w -> pmap w' = pmap w -> offered L w C rest f -> offered L w' C rest f.
Proof.
  intros Ed Ep (H1 & H2 & H3 & v & batch & live & ext & P & O & R). unfold offered. splits; [done| |done|].
  - apply (tracked_same _ w); [done|intros; by rewrite Ep|done].
  - exists v, batch, live, ext. rewrite Ep. assert (Hat : forall a, a ∈ C ++ cached L -> span_at w' a = span_at w a /\ a ∈ dom (descr w')).
    { intros a Ha. rewrite (span_at_descr _ w' _ Ed), Ed. split; [done|]. by apply (ow_span _ _ _ O). }
    splits; [done|exact (proj1 (own_ok_same _ w w' (arena v) (arena v) eq_refl eq_refl Hat O))|].
    by eapply (room_same _ w w').
Qed.

(** ** Probing the cache *)

Lemma probe_spec up c r :
  maxb < 2 ^ 63 -> cache_ok maxb c -> r ∈ grid ->
  match probe_up up c r with
  | (None, c') => c' = c
  | (Some (a, r'), c') => r' ∈ grid /\ r <= r' /\ contents c ≡ₚ (a, r') :: contents c' /\ cache_ok maxb c'
  end.
Proof.
  intros Hm O. revert r. induction up as [|up IH]; intros r Hr; cbn [probe_up];
    pose proof (pop_spec maxb c r Hm O Hr) as Hp; destruct (cache_pop c r) as [[a|] c'].
  - destruct Hp. splits; done || lia.
  - by destruct Hp.
  - destruct Hp. splits; done || lia.
  - destruct Hp as [-> _]. pose proof max_pages_cases. case_if; [done|].
    pose proof Hr as [G Hle]%elem_of_grid. destruct (nextRounded_grid r G ltac:(lia)) as (G' & _ & Hlt).
    assert (Hr' : nextRounded r ∈ grid) by (apply elem_of_grid; split; [done|lia]). specialize (IH _ Hr').
    destruct (probe_up up c (nextRounded r)) as [[[a r']|] c2]; [|done]. destruct IH as (? & ? & ? & ?). splits; done || lia.
Qed.

Lemma round_in_grid n : 1 <= n <= kMaxPages -> roundPages n ∈ grid /\ n <= roundPages n.
Proof.
  intros Hn. pose proof max_pages_cases. destruct (roundPages_on_grid n ltac:(lia)) as (G & Hge & _).
  split; [|done]. apply elem_of_grid. split; [done|]. apply round_least; [lia|apply max_pages_grid|lia].
Qed.

(** A block that comes with a descriptor comes from the cache. *)
Definition recycled (L : LargeAlloc) (f : Found) : Prop := forall a, f_span f = Some a -> a ∈ cached L.

Lemma from_cache_spec L w C rest n f L' w' :
  maxb < 2 ^ 63 -> la_inv L w C rest -> 1 <= n <= kMaxPages -> from_cache cfg L w n = (f, L', w') ->
  match f with
  | None => cache_ L' = cache_ L /\ w' = w
  | Some f => offered L' w' C rest f /\ n <= f_pages f /\ recycled L f
  end.
Proof.
  intros Hm (O & [T1 T2] & v & batch & live & ext & P & B) Hn. unfold from_cache. destruct (round_in_grid n Hn) as [Hg Hge].
  pose proof (probe_spec 2 (cache_ L) _ Hm O Hg) as Hp. destruct (probe_up 2 (cache_ L) (roundPages n)) as [[[a r]|] c].
  2:{ intros [= <- <- <-]. by subst c. }
  destruct Hp as (Hr & Hle & Hc & Oc). intros [= <- <- <-]. cbn [f_pages].
  pose proof (proj1 (elem_of_grid r) Hr) as [G%grid_pos Hmx]. pose proof max_pages_cases.
  rewrite wrap_small by lia. set (L' := mkLarge c (tick_ L)).
  splits; [|lia|intros b [= <-]; rewrite (fst_contents L L' a r Hc); by left].
  destruct (markActive_same w (base (span_at w a)) r) as [Ed Ep]. apply (offered_same _ w); [done|done|].
  assert (Hown : C ++ cached L ≡ₚ a :: C ++ cached L') by (rewrite (fst_contents L L' a r Hc); by rewrite Permutation_middle).
  apply (blocks_ok_perm _ _ _ _ _ _ Hown) in B. destruct (blocks_uncons _ _ _ _ _ _ B) as (O' & Hna & Ha0 & R).
  pose proof (T1 (a, r) ltac:(rewrite Hc; by left)) as Epc. cbn in Epc. rewrite Epc in R. unfold offered. splits; [done| |done|].
  - split; [|done]. intros x Hx. apply T1. rewrite Hc. by right.
  - by exists v, batch, live, ext.
Qed.

(** ** New pages *)

Lemma la_inv_cache L L' w C rest : cache_ L' = cache_ L -> la_inv L w C rest -> la_inv L' w C rest.
Proof. destruct L, L'. cbn. by intros ->. Qed.

Lemma from_region_spec o L w C rest (cacheable : bool) n f w' :
  oracle_ok o -> 0 <= c_chunk cfg < 2 ^ 32 -> la_inv L w C rest ->
  let np := if cacheable then u32 (roundPages n) else n in
  1 <= np < 2 ^ 32 -> from_region cfg o w cacheable n = (f, w') ->
  match f with
  | None => w' = w
  | Some f => offered L w' C rest f /\ f_pages f = np /\ still (pmap w) (pmap w')
  end.
Proof.
  intros [Hsh _] Hch (O & T & v & batch & live & ext & P & [OW HL]) np Hnp. pose proof P as [Hvm OV HT]. unfold from_region.
  rewrite Hvm. fold np. pose proof (allocatePages_side (c_chunk cfg) (o_avail o) (o_shard o) v batch live ext np Hch Hsh Hnp OV) as Ha.
  destruct (allocatePages _ _ _ v np) as [[mem|] v'].
  2:{ intros [= <- <-]. subst v'. destruct w as [? [lv vr] ? ? ? ?]. cbn in Hvm. by rewrite Hvm. }
  destruct Ha as (idx & Em & Hi0 & Hi & OV' & Eb & Ef & Ec). intros [= <- <-].
  set (w1 := w_pmap w _). destruct (markActive_same w1 mem np) as [Ed Ep].
  assert (P1 : pm_ok (pmap w1) v' batch (mkRun idx np :: live) ext).
  { constructor; [done|done|]. unfold has_tables. by rewrite Ef. }
  splits; [|done|rewrite Ep; by apply (still_same _ _ v v' batch live ext batch (mkRun idx np :: live) ext)].
  apply (offered_same _ w1); [done|done|].
  destruct (own_ok_same (C ++ cached L) w w1 (arena v) (arena v') Eb Ec) as [OW1 ER]; [|done|].
  { intros a Ha'. split; [done|]. by apply (ow_span _ _ _ OW). }
  pose proof (ai_base _ _ _ (vo_arena _ _ _ _ OV')) as (Hb0 & Hbm & Hbt). pose proof pg_pos.
  unfold offered. cbn [f_span f_mem f_pages]. splits; [done| |done|].
  - apply (tracked_same _ w); [done| |done]. intros q. by apply (resolve_same _ _ v v' batch live ext batch (mkRun idx np :: live) ext).
  - exists v', batch, (mkRun idx np :: live), ext. splits; [done|done|]. split.
    + rewrite Em. unfold range_ok, run_addr. splits; try nia. rewrite Z.add_mod, Hbm, Z.mod_mul by lia. apply Zmod_0_l.
    + assert (Hin : inContigArena (arena v') mem = true).
      { rewrite Em. unfold inContigArena, run_addr. apply andb_true_iff. split; [apply Z.leb_le|apply Z.ltb_lt]; nia. }
      rewrite Hin, Em, ER, <- HL. by rewrite run_addr_index.
Qed.

Lemma room_map own w ar live rest p pages :
  blocks_ok own w ar live rest -> range_ok p pages -> off_arena ar p (pages * kPageSize) ->
  (forall b, b ∈ own -> disjoint_iv p (pages * kPageSize) (blk_base w b) (blk_len w b)) ->
  room own w ar live rest p pages.
Proof.
  intros [_ HL] R Hoff Hd. split; [done|]. pose proof pg_pos.
  assert (Hin : inContigArena ar p = false).
  { unfold inContigArena. apply andb_false_iff. unfold off_arena, disjoint_iv in Hoff. destruct R as (_ & _ & R & _).
    destruct Hoff; [left; apply Z.leb_gt; nia|right; apply Z.ltb_ge; nia]. }
  rewrite Hin. splits; [done|done|]. intros b Hb _. by apply Hd.
Qed.

(** A sub-range of a fresh mapping can be offered. *)
Lemma fresh_offered o L w w' C rest bytes p mem pages zeroed :
  la_inv L w C rest -> fresh_map o w (C ++ cached L) -> o_map o bytes = Some p ->
  p <= mem -> mem + pages * kPageSize <= p + bytes -> mem mod kPageSize = 0 -> 1 <= pages < 2 ^ 32 ->
  descr w' = descr w -> pmap w' = pmap w ->
  offered L w' C rest (mkFound mem pages None zeroed).
Proof.
  intros (O & T & v & batch & live & ext & P & B) F Ho H1 H2 H3 H4 Ed Ep. apply (offered_same _ w); [done|done|].
  destruct (F bytes p Ho) as (F1 & F2 & F3 & F4 & F5). specialize (F4 v (po_vm _ _ _ _ _ P)). pose proof pg_pos.
  unfold offered. cbn [f_span f_mem f_pages]. splits; [done|done|done|]. exists v, batch, live, ext.
  splits; [done|apply B|]. apply room_map; [done| | |].
  - unfold range_ok. splits; lia || done.
  - unfold off_arena, disjoint_iv in *. lia.
  - intros b Hb. specialize (F5 b Hb). unfold disjoint_iv in *. lia.
Qed.

Lemma from_mmap_spec o L w C rest (cacheable : bool) n k f w' :
  la_inv L w C rest -> fresh_map o w (C ++ cached L) -> 1 <= n < 2 ^ 32 -> (cacheable = true -> n <= kMaxPages /\ k = kPageShift) ->
  kPageShift <= k < 62 -> from_mmap o w cacheable (n * kPageSize) (2 ^ k) n = (f, w') ->
  match f with
  | None => w' = w
  | Some f => offered L w' C rest f /\ n <= f_pages f /\ f_mem f mod 2 ^ k = 0
  end.
Proof.
  intros I F Hn Hc Hk. pose proof pg_pos as Hpp. pose proof max_pages_cases as Hpg. unfold from_mmap.
  assert (Hps : 12 <= kPageShift <= 14) by (destruct kPageShift_cases; lia).
  assert (Hmul : n * kPageSize < 2 ^ 46) by nia. assert (Hk62 : 2 ^ k <= 2 ^ 62) by (apply Z.pow_le_mono_r; lia).
  assert (Hdirect : cacheable = true -> forall p, o_map o (u64 (roundPages n * kPageSize)) = Some p ->
    offered L w C rest (mkFound p (u32 (roundPages n)) None true) /\ n <= u32 (roundPages n) /\ p mod 2 ^ k = 0).
  { intros Hca p Ho. destruct (Hc Hca) as [Hle ->]. destruct (round_in_grid n ltac:(lia)) as [[G Hm]%elem_of_grid Hge].
    rewrite (wrap_small 32) by lia. rewrite wrap_small in Ho by nia. destruct (F _ _ Ho) as (F1 & F2 & F3 & _).
    splits; [|done|done]. eapply fresh_offered; try done; lia. }
  destruct (if cacheable then _ else None) as [f0|] eqn:Ed.
  { intros [= <- <-]. destruct cacheable; [|done]. destruct (o_map o (u64 (roundPages n * kPageSize))) as [p|] eqn:Ho; [|done].
    injection Ed as <-. by apply Hdirect. }
  case_if.
  - destruct (o_map o (n * kPageSize)) as [p|] eqn:Ho; intros [= <- <-]; [|done]. destruct (F _ _ Ho) as (F1 & F2 & F3 & _).
    assert (k = kPageShift) as -> by (unfold kPageSize in E; apply Z.pow_le_mono_r_iff in E; lia).
    splits; [|cbn; lia|done]. eapply fresh_offered; try done; lia.
  - unfold map_aligned. rewrite (wrap_small 64 (n * kPageSize + 2 ^ k)) by lia.
    destruct (o_map o (n * kPageSize + 2 ^ k)) as [p|] eqn:Ho; cbv zeta; intros [= <- <-]; [|done]. destruct (F _ _ Ho) as (F1 & F2 & F3 & _).
    destruct (roundUp_ge k p ltac:(lia) ltac:(lia) ltac:(lia)) as [Hr1 Hr2]. splits; [|cbn; lia|done].
    eapply (fresh_offered o L w _ C rest _ p); try done; [lia|lia| |by repeat case_if|by repeat case_if].
    assert (Hdiv : (kPageSize | roundUp p (2 ^ k))).
    { apply Z.divide_trans with (2 ^ k); [|by apply Z.mod_divide; [lia|]]. unfold kPageSize.
      exists (2 ^ (k - kPageShift)). rewrite <- Z.pow_add_r by lia. f_equal. lia. }
    by apply Z.mod_divide; [lia|].
Qed.

Lemma from_mmap_same o w cacheable s al n f w' : from_mmap o w cacheable s al n = (f, w') ->
  descr w' = descr w /\ pmap w' = pmap w /\ forall f0, f = Some f0 -> f_span f0 = None.
Proof.
  unfold from_mmap, map_aligned. destruct (if cacheable then _ else None) as [f0|] eqn:E.
  { intros [= <- <-]. splits; [done|done|]. intros f1 [= <-]. destruct cacheable; [|done]. destruct (o_map o _); [|done]. by injection E as <-. }
  clear E. case_if; (destruct (o_map o _); cbv zeta; intros [= <- <-]); splits; try done; try (by repeat case_if); by intros f1 [= <-].
Qed.

(** ** Registering a block *)

(** A change of what one page resolves to, with the same descriptors. *)
Lemma set_page w v batch live ext own rest addr x :
  pm_ok (pmap w) v batch live ext -> range_ok addr 1 -> blocks_ok own w (arena v) live rest ->
  let w' := w_pmap w (pm_set (span_at w) (pmap w) addr x) in
  resolveSpan (pmap w') addr = x /\
  (forall q, 0 <= q -> q mod kPageSize = 0 -> q <> addr -> resolveSpan (pmap w') q = resolveSpan (pmap w) q) /\
  exists v', pm_ok (pmap w') v' batch live ext /\ arena v' = arena v /\ blocks_ok own w' (arena v') live rest.
Proof.
  intros P (R1 & R2 & R3 & R4) [O HL] w'. pose proof pg_pos.
  destruct (pm_set_resolve (span_at w) (pmap w) v batch live ext addr x P ltac:(lia) R2) as (v' & P' & (_ & _ & Ea & _) & H1 & H2).
  splits; [done|done|]. exists v'. splits; [done|done|]. rewrite Ea.
  destruct (own_ok_same own w w' (arena v) (arena v) eq_refl eq_refl) as [O' ER]; [|done|split; [done|by rewrite ER]].
  intros a Ha. split; [done|]. by apply (ow_span _ _ _ O).
Qed.

Lemma range_first mem pages : range_ok mem pages -> range_ok mem 1.
Proof. intros (H1 & H2 & H3 & H4). pose proof pg_pos. unfold range_ok. splits; nia || done. Qed.

(** Blocks with different descriptors start at different pages. *)
Lemma bases_apart own w ar batch live rest mem pages b :
  arena_inv ar batch live -> own_ok own w ar -> room own w ar live rest mem pages -> b ∈ own -> blk_base w b <> mem.
Proof.
  intros I O R Hb. pose proof (room_disjoint _ _ _ _ _ _ _ _ _ I O R Hb) as Hd. destruct R as [(_ & _ & R & _) _].
  destruct (ow_span _ _ _ O b Hb) as (_ & _ & _ & (_ & _ & B & _)). pose proof pg_pos. unfold disjoint_iv, blk_len in Hd. nia.
Qed.

Lemma register_spec o L w C rest f size arena_id :
  oracle_ok o -> offered L w C rest f -> size <= f_pages f * kPageSize ->
  let w' := register_block o w f size arena_id in
  exists a, (a ∉ C) /\ la_inv L w' (a :: C) rest /\
    span_at w' a = span_initLarge (f_mem f) size (f_pages f) arena_id /\
    (forall b, b ∈ C -> span_at w' b = span_at w b) /\
    forall b, b ∈ C -> disjoint_iv (f_mem f) (f_pages f * kPageSize) (blk_base w b) (blk_len w b).
Proof.
  intros [_ Hfr] (OC & [T1 T2] & Hsp & v & batch & live & ext & P & O & R) Hsz. unfold register_block.
  set (a := match f_span f with Some a => a | None => o_descr o w end). set (own := C ++ cached L) in *.
  assert (Ha : a <> 0 /\ (a ∉ own)).
  { unfold a. destruct (f_span f); [done|]. destruct (Hfr w) as [H1 H2]. split; [done|]. intros Hin. by apply H2, (ow_span _ _ _ O). }
  destruct Ha as [Ha0 Hna]. pose proof (vo_arena _ _ _ _ (po_ok _ _ _ _ _ P)) as I.
  pose proof (blocks_cons a own w (arena v) live rest (f_mem f) (f_pages f) size arena_id O Hna Ha0 R) as B.
  set (w1 := put_span w a _) in *. assert (R1 : range_ok (f_mem f) 1) by (eapply range_first, R).
  destruct (set_page w1 v batch live ext (a :: own) rest (f_mem f) a P R1 B) as (E1 & E2 & v' & P' & Ea & B').
  set (w' := w_pmap w1 _) in *. exists a.
  assert (Hat : forall b, span_at w' b = if a =? b then span_initLarge (f_mem f) size (f_pages f) arena_id else span_at w b)
    by (intros b; apply span_at_put).
  assert (Hin : forall b, b ∈ own -> span_at w' b = span_at w b) by (intros b Hb; rewrite Hat, (proj2 (Z.eqb_neq _ _)); congruence).
  assert (HC : forall b, b ∈ C -> b ∈ own) by (intros b Hb; unfold own; set_solver).
  assert (Hself : span_at w' a = span_initLarge (f_mem f) size (f_pages f) arena_id) by (by rewrite Hat, Z.eqb_refl).
  splits; [by intros ?%HC| |done|by intros b ?%HC; apply Hin|].
  - unfold la_inv. splits; [done| |by exists v', batch, live, ext]. split.
    + intros x Hx. rewrite Hin; [by apply T1|]. unfold own, cached. apply elem_of_app. right. apply list_elem_of_fmap. by exists x.
    + intros b [->|Hb]%elem_of_cons; unfold blk_base, blk_len; [by rewrite Hself|]. rewrite Hin by (by apply HC).
      destruct (T2 b Hb) as [T2a T2b]. split; [|done]. rewrite E2; [done| | |].
      * apply Z.lt_le_incl, (ow_span _ _ _ O b (HC b Hb)).
      * by apply (ow_span _ _ _ O b (HC b Hb)).
      * by apply (bases_apart own w (arena v) batch live rest (f_mem f) (f_pages f) b I O R (HC b Hb)).
  - intros b ?%HC. by eapply room_disjoint.
Qed.

(** ** Allocation *)

(** A request of [size] bytes is [n] pages, unless the count overflows. *)
Lemma request_pages size :
  1 <= size <= (2 ^ 32 - 1) * kPageSize ->
  let n := u32 (roundUp size kPageSize / kPageSize) in
  1 <= n < 2 ^ 32 /\ roundUp size kPageSize = n * kPageSize /\ size <= n * kPageSize.
Proof.
  intros Hs. pose proof pg_pos as Hpp. pose proof max_pages_cases as Hpg. cbv zeta.
  assert (Hk : 0 <= kPageShift < 64) by (destruct kPageShift_cases; lia).
  pose proof (roundUp_spec kPageShift size Hk) as Hr. fold kPageSize in Hr. rewrite Hr by lia. rewrite Z.div_mul by lia.
  assert (1 <= (size + kPageSize - 1) / kPageSize < 2 ^ 32) by (split; [apply Z.div_le_lower_bound; lia|apply Z.div_lt_upper_bound; lia]).
  rewrite wrap_small by lia. splits; try lia. destruct Hpg as [[-> _]|[-> _]]; dlia.
Qed.

Lemma pow_mod_weaken p j k : 0 <= j <= k -> p mod 2 ^ k = 0 -> p mod 2 ^ j = 0.
Proof.
  intros Hj Hp. apply Z.mod_divide in Hp; [|lia]. apply Z.mod_divide; [lia|]. eapply Z.divide_trans; [|done].
  exists (2 ^ (k - j)). rewrite <- Z.pow_add_r by lia. f_equal. lia.
Qed.

Lemma offered_aligned L w C rest f : offered L w C rest f -> f_mem f mod kPageSize = 0.
Proof. intros (_ & _ & _ & v & batch & live & ext & _ & _ & [(_ & H & _) _]). done. Qed.

(** The alignment [allocate] works with. *)
Lemma effective_alignment k : 0 <= k < 62 ->
  exists j, kPageShift <= j < 62 /\ k <= j /\ (if 2 ^ k <? kPageSize then kPageSize else 2 ^ k) = 2 ^ j /\
    ((2 ^ j <=? kPageSize) = true -> j = kPageShift).
Proof.
  intros Hk. assert (12 <= kPageShift <= 14) by (destruct kPageShift_cases; lia). unfold kPageSize.
  exists (Z.max k kPageShift). splits; try lia.
  - case_if; f_equal; [|].
    + apply Z.pow_lt_mono_r_iff in E; lia.
    + apply Z.pow_le_mono_r_iff in E; lia.
  - intros E. b2p. apply Z.pow_le_mono_r_iff in E; lia.
Qed.

Lemma allocate_offer o L w C rest size k arena_id r L' w' :
  oracle_ok o -> fresh_map o w (C ++ cached L) -> maxb < 2 ^ 63 -> 0 <= c_chunk cfg < 2 ^ 32 ->
  la_inv L w C rest -> 1 <= size <= (2 ^ 32 - 1) * kPageSize -> 0 <= k < 62 ->
  large_allocate cfg o L w size (2 ^ k) arena_id = (r, L', w') ->
  match r with
  | None => w' = w /\ la_inv L' w' C rest
  | Some (p, z) => exists f w1, offered L' w1 C rest f /\ (descr w1 = descr w /\ still (pmap w) (pmap w1) /\ recycled L f) /\ size <= f_pages f * kPageSize /\ f_mem f = p /\
      p mod 2 ^ k = 0 /\ w' = register_block o w1 f size arena_id
  end.
Proof.
  intros Ho F Hm Hch I Hs Hk. unfold large_allocate. destruct (effective_alignment k Hk) as (j & Hj & Hkj & -> & Hjp).
  destruct (request_pages size Hs) as (Hn & Er & Hsz). pose proof pg_pos as Hpp.
  set (n := u32 (roundUp size kPageSize / kPageSize)) in *. rewrite Er. clearbody n. clear Er.
  set (cacheable := (2 ^ j <=? kPageSize) && (n <=? kMaxPages)).
  assert (Hpg : forall f L1 w1, offered L1 w1 C rest f -> (2 ^ j <=? kPageSize) = true -> f_mem f mod 2 ^ k = 0).
  { intros f L1 w1 Hof Hp. apply pow_mod_weaken with j; [lia|]. rewrite (Hjp Hp). by apply (offered_aligned _ _ _ _ _ Hof). }
  destruct (if cacheable then from_cache cfg L w n else (None, L, w)) as [[f1 L1] w1] eqn:E1.
  assert (H1 : match f1 with
    | None => cache_ L1 = cache_ L /\ w1 = w
    | Some f => offered L1 w1 C rest f /\ n <= f_pages f /\ (2 ^ j <=? kPageSize) = true /\ (descr w1 = descr w /\ still (pmap w) (pmap w1) /\ recycled L f) end).
  { unfold cacheable in E1. case_if_in E1; [|injection E1 as <- <- <-; done].
    pose proof (from_cache_spec L w C rest n f1 L1 w1 Hm I ltac:(lia) E1) as Hc. destruct f1; [|done]. destruct Hc as (? & ? & ?). splits; try done; [lia|..];
    (revert E1; unfold from_cache; destruct (probe_up _ _ _) as [[[a r']|] c]; [|done]; intros [= _ _ <-]).
    - by apply markActive_same.
    - by rewrite (proj2 (markActive_same _ _ _)). }
  clear E1. destruct f1 as [f1|].
  { intros [= <- <- <-]. destruct H1 as (Hof & Hp & Ha & Ed & Es & Ey). exists f1, w1. splits; try done; [nia|by eapply Hpg]. }
  destruct H1 as [EL ->]. assert (I1 : la_inv L1 w C rest) by (by apply (la_inv_cache L)).
  assert (F1 : fresh_map o w (C ++ cached L1)) by (unfold cached; by rewrite EL).
  destruct (if (_ && _)%bool then from_region cfg o w cacheable n else _) as [f2 w2] eqn:E2.
  assert (H2 : match f2 with
    | None => w2 = w
    | Some f => offered L1 w2 C rest f /\ n <= f_pages f /\ (2 ^ j <=? kPageSize) = true /\ (descr w2 = descr w /\ still (pmap w) (pmap w2) /\ recycled L f) end).
  { case_if_in E2; [|by injection E2 as <- <-]. pose proof max_pages_cases.
    assert (Hnp : n <= (if cacheable then u32 (roundPages n) else n) < 2 ^ 32).
    { unfold cacheable. case_if; [|lia]. destruct (round_in_grid n ltac:(lia)) as [[_ ?]%elem_of_grid ?]. rewrite wrap_small; lia. }
    pose proof (from_region_spec o L1 w C rest cacheable n f2 w2 Ho Hch I1 ltac:(lia) E2) as Hr. destruct f2; [|done].
    destruct Hr as (? & -> & ?). splits; [done|apply Hnp|by apply Z.leb_le| |done|];
    (revert E2; unfold from_region; destruct (vm_region _); [|done]; destruct (allocatePages _ _ _ _ _) as [[mem|] v']; [|done]).
    - intros [= _ <-]. etransitivity; [apply markActive_same|done].
    - by intros [= <- _]. }
  clear E2. destruct f2 as [f2|].
  { intros [= <- <- <-]. destruct H2 as (Hof & Hp & Ha & Ed & Es & Ey). exists f2, w2. splits; try done; [nia|by eapply Hpg]. }
  subst w2. destruct (from_mmap o w cacheable (n * kPageSize) (2 ^ j) n) as [f3 w3] eqn:E3.
  pose proof (from_mmap_spec o L1 w C rest cacheable n j f3 w3 I1 F1 Hn ltac:(unfold cacheable; intros ?; b2p; split; [done|apply Hjp; lia]) Hj E3) as H3.
  destruct f3 as [f3|]; intros [= <- <- <-]; [|by subst w3]. destruct H3 as (Hof & Hp & Ha). exists f3, w3.
  destruct (from_mmap_same _ _ _ _ _ _ _ _ E3) as (Ed & Ep & En).
  splits; try done; [by rewrite Ep|intros a Ea; by rewrite En in Ea|nia|by apply pow_mod_weaken with j; [lia|]].
Qed.

(** A failed allocation leaves the cache as it was. *)
Lemma probe_up_none up c r c' : probe_up up c r = (None, c') -> c' = c.
Proof.
  revert c r. induction up as [|up IH]; intros c r; cbn [probe_up]; unfold cache_pop; destruct (blocks _) as [|p l]; try done; [by intros [= ->]|].
  case_if; [by intros [= ->]|]. apply IH.
Qed.

Lemma large_fail_same o L w size alignment arena_id L' w' : large_allocate cfg o L w size alignment arena_id = (None, L', w') -> L' = L.
Proof.
  unfold large_allocate. set (al := if alignment <? kPageSize then _ else _). set (n := u32 _). set (ca := _ && (n <=? kMaxPages)).
  destruct (if ca then from_cache cfg L w n else (None, L, w)) as [[f1 L1] w1] eqn:E1.
  assert (HL : f1 = None -> L1 = L).
  { intros ->. destruct ca; [|by injection E1]. unfold from_cache in E1. destruct (probe_up _ _ _) as [[[a r]|] c] eqn:Ep; [done|].
    injection E1 as <- _. rewrite (probe_up_none _ _ _ _ Ep). by destruct L. }
  destruct (match f1 with Some f => (Some f, w1) | None => _ end) as [f2 w2] eqn:E2.
  destruct (match f2 with Some f => (Some f, w2) | None => _ end) as [[f3|] w3] eqn:E3; [done|]. intros [= <- _]. apply HL.
  destruct f1; [|done]. injection E2 as <- <-. done.
Qed.

(** A block said to be zero is a fresh mapping. *)
Lemma large_allocate_zeroed o L w size k arena_id p L' w' :
  1 <= size <= (2 ^ 32 - 1) * kPageSize -> 0 <= k < 62 -> large_allocate cfg o L w size (2 ^ k) arena_id = (Some (p, true), L', w') ->
  exists bytes, o_map o bytes = Some p /\ size <= bytes.
Proof.
  intros Hs Hk. unfold large_allocate. destruct (effective_alignment k Hk) as (j & Hj & Hkj & -> & Hjp).
  destruct (request_pages size Hs) as (Hn & Er & Hsz). pose proof pg_pos as Hpp. set (n := u32 (roundUp size kPageSize / kPageSize)) in *. rewrite Er.
  set (cacheable := (2 ^ j <=? kPageSize) && (n <=? kMaxPages)).
  assert (Hca : cacheable = true -> n <= kMaxPages) by (unfold cacheable; intros ?; b2p; lia). clearbody cacheable.
  destruct (if cacheable then from_cache cfg L w n else (None, L, w)) as [[f1 L1] w1] eqn:E1.
  destruct f1 as [f1|]; [intros H; exfalso; unfold from_cache in E1|].
  { destruct cacheable; [|done]. destruct (probe_up _ _ _) as [[[a r]|] c]; [|done]. injection E1 as <- <- <-. done. }
  destruct (if (_ && _)%bool then from_region cfg o w1 cacheable n else _) as [f2 w2] eqn:E2.
  destruct f2 as [f2|]; [intros H; exfalso|].
  { case_if_in E2; [|done]. unfold from_region in E2. destruct (vm_region _); [|done]. destruct (allocatePages _ _ _ _ _) as [[mem|] v']; [|done].
    injection E2 as <- <-. done. }
  unfold from_mmap, map_aligned. destruct (if cacheable then _ else None) as [f0|] eqn:Ed.
  - destruct cacheable; [|done]. destruct (o_map o (u64 (roundPages n * kPageSize))) as [q|] eqn:Hq; [|done]. injection Ed as <-. intros [= <- _ _].
    eexists. split; [exact Hq|]. specialize (Hca eq_refl). pose proof max_pages_cases. destruct (round_in_grid n ltac:(lia)) as [[G Hm]%elem_of_grid Hge].
    rewrite wrap_small by nia. nia.
  - clear Ed. destruct (2 ^ j <=? kPageSize); [|destruct (o_map o (u64 _)); cbv zeta; intros H; discriminate H]. destruct (o_map o (n * kPageSize)) as [q|] eqn:Hq; [|done]. intros [= <- _ _]. by exists (n * kPageSize).
Qed.

(** ** Deallocation *)

(** Giving a block's pages back to the arena or the kernel. *)
Lemma release_block_spec o w v batch live ext own rest mem pages :
  oracle_ok o -> pm_ok (pmap w) v batch live ext -> own_ok own w (arena v) -> room own w (arena v) live rest mem pages ->
  let w' := release_block o w mem pages in
  descr w' = descr w /\ still (pmap w) (pmap w') /\
  exists v' live', pm_ok (pmap w') v' batch live' ext /\ blocks_ok own w' (arena v') live' rest.
Proof.
  intros [Hsh _] P O [(R1 & R2 & R3 & R4) HR]. pose proof P as [Hvm OV HT]. unfold release_block. rewrite Hvm.
  pose proof (ai_base _ _ _ (vo_arena _ _ _ _ OV)) as (_ & Hbm & _). destruct (inContigArena (arena v) mem) eqn:E.
  2:{ splits; [done|done|]. exists v, live. split; [done|]. split; [|apply HR]. by apply (own_ok_same own w _ (arena v) (arena v));
      [..|intros a Ha; split; [done|apply (ow_span _ _ _ O a Ha)]|]. }
  destruct (release_vm (o_created o) (o_shard o) v batch live _ _ ext Hsh OV HR) as (OV' & Ef & Eb & Ec).
  cbn [page_index VmArena.page_count] in OV', Ef, Eb, Ec. rewrite aligned_run in OV', Ef, Eb, Ec by done.
  set (v' := releasePages _ _ _ _ _ _ _) in *. set (w' := w_pmap w _).
  assert (P' : pm_ok (pmap w') v' batch (arena_runs (arena v) w own ++ rest) ext).
  { constructor; [done|done|]. unfold has_tables. by rewrite Ef. }
  splits; [done| |].
  - by apply (still_same _ _ v v' batch live ext batch (arena_runs (arena v) w own ++ rest) ext).
  - eexists v', _. split; [exact P'|]. destruct (own_ok_same own w w' (arena v) (arena v') Eb Ec) as [O' ER]; [|done|].
    + intros a Ha. split; [done|]. apply (ow_span _ _ _ O a Ha).
    + split; [done|]. by rewrite ER.
Qed.

(** A block that is described but neither held nor cached. *)
Definition freed (L : LargeAlloc) (w : World) (a : Z) (C : list Z) (rest : list FreeRun) : Prop :=
  cache_ok maxb (cache_ L) /\ tracked L w C /\ resolveSpan (pmap w) (blk_base w a) = 0 /\
  exists v batch live ext, pm_ok (pmap w) v batch live ext /\ blocks_ok (a :: C ++ cached L) w (arena v) live rest.

Lemma freed_same L w w' a C rest :
  descr w' = descr w -> pmap w' = pmap w -> freed L w a C rest -> freed L w' a C rest.
Proof.
  intros Ed Ep (H1 & H2 & H3 & v & batch & live & ext & P & [O HL]). unfold freed, blk_base. rewrite Ep, (span_at_descr _ w' _ Ed).
  splits; [done|apply (tracked_same _ w); [done|intros; by rewrite Ep|done]|done|]. exists v, batch, live, ext.
  destruct (own_ok_same (a :: C ++ cached L) w w' (arena v) (arena v) eq_refl eq_refl) as [O' ER]; [|done|split; [done|split; [done|by rewrite ER]]].
  intros b Hb. rewrite (span_at_descr _ w' _ Ed), Ed. split; [done|apply (ow_span _ _ _ O b Hb)].
Qed.

Lemma freed_push L w a C rest now :
  maxb < 2 ^ 63 -> freed L w a C rest -> page_count (span_at w a) <= kMaxPages ->
  roundPages (page_count (span_at w a)) = page_count (span_at w a) ->
  match cache_push maxb (cache_ L) a (page_count (span_at w a)) now with
  | (true, c) => la_inv (mkLarge c now) w C rest
  | (false, c) => c = cache_ L
  end.
Proof.
  intros Hm (H1 & [T1 T2] & H3 & v & batch & live & ext & P & B) Hle Hr. pose proof max_pages_cases.
  destruct (ow_span _ _ _ (proj1 B) a ltac:(by left)) as (_ & _ & _ & (_ & _ & R & _)).
  assert (G : page_count (span_at w a) ∈ grid) by (rewrite <- Hr; apply round_in_grid; lia).
  pose proof (push_spec maxb (cache_ L) a _ now Hm H1 G) as Hp. destruct (cache_push _ _ _ _ _) as [[] c]; [|by destruct Hp].
  destruct Hp as [Hc Oc]. unfold la_inv, tracked, cached. cbn [cache_]. splits; [done| |done|].
  - intros x. rewrite Hc. intros [->|Hx]%elem_of_cons; [done|by apply T1].
  - exists v, batch, live, ext. split; [done|]. eapply blocks_ok_perm; [|exact B]. rewrite Hc. cbn [map fst].
    apply Permutation_middle.
Qed.

Lemma freed_release o L w a C rest :
  oracle_ok o -> freed L w a C rest ->
  let w' := release_block o w (blk_base w a) (page_count (span_at w a)) in
  la_inv L w' C rest /\ descr w' = descr w /\ resolveSpan (pmap w') (blk_base w a) = 0 /\ still (pmap w) (pmap w').
Proof.
  intros Ho (H1 & T & H3 & v & batch & live & ext & P & B). destruct (blocks_uncons _ _ _ _ _ _ B) as (O & _ & _ & R).
  destruct (release_block_spec o w v batch live ext _ rest _ _ Ho P O R) as (Ed & Er & v' & live' & P' & B').
  cbv zeta. splits; [|done|by rewrite (proj1 (proj2 Er _))|done]. unfold la_inv. splits; [done|apply (tracked_same _ w); [done|apply Er|done]|].
  by exists v', batch, live', ext.
Qed.

Lemma deallocate_freed L w C C' a rest :
  la_inv L w C rest -> C ≡ₚ a :: C' ->
  freed L (w_pmap w (pm_set (span_at w) (pmap w) (blk_base w a) 0)) a C' rest.
Proof.
  intros (H1 & [T1 T2] & v & batch & live & ext & P & B) HC.
  assert (Hp : C ++ cached L ≡ₚ a :: C' ++ cached L) by (by rewrite HC).
  apply (blocks_ok_perm _ _ _ _ _ _ Hp) in B. destruct (blocks_uncons _ _ _ _ _ _ B) as (O & Hna & _ & R).
  destruct (set_page w v batch live ext _ rest (blk_base w a) 0 P (range_first _ _ (proj1 R)) B) as (E1 & E2 & v' & P' & Ea & B').
  unfold freed. splits; [done| |done|by exists v', batch, live, ext]. split; [done|].
  intros b Hb. destruct (T2 b ltac:(rewrite HC; by right)) as [T2a T2b]. split; [|done].
  assert (Hb' : b ∈ C' ++ cached L) by set_solver. destruct (ow_span _ _ _ O b Hb') as (_ & _ & _ & (? & ? & _)).
  etransitivity; [|exact T2a]. apply E2; [lia|done|]. by apply (bases_apart _ _ _ _ _ _ _ _ b (vo_arena _ _ _ _ (po_ok _ _ _ _ _ P)) O R).
Qed.

Lemma large_deallocate_inv o any L w C C' a rest L' w' :
  oracle_ok o -> maxb < 2 ^ 63 -> la_inv L w C rest -> C ≡ₚ a :: C' ->
  large_deallocate cfg maxb o any L w a = (L', w') ->
  (la_inv L' w' C' rest /\ descr w' = descr w /\ resolveSpan (pmap w') (blk_base w a) = 0) /\
  still (pm_set (span_at w) (pmap w) (blk_base w a) 0) (pmap w').
Proof.
  intros Ho Hm I HC. pose proof (deallocate_freed L w C C' a rest I HC) as FR. unfold large_deallocate.
  fold (blk_base w a). set (w1 := w_pmap w _) in *. set (sp := span_at w a). set (np := page_count sp).
  assert (Hrel : forall w2 L2, descr w2 = descr w -> pmap w2 = pmap w1 -> cache_ L2 = cache_ L ->
    (L2, release_block o w2 (blk_base w a) np) = (L', w') ->
    (la_inv L' w' C' rest /\ descr w' = descr w /\ resolveSpan (pmap w') (blk_base w a) = 0) /\ still (pmap w1) (pmap w')).
  { intros w2 L2 Ed Ep EL [= <- <-]. assert (F2 : freed L w2 a C' rest) by (by apply (freed_same _ w1)).
    destruct (freed_release o L w2 a C' rest Ho F2) as (I2 & D2 & Z2 & S2). unfold blk_base in *. rewrite (span_at_descr w w2 a Ed) in *.
    rewrite Ep in S2. splits; [by apply (la_inv_cache L)|by etransitivity; [exact D2|]|exact Z2|exact S2]. }
  assert (Hpush : forall w2, descr w2 = descr w -> pmap w2 = pmap w1 -> (np <=? kMaxPages) && (roundPages np =? np) = true ->
    match cache_push maxb (cache_ L) a np (tick_ L) with
    | (true, c) => (mkLarge c (tick_ L), w2)
    | (false, c) => (mkLarge c (tick_ L), release_block o w2 (blk_base w a) np)
    end = (L', w') -> (la_inv L' w' C' rest /\ descr w' = descr w /\ resolveSpan (pmap w') (blk_base w a) = 0) /\ still (pmap w1) (pmap w')).
  { intros w2 Ed Ep Hc. b2p. assert (F2 : freed L w2 a C' rest) by (by apply (freed_same _ w1)).
    assert (En : page_count (span_at w2 a) = np) by (by rewrite (span_at_descr w w2 a Ed)).
    pose proof (freed_push L w2 a C' rest (tick_ L) Hm F2) as Hp. rewrite En in Hp. specialize (Hp ltac:(done) ltac:(done)).
    destruct (cache_push _ _ _ _ _) as [[] c]; [|by apply Hrel].
    intros [= <- <-]. splits; [done|done| |by rewrite Ep]. destruct F2 as (_ & _ & Z2 & _). unfold blk_base in *. by rewrite (span_at_descr w w2 a Ed) in Z2. }
  destruct (run_hook_same cfg w1 sp) as [Dh Ph]. case_if.
  - case_if; [|by apply Hrel]. apply Hpush; [by case_if|by case_if|lia].
  - case_if; [by apply Hpush|by apply Hrel].
Qed.

(** ** The tick *)

Lemma release_all o L w V C rest :
  oracle_ok o -> cache_ok maxb (cache_ L) -> tracked L w C ->
  (forall x, x ∈ V -> page_count (span_at w x.1) = x.2) ->
  (exists v batch live ext, pm_ok (pmap w) v batch live ext /\ blocks_ok (map fst V ++ C ++ cached L) w (arena v) live rest) ->
  let w' := fold_left (fun w x => release_block o w (base (span_at w x.1)) x.2) V w in
  la_inv L w' C rest /\ descr w' = descr w /\ still (pmap w) (pmap w').
Proof.
  intros Ho OC. revert w. induction V as [|x V IH]; intros w T HV (v & batch & live & ext & P & B).
  { cbn. split; [|done]. unfold la_inv. splits; [done|done|]. by exists v, batch, live, ext. }
  cbn [map app] in B. destruct (blocks_uncons _ _ _ _ _ _ B) as (O & _ & _ & R). rewrite (HV x ltac:(by left)) in R.
  destruct (release_block_spec o w v batch live ext _ rest _ _ Ho P O R) as (Ed & Er & v' & live' & P' & B').
  cbn [fold_left]. fold (blk_base w x.1). set (w1 := release_block _ _ _ _) in *. destruct (IH w1) as (I1 & D1 & S1).
  - apply (tracked_same _ w); [done|apply Er|done].
  - intros y Hy. rewrite (span_at_descr w w1 y.1 Ed). apply HV. by right.
  - by exists v', batch, live', ext.
  - splits; [done|by rewrite D1|by etransitivity].
Qed.

Lemma onTick_inv o L w C rest L' w' :
  oracle_ok o -> maxb < 2 ^ 63 -> la_inv L w C rest -> large_onTick o L w = (L', w') ->
  (la_inv L' w' C rest /\ descr w' = descr w /\
   forall r, r ∈ grid -> bucketFor (cache_ L') r = purged (tick_ L') (bucketFor (cache_ L) r)) /\ still (pmap w) (pmap w').
Proof.
  intros Ho Hm (OC & [T1 T2] & v & batch & live & ext & P & B). unfold large_onTick. set (now := u32 (tick_ L + 1)).
  destruct (purgeIdle_spec maxb now (fun a pages w => release_block o w (base (span_at w a)) pages) (cache_ L) w Hm OC) as (V & c & -> & Hc & Oc & Hb).
  intros [= <- <-]. set (L' := mkLarge c now).
  destruct (release_all o L' w V C rest Ho Oc) as (I' & D' & S').
  - split; [|done]. intros x Hx. apply T1. rewrite Hc. apply elem_of_app. by right.
  - intros x Hx. apply T1. rewrite Hc. apply elem_of_app. by left.
  - exists v, batch, live, ext. split; [done|]. eapply blocks_ok_perm; [|exact B]. unfold cached. rewrite Hc, map_app.
    cbn [cache_ L']. rewrite !app_assoc. apply Permutation_app_tail, Permutation_app_comm.
  - done.
Qed.

(** ** Main theorems *)

(** C22: a large allocation returns memory of its own.  For a request of at
    most 2^32 - 1 pages, aligned to a power of two below 2^62, [large_allocate] either fails, leaving its
    cache and the rest of the heap exactly as they were, or returns an address with the asked alignment whose
    block is at least [size] bytes long and disjoint from the block of every
    other large object held; the address resolves to a descriptor that records
    the size asked, and the invariant holds with the new block among the held
    ones.  The kernel is only assumed to map unused, page-aligned memory. *)
Theorem large_allocate_correct o L w C rest size k arena_id r L' w' :
  oracle_ok o -> fresh_map o w (C ++ cached L) -> maxb < 2 ^ 63 -> 0 <= c_chunk cfg < 2 ^ 32 ->
  la_inv L w C rest -> 1 <= size <= (2 ^ 32 - 1) * kPageSize -> 0 <= k < 62 ->
  large_allocate cfg o L w size (2 ^ k) arena_id = (r, L', w') ->
  match r with
  | None => L' = L /\ w' = w /\ la_inv L' w' C rest
  | Some (p, _) => exists a, (a ∉ C) /\ la_inv L' w' (a :: C) rest /\
      resolveSpan (pmap w') p = a /\ base (span_at w' a) = p /\ p mod 2 ^ k = 0 /\
      large_getSize w' a = size /\ size <= blk_len w' a /\
      forall b, b ∈ C -> span_at w' b = span_at w b /\ disjoint_iv p (blk_len w' a) (blk_base w' b) (blk_len w' b)
  end.
Proof.
  intros Ho F Hm Hch I Hs Hk Hal. pose proof (allocate_offer o L w C rest size k arena_id r L' w' Ho F Hm Hch I Hs Hk Hal) as H.
  destruct r as [[p z]|]; [|split; [by eapply large_fail_same|done]]. destruct H as (f & w1 & Hof & Ed & Hsz & <- & Hmod & ->).
  destruct (register_spec o L' w1 C rest f size arena_id Ho Hof Hsz) as (a & Hna & I' & Ea & Hat & Hd).
  exists a. pose proof I' as (_ & [_ T] & _). destruct (T a ltac:(by left)) as [T1 T2]. unfold blk_base, blk_len, large_getSize in *. rewrite Ea in *.
  splits; try done. intros b Hb. rewrite (Hat b Hb). split; [by apply span_at_descr, Ed|]. by apply Hd.
Qed.

(** Freed large blocks are given back.  [large_deallocate] on a held block
    and the compressor's tick keep the invariant: the freed block is cached
    or its pages are returned, its address no longer resolves, all other held
    blocks keep their descriptor; the tick empties exactly the buckets idle
    for [kIdleTicks] ticks. *)
Lemma large_release_correct o any L w C C' a rest :
  oracle_ok o -> maxb < 2 ^ 63 -> la_inv L w C rest -> C ≡ₚ a :: C' ->
  (let '(L', w') := large_deallocate cfg maxb o any L w a in
   la_inv L' w' C' rest /\ descr w' = descr w /\ resolveSpan (pmap w') (blk_base w a) = 0) /\
  (let '(L', w') := large_onTick o L w in
   la_inv L' w' C rest /\ descr w' = descr w /\
   forall r, r ∈ grid -> bucketFor (cache_ L') r = purged (tick_ L') (bucketFor (cache_ L) r)).
Proof.
  intros Ho Hm I HC. split.
  - destruct (large_deallocate _ _ _ _ _ _ _) as [L' w'] eqn:E. by eapply large_deallocate_inv in E as [? _].
  - destruct (large_onTick o L w) as [L' w'] eqn:E. by eapply onTick_inv in E as [? _].
Qed.
End LargeOps.

(** ** Witnesses *)

Section LargeWitness.
#[local] Existing Instance pages4K.

(** A kernel that maps up to 1 GiB at a fixed address. *)
Definition map_oracle : Oracle :=
  mkOracle 3 (fun _ => true) true top_descr (fun b => if b <=? 2 ^ 30 then Some (2 ^ 40) else None).
Definition demo_large : LargeAlloc := mkLarge cache_init 0.

Lemma map_oracle_ok : oracle_ok map_oracle.
Proof. constructor; [done|]. apply demo_oracle_ok. Qed.

Lemma demo_large_inv : la_inv kMaxBytesDefault demo_large demo_world [] [].
Proof.
  unfold la_inv, tracked, cached. cbn [demo_large cache_]. rewrite cache_init_contents. splits; [by apply cache_init_ok|set_solver|set_solver|].
  exists demo_vm1, [], [], {[ 20 := 100 ]}. split; [exact demo_pm_ok|]. split; [|done].
  constructor; [constructor|set_solver..].
Qed.

Lemma map_oracle_fresh : fresh_map map_oracle demo_world ([] ++ cached demo_large).
Proof.
  unfold cached. cbn [demo_large cache_]. rewrite cache_init_contents. intros bytes p. cbn. case_if; [|done]. intros [= <-].
  splits; [done|done|lia| |set_solver]. intros v [= <-]. unfold off_arena, disjoint_iv. right. by vm_compute.
Qed.

Lemma large_allocate_correct_witness :
  exists a L' w', large_allocate demo_cfg map_oracle demo_large demo_world 100000 (2 ^ 16) 0 = (Some (2 ^ 40, false), L', w') /\
  resolveSpan (pmap w') (2 ^ 40) = a /\ 100000 <= blk_len w' a.
Proof.
  destruct (large_allocate demo_cfg map_oracle demo_large demo_world 100000 (2 ^ 16) 0) as [[r L'] w'] eqn:E.
  assert (Er : r = Some (2 ^ 40, false)).
  { transitivity (large_allocate demo_cfg map_oracle demo_large demo_world 100000 (2 ^ 16) 0).1.1; [by rewrite E|vm_compute; reflexivity]. }
  subst r. destruct (large_allocate_correct demo_cfg kMaxBytesDefault map_oracle demo_large demo_world [] [] 100000 16 0 _ L' w'
    map_oracle_ok map_oracle_fresh ltac:(done) ltac:(done) demo_large_inv ltac:(by vm_compute) ltac:(done) E) as (a & _ & _ & H1 & _ & _ & _ & H2 & _).
  by exists a, L', w'.
Defined.

Lemma demo_large_held : exists a L w, la_inv kMaxBytesDefault L w [a] [].
Proof.
  destruct (large_allocate demo_cfg map_oracle demo_large demo_world 100000 (2 ^ 16) 0) as [[r L'] w'] eqn:E.
  assert (Er : r = Some (2 ^ 40, false)).
  { transitivity (large_allocate demo_cfg map_oracle demo_large demo_world 100000 (2 ^ 16) 0).1.1; [by rewrite E|vm_compute; reflexivity]. }
  subst r. destruct (allocate_offer demo_cfg kMaxBytesDefault map_oracle demo_large demo_world [] [] 100000 16 0 _ L' w'
    map_oracle_ok map_oracle_fresh ltac:(done) ltac:(done) demo_large_inv ltac:(by vm_compute) ltac:(done) E) as (f & w1 & Hof & _ & Hsz & _ & _ & ->).
  destruct (register_spec kMaxBytesDefault map_oracle L' w1 [] [] f 100000 0 map_oracle_ok Hof Hsz) as (a & _ & I & _).
  by exists a, L', (register_block map_oracle w1 f 100000 0).
Qed.

(** The page count of a request is kept in 32 bits, so that a request
    beyond 2^32 pages is served with the pages left over: with 4 KiB pages, a
    request for 2^44 + 1 bytes is answered with a one-page block, described
    as having 2^44 + 1 bytes. *)
Lemma large_size_truncated :
  exists p z L' w', large_allocate demo_cfg map_oracle demo_large demo_world (2 ^ 44 + 1) 16 0 = (Some (p, z), L', w') /\
  large_getSize w' (resolveSpan (pmap w') p) = 2 ^ 44 + 1 /\ blk_len w' (resolveSpan (pmap w') p) = 4096.
Proof.
  destruct (large_allocate demo_cfg map_oracle demo_large demo_world (2 ^ 44 + 1) 16 0) as [[r L'] w'] eqn:E.
  assert (Er : r = Some (4194304, false)).
  { transitivity (large_allocate demo_cfg map_oracle demo_large demo_world (2 ^ 44 + 1) 16 0).1.1; [by rewrite E|vm_compute; reflexivity]. }
  assert (Ew : w' = (large_allocate demo_cfg map_oracle demo_large demo_world (2 ^ 44 + 1) 16 0).2) by (by rewrite E).
  exists 4194304, false, L', w'. splits; [by rewrite Er|rewrite Ew; vm_compute; reflexivity|rewrite Ew; vm_compute; reflexivity].
Qed.
End LargeWitness.
