(* ===== verification/SlabFrame.v ===== *)
(** * What slab operations leave alone (for [Slab.v])

    The slabs and the large allocator share descriptors, page map and page
    arena.  An operation of one slab changes the descriptors of its own spans
    and of spans it creates, keeps their geometry, and changes what an address
    resolves to only on pages that belonged to nobody. *)

From stdpp Require Import functions.
From S2P Require Import Prelude BitOps Config SizeClasses PageState IntrusiveList Span SpanFacts SpanCorrect.
From S2P Require Import VmRegion PageMap Slab SlabFacts SlabOps SlabCorrect SlabBatch LargeCache LargeAlloc LargeCorrect LargeOps.

#[local] Abbreviation page_count := Span.page_count.
#[local] Abbreviation Span := Span.Span.

(** The spans of a slab. *)
Definition own (s : Slab) : list Z := partial_ s ++ full_ s ++ empty_ s.

(** Class, arena and cap of a slab never change. *)
Definition same_ids (s s' : Slab) : Prop :=
  size_class_ s' = size_class_ s /\ arena_id_ s' = arena_id_ s /\ max_slots_per_page_ s' = max_slots_per_page_ s.

#[export] Instance same_ids_preorder : PreOrder same_ids.
Proof. unfold same_ids. split; [done|]. intros x y z. intuition congruence. Qed.

(** ** Steps that stay within the slab's spans *)

Record inside (s : Slab) (w : World) (s' : Slab) (w' : World) : Prop := {
  in_pmap : pmap w' = pmap w;
  in_dom : forall a, a ∈ dom (descr w) -> a ∈ dom (descr w');
  in_far : forall a, a ∉ own s -> descr w' !! a = descr w !! a;
  in_near : forall a, same_shape (span_at w a) (span_at w' a);
  in_own : forall a, a ∈ own s' <-> a ∈ own s;
  in_ids : same_ids s s'
}.

Lemma inside_refl s w : inside s w s w.
Proof. by constructor. Qed.

Lemma inside_trans s w s1 w1 s2 w2 : inside s w s1 w1 -> inside s1 w1 s2 w2 -> inside s w s2 w2.
Proof.
  intros [P1 D1 F1 N1 O1 I1] [P2 D2 F2 N2 O2 I2]. constructor; [congruence|auto|..].
  - intros a Ha. rewrite F2, F1; [done|done|]. by rewrite O1.
  - intros a. etransitivity; [apply N1|apply N2].
  - intros a. by rewrite O2, O1.
  - by etransitivity.
Qed.

Lemma inside_put s w a sp : a ∈ own s -> same_shape (span_at w a) sp -> inside s w s (put_span w a sp).
Proof.
  intros Ha Hs. constructor; [done| | | |done|done].
  - intros b Hb. cbn. rewrite dom_insert_L. set_solver.
  - intros b Hb. cbn. rewrite lookup_insert_ne; [done|]. congruence.
  - intros b. rewrite span_at_put. destruct (Z.eqb_spec a b) as [->|]; done.
Qed.

Lemma inside_same s w w' : descr w' = descr w -> pmap w' = pmap w -> inside s w s w'.
Proof.
  intros Ed Ep. constructor; [done|by rewrite Ed|by rewrite Ed| |done|done].
  intros a. unfold span_at. by rewrite Ed.
Qed.

Lemma inside_lists s s' w : (forall a, a ∈ own s' <-> a ∈ own s) -> same_ids s s' -> inside s w s' w.
Proof. by constructor. Qed.

Lemma inside_then_same s w s1 w1 w2 : inside s w s1 w1 -> descr w2 = descr w1 -> pmap w2 = pmap w1 -> inside s w s1 w2.
Proof. intros H E1 E2. eapply inside_trans; [exact H|by apply inside_same]. Qed.

Lemma inside_then_lists s w s1 s2 w1 :
  inside s w s1 w1 -> (forall a, a ∈ own s2 <-> a ∈ own s1) -> same_ids s1 s2 -> inside s w s2 w1.
Proof. intros H E1 E2. eapply inside_trans; [exact H|by apply inside_lists]. Qed.

Lemma own_lists s p f e a : a ∈ own (set_lists s p f e) <-> a ∈ p \/ a ∈ f \/ a ∈ e.
Proof. unfold own. cbn [partial_ full_ empty_ set_lists]. by rewrite !elem_of_app. Qed.

Lemma elem_of_own s a : a ∈ own s <-> a ∈ partial_ s \/ a ∈ full_ s \/ a ∈ empty_ s.
Proof. unfold own. by rewrite !elem_of_app. Qed.

(** Membership in lists that hold the spans of a slab, after [a] moved. *)
Ltac solve_own a :=
  let b := fresh "b" in intros b; rewrite ?own_lists, ?elem_of_own, ?elem_of_cons, ?elem_of_app, ?elem_of_unlink, ?elem_of_cons in *;
  destruct (decide (b = a)) as [->|]; intuition.

Section Inside.
Context `{PG : PageGeometry} (cfg : SlabCfg).

Lemma dealloc_same_shape sp p : same_shape sp (span_deallocate sp p).
Proof. done. Qed.

Lemma inside_clearResident s w a s' w' : a ∈ own s -> clearResident s w a = (s', w') -> inside s w s' w'.
Proof.
  intros Ha. unfold clearResident. case_if; intros [= <- <-]; [apply inside_refl|].
  apply (inside_then_lists s w s); [|done|done]. 
  by apply (inside_then_same s w s (put_span w a (set_resident (span_at w a) false (empty_tick (span_at w a))))); [apply inside_put|..].
Qed.

Lemma inside_retire s w a s' w' : a ∈ own s -> retireEmptySpan cfg s w a = (s', w') -> inside s w s' w'.
Proof.
  intros Ha. unfold retireEmptySpan, decommitEmptySpan. destruct (run_hook_same cfg w (span_at w a)) as [E3 E4].
  case_if; intros [= <- <-].
  - set (w1 := w_log _ _). destruct (set_page_states_same cfg w1 (span_at w a) EMPTY) as [E1 E2]. apply inside_same; [by rewrite E1|by rewrite E2].
  - destruct (set_page_states_same cfg (run_hook cfg w (span_at w a)) (span_at w a) EMPTY) as [E1 E2].
    apply (inside_then_lists s w s); [|done|done]. set (w1 := set_page_states cfg _ _ _) in *.
    eapply (inside_then_same s w s (put_span w1 a (set_resident (span_at w a) true (slab_tick_ w1)))); [|done|done].
    eapply inside_trans; [by apply (inside_same s w w1); congruence|]. apply inside_put; [done|].
    assert (span_at w1 a = span_at w a) as -> by (unfold span_at; by rewrite E1, E3). done.
Qed.

Lemma inside_recommit s w a s' w' : a ∈ own s -> recommitEmptySpan cfg s w a = (s', w') -> inside s w s' w'.
Proof.
  intros Ha. unfold recommitEmptySpan. destruct (clearResident s w a) as [s1 w1] eqn:E. intros [= <- <-].
  pose proof (inside_clearResident _ _ _ _ _ Ha E) as H1. set (w2 := set_page_states cfg _ _ _).
  destruct (set_page_states_same cfg w1 (span_at w1 a) ACTIVE) as [E1 E2]. fold w2 in E1, E2.
  destruct (resetColdCounts_same cfg w2 (span_at w2 a)) as [E3 E4]. eapply inside_then_same; [exact H1|congruence|congruence].
Qed.

(** Recommitting a span that was just taken off its list. *)
Lemma recommit_unlisted s w es P F E s2 w2 :
  es ∈ own s -> recommitEmptySpan cfg (set_lists s P F E) w es = (s2, w2) ->
  inside s w (set_resident_count s (resident_empty_count_ s2)) w2.
Proof.
  intros Hes. unfold recommitEmptySpan at 1. destruct (recommitEmptySpan cfg s w es) as [s3 w3] eqn:Er3.
  pose proof (inside_recommit _ _ _ _ _ Hes Er3) as H3. revert Er3. unfold recommitEmptySpan, clearResident.
  case_if; intros [= <- <-] [= <- <-]; (eapply inside_then_lists; [exact H3|done|done]).
Qed.

Lemma retire_lists s w a s' w' : retireEmptySpan cfg s w a = (s', w') -> partial_ s' = partial_ s /\ full_ s' = full_ s /\ empty_ s' = empty_ s /\ same_ids s s'.
Proof. unfold retireEmptySpan. case_if; by intros [= <- <-]. Qed.

Lemma recommit_lists s w a s' w' : recommitEmptySpan cfg s w a = (s', w') -> partial_ s' = partial_ s /\ full_ s' = full_ s /\ empty_ s' = empty_ s /\ same_ids s s'.
Proof. unfold recommitEmptySpan, clearResident. case_if; by intros [= <- <-]. Qed.

Lemma inside_deallocateOne s w p a s' w' : a ∈ own s -> deallocateOne cfg s w p a = (s', w') -> inside s w s' w'.
Proof.
  intros Ha. unfold deallocateOne. pose proof (inside_put s w a _ Ha (dealloc_same_shape (span_at w a) p)) as H1.
  set (w1 := put_span _ _ _) in *. case_if.
  { intros [= <- <-]. eapply inside_then_lists; [exact H1|solve_own a|done]. }
  case_if; [|intros [= <- <-]; exact H1].
  destruct (retireEmptySpan cfg _ w1 a) as [s2 w2] eqn:Er. intros [= <- <-].
  pose proof (retire_lists _ _ _ _ _ Er) as (L1 & L2 & L3 & L4).
  (* the unlinked slab does not own [a]: reason with a slab that does *)
  assert (H2 : inside s w1 (set_resident_count s (resident_empty_count_ s2)) w2).
  { revert Er. unfold retireEmptySpan. destruct (retireEmptySpan cfg s w1 a) as [s3 w3] eqn:Er3.
    pose proof (inside_retire _ _ _ _ _ Ha Er3) as H3. revert Er3. unfold retireEmptySpan.
    case_if; intros [= <- <-] [= <- <-]; (eapply inside_then_lists; [exact H3|done|done]). }
  eapply inside_then_lists; [exact (inside_trans _ _ _ _ _ _ H1 H2)| |done].
  intros b. rewrite own_lists, L1, L2, L3. cbn [partial_ full_ empty_ set_lists]. change (b ∈ own (set_resident_count s (resident_empty_count_ s2))) with (b ∈ own s).
  clear L1 L2 L3 L4. revert b. solve_own a.
Qed.

(** Entries of a batch: no span, or one of the slab's. *)
Definition entries (s : Slab) (objs : list Obj) : Prop := forall o, o ∈ objs -> o.2 = 0 \/ o.2 ∈ own s.

Lemma entries_inside s w s' w' objs : inside s w s' w' -> entries s objs -> entries s' objs.
Proof. intros H E o Ho. destruct (E o Ho); [by left|right]. by apply (in_own _ _ _ _ H). Qed.

Lemma inside_deallocateAll s w objs s' w' : entries s objs -> deallocateAll cfg s w objs = (s', w') -> inside s w s' w'.
Proof.
  revert s w. induction objs as [|[p a] objs IH]; intros s w He; cbn [deallocateAll]; [intros [= <- <-]; apply inside_refl|].
  assert (He' : entries s objs) by (intros o Ho; apply He; by right). case_if; [by apply IH|].
  destruct (deallocateOne cfg s w p a) as [s1 w1] eqn:E1. intros Hd.
  assert (Ha : a ∈ own s) by (destruct (He (p, a) ltac:(by left)); [done|done]).
  pose proof (inside_deallocateOne _ _ _ _ _ _ Ha E1) as H1.
  eapply inside_trans; [exact H1|]. apply (IH _ _ (entries_inside _ _ _ _ _ H1 He') Hd).
Qed.

Lemma inside_drain_nodes s w nodes s' w' : entries s (concat nodes) -> drain_nodes cfg s w nodes = (s', w') -> inside s w s' w'.
Proof.
  revert s w. induction nodes as [|n nodes IH]; intros s w He; cbn [drain_nodes]; [intros [= <- <-]; apply inside_refl|].
  cbn [concat] in He. destruct (deallocateAll cfg s w n) as [s1 w1] eqn:E1. intros Hd.
  assert (H1 : inside s w s1 w1) by (eapply inside_deallocateAll; [|exact E1]; intros o Ho; apply He, elem_of_app; by left).
  set (s2 := set_pending s1 _ _) in *. assert (H2 : inside s w s2 w1) by (by apply (inside_then_lists s w s1)).
  eapply inside_trans; [exact H2|]. apply (IH _ _) in Hd; [done|]. apply (entries_inside _ _ _ _ _ H2).
  intros o Ho. apply He, elem_of_app. by right.
Qed.

(** What waits on the pending stack or in a magazine belongs to the slab. *)
Lemma held_entries s w rest C : slab_inv s w rest C -> entries s (concat (pending s) ++ concat (mags s)).
Proof.
  intros [A I] o Ho. destruct (decide (o.2 = 0)) as [|Hn]; [by left|right].
  assert (Hh : o ∈ held s ++ C) by (apply elem_of_app; left; apply list_elem_of_filter; done).
  by apply (iv_objs _ _ _ _ _ _ _ I) in Hh as [? _].
Qed.

Lemma inside_drainPending s w rest C s' w' : slab_inv s w rest C -> drainPending cfg s w = (s', w') -> inside s w s' w'.
Proof.
  intros I. unfold drainPending. intros Hd. apply inside_drain_nodes in Hd; [eapply inside_trans; [|exact Hd]; by apply inside_lists|].
  intros o Ho. apply (held_entries _ _ _ _ I o). apply elem_of_app. by left.
Qed.

Lemma inside_resolved s w rest objs C s' w' :
  slab_inv s w rest C -> entries s objs -> deallocateBatchResolved cfg s w objs = (s', w') -> inside s w s' w'.
Proof.
  intros I He. unfold deallocateBatchResolved. destruct (drainPending cfg s w) as [s1 w1] eqn:Ed. intros Hd.
  pose proof (inside_drainPending _ _ _ _ _ _ I Ed) as H1. eapply inside_trans; [exact H1|].
  eapply inside_deallocateAll; [|exact Hd]. by eapply entries_inside.
Qed.

Lemma inside_deferred free s w rest objs C s' w' :
  slab_inv s w rest C -> entries s objs -> deallocateBatchDeferred cfg free s w objs = (s', w') -> inside s w s' w'.
Proof.
  intros I He. unfold deallocateBatchDeferred. destruct objs as [|o objs]; [intros [= <- <-]; apply inside_refl|].
  set (l := o :: objs) in *. case_if; [case_if|]; try (by eapply inside_resolved). intros [= <- <-]. by apply inside_lists.
Qed.

Lemma inside_purge now s w l s' w' : (forall a, a ∈ l -> a ∈ own s) -> purge_spans now s w l = (s', w') -> inside s w s' w'.
Proof.
  revert s w. induction l as [|a l IH]; intros s w Hl; cbn [purge_spans]; [intros [= <- <-]; apply inside_refl|].
  case_if; [|apply IH; intros; apply Hl; by right]. destruct (clearResident s w a) as [s1 w1] eqn:E1. intros Hp.
  pose proof (inside_clearResident _ _ _ _ _ (Hl a ltac:(by left)) E1) as H1.
  eapply inside_trans; [eapply inside_then_same; [exact H1|..]|apply (IH _ _) in Hp; [exact Hp|]]; [done|done|].
  intros b Hb. apply (in_own _ _ _ _ H1), Hl. by right.
Qed.

(** ** Taking objects *)

Lemma inside_take s w a sp e : a ∈ own s -> same_shape (span_at w a) sp -> inside s w s (w_penv (put_span w a sp) e).
Proof. intros Ha Hs. by apply (inside_then_same s w s (put_span w a sp)); [apply inside_put|..]. Qed.

Lemma inside_warm s w a p w' fb : a ∈ own s -> warm_from w a = (Some (p, w'), fb) -> inside s w s w'.
Proof.
  intros Ha. unfold warm_from, allocateWarm. repeat (destruct (scan_words _ _ _ _ _) as [[[? ?]|] ?]); try done;
    intros [= <- <- <-]; by apply inside_take.
Qed.

Lemma inside_fallback s w a fb p w' : a ∈ own s -> fallback_from w a fb = (p, w') -> inside s w s w'.
Proof.
  intros Ha. unfold fallback_from, consumeFallback. repeat case_if; intros [= <- <-]; try apply inside_refl; by apply inside_take.
Qed.

Lemma inside_widen s w a : a ∈ own s -> inside s w s (maybeWiden cfg s w a).
Proof.
  intros Ha. unfold maybeWiden. destruct (c_cap_fn cfg); [|apply inside_refl]. repeat case_if; try apply inside_refl.
  apply inside_put; [done|]. apply widenCap_shape.
Qed.

Lemma inside_settle s w w0 s0 a : a ∈ own s -> inside s0 w0 s w -> inside s0 w0 (settle_front s w a) w.
Proof.
  intros Ha H. unfold settle_front. case_if; [|done]. eapply inside_then_lists; [exact H|solve_own a|done].
Qed.

Lemma inside_redirect s w span es E s' w' :
  span ∈ own s -> empty_ s = es :: E -> redirect cfg s w span es E = (s', w') -> inside s w s' w'.
Proof.
  intros Ha Ee. unfold redirect. set (s1 := set_lists s _ _ E).
  destruct (recommitEmptySpan cfg s1 w es) as [s2 w2] eqn:Er. intros [= <- <-].
  destruct (recommit_lists _ _ _ _ _ Er) as (L1 & L2 & L3 & L4).
  assert (Hes : es ∈ own s) by (apply elem_of_own; rewrite Ee; set_solver).
  pose proof (recommit_unlisted _ _ _ _ _ _ _ _ Hes Er) as H2.
  eapply inside_then_lists; [exact H2| |done]. intros b. rewrite own_lists, L1, L2, L3.
  change (b ∈ own (set_resident_count s (resident_empty_count_ s2))) with (b ∈ own s). rewrite !elem_of_own in *.
  cbn [s1 partial_ full_ empty_ set_lists]. rewrite Ee in *. rewrite elem_of_cons in Ha. rewrite !elem_of_cons, elem_of_app, elem_of_unlink, list_elem_of_singleton.
  destruct (decide (b = span)) as [->|]; intuition.
Qed.
End Inside.

(** ** Steps that may add spans *)

Section Grows.
Context `{PG : PageGeometry} (cfg : SlabCfg).

(** [q] lies in the pages of [r]. *)
Definition in_run (ar : Arena) (r : FreeRun) (q : Z) : Prop :=
  page_index r <= (q - base_ ar) / kPageSize < page_index r + VmArena.page_count r.

(** [q] lies outside the arena or in a run of [rest]. *)
Definition protected (pm : PageMap) (rest : list FreeRun) (q : Z) : Prop :=
  match vm_region pm with
  | Some v => inContigArena (arena v) q = false \/ exists r, r ∈ rest /\ in_run (arena v) r q
  | None => True
  end.

Lemma protected_bounds pm pm' rest q : bounds pm' = bounds pm -> protected pm rest q -> protected pm' rest q.
Proof.
  unfold bounds, protected. destruct (vm_region pm) as [v|], (vm_region pm') as [v'|]; try done.
  intros [= E1 E2]. unfold inContigArena, in_run. by rewrite E1, E2.
Qed.

(** The addresses of a span lead to it, and its tag names its class and arena. *)
Definition mapped (w : World) (a : Z) : Prop :=
  forall q, base (span_at w a) <= q < base (span_at w a) + page_count (span_at w a) * kPageSize ->
    resolveSpan (pmap w) q = a /\ tag_at (pmap w) q = pageTag (span_at w) a.

Definition tagged (s : Slab) (w : World) : Prop := forall a, a ∈ own s -> labelled s (span_at w a) /\ mapped w a.

Record grows (rest : list FreeRun) (s : Slab) (w : World) (s' : Slab) (w' : World) : Prop := {
  gr_dom : forall a, a ∈ dom (descr w) -> a ∈ dom (descr w');
  gr_far : forall a, a ∈ dom (descr w) -> a ∉ own s -> descr w' !! a = descr w !! a;
  gr_own : forall a, a ∈ own s' -> a ∈ own s \/ a ∉ dom (descr w);
  gr_stay : forall a, a ∈ own s -> a ∈ own s';
  gr_bounds : bounds (pmap w') = bounds (pmap w);
  gr_keep : forall q, 0 <= q -> protected (pmap w) rest q ->
    resolveSpan (pmap w') q = resolveSpan (pmap w) q /\ tag_at (pmap w') q = tag_at (pmap w) q;
  gr_tagged : tagged s w -> tagged s' w';
  gr_ids : same_ids s s'
}.

Lemma grows_trans rest s w s1 w1 s2 w2 : grows rest s w s1 w1 -> grows rest s1 w1 s2 w2 -> grows rest s w s2 w2.
Proof.
  intros [D1 F1 O1 S1 B1 K1 T1 I1] [D2 F2 O2 S2 B2 K2 T2 I2]. constructor; [auto|..].
  - intros a Ha Hn. rewrite F2, F1; [done|done|done|by apply D1|]. intros Hin. by destruct (O1 a Hin).
  - intros a Ha. destruct (O2 a Ha) as [Hin|Hn]; [by apply O1|]. right. intros Hd. by apply Hn, D1.
  - auto.
  - by rewrite B2, B1.
  - intros q Hq Hp. destruct (K1 q Hq Hp) as [E1 E2]. destruct (K2 q Hq (protected_bounds _ _ _ _ B1 Hp)) as [E3 E4]. split; congruence.
  - auto.
  - by etransitivity.
Qed.

Lemma pageTag_shape sp sp' a : same_shape (sp a) (sp' a) -> pageTag sp' a = pageTag sp a.
Proof. intros (_ & _ & _ & E1 & E2 & E3). unfold pageTag. by rewrite E1, E2, E3. Qed.

Lemma inside_grows rest s w s' w' : inside s w s' w' -> grows rest s w s' w'.
Proof.
  intros [P D F N O I]. constructor; [done| | | | | | |done].
  - intros a _. apply F.
  - intros a Ha. left. by apply O.
  - intros a Ha. by apply O.
  - by rewrite P.
  - intros q _ _. by rewrite P.
  - intros T a Ha. destruct (T a ltac:(by apply O)) as [(L1 & L2 & L3 & L4) M]. pose proof (N a) as Hs.
    pose proof Hs as (E1 & E2 & E3 & E4 & E5 & E6). destruct I as (I1 & I2 & _). split.
    + unfold labelled. rewrite I1, I2. splits; congruence.
    + unfold mapped. rewrite P, E1, E2, (pageTag_shape (span_at w)) by done. exact M.
Qed.

Lemma grows_refl rest s w : grows rest s w s w.
Proof. apply inside_grows, inside_refl. Qed.

(** What addresses resolve to after a new span. *)
Lemma new_span_resolve pm pm' v v' batch live ext idx n a t :
  pm_ok pm v batch live ext -> pm_ok pm' v' batch (mkRun idx n :: live) ext ->
  base_ (arena v') = base_ (arena v) -> contig_pages_ (arena v') = contig_pages_ (arena v) ->
  0 <= idx -> idx + n <= contig_pages_ (arena v') ->
  (forall p, 0 <= p -> radix (level1 pm') p =
     if (base_ (arena v) / kPageSize + idx <=? p) && (p <? base_ (arena v) / kPageSize + idx + n) then a else radix (level1 pm) p) ->
  (forall j, flat_span v' j = if (idx <=? j) && (j <? idx + n) then a else flat_span v j) ->
  (forall j, flat_tag v' j = if (idx <=? j) && (j <? idx + n) then t else flat_tag v j) ->
  forall q, 0 <= q ->
    (~ in_run (arena v) (mkRun idx n) q -> resolveSpan pm' q = resolveSpan pm q /\ tag_at pm' q = tag_at pm q) /\
    (in_run (arena v) (mkRun idx n) q -> resolveSpan pm' q = a /\ tag_at pm' q = t).
Proof.
  intros P P' Eb Ec Hi0 Hi HR HF HT q Hq. pose proof pg_pos as Hpp.
  pose proof (ai_base _ _ _ (vo_arena _ _ _ _ (po_ok _ _ _ _ _ P))) as (Hb0 & Hbm & _). set (b := base_ (arena v)) in *.
  assert (Hin : inContigArena (arena v') q = inContigArena (arena v) q) by (unfold inContigArena; by rewrite Eb, Ec).
  set (j := (q - b) / kPageSize).
  assert (Hj : inContigArena (arena v) q = (0 <=? j) && (j <? contig_pages_ (arena v))).
  { unfold inContigArena. fold b. apply eq_true_iff_eq. rewrite !andb_true_iff, !Z.leb_le, !Z.ltb_lt. unfold j. split.
    - intros [? ?]. split; [apply Z.div_pos; lia|apply Z.div_lt_upper_bound; nia].
    - intros [H0 H1]. pose proof (page_bounds (q - b)) as Hpb. set (i := (q - b) / kPageSize) in *.
      assert (0 <= i * kPageSize) by nia. assert ((i + 1) * kPageSize <= contig_pages_ (arena v) * kPageSize) by (apply Z.mul_le_mono_nonneg_r; lia). lia. }
  unfold in_run. cbn [page_index VmArena.page_count]. fold b j. unfold tag_at. rewrite (po_vm _ _ _ _ _ P), (po_vm _ _ _ _ _ P'), Hin, Eb. fold b j.
  destruct (inContigArena (arena v) q) eqn:Ein.
  - rewrite (resolve_arena _ _ _ _ _ _ P' Hin), (resolve_arena _ _ _ _ _ _ P Ein), Eb, HF, HT. fold b j.
    case_if; split; intros; done || lia.
  - rewrite (resolve_out _ _ _ _ _ _ P' Hin), (resolve_out _ _ _ _ _ _ P Ein).
    symmetry in Hj. rewrite andb_false_iff, Z.leb_gt, Z.ltb_ge in Hj. split; [intros _|intros ?; lia]. split; [|done].
    rewrite HR by (by apply Z.shiftr_nonneg). case_if; [|done]. exfalso.
    rewrite Z.shiftr_div_pow2 in * by (destruct kPageShift_cases; lia). fold kPageSize in *.
    assert (Ej : j = q / kPageSize - b / kPageSize).
    { unfold j. apply Z.div_exact in Hbm; [|lia]. rewrite Hbm at 1. replace (q - kPageSize * (b / kPageSize)) with (q + (- (b / kPageSize)) * kPageSize) by lia.
      rewrite Z.div_add by lia. lia. }
    lia.
Qed.

Lemma new_span_grows o s w rest all a w' :
  oracle_ok o -> slab_params_ok cfg s -> sinv s w rest all -> allocateNewSpan cfg o s w = (Some a, w') ->
  grows rest s w (set_lists s (a :: partial_ s) (full_ s) (empty_ s)) w'.
Proof.
  intros Ho (Hsc & Hcap & Hch) [A I] Hal. pose proof (iv_core _ _ _ _ _ _ _ I) as K. fold (own s) in K.
  destruct (allocateNewSpan_shape cfg o s (own s) w A rest (Some a) w' Ho Hsc Hcap Hch K Hal)
    as (sp & v & v' & batch & live & ext & idx & Ha0 & Had & Ed & Hvm & P & Hl & Hb & P' & Eb & Hi0 & Bsp & Isp & _ & _ & Lb & Ec & Hic & HR & HF & HT).
  pose proof (new_span_resolve _ _ _ _ _ _ _ _ _ _ _ P P' Eb Ec Hi0 Hic HR HF HT) as Hres.
  pose proof (vo_arena _ _ _ _ (po_ok _ _ _ _ _ P')) as IA. pose proof pg_pos as Hpp.
  assert (Hnew : forall r q, r ∈ live -> in_run (arena v) r q -> ~ in_run (arena v) (mkRun idx (page_count sp)) q).
  { intros r q Hr H1 H2. apply elem_of_Permutation in Hr as [l Hlr].
    assert (Hd := live_disjoint _ _ _ (mkRun idx (page_count sp)) r l IA ltac:(by rewrite Hlr)). unfold disjoint_iv, in_run in *. cbn in *. lia. }
  assert (Hat : forall b, span_at w' b = if a =? b then sp else span_at w b).
  { intros b. rewrite <- span_at_put. unfold span_at, put_span. cbn. by rewrite Ed. }
  assert (Hspan : forall x ar, base_ ar = base_ (arena v) -> forall q, base x = run_addr ar (page_index (span_run ar x)) ->
    base x <= q < base x + page_count x * kPageSize -> in_run (arena v) (span_run ar x) q).
  { intros x ar Ear q Ex Hq. unfold in_run. rewrite <- Ear. revert Ex. cbn [span_run page_index VmArena.page_count].
    set (i := (base x - base_ ar) / kPageSize). unfold run_addr. intros Ex. rewrite Ex in Hq.
    split; [apply Z.div_le_lower_bound; nia|apply Z.div_lt_upper_bound; nia]. }
  constructor.
  - intros b Hd. rewrite Ed, dom_insert_L. set_solver.
  - intros b Hd _. rewrite Ed, lookup_insert_ne; [done|]. congruence.
  - intros b. rewrite own_lists, elem_of_cons, elem_of_own. intuition congruence.
  - intros b. rewrite own_lists, elem_of_cons, elem_of_own. intuition.
  - unfold bounds. rewrite (po_vm _ _ _ _ _ P), (po_vm _ _ _ _ _ P'). by rewrite Eb, Ec.
  - intros q Hq Hp. unfold protected in Hp. rewrite Hvm in Hp. apply (proj1 (Hres q Hq)). destruct Hp as [Hout|(r & Hr & Hin)].
    + intros Hin. unfold in_run in Hin. cbn in Hin. unfold inContigArena in Hout. apply andb_false_iff in Hout. rewrite Z.leb_gt, Z.ltb_ge in Hout.
      pose proof (page_bounds (q - base_ (arena v))). nia.
    + apply (Hnew r); [rewrite Hl; set_solver|done].
  - intros T b Hb'. destruct (decide (b = a)) as [->|Hne].
    + rewrite Hat, Z.eqb_refl. split; [exact Lb|]. unfold mapped. rewrite Hat, Z.eqb_refl. intros q Hq.
      pose proof (si_base _ _ Isp). apply (proj2 (Hres q ltac:(lia))).
      assert (Er : span_run (arena v') sp = mkRun idx (page_count sp)) by (unfold span_run; rewrite Bsp; f_equal; by apply run_addr_index).
      rewrite <- Er. apply (Hspan sp (arena v') Eb q); [|done]. by rewrite Er.
    + assert (Hown : b ∈ own s) by (rewrite own_lists, elem_of_cons in Hb'; apply elem_of_own; intuition).
      destruct (T b Hown) as [L M]. pose proof (Hat b) as Eb'. rewrite (proj2 (Z.eqb_neq a b)) in Eb' by congruence. split; [by rewrite Eb'|].
      unfold mapped. unfold pageTag. rewrite Eb'. fold (pageTag (span_at w) b). intros q Hq. destruct (M q Hq) as [M1 M2].
      destruct (co_span _ _ _ _ K b Hown) as (_ & _ & Ib & _). pose proof (si_base _ _ Ib).
      destruct (proj1 (Hres q ltac:(lia))) as [E1 E2]; [|by rewrite E1, E2].
      apply (Hnew (span_run (arena v) (span_at w b))); [rewrite Hl; apply elem_of_app; left; apply list_elem_of_fmap; by exists b|].
      apply (Hspan _ _ eq_refl q); [|done]. rewrite Forall_forall in Hb. by apply Hb.
  - done.
Qed.

(** ** Batches *)

Lemma inside_inner fuel span count b fp fib :
  span ∈ own (b_slab b) ->
  let r := batch_inner cfg fuel span count b fp fib in inside (b_slab b) (b_world b) (b_slab r.2) (b_world r.2).
Proof.
  revert b fp fib. induction fuel as [|fuel IH]; intros b fp fib Ha; cbn [batch_inner]; [apply inside_refl|].
  case_if; [apply inside_refl|]. cbv zeta.
  assert (Htake : forall ptr w', inside (b_slab b) (b_world b) (b_slab b) w' ->
    let take r := r in let r := take
      (if c_page_local cfg then
         if fib then batch_inner cfg fuel span count (mkBatch (b_slab b) w' (b_out b ++ [ptr]) (b_redirected b)) (page_of ptr) false
         else if negb (page_of ptr =? fp)
         then (InnerReturn, mkBatch (b_slab b) (put_span w' span (span_deallocate (span_at w' span) ptr)) (b_out b) (b_redirected b))
         else batch_inner cfg fuel span count (mkBatch (b_slab b) w' (b_out b ++ [ptr]) (b_redirected b)) fp false
       else batch_inner cfg fuel span count (mkBatch (b_slab b) w' (b_out b ++ [ptr]) (b_redirected b)) fp fib) in
    inside (b_slab b) (b_world b) (b_slab r.2) (b_world r.2)).
  { intros ptr w' Hw. cbv zeta. repeat case_if; try (eapply inside_trans; [exact Hw|]; by apply (IH (mkBatch (b_slab b) w' _ _))).
    eapply inside_trans; [exact Hw|]. by apply inside_put. }
  destruct (warm_from (b_world b) span) as [[[ptr w']|] fb] eqn:Ew.
  { apply Htake. by eapply inside_warm. }
  case_if; [|apply inside_refl]. destruct (if b_redirected b then [] else empty_ (b_slab b)) as [|es E1] eqn:Ee.
  - destruct (fallback_from (b_world b) span fb) as [[ptr|] w'] eqn:Ef; [apply Htake|]; by eapply inside_fallback.
  - destruct (b_redirected b); [done|]. destruct (redirect cfg _ _ span es E1) as [s2 w2] eqn:Er. by eapply inside_redirect.
Qed.

Lemma batch_span_grows o s w rest all r s' w' :
  oracle_ok o -> slab_params_ok cfg s -> sinv s w rest all -> batch_span cfg o s w = (r, s', w') -> grows rest s w s' w'.
Proof.
  intros Ho Hp Hs. unfold batch_span. destruct (partial_ s) as [|a l] eqn:Ep; [|intros [= <- <- <-]; apply grows_refl].
  destruct (empty_ s) as [|es E] eqn:Ee.
  - destruct (allocateNewSpan cfg o s w) as [[a|] w1] eqn:En; intros [= <- <- <-].
    + pose proof (new_span_grows o s w rest all a w1 Ho Hp Hs En) as G. by rewrite ?Ep, ?Ee in *.
    + destruct Hs as [A I]. pose proof Hp as (Hsc & Hcap & Hch).
      destruct (allocateNewSpan_shape cfg o s _ w A rest None w1 Ho Hsc Hcap Hch (iv_core _ _ _ _ _ _ _ I) En) as [E1 E2].
      by apply inside_grows, inside_same.
  - set (s1 := set_lists s _ _ _). destruct (recommitEmptySpan cfg s1 w es) as [s2 w2] eqn:Er. intros [= <- <- <-].
    destruct (recommit_lists _ _ _ _ _ _ Er) as (L1 & L2 & L3 & L4). apply inside_grows.
    assert (Hes : es ∈ own s) by (apply elem_of_own; rewrite Ee; set_solver).
    pose proof (recommit_unlisted cfg _ _ _ _ _ _ _ _ Hes Er) as H2.
    eapply inside_then_lists; [exact H2| |done]. intros b. rewrite own_lists, L1, L2, L3.
    change (b ∈ own (set_resident_count s (resident_empty_count_ s2))) with (b ∈ own s). rewrite elem_of_own.
    cbn [s1 partial_ full_ empty_ set_lists]. rewrite Ep, Ee, !elem_of_cons. intuition.
Qed.

Lemma batch_outer_grows fuel os rest all0 count b L b' :
  (forall n, oracle_ok (os n)) -> slab_params_ok cfg (b_slab b) ->
  zlen (b_out b) <= count -> map fst L = b_out b -> sinv (b_slab b) (b_world b) rest (L ++ all0) ->
  batch_outer cfg fuel os count b = Some b' -> grows rest (b_slab b) (b_world b) (b_slab b') (b_world b').
Proof.
  intros Hos. revert b L. induction fuel as [|fuel IH]; intros b L Hp Hle HL I; cbn [batch_outer]; [done|].
  case_if; [intros [= <-]; apply grows_refl|].
  destruct (batch_span cfg (os fuel) (b_slab b) (b_world b)) as [[r s1] w1] eqn:Eb.
  pose proof (batch_span_grows _ _ _ _ _ _ _ _ (Hos fuel) Hp I Eb) as G1.
  destruct (batch_span_inv cfg _ _ _ _ _ _ _ _ (Hos fuel) Hp I Eb) as (I1 & St1 & Hr). destruct r as [a|]; [|by intros [= <-]].
  destruct Hr as [l El]. assert (Ha : a ∈ partial_ s1) by (rewrite El; by left).
  assert (Hown : a ∈ own s1) by (apply elem_of_own; by left).
  pose proof (params_stash cfg _ _ St1 Hp) as Hp1. pose proof (maybeWiden_sinv cfg s1 w1 rest _ a Hp1 Ha I1) as I2.
  pose proof (inside_widen cfg s1 w1 a Hown) as H2. set (w2 := maybeWiden cfg s1 w1 a) in *. set (b1 := mkBatch s1 w2 (b_out b) (b_redirected b)).
  destruct (sinv_span _ _ _ _ a I2 Ha) as (_ & _ & Hnf & _).
  assert (Hin : inner_inv rest all0 a b1).
  { unfold inner_inv. splits; [done|by eapply sinv_partial_nodup|]. exists L. split; [done|]. cbn. by rewrite settle_not_full. }
  pose proof (batch_inner_inv cfg (Z.to_nat count) rest all0 a count b1 0 (zlen (b_out b) =? 0)
    ltac:(cbn; pose proof (zlen_nonneg (b_out b)); lia) Hle Hin) as Hpost.
  pose proof (inside_inner (Z.to_nat count) a count b1 0 (zlen (b_out b) =? 0) Hown) as H3. cbv zeta in H3.
  destruct (batch_inner _ _ _ _ b1 _ _) as [[|] b2]; unfold inner_post in Hpost; cbn in Hpost, H3;
    (assert (G3 : grows rest (b_slab b) (b_world b) (b_slab b2) (b_world b2))
      by (eapply grows_trans; [exact G1|]; apply inside_grows; eapply inside_trans; [exact H2|exact H3])).
  - destruct Hpost as (Hz & (Ha2 & Hnp2 & L2 & HL2 & I3) & St2 & _). intros Hb.
    assert (Hs : inside (b_slab b2) (b_world b2) (settle_front (b_slab b2) (b_world b2) a) (b_world b2))
      by (apply inside_settle; [apply elem_of_own; by left|apply inside_refl]).
    eapply grows_trans; [exact G3|]. eapply grows_trans; [apply inside_grows, Hs|].
    apply (IH (mkBatch (settle_front (b_slab b2) (b_world b2) a) (b_world b2) (b_out b2) (b_redirected b2)) L2); [|cbn; lia|done|done|exact Hb].
    destruct (settle_held (b_slab b2) (b_world b2) a) as [_ St3]. eapply params_stash; [|exact Hp].
    etransitivity; [exact St1|]. etransitivity; [exact St2|exact St3].
  - by intros [= <-].
Qed.

Lemma batch_grows os s w rest C count b :
  (forall n, oracle_ok (os n)) -> slab_params_ok cfg s -> slab_inv s w rest C -> 0 <= count ->
  allocateBatch cfg os s w count = Some b -> grows rest s w (b_slab b) (b_world b).
Proof.
  intros Hos Hp I Hc. unfold allocateBatch. destruct (drainPending cfg s w) as [s1 w1] eqn:Ed.
  destruct (drainPending_inv _ _ _ _ _ _ _ I Ed) as (I1 & _ & E1 & E2 & E3).
  assert (Hp1 : slab_params_ok cfg s1) by (unfold slab_params_ok, currentCap in *; by rewrite E1, E2, E3). intros Hb.
  eapply grows_trans; [eapply inside_grows, inside_drainPending; [exact I|exact Ed]|].
  by apply (batch_outer_grows (Z.to_nat count + 2) os rest (held s1 ++ C) count (mkBatch s1 w1 [] false) []).
Qed.
End Grows.
