(* ===== verification/HeapStore.v ===== *)
(** * All slabs and the large allocator over one page arena

    The invariant of the allocators together: every slab's own invariant, the
    large allocator's, no page run with two owners, and every address of a slab
    page resolving to its span.  [store_open] takes one slab out, with the runs
    everybody else holds as its surroundings, and puts it back after a step
    that kept its invariant and its frame; the large allocator's steps are
    treated the same way. *)

From stdpp Require Import functions.
From S2P Require Import Prelude BitOps Config SizeClasses PageState IntrusiveList Span SpanFacts SpanCorrect.
From S2P Require Import VmRegion PageMap Slab SlabFacts SlabOps SlabCorrect SlabBatch ThreadCache ThreadCacheCorrect.
From S2P Require Import LargeCache LargeAlloc LargeCorrect LargeOps SlabFrame.

#[local] Abbreviation page_count := Span.page_count.
#[local] Abbreviation Span := Span.Span.

(** ** The part of a slab's invariant that is its own *)

Section Local.
Context `{PG : PageGeometry}.

Record local_inv (P F E : list Z) (all : list Obj) (w : World) (A : Z -> gset Z) : Prop := {
  li_own : NoDup (P ++ F ++ E);
  li_span : forall a, a ∈ P ++ F ++ E -> a <> 0 /\ a ∈ dom (descr w) /\ span_inv (span_at w a) (A a) /\ span_good (span_at w a);
  li_partial : forall a, a ∈ P -> span_full (span_at w a) = false;
  li_full : forall a, a ∈ F -> span_full (span_at w a) = true;
  li_empty : forall a, a ∈ E -> allocated_count (span_at w a) = 0;
  li_nodup : NoDup all;
  li_objs : forall o, o ∈ all <-> obj_ok (P ++ F ++ E) w A o
}.

Definition slab_local (s : Slab) (w : World) (C : list Obj) : Prop :=
  exists A, local_inv (partial_ s) (full_ s) (empty_ s) (held s ++ C) w A.

Lemma slab_inv_split s w rest C : slab_inv s w rest C <-> slab_local s w C /\ vm_side (own s) w rest.
Proof.
  split.
  - intros [A [[] ]]. split; [|done]. exists A. by constructor.
  - intros [[A []] V]. exists A. constructor; done.
Qed.

Lemma slab_local_perm s w C C' : C ≡ₚ C' -> slab_local s w C -> slab_local s w C'.
Proof.
  intros Hp [A []]. exists A. constructor; try done.
  - by rewrite <- Hp.
  - intros o. rewrite <- Hp. done.
Qed.

Lemma slab_local_same s w w' C :
  (forall a, a ∈ own s -> descr w' !! a = descr w !! a) -> slab_local s w C -> slab_local s w' C.
Proof.
  intros Hd [A [H1 H2 H3 H4 H5 H6 H7]]. exists A. fold (own s) in *.
  assert (Hat : forall a, a ∈ own s -> span_at w' a = span_at w a) by (intros a Ha; unfold span_at; by rewrite Hd).
  constructor; fold (own s); try done.
  - intros a Ha. destruct (H2 a Ha) as (? & Hdom & ? & ?). rewrite (Hat a Ha). splits; try done.
    apply elem_of_dom. rewrite (Hd a Ha). by apply elem_of_dom.
  - intros a Ha. rewrite Hat by (apply elem_of_own; auto). auto.
  - intros a Ha. rewrite Hat by (apply elem_of_own; auto). auto.
  - intros a Ha. rewrite Hat by (apply elem_of_own; auto). auto.
  - intros o. rewrite H7. unfold obj_ok. split; intros [Ho (x & Hx & E)]; (split; [done|]; exists x; split; [done|]);
      rewrite (Hat _ Ho) in *; done.
Qed.

(** An object lies in its span. *)
Lemma local_object s w C o :
  slab_local s w C -> o ∈ C ->
  o.2 ∈ own s /\ o.2 <> 0 /\ o.2 ∈ dom (descr w) /\ base (span_at w o.2) <= o.1 /\
  o.1 + object_size (span_at w o.2) <= base (span_at w o.2) + page_count (span_at w o.2) * kPageSize /\
  0 <= base (span_at w o.2) /\ 16 <= object_size (span_at w o.2) /\ (object_size (span_at w o.2) | o.1 - base (span_at w o.2)).
Proof.
  intros [A I] Ho. destruct (proj1 (li_objs _ _ _ _ _ _ I o) ltac:(set_solver)) as [Hin (x & Hx & E)]. fold (own s) in Hin.
  destruct (li_span _ _ _ _ _ _ I o.2 Hin) as (H0 & Hd & Hi & _). destruct (si_live _ _ Hi x Hx) as [Hx1 _].
  pose proof (slot_inside _ _ _ Hi Hx1). pose proof (si_osz _ _ Hi). pose proof (si_base _ _ Hi). splits; try done; try nia.
  exists x. lia.
Qed.
End Local.

(** ** The store *)

Definition slab_at (slabs : list Slab) (i : Z) : Slab := zget (slab_init 0 0 0) slabs i.
Definition spans (slabs : list Slab) : list Z := concat (map own slabs).

(** The objects of a list that belong to a slab. *)
Definition mine (s : Slab) (cl : list Obj) : list Obj := filter (fun o => o.2 ∈ own s) cl.

(** Magazines hold at most a lane's worth of resolved objects. *)
Definition mags_ok (s : Slab) : Prop := Forall (fun m => zlen m <= kPerLaneDepth /\ Forall non_null m) (mags s).

Lemma spans_split slabs i s' :
  0 <= i < zlen slabs -> exists others, spans slabs ≡ₚ own (slab_at slabs i) ++ others /\ spans (zset slabs i s') ≡ₚ own s' ++ others /\
    forall a, a ∈ others <-> exists j, 0 <= j < zlen slabs /\ j <> i /\ a ∈ own (slab_at slabs j).
Proof.
  intros Hi. unfold slab_at, zget, zset, zlen in *. rewrite (proj2 (Z.leb_le 0 i)) by lia.
  set (n := Z.to_nat i). assert (Hn : (n < length slabs)%nat) by lia.
  destruct (lookup_lt_is_Some_2 _ _ Hn) as [s Es]. rewrite Es. cbn.
  exists (spans (take n slabs) ++ spans (drop (S n) slabs)). unfold spans. splits.
  - rewrite <- (take_drop_middle slabs n s Es) at 1. rewrite map_app, concat_app. cbn [map concat]. rewrite !app_assoc. f_equiv. apply Permutation_app_comm.
  - rewrite insert_take_drop by done. rewrite map_app, concat_app. cbn [map concat]. rewrite !app_assoc. f_equiv. apply Permutation_app_comm.
  - intros a. rewrite elem_of_app, !list_elem_of_In, !in_concat. split.
    + intros [(l & Hl & Ha)|(l & Hl & Ha)]; apply in_map_iff in Hl as (x & <- & Hx); apply list_elem_of_In, list_elem_of_lookup in Hx as [k Hk].
      * pose proof (lookup_lt_Some _ _ _ Hk) as Hlt. rewrite length_take in Hlt. rewrite lookup_take_lt in Hk by lia.
        exists (Z.of_nat k). rewrite (proj2 (Z.leb_le 0 _)) by lia. rewrite Nat2Z.id, Hk. splits; [lia|lia|lia|by apply list_elem_of_In].
      * rewrite lookup_drop in Hk. pose proof (lookup_lt_Some _ _ _ Hk) as Hlt. exists (Z.of_nat (S n + k)). rewrite (proj2 (Z.leb_le 0 _)) by lia.
        rewrite Nat2Z.id, Hk. splits; [lia|lia|lia|by apply list_elem_of_In].
    + intros (j & Hj & Hne & Ha). rewrite (proj2 (Z.leb_le 0 j)) in Ha by lia. set (k := Z.to_nat j) in *.
      destruct (lookup_lt_is_Some_2 slabs k ltac:(lia)) as [x Ek]. rewrite Ek in Ha. cbn in Ha.
      destruct (decide (k < n)%nat).
      * left. exists (own x). split; [|by apply list_elem_of_In]. apply in_map, list_elem_of_In. apply list_elem_of_lookup. exists k. rewrite lookup_take_lt by lia. done.
      * right. exists (own x). split; [|by apply list_elem_of_In]. apply in_map, list_elem_of_In. apply list_elem_of_lookup. exists (k - S n)%nat.
        rewrite lookup_drop. replace (S n + (k - S n))%nat with k by lia. done.
Qed.

Section Store.
Context `{PG : PageGeometry} (cfg : SlabCfg) (maxb total : Z).

Definition num_slabs : Z := total * kNumClasses.

(** The pages of slab spans in the arena. *)
Definition span_runs (ar : Arena) (w : World) (l : list Z) : list FreeRun := map (fun a => span_run ar (span_at w a)) l.
Definition based (ar : Arena) (w : World) (a : Z) : Prop :=
  base (span_at w a) = run_addr ar (page_index (span_run ar (span_at w a))).

(** [cl] are the small objects outside their spans, [C] the large blocks held. *)
Record store_ok (slabs : list Slab) (L : LargeAlloc) (w : World) (cl : list Obj) (C : list Z) : Prop := {
  so_len : zlen slabs = num_slabs;
  so_ids : forall i, 0 <= i < num_slabs -> size_class_ (slab_at slabs i) = i mod kNumClasses /\
    arena_id_ (slab_at slabs i) = i / kNumClasses /\ slab_params_ok cfg (slab_at slabs i) /\ mags_ok (slab_at slabs i);
  so_tagged : forall i, 0 <= i < num_slabs -> tagged (slab_at slabs i) w;
  so_local : forall i, 0 <= i < num_slabs -> slab_local (slab_at slabs i) w (mine (slab_at slabs i) cl);
  so_nodup : NoDup (spans slabs);
  so_cl : forall o, o ∈ cl -> exists i, 0 <= i < num_slabs /\ o.2 ∈ own (slab_at slabs i);
  so_cache : cache_ok maxb (cache_ L);
  so_tracked : tracked L w C;
  so_ltag : forall a, a ∈ C -> tag_at (pmap w) (blk_base w a) = 0;
  so_vm : exists v batch live ext, pm_ok (pmap w) v batch live ext /\
    live ≡ₚ span_runs (arena v) w (spans slabs) ++ arena_runs (arena v) w (C ++ cached L) /\
    Forall (based (arena v) w) (spans slabs) /\ own_ok (C ++ cached L) w (arena v)
}.

Lemma elem_of_spans slabs a : a ∈ spans slabs <-> exists i, 0 <= i < zlen slabs /\ a ∈ own (slab_at slabs i).
Proof.
  unfold spans, slab_at, zlen. rewrite list_elem_of_In, in_concat. split.
  - intros (l & Hl & Ha). apply in_map_iff in Hl as (x & <- & Hx). apply list_elem_of_In, list_elem_of_lookup in Hx as [k Hk].
    pose proof (lookup_lt_Some _ _ _ Hk). exists (Z.of_nat k). split; [lia|]. unfold zget. rewrite (proj2 (Z.leb_le 0 _)), Nat2Z.id, Hk by lia. by apply list_elem_of_In.
  - intros (i & Hi & Ha). unfold zget in Ha. rewrite (proj2 (Z.leb_le 0 i)) in Ha by lia.
    destruct (lookup_lt_is_Some_2 slabs (Z.to_nat i) ltac:(lia)) as [x Ex]. rewrite Ex in Ha. exists (own x). split; [|by apply list_elem_of_In].
    apply in_map, list_elem_of_In, list_elem_of_lookup. by exists (Z.to_nat i).
Qed.

Lemma store_disjoint slabs L w cl C i j a :
  store_ok slabs L w cl C -> 0 <= i < num_slabs -> 0 <= j < num_slabs -> a ∈ own (slab_at slabs i) -> a ∈ own (slab_at slabs j) -> i = j.
Proof.
  intros S Hi Hj Hai Haj. destruct (decide (j = i)) as [->|Hne]; [done|]. exfalso.
  rewrite <- (so_len _ _ _ _ _ S) in Hi, Hj. destruct (spans_split slabs i (slab_at slabs i) Hi) as (others & Hs & _ & Ho).
  pose proof (so_nodup _ _ _ _ _ S) as Hn. rewrite Hs, NoDup_app in Hn. destruct Hn as (_ & Hd & _). apply (Hd a Hai), Ho. by exists j.
Qed.

Lemma store_span slabs L w cl C i a :
  store_ok slabs L w cl C -> 0 <= i < num_slabs -> a ∈ own (slab_at slabs i) ->
  a <> 0 /\ a ∈ dom (descr w) /\ size_class (span_at w a) = i mod kNumClasses /\ arena_id (span_at w a) = i / kNumClasses /\
  is_large (span_at w a) = false /\ object_size (span_at w a) = classSize (i mod kNumClasses) /\ (a ∉ C ++ cached L).
Proof.
  intros S Hi Ha. destruct (so_tagged _ _ _ _ _ S i Hi a Ha) as [(L1 & L2 & L3 & L4) _]. destruct (so_ids _ _ _ _ _ S i Hi) as (I1 & I2 & _).
  destruct (so_local _ _ _ _ _ S i Hi) as [A K]. destruct (li_span _ _ _ _ _ _ K a Ha) as (H0 & Hd & _).
  rewrite I1 in *. rewrite I2 in *. splits; try done. intros Hin. destruct (so_vm _ _ _ _ _ S) as (v & batch & live & ext & _ & _ & _ & O).
  destruct (ow_span _ _ _ O a Hin) as (_ & _ & Hl & _). congruence.
Qed.

Lemma params_ids s s' : same_ids s s' -> slab_params_ok cfg s -> slab_params_ok cfg s'.
Proof. intros (E1 & E2 & E3) Hp. unfold slab_params_ok, currentCap in *. by rewrite E1, E2, E3. Qed.

Lemma slab_at_set slabs i s j : 0 <= i < zlen slabs -> slab_at (zset slabs i s) j = if i =? j then s else slab_at slabs j.
Proof. intros Hi. unfold slab_at. by rewrite zget_zset. Qed.

Lemma bounds_eq pm pm' v v' : vm_region pm = Some v -> vm_region pm' = Some v' -> bounds pm' = bounds pm ->
  base_ (arena v') = base_ (arena v) /\ contig_pages_ (arena v') = contig_pages_ (arena v).
Proof. unfold bounds. intros -> ->. by intros [= -> ->]. Qed.

(** The first page of a large block is protected by its run. *)
Lemma block_protected w v batch live ext own rest a :
  pm_ok (pmap w) v batch live ext -> own_ok own w (arena v) -> a ∈ own -> (forall r, r ∈ arena_runs (arena v) w own -> r ∈ rest) ->
  0 <= blk_base w a /\ protected (pmap w) rest (blk_base w a).
Proof.
  intros P O Ha Hr. destruct (ow_span _ _ _ O a Ha) as (_ & _ & _ & (R1 & R2 & R3 & R4)). split; [lia|].
  unfold protected. rewrite (po_vm _ _ _ _ _ P). destruct (decide (in_arena (arena v) w a)) as [Hin|Hout].
  - right. exists (span_run (arena v) (span_at w a)). split.
    + apply Hr. unfold arena_runs. apply list_elem_of_fmap. exists a. split; [done|]. by apply list_elem_of_filter.
    + unfold in_run, span_run, blk_base. cbn. lia.
  - left. unfold in_arena in Hout. by destruct (inContigArena (arena v) (blk_base w a)).
Qed.

(** ** One slab at a time *)

(** What surrounds slab [i] in a store whose arena is [ar]. *)
Definition around (ar : Arena) (w : World) (others : list Z) (large : list Z) : list FreeRun :=
  span_runs ar w others ++ arena_runs ar w large.

Lemma store_vm_side slabs L w cl C i others :
  store_ok slabs L w cl C -> spans slabs ≡ₚ own (slab_at slabs i) ++ others ->
  exists v batch live ext, pm_ok (pmap w) v batch live ext /\ own_ok (C ++ cached L) w (arena v) /\ Forall (based (arena v) w) others /\
    vm_side (own (slab_at slabs i)) w (around (arena v) w others (C ++ cached L)).
Proof.
  intros S Hs. destruct (so_vm _ _ _ _ _ S) as (v & batch & live & ext & P & Hl & Hb & O). rewrite Hs in Hb. apply Forall_app in Hb as [Hb1 Hb2].
  exists v, batch, live, ext. splits; try done. exists v, batch, live, ext. splits; try done.
  rewrite Hl. unfold span_runs, around. rewrite Hs, map_app. by rewrite app_assoc.
Qed.

(** The large allocator after a step of a slab. *)
Lemma large_keeps s w s' w' v v' batch live ext batch' live' ext' L C rest :
  pm_ok (pmap w) v batch live ext -> pm_ok (pmap w') v' batch' live' ext' -> grows rest s w s' w' ->
  own_ok (C ++ cached L) w (arena v) -> (forall r, r ∈ arena_runs (arena v) w (C ++ cached L) -> r ∈ rest) ->
  (forall a, a ∈ C ++ cached L -> a ∉ own s) -> tracked L w C -> (forall a, a ∈ C -> tag_at (pmap w) (blk_base w a) = 0) ->
  (forall a, a ∈ C ++ cached L -> span_at w' a = span_at w a) /\ own_ok (C ++ cached L) w' (arena v') /\
  arena_runs (arena v') w' (C ++ cached L) = arena_runs (arena v) w (C ++ cached L) /\ tracked L w' C /\
  (forall a, a ∈ C -> tag_at (pmap w') (blk_base w' a) = 0).
Proof.
  intros P P' G O Hr Hno [T1 T2] HT. destruct (bounds_eq _ _ _ _ (po_vm _ _ _ _ _ P) (po_vm _ _ _ _ _ P') (gr_bounds _ _ _ _ _ G)) as [Eb Ec].
  assert (Hat : forall a, a ∈ C ++ cached L -> span_at w' a = span_at w a /\ a ∈ dom (descr w')).
  { intros a Ha. destruct (ow_span _ _ _ O a Ha) as (_ & Hd & _). split; [|by apply (gr_dom _ _ _ _ _ G)].
    unfold span_at. by rewrite (gr_far _ _ _ _ _ G a Hd (Hno a Ha)). }
  destruct (own_ok_same _ w w' (arena v) (arena v') Eb Ec Hat O) as [O' ER].
  assert (HC : forall a, a ∈ C -> a ∈ C ++ cached L) by (intros a Ha; apply elem_of_app; by left).
  assert (Hk : forall a, a ∈ C -> blk_base w' a = blk_base w a /\ resolveSpan (pmap w') (blk_base w a) = resolveSpan (pmap w) (blk_base w a) /\
    tag_at (pmap w') (blk_base w a) = tag_at (pmap w) (blk_base w a)).
  { intros a Ha. split; [unfold blk_base; by rewrite (proj1 (Hat a (HC a Ha)))|].
    destruct (block_protected w v batch live ext _ rest a P O (HC a Ha) Hr) as [H0 Hp]. by apply (gr_keep _ _ _ _ _ G). }
  splits; [by intros a Ha; apply Hat|done|done| |].
  - split.
    + intros x Hx. rewrite (proj1 (Hat x.1 ltac:(apply elem_of_app; right; unfold cached; apply list_elem_of_fmap; by exists x))). by apply T1.
    + intros a Ha. destruct (Hk a Ha) as (-> & -> & _). unfold blk_len. rewrite (proj1 (Hat a (HC a Ha))). by apply T2.
  - intros a Ha. destruct (Hk a Ha) as (-> & _ & ->). by apply HT.
Qed.

Lemma mine_app s l k : mine s (l ++ k) = mine s l ++ mine s k.
Proof. apply filter_app. Qed.

Lemma mine_all s l : (forall o : Obj, o ∈ l -> o.2 ∈ own s) -> mine s l = l.
Proof. intros H. unfold mine. by apply filter_all. Qed.

Lemma mine_none s l : (forall o : Obj, o ∈ l -> o.2 ∉ own s) -> mine s l = [].
Proof. intros H. unfold mine. by apply filter_none. Qed.

Lemma mine_ext s s' l : (forall o : Obj, o ∈ l -> o.2 ∈ own s' <-> o.2 ∈ own s) -> mine s' l = mine s l.
Proof. intros H. unfold mine. apply filter_ext_in. done. Qed.

(** An address of a slab span lies in the span's run. *)
Lemma based_in_run ar w a q :
  based ar w a -> base (span_at w a) <= q < base (span_at w a) + page_count (span_at w a) * kPageSize ->
  in_run ar (span_run ar (span_at w a)) q.
Proof.
  unfold based, in_run. cbn [span_run page_index VmArena.page_count]. set (k := (base (span_at w a) - base_ ar) / kPageSize).
  unfold run_addr. intros E Hq. rewrite E in Hq. pose proof pg_pos. split; [apply Z.div_le_lower_bound; nia|apply Z.div_lt_upper_bound; nia].
Qed.

(** The situation of a slab step: slab [i], surrounded by [others], went from
    [s] to [s']; [old] objects went in and [new] ones came out. *)
Section Open.
Context (slabs : list Slab) (L : LargeAlloc) (w w' : World) (cl old new keep : list Obj) (C : list Z) (i : Z) (s' : Slab) (others : list Z) (v : VmRegion).
Let s := slab_at slabs i.
Let rest := around (arena v) w others (C ++ cached L).
Context (St : store_ok slabs L w cl C) (Hi : 0 <= i < num_slabs) (Hs : spans slabs ≡ₚ own s ++ others).
Context (Hb : Forall (based (arena v) w) others) (Hcl : cl ≡ₚ old ++ keep) (Hold : forall o, o ∈ old -> o.2 ∈ own s).
Context (G : grows rest s w s' w') (I' : slab_local s' w' (new ++ mine s keep)) (M : mags_ok s').

Lemma open_set j : slab_at (zset slabs i s') j = if i =? j then s' else slab_at slabs j.
Proof. apply slab_at_set. by rewrite (so_len _ _ _ _ _ St). Qed.

Lemma others_iff a : a ∈ others <-> exists j, 0 <= j < num_slabs /\ j <> i /\ a ∈ own (slab_at slabs j).
Proof.
  destruct (spans_split slabs i s ltac:(by rewrite (so_len _ _ _ _ _ St))) as (others2 & Hs2 & _ & Ho). fold s in Hs2.
  assert (E : others ≡ₚ others2) by (apply (Permutation_app_inv_l (own s)); by rewrite <- Hs2, <- Hs). by rewrite E, Ho, (so_len _ _ _ _ _ St).
Qed.

Lemma others_far a : a ∈ others -> descr w' !! a = descr w !! a /\ span_at w' a = span_at w a /\ a ∉ own s'.
Proof.
  intros Ha. apply others_iff in Ha as (j & Hj & Hne & Hin). assert (Hns : a ∉ own s)
    by (intros Hin'; by rewrite (store_disjoint _ _ _ _ _ i j a St Hi Hj Hin' Hin) in Hne).
  pose proof (store_span _ _ _ _ _ j a St Hj Hin) as (_ & Hd & _). pose proof (gr_far _ _ _ _ _ G a Hd Hns) as E.
  splits; [done|unfold span_at; by rewrite E|]. intros Hin'. by destruct (gr_own _ _ _ _ _ G a Hin').
Qed.

Lemma open_new o : o ∈ new -> o.2 ∈ own s'.
Proof. intros Hn. apply (local_object s' w' _ o I'). set_solver. Qed.

Lemma open_keep o : o ∈ keep -> exists j, 0 <= j < num_slabs /\ o.2 ∈ own (slab_at slabs j).
Proof. intros Hk. apply (so_cl _ _ _ _ _ St). rewrite Hcl. set_solver. Qed.

(** Slabs only gain spans. *)
Lemma open_stay j a : a ∈ own (slab_at slabs j) -> a ∈ own (slab_at (zset slabs i s') j).
Proof. intros Ha. rewrite open_set. case_if; [|done]. b2p. subst j. by apply (gr_stay _ _ _ _ _ G). Qed.

Lemma open_tagged j : vm_region (pmap w) = Some v -> 0 <= j < num_slabs -> tagged (slab_at (zset slabs i s') j) w'.
Proof.
  intros V Hj. rewrite open_set. case_if; [b2p; subst j; by apply (gr_tagged _ _ _ _ _ G), (so_tagged _ _ _ _ _ St)|].
  intros a Ha. b2p. assert (Hao : a ∈ others) by (apply others_iff; by exists j). destruct (so_tagged _ _ _ _ _ St j Hj a Ha) as [Lb Mp].
  destruct (others_far a Hao) as (_ & Hat & _). unfold mapped, pageTag. rewrite Hat. fold (pageTag (span_at w) a). split; [done|]. intros q Hq. destruct (Mp q Hq) as [M1 M2].
  destruct (so_local _ _ _ _ _ St j Hj) as [A K]. destruct (li_span _ _ _ _ _ _ K a Ha) as (_ & _ & Hsi & _). pose proof (si_base _ _ Hsi) as [Hb0 _].
  destruct (gr_keep _ _ _ _ _ G q ltac:(lia)) as [-> ->]; [|done]. unfold protected. rewrite V. right.
  exists (span_run (arena v) (span_at w a)). split; [unfold rest, around, span_runs; apply elem_of_app; left; apply list_elem_of_fmap; by exists a|].
  apply based_in_run; [|done]. rewrite Forall_forall in Hb. by apply Hb.
Qed.

Lemma open_local j : 0 <= j < num_slabs -> slab_local (slab_at (zset slabs i s') j) w' (mine (slab_at (zset slabs i s') j) (new ++ keep)).
Proof.
  intros Hj. rewrite open_set. case_if; b2p.
  - subst j. eapply slab_local_perm; [|exact I']. rewrite mine_app, (mine_all s' new) by (by apply open_new). f_equiv. apply reflexive_eq. symmetry.
    apply mine_ext. intros o Hk. split; [|apply (gr_stay _ _ _ _ _ G)]. intros Hin. destruct (gr_own _ _ _ _ _ G _ Hin) as [|Hnd]; [done|].
    destruct (open_keep o Hk) as (j & Hj' & Hin'). exfalso. by apply Hnd, (store_span _ _ _ _ _ j _ St Hj').
  - assert (Ho : forall a, a ∈ own (slab_at slabs j) -> a ∈ others) by (intros a Ha; apply others_iff; by exists j).
    apply (slab_local_same _ w); [intros a Ha; by apply others_far, Ho|]. eapply slab_local_perm; [|by apply (so_local _ _ _ _ _ St)].
    unfold mine at 1. rewrite Hcl. fold (mine (slab_at slabs j) (old ++ keep)). rewrite !mine_app, (mine_none _ old), (mine_none _ new); [done| |].
    + intros o Hn Hin. destruct (others_far o.2 (Ho _ Hin)) as (_ & _ & Hno). by apply Hno, open_new.
    + intros o Hol Hin. specialize (Hold o Hol). by rewrite (store_disjoint _ _ _ _ _ i j _ St Hi Hj Hold Hin) in *.
Qed.

Lemma open_spans : spans (zset slabs i s') ≡ₚ own s' ++ others.
Proof.
  destruct (spans_split slabs i s' ltac:(by rewrite (so_len _ _ _ _ _ St))) as (others2 & Hs2 & Hs2' & _). fold s in Hs2.
  assert (E : others2 ≡ₚ others) by (apply (Permutation_app_inv_l (own s)); by rewrite <- Hs2, <- Hs). by rewrite Hs2', E.
Qed.

Lemma open_nodup : NoDup (spans (zset slabs i s')).
Proof.
  rewrite open_spans, NoDup_app. destruct I' as [A K]. splits; [apply K|intros a Ha Hin; by destruct (others_far a Hin) as (_ & _ & ?)|].
  pose proof (so_nodup _ _ _ _ _ St) as Hn. rewrite Hs, NoDup_app in Hn. apply Hn.
Qed.

Lemma open_ids j : 0 <= j < num_slabs -> let t := slab_at (zset slabs i s') j in
  size_class_ t = j mod kNumClasses /\ arena_id_ t = j / kNumClasses /\ slab_params_ok cfg t /\ mags_ok t.
Proof.
  intros Hj. cbv zeta. rewrite open_set. case_if; [b2p; subst j|by apply (so_ids _ _ _ _ _ St)].
  destruct (so_ids _ _ _ _ _ St i Hi) as (I1 & I2 & I3 & _). fold s in I1, I2, I3.
  pose proof (gr_ids _ _ _ _ _ G) as Hid. pose proof Hid as (E1 & E2 & _). splits; [congruence|congruence|by eapply params_ids|done].
Qed.

Lemma open_cl o : o ∈ new ++ keep -> exists j, 0 <= j < num_slabs /\ o.2 ∈ own (slab_at (zset slabs i s') j).
Proof.
  intros [Hn|Hk]%elem_of_app.
  - exists i. split; [done|]. rewrite open_set, Z.eqb_refl. by apply open_new.
  - destruct (open_keep o Hk) as (j & Hj & Hin). exists j. split; [done|]. by apply open_stay.
Qed.

Lemma open_runs v' : base_ (arena v') = base_ (arena v) ->
  span_runs (arena v') w' others = span_runs (arena v) w others /\ Forall (based (arena v') w') others.
Proof.
  intros Eb. split.
  - apply map_ext_in. intros a Ha%list_elem_of_In. unfold span_run. destruct (others_far a Ha) as (_ & -> & _). by rewrite Eb.
  - rewrite Forall_forall in Hb |- *. intros a Ha. unfold based. destruct (others_far a Ha) as (_ & -> & _). unfold span_run, run_addr. rewrite Eb. by apply Hb.
Qed.
End Open.

(** Take slab [i] out, run a step that keeps its invariant and its frame, and
    put it back. *)
Lemma store_open slabs L w cl C i :
  store_ok slabs L w cl C -> 0 <= i < num_slabs ->
  exists rest, slab_inv (slab_at slabs i) w rest (mine (slab_at slabs i) cl) /\
    forall s' w' old new keep, cl ≡ₚ old ++ keep -> (forall o, o ∈ old -> o.2 ∈ own (slab_at slabs i)) ->
      grows rest (slab_at slabs i) w s' w' -> slab_inv s' w' rest (new ++ mine (slab_at slabs i) keep) -> mags_ok s' ->
      store_ok (zset slabs i s') L w' (new ++ keep) C /\ (forall a, a ∈ C ++ cached L -> span_at w' a = span_at w a) /\
      (forall j a, a ∈ own (slab_at slabs j) -> a ∈ own (slab_at (zset slabs i s') j)).
Proof.
  intros St Hi. pose proof (so_len _ _ _ _ _ St) as Hlen. set (s := slab_at slabs i) in *.
  destruct (spans_split slabs i s ltac:(lia)) as (others & Hs & _ & _). fold s in Hs.
  destruct (store_vm_side _ _ _ _ _ i others St Hs) as (v & batch & live & ext & P & O & Hb & V). set (rest := around _ _ _ _) in *.
  exists rest. split; [apply slab_inv_split; split; [by apply (so_local _ _ _ _ _ St)|done]|].
  intros s' w' old new keep Hcl Hold G I' M. apply slab_inv_split in I' as [I' (v' & batch' & live' & ext' & P' & Hl' & Hb')].
  destruct (bounds_eq _ _ _ _ (po_vm _ _ _ _ _ P) (po_vm _ _ _ _ _ P') (gr_bounds _ _ _ _ _ G)) as [Eb Ec].
  destruct (large_keeps s w s' w' v v' _ _ _ _ _ _ L C rest P P' G O) as (HatL & O' & ER & T' & LT'); [| |apply St|apply St|].
  { intros r Hr. unfold rest, around. apply elem_of_app. by right. }
  { intros a Ha Hin. by apply (store_span _ _ _ _ _ i a St Hi Hin). }
  splits; [|exact HatL|by eapply open_stay]. constructor; try done.
  - by rewrite zlen_zset.
  - by eapply open_ids.
  - intros j Hj. eapply open_tagged; try done. apply P.
  - intros j Hj. eapply (open_local slabs L w w' cl old new keep C i s' others v); done.
  - by eapply (open_nodup slabs L w w' cl new keep C i s' others v).
  - by eapply open_cl.
  - apply St.
  - pose proof (open_spans slabs L w cl C i s' others St Hi Hs) as Hsp.
    destruct (open_runs slabs L w w' cl C i s' others v St Hi Hs Hb G v' Eb) as [Erun Hbas].
    exists v', batch', live', ext'. splits; [done| |by rewrite Hsp, Forall_app|done].
    rewrite Hl'. unfold rest, around. rewrite ER, <- Erun. unfold span_runs. rewrite Hsp, map_app. by rewrite app_assoc.
Qed.

(** ** Steps of the large allocator *)

Lemma store_la slabs L w cl C :
  store_ok slabs L w cl C -> exists v batch live ext, pm_ok (pmap w) v batch live ext /\ Forall (based (arena v) w) (spans slabs) /\
    la_inv maxb L w C (span_runs (arena v) w (spans slabs)).
Proof.
  intros S. destruct (so_vm _ _ _ _ _ S) as (v & batch & live & ext & P & Hl & Hb & O). exists v, batch, live, ext. splits; [done|done|].
  unfold la_inv. splits; [apply S|apply S|]. exists v, batch, live, ext. split; [done|]. split; [done|]. by rewrite Hl, Permutation_app_comm.
Qed.

(** Put the large allocator back after a step that kept its invariant and left
    the slabs' descriptors and pages alone. *)
Lemma store_large_step slabs L w cl C L' w' C' v batch live ext :
  store_ok slabs L w cl C -> pm_ok (pmap w) v batch live ext -> Forall (based (arena v) w) (spans slabs) ->
  la_inv maxb L' w' C' (span_runs (arena v) w (spans slabs)) -> bounds (pmap w') = bounds (pmap w) ->
  (forall a, a ∈ spans slabs -> descr w' !! a = descr w !! a) ->
  (forall q, 0 <= q -> (exists r, r ∈ span_runs (arena v) w (spans slabs) /\ in_run (arena v) r q) ->
     resolveSpan (pmap w') q = resolveSpan (pmap w) q /\ tag_at (pmap w') q = tag_at (pmap w) q) ->
  (forall a, a ∈ C' -> tag_at (pmap w') (blk_base w' a) = 0) -> store_ok slabs L' w' cl C'.
Proof.
  intros S P Hb (K & T & v' & batch' & live' & ext' & P' & O' & Hl') Hbd Hd Hk HT.
  destruct (bounds_eq _ _ _ _ (po_vm _ _ _ _ _ P) (po_vm _ _ _ _ _ P') Hbd) as [Eb Ec].
  assert (Hin : forall i a, 0 <= i < num_slabs -> a ∈ own (slab_at slabs i) -> a ∈ spans slabs)
    by (intros i a Hi Ha; apply elem_of_spans; exists i; by rewrite (so_len _ _ _ _ _ S)).
  assert (Hat : forall a, a ∈ spans slabs -> span_at w' a = span_at w a) by (intros a Ha; unfold span_at; by rewrite Hd).
  constructor; try done; try apply S.
  - intros i Hi a Ha. pose proof (Hin i a Hi Ha) as Has. destruct (so_tagged _ _ _ _ _ S i Hi a Ha) as [Lb Mp].
    unfold mapped, pageTag. rewrite (Hat a Has). fold (pageTag (span_at w) a). split; [done|]. intros q Hq.
    destruct (so_local _ _ _ _ _ S i Hi) as [A KK]. destruct (li_span _ _ _ _ _ _ KK a Ha) as (_ & _ & Hsi & _). pose proof (si_base _ _ Hsi) as [Hb0 _].
    destruct (Hk q ltac:(lia)) as [-> ->]; [|by apply Mp]. exists (span_run (arena v) (span_at w a)).
    split; [apply list_elem_of_fmap; by exists a|]. apply based_in_run; [|done]. rewrite Forall_forall in Hb. by apply Hb.
  - intros i Hi. apply (slab_local_same _ w); [intros a Ha; apply Hd; by eapply Hin|by apply S].
  - assert (Er : span_runs (arena v') w' (spans slabs) = span_runs (arena v) w (spans slabs)).
    { apply map_ext_in. intros a Ha%list_elem_of_In. unfold span_run. by rewrite (Hat a Ha), Eb. }
    exists v', batch', live', ext'. splits; [done| | |done].
    + by rewrite Hl', Er, Permutation_app_comm.
    + rewrite Forall_forall in Hb |- *. intros a Ha. unfold based. rewrite (Hat a Ha). unfold span_run, run_addr. rewrite Eb. by apply Hb.
Qed.

(** A block's first page is in no run of [rest]. *)
Lemma block_page_apart L w C rest a v batch live ext q r :
  la_inv maxb L w C rest -> a ∈ C -> pm_ok (pmap w) v batch live ext -> r ∈ rest -> 0 <= q -> in_run (arena v) r q ->
  q / kPageSize <> blk_base w a / kPageSize.
Proof.
  intros (_ & _ & v1 & batch1 & live1 & ext1 & P1 & [O HL]) Ha P Hr Hq Hin Heq.
  assert (v1 = v) as -> by (pose proof (po_vm _ _ _ _ _ P1); pose proof (po_vm _ _ _ _ _ P); congruence).
  pose proof (vo_arena _ _ _ _ (po_ok _ _ _ _ _ P1)) as I. pose proof (ai_base _ _ _ I) as (Hb0 & Hbm & _). pose proof pg_pos as Hpp.
  destruct (ow_span _ _ _ O a ltac:(set_solver)) as (_ & _ & _ & (R1 & R2 & R3 & R4)).
  assert (Hdiv : forall x, (x - base_ (arena v)) / kPageSize = x / kPageSize - base_ (arena v) / kPageSize).
  { intros x. apply Z.div_exact in Hbm; [|lia]. rewrite Hbm at 1.
    replace (x - kPageSize * (base_ (arena v) / kPageSize)) with (x + (- (base_ (arena v) / kPageSize)) * kPageSize) by lia. rewrite Z.div_add by lia. lia. }
  unfold in_run in Hin. rewrite Hdiv, Heq, <- Hdiv in Hin. destruct (decide (in_arena (arena v) w a)) as [Hia|Hout].
  - assert (Hrun : span_run (arena v) (span_at w a) ∈ arena_runs (arena v) w (C ++ cached L))
      by (unfold arena_runs; apply list_elem_of_fmap; exists a; split; [done|apply list_elem_of_filter; set_solver]).
    apply elem_of_Permutation in Hrun as [l1 E1]. apply elem_of_Permutation in Hr as [l2 E2].
    assert (Hd := live_disjoint _ _ _ (span_run (arena v) (span_at w a)) r (l1 ++ l2) I ltac:(rewrite HL, E1, E2; simpl; by rewrite <- Permutation_middle)).
    unfold disjoint_iv in Hd. cbn in Hd. unfold blk_base in *. lia.
  - pose proof (ow_out _ _ _ O a ltac:(set_solver) Hout) as Hoff.
    destruct (live_run_bounds _ _ _ r I ltac:(rewrite HL; set_solver)) as (B1 & B2 & B3). pose proof (ai_range _ _ _ I).
    unfold off_arena, disjoint_iv, blk_len in Hoff. pose proof (page_bounds (blk_base w a - base_ (arena v))). nia.
Qed.

Lemma aligned_pages x y : x mod kPageSize = 0 -> y mod kPageSize = 0 -> x <> y -> x / kPageSize <> y / kPageSize.
Proof.
  pose proof pg_pos. intros Hx Hy Hne E. apply Hne. apply Z.div_exact in Hx; [|lia]. apply Z.div_exact in Hy; [|lia]. congruence.
Qed.

(** Blocks held together start on different pages. *)
Lemma blocks_pages L w C rest a b :
  la_inv maxb L w C rest -> a ∈ C -> b ∈ C -> a <> b -> blk_base w b / kPageSize <> blk_base w a / kPageSize.
Proof.
  intros (_ & [_ T] & v & batch & live & ext & P & [O _]) Ha Hb Hne. destruct (T a Ha) as [Ra _]. destruct (T b Hb) as [Rb _].
  destruct (ow_span _ _ _ O a ltac:(set_solver)) as (_ & _ & _ & (_ & Ma & _)).
  destruct (ow_span _ _ _ O b ltac:(set_solver)) as (_ & _ & _ & (_ & Mb & _)). apply aligned_pages; [done|done|]. intros E. congruence.
Qed.

Lemma la_region L w C rest : la_inv maxb L w C rest -> exists v batch live ext, pm_ok (pmap w) v batch live ext.
Proof. intros (_ & _ & v & batch & live & ext & P & _). by exists v, batch, live, ext. Qed.

(** The slabs keep their pages when block [a], held in [w0], is written to the
    page map. *)
Lemma runs_kept slabs w w0 w' L C a v batch live ext :
  pm_ok (pmap w) v batch live ext -> la_inv maxb L w0 C (span_runs (arena v) w (spans slabs)) -> a ∈ C -> bounds (pmap w0) = bounds (pmap w) ->
  (forall q, 0 <= q -> q / kPageSize <> blk_base w0 a / kPageSize -> resolveSpan (pmap w') q = resolveSpan (pmap w) q /\ tag_at (pmap w') q = tag_at (pmap w) q) ->
  forall q, 0 <= q -> (exists r, r ∈ span_runs (arena v) w (spans slabs) /\ in_run (arena v) r q) ->
     resolveSpan (pmap w') q = resolveSpan (pmap w) q /\ tag_at (pmap w') q = tag_at (pmap w) q.
Proof.
  intros P I Ha Hb Hk q Hq (r & Hr & Hin). apply Hk; [done|]. destruct (la_region _ _ _ _ I) as (v0 & batch0 & live0 & ext0 & P0).
  apply (block_page_apart L w0 C _ a v0 batch0 live0 ext0 q r I Ha P0 Hr Hq).
  destruct (bounds_eq _ _ _ _ (po_vm _ _ _ _ _ P) (po_vm _ _ _ _ _ P0) Hb) as [Eb _]. unfold in_run. by rewrite Eb.
Qed.

Lemma store_large_allocate o slabs L w cl C size k arena_id r L' w' :
  oracle_ok o -> fresh_map o w (C ++ cached L) -> maxb < 2 ^ 63 -> 0 <= c_chunk cfg < 2 ^ 32 ->
  store_ok slabs L w cl C -> 1 <= size <= (2 ^ 32 - 1) * kPageSize -> 0 <= k < 62 ->
  large_allocate cfg o L w size (2 ^ k) arena_id = (r, L', w') ->
  match r with
  | None => w' = w /\ store_ok slabs L' w' cl C
  | Some (p, z) => exists a pages, (a ∉ C) /\ store_ok slabs L' w' cl (a :: C) /\ span_at w' a = span_initLarge p size pages arena_id /\
      size <= pages * kPageSize /\ p mod 2 ^ k = 0 /\ forall b, b ∈ C -> span_at w' b = span_at w b
  end.
Proof.
  intros Ho F Hm Hch S Hs Hk Hal. destruct (store_la _ _ _ _ _ S) as (v & batch & live & ext & P & Hb & I).
  set (rest := span_runs _ _ _) in *. pose proof (allocate_offer cfg maxb o L w C rest size k arena_id r L' w' Ho F Hm Hch I Hs Hk Hal) as H.
  destruct r as [[p z]|].
  2:{ destruct H as [-> I']. split; [done|]. apply (store_large_step slabs L w cl C L' w C v batch live ext S P Hb I'); try done. apply S. }
  destruct H as (f & w1 & Hof & (Ed & St & Rc) & Hsz & <- & Hmod & Ew).
  destruct (register_spec maxb o L' w1 C rest f size arena_id Ho Hof Hsz) as (a & Hna & I' & Ea & Hat & _). rewrite <- Ew in *.
  exists a, (f_pages f). splits; try done; [|intros b Hb'; rewrite Hat by done; by apply span_at_descr].
  pose proof Hof as (_ & _ & _ & v1 & batch1 & live1 & ext1 & P1 & _ & [(R1 & R2 & R3 & R4) _]). pose proof pg_pos as Hpp.
  set (a0 := match f_span f with Some a => a | None => o_descr o w1 end).
  set (w2 := put_span w1 a0 (span_initLarge (f_mem f) size (f_pages f) arena_id)).
  destruct (pm_set_apart (span_at w2) (pmap w1) v1 _ _ _ (f_mem f) a0 P1 ltac:(nia) R2) as (B2 & T2 & K2).
  assert (Epm : pmap w' = pm_set (span_at w2) (pmap w1) (f_mem f) a0) by (by rewrite Ew).
  assert (Ebase : blk_base w' a = f_mem f) by (unfold blk_base; by rewrite Ea). destruct St as [Sb Sk].
  assert (Hbd : bounds (pmap w') = bounds (pmap w)) by (rewrite Epm, B2; done).
  assert (Hkeep : forall q, 0 <= q -> q / kPageSize <> f_mem f / kPageSize -> resolveSpan (pmap w') q = resolveSpan (pmap w) q /\ tag_at (pmap w') q = tag_at (pmap w) q).
  { intros q Hq Hne. rewrite Epm. destruct (K2 q Hq Hne) as [-> ->]. apply Sk. }
  apply (store_large_step slabs L w cl C L' w' (a :: C) v batch live ext S P Hb I' Hbd).
  - intros b Hbs. rewrite Ew. unfold register_block. fold a0. cbn. rewrite lookup_insert_ne; [by rewrite Ed|]. intros <-.
    apply elem_of_spans in Hbs as (i & Hi & Hin). rewrite (so_len _ _ _ _ _ S) in Hi. destruct (store_span _ _ _ _ _ i a0 S Hi Hin) as (_ & Hd & _ & _ & _ & _ & Hnl).
    unfold a0 in *. destruct (f_span f) as [c|] eqn:Ef; [apply Hnl, elem_of_app; right; by apply Rc|]. destruct (oo_descr _ Ho w1) as [_ Hfr]. by rewrite Ed in Hfr.
  - apply (runs_kept slabs w w' w' L' (a :: C) a v batch live ext P I' ltac:(by left) Hbd). by rewrite Ebase.
  - intros b [->|Hbc]%elem_of_cons.
    + rewrite Ebase, Epm, T2. case_if; [|done]. unfold pageTag, w2. rewrite span_at_put, Z.eqb_refl. cbn. by rewrite orb_true_r.
    + assert (Eb : blk_base w' b = blk_base w b) by (unfold blk_base; rewrite Hat by done; by rewrite (span_at_descr w w1)).
      assert (Hne : b <> a) by congruence. pose proof (blocks_pages _ _ _ _ a b I' ltac:(by left) ltac:(by right) ltac:(congruence)) as Hpg. rewrite Ebase, Eb in Hpg.
      rewrite Eb, (proj2 (Hkeep _ ltac:(destruct (so_vm _ _ _ _ _ S) as (? & ? & ? & ? & _ & _ & _ & O); apply Z.lt_le_incl, (ow_span _ _ _ O b ltac:(set_solver))) Hpg)). by apply S.
Qed.

Lemma store_large_deallocate o any slabs L w cl C C' a L' w' :
  oracle_ok o -> maxb < 2 ^ 63 -> store_ok slabs L w cl C -> C ≡ₚ a :: C' ->
  large_deallocate cfg maxb o any L w a = (L', w') -> store_ok slabs L' w' cl C' /\ descr w' = descr w.
Proof.
  intros Ho Hm S HC Hd. destruct (store_la _ _ _ _ _ S) as (v & batch & live & ext & P & Hb & I).
  destruct (large_deallocate_inv cfg maxb o any L w C C' a _ L' w' Ho Hm I HC Hd) as [(I' & Ed & _) [Sb Sk]]. split; [|done].
  assert (Ha : a ∈ C) by (rewrite HC; by left). pose proof pg_pos as Hpp.
  destruct (so_vm _ _ _ _ _ S) as (v0 & b0 & l0 & e0 & _ & _ & _ & O). destruct (ow_span _ _ _ O a ltac:(set_solver)) as (_ & _ & _ & (R1 & R2 & R3 & R4)).
  destruct (pm_set_apart (span_at w) (pmap w) v _ _ _ (blk_base w a) 0 P ltac:(nia) R2) as (B2 & _ & K2).
  assert (Hkeep : forall q, 0 <= q -> q / kPageSize <> blk_base w a / kPageSize -> resolveSpan (pmap w') q = resolveSpan (pmap w) q /\ tag_at (pmap w') q = tag_at (pmap w) q).
  { intros q Hq Hne. destruct (Sk q) as [-> ->]. by apply K2. }
  apply (store_large_step slabs L w cl C L' w' C' v batch live ext S P Hb I').
  - by rewrite Sb, B2.
  - intros b _. by rewrite Ed.
  - by apply (runs_kept slabs w w w' L C a v batch live ext P I Ha eq_refl).
  - intros b Hb'. assert (HbC : b ∈ C) by (rewrite HC; by right). unfold blk_base. rewrite (span_at_descr w w' b Ed). fold (blk_base w b).
    assert (Hne : a <> b) by (intros <-; pose proof (ow_nodup _ _ _ O) as Hn; rewrite HC in Hn; apply NoDup_app in Hn as (Hn & _); apply NoDup_cons in Hn as [Hn _]; done).
    rewrite (proj2 (Hkeep _ ltac:(apply Z.lt_le_incl, (ow_span _ _ _ O b ltac:(set_solver))) (blocks_pages _ _ _ _ a b I Ha HbC Hne))). by apply S.
Qed.

Lemma store_large_tick o slabs L w cl C L' w' :
  oracle_ok o -> maxb < 2 ^ 63 -> store_ok slabs L w cl C -> large_onTick o L w = (L', w') ->
  store_ok slabs L' w' cl C /\ descr w' = descr w.
Proof.
  intros Ho Hm S Ht. destruct (store_la _ _ _ _ _ S) as (v & batch & live & ext & P & Hb & I).
  destruct (onTick_inv maxb o L w C _ L' w' Ho Hm I Ht) as [(I' & Ed & _) [Sb Sk]]. split; [|done].
  apply (store_large_step slabs L w cl C L' w' C v batch live ext S P Hb I' Sb).
  - intros b _. by rewrite Ed.
  - intros q _ _. apply Sk.
  - intros b Hb'. rewrite (proj2 (Sk _)). unfold blk_base. rewrite (span_at_descr w w' b Ed). by apply S.
Qed.
End Store.
