(* ===== verification/HeapSteps.v ===== *)
(** * Thread caches over the store

    What an object outside its span looks like in a store, and the steps of the
    thread caches and of the compressor's tick: refill, drain, purge. *)

From stdpp Require Import functions.
From S2P Require Import Prelude BitOps Config SizeClasses PageState IntrusiveList Span SpanFacts SpanCorrect.
From S2P Require Import VmRegion PageMap Slab SlabFacts SlabOps SlabCorrect SlabBatch ThreadCache ThreadCacheCorrect Drain.
From S2P Require Import LargeCache LargeAlloc LargeCorrect LargeOps SlabFrame HeapStore.

#[local] Abbreviation page_count := Span.page_count.
#[local] Abbreviation Span := Span.Span.

(** Every slab keeps its spans. *)
Definition stays (slabs slabs' : list Slab) : Prop := forall j a, a ∈ own (slab_at slabs j) -> a ∈ own (slab_at slabs' j).
#[export] Instance stays_preorder : PreOrder stays.
Proof. split; unfold stays; [by intros ? ? ?|]. intros x y z H1 H2 j a Ha. by apply H2, H1. Qed.

Section Steps.
Context `{PG : PageGeometry} (cfg : SlabCfg) (maxb total : Z) (magazines defer_free : bool).
#[local] Abbreviation store_ok := (store_ok cfg maxb total).
#[local] Abbreviation num_slabs := (num_slabs total).

(** The descriptors of large blocks are unchanged. *)
Definition kept (L : LargeAlloc) (C : list Z) (w w' : World) : Prop := forall a, a ∈ C ++ cached L -> span_at w' a = span_at w a.
#[export] Instance kept_preorder L C : PreOrder (kept L C).
Proof. split; unfold kept; [by intros ? ?|]. intros x y z H1 H2 a Ha. by rewrite H2, H1. Qed.

(** ** Objects of a store *)

Record obj_at (slabs : list Slab) (w : World) (o : Obj) (i : Z) : Prop := {
  oa_index : 0 <= i < num_slabs;
  oa_own : o.2 ∈ own (slab_at slabs i);
  oa_null : o.2 <> 0;
  oa_class : size_class (span_at w o.2) = i mod kNumClasses;
  oa_arena : arena_id (span_at w o.2) = i / kNumClasses;
  oa_small : is_large (span_at w o.2) = false;
  oa_size : obj_size w o = classSize (i mod kNumClasses);
  oa_span : resolveSpan (pmap w) o.1 = o.2;
  oa_tag : tag_at (pmap w) o.1 = pageTag (span_at w) o.2;
  oa_range : 0 < base (span_at w o.2) <= o.1 /\ o.1 + obj_size w o <= base (span_at w o.2) + page_count (span_at w o.2) * kPageSize /\ 16 <= obj_size w o;
  oa_end : o.1 + obj_size w o <= 2 ^ 64
}.

(** A slab span lies above address 0. *)
Lemma span_positive slabs L w cl C a : store_ok slabs L w cl C -> a ∈ spans slabs -> 0 < base (span_at w a) /\ base (span_at w a) mod kPageSize = 0.
Proof.
  intros St Ha. destruct (so_vm _ _ _ _ _ _ _ _ St) as (v & batch & live & ext & P & Hl & Hb & _). pose proof (vo_arena _ _ _ _ (po_ok _ _ _ _ _ P)) as I.
  rewrite Forall_forall in Hb. destruct (live_run_bounds _ _ _ (span_run (arena v) (span_at w a)) I) as (B1 & _).
  { rewrite Hl. apply elem_of_app. left. apply list_elem_of_fmap. by exists a. }
  rewrite (Hb a Ha). pose proof (ai_base _ _ _ I) as (B0 & B2 & _). pose proof pg_pos. unfold run_addr. split; [nia|]. by rewrite Z.mod_add by lia.
Qed.

Lemma store_object slabs L w cl C o : store_ok slabs L w cl C -> o ∈ cl -> exists i, obj_at slabs w o i.
Proof.
  intros St Ho. destruct (so_cl _ _ _ _ _ _ _ _ St o Ho) as (i & Hi & Hin). exists i.
  destruct (store_span _ _ _ _ _ _ _ _ i o.2 St Hi Hin) as (H0 & _ & E1 & E2 & E3 & E4 & _).
  assert (Hm : o ∈ mine (slab_at slabs i) cl) by (by apply list_elem_of_filter).
  destruct (local_object _ _ _ o (so_local _ _ _ _ _ _ _ _ St i Hi) Hm) as (_ & _ & _ & B1 & B2 & B3 & B4 & _).
  destruct (so_tagged _ _ _ _ _ _ _ _ St i Hi o.2 Hin) as [_ M]. destruct (M o.1 ltac:(unfold obj_size in *; lia)) as [M1 M2].
  destruct (so_local _ _ _ _ _ _ _ _ St i Hi) as [A I]. destruct (li_span _ _ _ _ _ _ I o.2 Hin) as (_ & _ & Hsi & _). pose proof (si_base _ _ Hsi).
  destruct (span_positive _ _ _ _ _ o.2 St) as [Hpos _]; [apply elem_of_spans; exists i; by rewrite (so_len _ _ _ _ _ _ _ _ St)|].
  constructor; try done; unfold obj_size in *; splits; try done; lia.
Qed.

Lemma index_split i : (i / kNumClasses) * kNumClasses + i mod kNumClasses = i.
Proof. unfold kNumClasses. dlia. Qed.

Lemma index_join a sc : 0 <= sc < kNumClasses -> (a * kNumClasses + sc) mod kNumClasses = sc /\ (a * kNumClasses + sc) / kNumClasses = a.
Proof. unfold kNumClasses. intros H. split; dlia. Qed.

Lemma index_range i : 0 <= i < num_slabs -> 0 <= i mod kNumClasses < kNumClasses /\ 0 <= i / kNumClasses < total.
Proof. unfold HeapStore.num_slabs, kNumClasses. intros H. split; dlia. Qed.

Lemma index_bound a sc : 0 <= a < total -> 0 <= sc < kNumClasses -> 0 <= a * kNumClasses + sc < num_slabs.
Proof. unfold HeapStore.num_slabs, kNumClasses. intros. nia. Qed.

Lemma store_cl_perm slabs L w cl cl' C : cl ≡ₚ cl' -> store_ok slabs L w cl C -> store_ok slabs L w cl' C.
Proof.
  intros Hp St. constructor; try apply St.
  - intros i Hi. eapply slab_local_perm; [|by apply (so_local _ _ _ _ _ _ _ _ St)]. unfold mine. by rewrite Hp.
  - intros o Ho. apply (so_cl _ _ _ _ _ _ _ _ St). by rewrite Hp.
Qed.

Lemma store_C_perm slabs L w cl C C' : C ≡ₚ C' -> store_ok slabs L w cl C -> store_ok slabs L w cl C'.
Proof.
  intros Hp St. constructor; try apply St.
  - destruct (so_tracked _ _ _ _ _ _ _ _ St) as [T1 T2]. split; [done|]. intros a Ha. apply T2. by rewrite Hp.
  - intros a Ha. apply (so_ltag _ _ _ _ _ _ _ _ St). by rewrite Hp.
  - destruct (so_vm _ _ _ _ _ _ _ _ St) as (v & batch & live & ext & P & Hl & Hb & O). exists v, batch, live, ext. splits; try done.
    + rewrite Hl. unfold arena_runs. by rewrite Hp.
    + eapply own_ok_perm; [|exact O]. by rewrite Hp.
Qed.

(** An object keeps its place when slabs only gain spans. *)
Lemma obj_at_index slabs w o i : obj_at slabs w o i -> i = arena_id (span_at w o.2) * kNumClasses + size_class (span_at w o.2).
Proof. intros K. rewrite (oa_class _ _ _ _ K), (oa_arena _ _ _ _ K). by rewrite index_split. Qed.

Lemma obj_at_stays slabs L w cl C slabs' L' w' cl' C' o i :
  store_ok slabs L w cl C -> store_ok slabs' L' w' cl' C' -> stays slabs slabs' -> o ∈ cl -> o ∈ cl' -> obj_at slabs w o i -> obj_at slabs' w' o i.
Proof.
  intros St St' Hst Ho Ho' K. destruct (store_object _ _ _ _ _ o St' Ho') as [j K'].
  assert (j = i) as ->; [|done]. symmetry.
  apply (store_disjoint _ _ _ _ _ _ _ _ i j o.2 St' (oa_index _ _ _ _ K) (oa_index _ _ _ _ K')); [|apply K']. by apply Hst, (oa_own _ _ _ _ K).
Qed.

Lemma obj_span_eq slabs L w cl C o q : store_ok slabs L w cl C -> o ∈ cl -> q ∈ cl -> o.1 = q.1 -> o = q.
Proof.
  intros St Ho Hq E. destruct (store_object _ _ _ _ _ o St Ho) as [i K]. destruct (store_object _ _ _ _ _ q St Hq) as [j K'].
  pose proof (oa_span _ _ _ _ K) as E1. pose proof (oa_span _ _ _ _ K') as E2. destruct o, q; cbn in *; congruence.
Qed.

Lemma object_aligned slabs L w cl C o : store_ok slabs L w cl C -> o ∈ cl -> o.1 mod 16 = 0.
Proof.
  intros St Ho. destruct (store_object _ _ _ _ _ o St Ho) as [i K]. pose proof (oa_index _ _ _ _ K) as Hi.
  assert (Hm : o ∈ mine (slab_at slabs i) cl) by (apply list_elem_of_filter; split; [apply K|done]).
  destruct (local_object _ _ _ o (so_local _ _ _ _ _ _ _ _ St i Hi) Hm) as (Hin & _ & _ & _ & _ & _ & _ & [q Hq]).
  destruct (span_positive _ _ _ _ _ o.2 St) as [_ Hp]; [apply elem_of_spans; exists i; by rewrite (so_len _ _ _ _ _ _ _ _ St)|].
  destruct (class_geometry (i mod kNumClasses)) as (_ & Hc & _); [by apply index_range|].
  assert (Hos : object_size (span_at w o.2) mod 16 = 0) by (pose proof (oa_size _ _ _ _ K) as Es; unfold obj_size in Es; by rewrite Es).
  assert (Hb : base (span_at w o.2) mod 16 = 0) by (destruct kPageSize_cases as [E|E]; rewrite E in Hp; dlia).
  replace o.1 with (base (span_at w o.2) + q * object_size (span_at w o.2)) by lia.
  rewrite Z.add_mod, Hb, Z.mul_mod, Hos by done. by rewrite Z.mul_0_r.
Qed.

(** ** Blocks do not overlap *)

Lemma elem_two {A} (l : list A) a b : a ∈ l -> b ∈ l -> a <> b -> exists k, l ≡ₚ a :: b :: k.
Proof.
  intros Ha Hb Hne. apply elem_of_Permutation in Ha as [k Ek]. rewrite Ek, elem_of_cons in Hb. destruct Hb as [|Hb]; [congruence|].
  apply elem_of_Permutation in Hb as [k' Ek']. exists k'. by rewrite Ek, Ek'.
Qed.

(** The pages of a span or of a large block. *)
Definition apart (w : World) (a b : Z) : Prop := disjoint_iv (blk_base w a) (blk_len w a) (blk_base w b) (blk_len w b).

Lemma based_aligned ar w a : base_ ar mod kPageSize = 0 -> based ar w a -> blk_base w a mod kPageSize = 0.
Proof. intros Hb E. unfold blk_base. rewrite E. unfold run_addr. rewrite Z.mod_add; [done|]. pose proof pg_pos. lia. Qed.

Lemma spans_apart slabs L w cl C a b : store_ok slabs L w cl C -> a ∈ spans slabs -> b ∈ spans slabs -> a <> b -> apart w a b.
Proof.
  intros St Ha Hb Hne. destruct (so_vm _ _ _ _ _ _ _ _ St) as (v & batch & live & ext & P & Hl & Hbs & _).
  pose proof (vo_arena _ _ _ _ (po_ok _ _ _ _ _ P)) as I. pose proof (ai_base _ _ _ I) as (_ & Hb0 & _). rewrite Forall_forall in Hbs.
  destruct (elem_two _ a b Ha Hb Hne) as [k Ek]. unfold span_runs in Hl. rewrite Ek in Hl. cbn [map] in Hl.
  apply (runs_apart (arena v)); [done|by eapply based_aligned, Hbs|by eapply based_aligned, Hbs|].
  exact (live_disjoint _ _ _ (span_run (arena v) (span_at w a)) (span_run (arena v) (span_at w b)) _ I Hl).
Qed.

Lemma span_block_apart slabs L w cl C a c : store_ok slabs L w cl C -> a ∈ spans slabs -> c ∈ C ++ cached L -> apart w a c.
Proof.
  intros St Ha Hc. destruct (so_vm _ _ _ _ _ _ _ _ St) as (v & batch & live & ext & P & Hl & Hbs & O).
  pose proof (vo_arena _ _ _ _ (po_ok _ _ _ _ _ P)) as I. pose proof (ai_base _ _ _ I) as (Hb1 & Hb0 & Hb2). rewrite Forall_forall in Hbs.
  pose proof (based_aligned _ _ _ Hb0 (Hbs a Ha)) as Hal. apply elem_of_Permutation in Ha as Ek. destruct Ek as [k Ek].
  unfold span_runs in Hl. rewrite Ek in Hl. cbn [map app] in Hl.
  destruct (live_run_bounds _ _ _ (span_run (arena v) (span_at w a)) I ltac:(rewrite Hl; by left)) as (B1 & B2 & B3). cbn in B1, B2, B3.
  destruct (live_inside _ _ _ (blk_base w a) _ _ I Hal Hl) as [L1 L2]. pose proof pg_pos as Hpp. pose proof (ai_range _ _ _ I).
  apply elem_of_spans in Ha as (i & Hi & Hin). rewrite (so_len _ _ _ _ _ _ _ _ St) in Hi. destruct (so_local _ _ _ _ _ _ _ _ St i Hi) as [A K].
  destruct (li_span _ _ _ _ _ _ K a Hin) as (_ & _ & Hsi & _). pose proof (si_pages _ _ Hsi). pose proof (si_base _ _ Hsi).
  apply (room_disjoint (C ++ cached L) w (arena v) batch live (map (fun a => span_run (arena v) (span_at w a)) k)); [done|done| |done].
  split; [unfold range_ok, blk_base in *; splits; try done; lia|]. assert (Hia : inContigArena (arena v) (blk_base w a) = true) by (unfold inContigArena, blk_base in *; apply andb_true_iff; split; [apply Z.leb_le|apply Z.ltb_lt]; nia).
  rewrite Hia.
  rewrite Hl. unfold span_run at 1. fold (blk_base w a). f_equiv. apply Permutation_app_comm.
Qed.

Lemma blocks_apart slabs L w cl C c d : store_ok slabs L w cl C -> c ∈ C ++ cached L -> d ∈ C ++ cached L -> c <> d -> apart w c d.
Proof.
  intros St Hc Hd Hne. destruct (so_vm _ _ _ _ _ _ _ _ St) as (v & batch & live & ext & P & Hl & _ & O).
  pose proof (vo_arena _ _ _ _ (po_ok _ _ _ _ _ P)) as I. pose proof (ow_span _ _ _ O c Hc) as (_ & _ & _ & R).
  apply elem_of_Permutation in Hc as Ek. destruct Ek as [k Ek]. assert (Hdk : d ∈ k) by (rewrite Ek, elem_of_cons in Hd; destruct Hd; [congruence|done]).
  assert (Hk : forall x, x ∈ k -> x ∈ C ++ cached L) by (intros x Hx; rewrite Ek; by right).
  pose proof (ow_nodup _ _ _ O) as Hnd. rewrite Ek in Hnd. apply NoDup_cons in Hnd as [Hck Hnd].
  assert (O' : own_ok k w (arena v)).
  { constructor; [done|intros x Hx; apply (ow_span _ _ _ O); auto|intros x Hx; apply (ow_out _ _ _ O); auto|intros x y Hx Hy; apply (ow_disj _ _ _ O); auto]. }
  apply (room_disjoint k w (arena v) batch live (span_runs (arena v) w (spans slabs))); [done|done| |done]. split; [done|].
  rewrite Permutation_app_comm in Hl. unfold arena_runs in Hl. rewrite Ek, filter_cons in Hl.
  destruct (decide (in_arena (arena v) w c)) as [Hin|Hout]; unfold in_arena in *.
  - rewrite Hin. exact Hl.
  - destruct (inContigArena (arena v) (blk_base w c)) eqn:E; [done|]. splits; [done| |].
    + by apply (ow_out _ _ _ O); unfold in_arena; rewrite ?E.
    + intros b Hb Hnb. apply (ow_disj _ _ _ O); [done|auto|congruence|unfold in_arena; by rewrite E|done].
Qed.

Lemma objects_apart slabs L w cl C o q : store_ok slabs L w cl C -> o ∈ cl -> q ∈ cl -> o <> q ->
  disjoint_iv o.1 (obj_size w o) q.1 (obj_size w q).
Proof.
  intros St Ho Hq Hne. destruct (store_object _ _ _ _ _ o St Ho) as [i Ki]. destruct (store_object _ _ _ _ _ q St Hq) as [j Kj].
  destruct (decide (i = j)) as [<-|Hij].
  - destruct (store_open _ _ _ _ _ _ _ _ i St (oa_index _ _ _ _ Ki)) as (rest & [A I] & _).
    apply (objs_disjoint _ _ _ _ _ _ _ o q I); [..|done]; apply elem_of_app; right; apply list_elem_of_filter; (split; [|done]); [apply Ki|apply Kj].
  - assert (Hs : o.2 <> q.2).
    { intros E. apply Hij. pose proof (oa_own _ _ _ _ Ki) as Hi. rewrite E in Hi.
      apply (store_disjoint _ _ _ _ _ _ _ _ i j q.2 St (oa_index _ _ _ _ Ki) (oa_index _ _ _ _ Kj) Hi), Kj. }
    assert (Hsp : forall x k, obj_at slabs w x k -> x.2 ∈ spans slabs)
      by (intros x k K; apply elem_of_spans; exists k; rewrite (so_len _ _ _ _ _ _ _ _ St); split; apply K).
    pose proof (spans_apart _ _ _ _ _ o.2 q.2 St (Hsp _ _ Ki) (Hsp _ _ Kj) Hs) as Ha.
    pose proof (oa_range _ _ _ _ Ki). pose proof (oa_range _ _ _ _ Kj). unfold apart, disjoint_iv, blk_base, blk_len in *. lia.
Qed.

Lemma object_block_apart slabs L w cl C o c : store_ok slabs L w cl C -> o ∈ cl -> c ∈ C ->
  disjoint_iv o.1 (obj_size w o) (blk_base w c) (blk_len w c).
Proof.
  intros St Ho Hc. destruct (store_object _ _ _ _ _ o St Ho) as [i Ki].
  assert (Hs : o.2 ∈ spans slabs) by (apply elem_of_spans; exists i; rewrite (so_len _ _ _ _ _ _ _ _ St); split; apply Ki).
  pose proof (span_block_apart _ _ _ _ _ o.2 c St Hs ltac:(set_solver)) as Ha.
  pose proof (oa_range _ _ _ _ Ki). unfold apart, disjoint_iv, blk_base, blk_len in *. lia.
Qed.

Lemma nodup_parts {A} (l : list A) :
  (forall x, x ∈ l -> exists P (d : forall y : A, Decision (P y)), P x /\ NoDup (filter P l)) -> NoDup l.
Proof.
  induction l as [|x l IH]; intros H; [constructor|]. apply NoDup_cons. split.
  - intros Hx. destruct (H x ltac:(by left)) as (P & d & Px & Hn). rewrite filter_cons, decide_True in Hn by done.
    apply NoDup_cons in Hn as [Hn _]. apply Hn. by apply list_elem_of_filter.
  - apply IH. intros y Hy. destruct (H y ltac:(by right)) as (P & d & Py & Hn). exists P, d. split; [done|].
    rewrite filter_cons in Hn. destruct (decide (P x)); [by apply NoDup_cons in Hn as [_ ?]|done].
Qed.

Lemma objects_nodup slabs L w cl C : store_ok slabs L w cl C -> NoDup cl.
Proof.
  intros St. apply nodup_parts. intros o Ho. destruct (store_object _ _ _ _ _ o St Ho) as [i K].
  exists (fun q => q.2 ∈ own (slab_at slabs i)), (fun q => _). split; [apply K|].
  destruct (so_local _ _ _ _ _ _ _ _ St i (oa_index _ _ _ _ K)) as [A I]. pose proof (li_nodup _ _ _ _ _ _ I) as Hn. by apply NoDup_app in Hn as (_ & _ & Hn).
Qed.

(** The drain's lookup is the one every free uses. *)
Lemma drain_resolves w v batch live ext p :
  pm_ok (pmap w) v batch live ext -> 0 <= p < 2 ^ 64 -> resolveSpanForDrain w p = resolveSpan (pmap w) p.
Proof.
  intros P Hp. pose proof (vo_arena _ _ _ _ (po_ok _ _ _ _ _ P)) as I. pose proof (ai_base _ _ _ I) as (B1 & B2 & B3). pose proof pg_pos as Hpp.
  unfold resolveSpanForDrain. rewrite (po_vm _ _ _ _ _ P). destruct (po_tables _ _ _ _ _ P) as (ps & pt & Ef). rewrite Ef.
  destruct (inContigArena (arena v) p) eqn:E.
  - rewrite (resolve_arena _ _ _ _ _ _ P E). unfold inContigArena in E. b2p. rewrite wrap_small by lia.
    case_if; [|lia]. unfold flat_span. rewrite Ef. cbn [page_to_span]. f_equal. apply (contig_page_shift (arena v)).
  - rewrite (resolve_out _ _ _ _ _ _ P E). unfold inContigArena in E.
    case_if; [|by rewrite pm_get_radix]. exfalso. apply andb_false_iff in E. destruct (Z.leb_spec (base_ (arena v)) p).
    + rewrite wrap_small in * by lia. b2p. destruct E; b2p; lia.
    + pose proof (ai_range _ _ _ I). assert (0 <= contig_pages_ (arena v) * kPageSize) by nia.
      assert (Ew : u64 (p - base_ (arena v)) = p - base_ (arena v) + 2 ^ 64) by (unfold wrap; symmetry; apply (Z.mod_unique _ _ (-1)); lia).
      rewrite Ew in *. b2p. lia.
Qed.

(** ** Refills *)

Lemma deallocateOne_mags s w p a s' w' : deallocateOne cfg s w p a = (s', w') -> mags s' = mags s.
Proof.
  unfold deallocateOne, retireEmptySpan. repeat case_if; try (by intros [= <- <-]); cbn zeta; by intros [= <- <-].
Qed.

Lemma deallocateAll_mags s w objs s' w' : deallocateAll cfg s w objs = (s', w') -> mags s' = mags s.
Proof.
  revert s w. induction objs as [|[p a] objs IH]; intros s w; cbn [deallocateAll]; [by intros [= <- <-]|]. case_if; [by apply IH|].
  destruct (deallocateOne cfg s w p a) as [s1 w1] eqn:Eo. intros H. rewrite (IH _ _ H). by eapply deallocateOne_mags.
Qed.

Lemma drainPending_mags s w s' w' : drainPending cfg s w = (s', w') -> mags s' = mags s.
Proof.
  unfold drainPending. set (s0 := set_pending s [] _). change (mags s) with (mags s0). generalize s0 w (pending s). clear s0. intros s0 w0 l.
  revert s0 w0. induction l as [|n l IH]; intros s0 w0; cbn [drain_nodes]; [by intros [= <- <-]|].
  destruct (deallocateAll cfg s0 w0 n) as [s1 w1] eqn:E. intros H. rewrite (IH _ _ H). cbn. by eapply deallocateAll_mags.
Qed.

Lemma batch_mags os s w rest C count b :
  (forall n, oracle_ok (os n)) -> slab_params_ok cfg s -> slab_inv s w rest C -> 0 <= count ->
  allocateBatch cfg os s w count = Some b -> mags (b_slab b) = mags s.
Proof.
  intros Hos Hp I Hc. unfold allocateBatch. destruct (drainPending cfg s w) as [s1 w1] eqn:Ed.
  destruct (drainPending_inv _ _ _ _ _ _ _ I Ed) as (I1 & _ & E1 & E2 & E3). rewrite <- (drainPending_mags _ _ _ _ Ed).
  assert (Hp1 : slab_params_ok cfg s1) by (unfold slab_params_ok, currentCap in *; by rewrite E1, E2, E3).
  destruct (batch_outer_inv cfg (Z.to_nat count + 2) os rest (held s1 ++ C) count (mkBatch s1 w1 [] false) [] Hos Hp1)
    as (b' & L & -> & _ & _ & (_ & _ & _ & _ & S5) & _); [done|done|exact I1|change (zlen (b_out _)) with 0; cbn [b_redirected]; lia|].
  intros [= <-]. exact S5.
Qed.

(** Magazines are not spans. *)
Lemma set_mags_inside s w m n : inside s w (set_mags s m n) w.
Proof. by apply inside_lists. Qed.

Lemma refill_frame os tc sc arena s w rest C r tc' s' w' :
  (forall n, oracle_ok (os n)) -> slab_params_ok cfg s -> slab_inv s w rest C -> mags_ok s ->
  tc_refill cfg magazines os tc sc arena s w = Some (r, tc', s', w') -> grows rest s w s' w' /\ mags_ok s'.
Proof.
  intros Hos Hp I M. unfold tc_refill.
  change (if kPerLaneDepth <? kThreadCacheBatchSize then kPerLaneDepth else kThreadCacheBatchSize) with kPerLaneDepth. cbv zeta.
  assert (Hslow : forall s0, inside s w s0 w -> slab_params_ok cfg s0 -> slab_inv s0 w rest C -> mags_ok s0 ->
    forall r tc' s' w', match allocateBatch cfg os s0 w kPerLaneDepth with
    | None => None
    | Some b => if zlen (b_out b) =? 0 then Some (None, tc, b_slab b, b_world b)
                else Some (Some (zget 0 (overwrite (b_out b) (lane_ptrs tc (tc_idx arena sc))) (zlen (b_out b) - 1)),
                  set_lane tc (tc_idx arena sc) (overwrite (b_out b) (lane_ptrs tc (tc_idx arena sc))) (u16 (zlen (b_out b) - 1)), b_slab b, b_world b)
    end = Some (r, tc', s', w') -> grows rest s w s' w' /\ mags_ok s').
  { clear r tc' s' w'. intros s0 Hin Hp0 I0 M0 r tc' s' w'. destruct (allocateBatch cfg os s0 w kPerLaneDepth) as [b|] eqn:Eb; [|done].
    assert (Hg : grows rest s w (b_slab b) (b_world b) /\ mags_ok (b_slab b)).
    { split; [eapply grows_trans; [by apply inside_grows|apply (batch_grows cfg os s0 w rest C kPerLaneDepth b Hos Hp0 I0 ltac:(done) Eb)]|]. unfold mags_ok. by rewrite (batch_mags os s0 w rest C kPerLaneDepth b Hos Hp0 I0 ltac:(done) Eb). }
    case_if; intros [= <- <- <- <-]; exact Hg. }
  destruct magazines; [|apply Hslow; try done; apply inside_refl].
  unfold magazinePop. destruct (mags s) as [|m ms] eqn:Em; [apply Hslow; try done; apply inside_refl|].
  unfold mags_ok in M. rewrite Em in M. apply Forall_cons in M as [[M1 M2] M3]. set (s1 := set_mags s ms _).
  case_if; [intros [= <- <- <- <-]; split; [apply inside_grows, set_mags_inside|exact M3]|].
  assert (m = []) as -> by (apply nil_length_inv; unfold zlen in *; lia). apply Hslow; [apply set_mags_inside|exact Hp| |exact M3].
  rewrite slab_inv_sinv in *. unfold held in *. rewrite Em in I. exact I.
Qed.

(** A refill of lane [arena] from the slab of that arena. *)
Lemma store_refill os tc sc arena slabs L w cl C :
  (forall n, oracle_ok (os n)) -> store_ok slabs L w cl C -> tc_ok tc -> 0 <= arena < total -> 0 <= sc < kNumClasses ->
  lane_stack tc (tc_idx arena sc) = [] -> let i := arena * kNumClasses + sc in
  exists r tc' s' w' new, tc_refill cfg magazines os tc sc arena (slab_at slabs i) w = Some (r, tc', s', w') /\ tc_ok tc' /\
    store_ok (zset slabs i s') L w' (new ++ cl) C /\ kept L C w w' /\ stays slabs (zset slabs i s') /\
    (forall j, j <> tc_idx arena sc -> lane_stack tc' j = lane_stack tc j) /\ (forall o, o ∈ new -> obj_at (zset slabs i s') w' o i) /\
    match r with None => new = [] /\ tc' = tc | Some p => lane_stack tc' (tc_idx arena sc) ++ [p] = map fst new end.
Proof.
  intros Hos St K Ha Hsc Hl i. pose proof (index_bound arena sc Ha Hsc) as Hi. fold i in Hi.
  destruct (store_open _ _ _ _ _ _ _ _ i St Hi) as (rest & I & Hput). destruct (so_ids _ _ _ _ _ _ _ _ St i Hi) as (_ & _ & Hp & M).
  destruct (refill_correct cfg magazines os tc sc arena _ w rest _ Hos Hp I K Hsc Hl M) as (r & tc' & s' & w' & new & E & K' & I' & Hj & Hr).
  destruct (refill_frame _ _ _ _ _ _ _ _ _ _ _ _ Hos Hp I M E) as [G M'].
  destruct (Hput s' w' [] new cl) as (St' & Hk & Hst); [done|set_solver|done|done|done|].
  exists r, tc', s', w', new. splits; try done. intros o Ho. destruct (store_object _ _ _ _ _ o St' ltac:(set_solver)) as [j Kj].
  assert (j = i) as ->; [|done]. apply (store_disjoint _ _ _ _ _ _ _ _ j i o.2 St' (oa_index _ _ _ _ Kj) Hi); [apply Kj|].
  rewrite slab_at_set, Z.eqb_refl by (by rewrite (so_len _ _ _ _ _ _ _ _ St)). apply slab_inv_split in I' as [I' _]. apply (local_object _ _ _ o I'). set_solver.
Qed.

(** ** Drains *)

Lemma resolved_mags s w objs s' w' : deallocateBatchResolved cfg s w objs = (s', w') -> mags s' = mags s.
Proof.
  unfold deallocateBatchResolved. destruct (drainPending cfg s w) as [s1 w1] eqn:Ed. intros H.
  rewrite (deallocateAll_mags _ _ _ _ _ H). by eapply drainPending_mags.
Qed.

Lemma deferred_mags free s w objs s' w' : deallocateBatchDeferred cfg free s w objs = (s', w') -> mags s' = mags s.
Proof.
  unfold deallocateBatchDeferred. destruct objs; [by intros [= <- <-]|]. repeat case_if; try apply resolved_mags. by intros [= <- <-].
Qed.

Lemma dispatch_step free s w rest objs C s' w' :
  slab_inv s w rest (objs ++ C) -> Forall non_null objs -> zlen objs <= kPerLaneDepth -> mags_ok s ->
  dispatchToSlab cfg magazines defer_free free s w objs = (s', w') -> slab_inv s' w' rest C /\ inside s w s' w' /\ mags_ok s'.
Proof.
  intros I Hn Hz M. assert (If : slab_inv s w rest (filter non_null objs ++ C)) by (rewrite filter_all; [done|by apply Forall_forall]).
  assert (He : entries s objs).
  { intros o Ho. right. apply slab_inv_split in I as [I _]. apply (local_object _ _ _ o I). set_solver. }
  unfold dispatchToSlab. destruct (if magazines then magazinePush s objs else (false, s)) as [pushed s1] eqn:Ep.
  destruct pushed.
  - destruct magazines; [|done]. intros [= <- <-]. pose proof (proj1 (magazines_correct s w rest C) objs If) as Hm. rewrite Ep in Hm.
    unfold magazinePush in Ep. case_if_in Ep; [done|]. injection Ep as <-. splits; [apply Hm|apply set_mags_inside|]. by apply Forall_cons.
  - assert (s1 = s) as -> by (destruct magazines; [|by injection Ep]; unfold magazinePush in Ep; case_if_in Ep; [by injection Ep|done]).
    case_if; intros Hd.
    + splits; [by eapply deallocateBatchDeferred_correct|by eapply inside_deferred|unfold mags_ok; by rewrite (deferred_mags _ _ _ _ _ _ Hd)].
    + splits; [by eapply dealloc_resolved_inv|by eapply inside_resolved|unfold mags_ok; by rewrite (resolved_mags _ _ _ _ _ Hd)].
Qed.

(** One batch to one slab. *)
Lemma store_send free sc a objs slabs L w cl keep C slabs' w' :
  store_ok slabs L w cl C -> 0 <= a < total -> 0 <= sc < kNumClasses -> cl ≡ₚ objs ++ keep -> zlen objs <= kPerLaneDepth ->
  (forall o, o ∈ objs -> obj_at slabs w o (a * kNumClasses + sc)) ->
  send cfg magazines defer_free free sc (slabs, w) a objs = (slabs', w') ->
  store_ok slabs' L w' keep C /\ kept L C w w' /\ stays slabs slabs'.
Proof.
  intros St Ha Hsc Hcl Hz Ho. set (i := a * kNumClasses + sc) in *. pose proof (index_bound a sc Ha Hsc) as Hi. fold i in Hi.
  unfold send. fold i. fold (slab_at slabs i). destruct (dispatchToSlab _ _ _ _ _ _ _) as [s' w1] eqn:Ed. intros [= <- <-].
  destruct (store_open _ _ _ _ _ _ _ _ i St Hi) as (rest & I & Hput). destruct (so_ids _ _ _ _ _ _ _ _ St i Hi) as (_ & _ & Hp & M).
  assert (I1 : slab_inv (slab_at slabs i) w rest (objs ++ mine (slab_at slabs i) keep)).
  { rewrite slab_inv_sinv in *. eapply sinv_perm; [|exact I]. f_equiv. unfold mine at 1. rewrite Hcl. fold (mine (slab_at slabs i) (objs ++ keep)).
    rewrite mine_app, (mine_all _ objs); [done|]. intros o Hin. apply (Ho o Hin). }
  destruct (dispatch_step _ _ _ _ _ _ _ _ I1 ltac:(apply Forall_forall; intros o Hin; apply (Ho o Hin)) Hz M Ed) as (I2 & Hin & M2).
  apply (Hput s' w1 objs [] keep); [done|intros o Hin'; apply (Ho o Hin')|by apply inside_grows|done|done].
Qed.

Lemma store_sends free sc (grp : Z -> list Obj) l slabs L w cl keep C slabs' w' :
  NoDup l -> (forall a, a ∈ l -> 0 <= a < total /\ zlen (grp a) <= kPerLaneDepth) -> 0 <= sc < kNumClasses ->
  store_ok slabs L w cl C -> cl ≡ₚ concat (map grp l) ++ keep ->
  (forall a o, a ∈ l -> o ∈ grp a -> obj_at slabs w o (a * kNumClasses + sc)) ->
  foldl (fun st a => match grp a with [] => st | objs => send cfg magazines defer_free free sc st a objs end) (slabs, w) l = (slabs', w') ->
  store_ok slabs' L w' keep C /\ kept L C w w' /\ stays slabs slabs'.
Proof.
  intros Hnd Hl Hsc. revert slabs w cl Hnd Hl. induction l as [|a l IH]; intros slabs w cl Hnd Hl St Hcl Ho; cbn [foldl map concat].
  - intros [= <- <-]. cbn in Hcl. splits; [|done|done]. by eapply store_cl_perm.
  - apply NoDup_cons in Hnd as [Hna Hnd]. cbn [map concat] in Hcl. rewrite <- app_assoc in Hcl.
    destruct (Hl a ltac:(by left)) as [Ha Hz]. assert (Hl' : forall b, b ∈ l -> 0 <= b < total /\ zlen (grp b) <= kPerLaneDepth) by (intros b Hb; apply Hl; by right).
    destruct (match grp a with [] => _ | _ => _ end) as [s1 w1] eqn:E1. intros Hf.
    assert (H1 : store_ok s1 L w1 (concat (map grp l) ++ keep) C /\ kept L C w w1 /\ stays slabs s1).
    { destruct (grp a) as [|o objs] eqn:Eg.
      - injection E1 as <- <-. splits; [|done|done]. by eapply store_cl_perm.
      - rewrite <- Eg in *. eapply store_send; try done. intros x Hx. apply Ho; [by left|done]. }
    destruct H1 as (St1 & K1 & S1). destruct (IH s1 w1 _ Hnd Hl' St1 ltac:(done)) as (St2 & K2 & S2); [|exact Hf|].
    + intros b o Hb Hin. assert (Hoc : o ∈ concat (map grp l) ++ keep).
      { apply elem_of_app. left. apply list_elem_of_In, in_concat. exists (grp b). split; [by apply in_map, list_elem_of_In|by apply list_elem_of_In]. }
      eapply (obj_at_stays slabs L w cl C s1 L w1); try done; [rewrite Hcl; set_solver|apply Ho; [by right|done]].
    + splits; [done|by etransitivity|by etransitivity].
Qed.

Lemma group_sub items a o : o ∈ group items a -> (o, a) ∈ items.
Proof.
  unfold group. intros Ho. apply list_elem_of_fmap in Ho as ([q b] & -> & Hq). apply list_elem_of_filter in Hq as [Hb Hq]. cbn in *. by subst b.
Qed.

Lemma group_len items a : zlen (group items a) <= zlen items.
Proof. unfold group, zlen. rewrite length_map. pose proof (length_filter (fun it : Obj * Z => it.2 = a) items). lia. Qed.

(** A lane's pointers go back to the slabs they came from, whatever arenas
    share the lane. *)
Lemma store_drain free sc objs slabs L w cl keep C slabs' w' :
  0 < total -> 0 <= sc < kNumClasses -> store_ok slabs L w cl C -> cl ≡ₚ objs ++ keep -> zlen objs <= kPerLaneDepth ->
  (forall o, o ∈ objs -> size_class (span_at w o.2) = sc) ->
  drainRangeToSlabs cfg magazines defer_free total free sc (slabs, w) (map fst objs) = (slabs', w') ->
  store_ok slabs' L w' keep C /\ kept L C w w' /\ stays slabs slabs'.
Proof.
  intros Ht Hsc St Hcl Hz Hc. set (items := map (fun o => (o, arena_id (span_at w o.2))) objs).
  assert (Hobj : forall o, o ∈ objs -> obj_at slabs w o (arena_id (span_at w o.2) * kNumClasses + sc) /\ 0 <= arena_id (span_at w o.2) < total).
  { intros o Ho. destruct (store_object _ _ _ _ _ o St ltac:(rewrite Hcl; set_solver)) as [i K]. pose proof (obj_at_index _ _ _ _ K) as Ei.
    rewrite (Hc o Ho) in Ei. rewrite <- Ei. split; [done|]. rewrite (oa_arena _ _ _ _ K). apply index_range, K. }
  assert (Hit : resolved total w (map fst objs) = items).
  { unfold resolved, items. rewrite map_map. apply map_ext_in. intros o Ho%list_elem_of_In. destruct (Hobj o Ho) as [K Ha].
    destruct (so_vm _ _ _ _ _ _ _ _ St) as (v & batch & live & ext & P & _). pose proof (oa_range _ _ _ _ K). pose proof (oa_end _ _ _ _ K).
    rewrite (drain_resolves w v batch live ext o.1 P ltac:(lia)), (oa_span _ _ _ _ K). cbv zeta. unfold drain_arena.
    rewrite (oa_small _ _ _ _ K), (proj2 (Z.eqb_neq _ _) (oa_null _ _ _ _ K)). cbn [negb andb]. cbv zeta.
    rewrite (proj2 (Z.leb_gt _ _)) by lia. by destruct o. }
  assert (Hf : Forall (fun it => 0 <= it.2 < total) items).
  { apply Forall_forall. intros it Hin. apply list_elem_of_fmap in Hin as (o & -> & Ho). by apply Hobj. }
  rewrite (drain_groups cfg magazines defer_free total free sc (slabs, w) (map fst objs) Ht) by (cbn [snd]; by rewrite Hit).
  cbn [snd]. rewrite Hit. apply store_sends with (cl := cl); [apply NoDup_seqZ| |done|done| |].
  - intros a Ha%elem_of_seqZ. split; [lia|]. etransitivity; [apply group_len|]. unfold items, zlen in *. by rewrite length_map.
  - rewrite (groups_perm total items ltac:(lia) Hf), Hcl. f_equiv. unfold items. rewrite map_map. by rewrite map_id.
  - intros a o Ha Hin%group_sub. apply list_elem_of_fmap in Hin as (q & [= -> ->] & Hq). by apply Hobj.
Qed.

(** ** The compressor's tick *)

(* src/smash_heap.h:1262-1263 SmashHeap::SmashHeap *)
Definition purge_all (slabs : list Slab) (w : World) : list Slab * World :=
  foldl (fun st i => let '(slabs, w) := st in
           let '(s, w) := purgeResidentEmpty (slab_at slabs i) w in (zset slabs i s, w))
    (slabs, w) (seqZ 0 num_slabs).

Lemma store_purge i slabs L w cl C s' w' :
  store_ok slabs L w cl C -> 0 <= i < num_slabs -> purgeResidentEmpty (slab_at slabs i) w = (s', w') ->
  store_ok (zset slabs i s') L w' cl C /\ kept L C w w' /\ stays slabs (zset slabs i s').
Proof.
  intros St Hi Hp. destruct (store_open _ _ _ _ _ _ _ _ i St Hi) as (rest & I & Hput). destruct (so_ids _ _ _ _ _ _ _ _ St i Hi) as (_ & _ & _ & M).
  set (s := slab_at slabs i) in *. assert (H : inside s w s' w' /\ slab_inv s' w' rest (mine s cl) /\ mags s' = mags s).
  { unfold purgeResidentEmpty in Hp. case_if_in Hp; [injection Hp as <- <-; splits; [apply inside_refl|done|done]|].
    assert (Hd : Forall (fun a => a ∈ dom (descr w)) (empty_ s)).
    { apply Forall_forall. intros a Ha. apply (store_span _ _ _ _ _ _ _ _ i a St Hi). apply elem_of_own. auto. }
    destruct (purge_quiet _ _ _ _ _ _ Hd Hp) as [Q (_ & _ & _ & S4 & S5 & S6 & S7 & S8)].
    splits; [eapply inside_purge; [|exact Hp]; intros a Ha; apply elem_of_own; auto| |done].
    destruct I as [A I]. exists A. unfold held. rewrite S4, S5, S6, S7, S8. by apply (inv_quiet _ _ _ _ w). }
  destruct H as (Hin & I' & Em). apply (Hput s' w' [] [] cl); [done|set_solver|by apply inside_grows|done|unfold mags_ok; by rewrite Em].
Qed.

Lemma store_purge_all slabs L w cl C slabs' w' :
  store_ok slabs L w cl C -> purge_all slabs w = (slabs', w') -> store_ok slabs' L w' cl C /\ kept L C w w' /\ stays slabs slabs'.
Proof.
  unfold purge_all. assert (Hl : forall i, i ∈ seqZ 0 num_slabs -> 0 <= i < num_slabs) by (intros i Hi%elem_of_seqZ; lia). revert Hl.
  generalize (seqZ 0 num_slabs). intros l. revert slabs w. induction l as [|i l IH]; intros slabs w Hl St; cbn [foldl]; [by intros [= <- <-]|].
  destruct (purgeResidentEmpty (slab_at slabs i) w) as [s1 w1] eqn:E. destruct (store_purge i _ _ _ _ _ _ _ St (Hl i ltac:(by left)) E) as (St1 & K1 & S1).
  intros Hf. destruct (IH _ _ ltac:(intros j Hj; apply Hl; by right) St1 Hf) as (St2 & K2 & S2). splits; [done|by etransitivity|by etransitivity].
Qed.

(** Steps that leave descriptors and page map alone. *)
Lemma store_same slabs L w w' cl C : descr w' = descr w -> pmap w' = pmap w -> store_ok slabs L w cl C -> store_ok slabs L w' cl C.
Proof.
  intros Ed Ep St. assert (Hat : forall a, span_at w' a = span_at w a) by (intros a; unfold span_at; by rewrite Ed).
  assert (Hf : span_at w' = span_at w) by (unfold span_at; by rewrite Ed). constructor; try apply St.
  - intros i Hi a Ha. destruct (so_tagged _ _ _ _ _ _ _ _ St i Hi a Ha) as [Lb Mp]. unfold mapped. rewrite Hf, Ep. done.
  - intros i Hi. apply (slab_local_same _ w); [intros a _; by rewrite Ed|apply (so_local _ _ _ _ _ _ _ _ St i Hi)].
  - pose proof (so_tracked _ _ _ _ _ _ _ _ St) as T. unfold tracked, blk_len, blk_base in *. by rewrite Hf, Ep.
  - pose proof (so_ltag _ _ _ _ _ _ _ _ St) as T. unfold blk_base in *. by rewrite Hf, Ep.
  - destruct (so_vm _ _ _ _ _ _ _ _ St) as (v & batch & live & ext & P & Hl & Hb & O). exists v, batch, live, ext.
    unfold span_runs, arena_runs, based in *. rewrite Hf, Ep. splits; try done.
    + rewrite Hl. f_equiv. apply reflexive_eq. f_equal. apply filter_ext_in. intros a _. unfold in_arena, blk_base. by rewrite Hf.
    + eapply own_ok_same; [..|exact O]; [done|done|]. intros a Ha. rewrite Hf. split; [done|]. rewrite Ed. by apply (ow_span _ _ _ O).
Qed.

(** A large block's recorded size changes. *)
Lemma own_ok_resize own0 w ar a sp :
  base sp = base (span_at w a) -> page_count sp = page_count (span_at w a) -> is_large sp = is_large (span_at w a) -> own_ok own0 w ar ->
  own_ok own0 (put_span w a sp) ar /\ arena_runs ar (put_span w a sp) own0 = arena_runs ar w own0.
Proof.
  intros H1 H2 H3 [N Hs Oo D]. set (w' := put_span w a sp).
  assert (Hb : forall b, blk_base w' b = blk_base w b /\ page_count (span_at w' b) = page_count (span_at w b) /\ is_large (span_at w' b) = is_large (span_at w b)).
  { intros b. unfold blk_base, w'. rewrite span_at_put. case_if; [b2p; by subst b|done]. }
  assert (Hln : forall b, blk_len w' b = blk_len w b) by (intros b; unfold blk_len; by rewrite (proj1 (proj2 (Hb b)))).
  assert (Hin : forall b, in_arena ar w' b <-> in_arena ar w b) by (intros b; unfold in_arena; by rewrite (proj1 (Hb b))).
  split; [constructor; [done|..]|].
  - intros b Hbo. destruct (Hb b) as (-> & -> & ->). destruct (Hs b Hbo) as (? & ? & ? & ?). splits; try done. cbn. rewrite dom_insert. set_solver.
  - intros b Hbo. rewrite Hin, Hln, (proj1 (Hb b)). by apply Oo.
  - intros b c Hbo Hco. rewrite !Hin, !Hln, (proj1 (Hb b)), (proj1 (Hb c)). by apply D.
  - unfold arena_runs. rewrite (filter_ext_in _ _ _ (fun b _ => Hin b)). apply map_ext. intros b. unfold span_run. destruct (Hb b) as (H4 & -> & _). unfold blk_base in H4. by rewrite H4.
Qed.

Lemma store_resize slabs L w cl C a sp :
  store_ok slabs L w cl C -> a ∈ C ->
  base sp = base (span_at w a) -> page_count sp = page_count (span_at w a) -> is_large sp = is_large (span_at w a) -> large_size sp <= blk_len w a ->
  store_ok slabs L (put_span w a sp) cl C.
Proof.
  intros St Ha H1 H2 H3 H4. set (w' := put_span w a sp). destruct (store_la _ _ _ _ _ _ _ _ St) as (v & batch & live & ext & P & Hb & (K & [T1 T2] & Hex)).
  assert (Hs : forall b, base (span_at w' b) = base (span_at w b) /\ page_count (span_at w' b) = page_count (span_at w b)).
  { intros b. unfold w'. rewrite span_at_put. case_if; [b2p; by subst b|done]. }
  apply (store_large_step cfg maxb total slabs L w cl C L w' C v batch live ext St P Hb); [|done| |done|].
  - unfold la_inv. splits; [done| |].
    + split; [intros x Hx; rewrite (proj2 (Hs _)); by apply T1|]. intros b Hbc. unfold blk_base, blk_len. destruct (Hs b) as [-> ->]. destruct (T2 b Hbc) as [T3 T4].
      split; [done|]. unfold w'. rewrite span_at_put. case_if; [b2p; by subst b|done].
    + destruct Hex as (v' & batch' & live' & ext' & P' & O' & Hl'). exists v', batch', live', ext'. split; [done|].
      destruct (own_ok_resize _ w (arena v') a sp H1 H2 H3 O') as [O2 HR]. split; [done|]. unfold w'. by rewrite HR.
  - intros b Hbs. cbn. rewrite lookup_insert_ne; [done|]. intros <-. apply elem_of_spans in Hbs as (i & Hi & Hin). rewrite (so_len _ _ _ _ _ _ _ _ St) in Hi.
    destruct (store_span _ _ _ _ _ _ _ _ i a St Hi Hin) as (_ & _ & _ & _ & _ & _ & Hn). set_solver.
  - intros b Hbc. unfold blk_base. rewrite (proj1 (Hs b)). by apply (so_ltag _ _ _ _ _ _ _ _ St).
Qed.
End Steps.
