(* ===== verification/CallSite.v ===== *)
(** * Call-site routing (src/smash_heap.h: image table, stable hash, arenas)

    Allocations are routed to arenas by a hash of the call site.  The return
    address is made independent of the load address: a sorted table of the
    executable ranges of the loaded images gives the image base by binary
    search, and the offset from it is hashed.  Two caches, one for the process
    and one for each thread, save the hash and the arena.

    Arguments of the component: what [dl_iterate_phdr] lists, what [dladdr]
    answers, whether the bootstrap allocator has room for a new table, the
    stack-depth bucket, thread id and running CPU of the caller.  Load-balanced
    routing (SMASH_POWER_OF_TWO_CHOICES) is compiled out. *)

From stdpp Require Import sorting.
From Stdlib Require Import String.
From S2P Require Import Prelude BitOps Config.

(** ** Image table *)

(* src/smash_heap.h:554-554 SmashHeap::ImageRange *)
Record ImageRange := mkRange { lo : Z; hi : Z; rbase : Z }.
#[export] Instance ImageRange_eq_dec : EqDecision ImageRange.
Proof. solve_decision. Defined.
Definition no_range : ImageRange := mkRange 0 0 0.

(** The inner [while] loop from [j = i]: entries above [x] move up by one. *)
(* src/smash_heap.h:563-563 SmashHeap::sortRanges *)
Fixpoint shift_down (r : list ImageRange) (x : ImageRange) (j : nat) : list ImageRange * nat :=
  match j with
  | O => (r, O)
  | S j' => if lo x <? lo (nth j' r no_range) then shift_down (<[j := nth j' r no_range]> r) x j' else (r, j)
  end.

(* src/smash_heap.h:561-564 SmashHeap::sortRanges *)
Definition sort_step (r : list ImageRange) (i : nat) : list ImageRange :=
  let x := nth i r no_range in
  let '(r, j) := shift_down r x i in <[j := x]> r.

(* src/smash_heap.h:559-566 SmashHeap::sortRanges *)
Definition sortRanges (r : list ImageRange) : list ImageRange := foldl sort_step r (seq 1 (length r - 1)).

(** A program header and a loaded image as [dl_iterate_phdr] reports them. *)
Record Phdr := mkPhdr { p_load : bool; p_exec : bool; p_vaddr : Z; p_memsz : Z }.
Record Image := mkImage { dlpi_addr : Z; dlpi_phdr : list Phdr }.

Definition UINTPTR_MAX : Z := 2 ^ 64 - 1.

(** The lowest address of a loadable segment. *)
(* src/smash_heap.h:572-575 SmashHeap::collectPhdr *)
Definition first_load (phs : list Phdr) : Z :=
  foldl (fun first ph => if p_load ph && (p_vaddr ph <? first) then p_vaddr ph else first) UINTPTR_MAX phs.

(* src/smash_heap.h:578-578 SmashHeap::collectPhdr *)
Definition image_base (im : Image) : Z := u64 (dlpi_addr im + Z.land (first_load (dlpi_phdr im)) (u64 (Z.lnot 4095))).

Definition phdr_range (im : Image) (ph : Phdr) : ImageRange :=
  mkRange (u64 (dlpi_addr im + p_vaddr ph)) (u64 (dlpi_addr im + p_vaddr ph + p_memsz ph)) (image_base im).

(* src/smash_heap.h:570-587 SmashHeap::collectPhdr *)
Definition collectPhdr (cap : Z) (out : list ImageRange) (im : Image) : list ImageRange :=
  if first_load (dlpi_phdr im) =? UINTPTR_MAX then out
  else foldl (fun out ph =>
         if negb (p_load ph) || negb (p_exec ph) then out
         else if zlen out <? cap then out ++ [phdr_range im ph] else out) out (dlpi_phdr im).

(** [counted] and [listed] are the images of the two walks; [None] is a null
    table. *)
(* src/smash_heap.h:591-628 SmashHeap::rebuildImageTable *)
Definition rebuildImageTable (counted listed : list Image) (room : bool) (old : option (list ImageRange)) : option (list ImageRange) :=
  let cap := zlen (filter (fun ph => p_load ph = true) (concat (map dlpi_phdr counted))) + 64 in
  if negb room then old
  else Some (sortRanges (foldl (collectPhdr cap) [] listed)).

(** The binary search; [fuel] bounds the turns. *)
(* src/smash_heap.h:633-636 SmashHeap::findImageBase *)
Fixpoint search (fuel : nat) (r : list ImageRange) (ra l h : Z) : Z :=
  match fuel with
  | O => l
  | S fuel =>
    if l <? h then
      let mid := (l + h) / 2 in
      if lo (zget no_range r mid) <=? ra then search fuel r ra (mid + 1) h else search fuel r ra l mid
    else l
  end.

(* src/smash_heap.h:630-640 SmashHeap::findImageBase *)
Definition findImageBase (t : option (list ImageRange)) (ra : Z) : Z :=
  match t with
  | None => 0
  | Some r =>
    let l := search (length r + 1) r ra 0 (zlen r) in
    if l =? 0 then 0
    else let e := zget no_range r (l - 1) in if ra <? hi e then rbase e else 0
  end.

(* src/smash_heap.h:642-646 SmashHeap::imageBaseFor *)
Definition imageBaseFor (counted listed : list Image) (room : bool) (t : option (list ImageRange)) (ra : Z)
    : Z * option (list ImageRange) :=
  let b := findImageBase t ra in
  if negb (b =? 0) then (b, t)
  else let t := rebuildImageTable counted listed room t in (findImageBase t ra, t).

(** ** Stable hash *)

(* src/smash_heap.h:663-667 SmashHeap::stableCallsiteHashSlow *)
Definition avalanche (x : Z) : Z :=
  let x := Z.lxor x (Z.shiftr x 16) in
  let x := u32 (x * 0x45d9f3b) in
  let x := Z.lxor x (Z.shiftr x 16) in
  let x := u32 (x * 0x45d9f3b) in
  Z.lxor x (Z.shiftr x 16).

(** [dladdr] answers the base of the image that holds an address, 0 if none. *)
(* src/smash_heap.h:650-671 SmashHeap::stableCallsiteHashSlow *)
Definition hash_site (base_of dladdr : Z -> Z) (ra : Z) : Z :=
  let b := base_of ra in
  let b := if b =? 0 then dladdr ra else b in
  if negb (b =? 0) then avalanche (u32 (u64 (ra - b))) else Z.land ra 0xFFFFF.

(* src/smash_heap.h:518-519 SmashHeap::kStableBucketCacheSize *)
Definition kStableBucketCacheSize : Z := 4096.

(** The table and the direct-mapped cache, entries (ra, hash). *)
(* src/smash_heap.h:520-525 SmashHeap::StableBucketEntry *)
Record SiteState := mkSites { image_table : option (list ImageRange); bucket_cache : gmap Z (Z * Z) }.

(* src/smash_heap.h:533-533 SmashHeap::stableCallsiteHash *)
Definition site_slot (ra : Z) : Z := Z.land (u64 (ra * 0x9E3779B97F4A7C15)) (kStableBucketCacheSize - 1).

(** What one call finds outside. *)
Record Loader := mkLoader { ld_counted : list Image; ld_listed : list Image; ld_room : bool; ld_dladdr : Z -> Z }.

(* src/smash_heap.h:649-677 SmashHeap::stableCallsiteHashSlow *)
Definition stableCallsiteHashSlow (ld : Loader) (st : SiteState) (ra slot : Z) : Z * SiteState :=
  let '(b, t) := imageBaseFor (ld_counted ld) (ld_listed ld) (ld_room ld) (image_table st) ra in
  let h := hash_site (fun _ => b) (ld_dladdr ld) ra in
  (h, mkSites t (<[slot := (ra, h)]> (bucket_cache st))).

(* src/smash_heap.h:532-543 SmashHeap::stableCallsiteHash *)
Definition stableCallsiteHash (ld : Loader) (st : SiteState) (ra : Z) : Z * SiteState :=
  let e := rd (0, 0) (bucket_cache st) (site_slot ra) in
  if e.1 =? ra then (e.2, st) else stableCallsiteHashSlow ld st ra (site_slot ra).

(** ** Arenas *)

(* src/smash_heap.h:99-100 ArenaMemo *)
Record ArenaMemo := mkMemo { m_key : Z; m_base : Z; m_valid : bool }.
Definition kArenaMemoSlots : Z := 256.
Definition no_memo : ArenaMemo := mkMemo 0 0 false.

(** What routing depends on besides the call site. *)
Record Route := mkRoute {
  rt_mask : Z;                     (* getArenaMask() *)
  rt_cpu : option Z;               (* currentCpu() when SMASH_CPU_ARENA is set *)
  rt_thread : option Z;            (* the thread's id when kThreadArenaHash *)
  rt_thread_large : option Z;      (* its id in the large routing's own count *)
  rt_cold : option (Z -> bool)     (* cold_bias_ when kColdArenaFeedback *)
}.

(* src/smash_heap.h:689-691 SmashHeap::callsiteArena *)
Definition memo_key (sc ra : Z) : Z := Z.lxor ra (u64 (Z.shiftl sc 56)).
Definition memo_slot (key : Z) : Z := Z.land (Z.shiftr (u64 (key * 0x9E3779B97F4A7C15)) 56) (kArenaMemoSlots - 1).

Definition golden (x : Z) : Z := u64 (x * 0x9E3779B97F4A7C15).

(* src/smash_heap.h:771-773 SmashHeap::callsiteArenaSlow *)
Definition depth_bucket (stack_base frame : Z) : Z :=
  if frame <? stack_base then u8 (Z.land (Z.shiftr (stack_base - frame) 14) 0xFF) else 0.

(* src/smash_heap.h:783-787 SmashHeap::callsiteArenaSlow *)
Definition murmur (h : Z) : Z :=
  let h := Z.lxor h (Z.shiftr h 33) in
  let h := u64 (h * 0xff51afd7ed558ccd) in
  let h := Z.lxor h (Z.shiftr h 33) in
  let h := u64 (h * 0xc4ceb9fe1a85ec53) in
  Z.lxor h (Z.shiftr h 33).

(* src/smash_heap.h:780-818 SmashHeap::callsiteArenaSlow *)
Definition route (rt : Route) (stable depth sc : Z) : Z :=
  let h := Z.lxor (Z.lxor stable (Z.shiftl depth 8)) sc in
  let h := murmur h in
  let h := match rt_cpu rt with
           | Some cpu => Z.lxor h (golden (if 0 <=? cpu then u32 cpu else 0))
           | None => match rt_thread rt with Some tid => Z.lxor h (golden tid) | None => h end
           end in
  let h := Z.lxor h (Z.shiftr h 16) in
  u8 (Z.land h (rt_mask rt)).

(** [static_cast<uint8_t>(base + getNumArenas())] for a cold pair. *)
(* src/smash_heap.h:885-891 SmashHeap::callsiteArenaSlow *)
Definition cold_route (rt : Route) (base sc : Z) : Z :=
  match rt_cold rt with
  | Some cold => if cold (base * kNumClasses + sc) then u8 (base + (rt_mask rt + 1)) else base
  | None => base
  end.

(* src/smash_heap.h:706-846 SmashHeap::callsiteArenaSlow *)
Definition callsiteArenaSlow (ld : Loader) (rt : Route) (depth sc ra : Z) (st : SiteState) (memo : gmap Z ArenaMemo)
    : Z * SiteState * gmap Z ArenaMemo :=
  let key := memo_key sc ra in
  let slot := memo_slot key in
  let m := rd no_memo memo slot in
  if m_valid m && (m_key m =? key) then (cold_route rt (m_base m) sc, st, memo)
  else
    let '(stable, st) := stableCallsiteHash ld st ra in
    let base := route rt stable depth sc in
    (cold_route rt base sc, st, <[slot := mkMemo key base true]> memo).

(* src/smash_heap.h:687-703 SmashHeap::callsiteArena *)
Definition callsiteArena (ld : Loader) (rt : Route) (depth sc ra : Z) (st : SiteState) (memo : gmap Z ArenaMemo)
    : Z * SiteState * gmap Z ArenaMemo :=
  let key := memo_key sc ra in
  let m := rd no_memo memo (memo_slot key) in
  if m_valid m && (m_key m =? key) then (cold_route rt (m_base m) sc, st, memo)
  else callsiteArenaSlow ld rt depth sc ra st memo.

(* src/smash_heap.h:902-921 SmashHeap::callsiteArenaForLarge *)
Definition callsiteArenaForLarge (ld : Loader) (rt : Route) (ra : Z) (st : SiteState) : Z * SiteState :=
  let '(stable, st) := stableCallsiteHash ld st ra in
  let h := match rt_thread_large rt with Some tid => Z.lxor stable (golden tid) | None => stable end in
  let h := Z.lxor h (Z.shiftr h 16) in
  (u8 (Z.land h (rt_mask rt)), st).

(** ** Sorting *)

Definition below (x y : ImageRange) : Prop := lo x <= lo y.
#[export] Instance below_trans : Transitive below.
Proof. intros x y z. unfold below. lia. Qed.

Lemma shift_down_spec p x x0 rest :
  let '(r, j) := shift_down (p ++ x0 :: rest) x (length p) in
  exists p1 p2, p = p1 ++ p2 /\ <[j := x]> r = p1 ++ x :: p2 ++ rest /\
    Forall (fun y => lo x < lo y) p2 /\ forall y, last p1 = Some y -> lo y <= lo x.
Proof.
  revert x0 rest. induction p as [|y p IH] using rev_ind; intros x0 rest.
  - by exists [], [].
  - rewrite length_app. cbn [length]. rewrite Nat.add_1_r. cbn [shift_down].
    assert (Ey : nth (length p) ((p ++ [y]) ++ x0 :: rest) no_range = y) by (rewrite <- app_assoc; apply nth_middle). rewrite Ey.
    case_if.
    + assert (Er : <[S (length p) := y]> ((p ++ [y]) ++ x0 :: rest) = p ++ y :: (y :: rest)).
      { rewrite <- app_assoc. rewrite insert_app_r_alt by lia. replace (S (length p) - length p)%nat with 1%nat by lia. done. }
      rewrite Er. specialize (IH y (y :: rest)). destruct (shift_down _ x (length p)) as [r j].
      destruct IH as (p1 & p2 & -> & E2 & F2 & L). exists p1, (p2 ++ [y]). splits; [by rewrite app_assoc|by rewrite <- app_assoc| |done].
      apply Forall_app. split; [done|]. by constructor.
    + exists (p ++ [y]), []. splits; [by rewrite app_nil_r| |constructor|intros z; rewrite last_snoc; intros [= <-]; lia].
      rewrite insert_app_r_alt by (rewrite length_app; cbn; lia). replace (S (length p) - length (p ++ [y]))%nat with 0%nat by (rewrite length_app; cbn; lia). done.
Qed.

Lemma sorted_insert p1 p2 x :
  StronglySorted below (p1 ++ p2) -> Forall (fun y => lo x < lo y) p2 -> (forall y, last p1 = Some y -> lo y <= lo x) ->
  StronglySorted below (p1 ++ x :: p2).
Proof.
  intros HS F L. induction p1 as [|z p1 IH]; cbn in *.
  - constructor; [done|]. eapply Forall_impl; [exact F|]. intros y Hy. cbv beta in Hy. unfold below. lia.
  - inversion HS as [|? ? S' F']; subst. apply Forall_app in F' as [F1 F2]. constructor.
    + apply IH; [done|]. intros y Hy. apply L. by rewrite last_cons, Hy.
    + apply Forall_app. split; [done|]. constructor; [|done]. unfold below. destruct (last p1) as [y|] eqn:E.
      * assert (lo y <= lo x) by (apply L; by rewrite last_cons, E). assert (below z y); [|unfold below in *; lia].
        rewrite Forall_forall in F1. apply F1. by apply last_Some_elem_of.
      * apply last_None in E as ->. by apply L.
Qed.

Lemma sort_loop p rest :
  StronglySorted below p ->
  let r := foldl sort_step (p ++ rest) (seq (length p) (length rest)) in StronglySorted below r /\ r ≡ₚ p ++ rest.
Proof.
  revert p. induction rest as [|x rest IH]; intros p HS; cbn [foldl seq length]; [by rewrite app_nil_r|].
  pose proof (shift_down_spec p x x rest) as H. assert (Es : sort_step (p ++ x :: rest) (length p) =
    (let '(r, j) := shift_down (p ++ x :: rest) x (length p) in <[j := x]> r)) by (unfold sort_step; by rewrite nth_middle).
  rewrite Es. destruct (shift_down _ _ _) as [r j]. destruct H as (p1 & p2 & -> & -> & F & L).
  replace (p1 ++ x :: p2 ++ rest) with ((p1 ++ x :: p2) ++ rest) by (by rewrite <- app_assoc).
  replace (S (length (p1 ++ p2))) with (length (p1 ++ x :: p2)) by (rewrite !length_app; cbn; lia).
  destruct (IH (p1 ++ x :: p2)) as [S' P']; [by apply sorted_insert|]. split; [done|]. rewrite P', <- !app_assoc. simpl.
  apply Permutation_app_head. by rewrite Permutation_middle.
Qed.

Lemma sortRanges_spec r : StronglySorted below (sortRanges r) /\ sortRanges r ≡ₚ r.
Proof.
  unfold sortRanges. destruct r as [|x r]; [split; [constructor|done]|].
  replace (length (x :: r) - 1)%nat with (length r) by (cbn; lia).
  apply (sort_loop [x] r). repeat constructor.
Qed.

(** ** Searching *)

Lemma sorted_nth r i j :
  StronglySorted below r -> 0 <= i <= j -> j < zlen r -> lo (zget no_range r i) <= lo (zget no_range r j).
Proof.
  intros HS. revert i j. induction HS as [|x r HS IH F]; intros i j Hij Hj; [unfold zlen in Hj; cbn in Hj; lia|].
  rewrite zlen_cons in Hj. assert (Hg : forall k, 0 < k -> zget no_range (x :: r) k = zget no_range r (k - 1)).
  { intros k Hk. unfold zget. rewrite !(proj2 (Z.leb_le 0 _)) by lia. replace (Z.to_nat k) with (S (Z.to_nat (k - 1))) by lia. done. }
  destruct (decide (j = 0)) as [->|Hj0]; [replace i with 0 by lia; lia|]. rewrite (Hg j) by lia.
  destruct (decide (i = 0)) as [->|Hi0]; [|rewrite (Hg i) by lia; apply IH; lia].
  change (zget no_range (x :: r) 0) with x. rewrite Forall_forall in F. apply F. unfold zget. rewrite (proj2 (Z.leb_le 0 _)) by lia.
  destruct (r !! Z.to_nat (j - 1)) as [y|] eqn:E; [by apply list_elem_of_lookup_2 in E|]. apply lookup_ge_None in E. unfold zlen in Hj. lia.
Qed.

(** The search returns the number of ranges that start at or below [ra]. *)
Lemma search_spec fuel r ra l h :
  StronglySorted below r -> 0 <= l <= h -> h <= zlen r -> h - l < Z.of_nat fuel ->
  (forall k, 0 <= k < l -> lo (zget no_range r k) <= ra) -> (forall k, h <= k < zlen r -> ra < lo (zget no_range r k)) ->
  let m := search fuel r ra l h in l <= m <= h /\
    (forall k, 0 <= k < m -> lo (zget no_range r k) <= ra) /\ (forall k, m <= k < zlen r -> ra < lo (zget no_range r k)).
Proof.
  intros HS. revert l h. induction fuel as [|fuel IH]; intros l h Hl Hh Hf Hlow Hhigh; [lia|]. cbn [search].
  case_if; [|assert (h = l) as -> by lia; splits; try done; lia].
  assert (Hm : l <= (l + h) / 2 < h) by dlia. set (mid := (l + h) / 2) in *. clearbody mid. cbv zeta. case_if.
  - destruct (IH (mid + 1) h) as (H1 & H2 & H3); try lia; try done.
    + intros k Hk. pose proof (sorted_nth r k mid HS ltac:(lia) ltac:(lia)). lia.
    + splits; try done; lia.
  - destruct (IH l mid) as (H1 & H2 & H3); try lia; try done.
    + intros k Hk. pose proof (sorted_nth r mid k HS ltac:(lia) ltac:(lia)). lia.
    + splits; try done; lia.
Qed.

(** Ranges that do not overlap, none empty. *)
Definition ranges_apart (r : list ImageRange) : Prop :=
  NoDup r /\ (forall x, x ∈ r -> lo x < hi x) /\ forall x y, x ∈ r -> y ∈ r -> x <> y -> hi x <= lo y \/ hi y <= lo x.

Definition holds_site (ra : Z) (x : ImageRange) : Prop := lo x <= ra < hi x.
#[export] Instance holds_site_dec ra x : Decision (holds_site ra x).
Proof. unfold holds_site. apply _. Defined.

Lemma zget_elem r i : 0 <= i < zlen r -> zget no_range r i ∈ r.
Proof.
  intros Hi. unfold zget. rewrite (proj2 (Z.leb_le 0 _)) by lia. destruct (r !! Z.to_nat i) as [y|] eqn:E; [by apply list_elem_of_lookup_2 in E|].
  apply lookup_ge_None in E. unfold zlen in Hi. lia.
Qed.

Lemma find_spec r ra :
  StronglySorted below r -> ranges_apart r ->
  (forall x, x ∈ r -> holds_site ra x -> findImageBase (Some r) ra = rbase x) /\
  ((forall x, x ∈ r -> ~ holds_site ra x) -> findImageBase (Some r) ra = 0).
Proof.
  intros HS (Hn & Hne & Hap). unfold findImageBase.
  destruct (search_spec (length r + 1) r ra 0 (zlen r) HS ltac:(pose proof (zlen_nonneg r); lia) ltac:(lia) ltac:(unfold zlen; lia) ltac:(lia) ltac:(lia))
    as (Hm & Hlow & Hhigh). set (m := search _ _ _ _ _) in *. clearbody m. split.
  - intros x Hx [Hx1 Hx2]. apply list_elem_of_lookup in Hx as [k Hk]. pose proof (lookup_lt_Some _ _ _ Hk) as Hkl.
    assert (Ek : zget no_range r (Z.of_nat k) = x) by (unfold zget; rewrite (proj2 (Z.leb_le 0 _)), Nat2Z.id, Hk by lia; done).
    assert (Hkm : Z.of_nat k < m).
    { destruct (Z.lt_ge_cases (Z.of_nat k) m); [done|]. specialize (Hhigh (Z.of_nat k) ltac:(unfold zlen; lia)). rewrite Ek in Hhigh. lia. }
    case_if; [lia|]. assert (Ee : zget no_range r (m - 1) = x); [|rewrite Ee; case_if; [done|lia]].
    destruct (decide (zget no_range r (m - 1) = x)) as [|Hd]; [done|]. exfalso.
    pose proof (zget_elem r (m - 1) ltac:(lia)) as He. pose proof (Hlow (m - 1) ltac:(lia)) as Hel. pose proof (Hne _ He).
    pose proof (sorted_nth r (Z.of_nat k) (m - 1) HS ltac:(lia) ltac:(lia)) as Hs. rewrite Ek in Hs.
    apply list_elem_of_lookup_2 in Hk. destruct (Hap _ x He Hk Hd); lia.
  - intros Hno. case_if; [done|]. case_if; [|done]. exfalso. apply (Hno (zget no_range r (m - 1))); [apply zget_elem; lia|].
    split; [apply Hlow; lia|done].
Qed.

(** ** What the table holds *)

(** The executable ranges of the loaded images. *)
Definition exec_phdrs (im : Image) : list Phdr := filter (fun ph => p_load ph && p_exec ph = true) (dlpi_phdr im).
Definition code_ranges (ims : list Image) : list ImageRange := concat (map (fun im => map (phdr_range im) (exec_phdrs im)) ims).
Definition load_count (ims : list Image) : Z := zlen (filter (fun ph => p_load ph = true) (concat (map dlpi_phdr ims))).

Lemma first_load_le phs init : foldl (fun first ph => if p_load ph && (p_vaddr ph <? first) then p_vaddr ph else first) init phs <= init /\
  forall ph, ph ∈ phs -> p_load ph = true -> foldl (fun first ph => if p_load ph && (p_vaddr ph <? first) then p_vaddr ph else first) init phs <= p_vaddr ph.
Proof.
  revert init. induction phs as [|p phs IH]; intros init; cbn; [split; [lia|set_solver]|].
  destruct (IH (if p_load p && (p_vaddr p <? init) then p_vaddr p else init)) as [H1 H2]. split.
  - case_if_in H1; lia.
  - intros ph [->|Hp]%elem_of_cons Hl; [|by apply H2]. clear H2. rewrite Hl in H1 |- *. cbn [andb] in H1 |- *. case_if_in H1; lia.
Qed.

Lemma collect_phdrs cap im phs out :
  zlen out + zlen (filter (fun ph => p_load ph && p_exec ph = true) phs) <= cap ->
  foldl (fun out ph => if negb (p_load ph) || negb (p_exec ph) then out
         else if zlen out <? cap then out ++ [phdr_range im ph] else out) out phs =
  out ++ map (phdr_range im) (filter (fun ph => p_load ph && p_exec ph = true) phs).
Proof.
  revert out. induction phs as [|ph phs IH]; intros out Hc; cbn [foldl]; [by rewrite app_nil_r|].
  rewrite filter_cons in Hc |- *. destruct (p_load ph), (p_exec ph); cbn [andb orb negb] in *; try (by apply IH).
  cbn [decide] in *. rewrite decide_True in Hc |- * by done. rewrite zlen_cons in Hc. pose proof (zlen_nonneg (filter (fun ph => p_load ph && p_exec ph = true) phs)).
  rewrite (proj2 (Z.ltb_lt _ _)) by lia. rewrite IH; [by rewrite <- app_assoc|]. rewrite zlen_app. change (zlen [phdr_range im ph]) with 1. lia.
Qed.

Lemma collect_image cap im out :
  Forall (fun ph => p_load ph = true -> p_vaddr ph < UINTPTR_MAX) (dlpi_phdr im) -> zlen out + zlen (exec_phdrs im) <= cap ->
  collectPhdr cap out im = out ++ map (phdr_range im) (exec_phdrs im).
Proof.
  intros Hv Hc. unfold collectPhdr. case_if; [|by apply collect_phdrs].
  assert (exec_phdrs im = []) as ->; [|by rewrite app_nil_r]. unfold exec_phdrs. apply filter_none. intros ph Hph Hl.
  destruct (p_load ph) eqn:El; [|done]. unfold first_load in E. pose proof (proj2 (first_load_le (dlpi_phdr im) UINTPTR_MAX) ph Hph El).
  rewrite Forall_forall in Hv. specialize (Hv ph Hph El). lia.
Qed.

Lemma collect_images cap ims out :
  Forall (fun im => Forall (fun ph => p_load ph = true -> p_vaddr ph < UINTPTR_MAX) (dlpi_phdr im)) ims ->
  zlen out + zlen (code_ranges ims) <= cap -> foldl (collectPhdr cap) out ims = out ++ code_ranges ims.
Proof.
  intros Hv. revert out. induction Hv as [|im ims Hi Hv IH]; intros out Hc; [by rewrite app_nil_r|]. cbn [foldl].
  unfold code_ranges in Hc |- *. cbn [map concat] in Hc |- *. rewrite zlen_app in Hc.
  assert (Hl : zlen (map (phdr_range im) (exec_phdrs im)) = zlen (exec_phdrs im)) by (unfold zlen; by rewrite length_map).
  pose proof (zlen_nonneg (concat (map (fun im => map (phdr_range im) (exec_phdrs im)) ims))).
  rewrite collect_image by (done || lia). rewrite IH; [by rewrite <- app_assoc|]. rewrite zlen_app. unfold code_ranges. lia.
Qed.

(** An image in the address space: its segments end below 2^64 and its base is
    not null. *)
Definition placed (im : Image) : Prop :=
  0 <= dlpi_addr im /\ 0 < dlpi_addr im + Z.land (first_load (dlpi_phdr im)) (u64 (Z.lnot 4095)) < 2 ^ 64 /\
  Forall (fun ph => p_load ph = true -> 0 <= p_vaddr ph /\ 0 < p_memsz ph /\ dlpi_addr im + p_vaddr ph + p_memsz ph < 2 ^ 64) (dlpi_phdr im).

(** A table of disjoint ranges with room for all of them. *)
Definition well_loaded (ld : Loader) : Prop :=
  ld_room ld = true /\ Forall placed (ld_listed ld) /\ ranges_apart (code_ranges (ld_listed ld)) /\
  zlen (code_ranges (ld_listed ld)) <= load_count (ld_counted ld) + 64.

(** [ra] is in the code of [im]. *)
Definition in_code (im : Image) (ra : Z) : Prop :=
  exists ph, ph ∈ exec_phdrs im /\ dlpi_addr im + p_vaddr ph <= ra < dlpi_addr im + p_vaddr ph + p_memsz ph.

Lemma land_below a b : 0 <= a -> 0 <= Z.land a b <= a.
Proof.
  intros Ha. split; [apply Z.land_nonneg; by left|]. assert (E : Z.ldiff (Z.land a b) a = 0).
  { apply Z.bits_inj'. intros n Hn. rewrite Z.ldiff_spec, Z.land_spec, Z.bits_0. by destruct (Z.testbit a n), (Z.testbit b n). }
  apply Z.sub_nocarry_ldiff in E. assert (0 <= Z.ldiff a (Z.land a b)) by (apply Z.ldiff_nonneg; by left). lia.
Qed.

Lemma low_mask x : 0 <= x -> 0 <= Z.land x (u64 (Z.lnot 4095)) <= x.
Proof. apply land_below. Qed.

(** The table leads from an address in an image's code to the image's base. *)
Lemma site_base ld t im ra :
  well_loaded ld -> im ∈ ld_listed ld -> in_code im ra ->
  let b := dlpi_addr im + Z.land (first_load (dlpi_phdr im)) (u64 (Z.lnot 4095)) in
  findImageBase (rebuildImageTable (ld_counted ld) (ld_listed ld) (ld_room ld) t) ra = b /\ 0 < b <= ra.
Proof.
  intros (Hr & Hp & Ha & Hc) Him (ph & Hph & Hra). rewrite Hr. unfold rebuildImageTable. cbn [negb]. fold (load_count (ld_counted ld)).
  assert (Hp2 := Hp). rewrite Forall_forall in Hp2. destruct (Hp2 im Him) as (P1 & P2 & P3). pose proof Hph as Hph2.
  unfold exec_phdrs in Hph2. apply list_elem_of_filter in Hph2 as [Hl Hin]. destruct (p_load ph) eqn:El; [|done].
  rewrite Forall_forall in P3. destruct (P3 ph Hin El) as (V1 & V2 & V3).
  rewrite collect_images; [|eapply Forall_impl; [exact Hp|]; intros x (X1 & _ & X2); cbv beta in *; eapply Forall_impl; [exact X2|]; intros y Hy Hyl; specialize (Hy Hyl); unfold UINTPTR_MAX; lia|].
  2:{ change (zlen []) with 0. lia. }
  cbn [app]. destruct (sortRanges_spec (code_ranges (ld_listed ld))) as [HS HP].
  assert (Hx : phdr_range im ph ∈ code_ranges (ld_listed ld)).
  { unfold code_ranges. apply list_elem_of_In, in_concat. exists (map (phdr_range im) (exec_phdrs im)). split.
    - apply (in_map (fun im => map (phdr_range im) (exec_phdrs im))). by apply list_elem_of_In.
    - apply in_map. by apply list_elem_of_In. }
  assert (Ha2 : ranges_apart (sortRanges (code_ranges (ld_listed ld)))).
  { destruct Ha as (A1 & A2 & A3). split; [by rewrite HP|]. split; [intros x; rewrite HP; apply A2|]. intros x y. rewrite HP. apply A3. }
  assert (Hb : image_base im = dlpi_addr im + Z.land (first_load (dlpi_phdr im)) (u64 (Z.lnot 4095))) by (unfold image_base; apply wrap_small; lia).
  cbv zeta. split.
  - rewrite <- Hb. change (image_base im) with (rbase (phdr_range im ph)). apply (proj1 (find_spec _ ra HS Ha2)); [by rewrite HP|].
    unfold holds_site, phdr_range. cbn [lo hi]. rewrite !wrap_small by lia. lia.
  - assert (Hf : 0 <= first_load (dlpi_phdr im) <= p_vaddr ph).
    { split; [|by apply (proj2 (first_load_le (dlpi_phdr im) UINTPTR_MAX))]. unfold first_load.
      assert (Hnn : forall phs init, 0 <= init -> Forall (fun ph => p_load ph = true -> 0 <= p_vaddr ph) phs ->
        0 <= foldl (fun first ph => if p_load ph && (p_vaddr ph <? first) then p_vaddr ph else first) init phs).
      { induction phs as [|q phs IH]; intros init Hi Hq; cbn; [done|]. apply Forall_cons in Hq as [Hq1 Hq2]. apply IH; [|done].
        destruct (p_load q); cbn; [|done]. case_if; [by apply Hq1|done]. }
      apply Hnn; [done|]. apply Forall_forall. intros q Hq Hql. by destruct (P3 q Hq Hql). }
    pose proof (low_mask _ (proj1 Hf)). lia.
Qed.

Definition fresh_sites : SiteState := mkSites None ∅.

(** The hash of a call site seen for the first time is that of its offset in
    its image. *)
Lemma first_hash ld im ra :
  well_loaded ld -> im ∈ ld_listed ld -> in_code im ra ->
  (stableCallsiteHash ld fresh_sites ra).1 =
  avalanche (u32 (u64 (ra - (dlpi_addr im + Z.land (first_load (dlpi_phdr im)) (u64 (Z.lnot 4095)))))).
Proof.
  intros W Him Hin. destruct (site_base ld None im ra W Him Hin) as [Eb Hb]. unfold stableCallsiteHash, fresh_sites. cbn [bucket_cache].
  assert (rd (0, 0) (∅ : gmap Z (Z * Z)) (site_slot ra) = (0, 0)) as -> by (unfold rd; by rewrite lookup_empty). cbn [fst snd].
  rewrite (proj2 (Z.eqb_neq 0 ra)) by lia. unfold stableCallsiteHashSlow, imageBaseFor. cbn [image_table findImageBase Z.eqb negb]. rewrite Eb.
  cbn [fst]. unfold hash_site. set (b := _ + _) in *. rewrite (proj2 (Z.eqb_neq b 0)) by lia. cbn [negb]. by rewrite (proj2 (Z.eqb_neq b 0)) by lia.
Qed.

(** ** Properties *)

Definition relocate (x : Image * Z) : Image := mkImage (dlpi_addr x.1 + x.2) (dlpi_phdr x.1).

(** Call-site hashes do not depend on where images are loaded: if every
    image is moved by a distance of its own, the first lookup of a call site in
    the one process and of the moved call site in the other give the same
    hash, found through the sorted table and its binary search, whatever the
    order of the images in memory. *)
Lemma callsite_hash_aslr (ims : list (Image * Z)) ld ld' im d ra :
  ld_listed ld = map fst ims -> ld_listed ld' = map relocate ims -> well_loaded ld -> well_loaded ld' ->
  (im, d) ∈ ims -> in_code im ra ->
  (stableCallsiteHash ld fresh_sites ra).1 = (stableCallsiteHash ld' fresh_sites (ra + d)).1.
Proof.
  intros E1 E2 W W' Him Hin. rewrite (first_hash ld im ra W); [|rewrite E1; apply list_elem_of_fmap; by exists (im, d)|done].
  rewrite (first_hash ld' (relocate (im, d)) (ra + d) W').
  - cbn [relocate dlpi_addr dlpi_phdr fst snd]. do 2 f_equal. f_equal. lia.
  - rewrite E2. apply list_elem_of_fmap. by exists (im, d).
  - destruct Hin as (ph & Hph & Hra). exists ph. split; [exact Hph|]. cbn [relocate dlpi_addr fst snd]. lia.
Qed.

(** Memo entries are arenas. *)
Definition memo_ok (n : Z) (memo : gmap Z ArenaMemo) : Prop := forall slot, 0 <= m_base (rd no_memo memo slot) < n.

Lemma memo_ok_set n memo slot key base : memo_ok n memo -> 0 <= base < n -> memo_ok n (<[slot := mkMemo key base true]> memo).
Proof. intros M Hb j. unfold rd. rewrite lookup_insert. case_decide; [done|]. apply M. Qed.

Lemma mask_bound h m : 0 <= m -> 0 <= Z.land h m <= m.
Proof. intros Hm. rewrite Z.land_comm. by apply land_below. Qed.

Lemma cold_bound rt base sc : 0 <= rt_mask rt < 128 -> 0 <= base < rt_mask rt + 1 ->
  0 <= cold_route rt base sc < (rt_mask rt + 1) * (match rt_cold rt with Some _ => 2 | None => 1 end).
Proof. intros Hm Hb. unfold cold_route. destruct (rt_cold rt); [|lia]. case_if; [rewrite wrap_small by lia; lia|lia]. Qed.

Lemma route_bound rt stable depth sc : 0 <= rt_mask rt < 128 -> 0 <= route rt stable depth sc < rt_mask rt + 1.
Proof.
  intros Hm. unfold route. set (h := Z.lxor (match rt_cpu rt with Some _ => _ | None => _ end) _).
  pose proof (mask_bound h (rt_mask rt) ltac:(lia)). rewrite wrap_small; lia.
Qed.

Lemma slow_arena ld rt depth sc ra st memo : 0 <= rt_mask rt < 128 -> memo_ok (rt_mask rt + 1) memo ->
  let '(a, _, memo') := callsiteArenaSlow ld rt depth sc ra st memo in
  0 <= a < (rt_mask rt + 1) * (match rt_cold rt with Some _ => 2 | None => 1 end) /\ memo_ok (rt_mask rt + 1) memo'.
Proof.
  intros Hm M. unfold callsiteArenaSlow. case_if; [split; [by apply cold_bound|done]|].
  destruct (stableCallsiteHash ld st ra) as [stable st']. pose proof (route_bound rt stable depth sc Hm).
  split; [by apply cold_bound|by apply memo_ok_set].
Qed.

Lemma arena_bound ld rt depth sc ra st memo : 0 <= rt_mask rt < 128 -> memo_ok (rt_mask rt + 1) memo ->
  let '(a, _, memo') := callsiteArena ld rt depth sc ra st memo in
  0 <= a < (rt_mask rt + 1) * (match rt_cold rt with Some _ => 2 | None => 1 end) /\ memo_ok (rt_mask rt + 1) memo'.
Proof. intros Hm M. unfold callsiteArena. case_if; [split; [by apply cold_bound|done]|]. by apply slow_arena. Qed.

(* include/smash/config.h:145-147 getTotalArenas *)
Definition getTotalArenas (cold_feedback : bool) (env : option string) (ncpu : Z) : Z :=
  if cold_feedback then getNumArenas env ncpu * 2 else getNumArenas env ncpu.

Lemma num_arenas_mask env ncpu : 0 <= getArenaMask env ncpu < 128 /\ getArenaMask env ncpu + 1 = getNumArenas env ncpu.
Proof.
  destruct (proj1 (getNumArenas_pow2 env ncpu 0)) as (j & Hj & E). unfold getArenaMask.
  assert (0 < 2 ^ j <= 2 ^ 7) by (split; [lia|apply Z.pow_le_mono_r; lia]). lia.
Qed.

Lemma is_some_total {A} (o : option A) env ncpu :
  getNumArenas env ncpu * (match o with Some _ => 2 | None => 1 end) = getTotalArenas (bool_decide (is_Some o)) env ncpu.
Proof. unfold getTotalArenas. destruct o; cbn; lia. Qed.

(** Routing stays within the slabs that exist and sticks to a call site:
    whatever the hash, the processor count and the environment, the arena of a
    small allocation is below the number of arenas (hot and cold) and that of a
    large one below the number of hot arenas; the memo keeps this, and once a
    thread has routed a (call site, class) pair it gets the same arena again, at
    any stack depth. *)
Lemma callsite_arena_in_range env ncpu ld rt depth sc ra st memo :
  rt_mask rt = getArenaMask env ncpu -> memo_ok (getNumArenas env ncpu) memo ->
  (let '(a, _, memo') := callsiteArena ld rt depth sc ra st memo in
   0 <= a < getTotalArenas (bool_decide (is_Some (rt_cold rt))) env ncpu /\ memo_ok (getNumArenas env ncpu) memo' /\
   forall ld' depth' st', (callsiteArena ld' rt depth' sc ra st' memo').1.1 = a) /\
  0 <= (callsiteArenaForLarge ld rt ra st).1 < getNumArenas env ncpu.
Proof.
  intros Hr M. destruct (num_arenas_mask env ncpu) as [Hm En]. rewrite <- Hr in Hm, En. rewrite <- is_some_total, <- En. rewrite <- En in M. split.
  - pose proof (arena_bound ld rt depth sc ra st memo Hm M) as Hb. destruct (callsiteArena ld rt depth sc ra st memo) as [[a st1] memo'] eqn:E.
    destruct Hb as [H1 H2]. split; [exact H1|]. split; [exact H2|]. intros ld' depth' st'. revert E. unfold callsiteArena, callsiteArenaSlow.
    set (key := memo_key sc ra). set (m := rd no_memo memo (memo_slot key)). 
    destruct (m_valid m && (m_key m =? key)) eqn:Eh; [intros [= <- <- <-]; fold m; by rewrite Eh|].
    destruct (stableCallsiteHash ld st ra) as [stable st2]. rewrite !pair_equal_spec. intros [[<- _] <-].
    assert (rd no_memo (<[memo_slot key := mkMemo key (route rt stable depth sc) true]> memo) (memo_slot key) = mkMemo key (route rt stable depth sc) true) as ->
      by (unfold rd; by rewrite lookup_insert_eq). cbn [m_valid m_key m_base]. by rewrite Z.eqb_refl.
  - unfold callsiteArenaForLarge. destruct (stableCallsiteHash ld st ra) as [stable st']. cbn [fst]. set (h := Z.lxor _ (Z.shiftr _ _)).
    pose proof (mask_bound h (rt_mask rt) ltac:(lia)). rewrite wrap_small; lia.
Qed.

(** ** Witnesses *)

(** A program at its link address and a library; then both moved, and swapped
    in memory. *)
Definition demo_exe : Image := mkImage 0 [mkPhdr true false 0x400000 0x1000; mkPhdr true true 0x401000 0x2000].
Definition demo_lib : Image := mkImage 0x7f0000000000 [mkPhdr true true 0 0x5000; mkPhdr false true 0x8000 0x100].
Definition demo_images : list (Image * Z) := [(demo_lib, - 0x7effff000000); (demo_exe, 0x10000000)].
Definition demo_loader : Loader := mkLoader (map fst demo_images) (map fst demo_images) true (fun _ => 0).
Definition demo_loader' : Loader := mkLoader (map relocate demo_images) (map relocate demo_images) true (fun _ => 0).

Lemma two_apart (x y : ImageRange) : lo x < hi x -> lo y < hi y -> hi x <= lo y \/ hi y <= lo x -> ranges_apart [x; y].
Proof.
  intros Hx Hy Ha. unfold ranges_apart. splits.
  - apply NoDup_cons. split; [|apply NoDup_singleton]. intros ->%list_elem_of_singleton. lia.
  - intros z. rewrite elem_of_cons, list_elem_of_singleton. intros [->| ->]; done.
  - intros z1 z2. rewrite !elem_of_cons, !elem_of_nil. intros [->|[->|[]]] [->|[->|[]]] Hne; done || lia.
Qed.

Ltac compute_bound := vm_compute; first [reflexivity | discriminate | by left | by right].

Lemma demo_loaded : well_loaded demo_loader /\ well_loaded demo_loader'.
Proof.
  assert (Hp : forall a l, 0 <= a -> 0 < a + Z.land (first_load l) (u64 (Z.lnot 4095)) < 2 ^ 64 ->
    forallb (fun ph => (0 <=? p_vaddr ph) && (0 <? p_memsz ph) && (a + p_vaddr ph + p_memsz ph <? 2 ^ 64)) l = true -> placed (mkImage a l)).
  { intros a l Ha Hb Hl. unfold placed. cbn [dlpi_addr dlpi_phdr]. splits; [done|lia|lia|]. apply Forall_forall. intros ph Hph _.
    rewrite forallb_forall in Hl. specialize (Hl ph ltac:(by apply list_elem_of_In)). b2p. lia. }
  split; (split; [reflexivity|]); (split; [|split; [apply two_apart; compute_bound|compute_bound]]);
    (apply Forall_cons; split; [|apply Forall_cons; split; [|by apply Forall_nil]]); apply Hp; try compute_bound; split; compute_bound.
Qed.

Definition demo_route (tid : option Z) : Route := mkRoute (getArenaMask (Some "8"%string) 4) None tid tid None.

(** With the default thread mixing, the arena is not a function of the
    call site: two threads that allocate the same class from the same call site
    at the same depth are routed to different arenas. *)
Lemma callsite_arena_per_thread :
  (callsiteArena demo_loader (demo_route (Some 0)) 0 5 0x7f0000001234 fresh_sites ∅).1.1 <>
  (callsiteArena demo_loader (demo_route (Some 1)) 0 5 0x7f0000001234 fresh_sites ∅).1.1.
Proof. vm_compute. discriminate. Qed.
