(* ===== verification/Heap.v ===== *)
(** * The heap front end (src/smash_heap.h, SmashHeap)

    [malloc], [free], [calloc], [realloc], [memalign] and the thread hooks over
    the thread caches, the slabs, the large allocator and, in the modes that
    ask for it, the system allocator.  A call runs without interruption; what
    it finds outside (oracles of the allocators, outcomes of [tryLock], the
    caller's address, the kernel's mappings) is its [Call].  The result [None]
    is a call that does not return: a refill that does not complete or a
    thread cache that could not be had.  Diagnostic output, cohort stamping
    (off by default) and the compressor's threads are left out. *)

From Stdlib Require Import Ascii String.
From stdpp Require Import functions.
From S2P Require Import Prelude BitOps Config SizeClasses PageState IntrusiveList Bootstrap VmArena VmTrack Span.
From S2P Require Import VmRegion PageMap Slab ThreadCache LargeCache LargeAlloc LargeCorrect HeapStore HeapSteps CallSite.

#[local] Abbreviation page_count := Span.page_count.
#[local] Abbreviation Span := Span.Span.

(** ** Memory *)

Definition Mem := Z -> Z.
Definition memset (m : Mem) (p n : Z) : Mem := fun a => if (p <=? a) && (a <? p + n) then 0 else m a.
Definition memcpy (m : Mem) (dst src n : Z) : Mem := fun a => if (dst <=? a) && (a <? dst + n) then m (src + (a - dst)) else m a.

(** ** Modes *)

(** What the environment variables select, and whether compression was set up. *)
Record Modes := mkModes {
  m_passthrough : bool; m_compress_only : bool; m_large_only : bool; m_large_threshold : Z; m_eager_zero : bool;
  m_diagnostics : bool; m_no_hooks : bool; m_no_compressor : bool; m_inited : bool
}.

#[local] Definition one : Ascii.ascii := "1"%char.

(* src/smash_heap.h:308-314 isPassthroughMode *)
Definition isPassthroughMode (env : option string) : bool := env_is one env.

(* src/smash_heap.h:285-291 freeDiagnosticsActiveInit *)
Definition freeDiagnostics (count trace : option string) : bool := env_is one count || env_is one trace.

(** [passthrough], [mode], [large_only], [threshold], [eager], [count], [trace],
    [hooks], [no_compressor] are the values of the variables. *)
Definition modes (passthrough mode large_only threshold eager count trace hooks no_compressor : option string) (inited : bool) : Modes :=
  mkModes (isPassthroughMode passthrough) (match getSmashMode mode with CompressOnly => true | Full => false end)
    (isLargeOnlyMode large_only) (largeOnlyThreshold threshold) (isEagerZeroMode eager) (freeDiagnostics count trace)
    (env_is one hooks) (env_is one no_compressor) inited.

(* src/smash_heap.h:321-331 fullMallocPath *)
Definition fullMallocPath (md : Modes) : bool :=
  negb (m_compress_only md) && negb (m_large_only md) && negb (m_eager_zero md) && negb (m_passthrough md).

(** [cold] is [kColdArenaFeedback]. *)
(* src/smash_heap.h:335-342 leanEntriesAllowed *)
Definition leanEntriesAllowed (md : Modes) (cold : bool) : bool := negb cold && (fullMallocPath md && negb (m_diagnostics md)).

(** ** The system allocator *)

(** Which of its functions have been found. *)
(* src/smash_heap.h:353-359 SystemAllocFns *)
Record SystemAllocFns := mkFns { s_malloc : bool; s_free : bool; s_calloc : bool; s_realloc : bool; s_memalign : bool; s_size : bool }.

(** The functions, over a state of their own and the memory; addresses are 0
    for null. *)
Record System (S : Type) := mkSystem {
  y_found : SystemAllocFns;
  y_malloc : Z -> Mem -> S -> Z * Mem * S;
  y_free : Z -> Mem -> S -> Mem * S;
  y_calloc : Z -> Z -> Mem -> S -> Z * Mem * S;
  y_realloc : Z -> Z -> Mem -> S -> Z * Mem * S;
  y_memalign : Z -> Z -> Mem -> S -> option Z * Mem * S;
  y_size : Z -> S -> Z
}.
Arguments y_found {S}. Arguments y_malloc {S}. Arguments y_free {S}. Arguments y_calloc {S}.
Arguments y_realloc {S}. Arguments y_memalign {S}. Arguments y_size {S}.

(** ** State *)

(** The thread's variables: its cache, whether the lean entries may use it, the
    compressor flag, the arena memo, the inputs of its arena routing. *)
(* src/smash_heap.h:114-126 ThreadState *)
Record Thread := mkThread { t_cache : option ThreadCache; t_fast : bool; t_compressor : bool; t_memo : gmap Z ArenaMemo; t_route : Route }.

(* src/smash_heap.h:506-507 SmashHeap *)
Record Heap (S : Type) := mkHeap {
  h_slabs : list Slab; h_large : LargeAlloc; h_world : World; h_sites : SiteState;
  h_threads : gmap Z Thread; h_pool : list ThreadCache; h_boot : BootstrapAlloc;
  h_mem : Mem; h_fns : SystemAllocFns; h_sys : S;
  h_started : bool; h_running : bool; h_warmup : Z
}.
Arguments mkHeap {S}. Arguments h_slabs {S}. Arguments h_large {S}. Arguments h_world {S}. Arguments h_sites {S}.
Arguments h_threads {S}. Arguments h_pool {S}. Arguments h_boot {S}. Arguments h_mem {S}. Arguments h_fns {S}.
Arguments h_sys {S}. Arguments h_started {S}. Arguments h_running {S}. Arguments h_warmup {S}.

(** What a call finds: the thread, the oracles of slabs and large allocator,
    outcomes of [tryLock] per slab, [g_any_page_compressed], the wrapper's
    return address and the fallback, the stack depth, the loaded images, the
    mappings and the memory a new thread cache gets. *)
Record Call := mkCall {
  e_tid : Z; e_slab : nat -> Oracle; e_large : Oracle; e_try : Z -> bool; e_any : bool;
  e_hint : Z; e_ret : Z; e_depth : Z; e_loader : Loader; e_map : Z -> option Z; e_garbage : list (list Z)
}.

(** ** Effects *)

Section Heap.
Context {Sys : Type}.
#[local] Abbreviation Heap := (Heap Sys).

Definition M (A : Type) : Type := Heap -> option (A * Heap).
Definition ret {A} (x : A) : M A := fun h => Some (x, h).
Definition bind {A B} (m : M A) (k : A -> M B) : M B := fun h => match m h with None => None | Some (x, h) => k x h end.
#[local] Notation "x <-- m ; k" := (bind m (fun x => k)) (at level 65, m at next level, k at level 65, right associativity).
#[local] Notation "m ;;; k" := (bind m (fun _ => k)) (at level 65, right associativity).
Definition ask {A} (f : Heap -> A) : M A := fun h => Some (f h, h).
Definition modify (f : Heap -> Heap) : M unit := fun h => Some (tt, f h).

Definition set_store (slabs : list Slab) (L : LargeAlloc) (w : World) (h : Heap) : Heap :=
  mkHeap slabs L w (h_sites h) (h_threads h) (h_pool h) (h_boot h) (h_mem h) (h_fns h) (h_sys h) (h_started h) (h_running h) (h_warmup h).
Definition set_sites (st : SiteState) (h : Heap) : Heap :=
  mkHeap (h_slabs h) (h_large h) (h_world h) st (h_threads h) (h_pool h) (h_boot h) (h_mem h) (h_fns h) (h_sys h) (h_started h) (h_running h) (h_warmup h).
Definition set_threads (ts : gmap Z Thread) (pool : list ThreadCache) (b : BootstrapAlloc) (h : Heap) : Heap :=
  mkHeap (h_slabs h) (h_large h) (h_world h) (h_sites h) ts pool b (h_mem h) (h_fns h) (h_sys h) (h_started h) (h_running h) (h_warmup h).
Definition set_system (m : Mem) (f : SystemAllocFns) (y : Sys) (h : Heap) : Heap :=
  mkHeap (h_slabs h) (h_large h) (h_world h) (h_sites h) (h_threads h) (h_pool h) (h_boot h) m f y (h_started h) (h_running h) (h_warmup h).
Definition set_compression (started running : bool) (warmup : Z) (h : Heap) : Heap :=
  mkHeap (h_slabs h) (h_large h) (h_world h) (h_sites h) (h_threads h) (h_pool h) (h_boot h) (h_mem h) (h_fns h) (h_sys h) started running warmup.

Definition no_thread : Thread := mkThread None false false ∅ (mkRoute 0 None None None None).
Definition thread (h : Heap) (t : Z) : Thread := default no_thread (h_threads h !! t).
Definition set_thread (t : Z) (th : Thread) (h : Heap) : Heap := set_threads (<[t := th]> (h_threads h)) (h_pool h) (h_boot h) h.
Definition set_mem (m : Mem) (h : Heap) : Heap := set_system m (h_fns h) (h_sys h) h.

Context `{PG : PageGeometry} (cfg : SlabCfg) (maxb total page_size : Z) (magazines defer_free : bool) (md : Modes) (sys : System Sys) (E : Call).

Definition self (h : Heap) : Thread := thread h (e_tid E).
Definition set_cache (tc : ThreadCache) (h : Heap) : Heap :=
  let th := self h in set_thread (e_tid E) (mkThread (Some tc) (t_fast th) (t_compressor th) (t_memo th) (t_route th)) h.

(** ** The system allocator's functions *)

(* src/smash_heap.h:389-437 SystemAllocFns::resolve *)
Definition resolve : M unit := modify (fun h => set_system (h_mem h) (y_found sys) (h_sys h) h).

(** [if (!fn) resolve(); if (fn) call; otherwise ...] *)
Definition lazily {A} (fn : SystemAllocFns -> bool) (call otherwise : M A) : M A :=
  found <-- ask (fun h => fn (h_fns h));
  (if found : bool then ret tt else resolve) ;;;
  found <-- ask (fun h => fn (h_fns h));
  if found : bool then call else otherwise.

Definition sys_malloc (size : Z) : M Z := fun h =>
  let '(p, m, y) := y_malloc sys size (h_mem h) (h_sys h) in Some (p, set_system m (h_fns h) y h).
Definition sys_free (p : Z) : M unit := fun h =>
  let '(m, y) := y_free sys p (h_mem h) (h_sys h) in Some (tt, set_system m (h_fns h) y h).
Definition sys_calloc (n size : Z) : M Z := fun h =>
  let '(p, m, y) := y_calloc sys n size (h_mem h) (h_sys h) in Some (p, set_system m (h_fns h) y h).
Definition sys_realloc (p size : Z) : M Z := fun h =>
  let '(q, m, y) := y_realloc sys p size (h_mem h) (h_sys h) in Some (q, set_system m (h_fns h) y h).
Definition sys_memalign (alignment size : Z) : M (option Z) := fun h =>
  let '(p, m, y) := y_memalign sys alignment size (h_mem h) (h_sys h) in Some (p, set_system m (h_fns h) y h).
Definition sys_size (p : Z) : M Z := ask (fun h => y_size sys p (h_sys h)).

(** ** Compression start-up *)

(* src/smash_heap.h:1079-1093 SmashHeap::startCompression *)
Definition startCompression : M unit := modify (fun h =>
  if h_started h then h
  else if m_no_compressor md then set_compression true (h_running h) (h_warmup h) h
  else set_compression true true (h_warmup h) h).

(* src/smash_heap.h:1175-1182 SmashHeap::trackAllocation *)
Definition track_page (w : World) (p : Z) : World :=
  match vm_region (pmap w) with
  | None => w
  | Some v =>
    let ar := arena v in
    let '(idx, next, t) := trackPage (total_pages_ v) (next_page_ ar) (tracker v) p in
    let ar := mkArena (base_ ar) (contig_pages_ ar) next (committed_pages_ ar) (shards ar) (decommit_queue ar) (decommit_running ar) (vm_log ar) in
    let w := w_pmap w (mkPageMap (level1 (pmap w)) (Some (with_tracker (with_arena v ar) t))) in
    if (0 <? idx) && state_eqb (pst_get (pe_states (penv w)) idx) EMPTY
    then w_penv w (env_states (penv w) (pst_set (pe_states (penv w)) idx ACTIVE)) else w
  end.

(* src/smash_heap.h:1170-1189 SmashHeap::trackAllocation *)
Definition trackAllocation (p size : Z) : M unit :=
  if (p =? 0) || (size =? 0) || negb (m_inited md) then ret tt
  else
    let start_page := Z.land p (u64 (Z.lnot (kPageSize - 1))) in
    let end_page := Z.land (u64 (p + size - 1)) (u64 (Z.lnot (kPageSize - 1))) in
    let pages := map (fun k => start_page + k * kPageSize) (seqZ 0 ((end_page - start_page) / kPageSize + 1)) in
    modify (fun h => set_store (h_slabs h) (h_large h) (foldl track_page (h_world h) pages) h) ;;;
    started <-- ask h_started;
    if started : bool then ret tt
    else
      n <-- ask h_warmup;
      modify (fun h => set_compression (h_started h) (h_running h) (n + 1) h) ;;;
      if 5000 <=? n then startCompression else ret tt.

(** ** Thread caches *)

(** [sizeof(ThreadCache)]: the pointers, the counts, the pool link. *)
(* src/core/thread_cache.h:63-79 ThreadCache *)
Definition kThreadCacheBytes : Z := kCacheLanes * kNumClasses * kPerLaneDepth * 8 + kCacheLanes * kNumClasses * 2 + 8.

(** The pool first, else memory of the bootstrap allocator. *)
(* src/core/thread_cache.h:200-209 newThreadCache *)
Definition new_cache : M ThreadCache := fun h =>
  match pool_acquire (h_pool h) with
  | (Some tc, pool) => Some (tc, set_threads (h_threads h) pool (h_boot h) h)
  | (None, pool) =>
    match boot_allocate page_size (h_boot h) (e_map E) kThreadCacheBytes 8 with
    | (Some _, b) => Some (tc_init (e_garbage E), set_threads (h_threads h) pool b h)
    | (None, _) => None
    end
  end.

(* src/smash_heap.h:1361-1368 SmashHeap::getOrCreateThreadCache *)
Definition getOrCreateThreadCache : M unit := fun h =>
  match t_cache (self h) with
  | Some _ => Some (tt, h)
  | None =>
    (tc <-- new_cache;
     modify (fun h =>
       let th := self h in
       let cold := match rt_cold (t_route th) with Some _ => true | None => false end in
       set_thread (e_tid E) (mkThread (Some tc) (t_fast th || leanEntriesAllowed md cold) (t_compressor th) (t_memo th) (t_route th)) h)) h
  end.

Definition cache_allocate (sc arena : Z) : M Z := fun h =>
  match t_cache (self h) with
  | None => None
  | Some tc => let '(p, tc) := tc_allocate tc sc arena in Some (default 0 p, set_cache tc h)
  end.

(** [tc->refill(sc, arena, &slab(arena, sc))] *)
(* src/smash_heap.h:679-679 SmashHeap::slab *)
Definition slab_index (arena sc : Z) : Z := arena * kNumClasses + sc.

Definition cache_refill (sc arena : Z) : M Z := fun h =>
  match t_cache (self h) with
  | None => None
  | Some tc =>
    let i := slab_index arena sc in
    match tc_refill cfg magazines (e_slab E) tc sc arena (slab_at (h_slabs h) i) (h_world h) with
    | None => None
    | Some (p, tc, s, w) => Some (default 0 p, set_cache tc (set_store (zset (h_slabs h) i s) (h_large h) w h))
    end
  end.

Definition cache_deallocate (sc arena p : Z) : M bool := fun h =>
  match t_cache (self h) with
  | None => None
  | Some tc => let '(ok, tc) := tc_deallocate tc sc arena p in Some (ok, set_cache tc h)
  end.

Definition cache_drain (sc arena : Z) : M unit := fun h =>
  match t_cache (self h) with
  | None => None
  | Some tc =>
    let '(tc, (slabs, w)) := tc_drain cfg magazines defer_free total (e_try E) tc sc arena (h_slabs h, h_world h) in
    Some (tt, set_cache tc (set_store slabs (h_large h) w h))
  end.

(** Push, and when the lane is full drain half of it and push again. *)
(* src/smash_heap.h:1522-1522 SmashHeap::free *)
Definition free_to_cache (sc arena p : Z) : M unit :=
  ok <-- cache_deallocate sc arena p;
  if ok : bool then ret tt else cache_drain sc arena ;;; cache_deallocate sc arena p ;;; ret tt.

(** ** Arena routing *)

(* src/smash_heap.h:452-460 appCallerRA *)
Definition appCallerRA : Z := if e_hint E =? 0 then e_ret E else e_hint E.

Definition route_small (sc ra : Z) : M Z := fun h =>
  let th := self h in
  let '(a, st, memo) := callsiteArena (e_loader E) (t_route th) (e_depth E) sc ra (h_sites h) (t_memo th) in
  Some (a, set_sites st (set_thread (e_tid E) (mkThread (t_cache th) (t_fast th) (t_compressor th) memo (t_route th)) h)).

Definition route_large (ra : Z) : M Z := fun h =>
  let '(a, st) := callsiteArenaForLarge (e_loader E) (t_route (self h)) ra (h_sites h) in Some (a, set_sites st h).

(** ** Allocation *)

Definition large_path (size alignment arena : Z) : M (Z * bool) := fun h =>
  let '(r, L, w) := large_allocate cfg (e_large E) (h_large h) (h_world h) size alignment arena in
  Some (default (0, false) r, set_store (h_slabs h) L w h).

Definition large_free (a : Z) : M unit := modify (fun h =>
  let '(L, w) := large_deallocate cfg maxb (e_large E) (e_any E) (h_large h) (h_world h) a in set_store (h_slabs h) L w h).

Definition zero (p n : Z) : M unit := modify (fun h => set_mem (memset (h_mem h) p n) h).

(** The thread's cache, then the slab of the call site's arena. *)
(* src/smash_heap.h:1480-1483 SmashHeap::malloc *)
Definition small_path (sc ra : Z) : M Z :=
  arena <-- route_small sc ra;
  p <-- cache_allocate sc arena;
  if p =? 0 then cache_refill sc arena else ret p.

(** The part of [mallocSlow] that allocates from the heap itself. *)
(* src/smash_heap.h:1436-1464 SmashHeap::mallocSlow *)
Definition malloc_own (size caller_ra : Z) : M Z :=
  let sc := sizeToClass size in
  let ra := if caller_ra =? 0 then appCallerRA else caller_ra in
  if sc <? kNumClasses then
    getOrCreateThreadCache ;;;
    p <-- small_path sc ra;
    (if negb (p =? 0) && m_eager_zero md then zero p (classSize sc) else ret tt) ;;; ret p
  else
    arena <-- route_large ra;
    r <-- large_path size kMinAlignment arena;
    (if negb (r.1 =? 0) && m_eager_zero md then zero r.1 size else ret tt) ;;; ret r.1.

(* src/smash_heap.h:1393-1465 SmashHeap::mallocSlow *)
Definition mallocSlow (size caller_ra : Z) : M Z :=
  if m_passthrough md then lazily s_malloc (sys_malloc size) (ret 0)
  else
    compressor <-- ask (fun h => t_compressor (self h));
    if compressor : bool then lazily s_malloc (sys_malloc size) (ret 0)
    else if m_compress_only md then
      found <-- ask (fun h => s_malloc (h_fns h));
      if found : bool then p <-- sys_malloc size; trackAllocation p size ;;; ret p else ret 0
    else
      let size := if size =? 0 then 1 else size in
      if m_large_only md && (size <=? m_large_threshold md) then lazily s_malloc (sys_malloc size) (malloc_own size caller_ra)
      else malloc_own size caller_ra.

(* src/smash_heap.h:1473-1487 SmashHeap::malloc *)
Definition malloc (size : Z) : M Z :=
  let caller_ra := appCallerRA in
  if fullMallocPath md && (0 <? size) && (size <=? kMaxSmallSize) then
    cached <-- ask (fun h => match t_cache (self h) with Some _ => true | None => false end);
    if cached : bool
    then p <-- small_path (sizeToClass size) caller_ra; if p =? 0 then mallocSlow size caller_ra else ret p
    else mallocSlow size caller_ra
  else mallocSlow size caller_ra.

(** ** Release *)

Definition lookup_span (p : Z) : M Z := ask (fun h => resolveSpan (pmap (h_world h)) p).
Definition descriptor (a : Z) : M Span := ask (fun h => span_at (h_world h) a).

(** A pointer whose span is known. *)
(* src/smash_heap.h:1630-1634 SmashHeap::freeSlow *)
Definition free_owned (p a : Z) : M unit :=
  sp <-- descriptor a;
  if Span.is_large sp then large_free a
  else getOrCreateThreadCache ;;; free_to_cache (Span.size_class sp) (Span.arena_id sp) p.

(* src/smash_heap.h:1527-1635 SmashHeap::freeSlow *)
Definition freeSlow (p : Z) : M unit :=
  if p =? 0 then ret tt
  else
    owned <-- ask (fun h => boot_owns (h_boot h) p);
    if owned : bool then ret tt
    else if m_passthrough md then
      a <-- lookup_span p;
      if negb (a =? 0) then free_owned p a else lazily s_free (sys_free p) (ret tt)
    else if m_compress_only md then
      found <-- ask (fun h => s_free (h_fns h));
      if found : bool then sys_free p else ret tt
    else
      a <-- lookup_span p;
      if a =? 0 then lazily s_free (sys_free p) (ret tt) else free_owned p a.

(* src/smash_heap.h:1495-1523 SmashHeap::free *)
Definition free (p : Z) : M unit :=
  if p =? 0 then ret tt
  else if negb (fullMallocPath md) || m_diagnostics md then freeSlow p
  else
    owned <-- ask (fun h => boot_owns (h_boot h) p);
    if owned : bool then ret tt
    else
      a <-- lookup_span p;
      if a =? 0 then freeSlow p
      else
        sp <-- descriptor a;
        if Span.is_large sp then large_free a
        else
          cached <-- ask (fun h => match t_cache (self h) with Some _ => true | None => false end);
          if cached : bool then free_to_cache (Span.size_class sp) (Span.arena_id sp) p else freeSlow p.

(** ** Aligned, zeroed and moved blocks *)

Definition aligned_or (alignment size : Z) (otherwise : M Z) : M Z :=
  lazily s_memalign (r <-- sys_memalign alignment size; match r with Some p => ret p | None => otherwise end) otherwise.

(* src/smash_heap.h:1637-1675 SmashHeap::memalign *)
Definition memalign (alignment size : Z) : M Z :=
  if m_passthrough md then aligned_or alignment size (ret 0)
  else if m_compress_only md then
    found <-- ask (fun h => s_memalign (h_fns h));
    if found : bool
    then r <-- sys_memalign alignment size;
         match r with Some p => trackAllocation p size ;;; ret p | None => ret 0 end
    else ret 0
  else
    let size := if size =? 0 then 1 else size in
    let own :=
      if alignment <=? kMinAlignment then malloc size
      else
        arena <-- route_large appCallerRA;
        r <-- large_path size alignment arena; ret r.1 in
    if m_large_only md && (size <=? m_large_threshold md) then aligned_or alignment size own else own.

(* src/smash_heap.h:1677-1711 SmashHeap::calloc *)
Definition calloc (count size : Z) : M Z :=
  if m_passthrough md then lazily s_calloc (sys_calloc count size) (ret 0)
  else if m_compress_only md then
    found <-- ask (fun h => s_calloc (h_fns h));
    if found : bool then p <-- sys_calloc count size; trackAllocation p (u64 (count * size)) ;;; ret p else ret 0
  else if 2 ^ 64 <=? count * size then ret 0
  else
    let total := count * size in
    found <-- ask (fun h => s_calloc (h_fns h));
    if m_large_only md && (total <=? m_large_threshold md) && found then sys_calloc count size
    else if (kMaxSmallSize <? total) && fullMallocPath md && negb (m_eager_zero md) then
      arena <-- route_large appCallerRA;
      r <-- large_path total kMinAlignment arena;
      (if negb (r.1 =? 0) && negb r.2 then zero r.1 total else ret tt) ;;; ret r.1
    else
      p <-- malloc total;
      (if negb (p =? 0) then zero p total else ret tt) ;;; ret p.

(** What a block can hold by its descriptor. *)
(* src/smash_heap.h:1763-1764 SmashHeap::realloc *)
Definition old_size_of (sp : Span) : Z := if Span.is_large sp then Span.large_size sp else classSize (Span.size_class sp).

Definition copy (dst src n : Z) : M unit := modify (fun h => set_mem (memcpy (h_mem h) dst src n) h).

(** [sp->large_size = size] *)
Definition set_large_size (sp : Span) (n : Z) : Span :=
  mkSpan (base sp) (bitmap sp) (page_count sp) (object_size sp) (div_magic sp) (full_capacity sp)
    (object_count sp) (allocated_count sp) (size_class sp) (is_large sp) (arena_id sp) (free_hint_word sp)
    (current_cap_per_page sp) (resident_empty sp) (empty_tick sp) n (has_page_states sp) (first_page_vm_idx sp) (has_cold_counts sp).

(* src/smash_heap.h:1717-1738 SmashHeap::realloc *)
Definition realloc_out (old size a : Z) : M Z :=
  if size =? 0 then free old ;;; ret 0
  else lazily s_malloc
    (p <-- sys_malloc size;
     (if p =? 0 then ret tt
      else sp <-- descriptor a; copy p old (Z.min (old_size_of sp) size) ;;; free old) ;;; ret p) (ret 0).

(* src/smash_heap.h:1763-1783 SmashHeap::realloc *)
Definition realloc_own (old size a : Z) : M Z :=
  sp <-- descriptor a;
  let old_size := old_size_of sp in
  let cap := page_count sp * kPageSize in
  if Span.is_large sp && ((size <=? cap) && (kMaxSmallSize <? size) && (cap / 2 <=? size)) then
    modify (fun h => set_store (h_slabs h) (h_large h) (put_span (h_world h) a (set_large_size sp size)) h) ;;; ret old
  else if negb (Span.is_large sp) && ((size <=? old_size) && (old_size / 2 <=? size)) then ret old
  else
    p <-- malloc size;
    (if p =? 0 then ret tt else copy p old (if old_size <? size then old_size else size) ;;; free old) ;;; ret p.

(* src/smash_heap.h:1713-1784 SmashHeap::realloc *)
Definition realloc (old size : Z) : M Z :=
  if m_passthrough md then
    a <-- (if old =? 0 then ret 0 else lookup_span old);
    if a =? 0 then lazily s_realloc (sys_realloc old size) (ret 0) else realloc_out old size a
  else if m_compress_only md then
    found <-- ask (fun h => s_realloc (h_fns h));
    if found : bool then p <-- sys_realloc old size; trackAllocation p size ;;; ret p else ret 0
  else if old =? 0 then malloc size
  else if size =? 0 then free old ;;; ret 0
  else
    a <-- lookup_span old;
    if a =? 0 then lazily s_realloc (sys_realloc old size) (ret 0) else realloc_own old size a.

(** ** Queries *)

(* src/smash_heap.h:1786-1825 SmashHeap::getSize *)
Definition getSize (p : Z) : M Z :=
  if p =? 0 then ret 0
  else
    owned <-- ask (fun h => boot_owns (h_boot h) p);
    if owned : bool then ret 0
    else if m_passthrough md then lazily s_size (sys_size p) (ret 0)
    else if m_compress_only md then ret 0
    else
      a <-- lookup_span p;
      if a =? 0 then lazily s_size (sys_size p) (ret 0)
      else sp <-- descriptor a; ret (old_size_of sp).

(* src/smash_heap.h:1838-1853 SmashHeap::arenaFor *)
Definition arenaFor (p : Z) : M Z :=
  if p =? 0 then ret (-1)
  else
    owned <-- ask (fun h => boot_owns (h_boot h) p);
    if owned || m_compress_only md || m_passthrough md then ret (-1)
    else
      a <-- lookup_span p;
      if a =? 0 then ret (-1) else sp <-- descriptor a; ret (Span.arena_id sp).

(* src/smash_heap.cpp:1436-1460 xxowns *)
Definition xxowns (p : Z) : M bool := ask (fun h =>
  if p =? 0 then false
  else if boot_owns (h_boot h) p then true
  else match vm_region (pmap (h_world h)) with
       | None => false
       | Some v =>
         if tracking_mode v then vm_contains v p
         else if inContigArena (arena v) p then true
         else negb (pm_get (pmap (h_world h)) p =? 0)
       end).

(** ** Thread hooks and the compressor's tick *)

(* src/smash_heap.h:1920-1939 SmashHeap::threadInit *)
Definition threadInit : M unit :=
  if m_no_hooks md then ret tt
  else
    (if m_compress_only md then ret tt else getOrCreateThreadCache) ;;;
    started <-- ask h_started;
    if m_inited md && negb started then startCompression else ret tt.

(* src/smash_heap.h:1940-1946 SmashHeap::threadCleanup *)
Definition threadCleanup : M unit := modify (fun h =>
  if m_no_hooks md || m_compress_only md then h
  else
    let th := self h in
    match t_cache th with
    | None => set_thread (e_tid E) (mkThread None false (t_compressor th) (t_memo th) (t_route th)) h
    | Some tc =>
      let '(tc, (slabs, w)) := tc_drainAll cfg magazines defer_free total (e_try E) tc (h_slabs h, h_world h) in
      set_threads (<[e_tid E := mkThread None false (t_compressor th) (t_memo th) (t_route th)]> (h_threads h))
        (returnThreadCache tc (h_pool h)) (h_boot h) (set_store slabs (h_large h) w h)
    end).

(* src/smash_heap.h:1257-1264 SmashHeap::SmashHeap *)
Definition preTick : M unit := modify (fun h =>
  let '(L, w) := large_onTick (e_large E) (h_large h) (h_world h) in
  let '(slabs, w) := purge_all total (h_slabs h) (advanceTick w) in
  set_store slabs L w h).

(** ** Construction *)

(** [cold] is [kColdArenaFeedback], [max_slots] is [kMaxSlotsPerPage]. *)
(* src/smash_heap.h:1271-1283 SmashHeap::SmashHeap *)
Definition arena_cap (cold : bool) (num_arenas max_slots a : Z) : Z :=
  if cold then (if num_arenas <=? a then max_slots else 0) else max_slots.

(** The two loops, over [a * kNumClasses + i]. *)
(* src/smash_heap.h:1268-1297 SmashHeap::SmashHeap *)
Definition init_slabs (cold : bool) (num_arenas max_slots : Z) : list Slab :=
  map (fun k => slab_init (u8 (k mod kNumClasses)) (u8 (k / kNumClasses)) (arena_cap cold num_arenas max_slots (k / kNumClasses)))
    (seqZ 0 (total * kNumClasses)).

(** [region] is the outcome of [VmRegion::init], [env] the page tables; without
    a region the slabs and the large allocator map memory themselves.  The
    set-up of stores, engine and compressor is theirs. *)
(* src/smash_heap.h:1192-1359 SmashHeap::SmashHeap *)
Definition heap_init (region : option VmRegion) (env : PageEnv) (cold : bool) (num_arenas max_slots : Z)
    (boot : BootstrapAlloc) (mem : Mem) (sys0 : Sys) : Heap :=
  mkHeap (if m_compress_only md then [] else init_slabs cold num_arenas max_slots) (mkLarge cache_init 0)
    (mkWorld ∅ (mkPageMap ∅ region) env 0 0 []) (mkSites None ∅) ∅ [] boot mem
    (mkFns false false false false false false) sys0 false false 0.

(** ** Lean entries (src/smash_heap.cpp, SmashFastRedirect)

    [full_...] is what alloc8's redirection calls. *)
Section Lean.
Context (full_malloc : Z -> M Z) (full_free : Z -> M unit) (full_calloc : Z -> Z -> M Z) (full_realloc : Z -> Z -> M Z).

(** This thread's cache, if published. *)
Definition fast_cache (h : Heap) : option ThreadCache := if t_fast (self h) then t_cache (self h) else None.

(** [sz - 1 < kMaxSmallSize] *)
Definition lean_size (sz : Z) : bool := u64 (sz - 1) <? kMaxSmallSize.

(* src/smash_heap.cpp:1347-1365 SmashFastRedirect::malloc *)
Definition lean_malloc (sz : Z) : M Z := fun h =>
  match fast_cache h with
  | Some tc =>
    if lean_size sz then
      let ra := e_hint E in
      let sc := sizeToClass sz in
      let key := memo_key sc ra in
      let m := rd no_memo (t_memo (self h)) (memo_slot key) in
      if negb (ra =? 0) && m_valid m && (m_key m =? key) then
        let '(p, tc) := tc_allocate tc sc (m_base m) in
        if default 0 p =? 0 then full_malloc sz h else Some (default 0 p, set_cache tc h)
      else full_malloc sz h
    else full_malloc sz h
  | None => full_malloc sz h
  end.

(** The tag of [p]'s page, if [p] is in the flat table's range. *)
Definition page_tag_of (h : Heap) (p : Z) : option Z :=
  match vm_region (pmap (h_world h)) with
  | Some v =>
    let off := u64 (p - base_ (arena v)) in
    match flat v with
    | Some (mkFlat _ (Some tags)) => if off <? contig_pages_ (arena v) * kPageSize then Some (rd 0 tags (Z.shiftr off kPageShift)) else None
    | _ => None
    end
  | None => None
  end.

(* src/smash_heap.cpp:1406-1421 SmashFastRedirect::free *)
Definition lean_free (p : Z) : M unit := fun h =>
  match fast_cache h, page_tag_of h p with
  | Some tc, Some tag =>
    if negb (Z.land tag kPageTagSmall =? 0) then
      let '(ok, tc) := tc_deallocate tc (Z.land tag 63) (u8 (Z.shiftr tag 6)) p in
      if ok : bool then Some (tt, set_cache tc h) else full_free p h
    else full_free p h
  | _, _ => full_free p h
  end.

(* src/smash_heap.cpp:1371-1381 SmashFastRedirect::calloc *)
Definition lean_calloc (n sz : Z) : M Z := fun h =>
  match fast_cache h with
  | Some _ =>
    if (n * sz <? 2 ^ 64) && lean_size (n * sz) then
      (p <-- lean_malloc (n * sz);
       (if p =? 0 then ret tt else zero p (n * sz)) ;;; ret p) h
    else full_calloc n sz h
  | None => full_calloc n sz h
  end.

(* src/smash_heap.cpp:1386-1404 SmashFastRedirect::realloc *)
Definition lean_realloc (p sz : Z) : M Z := fun h =>
  match fast_cache h, page_tag_of h p with
  | Some _, Some tag =>
    if lean_size sz && negb (Z.land tag kPageTagSmall =? 0) then
      let cap := classSize (u8 (Z.land tag 63)) in
      if (sz <=? cap) && (cap / 2 <=? sz) then Some (p, h)
      else
        (q <-- lean_malloc sz;
         (if q =? 0 then ret tt else copy q p (if cap <? sz then cap else sz) ;;; lean_free p) ;;; ret q) h
    else full_realloc p sz h
  | _, _ => full_realloc p sz h
  end.
End Lean.
End Heap.
