(* ===== verification/HeapInv.v ===== *)
(** * The heap's invariant (for [Heap.v])

    The blocks programs hold and the pointers in the thread caches are together
    the objects outside their spans; each cached pointer lies in a lane of its
    class; memos and routes name arenas that exist; the lean entries are
    published only where they may run. *)

From stdpp Require Import functions.
From S2P Require Import Prelude BitOps Config SizeClasses PageState IntrusiveList Bootstrap VmArena VmTrack Span SpanFacts.
From S2P Require Import VmRegion PageMap Slab SlabFacts SlabOps SlabCorrect ThreadCache ThreadCacheCorrect Drain.
From S2P Require Import LargeCache LargeAlloc LargeCorrect LargeOps SlabFrame HeapStore HeapSteps CallSite Heap.

#[local] Abbreviation page_count := Span.page_count.
#[local] Abbreviation Span := Span.Span.

(** ** Blocks *)

Inductive Block := SmallBlock (o : Obj) | LargeBlock (a : Z).

Section Blocks.
Context `{PG : PageGeometry}.

Definition start (w : World) (b : Block) : Z := match b with SmallBlock o => o.1 | LargeBlock a => blk_base w a end.
(** The bytes the block can hold. *)
Definition room_of (w : World) (b : Block) : Z := match b with SmallBlock o => obj_size w o | LargeBlock a => blk_len w a end.

Definition smalls (live : list Block) : list Obj := omap (fun b => match b with SmallBlock o => Some o | LargeBlock _ => None end) live.
Definition larges (live : list Block) : list Z := omap (fun b => match b with SmallBlock _ => None | LargeBlock a => Some a end) live.

Lemma elem_smalls live o : o ∈ smalls live <-> SmallBlock o ∈ live.
Proof.
  unfold smalls. rewrite list_elem_of_omap. split; [intros ([q|a] & Hb & E); [injection E as ->; done|done]|].
  intros H. by exists (SmallBlock o).
Qed.
Lemma elem_larges live a : a ∈ larges live <-> LargeBlock a ∈ live.
Proof.
  unfold larges. rewrite list_elem_of_omap. split; [intros ([q|c] & Hb & E); [done|injection E as ->; done]|].
  intros H. by exists (LargeBlock a).
Qed.

(** The bytes its descriptor grants. *)
Definition held (w : World) (b : Block) : Z := match b with SmallBlock o => obj_size w o | LargeBlock a => large_size (span_at w a) end.
Definition class_at (w : World) (b : Block) : Z := match b with SmallBlock o => size_class (span_at w o.2) | LargeBlock _ => kNumClasses end.

(** Blocks keep their place, sizes and class. *)
Definition same_blocks (w w' : World) (live : list Block) : Prop :=
  forall b, b ∈ live -> start w' b = start w b /\ room_of w' b = room_of w b /\ class_at w' b = class_at w b /\ held w' b = held w b.

Lemma same_blocks_refl w live : same_blocks w w live.
Proof. done. Qed.

Lemma same_blocks_trans w1 w2 w3 live : same_blocks w1 w2 live -> same_blocks w2 w3 live -> same_blocks w1 w3 live.
Proof. intros H1 H2 b Hb. destruct (H1 b Hb) as (E1 & E2 & E3 & E4), (H2 b Hb) as (E5 & E6 & E7 & E8). splits; congruence. Qed.
End Blocks.

(** ** Pointers in caches *)

Definition cache_ptrs (tc : ThreadCache) : list Z := concat (map (lane_stack tc) (seqZ 0 num_lanes)).
Definition thread_ptrs (th : Thread) : list Z := match t_cache th with Some tc => cache_ptrs tc | None => [] end.
Definition all_ptrs (ts : gmap Z Thread) : list Z := concat (map (fun p => thread_ptrs p.2) (map_to_list ts)).

Lemma all_ptrs_insert ts t th : all_ptrs (<[t := th]> ts) ≡ₚ thread_ptrs th ++ all_ptrs (delete t ts).
Proof.
  unfold all_ptrs. rewrite <- insert_delete_eq. rewrite map_to_list_insert by apply lookup_delete_eq. done.
Qed.

Lemma all_ptrs_delete ts t : all_ptrs ts ≡ₚ thread_ptrs (default no_thread (ts !! t)) ++ all_ptrs (delete t ts).
Proof.
  destruct (ts !! t) as [th|] eqn:E; cbn.
  - rewrite <- (insert_id ts t th E) at 1. apply all_ptrs_insert.
  - by rewrite delete_id.
Qed.

(** One lane of a cache against the rest. *)
Lemma cache_lane tc i : 0 <= i < num_lanes ->
  exists R, cache_ptrs tc ≡ₚ lane_stack tc i ++ R /\
    (forall tc', (forall j, j <> i -> lane_stack tc' j = lane_stack tc j) -> cache_ptrs tc' ≡ₚ lane_stack tc' i ++ R) /\
    forall j p, 0 <= j < num_lanes -> j <> i -> p ∈ lane_stack tc j -> p ∈ R.
Proof.
  intros Hi. assert (Hin : i ∈ seqZ 0 num_lanes) by (apply elem_of_seqZ; lia). pose proof (NoDup_seqZ 0 num_lanes) as Hn.
  apply elem_of_Permutation in Hin as [k Ek]. rewrite Ek in Hn. apply NoDup_cons in Hn as [Hik _].
  exists (concat (map (lane_stack tc) k)). unfold cache_ptrs. splits; [by rewrite Ek| |].
  - intros tc' Hj. rewrite Ek. cbn [map concat]. f_equiv. apply reflexive_eq. f_equal. apply map_ext_in. intros j Hjk%list_elem_of_In. apply Hj. by intros ->.
  - intros j p Hj Hne Hp. assert (Hjk : j ∈ seqZ 0 num_lanes) by (apply elem_of_seqZ; lia). rewrite Ek in Hjk. apply elem_of_cons in Hjk as [|Hjk]; [done|].
    apply list_elem_of_In, in_concat. exists (lane_stack tc j). split; [by apply in_map, list_elem_of_In|by apply list_elem_of_In].
Qed.

Lemma perm_map_app {A B} (f : A -> B) (l : list A) k1 k2 : map f l ≡ₚ k1 ++ k2 ->
  exists l1 l2, l ≡ₚ l1 ++ l2 /\ map f l1 = k1 /\ map f l2 = k2.
Proof.
  intros H. symmetry in H. apply Permutation_map_inv in H as (l' & E & Hp). symmetry in E. apply map_eq_app in E as (l1 & l2 & -> & E1 & E2). by exists l1, l2.
Qed.

(** ** The invariant *)

Section Inv.
Context `{PG : PageGeometry} {Sys : Type} (cfg : SlabCfg) (maxb total : Z) (md : Modes).
#[local] Abbreviation Heap := (Heap Sys).
#[local] Abbreviation store_ok := (store_ok cfg maxb total).

Definition class_of (w : World) (p : Z) : Z := size_class (span_at w (resolveSpan (pmap w) p)).
Definition cold_of (rt : Route) : bool := match rt_cold rt with Some _ => true | None => false end.

Record thread_ok (w : World) (th : Thread) : Prop := {
  to_route : 0 <= rt_mask (t_route th) < 128 /\ (rt_mask (t_route th) + 1) * (match rt_cold (t_route th) with Some _ => 2 | None => 1 end) <= total;
  to_memo : memo_ok (rt_mask (t_route th) + 1) (t_memo th);
  to_fast : t_fast th = true -> leanEntriesAllowed md (cold_of (t_route th)) = true /\ t_cache th <> None;
  to_cache : forall tc, t_cache th = Some tc -> tc_ok tc;
  to_lanes : forall tc i p, t_cache th = Some tc -> 0 <= i < num_lanes -> p ∈ lane_stack tc i -> class_of w p = i mod kNumClasses
}.

Record heap_inv (h : Heap) (live : list Block) : Prop := {
  hi_total : 0 < total;
  hi_store : exists stash, store_ok (h_slabs h) (h_large h) (h_world h) (smalls live ++ stash) (larges live) /\
    map fst stash ≡ₚ all_ptrs (h_threads h);
  hi_threads : forall t th, h_threads h !! t = Some th -> thread_ok (h_world h) th;
  hi_pool : Forall (fun tc => tc_ok tc /\ cache_ptrs tc = []) (h_pool h)
}.

(** The order of the blocks does not matter. *)
#[export] Instance heap_inv_perm : Proper (eq ==> Permutation ==> iff) heap_inv.
Proof.
  assert (forall h l l', l ≡ₚ l' -> heap_inv h l -> heap_inv h l') as H.
  { intros h l l' Hp [H1 (stash & St & Hm) H3 H4]. constructor; try done. exists stash. split; [|done].
    eapply store_C_perm; [|eapply store_cl_perm; [|exact St]]; unfold smalls, larges; by rewrite Hp. }
  intros h ? <- l l' Hp. split; by apply H.
Qed.

Lemma no_thread_ok w : 0 < total -> thread_ok w no_thread.
Proof.
  intros Ht. constructor; cbn; [lia| |done..]. intros slot. unfold rd. rewrite lookup_empty. cbn. lia.
Qed.

Lemma thread_is_ok h live t : heap_inv h live -> thread_ok (h_world h) (thread h t).
Proof.
  intros I. unfold thread. destruct (h_threads h !! t) as [th|] eqn:E; cbn; [by eapply (hi_threads _ _ I)|apply no_thread_ok, I].
Qed.

(** Objects present before and after a step keep class and size. *)
Lemma object_keeps slabs L w cl C slabs' L' w' cl' C' o :
  store_ok slabs L w cl C -> store_ok slabs' L' w' cl' C' -> stays slabs slabs' -> o ∈ cl -> o ∈ cl' ->
  class_of w' o.1 = class_of w o.1 /\ class_of w o.1 = size_class (span_at w o.2) /\ obj_size w' o = obj_size w o /\
  size_class (span_at w' o.2) = size_class (span_at w o.2).
Proof.
  intros St St' Hs Ho Ho'. destruct (store_object _ _ _ _ _ _ _ _ o St Ho) as [i K].
  pose proof (obj_at_stays _ _ _ _ _ _ _ _ _ _ _ _ _ o i St St' Hs Ho Ho' K) as K'. unfold class_of.
  rewrite (oa_span _ _ _ _ _ K), (oa_span _ _ _ _ _ K'), (oa_class _ _ _ _ _ K), (oa_class _ _ _ _ _ K'), (oa_size _ _ _ _ _ K), (oa_size _ _ _ _ _ K'). done.
Qed.

Lemma lane_in_cache tc i p : 0 <= i < num_lanes -> p ∈ lane_stack tc i -> p ∈ cache_ptrs tc.
Proof.
  intros Hi Hp. destruct (cache_lane tc i Hi) as (R & -> & _). apply elem_of_app. by left.
Qed.

Lemma thread_keeps slabs L w cl C slabs' L' w' cl' C' th :
  store_ok slabs L w cl C -> store_ok slabs' L' w' cl' C' -> stays slabs slabs' ->
  (forall p, p ∈ thread_ptrs th -> exists o, o.1 = p /\ o ∈ cl /\ o ∈ cl') -> thread_ok w th -> thread_ok w' th.
Proof.
  intros St St' Hs Hp [R M F K Ln]. constructor; try done. intros tc i p Ht Hi Hin. rewrite <- (Ln tc i p Ht Hi Hin).
  destruct (Hp p) as (o & <- & Ho & Ho'); [unfold thread_ptrs; rewrite Ht; by eapply lane_in_cache|].
  eapply object_keeps; [exact St|exact St'|done|done|done].
Qed.

Lemma ptrs_in_stash {A} (stash : list (Z * A)) l p : map fst stash ≡ₚ l -> p ∈ l -> exists o, o.1 = p /\ o ∈ stash.
Proof. intros Hm Hp. rewrite <- Hm in Hp. apply list_elem_of_fmap in Hp as (o & -> & Ho). by exists o. Qed.

Lemma thread_ptrs_in (ts : gmap Z Thread) t th p : ts !! t = Some th -> p ∈ thread_ptrs th -> p ∈ all_ptrs ts.
Proof. intros E Hp. rewrite (all_ptrs_delete ts t), E. cbn. apply elem_of_app. by left. Qed.

(** A step of the allocators that leaves the caches alone. *)
Lemma heap_store h live : heap_inv h live ->
  exists stash, store_ok (h_slabs h) (h_large h) (h_world h) (smalls live ++ stash) (larges live) /\
    forall slabs' L' w' live', store_ok slabs' L' w' (smalls live' ++ stash) (larges live') -> stays (h_slabs h) slabs' ->
      heap_inv (set_store slabs' L' w' h) live'.
Proof.
  intros I. destruct (hi_store _ _ I) as (stash & St & Hm). exists stash. split; [done|]. intros slabs' L' w' live' St' Hs.
  constructor; [apply I|by exists stash| |apply I]. intros t th Ht. apply (thread_keeps _ _ _ _ _ _ _ _ _ _ th St St' Hs); [|by eapply (hi_threads _ _ I)].
  intros p Hp. destruct (ptrs_in_stash _ _ p Hm (thread_ptrs_in _ _ _ _ Ht Hp)) as (o & E & Ho). exists o. set_solver.
Qed.

(** A step on one lane of a thread's cache. *)
Lemma heap_lane h live t tc i : heap_inv h live -> t_cache (thread h t) = Some tc -> 0 <= i < num_lanes ->
  exists A rest, store_ok (h_slabs h) (h_large h) (h_world h) (smalls live ++ A ++ rest) (larges live) /\ map fst A = lane_stack tc i /\
    tc_ok tc /\ (forall o, o ∈ A -> size_class (span_at (h_world h) o.2) = i mod kNumClasses) /\
    forall tc' slabs' L' w' live' A', tc_ok tc' -> (forall j, j <> i -> lane_stack tc' j = lane_stack tc j) ->
      store_ok slabs' L' w' (smalls live' ++ A' ++ rest) (larges live') -> stays (h_slabs h) slabs' ->
      map fst A' = lane_stack tc' i -> (forall o, o ∈ A' -> size_class (span_at w' o.2) = i mod kNumClasses) ->
      let th := thread h t in
      heap_inv (set_thread t (mkThread (Some tc') (t_fast th) (t_compressor th) (t_memo th) (t_route th)) (set_store slabs' L' w' h)) live'.
Proof.
  intros I Ht Hi. destruct (hi_store _ _ I) as (stash & St & Hm). pose proof (thread_is_ok h live t I) as TK.
  destruct (cache_lane tc i Hi) as (R & ER & HR & HR2). rewrite (all_ptrs_delete _ t) in Hm. fold (thread h t) in Hm.
  unfold thread_ptrs at 1 in Hm. rewrite Ht, ER, <- app_assoc in Hm. destruct (perm_map_app _ _ _ _ Hm) as (A & rest & Hst & HA & Hrest).
  assert (St1 : store_ok (h_slabs h) (h_large h) (h_world h) (smalls live ++ A ++ rest) (larges live)) by (eapply store_cl_perm; [|exact St]; by rewrite Hst).
  exists A, rest. splits; [done|done|by apply (to_cache _ _ TK)| |].
  - intros o Ho. destruct (object_keeps _ _ _ _ _ _ _ _ _ _ o St1 St1 ltac:(done) ltac:(set_solver) ltac:(set_solver)) as (_ & E & _). rewrite <- E.
    apply (to_lanes _ _ TK tc); [done|done|]. rewrite <- HA. apply list_elem_of_fmap. by exists o.
  - intros tc' slabs' L' w' live' A' K' Hj St' Hs HA' Hc. cbv zeta. set (th' := mkThread _ _ _ _ _).
    assert (Hin : forall p, p ∈ R ++ all_ptrs (delete t (h_threads h)) -> exists o, o.1 = p /\ o ∈ smalls live ++ A ++ rest /\ o ∈ smalls live' ++ A' ++ rest).
    { intros p Hp. destruct (ptrs_in_stash rest _ p ltac:(by rewrite Hrest) Hp) as (o & E & Ho). exists o. set_solver. }
    constructor; [apply I| | |apply I].
    + exists (A' ++ rest). split; [done|]. cbn [h_threads set_thread set_threads set_store]. rewrite all_ptrs_insert. unfold thread_ptrs at 1. cbn [t_cache th'].
      rewrite (HR tc' Hj), map_app, HA', Hrest. by rewrite app_assoc.
    + intros t' x. cbn [h_threads set_thread set_threads set_store h_world]. rewrite lookup_insert. case_decide as Htt.
      * intros [= <-]. pose proof TK as [T1 T2 T3 T4 T5]. constructor; [exact T1|exact T2|intros Hf; split; [by apply T3|done]|by intros x [= <-]|].
        intros x j p [= <-] Hj0 Hp. destruct (decide (j = i)) as [->|Hne].
        -- rewrite <- HA' in Hp. apply list_elem_of_fmap in Hp as (o & -> & Ho). rewrite <- (Hc o Ho).
           eapply object_keeps; [exact St'|exact St'|done|set_solver|set_solver].
        -- rewrite (Hj j Hne) in Hp. rewrite <- (T5 tc j p Ht Hj0 Hp). destruct (Hin p) as (o & <- & Ho & Ho').
           { apply elem_of_app. left. by eapply HR2. }
           eapply object_keeps; [exact St1|exact St'|done|done|done].
      * intros Hx. apply (thread_keeps _ _ _ _ _ _ _ _ _ _ x St1 St' Hs); [|by eapply (hi_threads _ _ I)].
        intros p Hp. apply Hin, elem_of_app. right. eapply (thread_ptrs_in _ t'); [|exact Hp]. by rewrite lookup_delete_ne.
Qed.
End Inv.
