(* ===== verification/HeapCorrect.v ===== *)
(** * The heap's operations (for [Heap.v])

    Every entry point returns, keeps the heap's invariant, gives out blocks that
    overlap no block held, and preserves what the held blocks contain. *)

From stdpp Require Import functions.
From S2P Require Import Prelude BitOps Config SizeClasses PageState IntrusiveList Bootstrap VmArena VmTrack Span SpanFacts.
From S2P Require Import VmRegion PageMap Slab SlabFacts SlabOps SlabCorrect ThreadCache ThreadCacheCorrect Drain.
From S2P Require Import LargeCache LargeAlloc LargeCorrect LargeOps SlabFrame HeapStore HeapSteps CallSite Heap HeapInv.

#[local] Abbreviation page_count := Span.page_count.
#[local] Abbreviation Span := Span.Span.

(** ** Pieces *)

Lemma empty_cache_ptrs tc : cache_ptrs tc = [] <-> forall i, 0 <= i < num_lanes -> lane_stack tc i = [].
Proof.
  unfold cache_ptrs. split.
  - intros H i Hi. destruct (lane_stack tc i) as [|p l] eqn:E; [done|]. exfalso.
    assert (Hp : p ∈ cache_ptrs tc) by (apply (lane_in_cache tc i); [done|rewrite E; by left]). unfold cache_ptrs in Hp. rewrite H in Hp. by apply elem_of_nil in Hp.
  - intros H. assert (forall l, (forall i, i ∈ l -> 0 <= i < num_lanes) -> concat (map (lane_stack tc) l) = []) as G.
    { induction l as [|i l IH]; intros Hl; [done|]. cbn. rewrite H by (apply Hl; by left). apply IH. intros. apply Hl. by right. }
    apply G. intros i Hi%elem_of_seqZ. lia.
Qed.

Lemma zero_counts_ptrs ps n : cache_ptrs (mkTC ps (replicate n 0)) = [].
Proof.
  apply empty_cache_ptrs. intros i _. unfold lane_stack, lane_count. cbn [counts_ ptrs_].
  assert (zget 0 (replicate n 0) i = 0) as ->; [|done]. unfold zget. case_if; [|done].
  destruct (replicate n 0 !! Z.to_nat i) eqn:El; [|done]. apply lookup_replicate in El as [-> _]. done.
Qed.

Section Ops.
Context `{PG : PageGeometry} {Sys : Type} (cfg : SlabCfg) (maxb total page_size : Z) (magazines defer_free : bool) (md : Modes) (sys : System Sys) (E : Call).
#[local] Abbreviation Heap := (Heap Sys).
#[local] Abbreviation heap_inv := (HeapInv.heap_inv (Sys := Sys) cfg maxb total md).
#[local] Abbreviation thread_ok := (thread_ok total md).

(** Changing a thread's variables, the pool and the bootstrap memory. *)
Lemma heap_thread h live t th pool b :
  heap_inv h live -> thread_ok (h_world h) th -> thread_ptrs th ≡ₚ thread_ptrs (thread h t) ->
  Forall (fun tc => tc_ok tc /\ cache_ptrs tc = []) pool -> heap_inv (set_threads (<[t := th]> (h_threads h)) pool b h) live.
Proof.
  intros I T Hp Hpool. constructor; [apply I| | |done]; cbn [h_slabs h_large h_world h_threads set_threads].
  - destruct (hi_store _ _ _ _ _ _ I) as (stash & St & Hm). exists stash. split; [done|]. rewrite Hm, all_ptrs_insert, Hp. apply all_ptrs_delete.
  - intros t' x. rewrite lookup_insert. case_decide; [by intros [= <-]|]. apply I.
Qed.

(** The heap but for the thread's routing variables. *)
Lemma route_small_spec h live sc ra : heap_inv h live ->
  exists a h', route_small E sc ra h = Some (a, h') /\ heap_inv h' live /\ 0 <= a < total /\
    h_world h' = h_world h /\ h_large h' = h_large h /\ h_mem h' = h_mem h /\ h_boot h' = h_boot h /\ h_pool h' = h_pool h /\
    t_cache (self E h') = t_cache (self E h) /\ t_fast (self E h') = t_fast (self E h) /\ t_compressor (self E h') = t_compressor (self E h).
Proof.
  intros I. unfold route_small. pose proof (thread_is_ok _ _ _ _ _ _ (e_tid E) I) as T. fold (self E h) in T. destruct T as [[T1 T1'] T2 T3 T4 T5].
  pose proof (arena_bound (e_loader E) (t_route (self E h)) (e_depth E) sc ra (h_sites h) (t_memo (self E h)) T1 T2) as Hb.
  destruct (callsiteArena _ _ _ _ _ _ _) as [[a st] memo]. destruct Hb as [Ha Hm]. eexists _, _. split; [done|].
  assert (Es : self E (set_sites st (set_thread (e_tid E) (mkThread (t_cache (self E h)) (t_fast (self E h)) (t_compressor (self E h)) memo (t_route (self E h))) h)) =
    mkThread (t_cache (self E h)) (t_fast (self E h)) (t_compressor (self E h)) memo (t_route (self E h))).
  { unfold self, thread. cbn. by rewrite lookup_insert_eq. }
  rewrite Es. splits; try done; [|lia|lia].
  destruct (heap_thread h live (e_tid E) (mkThread (t_cache (self E h)) (t_fast (self E h)) (t_compressor (self E h)) memo (t_route (self E h))) (h_pool h) (h_boot h) I)
    as [H1 H2 H3 H4]; [by constructor|done|apply I|]. by constructor.
Qed.

Lemma route_large_spec h live ra : heap_inv h live ->
  exists a h', route_large E ra h = Some (a, h') /\ heap_inv h' live /\ h_world h' = h_world h /\ h_large h' = h_large h /\ h_mem h' = h_mem h /\
    t_cache (self E h') = t_cache (self E h) /\ h_boot h' = h_boot h /\ h_pool h' = h_pool h.
Proof.
  intros I. unfold route_large. destruct (callsiteArenaForLarge _ _ _ _) as [a st]. eexists _, _. split; [done|].
  splits; try done. destruct I as [H1 H2 H3 H4]. by constructor.
Qed.

(** A thread cache can be had. *)
Definition cache_available (h : Heap) : Prop :=
  t_cache (self E h) <> None \/ h_pool h <> [] \/ is_Some (boot_allocate page_size (h_boot h) (e_map E) kThreadCacheBytes 8).1.

(** The bootstrap memory is as before, or has given a thread cache. *)
Definition boot_next (b : BootstrapAlloc) : BootstrapAlloc := (boot_allocate page_size b (e_map E) kThreadCacheBytes 8).2.
Definition boot_step (h h' : Heap) : Prop := h_boot h' = h_boot h \/ t_cache (self E h) = None /\ h_boot h' = boot_next (h_boot h).

Lemma getOrCreate_spec h live : heap_inv h live -> tc_ok (tc_init (e_garbage E)) -> cache_available h ->
  exists h', getOrCreateThreadCache page_size md E h = Some (tt, h') /\ heap_inv h' live /\ h_world h' = h_world h /\ h_large h' = h_large h /\ h_mem h' = h_mem h /\
    t_cache (self E h') <> None /\ t_compressor (self E h') = t_compressor (self E h) /\ boot_step h h'.
Proof.
  intros I Hg Hav. unfold getOrCreateThreadCache. destruct (t_cache (self E h)) as [tc|] eqn:Ec.
  { exists h. splits; try done; [by rewrite Ec|by left]. }
  pose proof (thread_is_ok _ _ _ _ _ _ (e_tid E) I) as T. fold (self E h) in T. destruct T as [T1 T2 T3 T4 T5].
  assert (Hnew : exists tc pool b, new_cache page_size E h = Some (tc, set_threads (h_threads h) pool b h) /\ tc_ok tc /\ cache_ptrs tc = [] /\
    Forall (fun tc => tc_ok tc /\ cache_ptrs tc = []) pool /\ (b = h_boot h \/ b = boot_next (h_boot h))).
  { unfold new_cache. pose proof (hi_pool _ _ _ _ _ _ I) as Hpool. destruct (h_pool h) as [|tc pool] eqn:Ep; cbn [pool_acquire].
    - destruct Hav as [?|[?|Hb]]; [congruence|congruence|]. unfold boot_next. destruct (boot_allocate _ _ _ _ _) as [[p|] b]; [|by destruct Hb].
      exists (tc_init (e_garbage E)), [], b. splits; [done|done|apply zero_counts_ptrs|done|by right].
    - apply Forall_cons in Hpool as [[K1 K2] Hpool]. exists tc, pool, (h_boot h). splits; try done. by left. }
  destruct Hnew as (tc & pool & b & En & K & Hptr & Hpool & Hb). unfold bind at 1. rewrite En. unfold modify. eexists. split; [done|].
  assert (Es : self E (set_threads (h_threads h) pool b h) = self E h) by done. rewrite Es.
  set (th := mkThread _ _ _ _ _). unfold set_thread. cbn [set_threads h_threads h_pool h_boot].
  assert (Es2 : forall ts, self E (set_threads (<[e_tid E := th]> ts) pool b (set_threads (h_threads h) pool b h)) = th)
    by (intros ts; unfold self, thread; cbn; by rewrite lookup_insert_eq).
  rewrite Es2. splits; try done; [|destruct Hb; [by left|right; by split]].
  destruct (heap_thread h live (e_tid E) th pool b I) as [H1 H2 H3 H4]; [| |done|by constructor].
  - constructor; [done|done| |by intros x [= <-]|].
    + intros Hf. cbn in Hf. split; [|done]. apply orb_true_iff in Hf as [Hf|Hf]; [by apply T3|done].
    + intros x i p [= <-] Hi Hp. rewrite (proj1 (empty_cache_ptrs tc) Hptr i Hi) in Hp. by apply elem_of_nil in Hp.
  - fold (self E h). unfold thread_ptrs. rewrite Ec. cbn [t_cache th]. by rewrite Hptr.
Qed.

Lemma tc_idx_mod arena sc : 0 <= sc < kNumClasses -> tc_idx arena sc mod kNumClasses = sc.
Proof. intros H. unfold tc_idx. apply index_join; done. Qed.

Lemma blocks_keep slabs L w cl C slabs' L' w' cl' C' live :
  store_ok cfg maxb total slabs L w cl C -> store_ok cfg maxb total slabs' L' w' cl' C' -> stays slabs slabs' ->
  (forall o, o ∈ smalls live -> o ∈ cl /\ o ∈ cl') -> (forall a, a ∈ larges live -> span_at w' a = span_at w a) -> same_blocks w w' live.
Proof.
  intros St St' Hs Ho Ha [o|a] Hb; cbn.
  - split; [done|]. apply elem_smalls in Hb. destruct (Ho o Hb) as [Ho1 Ho2].
    by destruct (object_keeps cfg maxb total slabs L w cl C slabs' L' w' cl' C' o St St' Hs Ho1 Ho2) as (_ & _ & ? & ?).
  - apply elem_larges in Hb. unfold blk_base, blk_len. by rewrite (Ha a Hb).
Qed.

(** What a step on the thread's cache leaves alone. *)
Record quiet_step (h h' : Heap) (live : list Block) : Prop := {
  qs_large : h_large h' = h_large h;
  qs_mem : h_mem h' = h_mem h;
  qs_boot : h_boot h' = h_boot h;
  qs_pool : h_pool h' = h_pool h;
  qs_blocks : same_blocks (h_world h) (h_world h') live;
  qs_cache : t_cache (self E h') <> None;
  qs_flags : t_compressor (self E h') = t_compressor (self E h) /\ t_fast (self E h') = t_fast (self E h) /\ t_memo (self E h') = t_memo (self E h) /\ t_route (self E h') = t_route (self E h)
}.

Lemma self_set_cache tc (h : Heap) :
  self E (set_cache E tc h) = mkThread (Some tc) (t_fast (self E h)) (t_compressor (self E h)) (t_memo (self E h)) (t_route (self E h)).
Proof. unfold set_cache, self at 1, thread. cbn. by rewrite lookup_insert_eq. Qed.

Lemma set_cache_quiet tc slabs w (h : Heap) live : same_blocks (h_world h) w live -> quiet_step h (set_cache E tc (set_store slabs (h_large h) w h)) live.
Proof. intros Hb. constructor; try done; rewrite self_set_cache; done. Qed.

Lemma quiet_step_trans h h1 h2 live : quiet_step h h1 live -> quiet_step h1 h2 live -> quiet_step h h2 live.
Proof.
  intros [A1 A2 A3 A4 A5 A6 (A7 & A8 & A9 & A10)] [B1 B2 B3 B4 B5 B6 (B7 & B8 & B9 & B10)]. constructor; try congruence; [by eapply same_blocks_trans|].
  splits; congruence.
Qed.

Lemma map_snoc {B} (l : list (Z * B)) k p : map fst l = k ++ [p] -> exists l' o, l = l' ++ [o] /\ map fst l' = k /\ o.1 = p.
Proof.
  intros H. destruct (map_eq_app _ _ _ _ H) as (l1 & l2 & -> & H1 & H2). destruct l2 as [|o [|? ?]]; [done| |done].
  exists l1, o. by injection H2.
Qed.

Lemma small_positive h live o : heap_inv h live -> SmallBlock o ∈ live -> 0 < o.1.
Proof.
  intros I Ho. destruct (hi_store _ _ _ _ _ _ I) as (stash & St & _). apply elem_smalls in Ho.
  destruct (store_object _ _ _ _ _ _ _ _ o St ltac:(set_solver)) as [i K]. pose proof (oa_range _ _ _ _ _ K). lia.
Qed.

Lemma cache_allocate_spec h live tc sc arena : heap_inv h live -> t_cache (self E h) = Some tc -> 0 <= sc < kNumClasses ->
  exists p h', cache_allocate E sc arena h = Some (p, h') /\ quiet_step h h' live /\ h_world h' = h_world h /\
    if p =? 0 then heap_inv h' live /\ exists tc', t_cache (self E h') = Some tc' /\ lane_stack tc' (tc_idx arena sc) = []
    else exists o, o.1 = p /\ size_class (span_at (h_world h) o.2) = sc /\ heap_inv h' (SmallBlock o :: live).
Proof.
  intros I Ht Hsc. pose proof (tc_idx_range arena sc Hsc) as Hi. unfold cache_allocate. rewrite Ht.
  destruct (heap_lane _ _ _ _ _ _ _ tc _ I Ht Hi) as (A & rest & St & HA & K & Hc & Hput).
  pose proof (proj2 (thread_cache_lifo tc sc arena 0 K Hsc)) as Hl. destruct (last (lane_stack tc (tc_idx arena sc))) as [p|].
  - destruct Hl as (tc' & -> & K' & Hst & Hj). rewrite Hst in HA. destruct (map_snoc _ _ _ HA) as (A' & o & -> & HA' & Ho).
    assert (I' : heap_inv (set_cache E tc' h) (SmallBlock o :: live)).
    { apply (Hput tc' (h_slabs h) (h_large h) (h_world h) (SmallBlock o :: live) A'); try done.
      - eapply store_cl_perm; [|exact St]. cbn [smalls omap]. rewrite <- !app_assoc. cbn. rewrite !app_assoc. by rewrite <- Permutation_middle.
      - intros x Hx. apply Hc. set_solver. }
    exists p, (set_cache E tc' h). split; [done|]. splits; [by apply (set_cache_quiet tc' (h_slabs h) (h_world h))|done|].
    pose proof (small_positive _ _ o I' ltac:(by left)). rewrite (proj2 (Z.eqb_neq p 0)) by lia. exists o. splits; try done.
    rewrite <- (tc_idx_mod arena sc Hsc). apply Hc. set_solver.
  - destruct Hl as [-> E0]. exists 0, (set_cache E tc h). cbn [default]. splits; [done|by apply (set_cache_quiet tc (h_slabs h) (h_world h))|done|].
    cbn [Z.eqb]. split; [by apply (Hput tc (h_slabs h) (h_large h) (h_world h) live A)|]. exists tc. by rewrite self_set_cache.
Qed.

Lemma cache_refill_spec h live tc sc arena :
  heap_inv h live -> (forall n, oracle_ok (e_slab E n)) -> t_cache (self E h) = Some tc -> 0 <= sc < kNumClasses -> 0 <= arena < total ->
  lane_stack tc (tc_idx arena sc) = [] ->
  exists p h', cache_refill cfg magazines E sc arena h = Some (p, h') /\ quiet_step h h' live /\
    if p =? 0 then heap_inv h' live
    else exists o, o.1 = p /\ size_class (span_at (h_world h') o.2) = sc /\ heap_inv h' (SmallBlock o :: live).
Proof.
  intros I Hos Ht Hsc Ha Hl. pose proof (tc_idx_range arena sc Hsc) as Hi. unfold cache_refill. rewrite Ht.
  destruct (heap_lane _ _ _ _ _ _ _ tc _ I Ht Hi) as (A & rest & St & HA & K & Hc & Hput).
  rewrite Hl in HA. apply map_eq_nil in HA as ->. cbn [app] in St.
  destruct (store_refill cfg maxb total magazines (e_slab E) tc sc arena _ _ _ _ _ Hos St K Ha Hsc Hl) as (r & tc' & s' & w' & new & Er & K' & St' & Hk & Hs & Hj & Hnew & Hr).
  unfold slab_index. rewrite Er. set (slabs' := zset (h_slabs h) (arena * kNumClasses + sc) s') in *.
  assert (Hb : same_blocks (h_world h) w' live).
  { eapply blocks_keep; [exact St|exact St'|done|set_solver|]. intros a Hal. apply Hk. set_solver. }
  assert (Hcl : forall o, o ∈ new -> size_class (span_at w' o.2) = tc_idx arena sc mod kNumClasses).
  { intros o Ho. rewrite (tc_idx_mod arena sc Hsc), (oa_class _ _ _ _ _ (Hnew o Ho)). by apply index_join. }
  eexists _, _. split; [done|]. split; [by apply set_cache_quiet|]. destruct r as [p|].
  - change (default 0 (Some p)) with p. symmetry in Hr. destruct (map_snoc _ _ _ Hr) as (A' & o & -> & HA' & Ho).
    assert (I' : heap_inv (set_cache E tc' (set_store slabs' (h_large h) w' h)) (SmallBlock o :: live)).
    { apply (Hput tc' slabs' (h_large h) w' (SmallBlock o :: live) A'); try done.
      - eapply store_cl_perm; [|exact St']. cbn [smalls omap]. rewrite <- (Permutation_middle A' []), app_nil_r. cbn. f_equiv. rewrite !app_assoc. f_equiv. apply Permutation_app_comm.
      - intros x Hx. apply Hcl. set_solver. }
    pose proof (small_positive _ _ o I' ltac:(by left)). rewrite (proj2 (Z.eqb_neq p 0)) by lia. exists o. splits; try done.
    rewrite <- (tc_idx_mod arena sc Hsc). apply Hcl. set_solver.
  - destruct Hr as [-> ->]. change (default 0 None =? 0) with true. cbv iota. by apply (Hput tc slabs' (h_large h) w' live []).
Qed.

Lemma lane_len tc i : tc_ok tc -> 0 <= i < num_lanes -> zlen (lane_stack tc i) = lane_count tc i.
Proof.
  intros K Hi. pose proof (tk_depth _ K i Hi). pose proof (tk_count _ K i Hi). unfold lane_stack, zlen in *. rewrite length_take. lia.
Qed.

(** A freed object goes to the thread's lane of its class. *)
Lemma cache_deallocate_spec h live tc sc arena o : heap_inv h (SmallBlock o :: live) -> t_cache (self E h) = Some tc ->
  0 <= sc < kNumClasses -> size_class (span_at (h_world h) o.2) = sc ->
  exists ok h', cache_deallocate E sc arena o.1 h = Some (ok, h') /\ quiet_step h h' live /\ h_world h' = h_world h /\
    if ok : bool then heap_inv h' live
    else heap_inv h' (SmallBlock o :: live) /\ t_cache (self E h') = Some tc /\ kPerLaneDepth <= lane_count tc (tc_idx arena sc).
Proof.
  intros I Ht Hsc Hco. pose proof (tc_idx_range arena sc Hsc) as Hi. unfold cache_deallocate. rewrite Ht.
  destruct (heap_lane _ _ _ _ _ _ _ tc _ I Ht Hi) as (A & rest & St & HA & K & Hc & Hput).
  pose proof (proj1 (thread_cache_lifo tc sc arena o.1 K Hsc)) as Hl. rewrite (lane_len tc _ K Hi) in Hl. case_if_in Hl.
  - destruct Hl as (tc' & -> & K' & Hst & Hj). exists true, (set_cache E tc' h). splits; [done|by apply (set_cache_quiet tc' (h_slabs h) (h_world h))|done|].
    apply (Hput tc' (h_slabs h) (h_large h) (h_world h) live (A ++ [o])); try done.
    + eapply store_cl_perm; [|exact St]. cbn [smalls omap]. rewrite <- !app_assoc. cbn. rewrite !app_assoc. by rewrite <- Permutation_middle.
    + by rewrite map_app, Hst, HA.
    + intros x [Hx|Hx]%elem_of_app; [by apply Hc|]. apply list_elem_of_singleton in Hx as ->. by rewrite tc_idx_mod.
  - rewrite Hl. b2p. exists false, (set_cache E tc h). splits; [done|by apply (set_cache_quiet tc (h_slabs h) (h_world h))|done| | |done].
    + by apply (Hput tc (h_slabs h) (h_large h) (h_world h) (SmallBlock o :: live) A).
    + by rewrite self_set_cache.
Qed.

Lemma lane_split tc i n : tc_ok tc -> 0 <= i < num_lanes -> 0 <= n <= lane_count tc i ->
  lane_stack tc i = take (Z.to_nat n) (lane_ptrs tc i) ++ take (Z.to_nat (lane_count tc i - n)) (drop (Z.to_nat n) (lane_ptrs tc i)).
Proof.
  intros K Hi Hn. unfold lane_stack. replace (Z.to_nat (lane_count tc i)) with (Z.to_nat n + Z.to_nat (lane_count tc i - n))%nat by lia.
  symmetry. apply take_take_drop.
Qed.

Lemma cache_drain_spec h live tc sc arena : heap_inv h live -> t_cache (self E h) = Some tc -> 0 <= sc < kNumClasses ->
  exists tc' h', cache_drain cfg total magazines defer_free E sc arena h = Some (tt, h') /\ quiet_step h h' live /\ heap_inv h' live /\
    t_cache (self E h') = Some tc' /\ lane_count tc' (tc_idx arena sc) < kPerLaneDepth.
Proof.
  intros I Ht Hsc. pose proof (tc_idx_range arena sc Hsc) as Hi. unfold cache_drain. rewrite Ht. unfold tc_drain. set (i := tc_idx arena sc) in *.
  destruct (heap_lane _ _ _ _ _ _ _ tc i I Ht Hi) as (A & rest & St & HA & K & Hc & Hput). pose proof (tk_count _ K i Hi) as Hn. pose proof (tk_depth _ K i Hi) as Hd.
  set (c := lane_count tc i) in *. set (n := if c / 2 =? 0 then c else c / 2). assert (E16 : kPerLaneDepth = 16) by done.
  assert (Hnc : 0 <= n <= c /\ (0 < c -> 0 < n)) by (unfold n; case_if; b2p; dlia). rewrite (wrap_small 16 (c - n)) by lia.
  pose proof (lane_split tc i (c - n) K Hi ltac:(fold c; lia)) as Hsp. fold c in Hsp. replace (c - (c - n)) with n in Hsp by lia.
  rewrite Hsp in HA. destruct (map_eq_app _ _ _ _ HA) as (A1 & A2 & -> & HA1 & HA2). cbv zeta.
  destruct (drainRangeToSlabs _ _ _ _ _ _ _ _) as [slabs' w'] eqn:Ed. rewrite <- HA2 in Ed.
  assert (Hz : zlen A2 <= kPerLaneDepth).
  { assert (zlen A2 = n); [|lia]. unfold zlen. rewrite <- (length_map fst), HA2, length_take, length_drop. unfold zlen in Hd. lia. }
  destruct (store_drain cfg maxb total magazines defer_free (e_try E) sc A2 _ _ _ (smalls live ++ (A1 ++ A2) ++ rest) (smalls live ++ A1 ++ rest) _ slabs' w'
    (hi_total _ _ _ _ _ _ I) Hsc St) as (St' & Hk & Hs); [|done| |exact Ed|].
  { rewrite (Permutation_app_comm A1 A2), <- app_assoc, (app_assoc _ A2), (Permutation_app_comm (smalls live) A2). by rewrite <- app_assoc. }
  { intros o Ho. rewrite <- (tc_idx_mod arena sc Hsc). apply Hc. set_solver. }
  assert (Hb : same_blocks (h_world h) w' live).
  { eapply blocks_keep; [exact St|exact St'|done|set_solver|]. intros a Hal. apply Hk. set_solver. }
  destruct (set_lane_ok tc i (lane_ptrs tc i) (c - n) K Hi Hd ltac:(lia)) as (K' & S1 & S2).
  set (tc' := set_lane tc i (lane_ptrs tc i) (c - n)) in *. eexists tc', _. splits; [done|by apply set_cache_quiet| | |].
  - apply (Hput tc' slabs' (h_large h) w' live A1); try done; [by rewrite S1|]. intros o Ho.
    destruct (object_keeps cfg maxb total _ _ _ _ _ _ _ _ _ _ o St St' Hs ltac:(set_solver) ltac:(set_solver)) as (_ & _ & _ & Ec).
    rewrite Ec. apply Hc. set_solver.
  - by rewrite self_set_cache.
  - rewrite <- (lane_len tc' i K' Hi), S1. unfold zlen. rewrite length_take. unfold zlen in Hd. lia.
Qed.

Lemma free_to_cache_spec h live sc arena o : heap_inv h (SmallBlock o :: live) -> t_cache (self E h) <> None ->
  0 <= sc < kNumClasses -> size_class (span_at (h_world h) o.2) = sc ->
  exists h', free_to_cache cfg total magazines defer_free E sc arena o.1 h = Some (tt, h') /\ quiet_step h h' live /\ heap_inv h' live.
Proof.
  intros I Hne Hsc Hco. destruct (t_cache (self E h)) as [tc|] eqn:Ht; [|done]. unfold free_to_cache, bind.
  destruct (cache_deallocate_spec h live tc sc arena o I Ht Hsc Hco) as (ok & h1 & -> & Q1 & Ew & Hok). destruct ok; [by exists h1|].
  destruct Hok as (I1 & Ht1 & _). destruct (cache_drain_spec h1 _ tc sc arena I1 Ht1 Hsc) as (tc2 & h2 & -> & Q2 & I2 & Ht2 & Hlt).
  assert (Hco2 : size_class (span_at (h_world h2) o.2) = sc).
  { destruct (qs_blocks _ _ _ Q2 (SmallBlock o) ltac:(by left)) as (_ & _ & Hcl & _). cbn in Hcl. by rewrite Hcl, Ew. }
  destruct (cache_deallocate_spec h2 live tc2 sc arena o I2 Ht2 Hsc Hco2) as (ok & h3 & -> & Q3 & Ew3 & Hok). destruct ok.
  - exists h3. splits; [done| |done]. eapply quiet_step_trans; [exact Q1|]. eapply quiet_step_trans; [|exact Q3].
    destruct Q2 as [B1 B2 B3 B4 B5 B6 B7]. constructor; try done. intros b Hb. apply B5. by right.
  - destruct Hok as (_ & _ & Hge). lia.
Qed.

(** ** Blocks held *)

Lemma small_facts h live o : heap_inv h live -> SmallBlock o ∈ live -> let w := h_world h in
  obj_size w o = classSize (size_class (span_at w o.2)) /\ 0 <= size_class (span_at w o.2) < kNumClasses /\
  0 <= arena_id (span_at w o.2) < total /\ resolveSpan (pmap w) o.1 = o.2 /\ tag_at (pmap w) o.1 = pageTag (span_at w) o.2 /\
  is_large (span_at w o.2) = false /\ o.2 <> 0 /\ o.1 mod 16 = 0 /\ 0 < o.1 < 2 ^ 64.
Proof.
  intros I Ho w. destruct (hi_store _ _ _ _ _ _ I) as (stash & St & _). apply elem_smalls in Ho. assert (Hin : o ∈ smalls live ++ stash) by set_solver.
  destruct (store_object _ _ _ _ _ _ _ _ o St Hin) as [i K]. pose proof (object_aligned _ _ _ _ _ _ _ _ o St Hin).
  destruct (index_range total i (oa_index _ _ _ _ _ K)) as [Hc Ha]. pose proof (oa_range _ _ _ _ _ K). pose proof (oa_end _ _ _ _ _ K). unfold w.
  rewrite (oa_class _ _ _ _ _ K), (oa_arena _ _ _ _ _ K). splits; try apply K; try done; lia.
Qed.

Lemma large_facts h live a : heap_inv h live -> LargeBlock a ∈ live -> let w := h_world h in
  resolveSpan (pmap w) (blk_base w a) = a /\ tag_at (pmap w) (blk_base w a) = 0 /\ large_size (span_at w a) <= blk_len w a /\ is_large (span_at w a) = true /\ a <> 0 /\
  range_ok (blk_base w a) (page_count (span_at w a)).
Proof.
  intros I Ha w. destruct (hi_store _ _ _ _ _ _ I) as (stash & St & _). apply elem_larges in Ha.
  destruct (so_tracked _ _ _ _ _ _ _ _ St) as [_ T]. destruct (T a Ha) as [T1 T2]. pose proof (so_ltag _ _ _ _ _ _ _ _ St a Ha).
  destruct (so_vm _ _ _ _ _ _ _ _ St) as (v & batch & live' & ext & P & _ & _ & O). destruct (ow_span _ _ _ O a ltac:(set_solver)) as (O1 & _ & O2 & O3). by splits.
Qed.

(** Two blocks held never overlap. *)
Lemma blocks_disjoint h live b c : heap_inv h (b :: live) -> c ∈ live ->
  disjoint_iv (start (h_world h) b) (room_of (h_world h) b) (start (h_world h) c) (room_of (h_world h) c).
Proof.
  intros I Hc. destruct (hi_store _ _ _ _ _ _ I) as (stash & St & _). destruct b as [o|a], c as [q|d]; cbn [start room_of smalls larges omap] in *.
  - pose proof (objects_nodup _ _ _ _ _ _ _ _ St) as Hn. apply elem_smalls in Hc. cbn in Hn. apply NoDup_cons in Hn as [Hn _].
    eapply (objects_apart cfg maxb total); [exact St|by left|right; set_solver|]. intros ->. apply Hn. set_solver.
  - apply elem_larges in Hc. eapply (object_block_apart cfg maxb total); [exact St|by left|done].
  - apply elem_smalls in Hc. pose proof (object_block_apart cfg maxb total _ _ _ _ _ q a St ltac:(set_solver) ltac:(by left)) as Hd. unfold disjoint_iv in *. lia.
  - apply elem_larges in Hc. destruct (so_vm _ _ _ _ _ _ _ _ St) as (v & batch & live' & ext & P & _ & _ & O). pose proof (ow_nodup _ _ _ O) as Hn. cbn in Hn. apply NoDup_cons in Hn as [Hn _].
    eapply (blocks_apart cfg maxb total); [exact St|by left|right; set_solver|]. intros ->. apply Hn. set_solver.
Qed.

Lemma heap_mem m h live : heap_inv h live -> heap_inv (set_mem m h) live.
Proof. intros [H1 H2 H3 H4]. by constructor. Qed.

(** ** Allocation *)

(** [p] is null, or a new block of at least [size] bytes. *)
Definition granted (h : Heap) (live : list Block) (size p : Z) (h' : Heap) : Prop :=
  same_blocks (h_world h) (h_world h') live /\
  if p =? 0 then heap_inv h' live
  else exists b, heap_inv h' (b :: live) /\ start (h_world h') b = p /\ size <= held (h_world h') b <= room_of (h_world h') b /\ p mod 16 = 0.

Lemma small_path_spec h live sc ra : heap_inv h live -> (forall n, oracle_ok (e_slab E n)) -> t_cache (self E h) <> None -> 0 <= sc < kNumClasses ->
  exists p h', small_path cfg magazines E sc ra h = Some (p, h') /\ h_mem h' = h_mem h /\ granted h live (classSize sc) p h' /\
    t_cache (self E h') <> None /\ t_compressor (self E h') = t_compressor (self E h) /\ h_boot h' = h_boot h.
Proof.
  intros I Hos Ht Hsc. unfold small_path, bind.
  destruct (route_small_spec h live sc ra I) as (arena & h1 & -> & I1 & Ha & W1 & _ & M1 & B0 & _ & C1 & _ & F1).
  destruct (t_cache (self E h)) as [tc|] eqn:Etc; [|done].
  destruct (cache_allocate_spec h1 live tc sc arena I1 C1 Hsc) as (p & h2 & -> & Q2 & W2 & Hp).
  assert (Hgot : forall o h3 q, heap_inv h3 (SmallBlock o :: live) -> o.1 = q -> size_class (span_at (h_world h3) o.2) = sc -> same_blocks (h_world h) (h_world h3) live ->
    granted h live (classSize sc) q h3).
  { intros o h3 q I3 <- Hc Hb. destruct (small_facts h3 _ o I3 ltac:(by left)) as (Hs & _ & _ & _ & _ & _ & _ & Hal & Hpos).
    split; [done|]. rewrite (proj2 (Z.eqb_neq o.1 0)) by lia. exists (SmallBlock o). cbn [start room_of held]. rewrite Hs, Hc. splits; try done; lia. }
  destruct (p =? 0) eqn:Ep.
  - destruct Hp as (I2 & tc2 & C2 & Hl). destruct (cache_refill_spec h2 live tc2 sc arena I2 Hos C2 Hsc Ha Hl) as (q & h3 & -> & Q3 & Hq).
    exists q, h3. pose proof Q3 as [B1 B2 B3 B4 B5 B6 (B7 & _)]. pose proof (qs_flags _ _ _ Q2) as (F2 & _).
    splits; [done|by rewrite B2, (qs_mem _ _ _ Q2)| |done|congruence|by rewrite B3, (qs_boot _ _ _ Q2)].
    assert (Hb : same_blocks (h_world h) (h_world h3) live) by (rewrite W2, W1 in B5; done).
    destruct (q =? 0) eqn:Eq; [split; [done|by rewrite Eq]|]. destruct Hq as (o & Ho & Hc & I3). by apply (Hgot o).
  - destruct Hp as (o & Ho & Hc & I2). exists p, h2. pose proof Q2 as [B1 B2 B3 B4 B5 B6 (B7 & _)]. splits; [done|congruence| |done|congruence|congruence].
    apply (Hgot o); try done; [by rewrite W2|by rewrite W2, W1].
Qed.

Lemma large_path_spec h live size k arena : heap_inv h live -> oracle_ok (e_large E) -> fresh_map (e_large E) (h_world h) (larges live ++ cached (h_large h)) ->
  maxb < 2 ^ 63 -> 0 <= c_chunk cfg < 2 ^ 32 -> 1 <= size <= (2 ^ 32 - 1) * kPageSize -> 4 <= k < 62 ->
  exists p z h', large_path cfg E size (2 ^ k) arena h = Some ((p, z), h') /\ h_mem h' = h_mem h /\ granted h live size p h' /\ p mod 2 ^ k = 0 /\
    t_cache (self E h') = t_cache (self E h) /\ h_boot h' = h_boot h /\ h_pool h' = h_pool h /\
    (z = true -> exists bytes, o_map (e_large E) bytes = Some p /\ size <= bytes).
Proof.
  intros I Ho F Hm Hch Hs Hk. unfold large_path. destruct (heap_store _ _ _ _ h live I) as (stash & St & Hput).
  destruct (large_allocate _ _ _ _ _ _ _) as [[r L'] w'] eqn:Ea.
  pose proof (store_large_allocate cfg maxb total (e_large E) _ _ _ _ _ size k arena r L' w' Ho F Hm Hch St Hs ltac:(lia) Ea) as Hr.
  destruct r as [[p z]|].
  - destruct Hr as (a & pages & Hna & St' & Eat & Hsz & Hmod & Hat).
    assert (I' : heap_inv (set_store (h_slabs h) L' w' h) (LargeBlock a :: live)) by (apply Hput; done).
    destruct (large_facts _ _ a I' ltac:(by left)) as (_ & _ & _ & _ & _ & (R1 & R2 & _)). cbn [h_world set_store] in *.
    assert (Eb : blk_base w' a = p) by (unfold blk_base; by rewrite Eat). rewrite Eb in R1, R2.
    exists p, z, (set_store (h_slabs h) L' w' h). splits; try done; [split|by intros ->; eapply large_allocate_zeroed; [exact Hs| |exact Ea]; lia].
    + eapply blocks_keep; [exact St|exact St'|done|set_solver|]. intros b Hb. by apply Hat.
    + rewrite (proj2 (Z.eqb_neq p 0)) by lia. exists (LargeBlock a). cbn [h_world set_store start room_of held]. splits; try done.
      * by rewrite Eat.
      * rewrite Eat. unfold blk_len. by rewrite Eat.
      * destruct kPageSize_cases as [Ek|Ek]; rewrite Ek in R2; dlia.
  - destruct Hr as [-> St']. exists 0, false, (set_store (h_slabs h) L' (h_world h) h). splits; [done|done|split; [done|by apply Hput]| |done..].
    apply Z.mod_0_l. lia.
Qed.

(** What a call relies on: the allocators' oracles, the kernel mapping unused
    memory only, a thread cache to be had. *)
Record call_ok (h : Heap) (live : list Block) : Prop := {
  ca_slab : forall n, oracle_ok (e_slab E n);
  ca_large : oracle_ok (e_large E);
  ca_map : fresh_map (e_large E) (h_world h) (larges live ++ cached (h_large h));
  ca_garbage : tc_ok (tc_init (e_garbage E));
  ca_cache : cache_available h;
  ca_boot : forall b, b ∈ live -> boot_owns (h_boot h) (start (h_world h) b) = false /\ boot_owns (boot_next (h_boot h)) (start (h_world h) b) = false
}.

(** Nothing is written outside [n] bytes at [p]. *)
Definition wrote (h h' : Heap) (p n : Z) : Prop := forall x, x < p \/ p + n <= x -> h_mem h' x = h_mem h x.

Definition allocated (h : Heap) (live : list Block) (size p : Z) (h' : Heap) : Prop :=
  same_blocks (h_world h) (h_world h') live /\
  if p =? 0 then heap_inv h' live /\ h_mem h' = h_mem h
  else exists b, heap_inv h' (b :: live) /\ start (h_world h') b = p /\ size <= held (h_world h') b <= room_of (h_world h') b /\ p mod 16 = 0 /\
    wrote h h' p (room_of (h_world h') b).

Lemma granted_allocated h live size n p h' : granted h live n p h' -> h_mem h' = h_mem h -> size <= n -> allocated h live size p h'.
Proof.
  intros [Hb Hg] Hm Hn. split; [done|]. destruct (p =? 0); [done|]. destruct Hg as (b & I & Hs & Hr & Ha). exists b. splits; try done; [lia|lia|].
  intros x _. by rewrite Hm.
Qed.

(** The block just granted, cleared or not. *)
Lemma zeroed h live size n p h' (z : bool) : granted h live n p h' -> h_mem h' = h_mem h -> size <= n ->
  exists h2, (if negb (p =? 0) && z then zero p n else ret tt) h' = Some (tt, h2) /\ allocated h live size p h2 /\
    (z = true -> p <> 0 -> forall i, 0 <= i < n -> h_mem h2 (p + i) = 0) /\ t_cache (self E h2) = t_cache (self E h') /\ h_boot h2 = h_boot h' /\ h_pool h2 = h_pool h' /\ (z = false -> h_mem h2 = h_mem h').
Proof.
  intros G Hm Hn. destruct (negb (p =? 0) && z) eqn:Ez.
  - apply andb_true_iff in Ez as [Ep Ez]. apply negb_true_iff in Ep. eexists. split; [done|]. destruct G as [Hb Hg]. rewrite Ep in Hg.
    destruct Hg as (b & I & Hs & Hr & Ha). splits; [|intros _ _ i Hi; cbn; unfold memset; rewrite (proj2 (andb_true_iff _ _)); [done|split; [apply Z.leb_le|apply Z.ltb_lt]; lia]|done..|congruence].
    split; [done|]. rewrite Ep. exists b. splits; try done; [by apply heap_mem|cbn in *; lia|cbn in *; lia|].
    intros x Hx. cbn. unfold memset. rewrite (proj2 (andb_false_iff _ _)); [by rewrite Hm|]. destruct Hx; [left; apply Z.leb_gt; lia|right; apply Z.ltb_ge; cbn in *; lia].
  - exists h'. splits; [done|by eapply granted_allocated| |done..]. intros -> Hp. rewrite andb_true_r in Ez. apply negb_false_iff in Ez. b2p. lia.
Qed.

Context (Hmax : maxb < 2 ^ 63) (Hchunk : 0 <= c_chunk cfg < 2 ^ 32).

Lemma class_fits size : 1 <= size <= kMaxSmallSize -> 0 <= sizeToClass size < kNumClasses /\ size <= classSize (sizeToClass size).
Proof.
  intros Hs. change kMaxSmallSize with 16384 in Hs. destruct (sizeToClass_fits size ltac:(lia)) as (H1 & H2 & _). split; [done|].
  by rewrite classSize_zget.
Qed.

Lemma class_none size : kMaxSmallSize < size -> (sizeToClass size <? kNumClasses) = false.
Proof.
  intros Hs. change kMaxSmallSize with 16384 in Hs. unfold sizeToClass. rewrite (proj2 (Z.eqb_neq size 0)) by lia. change kMaxSmallSize with 16384.
  rewrite (proj2 (Z.leb_gt size 1024)), (proj2 (Z.leb_gt size 16384)) by lia. done.
Qed.

Lemma malloc_own_small h live size ra : heap_inv h live -> (forall n, oracle_ok (e_slab E n)) -> tc_ok (tc_init (e_garbage E)) -> cache_available h ->
  1 <= size <= kMaxSmallSize ->
  exists p h', malloc_own cfg page_size magazines md E size ra h = Some (p, h') /\ allocated h live size p h' /\ t_cache (self E h') <> None /\ boot_step h h'.
Proof.
  intros I O1 O4 O5 Hs. unfold malloc_own. destruct (class_fits size Hs) as [Hc Hf]. rewrite (proj2 (Z.ltb_lt _ _)) by lia. unfold bind.
  destruct (getOrCreate_spec h live I O4 O5) as (h1 & -> & I1 & W1 & L1 & M1 & C1 & F1 & B1).
  destruct (small_path_spec h1 live (sizeToClass size) (if ra =? 0 then appCallerRA E else ra) I1 O1 C1 Hc) as (p & h2 & -> & M2 & G2 & C2 & _ & B2).
  assert (G : granted h live (classSize (sizeToClass size)) p h2) by (unfold granted in *; by rewrite <- W1).
  destruct (zeroed h live size _ p h2 (m_eager_zero md) G ltac:(congruence) Hf) as (h3 & -> & A3 & _ & C3 & B3 & _). exists p, h3. rewrite C3. unfold boot_step in *.
  rewrite B3, B2. done.
Qed.

Lemma malloc_own_large h live size ra : heap_inv h live -> call_ok h live -> kMaxSmallSize < size <= (2 ^ 32 - 1) * kPageSize ->
  exists p h', malloc_own cfg page_size magazines md E size ra h = Some (p, h') /\ allocated h live size p h' /\ t_cache (self E h') = t_cache (self E h) /\ h_boot h' = h_boot h /\ h_pool h' = h_pool h.
Proof.
  intros I [O1 O2 O3 O4 O5 _] Hs. assert (Hs' : 1 <= size) by (change kMaxSmallSize with 16384 in Hs; lia). unfold malloc_own. rewrite class_none by lia. unfold bind.
  destruct (route_large_spec h live (if ra =? 0 then appCallerRA E else ra) I) as (arena & h1 & -> & I1 & W1 & L1 & M1 & C1 & B1 & P1).
  change kMinAlignment with (2 ^ 4). destruct (large_path_spec h1 live size 4 arena I1 O2 ltac:(by rewrite W1, L1) Hmax Hchunk ltac:(lia) ltac:(lia)) as (p & z & h2 & -> & M2 & G2 & _ & C2 & B2 & P2 & _).
  cbn [fst]. assert (G : granted h live size p h2) by (unfold granted in *; by rewrite <- W1).
  destruct (zeroed h live size _ p h2 (m_eager_zero md) G ltac:(congruence) ltac:(lia)) as (h3 & -> & A3 & _ & C3 & B3 & P3 & _). exists p, h3. split; [done|]. split; [done|]. splits; congruence.
Qed.

(** The modes in which the heap serves every request itself. *)
Definition own_mode : Prop := m_passthrough md = false /\ m_compress_only md = false /\ m_large_only md = false.

Lemma allocated_after h h1 live size p h' :
  same_blocks (h_world h) (h_world h1) live -> h_mem h1 = h_mem h -> allocated h1 live size p h' -> allocated h live size p h'.
Proof.
  intros Hb Hm [Hb1 Ha]. split; [by eapply same_blocks_trans|]. unfold wrote in *. by rewrite Hm in Ha.
Qed.

Lemma allocated_le h live size n p h' : size <= n -> allocated h live n p h' -> allocated h live size p h'.
Proof.
  intros Hn [Hb Ha]. split; [done|]. destruct (p =? 0); [done|]. destruct Ha as (b & A1 & A2 & A3 & A4). exists b. split; [done|]. split; [done|]. split; [lia|done].
Qed.

Lemma mallocSlow_own h size ra : own_mode -> t_compressor (self E h) = false ->
  mallocSlow cfg page_size magazines md sys E size ra h = malloc_own cfg page_size magazines md E (if size =? 0 then 1 else size) ra h.
Proof. intros (H1 & H2 & H3) Hc. unfold mallocSlow. rewrite H1. unfold bind, ask. rewrite Hc, H2, H3. done. Qed.

Lemma mallocSlow_spec h live size ra : heap_inv h live -> call_ok h live -> own_mode -> t_compressor (self E h) = false ->
  0 <= size <= (2 ^ 32 - 1) * kPageSize ->
  exists p h', mallocSlow cfg page_size magazines md sys E size ra h = Some (p, h') /\ allocated h live size p h' /\
    (t_cache (self E h) <> None -> t_cache (self E h') <> None) /\ boot_step h h' /\ cache_available h'.
Proof.
  intros I Hca Hmode Hnc Hs. pose proof Hca as [O1 O2 O3 O4 O5 _]. pose proof pg_pos as Hpp. rewrite mallocSlow_own by done. set (n := if size =? 0 then 1 else size).
  assert (Hn : 1 <= n /\ size <= n <= (2 ^ 32 - 1) * kPageSize) by (unfold n; case_if; b2p; lia).
  destruct (Z.le_gt_cases n kMaxSmallSize) as [Hsm|Hlg].
  - destruct (malloc_own_small h live n ra I O1 O4 O5 ltac:(lia)) as (p & h' & E1 & E2 & E3 & E4). exists p, h'. split; [done|]. split; [apply (allocated_le _ _ _ n); [lia|done]|]. split; [done|]. split; [done|by left].
  - destruct (malloc_own_large h live n ra I Hca ltac:(lia)) as (p & h' & E1 & E2 & E3 & E4 & E5). exists p, h'. rewrite E3. split; [done|].
    split; [apply (allocated_le _ _ _ n); [lia|done]|]. split; [done|]. split; [by left|]. unfold cache_available in *. by rewrite E3, E4, E5.
Qed.

Lemma malloc_spec h live size : heap_inv h live -> call_ok h live -> own_mode -> t_compressor (self E h) = false ->
  0 <= size <= (2 ^ 32 - 1) * kPageSize ->
  exists p h', malloc cfg page_size magazines md sys E size h = Some (p, h') /\ allocated h live size p h' /\
    (t_cache (self E h) <> None -> t_cache (self E h') <> None) /\ boot_step h h' /\ cache_available h'.
Proof.
  intros I Hca Hmode Hnc Hs. pose proof Hca as [O1 O2 O3 O4 O5 _]. unfold malloc. set (ra := appCallerRA E).
  pose proof (mallocSlow_spec h live size ra I Hca Hmode Hnc Hs) as Hslow.
  destruct (fullMallocPath md && (0 <? size) && (size <=? kMaxSmallSize)) eqn:Ef; [|exact Hslow]. unfold bind at 1, ask. destruct (t_cache (self E h)) as [tc|] eqn:Et; [|exact Hslow].
  apply andb_true_iff in Ef as [Ef Hle]. apply andb_true_iff in Ef as [_ Hgt]. b2p. destruct (class_fits size ltac:(lia)) as [Hc Hf].
  destruct (small_path_spec h live (sizeToClass size) ra I O1 ltac:(by rewrite Et) Hc) as (p & h1 & E1 & M1 & G1 & C1 & F1 & B1). unfold bind at 1. rewrite E1.
  destruct (p =? 0) eqn:Ep.
  - destruct G1 as [Hb1 I1]. rewrite Ep in I1. rewrite mallocSlow_own by (done || congruence). rewrite (proj2 (Z.eqb_neq size 0)) by lia.
    destruct (malloc_own_small h1 live size ra I1 O1 O4 ltac:(by left) ltac:(lia)) as (q & h2 & -> & A2 & C2 & [B2|[B2 _]]); [|done]. exists q, h2.
    split; [done|]. split; [by eapply allocated_after|]. split; [done|]. split; [left; congruence|by left].
  - exists p, h1. split; [done|]. split; [by eapply granted_allocated|]. split; [done|]. split; [by left|by left].
Qed.

(** ** Release *)

(** A block is given up; the others stay. *)
Definition freed (h : Heap) (live : list Block) (h' : Heap) : Prop :=
  heap_inv h' live /\ same_blocks (h_world h) (h_world h') live /\ h_mem h' = h_mem h.

Definition owner (b : Block) : Z := match b with SmallBlock o => o.2 | LargeBlock a => a end.

Lemma owner_facts h live b : heap_inv h live -> b ∈ live -> let w := h_world h in
  resolveSpan (pmap w) (start w b) = owner b /\ owner b <> 0 /\ 0 < start w b < 2 ^ 64 /\ old_size_of (span_at w (owner b)) = held w b /\
  is_large (span_at w (owner b)) = match b with SmallBlock _ => false | LargeBlock _ => true end.
Proof.
  intros I Hb w. destruct b as [o|a]; unfold old_size_of; cbn [start owner held].
  - destruct (small_facts h live o I Hb) as (H1 & _ & _ & H2 & _ & H3 & H4 & _ & H5). unfold w. rewrite H3. splits; try done; lia.
  - destruct (large_facts h live a I Hb) as (H1 & _ & _ & H2 & H3 & (R1 & R2 & R3 & R4)). pose proof pg_pos. unfold w. rewrite H2. splits; try done; nia.
Qed.

Lemma large_free_spec h live a : heap_inv h (LargeBlock a :: live) -> oracle_ok (e_large E) ->
  exists h', large_free cfg maxb E a h = Some (tt, h') /\ freed h live h' /\ h_threads h' = h_threads h.
Proof.
  intros I Ho. unfold large_free, modify. destruct (heap_store _ _ _ _ h _ I) as (stash & St & Hput).
  destruct (large_deallocate _ _ _ _ _ _ _) as [L' w'] eqn:Ed. eexists. split; [done|].
  destruct (store_large_deallocate cfg maxb total (e_large E) (e_any E) _ _ _ _ _ (larges live) a L' w' Ho Hmax St ltac:(done) Ed) as [St' Edescr].
  split; [|done]. split; [by apply Hput|]. split; [|done]. eapply blocks_keep; [exact St|exact St'|done|set_solver|]. intros b _. by apply span_at_descr.
Qed.

Lemma free_owned_spec h live b : heap_inv h (b :: live) -> oracle_ok (e_large E) -> tc_ok (tc_init (e_garbage E)) -> cache_available h ->
  exists h', free_owned cfg maxb total page_size magazines defer_free md E (start (h_world h) b) (owner b) h = Some (tt, h') /\ freed h live h' /\
    (t_cache (self E h) <> None -> t_cache (self E h') <> None).
Proof.
  intros I Ho Hg Hav. unfold free_owned, descriptor, ask, bind at 1. destruct (owner_facts h _ b I ltac:(by left)) as (_ & _ & _ & _ & ->). destruct b as [o|a]; cbn [start owner].
  - unfold bind. destruct (getOrCreate_spec h _ I Hg Hav) as (h1 & -> & I1 & W1 & L1 & M1 & C1 & _).
    destruct (small_facts h _ o I ltac:(by left)) as (_ & Hsc & _). rewrite <- W1 in Hsc |- *.
    destruct (free_to_cache_spec h1 live _ (arena_id (span_at (h_world h1) o.2)) o I1 C1 Hsc eq_refl) as (h2 & -> & Q2 & I2).
    exists h2. destruct Q2. rewrite W1 in *. split; [done|]. split; [|done]. split; [done|]. split; [done|congruence].
  - destruct (large_free_spec h live a I Ho) as (h' & -> & Hf & Ht). exists h'. unfold self, thread. by rewrite Ht.
Qed.

Lemma free_spec h live b : heap_inv h (b :: live) -> oracle_ok (e_large E) -> tc_ok (tc_init (e_garbage E)) -> cache_available h ->
  own_mode -> boot_owns (h_boot h) (start (h_world h) b) = false ->
  exists h', free cfg maxb total page_size magazines defer_free md sys E (start (h_world h) b) h = Some (tt, h') /\ freed h live h' /\
    (t_cache (self E h) <> None -> t_cache (self E h') <> None).
Proof.
  intros I Ho Hg Hav (Hm1 & Hm2 & Hm3) Hboot. destruct (owner_facts h _ b I ltac:(by left)) as (Hr & Hz & Hp & _ & Hlg).
  pose proof (free_owned_spec h live b I Ho Hg Hav) as Hown. set (p := start (h_world h) b) in *.
  assert (Hslow : freeSlow cfg maxb total page_size magazines defer_free md sys E p h = free_owned cfg maxb total page_size magazines defer_free md E p (owner b) h).
  { unfold freeSlow, lookup_span, bind, ask. rewrite (proj2 (Z.eqb_neq p 0)) by lia. by rewrite Hboot, Hm1, Hm2, Hr, (proj2 (Z.eqb_neq _ 0) Hz). }
  unfold free. rewrite (proj2 (Z.eqb_neq p 0)) by lia. case_if; [by rewrite Hslow|]. unfold lookup_span, descriptor, bind, ask in *.
  rewrite Hboot, Hr, (proj2 (Z.eqb_neq _ 0) Hz), Hlg. destruct b as [o|a].
  - destruct (t_cache (self E h)) as [tc|] eqn:Et; [|by rewrite Hslow]. destruct Hown as (h' & Hf & Hrest). exists h'. split; [|done]. revert Hf.
    unfold free_owned, descriptor, bind, ask, getOrCreateThreadCache. by rewrite Hlg, Et.
  - destruct Hown as (h' & Hf & Hrest). exists h'. split; [|done]. revert Hf. unfold free_owned, descriptor, bind, ask. by rewrite Hlg.
Qed.

(** ** Aligned and zeroed blocks *)

Lemma memalign_spec h live k size : heap_inv h live -> call_ok h live -> own_mode -> t_compressor (self E h) = false ->
  0 <= k < 62 -> 0 <= size <= (2 ^ 32 - 1) * kPageSize ->
  exists p h', memalign cfg page_size magazines md sys E (2 ^ k) size h = Some (p, h') /\ allocated h live size p h' /\ p mod 2 ^ k = 0.
Proof.
  intros I Hca Hmode Hnc Hk Hs. pose proof Hca as [O1 O2 O3 O4 O5 _]. pose proof Hmode as (Hm1 & Hm2 & Hm3). pose proof pg_pos as Hpp.
  unfold memalign. rewrite Hm1, Hm2, Hm3. cbn [andb]. set (n := if size =? 0 then 1 else size).
  assert (Hn : 1 <= n /\ size <= n <= (2 ^ 32 - 1) * kPageSize) by (unfold n; case_if; b2p; lia). change kMinAlignment with (2 ^ 4). case_if.
  - destruct (malloc_spec h live n I Hca Hmode Hnc ltac:(lia)) as (p & h' & -> & A & _). exists p, h'. split; [done|].
    split; [apply (allocated_le _ _ _ n); [lia|done]|]. b2p. assert (k <= 4) by (apply (Z.pow_le_mono_r_iff 2); lia).
    apply pow_mod_weaken with 4; [lia|]. destruct A as [_ A]. destruct (p =? 0) eqn:Ep; [b2p; by subst p|]. by destruct A as (b & _ & _ & _ & Ha & _).
  - b2p. assert (4 < k) by (apply (Z.pow_lt_mono_r_iff 2); lia). unfold bind.
    destruct (route_large_spec h live (appCallerRA E) I) as (arena & h1 & -> & I1 & W1 & L1 & M1 & _).
    destruct (large_path_spec h1 live n k arena I1 O2 ltac:(by rewrite W1, L1) Hmax Hchunk ltac:(lia) ltac:(lia)) as (p & z & h2 & -> & M2 & G2 & Hal & _).
    exists p, h2. split; [done|]. split; [|done]. eapply granted_allocated; [|congruence|]; [unfold granted in *; by rewrite <- W1|lia].
Qed.

(** Writing inside a block just allocated. *)
Lemma allocated_write h live size p h1 m : allocated h live size p h1 -> p <> 0 ->
  (forall x, x < p \/ p + size <= x -> m x = h_mem h1 x) -> allocated h live size p (set_mem m h1).
Proof.
  intros [Hb Ha] Hp Hm. split; [done|]. rewrite (proj2 (Z.eqb_neq p 0) Hp) in *. destruct Ha as (b & A1 & A2 & A3 & A4 & A5). exists b.
  splits; try done; [by apply heap_mem|cbn; lia|cbn; lia|]. intros x Hx. cbn in *. rewrite Hm by lia. by apply A5.
Qed.

Lemma memset_in m p n x : p <= x < p + n -> memset m p n x = 0.
Proof. intros H. unfold memset. case_if; [done|]. b2p. lia. Qed.
Lemma memset_out m p n x : x < p \/ p + n <= x -> memset m p n x = m x.
Proof. intros H. unfold memset. case_if; [|done]. b2p. lia. Qed.

(** Anonymous mappings are zero-filled. *)
Definition zero_maps (h : Heap) : Prop := forall bytes p x, o_map (e_large E) bytes = Some p -> p <= x < p + bytes -> h_mem h x = 0.

Lemma calloc_spec h live count size : heap_inv h live -> call_ok h live -> own_mode -> t_compressor (self E h) = false ->
  0 <= count * size -> (2 ^ 64 <= count * size \/ count * size <= (2 ^ 32 - 1) * kPageSize) ->
  exists p h', calloc cfg page_size magazines md sys E count size h = Some (p, h') /\ allocated h live (count * size) p h' /\
    (p <> 0 -> count * size < 2 ^ 64 /\ (zero_maps h -> forall i, 0 <= i < count * size -> h_mem h' (p + i) = 0)).
Proof.
  intros I Hca Hmode Hnc Hnn Hs. pose proof Hca as [O1 O2 O3 O4 O5 _]. pose proof Hmode as (Hm1 & Hm2 & Hm3). pose proof pg_pos as Hpp.
  unfold calloc. rewrite Hm1, Hm2. set (n := count * size) in *. case_if; [b2p; exists 0, h; splits; try done; by split|]. b2p.
  assert (Hn : n <= (2 ^ 32 - 1) * kPageSize) by lia. unfold bind at 1, ask. rewrite Hm3. cbn [andb].
  destruct ((kMaxSmallSize <? n) && fullMallocPath md && negb (m_eager_zero md)) eqn:E1.
  - apply andb_true_iff in E1 as [E1 _]. apply andb_true_iff in E1 as [E1 _]. b2p. change kMaxSmallSize with 16384 in *. unfold bind.
    destruct (route_large_spec h live (appCallerRA E) I) as (arena & h1 & -> & I1 & W1 & L1 & M1 & _).
    change kMinAlignment with (2 ^ 4). destruct (large_path_spec h1 live n 4 arena I1 O2 ltac:(by rewrite W1, L1) Hmax Hchunk ltac:(lia) ltac:(lia)) as (p & z & h2 & -> & M2 & G2 & _ & _ & _ & _ & Hf).
    cbn [fst snd]. assert (G : granted h live n p h2) by (unfold granted in *; by rewrite <- W1).
    destruct (zeroed h live n n p h2 (negb z) G ltac:(congruence) ltac:(lia)) as (h3 & -> & A3 & Z3 & _ & _ & _ & K3). exists p, h3. split; [done|]. split; [done|]. intros Hp.
    split; [lia|]. intros Hz i Hi. destruct z; [|by apply Z3]. destruct (Hf eq_refl) as (bytes & Hby & Hle). rewrite K3, M2, M1 by done. apply (Hz bytes p); [done|lia].
  - clear E1. unfold bind. destruct (malloc_spec h live n I Hca Hmode Hnc ltac:(lia)) as (p & h1 & -> & A1 & _). destruct (p =? 0) eqn:Ep; cbn [negb].
    + exists p, h1. split; [done|]. split; [done|]. b2p. lia.
    + b2p. eexists _, _. split; [done|]. split; [|intros _; split; [lia|]; intros _ i Hi; apply memset_in; lia].
      apply allocated_write; [done|done|]. intros x Hx. by apply memset_out.
Qed.

(** ** Moved blocks *)

(** [realloc] of block [b]: null and nothing done, or a block with the bytes of
    [b] and nothing else of the program's changed. *)
Definition reallocated (h : Heap) (live : list Block) (b : Block) (size p : Z) (h' : Heap) : Prop :=
  if p =? 0 then heap_inv h' (b :: live) /\ same_blocks (h_world h) (h_world h') (b :: live) /\ h_mem h' = h_mem h
  else exists c, heap_inv h' (c :: live) /\ start (h_world h') c = p /\ size <= held (h_world h') c <= room_of (h_world h') c /\ p mod 16 = 0 /\
    same_blocks (h_world h) (h_world h') live /\
    (forall i, 0 <= i < Z.min (held (h_world h) b) size -> h_mem h' (p + i) = h_mem h (start (h_world h) b + i)) /\
    forall d x, d ∈ live -> start (h_world h) d <= x < start (h_world h) d + room_of (h_world h) d -> h_mem h' x = h_mem h x.

Lemma block_facts h live b : heap_inv h live -> b ∈ live -> start (h_world h) b mod 16 = 0 /\ held (h_world h) b <= room_of (h_world h) b.
Proof.
  intros I Hb. destruct b as [o|a]; cbn [start held room_of].
  - destruct (small_facts h live o I Hb) as (_ & _ & _ & _ & _ & _ & _ & H & _). split; [done|lia].
  - destruct (large_facts h live a I Hb) as (_ & _ & H & _ & _ & (_ & R & _)). split; [|done]. destruct kPageSize_cases as [Ek|Ek]; rewrite Ek in R; dlia.
Qed.

(** In place: the block keeps its address and its bytes. *)
Lemma reallocated_in_place h live b size h' : heap_inv h' (b :: live) -> heap_inv h (b :: live) -> h_mem h' = h_mem h ->
  start (h_world h') b = start (h_world h) b -> size <= held (h_world h') b -> same_blocks (h_world h) (h_world h') live ->
  reallocated h live b size (start (h_world h) b) h'.
Proof.
  intros I' I Hm Hs Hh Hb. destruct (owner_facts h _ b I ltac:(by left)) as (_ & _ & Hp & _). unfold reallocated. rewrite (proj2 (Z.eqb_neq _ 0)) by lia.
  exists b. destruct (block_facts h' _ b I' ltac:(by left)) as [Ha Hr]. splits; try done; [congruence|intros; by rewrite Hm|intros; by rewrite Hm].
Qed.

Lemma memcpy_in m dst src n i : 0 <= i < n -> memcpy m dst src n (dst + i) = m (src + i).
Proof. intros H. unfold memcpy. case_if; [f_equal; lia|]. b2p. lia. Qed.
Lemma memcpy_out m dst src n x : x < dst \/ dst + n <= x -> memcpy m dst src n x = m x.
Proof. intros H. unfold memcpy. case_if; [|done]. b2p. lia. Qed.

Lemma reallocated_moved h h1 live b c size n p m h' : 0 < size -> n = Z.min (held (h_world h) b) size ->
  heap_inv h (b :: live) -> heap_inv h1 (c :: b :: live) -> same_blocks (h_world h) (h_world h1) (b :: live) -> wrote h h1 p (room_of (h_world h1) c) ->
  p <> 0 -> start (h_world h1) c = p -> size <= held (h_world h1) c <= room_of (h_world h1) c -> p mod 16 = 0 ->
  m = memcpy (h_mem h1) p (start (h_world h) b) n -> freed (set_mem m h1) (c :: live) h' -> reallocated h live b size p h'.
Proof.
  intros Hsz Hn I I1 Hb Hw Hp Hc Hh Ha -> (I' & Hb' & Hm'). unfold reallocated. rewrite (proj2 (Z.eqb_neq p 0) Hp). cbn [h_world h_mem set_mem set_system] in *.
  destruct (Hb' c ltac:(by left)) as (S1 & S2 & _ & S4). destruct (Hb b ltac:(by left)) as (T1 & T2 & _ & T4).
  destruct (block_facts h _ b I ltac:(by left)) as [_ Hroom]. pose proof (blocks_disjoint h1 _ c b I1 ltac:(by left)) as Hd. unfold disjoint_iv in Hd.
  exists c. splits; try done; try congruence; try lia.
  - intros d Hd'. destruct (Hb d ltac:(by right)) as (? & ? & ? & ?), (Hb' d ltac:(by right)) as (? & ? & ? & ?). splits; congruence.
  - intros i Hi. rewrite Hm', memcpy_in by lia. apply Hw. lia.
  - intros d x Hdl Hx. destruct (Hb d ltac:(by right)) as (D1 & D2 & _). pose proof (blocks_disjoint h1 _ c d I1 ltac:(by right)) as Hcd. unfold disjoint_iv in Hcd.
    rewrite Hm', memcpy_out by lia. apply Hw. lia.
Qed.

Lemma realloc_own_spec h live b size : heap_inv h (b :: live) -> call_ok h (b :: live) -> own_mode -> t_compressor (self E h) = false ->
  1 <= size <= (2 ^ 32 - 1) * kPageSize ->
  exists p h', realloc_own cfg maxb total page_size magazines defer_free md sys E (start (h_world h) b) size (owner b) h = Some (p, h') /\ reallocated h live b size p h'.
Proof.
  intros I Hca Hmode Hnc Hs. unfold realloc_own, descriptor, ask, bind at 1. destruct (owner_facts h _ b I ltac:(by left)) as (Hr & Hz & Hp & -> & Hlg).
  rewrite Hlg. set (sp := span_at (h_world h) (owner b)) in *. pose proof pg_pos as Hpp.
  destruct (match b with SmallBlock _ => false | LargeBlock _ => true end && _) eqn:E1.
  { destruct b as [o|a]; [done|]. cbn [andb owner start] in *. apply andb_true_iff in E1 as [E1 _]. b2p. destruct (heap_store _ _ _ _ h _ I) as (stash & St & Hput).
    eexists _, _. split; [done|]. change (blk_base (h_world h) a) with (start (h_world h) (LargeBlock a)).
    assert (Eat : span_at (put_span (h_world h) a (set_large_size sp size)) a = set_large_size sp size) by (by rewrite span_at_put, Z.eqb_refl).
    assert (Hne : forall d, d ∈ larges live -> d <> a).
    { intros d Hd ->. destruct (so_vm _ _ _ _ _ _ _ _ St) as (v & batch & live' & ext & _ & _ & _ & O). pose proof (ow_nodup _ _ _ O) as Hnd. cbn in Hnd.
      apply NoDup_cons in Hnd as [Hnd _]. set_solver. }
    assert (St' : store_ok cfg maxb total (h_slabs h) (h_large h) (put_span (h_world h) a (set_large_size sp size)) (smalls (LargeBlock a :: live) ++ stash) (larges (LargeBlock a :: live)))
      by (apply store_resize; [done|by left|done|done|done|cbn [large_size set_large_size]; unfold blk_len; assumption]).
    apply reallocated_in_place; cbn [h_world h_mem set_store start held]; [by apply Hput|done|done|unfold blk_base; by rewrite Eat|by rewrite Eat|].
    eapply blocks_keep; [exact St|exact St'|done|set_solver|]. intros d Hd. rewrite span_at_put, (proj2 (Z.eqb_neq a d)); [done|]. intros <-. by apply (Hne a). }
  destruct (negb _ && _) eqn:E2.
  { apply andb_true_iff in E2 as [_ E2]. b2p. eexists _, _. split; [done|]. by apply reallocated_in_place. }
  unfold bind. destruct (malloc_spec h _ size I Hca Hmode Hnc ltac:(lia)) as (p & h1 & -> & [Hb A] & _ & Hboot & Hav). destruct (p =? 0) eqn:Ep.
  { exists p, h1. split; [done|]. unfold reallocated. rewrite Ep. by destruct A. }
  destruct A as (c & I1 & Hc & Hh & Ha & Hw). unfold copy, modify. set (n := if held (h_world h) b <? size then _ else _). set (m := memcpy _ _ _ _). b2p.
  assert (I2 : heap_inv (set_mem m h1) (b :: c :: live)) by (apply heap_mem; by rewrite Permutation_swap).
  assert (Hst : start (h_world (set_mem m h1)) b = start (h_world h) b) by (apply Hb; by left).
  destruct (free_spec (set_mem m h1) (c :: live) b I2 (ca_large _ _ Hca) (ca_garbage _ _ Hca) Hav Hmode) as (h3 & Hf & Hfr & _).
  { rewrite Hst. destruct (ca_boot _ _ Hca b ltac:(by left)) as [B1 B2]. cbn. by destruct Hboot as [->|[_ ->]]. }
  rewrite Hst in Hf. rewrite Hf. exists p, h3. split; [done|].
  eapply (reallocated_moved h h1 live b c size n p m); try done; [lia|]. unfold n. case_if; b2p; lia.
Qed.

Lemma realloc_spec h live b size : heap_inv h (b :: live) -> call_ok h (b :: live) -> own_mode -> t_compressor (self E h) = false ->
  1 <= size <= (2 ^ 32 - 1) * kPageSize ->
  exists p h', realloc cfg maxb total page_size magazines defer_free md sys E (start (h_world h) b) size h = Some (p, h') /\ reallocated h live b size p h'.
Proof.
  intros I Hca Hmode Hnc Hs. pose proof Hmode as (Hm1 & Hm2 & Hm3). destruct (owner_facts h _ b I ltac:(by left)) as (Hr & Hz & Hp & _).
  unfold realloc, lookup_span, ask, bind at 1. rewrite Hm1, Hm2, (proj2 (Z.eqb_neq _ 0)), (proj2 (Z.eqb_neq size 0)) by lia. unfold bind. rewrite Hr, (proj2 (Z.eqb_neq _ 0) Hz).
  by apply realloc_own_spec.
Qed.
End Ops.
