(* ===== verification/HeapHooks.v ===== *)
(** * Thread hooks and the compressor's tick (for [Heap.v])

    A thread that ends returns every cached object to its slab and its cache,
    empty, to the pool; the tick releases idle memory only. *)

From stdpp Require Import functions.
From S2P Require Import Prelude BitOps Config SizeClasses PageState IntrusiveList Bootstrap VmArena VmTrack Span SpanFacts.
From S2P Require Import VmRegion PageMap Slab SlabFacts SlabOps SlabCorrect SlabBatch ThreadCache ThreadCacheCorrect Drain.
From S2P Require Import LargeCache LargeAlloc LargeCorrect LargeOps SlabFrame HeapStore HeapSteps CallSite Heap HeapInv HeapCorrect.

#[local] Abbreviation page_count := Span.page_count.
#[local] Abbreviation Span := Span.Span.

Section Hooks.
Context `{PG : PageGeometry} {Sys : Type} (cfg : SlabCfg) (maxb total page_size : Z) (magazines defer_free : bool) (md : Modes) (sys : System Sys) (E : Call).
#[local] Abbreviation Heap := (Heap Sys).
#[local] Abbreviation heap_inv := (HeapInv.heap_inv (Sys := Sys) cfg maxb total md).
#[local] Abbreviation freed := (freed cfg maxb total md).

Lemma set_cache_twice tc tc' slabs slabs' L w w' (h : Heap) :
  set_cache E tc' (set_store slabs' L w' (set_cache E tc (set_store slabs L w h))) = set_cache E tc' (set_store slabs' L w' h).
Proof. unfold set_cache, set_thread, set_store, set_threads, self, thread. cbn. by rewrite lookup_insert_eq, insert_insert_eq. Qed.

(** Lane [i] goes back to the slabs. *)
Lemma drain_lane h live tc i slabs' w' : heap_inv h live -> t_cache (self E h) = Some tc -> 0 <= i < num_lanes ->
  drainRangeToSlabs cfg magazines defer_free total (e_try E) (i mod kNumClasses) (h_slabs h, h_world h) (take (Z.to_nat (lane_count tc i)) (lane_ptrs tc i)) = (slabs', w') ->
  let tc' := set_lane tc i (lane_ptrs tc i) 0 in
  heap_inv (set_cache E tc' (set_store slabs' (h_large h) w' h)) live /\ same_blocks (h_world h) w' live /\ tc_ok tc' /\
  lane_stack tc' i = [] /\ forall j, j <> i -> lane_stack tc' j = lane_stack tc j.
Proof.
  intros I Ht Hi Ed tc'. destruct (heap_lane _ _ _ _ _ _ _ tc i I Ht Hi) as (A & rest & St & HA & K & Hc & Hput). unfold lane_stack in HA. rewrite <- HA in Ed.
  assert (Hsc : 0 <= i mod kNumClasses < kNumClasses) by (apply Z.mod_pos_bound; done).
  assert (Hz : zlen A <= kPerLaneDepth). { unfold zlen. rewrite <- (length_map fst), HA, length_take. pose proof (tk_depth _ K i Hi) as Hd. unfold zlen in Hd. lia. }
  destruct (store_drain cfg maxb total magazines defer_free (e_try E) (i mod kNumClasses) A _ _ _ _ (smalls live ++ rest) _ slabs' w'
    (hi_total _ _ _ _ _ _ I) Hsc St) as (St' & Hk & Hs); [|done|done|exact Ed|].
  { rewrite !app_assoc. by rewrite (Permutation_app_comm (smalls live) A). }
  destruct (set_lane_ok tc i (lane_ptrs tc i) 0 K Hi (tk_depth _ K i Hi) ltac:(done)) as (K' & S1 & S2). fold tc' in K', S1, S2. splits; try done.
  - apply (Hput tc' slabs' (h_large h) w' live []); try done. set_solver.
  - eapply blocks_keep; [exact St|exact St'|done|set_solver|]. intros a Ha. apply Hk. set_solver.
Qed.

Definition drain_step (acc : ThreadCache * (list Slab * World)) (i : Z) : ThreadCache * (list Slab * World) :=
  let '(tc, st) := acc in
  let c := lane_count tc i in
  if 0 <? c
  then (set_lane tc i (lane_ptrs tc i) 0,
        drainRangeToSlabs cfg magazines defer_free total (e_try E) (i mod kNumClasses) st (take (Z.to_nat c) (lane_ptrs tc i)))
  else acc.

Lemma drainAll_steps tc st : exists lanes, (forall i, i ∈ lanes <-> 0 <= i < num_lanes) /\
  tc_drainAll cfg magazines defer_free total (e_try E) tc st = foldl drain_step (tc, st) lanes.
Proof. exists (seqZ 0 num_lanes). split; [intros i; rewrite elem_of_seqZ; lia|]. unfold tc_drainAll, num_lanes. reflexivity. Qed.

Lemma drain_lanes l h live tc tc' slabs' w' : heap_inv h live -> t_cache (self E h) = Some tc -> (forall i, i ∈ l -> 0 <= i < num_lanes) ->
  foldl drain_step (tc, (h_slabs h, h_world h)) l = (tc', (slabs', w')) ->
  heap_inv (set_cache E tc' (set_store slabs' (h_large h) w' h)) live /\ same_blocks (h_world h) w' live /\ tc_ok tc' /\
  (forall i, i ∈ l -> lane_stack tc' i = []) /\ forall i, lane_stack tc i = [] -> lane_stack tc' i = [].
Proof.
  revert h tc. induction l as [|i l IH]; intros h tc I Ht Hl; cbn [foldl].
  - intros [= <- <- <-]. destruct (heap_lane _ _ _ _ h _ (e_tid E) tc 0 I Ht ltac:(done)) as (A & rest & St & HA & K & Hc & Hput).
    splits; try done; [|set_solver]. by apply (Hput tc (h_slabs h) (h_large h) (h_world h) live A).
  - assert (Hi : 0 <= i < num_lanes) by (apply Hl; by left). assert (Hl' : forall j, j ∈ l -> 0 <= j < num_lanes) by (intros j Hj; apply Hl; by right).
    unfold drain_step at 2. destruct (Z.ltb_spec 0 (lane_count tc i)) as [Hc|Hc].
    + destruct (drainRangeToSlabs _ _ _ _ _ _ _ _) as [slabs1 w1] eqn:Ed. destruct (drain_lane h live tc i slabs1 w1 I Ht Hi Ed) as (I1 & B1 & K1 & S1 & S2).
      set (tc1 := set_lane tc i _ 0) in *. intros Hf. destruct (IH (set_cache E tc1 (set_store slabs1 (h_large h) w1 h)) tc1 I1 ltac:(by rewrite self_set_cache) Hl' Hf) as (I2 & B2 & K2 & S3 & S4).
      cbn [h_large set_cache set_thread set_threads set_store h_world] in I2, B2. rewrite set_cache_twice in I2. splits; try done.
      * by eapply same_blocks_trans.
      * intros j [->|Hj]%elem_of_cons; [by apply S4|by apply S3].
      * intros j Hj. apply S4. destruct (decide (j = i)) as [->|Hne]; [done|]. by rewrite S2.
    + intros Hf. destruct (IH h tc I Ht Hl' Hf) as (I2 & B2 & K2 & S3 & S4). splits; try done. intros j [->|Hj]%elem_of_cons; [|by apply S3].
      apply S4. unfold lane_stack. replace (Z.to_nat (lane_count tc i)) with 0%nat by lia. done.
Qed.

Lemma tc_reset_ok tc : tc_ok tc -> tc_ok (tc_reset tc) /\ cache_ptrs (tc_reset tc) = [].
Proof.
  intros [K1 K2 K3 K4]. split; [|apply zero_counts_ptrs]. constructor; [done|unfold zlen, tc_reset; cbn [counts_]; by rewrite length_replicate|done|]. intros i Hi.
  assert (lane_count (tc_reset tc) i = 0) as ->; [|done]. unfold lane_count, tc_reset. cbn [counts_]. unfold zget. case_if; [|done].
  destruct (replicate _ 0 !! Z.to_nat i) eqn:El; [|done]. by apply lookup_replicate in El as [-> _].
Qed.

(** The thread's end. *)
Lemma threadCleanup_spec h live : heap_inv h live -> m_no_hooks md = false -> m_compress_only md = false ->
  exists h', threadCleanup cfg total magazines defer_free md E h = Some (tt, h') /\ freed h live h' /\ t_cache (self E h') = None /\ t_fast (self E h') = false /\
    (let th := self E h in h_threads h' = <[e_tid E := mkThread None false (t_compressor th) (t_memo th) (t_route th)]> (h_threads h)) /\
    (t_cache (self E h) <> None -> exists tc, h_pool h' = tc :: h_pool h /\ cache_ptrs tc = []).
Proof.
  intros I Hh Hc. unfold threadCleanup, modify. rewrite Hh, Hc. cbn [orb]. eexists. split; [done|].
  pose proof (thread_is_ok _ _ _ _ _ _ (e_tid E) I) as T. fold (self E h) in T. destruct T as [T1 T2 T3 T4 T5].
  set (th := mkThread None false _ _ _). assert (Tk : forall w, thread_ok total md w th) by (intros w; constructor; done).
  assert (Es : forall (ts : gmap Z Thread) pool b (h0 : Heap), self E (set_threads (<[e_tid E := th]> ts) pool b h0) = th) by (intros; unfold self, thread; cbn; by rewrite lookup_insert_eq).
  destruct (t_cache (self E h)) as [tc|] eqn:Et.
  - destruct (tc_drainAll _ _ _ _ _ _ _) as [tc' [slabs' w']] eqn:Ed. rewrite Es.
    destruct (drainAll_steps tc (h_slabs h, h_world h)) as (lanes & Hl & Ea). rewrite Ea in Ed. assert (Hl1 := fun i => proj1 (Hl i)).
    destruct (drain_lanes lanes h live tc tc' slabs' w' I Et Hl1 Ed) as (I1 & B1 & K1 & S1 & _).
    assert (Hp : cache_ptrs tc' = []) by (apply empty_cache_ptrs; intros i Hi; by apply S1, Hl).
    set (h1 := set_cache E tc' _) in I1.
    assert (Hpool : Forall (fun x => tc_ok x /\ cache_ptrs x = []) (returnThreadCache tc' (h_pool h1))) by (constructor; [by apply tc_reset_ok|apply I1]).
    assert (Hth : thread_ptrs th ≡ₚ thread_ptrs (thread h1 (e_tid E))).
    { fold (self E h1). unfold h1. rewrite self_set_cache. unfold thread_ptrs. cbn [t_cache]. by rewrite Hp. }
    pose proof (heap_thread cfg maxb total md h1 live (e_tid E) th _ (h_boot h1) I1 (Tk _) Hth Hpool) as I2.
    unfold h1, set_cache, set_thread, set_threads, set_store in I2. cbn in I2. rewrite insert_insert_eq in I2.
    split; [split; [exact I2|by split]|]. splits; try done. intros _. exists (tc_reset tc'). split; [done|]. by apply tc_reset_ok.
  - unfold set_thread. rewrite Es. splits; try done. split; [|by split].
    apply heap_thread; [done|apply Tk| |apply I]. fold (self E h). unfold thread_ptrs. by rewrite Et.
Qed.

Lemma preTick_spec h live : heap_inv h live -> oracle_ok (e_large E) -> maxb < 2 ^ 63 ->
  exists h', preTick total E h = Some (tt, h') /\ freed h live h' /\ h_threads h' = h_threads h /\ h_pool h' = h_pool h.
Proof.
  intros I Ho Hm. unfold preTick, modify. eexists. split; [done|]. destruct (heap_store _ _ _ _ h live I) as (stash & St & Hput).
  destruct (large_onTick _ _ _) as [L w1] eqn:Et. destruct (store_large_tick cfg maxb total _ _ _ _ _ _ L w1 Ho Hm St Et) as [St1 Ed1].
  destruct (purge_all total (h_slabs h) (advanceTick w1)) as [slabs w2] eqn:Ep.
  assert (St2 : store_ok cfg maxb total (h_slabs h) L (advanceTick w1) (smalls live ++ stash) (larges live)) by (by apply (store_same _ _ _ _ _ w1)).
  destruct (store_purge_all _ _ _ _ _ _ _ _ _ _ St2 Ep) as (St3 & Hk & Hs). split; [|done]. split; [by apply Hput|]. split; [|done].
  eapply blocks_keep; [exact St|exact St3|done|set_solver|]. intros a Ha. rewrite Hk by set_solver. unfold advanceTick, span_at. cbn. by rewrite Ed1.
Qed.
End Hooks.
