(* ===== verification/HeapLean.v ===== *)
(** * The lean entry points (for [Heap.v])

    The short paths of src/smash_heap.cpp give the result and the state of the
    full entry points they stand for. *)

From stdpp Require Import functions.
From S2P Require Import Prelude BitOps Config SizeClasses PageState IntrusiveList Bootstrap VmArena VmTrack Span SpanFacts.
From S2P Require Import VmRegion PageMap Slab SlabFacts SlabOps SlabCorrect SlabBatch ThreadCache ThreadCacheCorrect Drain.
From S2P Require Import LargeCache LargeAlloc LargeCorrect LargeOps SlabFrame HeapStore HeapSteps CallSite Heap HeapInv HeapCorrect.

#[local] Abbreviation page_count := Span.page_count.
#[local] Abbreviation Span := Span.Span.

(** ** Page tags *)

Lemma tag_decodes span_of a : a <> 0 -> is_large (span_of a) = false -> 0 <= arena_id (span_of a) < 256 -> 0 <= size_class (span_of a) < 64 ->
  let tag := pageTag span_of a in
  Z.land tag kPageTagSmall <> 0 /\ Z.land tag 63 = size_class (span_of a) /\ u8 (Z.shiftr tag 6) = arena_id (span_of a).
Proof.
  intros Ha Hl Hr Hc tag. unfold tag, pageTag. rewrite (proj2 (Z.eqb_neq a 0) Ha), Hl. cbn [orb]. set (r := arena_id _) in *. set (c := size_class _) in *.
  rewrite (wrap_small 16 r) by lia. assert (Hs : 0 <= Z.shiftl r 6 < 2 ^ 16) by (rewrite Z.shiftl_mul_pow2 by lia; lia).
  rewrite wrap_small by (apply lor_bound; [lia|apply lor_bound; [lia|by vm_compute|lia]|lia]). splits.
  - rewrite !Z.land_lor_distr_l. change (Z.land kPageTagSmall kPageTagSmall) with kPageTagSmall. rewrite !Z.lor_eq_0_iff. by intros [[? _] _].
  - rewrite !Z.land_lor_distr_l. change 63 with (Z.ones 6). rewrite !Z.land_ones, Z.shiftl_mul_pow2, Z_mod_mult by lia. rewrite (Z.mod_small c) by lia. done.
  - rewrite !Z.shiftr_lor, Z.shiftr_shiftl_l by lia. rewrite Z.shiftl_0_r. rewrite (Z.shiftr_div_pow2 c), (Z.div_small c) by lia. rewrite Z.lor_0_r.
    unfold wrap. rewrite <- Z.land_ones, Z.land_lor_distr_l by lia. change (Z.land (Z.shiftr kPageTagSmall 6) (Z.ones 8)) with 0.
    rewrite Z.lor_0_l, Z.land_ones by lia. apply Z.mod_small. lia.
Qed.

Section Lean.
Context `{PG : PageGeometry} {Sys : Type} (cfg : SlabCfg) (maxb total page_size : Z) (magazines defer_free : bool) (md : Modes) (sys : System Sys) (E : Call).
#[local] Abbreviation Heap := (Heap Sys).
#[local] Abbreviation heap_inv := (HeapInv.heap_inv (Sys := Sys) cfg maxb total md).
#[local] Abbreviation full_malloc := (malloc (Sys := Sys) cfg page_size magazines md sys E).
#[local] Abbreviation full_free := (free (Sys := Sys) cfg maxb total page_size magazines defer_free md sys E).
#[local] Abbreviation full_calloc := (calloc (Sys := Sys) cfg page_size magazines md sys E).
#[local] Abbreviation full_realloc := (realloc (Sys := Sys) cfg maxb total page_size magazines defer_free md sys E).

(** A thread with a published cache. *)
Lemma published h live tc : heap_inv h live -> fast_cache E h = Some tc ->
  t_cache (self E h) = Some tc /\ h_threads h !! e_tid E = Some (self E h) /\ rt_cold (t_route (self E h)) = None /\
  fullMallocPath md = true /\ m_diagnostics md = false /\ own_mode md /\ m_eager_zero md = false.
Proof.
  intros I. unfold fast_cache. destruct (t_fast (self E h)) eqn:Ef; [|done]. intros Ht. pose proof (thread_is_ok _ _ _ _ _ _ (e_tid E) I) as T. fold (self E h) in T.
  destruct (to_fast _ _ _ _ T Ef) as [Hl _]. unfold leanEntriesAllowed, cold_of in Hl. apply andb_true_iff in Hl as [Hc Hl]. apply andb_true_iff in Hl as [Hm Hd].
  splits; try done.
  - unfold self, thread in *. destruct (h_threads h !! e_tid E); [done|discriminate Ht].
  - by destruct (rt_cold _).
  - by apply negb_true_iff.
  - unfold fullMallocPath in Hm. repeat (apply andb_true_iff in Hm as [Hm ?]). unfold own_mode. by repeat match goal with H : negb _ = true |- _ => apply negb_true_iff in H end.
  - unfold fullMallocPath in Hm. repeat (apply andb_true_iff in Hm as [Hm ?]). by apply negb_true_iff.
Qed.

Lemma lean_size_small sz : 0 <= sz < 2 ^ 64 -> lean_size sz = true -> 0 < sz <= kMaxSmallSize.
Proof.
  intros Hs. unfold lean_size. intros Hl. b2p. destruct (Z.eq_dec sz 0) as [->|Hne]; [by vm_compute in Hl|]. rewrite wrap_small in Hl by lia. lia.
Qed.

(** Writing back the thread's own variables. *)
Lemma set_thread_same (h : Heap) th : h_threads h !! e_tid E = Some th -> set_thread (e_tid E) th h = h.
Proof. intros Ht. unfold set_thread, set_threads. rewrite (insert_id _ _ _ Ht). by destruct h. Qed.

Lemma route_memo h live tc sc : heap_inv h live -> fast_cache E h = Some tc -> e_hint E <> 0 ->
  let key := memo_key sc (e_hint E) in let m := rd no_memo (t_memo (self E h)) (memo_slot key) in
  m_valid m = true -> m_key m = key -> route_small E sc (appCallerRA E) h = Some (m_base m, h).
Proof.
  intros I Hf Hr key m Hv Hk. destruct (published _ _ _ I Hf) as (_ & Hin & Hc & _). unfold route_small, appCallerRA. rewrite (proj2 (Z.eqb_neq _ 0) Hr).
  unfold callsiteArena. fold key. fold m. rewrite Hv, Hk, Z.eqb_refl. cbn [andb]. unfold cold_route. rewrite Hc. do 2 f_equal.
  transitivity (set_thread (e_tid E) (self E h) h); [|by apply set_thread_same]. unfold set_sites, set_thread, set_threads. cbn. by destruct (self E h).
Qed.

Lemma lean_malloc_full h live sz : heap_inv h live -> 0 <= sz < 2 ^ 64 -> lean_malloc E full_malloc sz h = full_malloc sz h.
Proof.
  intros I Hs. unfold lean_malloc. destruct (fast_cache E h) as [tc|] eqn:Hf; [|done]. destruct (lean_size sz) eqn:Hl; [|done]. pose proof (lean_size_small sz Hs Hl) as Hz.
  destruct (negb (e_hint E =? 0) && _ && _) eqn:Em; [|done]. apply andb_true_iff in Em as [Em Hk]. apply andb_true_iff in Em as [Hr Hv]. apply negb_true_iff in Hr. b2p.
  set (sc := sizeToClass sz) in *. destruct (published _ _ _ I Hf) as (Ht & _ & _ & Hfull & _). pose proof (route_memo h live tc sc I Hf Hr Hv Hk) as Hro.
  set (m := rd no_memo _ _) in *. destruct (tc_allocate tc sc (m_base m)) as [p tc'] eqn:Ea. destruct (default 0 p =? 0) eqn:Ep; [done|].
  unfold malloc. rewrite Hfull, (proj2 (Z.ltb_lt 0 sz)), (proj2 (Z.leb_le sz _)) by lia. cbn [andb]. unfold bind, ask. rewrite Ht. unfold small_path, bind.
  fold sc. rewrite Hro. unfold cache_allocate. rewrite Ht, Ea, Ep. cbn. by rewrite Ep.
Qed.

Lemma page_tag_at h live b tag : heap_inv h live -> b ∈ live -> page_tag_of h (start (h_world h) b) = Some tag -> tag = tag_at (pmap (h_world h)) (start (h_world h) b).
Proof.
  intros I Hb. destruct (owner_facts _ _ _ _ h live b I Hb) as (_ & _ & Hp & _). set (p := start (h_world h) b) in *.
  destruct (hi_store _ _ _ _ _ _ I) as (stash & St & _). destruct (so_vm _ _ _ _ _ _ _ _ St) as (v & batch & lv & ext & P & _).
  pose proof (ai_base _ _ _ (vo_arena _ _ _ _ (po_ok _ _ _ _ _ P))) as Hbase. pose proof (ai_range _ _ _ (vo_arena _ _ _ _ (po_ok _ _ _ _ _ P))) as Hra.
  assert (Hc0 : 0 <= contig_pages_ (arena v) * kPageSize) by (pose proof pg_pos; nia). unfold page_tag_of, tag_at, flat_tag. rewrite (po_vm _ _ _ _ _ P). destruct (flat v) as [[ps [tags|]]|]; try done. case_if; [|done]. intros [= <-]. b2p.
  destruct (Z.le_gt_cases (base_ (arena v)) p) as [Hle|Hgt].
  - rewrite wrap_small in * by lia. unfold inContigArena. rewrite (proj2 (Z.leb_le _ p) Hle), (proj2 (Z.ltb_lt p _)) by lia. cbn [andb].
    unfold kPageSize. by rewrite <- Z.shiftr_div_pow2 by (destruct kPageShift_cases; lia).
  - exfalso. unfold wrap in *. replace ((p - base_ (arena v)) mod 2 ^ 64) with (p - base_ (arena v) + 2 ^ 64) in * by (apply Z.mod_unique with (-1); lia). lia.
Qed.

Context (Htotal : total <= 256).

Lemma small_tag h live o tag : heap_inv h live -> SmallBlock o ∈ live -> page_tag_of h o.1 = Some tag -> let sp := span_at (h_world h) o.2 in
  Z.land tag kPageTagSmall <> 0 /\ Z.land tag 63 = size_class sp /\ u8 (Z.shiftr tag 6) = arena_id sp.
Proof.
  intros I Ho Ht sp. destruct (small_facts _ _ _ _ h live o I Ho) as (_ & Hc & Ha & _ & Et & Hl & Hz & _). rewrite (page_tag_at h live (SmallBlock o) tag I Ho Ht). cbn [start].
  rewrite Et. change kNumClasses with 36 in Hc. apply tag_decodes; [done|done|lia|lia].
Qed.

Lemma large_tag h live a tag : heap_inv h live -> LargeBlock a ∈ live -> page_tag_of h (blk_base (h_world h) a) = Some tag -> tag = 0.
Proof. intros I Ha Ht. rewrite (page_tag_at h live (LargeBlock a) tag I Ha Ht). apply (large_facts _ _ _ _ h live a I Ha). Qed.

Lemma lean_free_full h live b : heap_inv h live -> b ∈ live -> boot_owns (h_boot h) (start (h_world h) b) = false ->
  lean_free E full_free (start (h_world h) b) h = full_free (start (h_world h) b) h.
Proof.
  intros I Hb Hboot. unfold lean_free. destruct (fast_cache E h) as [tc|] eqn:Hf; [|done]. destruct (page_tag_of h _) as [tag|] eqn:Ht; [|done].
  destruct b as [o|a]; cbn [start] in *; [|by rewrite (large_tag h live a tag I Hb Ht)].
  destruct (small_tag h live o tag I Hb Ht) as (H1 & -> & ->). rewrite (proj2 (Z.eqb_neq _ 0) H1). cbn [negb].
  destruct (tc_deallocate _ _ _ _) as [[|] tc'] eqn:Ed; [|done].
  destruct (published _ _ _ I Hf) as (Htc & _ & _ & Hfull & Hd & _). destruct (small_facts _ _ _ _ h live o I Hb) as (_ & _ & _ & Hr & _ & Hl & Hz & _ & Hp).
  unfold free, lookup_span, descriptor, free_to_cache, cache_deallocate, bind, ask. rewrite (proj2 (Z.eqb_neq o.1 0)) by lia. rewrite Hfull, Hd. cbn [negb orb].
  rewrite Hboot, Hr, (proj2 (Z.eqb_neq o.2 0) Hz), Hl, Htc; cbv iota beta; rewrite Htc, Ed. reflexivity.
Qed.

Lemma lean_calloc_full h live n sz : heap_inv h live -> 0 <= n * sz -> lean_calloc E full_malloc full_calloc n sz h = full_calloc n sz h.
Proof.
  intros I Hs. unfold lean_calloc. destruct (fast_cache E h) as [tc|] eqn:Hf; [|done]. destruct (Z.ltb_spec (n * sz) (2 ^ 64)) as [Ho|Ho]; [|done]. cbn [andb].
  destruct (lean_size _) eqn:Hl; [|done]. pose proof (lean_size_small (n * sz) ltac:(lia) Hl) as Hz. destruct (published _ _ _ I Hf) as (_ & _ & _ & _ & _ & (H1 & H2 & H3) & _).
  unfold calloc, bind at 1. rewrite (lean_malloc_full h live) by (done || lia). rewrite H1, H2, (proj2 (Z.leb_gt _ _)) by lia. unfold bind, ask. rewrite H3.
  rewrite (proj2 (Z.ltb_ge kMaxSmallSize _)) by lia. cbn [andb]. destruct (full_malloc _ _) as [[p h1]|]; [|done]. by destruct (p =? 0).
Qed.

Lemma lean_realloc_full h live b sz : maxb < 2 ^ 63 -> 0 <= c_chunk cfg < 2 ^ 32 ->
  heap_inv h (b :: live) -> call_ok page_size E h (b :: live) -> t_compressor (self E h) = false -> 0 <= sz < 2 ^ 64 ->
  lean_realloc E full_malloc full_free full_realloc (start (h_world h) b) sz h = full_realloc (start (h_world h) b) sz h.
Proof.
  intros Hmax Hchunk I Hca Hnc Hs. unfold lean_realloc. destruct (fast_cache E h) as [tc|] eqn:Hf; [|done]. destruct (page_tag_of h _) as [tag|] eqn:Ht; [|done].
  destruct (lean_size sz) eqn:Hl; [|done]. pose proof (lean_size_small sz Hs Hl) as Hz. cbn [andb].
  destruct b as [o|a]; cbn [start] in *; [|by rewrite (large_tag h _ a tag I ltac:(by left) Ht)].
  destruct (small_tag h _ o tag I ltac:(by left) Ht) as (H1 & -> & _). rewrite (proj2 (Z.eqb_neq _ 0) H1). cbn [negb].
  destruct (published _ _ _ I Hf) as (Htc & _ & _ & Hfull & Hd & Hmode & _). pose proof Hmode as (M1 & M2 & M3).
  destruct (small_facts _ _ _ _ h _ o I ltac:(by left)) as (_ & Hc & _ & Hr & _ & Hlg & Hn & _ & Hp). change kNumClasses with 36 in Hc.
  rewrite (wrap_small 8) by lia. unfold realloc, lookup_span, ask, bind at 4. rewrite M1, M2, (proj2 (Z.eqb_neq o.1 0)), (proj2 (Z.eqb_neq sz 0)) by lia.
  unfold bind at 4. rewrite Hr, (proj2 (Z.eqb_neq _ 0) Hn). unfold realloc_own, descriptor, old_size_of, ask. unfold bind at 4. rewrite Hlg. cbn [negb andb].
  destruct ((sz <=? _) && _); [done|]. unfold bind. rewrite (lean_malloc_full h (SmallBlock o :: live)) by done.
  assert (Hsz : 0 <= sz <= (2 ^ 32 - 1) * kPageSize) by (pose proof pg_pos; change kMaxSmallSize with 16384 in Hz; lia).
  destruct (malloc_spec cfg maxb total page_size magazines md sys E Hmax Hchunk h _ sz I Hca Hmode Hnc Hsz) as (p & h1 & -> & [_ A] & _ & Hboot & _).
  destruct (p =? 0); [done|]. destruct A as (c & I1 & _). unfold copy, modify. set (h2 := set_mem _ h1).
  assert (I2 : heap_inv h2 (c :: SmallBlock o :: live)) by (by apply heap_mem).
  pose proof (lean_free_full h2 _ (SmallBlock o) I2 ltac:(set_solver)) as Hlf. cbn [start] in Hlf. rewrite Hlf; [done|]. unfold h2. cbn. destruct (ca_boot _ _ _ _ Hca (SmallBlock o) ltac:(by left)) as [B1 _].
  destruct Hboot as [->|[Hno _]]; [done|congruence].
Qed.
End Lean.
