(* ===== verification/HeapTheorems.v ===== *)
(** * The heap as programs see it (for [Heap.v])

    Correctness of [malloc], [free], [calloc], [realloc] and [memalign] on any
    heap that satisfies the invariant; the invariant from construction through
    every history of calls of any number of threads, thread exits and ticks;
    the lean entry points. *)

From stdpp Require Import functions.
From S2P Require Import Prelude BitOps Config SizeClasses PageState IntrusiveList Bootstrap VmArena VmTrack Span SpanFacts SpanCorrect.
From S2P Require Import VmRegion PageMap Slab SlabFacts SlabOps SlabCorrect SlabBatch ThreadCache ThreadCacheCorrect Drain.
From S2P Require Import LargeCache LargeAlloc LargeCorrect LargeOps SlabFrame HeapStore HeapSteps CallSite Heap HeapInv HeapCorrect HeapHooks HeapLean.

#[local] Abbreviation page_count := Span.page_count.
#[local] Abbreviation Span := Span.Span.

(** ** Construction *)

Section Init.
Context `{PG : PageGeometry} {Sys : Type} (cfg : SlabCfg) (maxb total : Z) (md : Modes).
#[local] Abbreviation heap_inv := (HeapInv.heap_inv (Sys := Sys) cfg maxb total md).

(** The machine's parameters: caps in range, the kernel's reservation usable. *)
Record init_ok (cold : bool) (num_arenas max_slots region_size base : Z) : Prop := {
  io_total : 0 < total <= 256;
  io_maxb : 0 <= maxb;
  io_caps : 0 <= max_slots < 2 ^ 16 /\ match c_cap_fn cfg with Some f => forall a c, 0 <= f a c < 2 ^ 16 | None => True end;
  io_chunk : 0 <= c_chunk cfg < 2 ^ 32;
  io_region : 0 < region_size / kPageSize < 2 ^ 48;
  io_base : 0 < base /\ base mod kPageSize = 0 /\ base + region_size < 2 ^ 64
}.

Lemma init_slab_at cold num_arenas max_slots i : total <= 256 -> 0 <= i < num_slabs total ->
  slab_at (init_slabs total cold num_arenas max_slots) i = slab_init (i mod kNumClasses) (i / kNumClasses) (arena_cap cold num_arenas max_slots (i / kNumClasses)).
Proof.
  intros Ht Hi. unfold num_slabs in Hi. change kNumClasses with 36 in *. unfold slab_at, zget, init_slabs. rewrite (proj2 (Z.leb_le 0 i)) by lia. change kNumClasses with 36.
  rewrite list_lookup_fmap, lookup_seqZ_lt by lia. cbn [fmap option_fmap option_map default]. rewrite Z2Nat.id by lia. cbn [Z.add]. rewrite !wrap_small by dlia. done.
Qed.

Lemma init_region region_size base :
  0 < region_size / kPageSize < 2 ^ 48 -> 0 < base -> base mod kPageSize = 0 -> base + region_size < 2 ^ 64 ->
  exists v, vm_init false region_size (Some base) true true = Some v /\ pm_ok (mkPageMap ∅ (Some v)) v [] [] ∅.
Proof.
  intros Hc Hb Hm He. eexists. split; [done|]. pose proof pg_pos as Hpp. constructor; [done| |by do 2 eexists]. constructor; cbn; try done.
  - assert (Hpos : 0 < kPageSize) by lia. pose proof (Z.mul_div_le region_size kPageSize Hpos). apply arena_init_inv; [done|done|lia|lia].
  - apply wrap_small. unfold kTrackMaxPages. lia.
Qed.

Lemma heap_init_inv cold num_arenas max_slots region_size base v env boot mem sys0 :
  init_ok cold num_arenas max_slots region_size base -> m_compress_only md = false ->
  vm_init false region_size (Some base) true true = Some v ->
  heap_inv (heap_init total md (Some v) env cold num_arenas max_slots boot mem sys0) [].
Proof.
  intros [[T0 T1] Hmb [C1 C2] Hch Hr (B1 & B2 & B3)] Hco Hv. destruct (init_region region_size base Hr B1 B2 B3) as (v' & Hv' & P). rewrite Hv in Hv'. injection Hv' as <-.
  unfold heap_init. rewrite Hco.
  assert (Hat := fun i => init_slab_at cold num_arenas max_slots i T1). set (slabs := init_slabs total cold num_arenas max_slots) in *.
  assert (Hlen : zlen slabs = num_slabs total) by (unfold zlen, slabs, init_slabs, num_slabs; rewrite length_map, length_seqZ, Z2Nat.id; [done|change kNumClasses with 36; lia]).
  assert (Hsp : spans slabs = []).
  { apply elem_of_nil_inv. intros a (i & Hi & Ha)%elem_of_spans. rewrite Hat in Ha by lia. by apply elem_of_nil in Ha. }
  constructor; cbn [h_slabs h_large h_world h_threads h_pool]; [done| |by intros ? ?; rewrite lookup_empty|done].
  exists []. split; [|by unfold all_ptrs; rewrite map_to_list_empty]. constructor; try done; try set_solver.
  - intros i Hi. rewrite Hat by done. destruct (index_range total i Hi) as [H1 H2]. splits; try done; cbn.
    + unfold slab_params_ok, currentCap. cbn. splits; try done; destruct (c_cap_fn cfg); try apply C2; unfold arena_cap; repeat case_if; lia.
    + apply Forall_nil. done.
  - intros i Hi a Ha. rewrite Hat in Ha by done. by apply elem_of_nil in Ha.
  - intros i Hi. rewrite Hat by done. exists (fun _ => ∅). constructor; try done; try set_solver; [constructor|constructor|].
    intros o. unfold obj_ok. cbn. split; [set_solver|]. intros [? _]. set_solver.
  - rewrite Hsp. constructor.
  - by apply cache_init_ok.
  - split; [|set_solver]. cbn [cache_]. rewrite cache_init_contents. set_solver.
  - exists v, [], [], ∅. rewrite Hsp. unfold cached. cbn [cache_]. rewrite cache_init_contents. splits; [done|done|constructor|]. constructor; [constructor|set_solver..].
Qed.
End Init.

(** ** Histories *)

Section History.
Context `{PG : PageGeometry} {Sys : Type} (cfg : SlabCfg) (maxb total page_size : Z) (magazines defer_free : bool) (md : Modes) (sys : System Sys).
#[local] Abbreviation Heap := (Heap Sys).
#[local] Abbreviation heap_inv := (HeapInv.heap_inv (Sys := Sys) cfg maxb total md).

(** The block at [p], from the page map and its descriptor. *)
Definition block_at (w : World) (p : Z) : Block :=
  let a := resolveSpan (pmap w) p in if is_large (span_at w a) then LargeBlock a else SmallBlock (p, a).
Definition grow (h' : Heap) (p : Z) (live : list Block) : list Block := if p =? 0 then live else block_at (h_world h') p :: live.

Lemma block_at_start h live b : heap_inv h live -> b ∈ live -> block_at (h_world h) (start (h_world h) b) = b.
Proof.
  intros I Hb. destruct (owner_facts _ _ _ _ h live b I Hb) as (Hr & _ & _ & _ & Hl). unfold block_at. rewrite Hr, Hl. by destruct b as [[p a]|a].
Qed.

(** Requests the page counts can hold. *)
Definition request (size : Z) : Prop := 0 <= size <= (2 ^ 32 - 1) * kPageSize.
Definition ready (E : Call) (h : Heap) (live : list Block) : Prop := call_ok page_size E h live /\ t_compressor (self E h) = false.

(** One call, thread hook or tick, run from its beginning to its end, or a program's
    write to a block it holds; the label is the block given up or written. *)
Inductive heap_step : option Block -> Heap * list Block -> Heap * list Block -> Prop :=
| st_malloc E size p h h' live : ready E h live -> request size ->
    malloc cfg page_size magazines md sys E size h = Some (p, h') -> heap_step None (h, live) (h', grow h' p live)
| st_memalign E k size p h h' live : ready E h live -> 0 <= k < 62 -> request size ->
    memalign cfg page_size magazines md sys E (2 ^ k) size h = Some (p, h') -> heap_step None (h, live) (h', grow h' p live)
| st_calloc E n size p h h' live : ready E h live -> 0 <= n * size -> 2 ^ 64 <= n * size \/ request (n * size) ->
    calloc cfg page_size magazines md sys E n size h = Some (p, h') -> heap_step None (h, live) (h', grow h' p live)
| st_free E b u h h' live live' : ready E h live -> live ≡ₚ b :: live' ->
    free cfg maxb total page_size magazines defer_free md sys E (start (h_world h) b) h = Some (u, h') -> heap_step (Some b) (h, live) (h', live')
| st_realloc E b size p h h' live live' : ready E h live -> live ≡ₚ b :: live' -> 1 <= size -> request size ->
    realloc cfg maxb total page_size magazines defer_free md sys E (start (h_world h) b) size h = Some (p, h') ->
    heap_step (Some b) (h, live) (h', if p =? 0 then live else block_at (h_world h') p :: live')
| st_realloc_zero E b p h h' live live' : ready E h live -> live ≡ₚ b :: live' ->
    realloc cfg maxb total page_size magazines defer_free md sys E (start (h_world h) b) 0 h = Some (p, h') -> heap_step (Some b) (h, live) (h', live')
| st_threadInit E u h h' live : ready E h live -> threadInit page_size md E h = Some (u, h') -> heap_step None (h, live) (h', live)
| st_threadCleanup E u h h' live : threadCleanup cfg total magazines defer_free md E h = Some (u, h') -> heap_step None (h, live) (h', live)
| st_preTick E u h h' live : oracle_ok (e_large E) -> preTick total E h = Some (u, h') -> heap_step None (h, live) (h', live)
| st_write b x y h live : b ∈ live -> start (h_world h) b <= x < start (h_world h) b + room_of (h_world h) b ->
    heap_step (Some b) (h, live) (set_mem (fun z => if z =? x then y else h_mem h z) h, live).

(** What a step does to a block that it is not about. *)
Definition untouched (h h' : Heap) (b : Block) : Prop :=
  start (h_world h') b = start (h_world h) b /\ room_of (h_world h') b = room_of (h_world h) b /\ held (h_world h') b = held (h_world h) b /\
  forall x, start (h_world h) b <= x < start (h_world h) b + room_of (h_world h) b -> h_mem h' x = h_mem h x.

Context (Hmax : maxb < 2 ^ 63) (Hchunk : 0 <= c_chunk cfg < 2 ^ 32) (Hmode : own_mode md).

Lemma blocks_untouched h h' live b : same_blocks (h_world h) (h_world h') live -> b ∈ live ->
  (forall x, start (h_world h) b <= x < start (h_world h) b + room_of (h_world h) b -> h_mem h' x = h_mem h x) -> untouched h h' b.
Proof. intros Hs Hb Hm. destruct (Hs b Hb) as (H1 & H2 & _ & H3). by split. Qed.

Lemma grown h live size p h' : allocated cfg maxb total md h live size p h' ->
  heap_inv h' (grow h' p live) /\ forall b, b ∈ live -> b ∈ grow h' p live /\ untouched h h' b.
Proof.
  intros [Hb Ha]. unfold grow. destruct (p =? 0).
  - destruct Ha as [I Hm]. split; [done|]. intros b Hbl. split; [done|]. apply (blocks_untouched h h' live); [done|done|]. intros. by rewrite Hm.
  - destruct Ha as (c & I & <- & _ & _ & Hw). rewrite (block_at_start h' _ c I) by (by left). split; [done|]. intros b Hbl. split; [by right|].
    apply (blocks_untouched h h' live); [done|done|]. intros x Hx. apply Hw. destruct (Hb b Hbl) as (E1 & E2 & _).
    pose proof (blocks_disjoint _ _ _ _ h' live c b I Hbl) as Hd. unfold disjoint_iv in Hd. lia.
Qed.

Lemma freed_untouched h live h' : freed cfg maxb total md h live h' -> heap_inv h' live /\ forall b, b ∈ live -> b ∈ live /\ untouched h h' b.
Proof. intros (I & Hb & Hm). split; [done|]. intros b Hbl. split; [done|]. apply (blocks_untouched h h' live); [done|done|]. intros. by rewrite Hm. Qed.

#[local] Instance call_ok_perm E (h : Heap) : Proper (Permutation ==> iff) (call_ok page_size E h).
Proof.
  assert (forall l l', l ≡ₚ l' -> call_ok page_size E h l -> call_ok page_size E h l') as H; [|intros l l' Hp; split; by apply H].
  intros l l' Hp [H1 H2 H3 H4 H5 H6]. constructor; try done; [|intros b Hb; apply H6; by rewrite Hp].
  intros bytes p Hm. destruct (H3 bytes p Hm) as (F1 & F2 & F3 & F4 & F5). splits; try done. intros b Hb. apply F5. unfold larges. by rewrite Hp.
Qed.

Lemma threadInit_spec E h live : heap_inv h live -> ready E h live ->
  exists h', threadInit page_size md E h = Some (tt, h') /\ freed cfg maxb total md h live h' /\ (m_no_hooks md = false -> t_cache (self E h') <> None).
Proof.
  intros I [[_ _ _ O4 O5 _] _]. unfold threadInit. destruct (m_no_hooks md); [by exists h|]. destruct Hmode as (_ & Hco & _). rewrite Hco. unfold bind.
  destruct (getOrCreate_spec cfg maxb total page_size md E h live I O4 O5) as (h1 & -> & I1 & W1 & L1 & M1 & C1 & _). unfold ask.
  assert (Hfr : forall h2, h_slabs h2 = h_slabs h1 -> h_large h2 = h_large h1 -> h_world h2 = h_world h1 -> h_threads h2 = h_threads h1 -> h_pool h2 = h_pool h1 -> h_mem h2 = h_mem h1 ->
    freed cfg maxb total md h live h2 /\ (false = false -> t_cache (self E h2) <> None)).
  { intros h2 E1 E2 E3 E4 E5 E6. split; [|intros _; unfold self, thread in *; by rewrite E4]. destruct I1 as [J1 J2 J3 J4]. unfold freed.
    split; [constructor; rewrite ?E1, ?E2, ?E3, ?E4, ?E5; done|]. rewrite E3, W1, E6, M1. split; [apply same_blocks_refl|done]. }
  case_if; [unfold startCompression, modify|]; (eexists; split; [done|]; apply Hfr); repeat case_if; done.
Qed.

Lemma threadCleanup_step E h live u h' : heap_inv h live -> threadCleanup cfg total magazines defer_free md E h = Some (u, h') -> freed cfg maxb total md h live h'.
Proof.
  intros I. destruct Hmode as (_ & Hco & _). destruct (m_no_hooks md) eqn:Hh.
  - unfold threadCleanup, modify. rewrite Hh. cbn. intros [= _ <-]. split; [done|]. split; [apply same_blocks_refl|done].
  - destruct (threadCleanup_spec cfg maxb total magazines defer_free md E h live I Hh Hco) as (h2 & -> & Hf & _). by intros [= _ <-].
Qed.

Lemma realloc_step h b size p live live' h' : live ≡ₚ b :: live' -> heap_inv h live -> reallocated cfg maxb total md h live' b size p h' ->
  let now := if p =? 0 then live else block_at (h_world h') p :: live' in
  heap_inv h' now /\ forall c, c ∈ live -> c <> b -> c ∈ now /\ untouched h h' c.
Proof.
  intros Hp I Hr now. unfold reallocated in Hr. unfold now. destruct (p =? 0).
  - destruct Hr as (I' & Hb & Hm). rewrite Hp. split; [done|]. intros c Hc _. split; [done|]. apply (blocks_untouched h h' (b :: live')); [done|by rewrite <- Hp|]. intros. by rewrite Hm.
  - destruct Hr as (c & I' & <- & _ & _ & Hb & _ & Hm). rewrite (block_at_start h' _ c I') by (by left). split; [done|]. intros d Hd Hne.
    rewrite Hp in Hd. apply elem_of_cons in Hd as [->|Hd]; [done|]. split; [by right|]. apply (blocks_untouched h h' live'); [done|done|]. intros x Hx. by apply (Hm d).
Qed.

(** [realloc] to size zero is [free]. *)
Lemma realloc_zero E h live live' b : heap_inv h live -> ready E h live -> live ≡ₚ b :: live' ->
  exists h', realloc cfg maxb total page_size magazines defer_free md sys E (start (h_world h) b) 0 h = Some (0, h') /\ freed cfg maxb total md h live' h'.
Proof.
  intros I [Hca Hnc] Hp. rewrite Hp in I. pose proof Hmode as (Hm1 & Hm2 & _). destruct (owner_facts _ _ _ _ h _ b I ltac:(by left)) as (_ & _ & Hs & _).
  destruct (ca_boot _ _ _ _ Hca b ltac:(rewrite Hp; by left)) as [Hboot _].
  destruct (free_spec cfg maxb total page_size magazines defer_free md sys E Hmax Hchunk h live' b I (ca_large _ _ _ _ Hca) (ca_garbage _ _ _ _ Hca) (ca_cache _ _ _ _ Hca) Hmode Hboot) as (h' & Hf & F & _).
  exists h'. split; [|done]. unfold realloc. rewrite Hm1, Hm2, (proj2 (Z.eqb_neq _ 0)) by lia. change (0 =? 0) with true. unfold Heap.bind. by rewrite Hf.
Qed.

Lemma heap_step_inv l s s' : heap_step l s s' -> heap_inv s.1 s.2 ->
  heap_inv s'.1 s'.2 /\ forall b, b ∈ s.2 -> l <> Some b -> b ∈ s'.2 /\ untouched s.1 s'.1 b.
Proof.
  intros Hs. destruct Hs as [E size p h h' live [Hca Hnc] Hr Ho|E k size p h h' live [Hca Hnc] Hk Hr Ho|E n size p h h' live [Hca Hnc] Hn Hr Ho
    |E b u h h' live live' [Hca Hnc] Hp Ho|E b size p h h' live live' [Hca Hnc] Hp Hz Hr Ho|E b p h h' live live' Hrd Hp Ho|E u h h' live Hrd Ho|E u h h' live Ho|E u h h' live Hor Ho|b x y h live Hb Hx]; cbn [fst snd]; intros I.
  - destruct (malloc_spec cfg maxb total page_size magazines md sys E Hmax Hchunk h live size I Hca Hmode Hnc Hr) as (q & h2 & Hq & A & _).
    rewrite Hq in Ho. injection Ho as <- <-. destruct (grown _ _ _ _ _ A) as [J1 J2]. split; [done|]. intros b Hb _. by apply J2.
  - destruct (memalign_spec cfg maxb total page_size magazines md sys E Hmax Hchunk h live k size I Hca Hmode Hnc Hk Hr) as (q & h2 & Hq & A & _).
    rewrite Hq in Ho. injection Ho as <- <-. destruct (grown _ _ _ _ _ A) as [J1 J2]. split; [done|]. intros b Hb _. by apply J2.
  - assert (Hr' : 2 ^ 64 <= n * size \/ n * size <= (2 ^ 32 - 1) * kPageSize) by (destruct Hr as [?|[_ ?]]; [by left|by right]).
    destruct (calloc_spec cfg maxb total page_size magazines md sys E Hmax Hchunk h live n size I Hca Hmode Hnc Hn Hr') as (q & h2 & Hq & A & _).
    rewrite Hq in Ho. injection Ho as <- <-. destruct (grown _ _ _ _ _ A) as [J1 J2]. split; [done|]. intros b Hb _. by apply J2.
  - rewrite Hp in I. destruct (ca_boot _ _ _ _ Hca b ltac:(rewrite Hp; by left)) as [Hboot _].
    destruct (free_spec cfg maxb total page_size magazines defer_free md sys E Hmax Hchunk h live' b I (ca_large _ _ _ _ Hca) (ca_garbage _ _ _ _ Hca) (ca_cache _ _ _ _ Hca) Hmode Hboot) as (h2 & Hq & F & _).
    rewrite Hq in Ho. injection Ho as _ <-. destruct (freed_untouched _ _ _ F) as [J1 J2]. split; [done|]. intros c Hc Hne. apply J2. rewrite Hp in Hc.
    apply elem_of_cons in Hc as [->|Hc]; [congruence|done].
  - pose proof I as I0. rewrite Hp in I0. rewrite Hp in Hca. destruct (realloc_spec cfg maxb total page_size magazines defer_free md sys E Hmax Hchunk h live' b size I0 Hca Hmode Hnc) as (q & h2 & Hq & A);
      [unfold request in Hr; lia|]. rewrite Hq in Ho. injection Ho as <- <-.
    destruct (realloc_step h b size q live live' h2 Hp I A) as [J1 J2]. split; [done|]. intros c Hc Hne. apply J2; [done|congruence].
  - destruct (realloc_zero E h live live' b I Hrd Hp) as (h2 & Hq & F). rewrite Hq in Ho. injection Ho as _ <-. destruct (freed_untouched _ _ _ F) as [J1 J2].
    split; [done|]. intros c Hc Hne. apply J2. rewrite Hp in Hc. apply elem_of_cons in Hc as [->|Hc]; [congruence|done].
  - destruct (threadInit_spec E h live I Hrd) as (h2 & Hq & F & _). rewrite Hq in Ho. injection Ho as _ <-. destruct (freed_untouched _ _ _ F) as [J1 J2]. split; [done|]. intros c Hc _. by apply J2.
  - destruct (freed_untouched _ _ _ (threadCleanup_step E h live u h' I Ho)) as [J1 J2]. split; [done|]. intros c Hc _. by apply J2.
  - destruct (preTick_spec cfg maxb total md E h live I Hor Hmax) as (h2 & Hq & F & _). rewrite Hq in Ho. injection Ho as _ <-.
    destruct (freed_untouched _ _ _ F) as [J1 J2]. split; [done|]. intros c Hc _. by apply J2.
  - split; [by apply heap_mem|]. intros c Hc Hne. split; [done|]. unfold untouched. do 3 (split; [done|]). intros z Hz. cbn. rewrite (proj2 (Z.eqb_neq z x)); [done|]. intros ->.
    assert (Hbc : b <> c) by congruence. apply elem_of_Permutation in Hb as [k Ek]. rewrite Ek in I, Hc. apply elem_of_cons in Hc as [->|Hc]; [done|].
    pose proof (blocks_disjoint _ _ _ _ h k b c I Hc) as Hd. unfold disjoint_iv in Hd. lia.
Qed.

(** Histories whose labels all satisfy [P]. *)
Inductive history (P : option Block -> Prop) (s : Heap * list Block) : Heap * list Block -> Prop :=
| history_start : history P s s
| history_next l s1 s2 : history P s s1 -> P l -> heap_step l s1 s2 -> history P s s2.

Lemma history_inv P s s' : history P s s' -> heap_inv s.1 s.2 -> heap_inv s'.1 s'.2.
Proof. intros H I. induction H as [|l s1 s2 _ IH _ Hs]; [done|]. by apply (heap_step_inv l s1 s2 Hs). Qed.

Lemma history_keeps P s s' b : history P s s' -> (forall l, P l -> l <> Some b) -> heap_inv s.1 s.2 -> b ∈ s.2 -> b ∈ s'.2 /\ untouched s.1 s'.1 b.
Proof.
  intros H HP I Hb. induction H as [|l s1 s2 H IH Hl Hs]; [by split|]. destruct IH as [Hb1 (U1 & U2 & U3 & U4)].
  destruct (proj2 (heap_step_inv l s1 s2 Hs (history_inv _ _ _ H I)) b Hb1 (HP l Hl)) as [Hb2 (V1 & V2 & V3 & V4)]. split; [done|]. unfold untouched in *.
  splits; try congruence. intros x Hx. rewrite V4, U4; [done|done|lia].
Qed.

Lemma heap_blocks h live : heap_inv h live ->
  (forall l1 b l2 c, live = l1 ++ b :: l2 -> c ∈ l1 ++ l2 -> disjoint_iv (start (h_world h) b) (room_of (h_world h) b) (start (h_world h) c) (room_of (h_world h) c)) /\
  forall b, b ∈ live -> 0 < start (h_world h) b /\ start (h_world h) b mod 16 = 0 /\ 0 < room_of (h_world h) b /\ held (h_world h) b <= room_of (h_world h) b.
Proof.
  intros I. split.
  - intros l1 b l2 c -> Hc. rewrite <- Permutation_middle in I. exact (blocks_disjoint _ _ _ _ h (l1 ++ l2) b c I Hc).
  - intros b Hb. destruct (block_facts _ _ _ _ Hchunk h live b I Hb) as [H1 H2]. destruct (owner_facts _ _ _ _ h live b I Hb) as (_ & _ & H3 & _). splits; [lia|done| |done].
    destruct b as [o|a]; cbn [room_of].
    + destruct (small_facts _ _ _ _ h live o I Hb) as (-> & Hc & _). pose proof (class_geometry _ Hc). lia.
    + destruct (large_facts _ _ _ _ h live a I Hb) as (_ & _ & _ & _ & _ & (_ & _ & R & _)). unfold blk_len. pose proof pg_pos. nia.
Qed.

(** The heap as constructed. *)
Definition born (h0 : Heap) : Prop := exists cold num_arenas max_slots region_size base v env boot mem sys0,
  init_ok cfg maxb total cold num_arenas max_slots region_size base /\ vm_init false region_size (Some base) true true = Some v /\
  h0 = heap_init total md (Some v) env cold num_arenas max_slots boot mem sys0.

Lemma born_inv h0 : born h0 -> heap_inv h0 [].
Proof.
  intros (cold & na & ms & rs & base & v & env & boot & mem & sys0 & Hi & Hv & ->). destruct Hmode as (_ & Hco & _).
  by apply (heap_init_inv cfg maxb total md cold na ms rs base).
Qed.


(** C4: in histories of whole calls, each complete before the next one begins, asking for at
    most 2^32 - 1 pages and able to get a thread cache, a block keeps its address, its size
    and every byte through any
    further history in which it is not itself freed, reallocated or written:
    no allocation, release, refill, drain, purge or tick made for other
    blocks moves or overwrites it. *)
Theorem heap_isolation h0 h live b h' live' : born h0 -> history (fun _ => True) (h0, []) (h, live) -> b ∈ live ->
  history (fun l => l <> Some b) (h, live) (h', live') -> b ∈ live' /\ untouched h h' b.
Proof.
  intros Hb Hh Hin Hk. pose proof (history_inv _ _ _ Hh (born_inv h0 Hb)) as I. exact (history_keeps _ _ _ b Hk (fun _ H => H) I Hin).
Qed.

(** An answer to a request of [size] bytes: null with nothing lost, or a new
    block; blocks already held are untouched. *)
Definition served (h : Heap) (live : list Block) (size p : Z) (h' : Heap) : Prop :=
  heap_inv h' (grow h' p live) /\ (forall b, b ∈ live -> b ∈ grow h' p live /\ untouched h h' b) /\
  (p <> 0 -> exists b, grow h' p live = b :: live /\ start (h_world h') b = p /\ size <= held (h_world h') b <= room_of (h_world h') b /\ p mod 16 = 0).

Lemma allocated_served h live size p h' : allocated cfg maxb total md h live size p h' -> served h live size p h'.
Proof.
  intros A. destruct (grown _ _ _ _ _ A) as [H1 H2]. split; [done|]. split; [done|]. intros Hp. destruct A as [_ A]. rewrite (proj2 (Z.eqb_neq p 0) Hp) in A.
  destruct A as (b & I & Hs & Hh & Ha & _). exists b. splits; try done; try lia. unfold grow. rewrite (proj2 (Z.eqb_neq p 0) Hp), <- Hs. by rewrite (block_at_start h' _ b I) by (by left).
Qed.

(** C5: [malloc] and [memalign] always return, in the full mode, for a request of at most
    2^32 - 1 pages and an alignment below 2^62, called by a thread that is not the compressor's and that has a
    thread cache or can get one from the pool or the bootstrap memory.  The answer is null, or a
    block of at least the requested size, aligned to 16 bytes and to the
    requested alignment, that overlaps no block in use; no block in use moves
    or loses a byte. *)
Theorem malloc_correct E h live k size : heap_inv h live -> ready E h live -> request size -> 0 <= k < 62 ->
  (exists p h', malloc cfg page_size magazines md sys E size h = Some (p, h') /\ served h live size p h') /\
  (exists p h', memalign cfg page_size magazines md sys E (2 ^ k) size h = Some (p, h') /\ served h live size p h' /\ p mod 2 ^ k = 0).
Proof.
  intros I [Hca Hnc] Hr Hk. split.
  - destruct (malloc_spec cfg maxb total page_size magazines md sys E Hmax Hchunk h live size I Hca Hmode Hnc Hr) as (p & h' & Hp & A & _). exists p, h'.
    split; [done|by apply allocated_served].
  - destruct (memalign_spec cfg maxb total page_size magazines md sys E Hmax Hchunk h live k size I Hca Hmode Hnc Hk Hr) as (p & h' & Hp & A & Ha). exists p, h'.
    split; [done|]. split; [by apply allocated_served|done].
Qed.

(** C12: [calloc] answers as [malloc] does, under the same conditions, and every byte of the block is zero,
    whether cleared or left to a fresh mapping, when the product of its arguments
    is at most 2^32 - 1 pages; when the product exceeds 64 bits the answer is null.
    (In between, the page count of the large allocator wraps, see
    [large_size_truncated].) *)
Theorem calloc_correct E h live n size : heap_inv h live -> ready E h live -> zero_maps E h -> 0 <= n * size -> 2 ^ 64 <= n * size \/ request (n * size) ->
  exists p h', calloc cfg page_size magazines md sys E n size h = Some (p, h') /\ served h live (n * size) p h' /\
    (2 ^ 64 <= n * size -> p = 0) /\ (p <> 0 -> forall i, 0 <= i < n * size -> h_mem h' (p + i) = 0).
Proof.
  intros I [Hca Hnc] Hz Hn Hr. assert (Hr' : 2 ^ 64 <= n * size \/ n * size <= (2 ^ 32 - 1) * kPageSize) by (destruct Hr as [?|[_ ?]]; [by left|by right]).
  destruct (calloc_spec cfg maxb total page_size magazines md sys E Hmax Hchunk h live n size I Hca Hmode Hnc Hn Hr') as (p & h' & Hp & A & Hq). exists p, h'.
  split; [done|]. split; [by apply allocated_served|]. split; [|intros Hp0; by apply Hq]. intros Hbig. destruct (Z.eq_dec p 0) as [|Hp0]; [done|]. destruct (Hq Hp0). lia.
Qed.

(** C6: [free] of a block in use returns, takes exactly that block back and
    leaves every other block alone. *)
Theorem free_correct E h live live' b : heap_inv h live -> ready E h live -> live ≡ₚ b :: live' ->
  exists h', free cfg maxb total page_size magazines defer_free md sys E (start (h_world h) b) h = Some (tt, h') /\ heap_inv h' live' /\
    forall c, c ∈ live' -> untouched h h' c.
Proof.
  intros I [Hca Hnc] Hp. rewrite Hp in I. destruct (ca_boot _ _ _ _ Hca b ltac:(rewrite Hp; by left)) as [Hboot _].
  destruct (free_spec cfg maxb total page_size magazines defer_free md sys E Hmax Hchunk h live' b I (ca_large _ _ _ _ Hca) (ca_garbage _ _ _ _ Hca) (ca_cache _ _ _ _ Hca) Hmode Hboot)
    as (h' & Hf & F & _). exists h'. split; [done|]. destruct (freed_untouched _ _ _ F) as [J1 J2]. split; [done|]. intros c Hc. by apply J2.
Qed.

(** C7: [realloc] of a block in use, under the conditions of [malloc] (full mode, at most
    2^32 - 1 pages, a thread cache to be had), always returns.  To size zero it frees the
    block and returns null.  To another size it returns null with the block as it was, or
    a block of at least the new size that begins with the bytes of the old
    one, up to the smaller of both sizes.  Other blocks are untouched. *)
Theorem realloc_correct E h live live' b size : heap_inv h live -> ready E h live -> live ≡ₚ b :: live' -> request size ->
  exists p h', realloc cfg maxb total page_size magazines defer_free md sys E (start (h_world h) b) size h = Some (p, h') /\
    (forall c, c ∈ live' -> untouched h h' c) /\
    if size =? 0 then p = 0 /\ heap_inv h' live'
    else if p =? 0 then heap_inv h' live /\ untouched h h' b
    else exists c, heap_inv h' (c :: live') /\ start (h_world h') c = p /\ size <= held (h_world h') c <= room_of (h_world h') c /\ p mod 16 = 0 /\
      forall i, 0 <= i < Z.min (held (h_world h) b) size -> h_mem h' (p + i) = h_mem h (start (h_world h) b + i).
Proof.
  intros I Hrd Hp Hr. destruct (Z.eqb_spec size 0) as [->|H0].
  { destruct (realloc_zero E h live live' b I Hrd Hp) as (h' & Hf & F). destruct (freed_untouched _ _ _ F) as [J1 J2].
    exists 0, h'. split; [done|]. split; [|done]. intros c Hc. by apply J2. }
  destruct Hrd as [Hca Hnc]. pose proof I as I0. rewrite Hp in I0. rewrite Hp in Hca.
  destruct (realloc_spec cfg maxb total page_size magazines defer_free md sys E Hmax Hchunk h live' b size I0 Hca Hmode Hnc) as (p & h' & Hf & A); [unfold request in Hr; lia|].
  exists p, h'. split; [done|]. unfold reallocated in A. destruct (p =? 0).
  - destruct A as (I' & Hb & Hm). assert (Hu : forall c, c ∈ b :: live' -> untouched h h' c).
    { intros c Hc. apply (blocks_untouched h h' (b :: live')); [done|done|]. intros. by rewrite Hm. }
    split; [intros c Hc; apply Hu; by right|]. split; [by rewrite Hp|apply Hu; by left].
  - destruct A as (c & I' & Hs & Hh & Ha & Hb & Hc & Hm). split; [|by exists c]. intros d Hd. apply (blocks_untouched h h' live'); [done|done|]. intros x Hx. by apply (Hm d).
Qed.

(** C11: the lean entry points that serve the common calls from the thread's
    cache, without locks and without reading a descriptor, give exactly the
    result and the state of the full [malloc], [free], [calloc] and [realloc]
    they stand for. *)
Theorem lean_entries_full E h live live' b n size : heap_inv h live -> ready E h live -> live ≡ₚ b :: live' -> total <= 256 -> 0 <= size < 2 ^ 64 -> 0 <= n * size ->
  let full_malloc := malloc cfg page_size magazines md sys E in
  let full_free := free cfg maxb total page_size magazines defer_free md sys E in
  let full_calloc := calloc cfg page_size magazines md sys E in
  let full_realloc := realloc cfg maxb total page_size magazines defer_free md sys E in
  let p := start (h_world h) b in
  lean_malloc E full_malloc size h = full_malloc size h /\ lean_free E full_free p h = full_free p h /\
  lean_calloc E full_malloc full_calloc n size h = full_calloc n size h /\
  lean_realloc E full_malloc full_free full_realloc p size h = full_realloc p size h.
Proof.
  intros I [Hca Hnc] Hp Ht Hs Hn. cbv zeta. pose proof I as I0. rewrite Hp in I0. rewrite Hp in Hca. destruct (ca_boot _ _ _ _ Hca b ltac:(by left)) as [Hboot _]. split; [|split; [|split]].
  - by apply (lean_malloc_full cfg maxb total page_size magazines md sys E h live).
  - by apply (lean_free_full cfg maxb total page_size magazines defer_free md sys E Ht h (b :: live') b I0 ltac:(by left)).
  - by apply (lean_calloc_full cfg maxb total page_size magazines md sys E h live).
  - by apply (lean_realloc_full cfg maxb total page_size magazines defer_free md sys E Ht h live').
Qed.

(** When a thread ends every object in its cache goes back to its slab
    and its cache, emptied, to the pool; other threads' caches and every
    block in use stay as they are. *)
Lemma thread_exit_returns_all E h live tc : heap_inv h live -> m_no_hooks md = false -> t_cache (self E h) = Some tc ->
  exists tc' h', threadCleanup cfg total magazines defer_free md E h = Some (tt, h') /\ heap_inv h' live /\ (forall b, b ∈ live -> untouched h h' b) /\
    t_cache (self E h') = None /\ h_pool h' = tc' :: h_pool h /\ cache_ptrs tc' = [] /\
    all_ptrs (h_threads h) ≡ₚ cache_ptrs tc ++ all_ptrs (h_threads h').
Proof.
  intros I Hh Htc. destruct Hmode as (_ & Hco & _). destruct (threadCleanup_spec cfg maxb total magazines defer_free md E h live I Hh Hco) as (h' & Hf & F & Hc & _ & Ht & Hpool).
  destruct (Hpool ltac:(by rewrite Htc)) as (tc' & Ep & Hemp). destruct (freed_untouched _ _ _ F) as [J1 J2]. exists tc', h'. splits; try done; [intros b Hb; by apply J2|].
  rewrite Ht, all_ptrs_insert, (all_ptrs_delete _ (e_tid E)). fold (thread h (e_tid E)). fold (self E h). unfold thread_ptrs. by rewrite Htc.
Qed.

(** A compressor thread that has a thread cache, as it has after freeing
    one object of the heap, gets small blocks from the heap and not from the
    system allocator. *)
Lemma compressor_thread_on_heap E h live size p h1 : heap_inv h live -> (forall n, oracle_ok (e_slab E n)) -> fullMallocPath md = true ->
  t_compressor (self E h) = true -> t_cache (self E h) <> None -> 1 <= size <= kMaxSmallSize ->
  small_path cfg magazines E (sizeToClass size) (appCallerRA E) h = Some (p, h1) -> p <> 0 ->
  malloc cfg page_size magazines md sys E size h = Some (p, h1) /\ exists b, heap_inv h1 (b :: live) /\ start (h_world h1) b = p /\ size <= room_of (h_world h1) b.
Proof.
  intros I Ho Hf Hc Ht Hs Hp Hn. destruct (class_fits size Hs) as [Hsc Hfit].
  destruct (small_path_spec cfg maxb total magazines md E h live (sizeToClass size) (appCallerRA E) I Ho Ht Hsc) as (q & h2 & Hq & _ & [_ G] & _). rewrite Hq in Hp. injection Hp as -> ->.
  split.
  - unfold malloc, bind, ask. rewrite Hf, (proj2 (Z.ltb_lt 0 size)), (proj2 (Z.leb_le size _)) by lia. cbn [andb]. destruct (t_cache (self E h)); [|done].
    by rewrite Hq, (proj2 (Z.eqb_neq p 0) Hn).
  - rewrite (proj2 (Z.eqb_neq p 0) Hn) in G. destruct G as (b & I1 & Hb & Hr & _). exists b. splits; try done. lia.
Qed.
End History.

(** ** Witnesses *)

Section HeapWitness.
#[local] Existing Instance pages4K.

Definition demo_modes : Modes := mkModes false false false 0 false false false false true.
Definition no_system : System unit :=
  mkSystem unit (mkFns false false false false false false) (fun _ m y => (0, m, y)) (fun _ m y => (m, y)) (fun _ _ m y => (0, m, y))
    (fun _ _ m y => (0, m, y)) (fun _ _ m y => (None, m, y)) (fun _ _ => 0).
Definition demo_garbage : list (list Z) := replicate (Z.to_nat num_lanes) (replicate (Z.to_nat kPerLaneDepth) 0).
Definition demo_call (large : Oracle) : Call :=
  mkCall 1 (fun _ => demo_oracle) large (fun _ => true) false 1000 2000 3 (mkLoader [] [] true (fun _ => 0)) (fun _ => None) demo_garbage.
Definition demo_region : VmRegion := mkRegionVm false (100 + kTrackMaxPages) (arena_init 4194304 100) track_init (Some (mkFlat ∅ (Some ∅))) (Some (4194304, 409600)).
Definition demo_heap : Heap unit := heap_init 1 demo_modes (Some demo_region) demo_env false 1 0 (boot_init (Some (2 ^ 45))) (fun _ => 0) tt.

#[local] Abbreviation demo_inv := (HeapInv.heap_inv (Sys := unit) demo_cfg kMaxBytesDefault 1 demo_modes).
#[local] Abbreviation demo_born := (born (Sys := unit) demo_cfg kMaxBytesDefault 1 demo_modes).
#[local] Abbreviation demo_history := (history demo_cfg kMaxBytesDefault 1 4096 false true demo_modes no_system).

Lemma demo_own_mode : own_mode demo_modes.
Proof. done. Qed.

Lemma demo_max : kMaxBytesDefault < 2 ^ 63.
Proof. done. Qed.

Lemma demo_chunk : 0 <= c_chunk demo_cfg < 2 ^ 32.
Proof. done. Qed.

Lemma demo_heap_born : demo_born demo_heap.
Proof.
  exists false, 1, 0, 409600, 4194304, demo_region, demo_env, (boot_init (Some (2 ^ 45))), (fun _ => 0), tt. split; [|done].
  constructor; done.
Qed.

Lemma demo_cache_available large h : h_boot h = h_boot demo_heap -> cache_available 4096 (demo_call large) (h : Heap unit).
Proof. intros Hb. right. right. rewrite Hb. eexists. vm_compute. reflexivity. Qed.

Lemma demo_ready : ready 4096 (demo_call map_oracle) demo_heap [].
Proof.
  split; [|done]. constructor; [by intros; apply demo_oracle_ok|apply map_oracle_ok| |apply tc_demo_ok|by apply demo_cache_available|set_solver].
  intros bytes p. cbn. case_if; [|done]. intros [= <-]. splits; [done|done|b2p; lia| |unfold cached, larges; cbn; rewrite cache_init_contents; set_solver].
  intros v [= <-]. unfold off_arena, disjoint_iv. right. by vm_compute.
Qed.

(** A heap with one block in use. *)
Definition demo_heap1 : Heap unit :=
  match memalign demo_cfg 4096 false demo_modes no_system (demo_call map_oracle) (2 ^ 16) 100000 demo_heap with Some (_, h) => h | None => demo_heap end.

Lemma demo_memalign : memalign demo_cfg 4096 false demo_modes no_system (demo_call map_oracle) (2 ^ 16) 100000 demo_heap = Some (2 ^ 40, demo_heap1).
Proof.
  unfold demo_heap1. destruct (memalign _ _ _ _ _ _ _ _ _) as [[p h]|] eqn:Em.
  - assert (option_map fst (memalign demo_cfg 4096 false demo_modes no_system (demo_call map_oracle) (2 ^ 16) 100000 demo_heap) = Some (2 ^ 40)) as Hp by (vm_compute; reflexivity).
    rewrite Em in Hp. cbn in Hp. by injection Hp as ->.
  - assert (option_map fst (memalign demo_cfg 4096 false demo_modes no_system (demo_call map_oracle) (2 ^ 16) 100000 demo_heap) = Some (2 ^ 40)) as Hp by (vm_compute; reflexivity).
    by rewrite Em in Hp.
Qed.

Definition demo_block : Block := block_at (h_world demo_heap1) (2 ^ 40).

Lemma demo_request size : 0 <= size <= 1000000 -> request size.
Proof. intros H. unfold request. change kPageSize with 4096. lia. Qed.

Lemma demo_step : heap_step demo_cfg kMaxBytesDefault 1 4096 false true demo_modes no_system None (demo_heap, []) (demo_heap1, [demo_block]).
Proof. exact (st_memalign demo_cfg kMaxBytesDefault 1 4096 false true demo_modes no_system _ 16 100000 (2 ^ 40) demo_heap demo_heap1 [] demo_ready ltac:(done) (demo_request 100000 ltac:(done)) demo_memalign). Qed.

Lemma demo_inv1 : demo_inv demo_heap1 [demo_block].
Proof.
  exact (proj1 (heap_step_inv demo_cfg kMaxBytesDefault 1 4096 false true demo_modes no_system demo_max demo_chunk demo_own_mode None _ _ demo_step
    (born_inv demo_cfg kMaxBytesDefault 1 demo_modes demo_own_mode demo_heap demo_heap_born))).
Qed.

Lemma demo_ready1 : ready 4096 (demo_call demo_oracle) demo_heap1 [demo_block].
Proof.
  split; [|vm_compute; reflexivity]. constructor; [by intros; apply demo_oracle_ok|apply demo_oracle_ok|by intros bytes p [=]|apply tc_demo_ok| |].
  - apply demo_cache_available. vm_compute. reflexivity.
  - intros b ->%list_elem_of_singleton. split; vm_compute; reflexivity.
Qed.

Lemma demo_past : demo_history (fun _ => True) (demo_heap, []) (demo_heap1, [demo_block]).
Proof. exact (history_next _ _ _ _ _ _ _ _ _ _ _ _ _ (history_start _ _ _ _ _ _ _ _ _ _) I demo_step). Qed.


Lemma demo_tick : exists h', demo_history (fun l => l <> Some demo_block) (demo_heap1, [demo_block]) (h', [demo_block]).
Proof.
  destruct (preTick_spec demo_cfg kMaxBytesDefault 1 demo_modes (demo_call demo_oracle) demo_heap1 _ demo_inv1 demo_oracle_ok demo_max) as (h' & Ht & _).
  exists h'. eapply history_next; [apply history_start| |]; [|eapply st_preTick; [|exact Ht]; apply demo_oracle_ok]. done.
Qed.

Lemma heap_isolation_witness : exists h', untouched demo_heap1 h' demo_block.
Proof.
  destruct demo_tick as [h' Hh]. exists h'.
  exact (proj2 (heap_isolation demo_cfg kMaxBytesDefault 1 4096 false true demo_modes no_system demo_max demo_chunk demo_own_mode demo_heap demo_heap1 [demo_block] demo_block h' [demo_block]
    demo_heap_born demo_past (proj2 (list_elem_of_singleton _ _) eq_refl) Hh)).
Defined.

Lemma malloc_correct_witness : exists p h', malloc demo_cfg 4096 false demo_modes no_system (demo_call map_oracle) 100 demo_heap = Some (p, h') /\
  served demo_cfg kMaxBytesDefault 1 demo_modes demo_heap [] 100 p h'.
Proof.
  exact (proj1 (malloc_correct demo_cfg kMaxBytesDefault 1 4096 false demo_modes no_system demo_max demo_chunk demo_own_mode (demo_call map_oracle) demo_heap [] 16 100
    (born_inv demo_cfg kMaxBytesDefault 1 demo_modes demo_own_mode demo_heap demo_heap_born) demo_ready (demo_request 100 ltac:(done)) ltac:(done))).
Defined.

Lemma calloc_correct_witness : exists p h', calloc demo_cfg 4096 false demo_modes no_system (demo_call map_oracle) 10 100 demo_heap = Some (p, h') /\
  served demo_cfg kMaxBytesDefault 1 demo_modes demo_heap [] 1000 p h'.
Proof.
  destruct (calloc_correct demo_cfg kMaxBytesDefault 1 4096 false demo_modes no_system demo_max demo_chunk demo_own_mode (demo_call map_oracle) demo_heap [] 10 100
    (born_inv demo_cfg kMaxBytesDefault 1 demo_modes demo_own_mode demo_heap demo_heap_born) demo_ready (fun _ _ _ _ _ => eq_refl) ltac:(done) (or_intror (demo_request 1000 ltac:(done))))
    as (p & h' & H1 & H2 & _). exists p, h'. split; [exact H1|exact H2].
Defined.

Lemma free_correct_witness : exists h', free demo_cfg kMaxBytesDefault 1 4096 false true demo_modes no_system (demo_call demo_oracle) (start (h_world demo_heap1) demo_block) demo_heap1 = Some (tt, h') /\
  demo_inv h' [].
Proof.
  destruct (free_correct demo_cfg kMaxBytesDefault 1 4096 false true demo_modes no_system demo_max demo_chunk demo_own_mode (demo_call demo_oracle) demo_heap1 [demo_block] [] demo_block
    demo_inv1 demo_ready1 (Permutation_refl _)) as (h' & H1 & H2 & _). exists h'. split; [exact H1|exact H2].
Defined.

Lemma realloc_correct_witness : exists p h', realloc demo_cfg kMaxBytesDefault 1 4096 false true demo_modes no_system (demo_call demo_oracle) (start (h_world demo_heap1) demo_block) 50 demo_heap1 = Some (p, h').
Proof.
  destruct (realloc_correct demo_cfg kMaxBytesDefault 1 4096 false true demo_modes no_system demo_max demo_chunk demo_own_mode (demo_call demo_oracle) demo_heap1 [demo_block] [] demo_block 50
    demo_inv1 demo_ready1 (Permutation_refl _) (demo_request 50 ltac:(done))) as (p & h' & H1 & _). exists p, h'. exact H1.
Defined.

Lemma lean_entries_full_witness :
  lean_malloc (demo_call demo_oracle) (malloc demo_cfg 4096 false demo_modes no_system (demo_call demo_oracle)) 100 demo_heap1 =
  malloc demo_cfg 4096 false demo_modes no_system (demo_call demo_oracle) 100 demo_heap1.
Proof.
  exact (proj1 (lean_entries_full demo_cfg kMaxBytesDefault 1 4096 false true demo_modes no_system demo_max demo_chunk (demo_call demo_oracle) demo_heap1 [demo_block] [] demo_block 2 100
    demo_inv1 demo_ready1 (Permutation_refl _) ltac:(done) ltac:(done) ltac:(done))).
Defined.

(** A thread's first call gives it a cache. *)
Lemma demo_threaded : exists h tc, demo_inv h [] /\ t_cache (self (demo_call map_oracle) h) = Some tc.
Proof.
  destruct (threadInit_spec demo_cfg kMaxBytesDefault 1 4096 demo_modes demo_own_mode (demo_call map_oracle) demo_heap []
    (born_inv demo_cfg kMaxBytesDefault 1 demo_modes demo_own_mode demo_heap demo_heap_born) demo_ready) as (h' & _ & (I & _) & Hc).
  specialize (Hc eq_refl). destruct (t_cache (self (demo_call map_oracle) h')) as [tc|] eqn:Et; [|done]. by exists h', tc.
Qed.

(** A compressor thread with an empty cache. *)
Definition demo_heap2 : Heap unit :=
  set_threads {[ 1 := mkThread (Some (tc_init demo_garbage)) false true ∅ (mkRoute 0 None None None None) ]} [] (h_boot demo_heap) demo_heap.

Lemma demo_fresh : cache_ptrs (tc_init demo_garbage) = [].
Proof. apply zero_counts_ptrs. Qed.

Lemma demo_inv2 : demo_inv demo_heap2 [].
Proof.
  apply (heap_thread demo_cfg kMaxBytesDefault 1 demo_modes demo_heap [] 1); [exact (born_inv demo_cfg kMaxBytesDefault 1 demo_modes demo_own_mode demo_heap demo_heap_born)| | |constructor].
  - constructor; [split; [split|]; done|intros slot; cbn [t_memo]; unfold rd; rewrite lookup_empty; cbn; lia|discriminate|intros x [= <-]; apply tc_demo_ok|].
    intros x i p [= <-] Hi Hp. rewrite (proj1 (empty_cache_ptrs _) demo_fresh i Hi) in Hp. by apply elem_of_nil in Hp.
  - unfold thread_ptrs. cbn [t_cache]. rewrite demo_fresh. reflexivity.
Qed.
End HeapWitness.
