(* ===== verification/BlobStore.v ===== *)
(** * Blob regions (src/compress/compress_store.h, src/compress/spill_store.h)

    Both stores keep compressed blobs in 16 MiB regions.  A region is carved by
    a bump offset; a released slot goes on a free list whose nodes are written
    into the freed slots themselves.  The two classes have the same allocation
    code over different backing memory; it is defined here once, with the first
    usable offset of a region as an argument, and instantiated in
    [CompressStore.v] and [SpillStore.v].

    Memory is a map from addresses to bytes.  The region header, which
    [CompressStore] keeps in the first bytes of the region and [SpillStore] in a
    separate array, is a record.  All of this runs under the shard's lock, where
    the compare-and-swap on the offset succeeds. *)

From S2P Require Import Prelude BitOps Config VmArena.

(** ** Memory *)

Abbreviation Mem := (gmap Z Z).

Definition rd32 (m : Mem) (a : Z) : Z :=
  rd 0 m a + 256 * rd 0 m (a + 1) + 65536 * rd 0 m (a + 2) + 16777216 * rd 0 m (a + 3).
Definition wr32 (m : Mem) (a x : Z) : Mem :=
  <[a := x mod 256]> (<[a + 1 := x / 256 mod 256]> (<[a + 2 := x / 65536 mod 256]>
    (<[a + 3 := x / 16777216 mod 256]> m))).

Fixpoint write_bytes (m : Mem) (a : Z) (data : list Z) : Mem :=
  match data with
  | [] => m
  | b :: data => write_bytes (<[a := b]> m) (a + 1) data
  end.
Fixpoint read_bytes (m : Mem) (a : Z) (n : nat) : list Z :=
  match n with
  | O => []
  | S n => rd 0 m a :: read_bytes m (a + 1) n
  end.

(** Pages given back read as zero. *)
Definition wipe (m : Mem) (a len : Z) : Mem := filter (fun x => ~ (a <= x.1 < a + len)) m.

(* src/compress/compress_store.h:78-78 CompressStore::kRegionSize *)
Definition kRegionSize : Z := 16 * 1024 * 1024.

(** sizeof(FreeNode) *)
(* src/compress/compress_store.h:60-64 CompressStore::FreeNode *)
Definition kFreeNode : Z := 8.

(* include/smash/config.h:585-589 kCompressStoreShards *)
Definition kCompressStoreShards : Z := 8.

(* src/compress/compress_store.h:67-75 CompressStore::Region *)
Record Region := mkReg { offset : Z; live_bytes : Z; free_head : Z }.

Definition with_head (r : Region) (h : Z) : Region := mkReg (offset r) (live_bytes r) h.
Definition add_live (r : Region) (n : Z) : Region := mkReg (offset r) (u64 (live_bytes r + n)) (free_head r).

(** Regions by base address, the chain of regions of each shard (newest
    first), and memory. *)
(* src/compress/compress_store.h:80-86 CompressStore::Shard *)
Record Regions := mkRegs { regs : gmap Z Region; chains : list (list Z); memory : Mem }.

Definition no_region : Region := mkReg 0 0 0.
Definition reg_at (s : Regions) (b : Z) : Region := default no_region (regs s !! b).
Definition put_reg (s : Regions) (b : Z) (r : Region) (m : Mem) : Regions :=
  mkRegs (<[b := r]> (regs s)) (chains s) m.

(** ** Allocation *)

Section Regions.
Context (kDataStart : Z).

(** [free_head = off] or [prev->next_offset = off] *)
Definition link_next (base prev off : Z) (r : Region) (m : Mem) : Region * Mem :=
  if prev =? 0 then (with_head r off, m) else (r, wr32 m (base + prev + 4) off).

(** The walk along the free list; [fuel] bounds the nodes visited.  The result
    is the slot's offset and size. *)
(* src/compress/compress_store.h:155-204 CompressStore::tryFreeList *)
Fixpoint free_loop (fuel : nat) (base : Z) (r : Region) (m : Mem) (requested prev_off cur_off : Z)
    : option (Z * Z * Region * Mem) :=
  match fuel with
  | O => None
  | S fuel =>
    if cur_off =? 0 then None
    else
      let slot_size := rd32 m (base + cur_off) in
      let next_off := rd32 m (base + cur_off + 4) in
      if requested <=? slot_size then
        let remainder := slot_size - requested in
        if kFreeNode <=? remainder then
          let rem_off := u32 (cur_off + u32 requested) in
          let m := wr32 m (base + rem_off) (u32 remainder) in
          let m := wr32 m (base + rem_off + 4) next_off in
          let '(r, m) := link_next base prev_off rem_off r m in
          Some (cur_off, u32 requested, add_live r requested, m)
        else
          let '(r, m) := link_next base prev_off next_off r m in
          Some (cur_off, slot_size, add_live r slot_size, m)
      else free_loop fuel base r m requested cur_off next_off
  end.

(** There are at most [offset / 16] slots in the region. *)
(* src/compress/compress_store.h:153-205 CompressStore::tryFreeList *)
Definition tryFreeList (base : Z) (r : Region) (m : Mem) (requested : Z) : option (Z * Z * Region * Mem) :=
  if free_head r =? 0 then None
  else free_loop (Z.to_nat (offset r / 16)) base r m requested 0 (free_head r).

(** The slot at the bump offset, if it fits. *)
Definition bump (r : Region) (size : Z) : option (Z * Region) :=
  let aligned := Z.land (u64 (offset r + 15)) (u64 (Z.lnot 15)) in
  if u64 (aligned + size) <=? kRegionSize
  then Some (aligned, mkReg (u64 (aligned + size)) (u64 (live_bytes r + size)) (free_head r))
  else None.

(** Older regions, for a free slot or a region that was reset. *)
(* src/compress/compress_store.h:230-249 CompressStore::bumpAlloc *)
Fixpoint scan_older (s : Regions) (older : list Z) (size : Z) : option (Z * Z * Regions) :=
  match older with
  | [] => None
  | b :: older =>
    let r := reg_at s b in
    let from_free := if negb (free_head r =? 0) then tryFreeList b r (memory s) size else None in
    match from_free with
    | Some (off, n, r, m) => Some (b + off, n, put_reg s b r m)
    | None =>
      if (live_bytes r =? 0) && (offset r =? kDataStart) then
        match bump r size with
        | Some (off, r) => Some (b + off, size, put_reg s b r (memory s))
        | None => scan_older s older size
        end
      else scan_older s older size
    end
  end.

(** A slot in the regions there are. *)
(* src/compress/compress_store.h:213-251 CompressStore::bumpAlloc *)
Definition carve (s : Regions) (shard size : Z) : option (Z * Z * Regions) :=
  match zget [] (chains s) shard with
  | [] => None
  | b :: older =>
    let r := reg_at s b in
    match tryFreeList b r (memory s) size with
    | Some (off, n, r, m) => Some (b + off, n, put_reg s b r m)
    | None =>
      match bump r size with
      | Some (off, r) => Some (b + off, size, put_reg s b r (memory s))
      | None => scan_older s older size
      end
    end
  end.

(** A new region [b] at the head of the shard's chain. *)
Definition push_region (s : Regions) (shard b : Z) : Regions :=
  mkRegs (<[b := mkReg kDataStart 0 0]> (regs s)) (zset (chains s) shard (b :: zget [] (chains s) shard)) (memory s).

(** The first slot of a region just made. *)
(* src/compress/compress_store.h:253-262 CompressStore::bumpAlloc *)
Definition first_slot (s : Regions) (shard b size : Z) : Z * Z * Regions :=
  let s := push_region s shard b in
  let aligned := Z.land (u64 (kDataStart + 15)) (u64 (Z.lnot 15)) in
  (b + aligned, size, put_reg s b (mkReg (u64 (aligned + size)) size 0) (memory s)).

(** [aligned_size] in [store] *)
(* src/compress/compress_store.h:294-298 CompressStore::store *)
Definition slot_size_for (size : Z) : Z :=
  let a := Z.land (u64 (size + 15)) (u64 (Z.lnot 15)) in
  if a <? kFreeNode then kFreeNode else a.

(** [resetRegion] gives back the bytes from [wipe_from] on. *)
(* src/compress/compress_store.h:321-348 CompressStore::release *)
Definition release_slot (wipe_from : Z) (s : Regions) (b ptr alloc_size : Z) : Regions :=
  let r := reg_at s b in
  let prev := live_bytes r in
  let live := u64 (prev - alloc_size) in
  if prev <=? alloc_size then
    put_reg s b (mkReg kDataStart live 0)
      (if wipe_from <? kRegionSize then wipe (memory s) (b + wipe_from) (kRegionSize - wipe_from) else memory s)
  else
    let off := u32 (ptr - b) in
    let m := wr32 (memory s) ptr (u32 alloc_size) in
    let m := wr32 m (ptr + 4) (free_head r) in
    put_reg s b (mkReg (offset r) live off) m.
End Regions.
