(* ===== verification/BlobFacts.v ===== *)
(** * Region invariant of the blob stores (for [BlobStore.v])

    Free and live slots tile the used part of a region; the free list links
    exactly the free slots; the live counter is the size of the live ones. *)

From S2P Require Import Prelude BitOps Config VmArena BlobStore.

(** ** Memory *)

Lemma rd_wr32_out m a x b : b < a \/ a + 4 <= b -> rd 0 (wr32 m a x) b = rd 0 m b.
Proof. intros H. unfold wr32. by rewrite !rd_insert_ne by lia. Qed.

Lemma rd32_wr32 m a x : 0 <= x < 2 ^ 32 -> rd32 (wr32 m a x) a = x.
Proof.
  intros Hx. unfold rd32, wr32. rewrite !rd_insert, !Z.eqb_refl. repeat case_if; try lia. dlia.
Qed.

Lemma rd32_same m m' a : (forall i, 0 <= i < 4 -> rd 0 m' (a + i) = rd 0 m (a + i)) -> rd32 m' a = rd32 m a.
Proof.
  intros H. unfold rd32. rewrite <- !(H 1), <- !(H 2), <- !(H 3) by lia. specialize (H 0 ltac:(lia)). rewrite Z.add_0_r in H. by rewrite H.
Qed.

Lemma rd32_wr32_out m a x b : b + 4 <= a \/ a + 4 <= b -> rd32 (wr32 m a x) b = rd32 m b.
Proof. intros H. apply rd32_same. intros i Hi. apply rd_wr32_out. lia. Qed.

Lemma rd_write_out m a data b : b < a \/ a + zlen data <= b -> rd 0 (write_bytes m a data) b = rd 0 m b.
Proof.
  revert m a. induction data as [|x data IH]; intros m a H; [done|]. rewrite zlen_cons in H. pose proof (zlen_nonneg data).
  cbn [write_bytes]. rewrite IH by lia. by rewrite rd_insert_ne by lia.
Qed.

Lemma read_same m m' a n :
  (forall i, 0 <= i < Z.of_nat n -> rd 0 m' (a + i) = rd 0 m (a + i)) -> read_bytes m' a n = read_bytes m a n.
Proof.
  revert a. induction n as [|n IH]; intros a H; [done|]. cbn [read_bytes]. f_equal.
  - specialize (H 0 ltac:(lia)). by rewrite Z.add_0_r in H.
  - apply IH. intros i Hi. rewrite <- !Z.add_assoc. apply H. lia.
Qed.

Lemma read_write m a data : read_bytes (write_bytes m a data) a (length data) = data.
Proof.
  revert m a. induction data as [|x data IH]; intros m a; [done|]. cbn [read_bytes write_bytes length]. f_equal; [|apply IH].
  rewrite rd_write_out by lia. by rewrite rd_insert_eq.
Qed.

Lemma rd_wipe_out m a len b : b < a \/ a + len <= b -> rd 0 (wipe m a len) b = rd 0 m b.
Proof.
  intros H. unfold rd, wipe. destruct (filter _ m !! b) as [x|] eqn:E.
  - apply map_lookup_filter_Some in E as [-> _]. done.
  - destruct (m !! b) as [x|] eqn:Em; [|done]. exfalso. rewrite map_lookup_filter_None in E.
    destruct E as [E|E]; [congruence|]. apply (E x Em). cbn. lia.
Qed.

(** ** Free-list segments *)

(** From offset [h], the nodes of [l] lead to offset [t]. *)
Fixpoint seg (m : Mem) (base h : Z) (l : list FreeRun) (t : Z) : Prop :=
  match l with
  | [] => h = t
  | x :: l => h = page_index x /\ rd32 m (base + h) = page_count x /\ seg m base (rd32 m (base + h + 4)) l t
  end.

Lemma seg_app m base h l k t : seg m base h (l ++ k) t <-> exists u, seg m base h l u /\ seg m base u k t.
Proof.
  revert h. induction l as [|x l IH]; intros h; cbn [app seg]; [naive_solver|]. rewrite IH. naive_solver.
Qed.

(** Only the eight bytes of each node matter. *)
Lemma seg_frame m m' base h l t :
  (forall x i, x ∈ l -> 0 <= i < 8 -> rd 0 m' (base + page_index x + i) = rd 0 m (base + page_index x + i)) ->
  seg m base h l t -> seg m' base h l t.
Proof.
  revert h. induction l as [|x l IH]; intros h H; [done|]. cbn [seg]. intros (-> & Hs & Hn).
  assert (E1 : rd32 m' (base + page_index x) = rd32 m (base + page_index x)) by (apply rd32_same; intros i Hi; apply H; [by left|lia]).
  assert (E2 : rd32 m' (base + page_index x + 4) = rd32 m (base + page_index x + 4)).
  { apply rd32_same. intros i Hi. rewrite <- !Z.add_assoc, !(Z.add_assoc base). apply H; [by left|lia]. }
  rewrite E1, E2. splits; [done|done|]. apply IH; [|done]. intros y i Hy. apply H. by right.
Qed.

(** ** The region *)

Definition slot_ok (x : FreeRun) : Prop := page_index x mod 16 = 0 /\ page_count x mod 16 = 0 /\ 16 <= page_count x.

Section RegionFacts.
Context (kDataStart : Z) (HDS : 16 <= kDataStart <= 4096) (HDS16 : kDataStart mod 16 = 0).

(** [fl] are the free slots in list order, [live] the slots handed out. *)
Record region_ok (base : Z) (r : Region) (m : Mem) (fl live : list FreeRun) : Prop := {
  ro_chain : seg m base (free_head r) fl 0;
  ro_slots : Forall slot_ok (fl ++ live);
  ro_cover : pages_of (fl ++ live) ≡ₚ seqZ kDataStart (offset r - kDataStart);
  ro_off : kDataStart <= offset r <= kRegionSize /\ offset r mod 16 = 0;
  ro_live : live_bytes r = zsum (map page_count live)
}.

Lemma slot_bounds base r m fl live x :
  region_ok base r m fl live -> x ∈ fl ++ live ->
  slot_ok x /\ kDataStart <= page_index x /\ page_index x + page_count x <= offset r.
Proof.
  intros [_ Hs Hc Ho _] Hx. rewrite Forall_forall in Hs. pose proof (Hs x Hx) as (S1 & S2 & S3). split; [done|].
  assert (Hin : forall p, page_index x <= p < page_index x + page_count x -> kDataStart <= p < offset r).
  { intros p Hp. assert (Hp' : p ∈ seqZ kDataStart (offset r - kDataStart)).
    { rewrite <- Hc. apply elem_of_Permutation in Hx as [k Hk]. rewrite (pages_of_proper _ _ Hk), pages_of_cons.
      apply elem_of_app. left. apply elem_of_seqZ. lia. }
    apply elem_of_seqZ in Hp'. lia. }
  pose proof (Hin (page_index x) ltac:(lia)). pose proof (Hin (page_index x + page_count x - 1) ltac:(lia)). lia.
Qed.

(** Slots in different places of the list do not overlap. *)
Lemma slots_apart base r m fl live x y k :
  region_ok base r m fl live -> fl ++ live ≡ₚ x :: y :: k ->
  disjoint_iv (page_index x) (page_count x) (page_index y) (page_count y).
Proof.
  intros R Hp. destruct (slot_bounds _ _ _ _ _ x R ltac:(rewrite Hp; by left)) as ((_ & _ & Px) & _).
  destruct (slot_bounds _ _ _ _ _ y R ltac:(rewrite Hp; right; by left)) as ((_ & _ & Py) & _).
  pose proof (NoDup_seqZ kDataStart (offset r - kDataStart)) as Hn. rewrite <- (ro_cover _ _ _ _ _ R), (pages_of_proper _ _ Hp), !pages_of_cons, NoDup_app in Hn.
  destruct Hn as (_ & Hd & _). unfold disjoint_iv.
  destruct (Z.le_gt_cases (page_index x + page_count x) (page_index y)); [by left|].
  destruct (Z.le_gt_cases (page_index y + page_count y) (page_index x)); [by right|]. exfalso.
  apply (Hd (Z.max (page_index x) (page_index y))); [|apply elem_of_app; left]; apply elem_of_seqZ; lia.
Qed.

Lemma align_id r : 0 <= offset r <= kRegionSize -> offset r mod 16 = 0 ->
  Z.land (u64 (offset r + 15)) (u64 (Z.lnot 15)) = offset r.
Proof.
  intros H0 H16. unfold kRegionSize in H0. rewrite (wrap_small 64 (offset r + 15)) by lia. change 15 with (2 ^ 4 - 1) at 2.
  rewrite land_lnot_mask by lia. change (2 ^ 4) with 16. dlia.
Qed.

Lemma live_total base r m fl live : region_ok base r m fl live -> 0 <= live_bytes r <= kRegionSize.
Proof.
  intros [_ Hs Hc Ho ->].
  assert (Hz : forall l, Forall slot_ok l -> zsum (map page_count l) = Z.of_nat (length (pages_of l))).
  { induction 1 as [|x l (_ & _ & Hx) _ IH]; [done|]. rewrite pages_of_cons, length_app, length_seqZ, Nat2Z.inj_add, <- IH.
    cbn. rewrite Z2Nat.id by lia. done. }
  apply Forall_app in Hs as [_ Hs]. rewrite Hz by done. split; [lia|].
  apply Permutation_length in Hc. rewrite pages_of_app, length_app, length_seqZ in Hc. lia.
Qed.

(** The bump offset hands out the bytes after the last slot. *)
Lemma bump_spec base r m fl live size off r' :
  region_ok base r m fl live -> 16 <= size < 2 ^ 32 -> size mod 16 = 0 -> bump r size = Some (off, r') ->
  region_ok base r' m fl (mkRun off size :: live).
Proof.
  intros R Hs H16. pose proof (live_total _ _ _ _ _ R) as Hl. destruct R as [Rc Rs Rp [Ro Ro16] Rl]. unfold bump.
  unfold kRegionSize in *. rewrite align_id by (unfold kRegionSize; lia || done). rewrite (wrap_small 64 (offset r + size)) by lia. case_if; [|done]. intros [= <- <-].
  constructor; cbn [offset live_bytes free_head].
  - done.
  - rewrite <- Permutation_middle. constructor; [|done]. unfold slot_ok. cbn. splits; [done|done|lia].
  - rewrite (pages_of_proper _ _ (symmetry (Permutation_middle _ _ _))), pages_of_cons, Rp. cbn [page_index page_count].
    rewrite (seqZ_split kDataStart (offset r - kDataStart) (offset r + size - kDataStart)) by lia.
    rewrite Permutation_app_comm. apply Permutation_app_head. apply reflexive_eq. f_equal; lia.
  - split; [unfold kRegionSize; lia|]. dlia.
  - cbn. rewrite wrap_small by lia. unfold zsum in Rl. lia.
Qed.

(** ** The free list *)

(** Address [a] is in no slot of [l]. *)
Definition outside (base : Z) (l : list FreeRun) (a : Z) : Prop :=
  forall z, z ∈ l -> a < base + page_index z \/ base + page_index z + page_count z <= a.

Lemma apart_in base r m fl live x y :
  region_ok base r m fl live -> (exists l1 l2 l3, fl = l1 ++ x :: l2 ++ y :: l3) ->
  disjoint_iv (page_index x) (page_count x) (page_index y) (page_count y).
Proof.
  intros R (l1 & l2 & l3 & ->). eapply (slots_apart _ _ _ _ _ x y (l1 ++ l2 ++ l3 ++ live) R).
  solve_Permutation.
Qed.

(** Redirecting the pointer into a segment's end. *)
Lemma link_spec base new r m pre cur post live r' m' :
  region_ok base r m (pre ++ post) live -> seg m base (free_head r) pre cur -> 0 <= new < 2 ^ 32 ->
  link_next base (from_option page_index 0 (last pre)) new r m = (r', m') ->
  seg m' base (free_head r') pre new /\ offset r' = offset r /\ live_bytes r' = live_bytes r /\
  forall a, outside base pre a -> rd 0 m' a = rd 0 m a.
Proof.
  intros R S Hnew. destruct pre as [|y pre _] using rev_ind; [by intros [= <- <-]|].
  rewrite last_snoc. cbn [from_option]. unfold link_next.
  destruct (slot_bounds _ _ _ _ _ y R ltac:(set_solver)) as ((_ & _ & Py) & Iy & _).
  rewrite (proj2 (Z.eqb_neq _ _)) by lia. intros [= <- <-]. apply seg_app in S as (u & Sp & (-> & Hsz & Hnx)). splits; [|done|done|].
  - apply seg_app. exists (page_index y). split; [|cbn [seg]; splits; [done| |]].
    + eapply seg_frame; [|exact Sp]. intros x i Hx Hi. apply rd_wr32_out.
      apply list_elem_of_split in Hx as (l1 & l2 & ->).
      assert (Hd : disjoint_iv (page_index x) (page_count x) (page_index y) (page_count y)).
      { apply (apart_in _ _ _ _ _ _ _ R). exists l1, l2, post. by rewrite <- !app_assoc. }
      destruct (slot_bounds _ _ _ _ _ x R ltac:(set_solver)) as ((_ & _ & Px) & _). unfold disjoint_iv in Hd. lia.
    + rewrite rd32_wr32_out by lia. done.
    + by rewrite rd32_wr32.
  - intros a Ha. apply rd_wr32_out. destruct (Ha y ltac:(set_solver)); lia.
Qed.

(** Moving part of a free slot to the live ones. *)
Lemma take_slot base r m pre x post live r' m' mid n :
  region_ok base r m (pre ++ x :: post) live -> offset r' = offset r -> live_bytes r' = live_bytes r ->
  seg m' base (free_head r') (pre ++ mid ++ post) 0 -> Forall slot_ok (mkRun (page_index x) n :: mid) ->
  seqZ (page_index x) (page_count x) ≡ₚ seqZ (page_index x) n ++ pages_of mid -> n <= kRegionSize ->
  region_ok base (add_live r' n) m' (pre ++ mid ++ post) (mkRun (page_index x) n :: live).
Proof.
  intros R Eo El S Hs Hc Hn. pose proof (live_total _ _ _ _ _ R). destruct R as [Rc Rs Rp Ro Rl]. apply Forall_cons in Hs as [Hs1 Hs2].
  constructor; cbn [offset live_bytes free_head add_live].
  - done.
  - rewrite !Forall_app, Forall_cons in *. naive_solver.
  - rewrite Eo, <- Rp. rewrite <- !app_assoc, !pages_of_app. cbn [app]. rewrite !pages_of_cons, Hc. cbn [page_index page_count].
    solve_Permutation.
  - by rewrite Eo.
  - cbn. destruct Hs1 as (_ & _ & Hn1). cbn in Hn1. rewrite El, wrap_small; [unfold zsum in *; lia|unfold kRegionSize in *; lia].
Qed.

Lemma apart_mid base r m pre x post live y :
  region_ok base r m (pre ++ x :: post) live -> y ∈ pre ++ post ++ live ->
  disjoint_iv (page_index x) (page_count x) (page_index y) (page_count y).
Proof.
  intros R Hy. apply elem_of_Permutation in Hy as [k Hk]. apply (slots_apart _ _ _ _ _ x y k R).
  rewrite <- Hk. solve_Permutation.
Qed.

(** Writes inside free slots, past their nodes, keep the invariant. *)
Lemma region_frame base r m m' fl live :
  (forall x i, x ∈ fl -> 0 <= i < 8 -> rd 0 m' (base + page_index x + i) = rd 0 m (base + page_index x + i)) ->
  region_ok base r m fl live -> region_ok base r m' fl live.
Proof. intros H [Rc Rs Rp Ro Rl]. constructor; try done. by eapply seg_frame. Qed.

(** A fitting slot [x] is split: its head goes to the caller, the rest takes its
    place in the list. *)
Lemma split_spec base r m pre x post live req r' m' :
  region_ok base r m (pre ++ x :: post) live -> seg m base (free_head r) pre (page_index x) -> seg m base (page_index x) (x :: post) 0 ->
  16 <= req -> req mod 16 = 0 -> req + 8 <= page_count x ->
  let rem := mkRun (page_index x + req) (page_count x - req) in
  link_next base (from_option page_index 0 (last pre)) (page_index rem) r
    (wr32 (wr32 m (base + page_index rem) (page_count rem)) (base + page_index rem + 4) (rd32 m (base + page_index x + 4))) = (r', m') ->
  region_ok base (add_live r' req) m' (pre ++ [rem] ++ post) (mkRun (page_index x) req :: live) /\
  forall a, outside base (pre ++ x :: post) a -> rd 0 m' a = rd 0 m a.
Proof.
  intros R Sp Sx Hq H16 Hrem rem. set (m2 := wr32 (wr32 _ _ _) _ _).
  destruct (slot_bounds _ _ _ _ _ x R ltac:(set_solver)) as ((Ix & Cx & Px) & Bx & Tx). pose proof (ro_off _ _ _ _ _ R) as [Ro _].
  assert (Hc16 : 16 <= page_count x - req /\ (page_count x - req) mod 16 = 0) by dlia. unfold kRegionSize in Ro.
  assert (Hnx : 0 <= rd32 m (base + page_index x + 4) < 2 ^ 32).
  { cbn [seg] in Sx. destruct Sx as (_ & _ & Sx). destruct post as [|y post]; cbn [seg] in Sx; [lia|]. destruct Sx as (-> & _).
    destruct (slot_bounds _ _ _ _ _ y R ltac:(set_solver)) as ((_ & _ & ?) & By & Ty). lia. }
  assert (Hm2 : forall a, a < base + page_index rem \/ base + page_index rem + 8 <= a -> rd 0 m2 a = rd 0 m a).
  { intros a Ha. unfold m2. rewrite !rd_wr32_out; [done|lia|lia]. }
  assert (Hother : forall y i, y ∈ pre ++ post -> 0 <= i < page_count y -> rd 0 m2 (base + page_index y + i) = rd 0 m (base + page_index y + i)).
  { intros y i Hy Hi. apply Hm2. assert (Hd : y ∈ pre ++ post ++ live) by set_solver. apply (apart_mid _ _ _ _ _ _ _ _ R) in Hd.
    unfold disjoint_iv in Hd. cbn. lia. }
  assert (R2 : region_ok base r m2 (pre ++ x :: post) live).
  { eapply region_frame; [|exact R]. intros y i Hy Hi. apply elem_of_app in Hy as [Hy|[->|Hy]%elem_of_cons].
    - destruct (slot_bounds _ _ _ _ _ y R ltac:(set_solver)) as ((_ & _ & ?) & _). apply Hother; [set_solver|lia].
    - apply Hm2. cbn. lia.
    - destruct (slot_bounds _ _ _ _ _ y R ltac:(set_solver)) as ((_ & _ & ?) & _). apply Hother; [set_solver|lia]. }
  assert (Sp2 : seg m2 base (free_head r) pre (page_index x)).
  { eapply seg_frame; [|exact Sp]. intros y i Hy Hi. destruct (slot_bounds _ _ _ _ _ y R ltac:(set_solver)) as ((_ & _ & ?) & _). apply Hother; [set_solver|lia]. }
  intros Hl. destruct (link_spec base (page_index rem) r m2 pre (page_index x) (x :: post) live r' m' R2 Sp2 ltac:(cbn; lia) Hl) as (S3 & E1 & E2 & F3).
  assert (Hout : forall y i, y ∈ x :: post -> 0 <= i < page_count y -> rd 0 m' (base + page_index y + i) = rd 0 m2 (base + page_index y + i)).
  { intros y i Hy Hi. apply F3. intros z Hz. apply list_elem_of_split in Hy as (l1 & l2 & El). rewrite El in R.
    assert (Hd : disjoint_iv (page_index y) (page_count y) (page_index z) (page_count z)).
    { apply (apart_mid base r m (pre ++ l1) y l2 live z); [by rewrite <- app_assoc|set_solver]. }
    destruct (slot_bounds _ _ _ _ _ z R ltac:(set_solver)) as ((_ & _ & ?) & _). unfold disjoint_iv in Hd. lia. }
  split.
  - apply (take_slot base r m pre x post live r' m' [rem] req R E1 E2).
    + apply seg_app. exists (page_index rem). split; [done|]. cbn [app seg]. splits; [done| |].
      * transitivity (rd32 m2 (base + page_index rem)).
        { apply rd32_same. intros i Hi. replace (base + page_index rem + i) with (base + page_index x + (req + i)) by (cbn; lia). apply Hout; [by left|lia]. }
        unfold m2. rewrite rd32_wr32_out, rd32_wr32; [done|cbn; lia|lia].
      * assert (En : rd32 m' (base + page_index rem + 4) = rd32 m (base + page_index x + 4)).
        { transitivity (rd32 m2 (base + page_index rem + 4)).
          - apply rd32_same. intros i Hi. replace (base + page_index rem + 4 + i) with (base + page_index x + (req + 4 + i)) by (cbn; lia). apply Hout; [by left|lia].
          - unfold m2. by rewrite rd32_wr32. }
        rewrite En. cbn [seg] in Sx. destruct Sx as (_ & _ & Sx). eapply seg_frame; [|exact Sx]. intros y i Hy Hi.
        destruct (slot_bounds _ _ _ _ _ y R ltac:(set_solver)) as ((_ & _ & ?) & _). rewrite Hout by (lia || by right). apply Hother; [apply elem_of_app; by right|lia].
    + repeat constructor; cbn; try lia; dlia.
    + cbn. rewrite app_nil_r. rewrite (seqZ_split (page_index x) req) by lia. done.
    + unfold kRegionSize. lia.
  - intros a Ha. rewrite F3 by (intros z Hz; apply Ha; set_solver). apply Hm2. destruct (Ha x ltac:(set_solver)); cbn; lia.
Qed.

(** The free list serves a request by its first slot that is large enough. *)
Lemma free_loop_spec fuel base r m pre cur cur_off live req :
  region_ok base r m (pre ++ cur) live -> seg m base (free_head r) pre cur_off -> seg m base cur_off cur 0 ->
  16 <= req < 2 ^ 32 -> req mod 16 = 0 -> (length cur < fuel)%nat ->
  match free_loop fuel base r m req (from_option page_index 0 (last pre)) cur_off with
  | None => Forall (fun x => page_count x < req) cur
  | Some (off, n, r', m') => req <= n /\ (exists fl', region_ok base r' m' fl' (mkRun off n :: live)) /\
      forall a, outside base (pre ++ cur) a -> rd 0 m' a = rd 0 m a
  end.
Proof.
  revert pre cur cur_off. induction fuel as [|fuel IH]; intros pre cur cur_off R Sp Sc Hq H16 Hf; [lia|]. cbn [free_loop].
  destruct cur as [|x post]; [cbn in Sc; subst cur_off; by constructor|]. pose proof Sc as (-> & Es & Sn).
  destruct (slot_bounds _ _ _ _ _ x R ltac:(set_solver)) as ((Ix & Cx & Px) & Bx & Tx). pose proof (ro_off _ _ _ _ _ R) as [Ro _].
  rewrite (proj2 (Z.eqb_neq _ _)), Es by lia. unfold kRegionSize in Ro. case_if.
  2:{ assert (R' : region_ok base r m ((pre ++ [x]) ++ post) live) by (by rewrite <- app_assoc).
      assert (S' : seg m base (free_head r) (pre ++ [x]) (rd32 m (base + page_index x + 4))).
      { apply seg_app. exists (page_index x). split; [done|]. by cbn [seg]. }
      pose proof (IH (pre ++ [x]) post _ R' S' Sn Hq H16 ltac:(cbn in Hf; lia)) as Hi. rewrite last_snoc in Hi. cbn [from_option] in Hi.
      destruct (free_loop fuel _ _ _ _ _ _) as [[[[off n] r'] m']|]; [|by constructor].
      by rewrite <- app_assoc in Hi. }
  unfold kFreeNode. rewrite (wrap_small 32 req) by lia. case_if.
  - rewrite (wrap_small 32 (page_index x + req)), (wrap_small 32 (page_count x - req)) by lia.
    destruct (link_next _ _ _ _ _) as [r' m'] eqn:El.
    destruct (split_spec base r m pre x post live req r' m' R Sp Sc ltac:(lia) H16 ltac:(lia) El) as [R' F']. splits; [lia|by eexists|done].
  - assert (Eq : page_count x = req) by dlia.
    assert (Hnx : 0 <= rd32 m (base + page_index x + 4) < 2 ^ 32).
    { destruct post as [|y post]; cbn [seg] in Sn; [lia|]. destruct Sn as (-> & _).
      destruct (slot_bounds _ _ _ _ _ y R ltac:(set_solver)) as ((_ & _ & ?) & By & Ty). lia. }
    destruct (link_next _ _ _ _ _) as [r' m'] eqn:El.
    destruct (link_spec base _ r m pre (page_index x) (x :: post) live r' m' R Sp Hnx El) as (S3 & E1 & E2 & F3). splits; [lia| |].
    + exists (pre ++ [] ++ post). apply (take_slot base r m pre x post live r' m' [] (page_count x) R E1 E2).
      * apply seg_app. eexists. split; [done|]. eapply seg_frame; [|exact Sn]. intros y i Hy Hi. cbn [app] in Hy. apply F3. intros z Hz.
        assert (Hd : disjoint_iv (page_index y) (page_count y) (page_index z) (page_count z)).
        { apply list_elem_of_split in Hy as (l1 & l2 & ->). apply (apart_mid base r m (pre ++ x :: l1) y l2 live z).
          - by rewrite <- app_assoc.
          - apply elem_of_app. left. apply elem_of_app. by left. }
        destruct (slot_bounds _ _ _ _ _ y R) as ((_ & _ & ?) & _); [apply elem_of_app; left; apply elem_of_app; right; by right|].
        destruct (slot_bounds _ _ _ _ _ z R) as ((_ & _ & ?) & _); [apply elem_of_app; left; apply elem_of_app; by left|].
        unfold disjoint_iv in Hd. lia.
      * by repeat constructor.
      * cbn. by rewrite app_nil_r.
      * unfold kRegionSize. lia.
    + intros a Ha. apply F3. intros z Hz. apply Ha. apply elem_of_app. by left.
Qed.

(** There are fewer slots than sixteenths of the offset. *)
Lemma free_count base r m fl live : region_ok base r m fl live -> (length fl < Z.to_nat (offset r / 16))%nat.
Proof.
  intros [_ Hs Hc Ho _]. apply Forall_app in Hs as [Hs _]. apply Permutation_length in Hc.
  rewrite pages_of_app, length_app, length_seqZ in Hc.
  assert (Hl : 16 * Z.of_nat (length fl) <= Z.of_nat (length (pages_of fl))).
  { clear -Hs. induction Hs as [|x l (_ & _ & Hx) _ IH]; [done|]. rewrite pages_of_cons, length_app, length_seqZ. cbn [length]. lia. }
  assert (16 * (Z.of_nat (length fl) + 1) <= offset r) by lia.
  assert (Z.of_nat (length fl) + 1 <= offset r / 16) by (apply Z.div_le_lower_bound; lia). lia.
Qed.

Lemma tryFreeList_spec base r m fl live req :
  region_ok base r m fl live -> 16 <= req < 2 ^ 32 -> req mod 16 = 0 ->
  match tryFreeList base r m req with
  | None => Forall (fun x => page_count x < req) fl
  | Some (off, n, r', m') => req <= n /\ (exists fl', region_ok base r' m' fl' (mkRun off n :: live)) /\
      forall a, outside base fl a -> rd 0 m' a = rd 0 m a
  end.
Proof.
  intros R Hq H16. unfold tryFreeList. pose proof (ro_chain _ _ _ _ _ R) as S. case_if.
  - destruct fl as [|x fl]; [done|]. cbn [seg] in S. destruct S as (S & _).
    destruct (slot_bounds _ _ _ _ _ x R ltac:(set_solver)) as (_ & ? & _). lia.
  - apply (free_loop_spec _ base r m [] fl (free_head r) live req R); try done. by eapply free_count.
Qed.
End RegionFacts.
