(* ===== verification/BlobCorrect.v ===== *)
(** * Integrity of stored blobs (for [BlobStore.v])

    Whatever is stored and released, each stored blob keeps its bytes until it
    is released, in a slot of its own. *)

From S2P Require Import Prelude BitOps Config VmArena BlobStore BlobFacts.

(** A stored blob: where it is, the size of its slot, its bytes. *)
Record Blob := mkBlob { b_ptr : Z; b_size : Z; b_data : list Z }.

Section Blobs.
(** Region bases are [origin] plus multiples of the region size. *)
Context (kDataStart origin : Z) (HDS : 16 <= kDataStart <= 4096) (HDS16 : kDataStart mod 16 = 0).

Definition region_of (ptr : Z) : Z := origin + (ptr - origin) / kRegionSize * kRegionSize.

Definition in_region (b : Z) (x : Blob) : Prop := region_of (b_ptr x) = b.
#[export] Instance in_region_dec b x : Decision (in_region b x).
Proof. unfold in_region. apply _. Defined.

Definition live_of (B : list Blob) (b : Z) : list FreeRun :=
  map (fun x => mkRun (b_ptr x - b) (b_size x)) (filter (in_region b) B).

Record store_inv (s : Regions) (B : list Blob) : Prop := {
  sv_region : forall b r, regs s !! b = Some r -> (b - origin) mod kRegionSize = 0 /\
    exists fl, region_ok kDataStart b r (memory s) fl (live_of B b);
  sv_home : forall x, x ∈ B -> is_Some (regs s !! region_of (b_ptr x));
  sv_data : forall x, x ∈ B -> zlen (b_data x) <= b_size x /\ read_bytes (memory s) (b_ptr x) (length (b_data x)) = b_data x;
  sv_chains : forall c b, c ∈ chains s -> b ∈ c -> is_Some (regs s !! b)
}.

Lemma region_of_spec ptr b :
  (b - origin) mod kRegionSize = 0 -> region_of ptr = b <-> b <= ptr < b + kRegionSize.
Proof. unfold region_of, kRegionSize. intros Hb. split; intros; dlia. Qed.

Lemma region_of_base ptr : (region_of ptr - origin) mod kRegionSize = 0.
Proof. unfold region_of, kRegionSize. dlia. Qed.

Lemma bases_far b b' :
  (b - origin) mod kRegionSize = 0 -> (b' - origin) mod kRegionSize = 0 -> b <> b' ->
  disjoint_iv b kRegionSize b' kRegionSize.
Proof. unfold disjoint_iv, kRegionSize. intros. dlia. Qed.

Lemma live_perm B B' b : B ≡ₚ B' -> live_of B b ≡ₚ live_of B' b.
Proof. intros H. unfold live_of. by rewrite H. Qed.

Lemma region_ok_perm b r m fl l l' : l ≡ₚ l' -> region_ok kDataStart b r m fl l -> region_ok kDataStart b r m fl l'.
Proof.
  intros H [Rc Rs Rp Ro Rl]. constructor; try done.
  - by rewrite <- H.
  - rewrite (pages_of_proper (fl ++ l') (fl ++ l)); [done|]. by rewrite H.
  - by rewrite <- H.
Qed.

Lemma store_inv_perm s B B' : B ≡ₚ B' -> store_inv s B -> store_inv s B'.
Proof.
  intros HB [I1 I2 I3 I4]. constructor; [|intros x Hx; apply I2; by rewrite HB|intros x Hx; apply I3; by rewrite HB|done].
  intros b r Hr. destruct (I1 b r Hr) as (Hb & fl & R). split; [done|]. exists fl. eapply region_ok_perm; [|exact R]. by apply live_perm.
Qed.

Lemma live_of_here x B b : in_region b x -> live_of (x :: B) b = mkRun (b_ptr x - b) (b_size x) :: live_of B b.
Proof. intros H. unfold live_of. by rewrite filter_cons_True. Qed.
Lemma live_of_there x B b : ~ in_region b x -> live_of (x :: B) b = live_of B b.
Proof. intros H. unfold live_of. by rewrite filter_cons_False. Qed.

(** Where a blob lies. *)
Lemma blob_place s B x : store_inv s B -> x ∈ B ->
  let b := region_of (b_ptr x) in
  exists r fl, regs s !! b = Some r /\ region_ok kDataStart b r (memory s) fl (live_of B b) /\
    mkRun (b_ptr x - b) (b_size x) ∈ live_of B b /\ (b - origin) mod kRegionSize = 0 /\
    b + kDataStart <= b_ptr x /\ b_ptr x + b_size x <= b + kRegionSize /\ 16 <= b_size x.
Proof.
  intros I Hx b. destruct (sv_home _ _ I x Hx) as [r Hr]. fold b in Hr. destruct (sv_region _ _ I b r Hr) as (Hb & fl & R).
  assert (Hin : mkRun (b_ptr x - b) (b_size x) ∈ live_of B b).
  { apply list_elem_of_fmap. exists x. split; [done|]. by apply list_elem_of_filter. }
  destruct (slot_bounds kDataStart _ _ _ _ _ _ R ltac:(apply elem_of_app; right; exact Hin)) as ((_ & _ & S) & B1 & B2). cbn in S, B1, B2.
  pose proof (ro_off _ _ _ _ _ _ R). exists r, fl. splits; try done; lia.
Qed.

(** A change of one region that leaves the rest of memory alone. *)
Lemma update_region s b r' m' B' B :
  store_inv s B -> (b - origin) mod kRegionSize = 0 ->
  (forall a, a < b \/ b + kRegionSize <= a -> rd 0 m' a = rd 0 (memory s) a) ->
  (exists fl', region_ok kDataStart b r' m' fl' (live_of B' b)) ->
  (forall b', b' <> b -> live_of B' b' = live_of B b') ->
  (forall x, x ∈ B' -> in_region b x \/ x ∈ B) ->
  (forall x, x ∈ B' -> in_region b x -> zlen (b_data x) <= b_size x /\ read_bytes m' (b_ptr x) (length (b_data x)) = b_data x) ->
  store_inv (put_reg s b r' m') B'.
Proof.
  intros I Hb Hm R Hl HB Hd. constructor; cbn.
  - intros b' r0. destruct (Z.eq_dec b b') as [<-|Hne]; [rewrite lookup_insert_eq; intros [= <-]; by split|].
    rewrite lookup_insert_ne by done. intros Hr. destruct (sv_region _ _ I b' r0 Hr) as (Hb' & fl & R'). split; [done|]. exists fl.
    rewrite Hl by congruence. apply (region_frame kDataStart _ _ (memory s)); [|done]. intros x i Hx Hi. apply Hm.
    destruct (slot_bounds kDataStart _ _ _ _ _ x R' ltac:(apply elem_of_app; by left)) as ((_ & _ & S) & B1 & B2).
    pose proof (ro_off _ _ _ _ _ _ R') as [Ho _]. pose proof (bases_far b b' Hb Hb' Hne). unfold disjoint_iv in *. lia.
  - intros x Hx. destruct (decide (in_region b x)) as [Hin|Hn]; [rewrite Hin, lookup_insert_eq; by eexists|].
    destruct (HB x Hx) as [?|Hx']; [done|]. destruct (Z.eq_dec b (region_of (b_ptr x))) as [E|]; [by destruct Hn|].
    rewrite lookup_insert_ne by done. by apply (sv_home _ _ I).
  - intros x Hx. destruct (decide (in_region b x)) as [Hin|Hn]; [by apply Hd|]. destruct (HB x Hx) as [?|Hx']; [done|].
    destruct (sv_data _ _ I x Hx') as [Hz Hr]. split; [done|]. etransitivity; [|exact Hr]. apply read_same. intros i Hi. apply Hm.
    destruct (blob_place s B x I Hx') as (r & fl & _ & _ & _ & Hb' & B1 & B2 & _). unfold zlen in Hz. 
    pose proof (bases_far b _ Hb Hb' ltac:(intros E; by destruct Hn)). unfold disjoint_iv in *. lia.
  - intros c b' Hc Hb'. destruct (Z.eq_dec b b') as [<-|]; [rewrite lookup_insert_eq; by eexists|].
    rewrite lookup_insert_ne by done. by eapply (sv_chains _ _ I).
Qed.

(** ** Storing *)

(** A slot newly made live in region [b], and then the blob's bytes. *)
Lemma store_in_region s b r m fl off n r' fl' data B :
  store_inv s B -> regs s !! b = Some r -> region_ok kDataStart b r (memory s) fl (live_of B b) ->
  region_ok kDataStart b r' m fl' (mkRun off n :: live_of B b) ->
  (forall a, outside b fl a -> rd 0 m a = rd 0 (memory s) a) -> zlen data <= n ->
  store_inv (put_reg s b r' (write_bytes m (b + off) data)) (mkBlob (b + off) n data :: B).
Proof.
  intros I Hr R R' Hm Hn. destruct (sv_region _ _ I b r Hr) as (Hb & _). set (x := mkBlob (b + off) n data).
  pose proof (ro_off _ _ _ _ _ _ R) as [Ho _]. pose proof (ro_off _ _ _ _ _ _ R') as [Ho' _].
  destruct (slot_bounds kDataStart _ _ _ _ _ (mkRun off n) R' ltac:(apply elem_of_app; right; by left)) as ((_ & _ & S) & S1 & S2). cbn in S, S1, S2.
  assert (Hx : in_region b x) by (apply region_of_spec; [done|cbn; lia]).
  assert (Elive : live_of (x :: B) b = mkRun off n :: live_of B b) by (rewrite live_of_here by done; cbn; do 2 f_equal; lia).
  assert (Hout : forall a, a < b \/ b + kRegionSize <= a -> outside b fl a).
  { intros a Ha z Hz. destruct (slot_bounds kDataStart _ _ _ _ _ z R ltac:(apply elem_of_app; by left)) as (_ & ? & ?). lia. }
  apply (update_region _ _ _ _ _ B); try done.
  - intros a Ha. rewrite rd_write_out by lia. by apply Hm, Hout.
  - exists fl'. rewrite Elive. apply (region_frame kDataStart _ _ m); [|done]. intros z i Hz Hi. apply rd_write_out.
    assert (Hd : disjoint_iv (page_index z) (page_count z) off n).
    { apply elem_of_Permutation in Hz as [k Hk]. eapply (slots_apart kDataStart _ _ _ _ _ z (mkRun off n) (k ++ live_of B b) R'). rewrite Hk. solve_Permutation. }
    destruct (slot_bounds kDataStart _ _ _ _ _ z R' ltac:(apply elem_of_app; by left)) as ((_ & _ & ?) & _). unfold disjoint_iv in Hd. lia.
  - intros b' Hne. apply live_of_there. unfold in_region in *. congruence.
  - intros y [->|Hy]%elem_of_cons; [by left|by right].
  - intros y [->|Hy]%elem_of_cons Hin; [split; [done|apply read_write]|]. destruct (sv_data _ _ I y Hy) as [Hz Hrd]. split; [done|].
    etransitivity; [|exact Hrd]. destruct (blob_place s B y I Hy) as (r0 & fl0 & _ & _ & Hl & _ & _ & _ & Hs). rewrite Hin in Hl.
    set (ry := mkRun (b_ptr y - b) (b_size y)) in *. apply elem_of_Permutation in Hl as [k Hk]. unfold zlen in Hz. apply read_same. intros i Hi.
    rewrite rd_write_out, Hm; [done| |].
    + intros z Hzf. assert (Hd : disjoint_iv (page_index z) (page_count z) (page_index ry) (page_count ry)).
      { apply elem_of_Permutation in Hzf as [k' Hk']. apply (slots_apart kDataStart _ _ _ _ _ z ry (k' ++ k) R). rewrite Hk', Hk. solve_Permutation. }
      unfold disjoint_iv in Hd. cbn in Hd. lia.
    + assert (Hd : disjoint_iv off n (page_index ry) (page_count ry)).
      { apply (slots_apart kDataStart _ _ _ _ _ (mkRun off n) ry (fl' ++ k) R'). rewrite Hk. solve_Permutation. }
      unfold disjoint_iv in Hd. cbn in Hd. lia.
Qed.

(** What a successful allocation leaves to do: write the blob. *)
Definition granted (s s' : Regions) (B : list Blob) (ptr n size : Z) : Prop :=
  size <= n /\ ptr mod 16 = origin mod 16 /\ chains s' = chains s /\ dom (regs s') = dom (regs s) /\
  forall data, zlen data <= size -> store_inv (mkRegs (regs s') (chains s') (write_bytes (memory s') ptr data)) (mkBlob ptr n data :: B).

Lemma base_mod16 b off : (b - origin) mod kRegionSize = 0 -> off mod 16 = 0 -> (b + off) mod 16 = origin mod 16.
Proof. unfold kRegionSize. intros. dlia. Qed.

Lemma granted_region s b r m fl off n r' fl' B size :
  store_inv s B -> regs s !! b = Some r -> region_ok kDataStart b r (memory s) fl (live_of B b) ->
  region_ok kDataStart b r' m fl' (mkRun off n :: live_of B b) ->
  (forall a, outside b fl a -> rd 0 m a = rd 0 (memory s) a) -> size <= n ->
  granted s (put_reg s b r' m) B (b + off) n size.
Proof.
  intros I Hr R R' Hm Hn. unfold granted. splits; [done| |done|cbn; apply dom_insert_lookup_L; by eexists|].
  - destruct (slot_bounds kDataStart _ _ _ _ _ (mkRun off n) R' ltac:(apply elem_of_app; right; by left)) as ((S & _) & _).
    apply base_mod16; [|done]. by destruct (sv_region _ _ I b r Hr).
  - intros data Hd. apply (store_in_region s b r m fl off n r' fl' data B); try done. lia.
Qed.

Lemma reg_at_some s b r : regs s !! b = Some r -> reg_at s b = r.
Proof. unfold reg_at. by intros ->. Qed.

Lemma free_granted s B b r size off n r' m' :
  store_inv s B -> regs s !! b = Some r -> 16 <= size < 2 ^ 32 -> size mod 16 = 0 ->
  tryFreeList b r (memory s) size = Some (off, n, r', m') -> granted s (put_reg s b r' m') B (b + off) n size.
Proof.
  intros I Hr Hs H16 E. destruct (sv_region _ _ I b r Hr) as (_ & fl & R).
  pose proof (tryFreeList_spec kDataStart HDS HDS16 b r _ fl _ size R Hs H16) as Hf. rewrite E in Hf. destruct Hf as (Hn & [fl' R'] & Hm).
  by apply (granted_region s b r m' fl off n r' fl' B size).
Qed.

Lemma bump_granted s B b r size off r' :
  store_inv s B -> regs s !! b = Some r -> 16 <= size < 2 ^ 32 -> size mod 16 = 0 ->
  bump r size = Some (off, r') -> granted s (put_reg s b r' (memory s)) B (b + off) size size.
Proof.
  intros I Hr Hs H16 E. destruct (sv_region _ _ I b r Hr) as (_ & fl & R).
  pose proof (bump_spec kDataStart HDS b r _ fl _ size off r' R Hs H16 E) as R'.
  apply (granted_region s b r (memory s) fl off size r' fl B size); done || lia.
Qed.

Lemma scan_granted s B older size ptr n s' :
  store_inv s B -> 16 <= size < 2 ^ 32 -> size mod 16 = 0 -> (forall b, b ∈ older -> is_Some (regs s !! b)) ->
  scan_older kDataStart s older size = Some (ptr, n, s') -> granted s s' B ptr n size.
Proof.
  intros I Hs H16. induction older as [|b older IH]; intros Ho; [done|]. cbn [scan_older].
  destruct (Ho b ltac:(by left)) as [r Hr]. rewrite (reg_at_some s b r Hr).
  assert (IH' : scan_older kDataStart s older size = Some (ptr, n, s') -> granted s s' B ptr n size) by (apply IH; intros; apply Ho; by right).
  destruct (if negb (free_head r =? 0) then _ else None) as [[[[off n'] r'] m']|] eqn:E.
  - intros [= <- <- <-]. case_if_in E; [|done]. by apply (free_granted s B b r).
  - case_if; [|done]. destruct (bump r size) as [[off r']|] eqn:Eb; [|done]. intros [= <- <- <-]. by apply (bump_granted s B b r).
Qed.

Lemma carve_granted s B shard size ptr n s' :
  store_inv s B -> 16 <= size < 2 ^ 32 -> size mod 16 = 0 ->
  carve kDataStart s shard size = Some (ptr, n, s') -> granted s s' B ptr n size.
Proof.
  intros I Hs H16. unfold carve. destruct (zget [] (chains s) shard) as [|b older] eqn:Ec; [done|].
  assert (Hc : b :: older ∈ chains s).
  { unfold zget in Ec. case_if_in Ec; [|done]. destruct (chains s !! Z.to_nat shard) as [c|] eqn:El; [|done].
    cbn in Ec. subst c. by eapply list_elem_of_lookup_2. }
  destruct (sv_chains _ _ I _ b Hc ltac:(by left)) as [r Hr]. rewrite (reg_at_some s b r Hr).
  destruct (tryFreeList b r (memory s) size) as [[[[off n'] r'] m']|] eqn:E; [intros [= <- <- <-]; by apply (free_granted s B b r)|].
  destruct (bump r size) as [[off r']|] eqn:Eb; [intros [= <- <- <-]; by apply (bump_granted s B b r)|].
  apply scan_granted; try done. intros b' Hb'. apply (sv_chains _ _ I _ b' Hc). by right.
Qed.

(** A new region where there was none. *)
Lemma push_region_inv s B shard b :
  store_inv s B -> (b - origin) mod kRegionSize = 0 -> regs s !! b = None -> store_inv (push_region kDataStart s shard b) B.
Proof.
  intros I Hb Hn.
  assert (Hlive : live_of B b = []).
  { unfold live_of. rewrite filter_none; [done|]. intros x Hx Hin. destruct (sv_home _ _ I x Hx) as [r Hr]. unfold in_region in Hin. congruence. }
  constructor; cbn.
  - intros b' r. destruct (Z.eq_dec b b') as [<-|Hne]; [|rewrite lookup_insert_ne by done; apply (sv_region _ _ I)].
    rewrite lookup_insert_eq. intros [= <-]. split; [done|]. exists []. rewrite Hlive. constructor; cbn; try done.
    + by rewrite Z.sub_diag.
    + split; [unfold kRegionSize; lia|done].
  - intros x Hx. destruct (Z.eq_dec b (region_of (b_ptr x))) as [<-|]; [rewrite lookup_insert_eq; by eexists|].
    rewrite lookup_insert_ne by done. by apply (sv_home _ _ I).
  - apply (sv_data _ _ I).
  - assert (Hold : forall c b', c ∈ chains s -> b' ∈ c -> is_Some (<[b := mkReg kDataStart 0 0]> (regs s) !! b')).
    { intros c b' Hc Hb'. destruct (Z.eq_dec b b') as [<-|]; [rewrite lookup_insert_eq; by eexists|]. rewrite lookup_insert_ne by done.
      by eapply (sv_chains _ _ I). }
    intros c b' Hc Hb'. unfold zset in Hc. case_if_in Hc; [|by eapply Hold].
    apply list_elem_of_lookup in Hc as [i Hi]. apply list_lookup_insert_Some in Hi as [(_ & <- & _)|(_ & Hi)].
    + apply elem_of_cons in Hb' as [->|Hb']; [rewrite lookup_insert_eq; by eexists|]. unfold zget in Hb'. rewrite (proj2 (Z.leb_le _ _)) in Hb' by lia.
      destruct (chains s !! Z.to_nat shard) as [c'|] eqn:El; [|cbn in Hb'; set_solver]. eapply Hold; [|exact Hb']. by eapply list_elem_of_lookup_2.
    + eapply Hold; [|exact Hb']. by eapply list_elem_of_lookup_2.
Qed.

Lemma first_slot_granted s B shard b size :
  store_inv s B -> (b - origin) mod kRegionSize = 0 -> regs s !! b = None ->
  16 <= size -> size mod 16 = 0 -> kDataStart + size <= kRegionSize ->
  let '(ptr, n, s') := first_slot kDataStart s shard b size in granted (push_region kDataStart s shard b) s' B ptr n size.
Proof.
  intros I Hb Hn Hs H16 Hfit. pose proof (push_region_inv s B shard b I Hb Hn) as I'. unfold first_slot.
  set (s1 := push_region _ _ _ _) in *.
  assert (Hr : regs s1 !! b = Some (mkReg kDataStart 0 0)) by (unfold s1; cbn; by rewrite lookup_insert_eq).
  unfold kRegionSize in *. apply (bump_granted s1 B b _ size _ _ I' Hr); [lia|done|]. unfold bump. cbn [offset live_bytes free_head].
  pose proof (align_id kDataStart (mkReg kDataStart 0 0) ltac:(cbn; unfold kRegionSize; lia) HDS16) as Ea. cbn [offset] in Ea. rewrite Ea.
  rewrite (wrap_small 64 (kDataStart + size)) by lia. rewrite (wrap_small 64 (0 + size)) by lia.
  rewrite (proj2 (Z.leb_le _ _)) by (unfold kRegionSize; lia). done.
Qed.

(** ** Releasing *)

Lemma release_inv s x B wipe_from :
  store_inv s (x :: B) -> kDataStart <= wipe_from ->
  store_inv (release_slot kDataStart wipe_from s (region_of (b_ptr x)) (b_ptr x) (b_size x)) B.
Proof.
  intros I Hw. destruct (blob_place s (x :: B) x I ltac:(by left)) as (r & fl & Hr & R & _ & Hb & B1 & B2 & B3). set (b := region_of (b_ptr x)) in *.
  rewrite live_of_here in R by done. set (rx := mkRun (b_ptr x - b) (b_size x)) in *.
  destruct (slot_bounds kDataStart _ _ _ _ _ rx R ltac:(apply elem_of_app; right; by left)) as (Sx & _). pose proof (live_total kDataStart HDS _ _ _ _ _ R) as Ht.
  destruct R as [Rc Rs Rp Ro Rl]. cbn in Rl. fold (zsum (map page_count (live_of B b))) in Rl. apply Forall_app in Rs as [Rf Rv]. apply Forall_cons in Rv as [_ Rv].
  assert (Hz : 0 <= zsum (map page_count (live_of B b)) /\ (zsum (map page_count (live_of B b)) <= 0 -> live_of B b = [])).
  { clear -Rv. induction Rv as [|y l (_ & _ & Hy) _ [IH1 IH2]]; [done|]. cbn. fold (zsum (map page_count l)). split; [lia|]. lia. }
  assert (Hthere : forall b', b' <> b -> live_of B b' = live_of (x :: B) b') by (intros b' Hne; rewrite live_of_there; [done|unfold in_region; fold b; congruence]).
  unfold release_slot. rewrite (reg_at_some s b r Hr). case_if.
  - destruct Hz as [_ Hz]. specialize (Hz ltac:(lia)). rewrite Hz in Rl. cbn in Rl.
    assert (Hm : forall a, a < b \/ b + kRegionSize <= a ->
      rd 0 (if wipe_from <? kRegionSize then wipe (memory s) (b + wipe_from) (kRegionSize - wipe_from) else memory s) a = rd 0 (memory s) a).
    { intros a Ha. case_if; [|done]. apply rd_wipe_out. lia. }
    apply (update_region _ _ _ _ _ (x :: B)); try done.
    + exists []. rewrite Hz. constructor; cbn; try done; [by rewrite Z.sub_diag|split; [unfold kRegionSize; lia|done]|].
      replace (live_bytes r - b_size x) with 0 by lia. done.
    + intros y Hy. right. by right.
    + intros y Hy Hin. exfalso. assert (Hy' : mkRun (b_ptr y - b) (b_size y) ∈ live_of B b) by (apply list_elem_of_fmap; exists y; split; [done|by apply list_elem_of_filter]).
      rewrite Hz in Hy'. set_solver.
  - unfold kRegionSize in Ht, B2. set (m1 := wr32 (memory s) (b_ptr x) (u32 (b_size x))). set (m2 := wr32 m1 (b_ptr x + 4) (free_head r)).
    assert (Hm : forall a, a < b_ptr x \/ b_ptr x + 8 <= a -> rd 0 m2 a = rd 0 (memory s) a) by (intros a Ha; unfold m2, m1; by rewrite !rd_wr32_out by lia).
    assert (R0 : region_ok kDataStart b r (memory s) fl (rx :: live_of B b)) by (constructor; try done; by rewrite Forall_app, Forall_cons).
    assert (Hhead : 0 <= free_head r < 2 ^ 32).
    { destruct fl as [|y fl0]; cbn in Rc; [lia|]. destruct Rc as (-> & _). destruct (slot_bounds kDataStart _ _ _ _ _ y R0 ltac:(by left)) as ((_ & _ & ?) & ? & ?).
      destruct Ro as [Ro _]. unfold kRegionSize in Ro. lia. }
    assert (Hfar : forall y, y ∈ fl ++ live_of B b -> disjoint_iv (page_index rx) (page_count rx) (page_index y) (page_count y)).
    { intros y Hy. apply elem_of_Permutation in Hy as [k Hk]. apply (slots_apart kDataStart _ _ _ _ _ rx y k R0). rewrite <- Hk. solve_Permutation. }
    apply (update_region _ _ _ _ _ (x :: B)); try done.
    + intros a Ha. apply Hm. unfold kRegionSize in Ha. lia.
    + exists (rx :: fl). constructor; cbn [offset live_bytes free_head].
      * cbn [seg]. replace (u32 (b_ptr x - b)) with (page_index rx) by (symmetry; apply wrap_small; cbn; lia). split; [done|].
        replace (b + page_index rx) with (b_ptr x) by (cbn; lia). unfold m2. rewrite rd32_wr32_out by lia. unfold m1. rewrite !rd32_wr32; [|lia|apply wrap_bound; lia].
        split; [apply wrap_small; cbn; lia|]. eapply seg_frame; [|exact Rc]. intros y i Hy Hi. apply Hm.
        assert (Hin : y ∈ fl ++ live_of B b) by (apply elem_of_app; by left). destruct (slot_bounds kDataStart _ _ _ _ _ y R0 ltac:(apply elem_of_app; by left)) as ((_ & _ & ?) & _).
        specialize (Hfar y Hin). unfold disjoint_iv in Hfar. cbn in Hfar. lia.
      * cbn. constructor; [done|]. by apply Forall_app.
      * rewrite <- Rp. cbn [app]. rewrite (pages_of_proper (rx :: fl ++ live_of B b) (fl ++ rx :: live_of B b)); [done|solve_Permutation].
      * done.
      * rewrite wrap_small by lia. lia.
    + intros y Hy. right. by right.
    + intros y Hy Hin. destruct (sv_data _ _ I y ltac:(by right)) as [Hzy Hrd]. split; [done|]. etransitivity; [|exact Hrd].
      apply read_same. intros i Hi. apply Hm. unfold zlen in Hzy.
      assert (Hy' : mkRun (b_ptr y - b) (b_size y) ∈ fl ++ live_of B b).
      { apply elem_of_app. right. apply list_elem_of_fmap. exists y. split; [done|]. by apply list_elem_of_filter. }
      apply Hfar in Hy'. unfold disjoint_iv in Hy'. cbn in Hy'. lia.
Qed.
End Blobs.
