(* ===== verification/StoreCalls.v ===== *)
(** * Memory calls and shards shared by the two blob stores

    Calls that give memory back or pin it are recorded, newest first; the shard
    of a blob is chosen by its page index. *)

From S2P Require Import Prelude BitOps Config VmArena BlobStore.

(** Calls on memory whose effect on contents is not in [memory]. *)
Inductive store_call :=
| SUnmap (addr len : Z) | SLock (addr len : Z) | SUnlock (addr len : Z) | SWillNeed (addr len : Z)
| SDecommit (addr len : Z) | SPunch (off len : Z).

Definition page_shard (page_idx : Z) : Z := page_idx mod kCompressStoreShards.

Definition no_regions : Regions := mkRegs ∅ (replicate (Z.to_nat kCompressStoreShards) []) ∅.
