(* ===== verification/CompressStore.v ===== *)
(** * Anonymous blob store (src/compress/compress_store.h)

    Blobs in anonymous regions aligned to their size, with the region code of
    [BlobStore.v].  The kernel is an argument: the answer to a mapping request
    and whether pages can be locked. *)

From S2P Require Import Prelude BitOps Config VmArena BlobStore StoreCalls.

(* src/compress/compress_store.h:35-35 CompressStore::PinMode *)
Inductive PinMode := kOff | kMlock | kWillNeed.

(** sizeof(Region) is 48. *)
(* src/compress/compress_store.h:78-78 CompressStore::kDataStart *)
Definition kDataStart : Z := Z.land (48 + 15) (u64 (Z.lnot 15)).

(* src/compress/compress_store.h:24-37 CompressStore *)
Record CompressStore := mkCS { cs : Regions; pin_mode_ : PinMode; cs_log : list store_call }.

Definition with_cs (st : CompressStore) (s : Regions) : CompressStore := mkCS s (pin_mode_ st) (cs_log st).
Definition log (st : CompressStore) (c : store_call) : CompressStore := mkCS (cs st) (pin_mode_ st) (c :: cs_log st).

(** [v] is the first character of SMASH_MLOCK_STORE, if set. *)
(* src/compress/compress_store.h:39-47 CompressStore::detectPinMode *)
Definition detectPinMode (v : option Z) : PinMode :=
  match v with
  | Some c => if c =? 48 then kOff else if c =? 50 then kWillNeed else kMlock
  | None => kOff
  end.

Section Kernel.
Context (o_map : Z -> option Z) (lock_ok : bool).

(* src/compress/compress_store.h:90-120 CompressStore::newRegion *)
Definition newRegion (st : CompressStore) : option Z * CompressStore :=
  match o_map (kRegionSize * 2) with
  | None => (None, st)
  | Some raw =>
    let aligned := Z.land (u64 (raw + kRegionSize - 1)) (u64 (Z.lnot (kRegionSize - 1))) in
    let prefix := u64 (aligned - raw) in
    let st := if 0 <? prefix then log st (SUnmap raw prefix) else st in
    let suffix := u64 (u64 (raw + kRegionSize * 2) - u64 (aligned + kRegionSize)) in
    let st := if 0 <? suffix then log st (SUnmap (u64 (aligned + kRegionSize)) suffix) else st in
    let st :=
      match pin_mode_ st with
      | kMlock => let st := log st (SLock aligned kRegionSize) in
                  if lock_ok then st else mkCS (cs st) kWillNeed (cs_log st)
      | _ => st
      end in
    (Some aligned, st)
  end.

(* src/compress/compress_store.h:207-263 CompressStore::bumpAlloc *)
Definition bumpAlloc (st : CompressStore) (shard size : Z) : option (Z * Z) * CompressStore :=
  match carve kDataStart (cs st) shard size with
  | Some (ptr, n, s) => (Some (ptr, n), with_cs st s)
  | None =>
    match newRegion st with
    | (None, st) => (None, st)
    | (Some b, st) => let '(ptr, n, s) := first_slot kDataStart (cs st) shard b size in (Some (ptr, n), with_cs st s)
    end
  end.

(** The pointer and the slot size to pass to [release]. *)
(* src/compress/compress_store.h:292-315 CompressStore::store *)
Definition store (st : CompressStore) (data : list Z) (page_idx : Z) : option (Z * Z) * CompressStore :=
  match bumpAlloc st (page_shard page_idx) (slot_size_for (zlen data)) with
  | (None, st) => (None, st)
  | (Some (ptr, n), st) =>
    let s := cs st in
    let st := with_cs st (mkRegs (regs s) (chains s) (write_bytes (memory s) ptr data)) in
    (Some (ptr, n), match pin_mode_ st with kWillNeed => log st (SWillNeed ptr n) | _ => st end)
  end.

(* src/compress/compress_store.h:275-284 CompressStore::pushFreshRegions *)
Definition pushFreshRegion (st : CompressStore) (shard : Z) : CompressStore :=
  match newRegion st with
  | (None, st) => st
  | (Some b, st) => with_cs st (push_region kDataStart (cs st) shard b)
  end.
End Kernel.

(* src/compress/compress_store.h:124-127 CompressStore::regionOf *)
Definition regionOf (ptr : Z) : Z := Z.land ptr (u64 (Z.lnot (kRegionSize - 1))).

(** First byte [resetRegion] gives back, for the system's page size. *)
(* src/compress/compress_store.h:131-134 CompressStore::resetRegion *)
Definition decommit_start (page_size : Z) : Z :=
  Z.land (kDataStart + page_size - 1) (u64 (Z.lnot (page_size - 1))).

(** The region part is [release_slot]; [resetRegion] also unlocks and
    decommits. *)
(* src/compress/compress_store.h:321-348 CompressStore::release *)
Definition release (page_size : Z) (st : CompressStore) (ptr alloc_size : Z) : CompressStore :=
  if ptr =? 0 then st
  else
    let b := regionOf ptr in
    let start := decommit_start page_size in
    let emptied := live_bytes (reg_at (cs st) b) <=? alloc_size in
    let st' := with_cs st (release_slot kDataStart start (cs st) b ptr alloc_size) in
    if emptied && (start <? kRegionSize) then
      let st' := match pin_mode_ st with kMlock => log st' (SUnlock (b + start) (kRegionSize - start)) | _ => st' end in
      log st' (SDecommit (b + start) (kRegionSize - start))
    else st'.

(** The kernel may answer each request of the loop differently. *)
(* src/compress/compress_store.h:266-270 CompressStore::init *)
Definition init (v : option Z) (o_map : Z -> Z -> option Z) (lock_ok : bool) : CompressStore :=
  foldl (fun st shard => pushFreshRegion (o_map shard) lock_ok st shard)
    (mkCS no_regions (detectPinMode v) []) (seqZ 0 kCompressStoreShards).

(* src/compress/compress_store.h:275-284 CompressStore::pushFreshRegions *)
Definition pushFreshRegions (o_map : Z -> Z -> option Z) (lock_ok : bool) (st : CompressStore) : CompressStore :=
  foldl (fun st shard => pushFreshRegion (o_map shard) lock_ok st shard) st (seqZ 0 kCompressStoreShards).
