(* ===== verification/SpillStore.v ===== *)
(** * File-backed blob store (src/compress/spill_store.h)

    Blobs in 16 MiB slots of one shared file mapping, with the region code of
    [BlobStore.v].  The store fails when every slot of the file is in use; the
    caller then falls back to the anonymous store. *)

From S2P Require Import Prelude BitOps Config VmArena BlobStore StoreCalls.

(* src/compress/spill_store.h:51-55 SpillStore::kDataStart *)
Definition kDataStart : Z := 16.

(* src/compress/spill_store.h:86-95 SpillStore *)
Record SpillStore := mkSpill {
  ss : Regions; fd_ : Z; map_base_ : Z; map_size_ : Z; num_slots_ : Z; next_slot_ : Z; ready_ : bool;
  ss_log : list store_call
}.

Definition with_ss (st : SpillStore) (s : Regions) : SpillStore :=
  mkSpill s (fd_ st) (map_base_ st) (map_size_ st) (num_slots_ st) (next_slot_ st) (ready_ st) (ss_log st).

(* src/compress/spill_store.h:265-274 SpillStore::reset *)
Definition reset (log : list store_call) : SpillStore := mkSpill no_regions (-1) 0 0 0 0 false log.

(** A null pointer is 0; [metadata] tells whether the metadata array is there. *)
(* src/compress/spill_store.h:241-256 SpillStore::init *)
Definition init (st : SpillStore) (fd map_base map_size : Z) (metadata : bool) (metadata_count : Z) : bool * SpillStore :=
  if (fd <? 0) || (map_base =? 0) || (map_size <? kRegionSize) || negb metadata then (false, st)
  else
    let slots := map_size / kRegionSize in
    if (slots =? 0) || (metadata_count <? slots) then (false, st)
    else (true, mkSpill no_regions fd map_base (slots * kRegionSize) slots 0 true (ss_log st)).

(* src/compress/spill_store.h:97-99 SpillStore::regionBase *)
Definition regionBase (st : SpillStore) (slot : Z) : Z := map_base_ st + slot * kRegionSize.

(* src/compress/spill_store.h:102-106 SpillStore::regionOf *)
Definition regionOf (st : SpillStore) (ptr : Z) : Z := regionBase st ((ptr - map_base_ st) / kRegionSize).

(* src/compress/spill_store.h:110-122 SpillStore::newRegion *)
Definition newRegion (st : SpillStore) : option Z * SpillStore :=
  let slot := next_slot_ st in
  if num_slots_ st <=? slot then (None, st)
  else (Some (regionBase st slot),
        mkSpill (ss st) (fd_ st) (map_base_ st) (map_size_ st) (num_slots_ st) (slot + 1) (ready_ st) (ss_log st)).

(* src/compress/spill_store.h:187-232 SpillStore::bumpAlloc *)
Definition bumpAlloc (st : SpillStore) (shard size : Z) : option (Z * Z) * SpillStore :=
  match carve kDataStart (ss st) shard size with
  | Some (ptr, n, s) => (Some (ptr, n), with_ss st s)
  | None =>
    match newRegion st with
    | (None, st) => (None, st)
    | (Some b, st) => let '(ptr, n, s) := first_slot kDataStart (ss st) shard b size in (Some (ptr, n), with_ss st s)
    end
  end.

(* src/compress/spill_store.h:296-317 SpillStore::store *)
Definition store (st : SpillStore) (data : list Z) (page_idx : Z) : option (Z * Z) * SpillStore :=
  if negb (ready_ st) then (None, st)
  else
    match bumpAlloc st (page_shard page_idx) (slot_size_for (zlen data)) with
    | (None, st) => (None, st)
    | (Some (ptr, n), st) =>
      let s := ss st in
      (Some (ptr, n), with_ss st (mkRegs (regs s) (chains s) (write_bytes (memory s) ptr data)))
    end.

(** Bytes of an emptied region that are punched out of the file. *)
(* src/compress/spill_store.h:127-140 SpillStore::resetRegion *)
Definition reset_from (st : SpillStore) : Z := if 0 <=? fd_ st then kDataStart else kRegionSize.

(* src/compress/spill_store.h:323-342 SpillStore::release *)
Definition release (st : SpillStore) (ptr alloc_size : Z) : SpillStore :=
  if ptr =? 0 then st
  else
    let b := regionOf st ptr in
    let emptied := live_bytes (reg_at (ss st) b) <=? alloc_size in
    let st' := with_ss st (release_slot kDataStart (reset_from st) (ss st) b ptr alloc_size) in
    if emptied && (0 <=? fd_ st) then
      mkSpill (ss st') (fd_ st) (map_base_ st) (map_size_ st) (num_slots_ st) (next_slot_ st) (ready_ st)
        (SPunch (b - map_base_ st + kDataStart) (kRegionSize - kDataStart) :: ss_log st)
    else st'.

(* src/compress/spill_store.h:286-289 SpillStore::contains *)
Definition contains (st : SpillStore) (p : Z) : bool :=
  ready_ st && (map_base_ st <=? p) && (p <? map_base_ st + map_size_ st).

(** sizeof(Region) is 40. *)
(* src/compress/spill_store.h:279-281 SpillStore::metadataBytesFor *)
Definition metadataBytesFor (map_size : Z) : Z := map_size / kRegionSize * 40.
