(* ===== verification/StoresCorrect.v ===== *)
(** * Blob integrity of the two stores (for [CompressStore.v], [SpillStore.v])

    From an empty store, through any sequence of stores, releases and new
    regions, every blob that is held reads back as it was stored. *)

From S2P Require Import Prelude BitOps Config VmArena BlobStore BlobFacts BlobCorrect StoreCalls.
From S2P Require CompressStore SpillStore.

(** Blobs are compressed pages: far smaller than a region. *)
Definition blob_size_ok (data : list Z) : Prop := 1 <= zlen data <= 2 ^ 20.

Lemma slot_size_spec n : 1 <= n <= 2 ^ 20 ->
  let s := slot_size_for n in n <= s /\ 16 <= s <= 2 ^ 20 /\ s mod 16 = 0.
Proof.
  intros Hn. unfold slot_size_for, kFreeNode. rewrite (wrap_small 64 (n + 15)) by lia.
  pose proof (land_lnot_mask 4 (n + 15) ltac:(lia) ltac:(lia)) as E. change (2 ^ 4 - 1) with 15 in E. rewrite E. change (2 ^ 4) with 16.
  case_if; dlia.
Qed.

Lemma read_back ds origin s B x :
  store_inv ds origin s B -> x ∈ B -> read_bytes (memory s) (b_ptr x) (length (b_data x)) = b_data x.
Proof. intros I Hx. by apply (sv_data _ _ _ _ I). Qed.

(** Slots of different blobs do not overlap. *)
Lemma blobs_apart ds origin s B B' x y :
  16 <= ds <= 4096 -> store_inv ds origin s B -> B ≡ₚ x :: y :: B' ->
  disjoint_iv (b_ptr x) (b_size x) (b_ptr y) (b_size y).
Proof.
  intros HDS I HB. destruct (blob_place ds origin s B x I ltac:(rewrite HB; by left)) as (r & fl & Hr & R & _ & Hb & Bx1 & Bx2 & _).
  destruct (blob_place ds origin s B y I ltac:(rewrite HB; right; by left)) as (r' & fl' & Hr' & R' & _ & Hb' & By1 & By2 & _).
  destruct (Z.eq_dec (region_of origin (b_ptr x)) (region_of origin (b_ptr y))) as [E|Hne].
  - set (b := region_of origin (b_ptr x)) in *. apply (region_ok_perm ds _ _ _ _ _ _ (live_perm origin _ _ b HB)) in R.
    rewrite !live_of_here in R by done.
    pose proof (slots_apart ds _ _ _ _ _ (mkRun (b_ptr x - b) (b_size x)) (mkRun (b_ptr y - b) (b_size y)) (fl ++ live_of origin B' b) R ltac:(solve_Permutation)) as Hd.
    unfold disjoint_iv in *. cbn in Hd. lia.
  - assert (Hd : disjoint_iv (region_of origin (b_ptr x)) kRegionSize (region_of origin (b_ptr y)) kRegionSize) by (by eapply bases_far). unfold disjoint_iv in *. lia.
Qed.

Lemma no_regions_inv ds origin : store_inv ds origin no_regions [].
Proof.
  constructor; cbn; try set_solver. intros c b Hc Hb. exfalso.
  assert (Forall (fun c : list Z => c = []) [[]; []; []; []; []; []; []; []]) as Hn by (repeat constructor).
  rewrite Forall_forall in Hn. rewrite (Hn c Hc) in Hb. set_solver.
Qed.

(** ** Anonymous regions *)

Module CompressFacts.
Import CompressStore.

(** [mmap] returns memory that is not in use. *)
Definition map_fresh (o_map : Z -> option Z) (s : Regions) : Prop :=
  forall p, o_map (kRegionSize * 2) = Some p ->
    0 <= p /\ p + kRegionSize * 2 <= 2 ^ 64 /\
    forall b, b ∈ dom (regs s) -> disjoint_iv p (kRegionSize * 2) b kRegionSize.

(** What may happen to a store; [B] are the blobs whose owner holds them. *)
Inductive cs_step (page_size : Z) : CompressStore * list Blob -> CompressStore * list Blob -> Prop :=
| cs_store o_map lock_ok st B data idx ptr n st' :
    map_fresh o_map (cs st) -> blob_size_ok data ->
    store o_map lock_ok st data idx = (Some (ptr, n), st') ->
    cs_step page_size (st, B) (st', mkBlob ptr n data :: B)
| cs_store_fail o_map lock_ok st B data idx st' :
    map_fresh o_map (cs st) -> blob_size_ok data -> store o_map lock_ok st data idx = (None, st') ->
    cs_step page_size (st, B) (st', B)
| cs_release st B x B' :
    B ≡ₚ x :: B' -> cs_step page_size (st, B) (release page_size st (b_ptr x) (b_size x), B')
| cs_fresh o_map lock_ok st B shard :
    map_fresh o_map (cs st) -> cs_step page_size (st, B) (pushFreshRegion o_map lock_ok st shard, B).

Definition regions_in_space (s : Regions) : Prop :=
  forall b, b ∈ dom (regs s) -> 0 <= b /\ b + kRegionSize <= 2 ^ 64.

Definition cs_inv (st : CompressStore) (B : list Blob) : Prop :=
  store_inv kDataStart 0 (cs st) B /\ regions_in_space (cs st).

Lemma cs_ds_range : 16 <= kDataStart <= 4096 /\ kDataStart mod 16 = 0.
Proof. by vm_compute. Qed.

Lemma region_mask a : 0 <= a < 2 ^ 64 -> Z.land a (u64 (Z.lnot (kRegionSize - 1))) = a / kRegionSize * kRegionSize.
Proof. intros Ha. change (kRegionSize - 1) with (2 ^ 24 - 1). rewrite land_lnot_mask by lia. done. Qed.

Lemma cs_regionOf_spec ptr : 0 <= ptr < 2 ^ 64 -> regionOf ptr = region_of 0 ptr.
Proof. intros H. unfold regionOf, region_of. rewrite region_mask by done. rewrite Z.sub_0_r. lia. Qed.

Lemma newRegion_spec o_map lock_ok st b st' :
  map_fresh o_map (cs st) -> newRegion o_map lock_ok st = (b, st') ->
  cs st' = cs st /\
  match b with
  | None => True
  | Some b => (b - 0) mod kRegionSize = 0 /\ regs (cs st) !! b = None /\ 0 <= b /\ b + kRegionSize <= 2 ^ 64
  end.
Proof.
  intros F. unfold newRegion. destruct (o_map (kRegionSize * 2)) as [raw|] eqn:E; [|by intros [= <- <-]].
  destruct (F raw E) as (F1 & F2 & F3). intros H. injection H as <- <-. split.
  { repeat case_if; destruct (pin_mode_ _); try done; by case_if. }
  unfold kRegionSize in F2. rewrite (wrap_small 64 (raw + kRegionSize - 1)) by (unfold kRegionSize; lia).
  rewrite region_mask by (unfold kRegionSize; lia). rewrite Z.sub_0_r.
  assert (Hr : raw <= (raw + kRegionSize - 1) / kRegionSize * kRegionSize < raw + kRegionSize) by (unfold kRegionSize; dlia).
  splits; [apply Z.mod_mul; by unfold kRegionSize| |lia|unfold kRegionSize in *; lia].
  destruct (regs (cs st) !! _) as [r|] eqn:Er; [|done]. exfalso. apply elem_of_dom_2 in Er. specialize (F3 _ Er).
  unfold disjoint_iv, kRegionSize in *. lia.
Qed.

Lemma pushFresh_inv o_map lock_ok st B shard :
  map_fresh o_map (cs st) -> cs_inv st B -> cs_inv (pushFreshRegion o_map lock_ok st shard) B.
Proof.
  intros F [I H]. unfold pushFreshRegion. destruct (newRegion o_map lock_ok st) as [b st'] eqn:E.
  destruct (newRegion_spec _ _ _ _ _ F E) as [Ec Hb]. destruct b as [b|]; unfold cs_inv; cbn; rewrite Ec; [|done].
  destruct Hb as (B1 & B2 & B3 & B4). destruct cs_ds_range as [HD HD16]. split; [by apply push_region_inv|].
  intros b'. cbn. rewrite dom_insert_L. intros [->%elem_of_singleton|Hb']%elem_of_union; [done|by apply H].
Qed.

Lemma cs_bumpAlloc_spec o_map lock_ok st B shard size r st' :
  map_fresh o_map (cs st) -> cs_inv st B -> 16 <= size <= 2 ^ 20 -> size mod 16 = 0 ->
  bumpAlloc o_map lock_ok st shard size = (r, st') ->
  match r with
  | None => cs_inv st' B
  | Some (ptr, n) => regions_in_space (cs st') /\ exists s, granted kDataStart 0 s (cs st') B ptr n size
  end.
Proof.
  intros F [I H] Hs H16. destruct cs_ds_range as [HD HD16]. unfold bumpAlloc.
  destruct (carve kDataStart (cs st) shard size) as [[[ptr n] s']|] eqn:Ec.
  { intros [= <- <-]. assert (G : granted kDataStart 0 (cs st) s' B ptr n size) by (eapply carve_granted; eauto; lia).
    split; [|by exists (cs st)]. destruct G as (_ & _ & _ & Ed & _). intros b. cbn. rewrite Ed. apply H. }
  destruct (newRegion o_map lock_ok st) as [b st1] eqn:E. destruct (newRegion_spec _ _ _ _ _ F E) as [Es Hb].
  destruct b as [b|]; [|intros [= <- <-]; unfold cs_inv; by rewrite Es]. destruct Hb as (B1 & B2 & B3 & B4). rewrite Es.
  pose proof (first_slot_granted kDataStart 0 HD HD16 (cs st) B shard b size I B1 B2 ltac:(lia) H16 ltac:(unfold kRegionSize; lia)) as G.
  destruct (first_slot kDataStart (cs st) shard b size) as [[ptr n] s']. intros [= <- <-]. split; [|by eexists].
  destruct G as (_ & _ & _ & Ed & _). intros b'. cbn. rewrite Ed. cbn. rewrite dom_insert_L.
  intros [->%elem_of_singleton|Hb']%elem_of_union; [done|by apply H].
Qed.

Lemma cs_store_step o_map lock_ok st B data idx r st' :
  map_fresh o_map (cs st) -> blob_size_ok data -> cs_inv st B -> store o_map lock_ok st data idx = (r, st') ->
  match r with
  | None => cs_inv st' B
  | Some (ptr, n) => cs_inv st' (mkBlob ptr n data :: B) /\ zlen data <= n /\ ptr mod 16 = 0
  end.
Proof.
  intros F Hd I. unfold store. destruct (slot_size_spec (zlen data) Hd) as (S1 & S2 & S3).
  destruct (bumpAlloc _ _ st _ _) as [r0 st1] eqn:E. pose proof (cs_bumpAlloc_spec _ _ _ _ _ _ _ _ F I S2 S3 E) as Hb.
  destruct r0 as [[ptr n]|]; [|by intros [= <- <-]]. destruct Hb as (Hsp & s & (G1 & G2 & _ & _ & G3)). intros H. injection H as <- <-.
  specialize (G3 data ltac:(lia)). unfold cs_inv. splits; [| |lia|done]; destruct (pin_mode_ _); cbn; done.
Qed.

Lemma decommit_start_ge k : 12 <= k <= 16 -> kDataStart <= decommit_start (2 ^ k).
Proof.
  intros Hk. unfold decommit_start. assert (0 < 2 ^ k <= 2 ^ 16) by (split; [lia|apply Z.pow_le_mono_r; lia]).
  change kDataStart with 48. rewrite land_lnot_mask by lia. dnia.
Qed.

Lemma cs_release_step k st B x B' :
  12 <= k <= 16 -> cs_inv st B -> B ≡ₚ x :: B' -> cs_inv (release (2 ^ k) st (b_ptr x) (b_size x)) B'.
Proof.
  intros Hk [I H] HB. assert (I' : store_inv kDataStart 0 (cs st) (x :: B')) by (by eapply store_inv_perm). destruct cs_ds_range as [HD HD16].
  destruct (blob_place kDataStart 0 _ _ x I' ltac:(by left)) as (r & fl & Hr & _ & _ & _ & B1 & B2 & B3).
  pose proof Hr as Hdom%elem_of_dom_2. destruct (H _ Hdom) as [D1 D2]. unfold release. rewrite (proj2 (Z.eqb_neq _ _)) by lia.
  rewrite cs_regionOf_spec by lia. set (b := region_of 0 (b_ptr x)) in *.
  assert (Hres : cs_inv (with_cs st (release_slot kDataStart (decommit_start (2 ^ k)) (cs st) b (b_ptr x) (b_size x))) B').
  { split; cbn; [apply (release_inv kDataStart 0 HD HD16 (cs st) x B' _ I'); by apply decommit_start_ge|].
    intros b'. unfold release_slot. case_if; cbn; rewrite dom_insert_lookup_L by (by eexists); apply H. }
  case_if; [|done]. by destruct (pin_mode_ st).
Qed.

Lemma cs_step_inv k x y : 12 <= k <= 16 -> cs_step (2 ^ k) x y -> cs_inv x.1 x.2 -> cs_inv y.1 y.2.
Proof.
  intros Hk [o lk st B data idx ptr n st' F Hd E|o lk st B data idx st' F Hd E|st B z B' HB|o lk st B sh F] I; cbn [fst snd] in *.
  - by apply (cs_store_step _ _ _ _ _ _ _ _ F Hd I) in E as [? _].
  - by apply (cs_store_step _ _ _ _ _ _ _ _ F Hd I) in E.
  - by eapply cs_release_step.
  - by apply pushFresh_inv.
Qed.

(** C16: blobs in the anonymous store keep their bytes.  Start from an empty
    store and take any sequence of stores, successful or not, releases of held
    blobs, and pushes of fresh regions, for any page size from 4 KiB to 64 KiB.
    Then every blob held reads back exactly as stored, no two held blobs
    overlap, and the live counter of each region is the total size of the
    slots held in it, so that a region is reset only when nobody uses it. *)
Theorem compress_store_integrity k mode st B :
  12 <= k <= 16 -> rtc (cs_step (2 ^ k)) (mkCS no_regions mode [], []) (st, B) ->
  (forall x, x ∈ B -> read_bytes (memory (cs st)) (b_ptr x) (length (b_data x)) = b_data x) /\
  (forall x y B', B ≡ₚ x :: y :: B' -> disjoint_iv (b_ptr x) (b_size x) (b_ptr y) (b_size y)) /\
  (forall b r, regs (cs st) !! b = Some r ->
     live_bytes r = zsum (map b_size (filter (fun x => regionOf (b_ptr x) = b) B))).
Proof.
  intros Hk Hr. assert (I : cs_inv st B).
  { apply (rtc_invariant _ (fun s => cs_inv s.1 s.2) _ _ (fun x y => cs_step_inv k x y Hk) Hr). split; [apply no_regions_inv|]. by intros b. }
  destruct I as [I H]. destruct cs_ds_range as [HD HD16]. splits.
  - intros x. by apply read_back with kDataStart 0.
  - intros x y B'. by apply (blobs_apart kDataStart 0 (cs st)).
  - intros b r Hb. destruct (sv_region _ _ _ _ I b r Hb) as (_ & fl & R). rewrite (ro_live _ _ _ _ _ _ R). unfold live_of.
    rewrite map_map. cbn. f_equal. f_equal. apply filter_ext_in. intros x Hx. unfold in_region.
    destruct (blob_place kDataStart 0 _ _ x I Hx) as (r' & fl' & Hr' & _ & _ & _ & B1 & B2 & B3).
    destruct (H _ (elem_of_dom_2 _ _ _ Hr')) as [D1 D2]. by rewrite cs_regionOf_spec by lia.
Qed.
End CompressFacts.

(** ** The spill file *)

Module SpillFacts.
Import SpillStore.

(** [B] are the blobs held. *)
Inductive ss_step : SpillStore * list Blob -> SpillStore * list Blob -> Prop :=
| ss_store st B data idx ptr n st' :
    blob_size_ok data -> store st data idx = (Some (ptr, n), st') -> ss_step (st, B) (st', mkBlob ptr n data :: B)
| ss_store_fail st B data idx st' :
    blob_size_ok data -> store st data idx = (None, st') -> ss_step (st, B) (st', B)
| ss_release st B x B' :
    B ≡ₚ x :: B' -> ss_step (st, B) (release st (b_ptr x) (b_size x), B').

(** The mapping is a range of [num_slots_] regions; the regions in use are
    slots already handed out. *)
Record file_ok (st : SpillStore) : Prop := {
  fo_ready : ready_ st = true;
  fo_base : 0 < map_base_ st;
  fo_size : map_size_ st = num_slots_ st * kRegionSize;
  fo_next : 0 <= next_slot_ st <= num_slots_ st;
  fo_regs : forall b, b ∈ dom (regs (ss st)) -> exists slot, 0 <= slot < next_slot_ st /\ b = regionBase st slot
}.

Definition ss_inv (st : SpillStore) (B : list Blob) : Prop :=
  store_inv kDataStart (map_base_ st) (ss st) B /\ file_ok st.

Lemma ss_ds_range : 16 <= kDataStart <= 4096 /\ kDataStart mod 16 = 0.
Proof. by vm_compute. Qed.

Lemma file_ok_regs st s : dom (regs s) = dom (regs (ss st)) -> file_ok st -> file_ok (with_ss st s).
Proof. intros Hd [F1 F2 F3 F4 F5]. constructor; try done. intros b. cbn. rewrite Hd. apply F5. Qed.

Lemma ss_bumpAlloc_spec st B shard size r st' :
  ss_inv st B -> 16 <= size <= 2 ^ 20 -> size mod 16 = 0 -> bumpAlloc st shard size = (r, st') ->
  match r with
  | None => st' = st /\ next_slot_ st = num_slots_ st
  | Some (ptr, n) => file_ok st' /\ map_base_ st' = map_base_ st /\
      exists s, granted kDataStart (map_base_ st) s (ss st') B ptr n size
  end.
Proof.
  intros [I F] Hs H16. destruct ss_ds_range as [HD HD16]. unfold bumpAlloc.
  destruct (carve kDataStart (ss st) shard size) as [[[ptr n] s']|] eqn:Ec.
  { intros [= <- <-]. assert (G : granted kDataStart (map_base_ st) (ss st) s' B ptr n size) by (eapply carve_granted; eauto; lia).
    splits; [|done|by exists (ss st)]. apply file_ok_regs; [|done]. by destruct G as (_ & _ & _ & Ed & _). }
  unfold newRegion. pose proof F as [F1 F2 F3 F4 F5]. case_if; [intros [= <- <-]; split; [done|lia]|].
  set (b := regionBase st (next_slot_ st)). cbn [ss].
  assert (Hb : (b - map_base_ st) mod kRegionSize = 0).
  { unfold b, regionBase. replace (_ - _) with (next_slot_ st * kRegionSize) by lia. apply Z.mod_mul. by unfold kRegionSize. }
  assert (Hn : regs (ss st) !! b = None).
  { destruct (regs (ss st) !! b) as [r0|] eqn:Er; [|done]. apply elem_of_dom_2, F5 in Er as (slot & ? & Eb). exfalso.
    unfold b, regionBase, kRegionSize in Eb. lia. }
  pose proof (first_slot_granted kDataStart _ HD HD16 (ss st) B shard b size I Hb Hn ltac:(lia) H16 ltac:(unfold kRegionSize; lia)) as G.
  destruct (first_slot kDataStart (ss st) shard b size) as [[ptr n] s']. intros [= <- <-]. splits; [|done|by eexists].
  constructor; cbn; try done; [lia|]. destruct G as (_ & _ & _ & Ed & _). intros b'. rewrite Ed. cbn. rewrite dom_insert_L.
  intros [->%elem_of_singleton|Hb']%elem_of_union; [exists (next_slot_ st); split; [lia|done]|].
  destruct (F5 b' Hb') as (slot & ? & ->). exists slot. split; [lia|done].
Qed.

Lemma ss_store_step st B data idx r st' :
  blob_size_ok data -> ss_inv st B -> store st data idx = (r, st') ->
  match r with
  | None => st' = st /\ next_slot_ st = num_slots_ st
  | Some (ptr, n) => ss_inv st' (mkBlob ptr n data :: B) /\ zlen data <= n
  end.
Proof.
  intros Hd I. unfold store. rewrite (fo_ready _ (proj2 I)). cbn [negb]. destruct (slot_size_spec (zlen data) Hd) as (S1 & S2 & S3).
  destruct (bumpAlloc st _ _) as [r0 st1] eqn:E. pose proof (ss_bumpAlloc_spec _ _ _ _ _ _ I S2 S3 E) as Hb.
  destruct r0 as [[ptr n]|]; [|by intros [= <- <-]]. destruct Hb as (F & Em & s & (G1 & _ & _ & _ & G3)). intros [= <- <-].
  specialize (G3 data ltac:(lia)). rewrite <- Em in G3. split; [|lia]. split; [done|]. by apply file_ok_regs.
Qed.

(** Where a held blob lies: inside the mapping. *)
Lemma blob_inside st B x : ss_inv st B -> x ∈ B ->
  is_Some (regs (ss st) !! region_of (map_base_ st) (b_ptr x)) /\
  map_base_ st < b_ptr x /\ b_ptr x + b_size x <= map_base_ st + map_size_ st /\ 16 <= b_size x.
Proof.
  intros [I F] Hx. destruct (blob_place kDataStart _ _ _ x I Hx) as (r & fl & Hr & _ & _ & _ & B1 & B2 & B3).
  split; [by eexists|]. apply elem_of_dom_2, (fo_regs _ F) in Hr as (slot & Hs & Eb). rewrite Eb in B1, B2. pose proof (fo_next _ F).
  rewrite (fo_size _ F). unfold regionBase, kRegionSize, kDataStart in *. lia.
Qed.

Lemma ss_regionOf_spec st ptr : regionOf st ptr = region_of (map_base_ st) ptr.
Proof. done. Qed.

Lemma ss_release_step st B x B' : ss_inv st B -> B ≡ₚ x :: B' -> ss_inv (release st (b_ptr x) (b_size x)) B'.
Proof.
  intros [I F] HB. assert (I' : store_inv kDataStart (map_base_ st) (ss st) (x :: B')) by (by eapply store_inv_perm). destruct ss_ds_range as [HD HD16].
  destruct (blob_inside st B x (conj I F) ltac:(rewrite HB; by left)) as (Hr & P1 & P2 & P3). pose proof (fo_base _ F).
  unfold release. rewrite (proj2 (Z.eqb_neq _ _)), ss_regionOf_spec by lia. set (b := region_of _ (b_ptr x)) in *.
  assert (Hres : ss_inv (with_ss st (release_slot kDataStart (reset_from st) (ss st) b (b_ptr x) (b_size x))) B').
  { split; cbn; [apply (release_inv kDataStart _ HD HD16 (ss st) x B' _ I'); unfold reset_from; case_if; by vm_compute|].
    apply file_ok_regs; [|done]. unfold release_slot. case_if; cbn; by rewrite dom_insert_lookup_L. }
  case_if; [|done]. destruct Hres as [Hi [G1 G2 G3 G4 G5]]. split; [exact Hi|]. by constructor.
Qed.

Lemma ss_step_inv x y : ss_step x y -> ss_inv x.1 x.2 -> ss_inv y.1 y.2.
Proof.
  intros [st B data idx ptr n st' Hd E|st B data idx st' Hd E|st B z B' HB] I; cbn [fst snd] in *.
  - by apply (ss_store_step _ _ _ _ _ _ Hd I) in E as [? _].
  - apply (ss_store_step _ _ _ _ _ _ Hd I) in E as [-> _]. done.
  - by eapply ss_release_step.
Qed.

Lemma init_inv st0 fd base size md cnt st :
  0 <= base -> init st0 fd base size md cnt = (true, st) -> ss_inv st [].
Proof.
  intros Hb. unfold init. case_if; [done|]. case_if; [done|]. b2p. intros [= <-]. split; [apply no_regions_inv|].
  constructor; cbn; try done; try lia. unfold kRegionSize in *. dlia.
Qed.

(** C35: blobs in the spill file keep their bytes.  After a successful [init],
    through any sequence of stores and releases, every blob held lies in the
    mapping, reads back exactly as stored, and overlaps no other; a store fails
    only when all slots of the file have been handed out, and then changes
    nothing. *)
Theorem spill_store_integrity st0 fd base size md cnt st1 st B :
  0 <= base -> init st0 fd base size md cnt = (true, st1) -> rtc ss_step (st1, []) (st, B) ->
  (forall x, x ∈ B -> read_bytes (memory (ss st)) (b_ptr x) (length (b_data x)) = b_data x /\ contains st (b_ptr x) = true) /\
  (forall x y B', B ≡ₚ x :: y :: B' -> disjoint_iv (b_ptr x) (b_size x) (b_ptr y) (b_size y)) /\
  (forall data idx, blob_size_ok data -> (store st data idx).1 = None ->
     (store st data idx).2 = st /\ next_slot_ st = num_slots_ st).
Proof.
  intros Hb Hi Hr. assert (I : ss_inv st B).
  { apply (rtc_invariant _ (fun s => ss_inv s.1 s.2) _ _ ss_step_inv Hr). by eapply init_inv. }
  destruct ss_ds_range as [HD HD16]. splits.
  - intros x Hx. split; [by eapply read_back; [apply I|]|]. destruct (blob_inside st B x I Hx) as (_ & P1 & P2 & P3).
    unfold contains. rewrite (fo_ready _ (proj2 I)). lia.
  - intros x y B'. apply (blobs_apart kDataStart (map_base_ st) (ss st)); [done|apply I].
  - intros data idx Hd. destruct (store st data idx) as [r st'] eqn:E. intros Hn. cbn in Hn. subst r.
    by apply (ss_store_step _ _ _ _ _ _ Hd I E).
Qed.
End SpillFacts.

(** ** Witnesses *)

Section StoreWitness.
Definition demo_map (bytes : Z) : option Z := Some (2 ^ 40 + 5 * 4096).
Definition demo_blob : list Z := [7; 0; 255; 1; 2; 3; 4; 5; 6; 7; 8; 9; 10; 11; 12; 13; 14; 15; 16].
Definition demo_cs : CompressStore.CompressStore := CompressStore.mkCS no_regions CompressStore.kOff [].

Lemma compress_store_integrity_witness :
  exists ptr n st, CompressStore.store demo_map true demo_cs demo_blob 3 = (Some (ptr, n), st) /\
  n = 32 /\ read_bytes (memory (CompressStore.cs st)) ptr 19 = demo_blob.
Proof.
  destruct (CompressStore.store demo_map true demo_cs demo_blob 3) as [r st] eqn:E.
  assert (Er : r = Some (2 ^ 40 + 2 ^ 24 + 48, 32)).
  { transitivity (CompressStore.store demo_map true demo_cs demo_blob 3).1; [by rewrite E|vm_compute; reflexivity]. }
  subst r. exists (2 ^ 40 + 2 ^ 24 + 48), 32, st. splits; [done|done|].
  destruct (CompressFacts.compress_store_integrity 12 CompressStore.kOff st [mkBlob (2 ^ 40 + 2 ^ 24 + 48) 32 demo_blob]) as [H _]; [lia| |].
  - apply rtc_once. eapply CompressFacts.cs_store; [|split; by vm_compute|exact E].
    intros p [= <-]. splits; [lia|by vm_compute|]. intros b Hb. cbn in Hb. set_solver.
  - apply (H (mkBlob (2 ^ 40 + 2 ^ 24 + 48) 32 demo_blob)). by left.
Defined.

Lemma spill_store_integrity_witness :
  exists st1 ptr n st, SpillStore.init (SpillStore.reset []) 5 (2 ^ 40) (2 ^ 26) true 4 = (true, st1) /\
  SpillStore.store st1 demo_blob 3 = (Some (ptr, n), st) /\ SpillStore.contains st ptr = true.
Proof.
  destruct (SpillStore.init (SpillStore.reset []) 5 (2 ^ 40) (2 ^ 26) true 4) as [ok st1] eqn:Ei.
  assert (Eok : ok = true).
  { transitivity (SpillStore.init (SpillStore.reset []) 5 (2 ^ 40) (2 ^ 26) true 4).1; [by rewrite Ei|vm_compute; reflexivity]. }
  assert (Es : st1 = (SpillStore.init (SpillStore.reset []) 5 (2 ^ 40) (2 ^ 26) true 4).2) by (by rewrite Ei). subst ok.
  destruct (SpillStore.store st1 demo_blob 3) as [r st] eqn:E.
  assert (Er : r = Some (2 ^ 40 + 16, 32)).
  { transitivity (SpillStore.store st1 demo_blob 3).1; [by rewrite E|rewrite Es; vm_compute; reflexivity]. }
  subst r. exists st1, (2 ^ 40 + 16), 32, st. splits; [done|exact E|].
  destruct (SpillFacts.spill_store_integrity (SpillStore.reset []) 5 (2 ^ 40) (2 ^ 26) true 4 st1 st [mkBlob (2 ^ 40 + 16) 32 demo_blob]) as [H _]; [lia|exact Ei| |].
  - apply rtc_once. eapply SpillFacts.ss_store; [split; by vm_compute|exact E].
  - apply (H (mkBlob (2 ^ 40 + 16) 32 demo_blob)). by left.
Defined.
End StoreWitness.
