(* ===== verification/WKdm.v ===== *)
(** * WKdm page compression (src/compress/wkdm.h)

    Word-key dictionary matching over the 32-bit words of a page.  A word is
    zero, equal to a dictionary entry, equal to one in its upper 22 bits, or
    new.  Tags (2 bits), dictionary positions (4 bits) and low bits (10 bits) are
    packed into words by or-ing them into zeroed arrays.  The page, the arrays
    and the output are lists of words; the output areas are contiguous. *)

From S2P Require Import Prelude BitOps.

(* src/compress/wkdm.h:26-26 WKdm::kDictSize *)
Definition kDictSize : Z := 16.
(* src/compress/wkdm.h:28-28 WKdm::kLowBits *)
Definition kLowBits : Z := 10.
(* src/compress/wkdm.h:29-29 WKdm::kLowMask *)
Definition kLowMask : Z := Z.shiftl 1 kLowBits - 1.
(* src/compress/wkdm.h:31-31 WKdm::kHighMask *)
Definition kHighMask : Z := u32 (Z.lnot kLowMask).
(** "WKD1" *)
Definition kMagic : Z := 0x574B4431.

(* src/compress/wkdm.h:33-37 WKdm::dictIndex *)
Definition dictIndex (word : Z) : Z :=
  let high := Z.shiftr word kLowBits in
  Z.land (Z.lxor high (Z.shiftr high 6)) (kDictSize - 1).

(** [arr[i / per] |= v << ((i % per) * bits)] *)
Definition or_field (per bits : Z) (arr : list Z) (i v : Z) : list Z :=
  zset arr (i / per) (Z.lor (zget 0 arr (i / per)) (u32 (Z.shiftl v ((i mod per) * bits)))).

(** [(arr[i / per] >> ((i % per) * bits)) & mask] *)
Definition get_field (per bits : Z) (word : Z -> Z) (i : Z) : Z :=
  Z.land (Z.shiftr (word (i / per)) ((i mod per) * bits)) (Z.ones bits).

(* src/compress/wkdm.h:57-80 WKdm::compress *)
Record wk_state := mkWk {
  wk_dict : list Z; wk_tags : list Z; wk_full : list Z;
  wk_q : list Z; wk_qn : Z; wk_low : list Z; wk_lown : Z
}.

(** One turn of the compression loop. *)
(* src/compress/wkdm.h:82-119 WKdm::compress *)
Definition wk_word (st : wk_state) (i w : Z) : wk_state :=
  let set_tag tag := or_field 16 2 (wk_tags st) i tag in
  if w =? 0 then
    mkWk (wk_dict st) (set_tag 0) (wk_full st) (wk_q st) (wk_qn st) (wk_low st) (wk_lown st)
  else
    let idx := dictIndex w in
    let d := zget 0 (wk_dict st) idx in
    if d =? w then
      mkWk (wk_dict st) (set_tag 1) (wk_full st) (or_field 8 4 (wk_q st) (wk_qn st) idx) (wk_qn st + 1)
        (wk_low st) (wk_lown st)
    else if Z.land d kHighMask =? Z.land w kHighMask then
      mkWk (zset (wk_dict st) idx w) (set_tag 2) (wk_full st)
        (or_field 8 4 (wk_q st) (wk_qn st) idx) (wk_qn st + 1)
        (or_field 3 10 (wk_low st) (wk_lown st) (Z.land w kLowMask)) (wk_lown st + 1)
    else
      mkWk (zset (wk_dict st) idx w) (set_tag 3) (wk_full st ++ [w]) (wk_q st) (wk_qn st) (wk_low st) (wk_lown st).

Fixpoint wk_loop (st : wk_state) (i : Z) (ws : list Z) : wk_state :=
  match ws with
  | [] => st
  | w :: ws => wk_loop (wk_word st i w) (i + 1) ws
  end.

Definition zeros (n : Z) : list Z := replicate (Z.to_nat n) 0.

(** All that is written to the output buffer, in words. *)
(* src/compress/wkdm.h:46-134 WKdm::compress *)
Definition wk_output (ws : list Z) : list Z :=
  let num_words := zlen ws in
  let num_tag_words := (num_words + 15) / 16 in
  let st := wk_loop (mkWk (zeros kDictSize) (zeros num_tag_words) [] (zeros (num_words / 8 + 1)) 0
                       (zeros (num_words / 3 + 1)) 0) 0 ws in
  let q_words_count := (wk_qn st + 7) / 8 in
  let low_words_count := (wk_lown st + 2) / 3 in
  let queue_start := 4 + num_tag_words + zlen (wk_full st) in
  let low_start := queue_start + q_words_count in
  let low_end := low_start + low_words_count in
  [kMagic; u32 queue_start; u32 low_start; u32 low_end] ++ wk_tags st ++ wk_full st ++
    take (Z.to_nat q_words_count) (wk_q st) ++ take (Z.to_nat low_words_count) (wk_low st).

(** The size in bytes, 0 for an incompressible page. *)
(* src/compress/wkdm.h:44-141 WKdm::compress *)
Definition wk_compress (ws : list Z) (page_size dst_capacity : Z) : list Z * Z :=
  let out := wk_output ws in
  let compressed_bytes := zlen out * 4 in
  if (page_size <=? compressed_bytes) || (dst_capacity <? compressed_bytes) then (out, 0)
  else (out, compressed_bytes).

(** The decompression loop, with [n] words to go. *)
(* src/compress/wkdm.h:175-206 WKdm::decompress *)
Fixpoint wk_unloop (n : nat) (inp : list Z) (num_tag_words q_offset low_offset : Z) (dict : list Z)
    (i full_idx q_idx low_idx : Z) : list Z :=
  match n with
  | O => []
  | S n =>
    let tag := get_field 16 2 (fun k => zget 0 inp (4 + k)) i in
    let idx := get_field 8 4 (fun k => zget 0 inp (q_offset + k)) q_idx in
    if tag =? 0 then
      0 :: wk_unloop n inp num_tag_words q_offset low_offset dict (i + 1) full_idx q_idx low_idx
    else if tag =? 1 then
      zget 0 dict idx :: wk_unloop n inp num_tag_words q_offset low_offset dict (i + 1) full_idx (q_idx + 1) low_idx
    else if tag =? 2 then
      let low := get_field 3 10 (fun k => zget 0 inp (low_offset + k)) low_idx in
      let w := Z.lor (Z.land (zget 0 dict idx) kHighMask) low in
      w :: wk_unloop n inp num_tag_words q_offset low_offset (zset dict idx w) (i + 1) full_idx (q_idx + 1) (low_idx + 1)
    else
      let w := zget 0 inp (4 + num_tag_words + full_idx) in
      w :: wk_unloop n inp num_tag_words q_offset low_offset (zset dict (dictIndex w) w) (i + 1) (full_idx + 1) q_idx low_idx
  end.

(** [None] is the return value 0. *)
(* src/compress/wkdm.h:145-208 WKdm::decompress *)
Definition wk_decompress (inp : list Z) (src_size page_size : Z) : option (list Z) :=
  let num_words := page_size / 4 in
  if src_size <? 16 then None
  else if negb (zget 0 inp 0 =? kMagic) then None
  else
    let q_offset := zget 0 inp 1 in
    let low_offset := zget 0 inp 2 in
    let end_offset := zget 0 inp 3 in
    if src_size <? end_offset * 4 then None
    else Some (wk_unloop (Z.to_nat num_words) inp ((num_words + 15) / 16) q_offset low_offset (zeros kDictSize) 0 0 0 0).

(** ** Packed fields *)

(** The fields of [arr] are [vals], then zeros. *)
Definition packed (per bits : Z) (arr vals : list Z) : Prop :=
  Forall (fun x => 0 <= x < 2 ^ 32) arr /\
  forall k, 0 <= k -> get_field per bits (zget 0 arr) k = zget 0 vals k.

Lemma get_field_bit per bits word k n :
  0 < bits -> 0 < per -> 0 <= k -> 0 <= n ->
  Z.testbit (get_field per bits word k) n = (n <? bits) && Z.testbit (word (k / per)) (n + (k mod per) * bits).
Proof.
  intros Hb Hp Hk Hn. unfold get_field. assert (0 <= k mod per < per) by (apply Z.mod_pos_bound; lia).
  rewrite Z.land_spec, Z.shiftr_spec by lia. destruct (Z.ltb_spec n bits).
  - rewrite Z.ones_spec_low by lia. rewrite andb_true_r. done.
  - rewrite Z.ones_spec_high by lia. apply andb_false_r.
Qed.

Lemma zget_word arr k : Forall (fun x => 0 <= x < 2 ^ 32) arr -> 0 <= zget 0 arr k < 2 ^ 32.
Proof.
  intros H. unfold zget. case_if; [|lia]. destruct (arr !! Z.to_nat k) as [x|] eqn:Ex; [|cbn; lia].
  rewrite Forall_forall in H. cbn. apply H. by eapply list_elem_of_lookup_2.
Qed.

Lemma zget_snoc (vals : list Z) v k : zget 0 (vals ++ [v]) k = if k =? zlen vals then v else zget 0 vals k.
Proof.
  unfold zget, zlen. destruct (Z.leb_spec 0 k); [|case_if; [lia|done]]. case_if.
  - rewrite list_lookup_middle by lia. done.
  - destruct (Z.ltb_spec k (zlen vals)) as [Hl|Hl]; unfold zlen in Hl.
    + by rewrite lookup_app_l by lia.
    + rewrite lookup_ge_None_2 by (rewrite length_app; cbn; lia). by rewrite lookup_ge_None_2 by lia.
Qed.

(** Or-ing the next field appends it. *)
Lemma packed_snoc per bits arr vals v :
  0 < bits -> 0 < per -> per * bits <= 32 -> zlen vals / per < zlen arr -> 0 <= v < 2 ^ bits ->
  packed per bits arr vals -> packed per bits (or_field per bits arr (zlen vals) v) (vals ++ [v]).
Proof.
  intros Hb Hp Hpb Hl Hv [Hw Hf]. set (i := zlen vals) in *. pose proof (zlen_nonneg vals) as Hi0. fold i in Hi0.
  assert (Him : 0 <= i mod per < per) by (apply Z.mod_pos_bound; lia). assert (Hid : 0 <= i / per) by (apply Z.div_pos; lia).
  assert (Hsh : 0 <= Z.shiftl v (i mod per * bits) < 2 ^ 32).
  { rewrite Z.shiftl_mul_pow2 by nia. split; [nia|]. apply Z.lt_le_trans with (2 ^ bits * 2 ^ (i mod per * bits)); [nia|].
    rewrite <- Z.pow_add_r by nia. apply Z.pow_le_mono_r; nia. }
  unfold or_field. rewrite (wrap_small 32) by done. split.
  - unfold zset. rewrite (proj2 (Z.leb_le _ _)) by lia. apply Forall_insert; [done|]. apply lor_bound; [lia|by apply zget_word|done].
  - intros k Hk. rewrite zget_snoc. apply Z.bits_inj'. intros n Hn. rewrite get_field_bit by lia.
    assert (Hkm : 0 <= k mod per < per) by (apply Z.mod_pos_bound; lia). rewrite zget_zset by lia.
    assert (Hold : (n <? bits) && Z.testbit (zget 0 arr (k / per)) (n + k mod per * bits) = Z.testbit (zget 0 vals k) n)
      by (rewrite <- get_field_bit, Hf by lia; done).
    fold i. destruct (Z.eqb_spec k i) as [->|Hne].
    + rewrite Z.eqb_refl, Z.lor_spec, andb_orb_distrib_r, Hold, Z.shiftl_spec by nia.
      rewrite zget_out by (unfold i; lia). rewrite Z.testbit_0_l. cbn [orb]. replace (n + i mod per * bits - i mod per * bits) with n by lia.
      destruct (Z.ltb_spec n bits); [done|]. symmetry. cbn [andb]. apply (testbit_high bits); lia.
    + destruct (Z.eqb_spec (i / per) (k / per)) as [Hd|]; [|exact Hold].
      rewrite Hd, Z.lor_spec, Z.shiftl_spec, andb_orb_distrib_r, Hold by nia.
      destruct (Z.ltb_spec n bits) as [Hnb|]; [|cbn [andb]; apply orb_false_r]. cbn [andb].
      assert (Hz : Z.testbit v (n + k mod per * bits - i mod per * bits) = false); [|by rewrite Hz, orb_false_r].
      destruct (Z.lt_trichotomy (k mod per) (i mod per)) as [Hlt|[He|Hgt]].
      * apply Z.testbit_neg_r. nia.
      * exfalso. apply Hne. rewrite (Z.div_mod k per), (Z.div_mod i per) by lia. by rewrite He, Hd.
      * apply (testbit_high bits); nia.
Qed.

Lemma packed_zeros per bits n : packed per bits (zeros n) [].
Proof.
  unfold zeros. split; [apply Forall_replicate; lia|]. intros k Hk. unfold get_field. 
  assert (E : zget 0 (replicate (Z.to_nat n) 0) (k / per) = 0).
  { unfold zget. case_if; [|done]. destruct (replicate _ _ !! _) as [x|] eqn:Ex; [|done]. by apply lookup_replicate in Ex as [-> _]. }
  rewrite E, Z.shiftr_0_l. unfold zget. by case_if.
Qed.

Lemma zget_app (l k : list Z) i : zget 0 (l ++ k) i = if i <? zlen l then zget 0 l i else zget 0 k (i - zlen l).
Proof.
  unfold zget, zlen. destruct (Z.ltb_spec i (Z.of_nat (length l))) as [Hi|Hi].
  - case_if; [|done]. by rewrite lookup_app_l by lia.
  - rewrite !(proj2 (Z.leb_le _ _)) by lia. rewrite lookup_app_r by lia. do 2 f_equal. lia.
Qed.

Lemma zget_take (l : list Z) n i : i < Z.of_nat n -> zget 0 (take n l) i = zget 0 l i.
Proof. intros H. unfold zget. case_if; [|done]. by rewrite lookup_take_lt by lia. Qed.

Lemma zlen_or_field per bits arr i v : zlen (or_field per bits arr i v) = zlen arr.
Proof. apply zlen_zset. Qed.

(** ** The encoding as a list of symbols *)

Inductive sym := SZero | SExact (idx : Z) | SPartial (idx low : Z) | SMiss (w : Z).

Definition tag_of (s : sym) : Z :=
  match s with SZero => 0 | SExact _ => 1 | SPartial _ _ => 2 | SMiss _ => 3 end.
Definition q_of (s : sym) : list Z :=
  match s with SExact i | SPartial i _ => [i] | _ => [] end.
Definition low_of (s : sym) : list Z := match s with SPartial _ l => [l] | _ => [] end.
Definition full_of (s : sym) : list Z := match s with SMiss w => [w] | _ => [] end.
Definition all_of (f : sym -> list Z) (ss : list sym) : list Z := concat (map f ss).

Definition classify (dict : list Z) (w : Z) : sym :=
  if w =? 0 then SZero
  else if zget 0 dict (dictIndex w) =? w then SExact (dictIndex w)
  else if Z.land (zget 0 dict (dictIndex w)) kHighMask =? Z.land w kHighMask
  then SPartial (dictIndex w) (Z.land w kLowMask) else SMiss w.

Definition learn (dict : list Z) (w : Z) : list Z :=
  match classify dict w with
  | SZero | SExact _ => dict
  | _ => zset dict (dictIndex w) w
  end.

Fixpoint symbols (dict ws : list Z) : list sym :=
  match ws with
  | [] => []
  | w :: ws => classify dict w :: symbols (learn dict w) ws
  end.

Lemma all_of_app f ss ts : all_of f (ss ++ ts) = all_of f ss ++ all_of f ts.
Proof. unfold all_of. by rewrite map_app, concat_app. Qed.

Lemma all_of_snoc f ss s : all_of f (ss ++ [s]) = all_of f ss ++ f s.
Proof. rewrite all_of_app. f_equal. unfold all_of. cbn. apply app_nil_r. Qed.

Lemma zlen_all_of f ss : (forall s, zlen (f s) <= 1) -> zlen (all_of f ss) <= zlen ss.
Proof.
  intros H. unfold all_of. induction ss as [|s ss IH]; [done|]. cbn [map concat]. rewrite zlen_app, zlen_cons. specialize (H s). lia.
Qed.

Lemma symbols_length dict ws : zlen (symbols dict ws) = zlen ws.
Proof. revert dict. induction ws as [|w ws IH]; intros dict; [done|]. cbn. by rewrite !zlen_cons, IH. Qed.

Lemma dictIndex_bound w : 0 <= dictIndex w < 16.
Proof. unfold dictIndex. rewrite Z.land_comm. apply (land_bound 4); [lia|by vm_compute]. Qed.

Lemma lowmask_bound w : 0 <= Z.land w kLowMask < 2 ^ 10.
Proof. rewrite Z.land_comm. apply (land_bound 10); [lia|by vm_compute]. Qed.

(** The arrays hold the symbols met so far. *)
Record holds (n : Z) (st : wk_state) (ss : list sym) : Prop := {
  h_tags : packed 16 2 (wk_tags st) (map tag_of ss);
  h_q : packed 8 4 (wk_q st) (all_of q_of ss);
  h_low : packed 3 10 (wk_low st) (all_of low_of ss);
  h_full : wk_full st = all_of full_of ss;
  h_qn : wk_qn st = zlen (all_of q_of ss);
  h_lown : wk_lown st = zlen (all_of low_of ss);
  h_ltags : zlen (wk_tags st) = (n + 15) / 16;
  h_lq : zlen (wk_q st) = n / 8 + 1;
  h_llow : zlen (wk_low st) = n / 3 + 1
}.

Lemma zlen_q_of ss : zlen (all_of q_of ss) <= zlen ss.
Proof. apply zlen_all_of. by intros []. Qed.
Lemma zlen_low_of ss : zlen (all_of low_of ss) <= zlen ss.
Proof. apply zlen_all_of. by intros []. Qed.

Lemma wk_word_holds n st ss w :
  zlen ss < n -> holds n st ss ->
  holds n (wk_word st (zlen ss) w) (ss ++ [classify (wk_dict st) w]) /\
  wk_dict (wk_word st (zlen ss) w) = learn (wk_dict st) w.
Proof.
  intros Hn [Ht Hq Hl Hf Hqn Hln Hlt Hlq Hll]. pose proof (zlen_nonneg ss).
  assert (Htag : forall t, 0 <= t < 4 -> packed 16 2 (or_field 16 2 (wk_tags st) (zlen ss) t) (map tag_of ss ++ [t])).
  { intros t Hb. assert (E : zlen ss = zlen (map tag_of ss)) by (unfold zlen; by rewrite length_map).
    rewrite E. apply packed_snoc; [lia|lia|lia| |cbn; lia|done]. rewrite <- E. dlia. }
  assert (Hqq : packed 8 4 (or_field 8 4 (wk_q st) (wk_qn st) (dictIndex w)) (all_of q_of ss ++ [dictIndex w])).
  { rewrite Hqn. pose proof (zlen_q_of ss). apply packed_snoc; [lia|lia|lia|dlia|apply dictIndex_bound|done]. }
  assert (Hlo : packed 3 10 (or_field 3 10 (wk_low st) (wk_lown st) (Z.land w kLowMask)) (all_of low_of ss ++ [Z.land w kLowMask])).
  { rewrite Hln. pose proof (zlen_low_of ss). apply packed_snoc; [lia|lia|lia|dlia|apply lowmask_bound|done]. }
  unfold wk_word, learn, classify.
  repeat case_if; (split; [|done]); constructor; cbn;
    rewrite ?map_app, ?all_of_snoc, ?zlen_or_field, ?zlen_app; cbn; rewrite ?app_nil_r; auto with lia;
    unfold zlen in *; cbn; try lia; try (apply Htag; lia); by rewrite ?Hf.
Qed.

Lemma wk_loop_holds n ws st ss :
  zlen ss + zlen ws = n -> holds n st ss -> holds n (wk_loop st (zlen ss) ws) (ss ++ symbols (wk_dict st) ws).
Proof.
  revert st ss. induction ws as [|w ws IH]; intros st ss Hn Hst; [by rewrite app_nil_r|].
  rewrite zlen_cons in Hn. pose proof (zlen_nonneg ws). cbn [wk_loop symbols].
  destruct (wk_word_holds n st ss w) as [Hh Hd]; [lia|done|].
  replace (zlen ss + 1) with (zlen (ss ++ [classify (wk_dict st) w])) by (by rewrite zlen_app).
  rewrite <- Hd.
  replace (ss ++ classify (wk_dict st) w :: symbols (wk_dict (wk_word st (zlen ss) w)) ws)
    with ((ss ++ [classify (wk_dict st) w]) ++ symbols (wk_dict (wk_word st (zlen ss) w)) ws) by (by rewrite <- app_assoc).
  apply IH; [|done]. rewrite zlen_app. change (zlen [_]) with 1. lia.
Qed.

(** ** Decoding *)

(** The input holds the fields of [ss]. *)
Record readable (inp : list Z) (ntw qo lo : Z) (ss : list sym) : Prop := {
  r_tag : forall k, 0 <= k < zlen ss -> get_field 16 2 (fun j => zget 0 inp (4 + j)) k = zget 0 (map tag_of ss) k;
  r_q : forall k, 0 <= k < zlen (all_of q_of ss) ->
    get_field 8 4 (fun j => zget 0 inp (qo + j)) k = zget 0 (all_of q_of ss) k;
  r_low : forall k, 0 <= k < zlen (all_of low_of ss) ->
    get_field 3 10 (fun j => zget 0 inp (lo + j)) k = zget 0 (all_of low_of ss) k;
  r_full : forall k, 0 <= k < zlen (all_of full_of ss) -> zget 0 inp (4 + ntw + k) = zget 0 (all_of full_of ss) k
}.

Lemma zget_mid (l k : list Z) x : zget 0 (l ++ x :: k) (zlen l) = x.
Proof. rewrite zget_app. rewrite Z.ltb_irrefl, Z.sub_diag. done. Qed.

Lemma all_of_mid f ss s ts x :
  f s = [x] -> zget 0 (all_of f (ss ++ s :: ts)) (zlen (all_of f ss)) = x /\
  zlen (all_of f ss) < zlen (all_of f (ss ++ s :: ts)).
Proof.
  intros Hf. rewrite all_of_app. change (all_of f (s :: ts)) with (f s ++ all_of f ts). rewrite Hf. split; [apply zget_mid|].
  rewrite zlen_app. cbn [app]. rewrite zlen_cons. pose proof (zlen_nonneg (all_of f ts)). lia.
Qed.

Lemma merge_low d w :
  0 <= w < 2 ^ 32 -> Z.land d kHighMask = Z.land w kHighMask -> Z.lor (Z.land d kHighMask) (Z.land w kLowMask) = w.
Proof.
  intros Hw ->. rewrite <- Z.land_lor_distr_r. replace (Z.lor kHighMask kLowMask) with (Z.ones 32) by by vm_compute.
  rewrite Z.land_ones by lia. by apply Z.mod_small.
Qed.

(** The decoder's dictionary follows the encoder's. *)
Lemma wk_unloop_symbols inp ntw qo lo ws dict ss0 ss :
  Forall (fun w => 0 <= w < 2 ^ 32) ws -> ss = ss0 ++ symbols dict ws -> readable inp ntw qo lo ss ->
  wk_unloop (length ws) inp ntw qo lo dict (zlen ss0) (zlen (all_of full_of ss0)) (zlen (all_of q_of ss0))
    (zlen (all_of low_of ss0)) = ws.
Proof.
  intros Hws Hss [Rt Rq Rl Rf]. revert dict ss0 Hss. induction ws as [|w ws IH]; intros dict ss0 Hss; [done|].
  apply Forall_cons in Hws as [Hw Hws]. cbn [length symbols] in *. 
  assert (Hrec : forall s f q l, s = classify dict w -> f = full_of s -> q = q_of s -> l = low_of s ->
    wk_unloop (length ws) inp ntw qo lo (learn dict w) (zlen ss0 + 1) (zlen (all_of full_of ss0) + zlen f)
      (zlen (all_of q_of ss0) + zlen q) (zlen (all_of low_of ss0) + zlen l) = ws).
  { intros s f q l Hs -> -> ->. rewrite <- (IH Hws (learn dict w) (ss0 ++ [s])) at 2.
    - rewrite !all_of_snoc, !zlen_app. done.
    - by rewrite <- app_assoc, Hs. }
  cbn [wk_unloop].
  rewrite Rt by (rewrite Hss, zlen_app, zlen_cons; pose proof (zlen_nonneg ss0); pose proof (zlen_nonneg (symbols (learn dict w) ws)); lia).
  replace (zget 0 (map tag_of ss) (zlen ss0)) with (tag_of (classify dict w)).
  2:{ rewrite Hss, map_app. symmetry. replace (zlen ss0) with (zlen (map tag_of ss0)) by (unfold zlen; by rewrite length_map). apply zget_mid. }
  pose proof (zlen_nonneg (all_of q_of ss0)) as Pq. pose proof (zlen_nonneg (all_of low_of ss0)) as Pl.
  pose proof (zlen_nonneg (all_of full_of ss0)) as Pf. 
  destruct (classify dict w) as [|idx|idx low|w'] eqn:Ec; specialize (Hrec _ _ _ _ eq_refl eq_refl eq_refl eq_refl);
    unfold learn in Hrec; rewrite Ec in Hrec; cbn [tag_of full_of q_of low_of] in Hrec |- *; cbn [Z.eqb Pos.eqb];
    change (zlen [_]) with 1 in Hrec; change (zlen []) with 0 in Hrec; rewrite ?Z.add_0_r in Hrec; unfold classify in Ec.
  - case_if_in Ec; [|repeat case_if_in Ec; done]. rewrite Hrec. f_equal. lia.
  - destruct (all_of_mid q_of ss0 (SExact idx) (symbols (learn dict w) ws) idx eq_refl) as [Hg Hl]. rewrite <- Hss in Hg, Hl.
    rewrite Rq, Hg, Hrec by lia. f_equal. repeat case_if_in Ec; simplify_eq. done.
  - destruct (all_of_mid q_of ss0 (SPartial idx low) (symbols (learn dict w) ws) idx eq_refl) as [Hg Hl].
    destruct (all_of_mid low_of ss0 (SPartial idx low) (symbols (learn dict w) ws) low eq_refl) as [Hg' Hl'].
    rewrite <- Hss in Hg, Hl, Hg', Hl'. rewrite Rq, Rl, Hg, Hg' by lia. repeat case_if_in Ec; simplify_eq.
    rewrite merge_low by done. by rewrite Hrec.
  - destruct (all_of_mid full_of ss0 (SMiss w') (symbols (learn dict w) ws) w' eq_refl) as [Hg Hl].
    rewrite <- Hss in Hg, Hl. rewrite Rf, Hg by lia. repeat case_if_in Ec; simplify_eq. by rewrite Hrec.
Qed.

(** ** The round trip *)

Lemma wk_start n : 0 <= n ->
  holds n (mkWk (zeros kDictSize) (zeros ((n + 15) / 16)) [] (zeros (n / 8 + 1)) 0 (zeros (n / 3 + 1)) 0) [].
Proof. intros Hn. constructor; cbn; try done; try apply packed_zeros; apply zlen_replicate; dlia. Qed.

Lemma get_field_packed per bits arr vals inp off k :
  0 < per -> 0 <= k -> packed per bits arr vals -> zget 0 inp (off + k / per) = zget 0 arr (k / per) ->
  get_field per bits (fun j => zget 0 inp (off + j)) k = zget 0 vals k.
Proof. intros Hp Hk [_ Hf] E. rewrite <- Hf by done. unfold get_field. by rewrite E. Qed.

Lemma zlen_take (l : list Z) n : 0 <= n <= zlen l -> zlen (take (Z.to_nat n) l) = n.
Proof. unfold zlen. intros. rewrite length_take. lia. Qed.

(** The layout of the output: header, tags, new words, positions, low bits. *)
Lemma wk_output_layout ws :
  let n := zlen ws in
  exists tags full q low h1 h2 h3,
    wk_output ws = [kMagic; h1; h2; h3] ++ tags ++ full ++ q ++ low /\
    (zlen (wk_output ws) < 2 ^ 32 ->
      h3 = zlen (wk_output ws) /\
      forall junk, readable (wk_output ws ++ junk) ((n + 15) / 16) h1 h2 (symbols (zeros kDictSize) ws)).
Proof.
  intros n. pose proof (zlen_nonneg ws) as Hn.
  pose proof (wk_loop_holds n ws _ [] eq_refl (wk_start n Hn)) as [Ht Hq Hl Hf Hqn Hln Hlt Hlq Hll].
  change (zlen []) with 0 in *. cbn [app wk_dict] in Ht, Hq, Hl, Hf, Hqn, Hln. fold n in Hn. unfold wk_output. fold n.
  set (st := wk_loop _ 0 ws) in *. cbv zeta. set (ss := symbols (zeros kDictSize) ws) in *.
  assert (Hss : zlen ss = n) by apply symbols_length. pose proof (zlen_q_of ss). pose proof (zlen_low_of ss).
  pose proof (zlen_nonneg (all_of q_of ss)). pose proof (zlen_nonneg (all_of low_of ss)). pose proof (zlen_nonneg (all_of full_of ss)).
  assert (Lq : zlen (take (Z.to_nat ((wk_qn st + 7) / 8)) (wk_q st)) = (wk_qn st + 7) / 8) by (apply zlen_take; dlia).
  assert (Ll : zlen (take (Z.to_nat ((wk_lown st + 2) / 3)) (wk_low st)) = (wk_lown st + 2) / 3) by (apply zlen_take; dlia).
  do 7 eexists. split; [reflexivity|]. intros Hb.
  rewrite !zlen_app, Lq, Ll, Hlt, Hf in Hb |- *. change (zlen [_; _; _; _]) with 4 in *.
  rewrite !(wrap_small 32) by dlia. split; [lia|]. intros junk. split; intros k Hk;
    rewrite <- ?app_assoc; [eapply get_field_packed; [lia|lia|exact Ht|] | eapply get_field_packed; [lia|lia|exact Hq|]
      | eapply get_field_packed; [lia|lia|exact Hl|] |];
    rewrite !zget_app, ?Lq, ?Ll, ?Hlt, ?Hf; change (zlen [_; _; _; _]) with 4.
  - rewrite (proj2 (Z.ltb_ge _ 4)), (proj2 (Z.ltb_lt _ _)) by dlia. f_equal. lia.
  - rewrite (proj2 (Z.ltb_ge _ 4)), (proj2 (Z.ltb_ge _ ((n + 15) / 16))), (proj2 (Z.ltb_ge _ (zlen (all_of full_of ss)))), (proj2 (Z.ltb_lt _ _)) by dlia.
    rewrite zget_take by dlia. f_equal. lia.
  - rewrite (proj2 (Z.ltb_ge _ 4)), (proj2 (Z.ltb_ge _ ((n + 15) / 16))), (proj2 (Z.ltb_ge _ (zlen (all_of full_of ss)))),
      (proj2 (Z.ltb_ge _ ((wk_qn st + 7) / 8))), (proj2 (Z.ltb_lt _ _)) by dlia.
    rewrite zget_take by dlia. f_equal. lia.
  - rewrite (proj2 (Z.ltb_ge _ 4)), (proj2 (Z.ltb_ge _ ((n + 15) / 16))), (proj2 (Z.ltb_lt _ _)) by dlia. f_equal. lia.
Qed.

(** C17: A page that [WKdm::compress] accepts is smaller than the page, fits
    the destination, and [WKdm::decompress] gives the page back, whatever
    follows the compressed words in the buffer. *)
Theorem wkdm_roundtrip (ws : list Z) (page_size dst_capacity n : Z) (out junk : list Z) :
  Forall (fun w => 0 <= w < 2 ^ 32) ws -> page_size = 4 * zlen ws -> page_size < 2 ^ 32 ->
  wk_compress ws page_size dst_capacity = (out, n) -> n <> 0 ->
  n < page_size /\ n <= dst_capacity /\ n = 4 * zlen out /\ wk_decompress (out ++ junk) n page_size = Some ws.
Proof.
  intros Hws -> Hps Hc Hn. unfold wk_compress in Hc. case_if_in Hc; simplify_eq. b2p.
  destruct (wk_output_layout ws) as (tags & full & q & low & h1 & h2 & h3 & Ho & HL).
  destruct HL as [H3 Hr]; [lia|]. splits; try lia. specialize (Hr junk).
  unfold wk_decompress. rewrite Ho in *. cbn [app] in *.
  change (zget 0 (kMagic :: h1 :: h2 :: h3 :: ?x) 0) with kMagic.
  change (zget 0 (kMagic :: h1 :: h2 :: h3 :: ?x) 1) with h1.
  change (zget 0 (kMagic :: h1 :: h2 :: h3 :: ?x) 2) with h2.
  change (zget 0 (kMagic :: h1 :: h2 :: h3 :: ?x) 3) with h3.
  rewrite !zlen_cons in *. pose proof (zlen_nonneg (tags ++ full ++ q ++ low)).
  rewrite !(proj2 (Z.ltb_ge _ _)) by lia. rewrite Z.eqb_refl. cbn [negb].
  replace (4 * zlen ws / 4) with (zlen ws) by dlia.
  f_equal. unfold zlen at 1. rewrite Nat2Z.id.
  exact (wk_unloop_symbols _ _ _ _ ws (zeros kDictSize) [] _ Hws eq_refl Hr).
Qed.

Lemma wkdm_roundtrip_witness :
  wk_decompress ([kMagic; 8; 9; 10; 0; 59136; 0x12345678; 0xFFFFFFFF; 17; 633] ++ [7]) 40 128 =
  Some (replicate 20 0 ++ [0x12345678; 0x12345678; 0x12345679; 0xFFFFFFFF] ++ replicate 8 0).
Proof.
  exact (proj2 (proj2 (proj2 (wkdm_roundtrip
    (replicate 20 0 ++ [0x12345678; 0x12345678; 0x12345679; 0xFFFFFFFF] ++ replicate 8 0) 128 128 40 _ [7]
    ltac:(repeat constructor; lia) eq_refl ltac:(lia) ltac:(vm_compute; reflexivity) ltac:(lia))))).
Defined.

(** A page of new words is written whole, with its header and tags, before the
    size is compared with the capacity: 72 words for a page of 64. *)
Example wk_writes_past_page :
  let ws := map (fun i => Z.shiftl (Z.of_nat i + 1) 10) (seq 0 64) in
  wk_compress ws 256 256 = (wk_output ws, 0) /\ zlen (wk_output ws) = zlen ws + 8.
Proof. by vm_compute. Qed.
