(* ===== verification/Double.v ===== *)
(** * IEEE 754 binary64 arithmetic

    The cost statistics and the tier selection compute with [double].  The
    operations are those of the Standard Library's executable specification of
    IEEE 754, at precision 53 and exponent bound 1024, rounding to nearest even. *)

From Stdlib Require Import SpecFloat.
From S2P Require Import Prelude.

Definition double : Type := spec_float.

Definition dadd (x y : double) : double := SFadd 53 1024 x y.
Definition dsub (x y : double) : double := SFsub 53 1024 x y.
Definition dmul (x y : double) : double := SFmul 53 1024 x y.
Definition ddiv (x y : double) : double := SFdiv 53 1024 x y.
Definition dsqrt (x : double) : double := SFsqrt 53 1024 x.
Definition dlt (x y : double) : bool := SFltb x y.
Definition dle (x y : double) : bool := SFleb x y.
(** An integer, and a decimal literal [m / 10 ^ e]. *)
Definition dZ (x : Z) : double := binary_normalize 53 1024 x 0 false.
Definition dlit (m e : Z) : double := ddiv (dZ m) (dZ (10 ^ e)).
(** Conversion to an unsigned integer: truncation of a finite positive value. *)
Definition dtrunc (x : double) : Z :=
  match x with
  | S754_finite false m e => Z.shiftl (Zpos m) e
  | _ => 0
  end.
