(* ===== verification/Stats.v ===== *)
(** * Per-bucket statistics of the compressor
    (SizeClassStats and ArenaArmStats in src/compress/compressor_thread.h)

    A bucket holds a sliding window of compression ratios with a running sum, cost
    averages per tier in fixed point, the arms of the bandit that selects a
    tier, the re-dirty average, and what a saved profile carries over. *)

From S2P Require Import Prelude Double.

(* src/compress/compressor_thread.h:560-560 SizeClassStats::kWindow *)
Definition kWindow : Z := 64.
(* src/compress/compressor_thread.h:561-561 SizeClassStats::kTiers *)
Definition kTiers : Z := 2.

(* src/compress/compressor_thread.h:562-565 SizeClassStats *)
Record Window := mkWin { ratios : list Z; head : Z; count : Z; sum : Z }.
(* src/compress/compressor_thread.h:566-569 SizeClassStats *)
Record Costs := mkCosts { cost_ema_x16 : list Z; cost_count : list Z }.
(* src/compress/compressor_thread.h:571-577 SizeClassStats *)
Record Arms := mkArms { arm_pulls : list Z; arm_mean : list double; arm_m2 : list double }.
(* src/compress/compressor_thread.h:591-592 SizeClassStats *)
Record Redirty := mkRed { redirty_ema_x256 : Z; redirty_count : Z }.
(* src/compress/compressor_thread.h:771-808 SizeClassStats *)
Record Budget := mkBud {
  bytes_saved_total : Z; time_cost_total_us : Z; efficiency_x256 : Z; budget_decision_hint : Z;
  compress_count : Z; decompress_count : Z
}.
(* src/compress/compressor_thread.h:771-808 SizeClassStats *)
Record Profile := mkProf {
  persist_hint : Z; profile_stable_cold : Z; profile_best_tier : Z; profile_thrash_rate : Z
}.
(* src/compress/compressor_thread.h:559-592 SizeClassStats *)
Record SizeClassStats := mkStats {
  s_win : Window; s_costs : Costs; s_arms : Arms; selections : Z; s_red : Redirty; s_bud : Budget; s_prof : Profile
}.

Definition fresh_window : Window := mkWin (replicate 64 0) 0 0 0.
Definition fresh_arms : Arms := mkArms [0; 0] [dZ 0; dZ 0] [dZ 0; dZ 0].
(** A zero-initialised bucket. *)
Definition fresh_stats : SizeClassStats :=
  mkStats fresh_window (mkCosts [0; 0] [0; 0]) fresh_arms 0 (mkRed 0 0) (mkBud 0 0 0 0 0 0) (mkProf 0 0 255 0).

(* src/compress/compressor_thread.h:594-604 SizeClassStats::recordRedirty *)
Definition recordRedirty (r : Redirty) (rewritten : bool) : Redirty :=
  let sample := if rewritten then 256 else 0 in
  let ema := if redirty_count r =? 0 then sample
             else u16 (redirty_ema_x256 r + Z.quot (sample - redirty_ema_x256 r) 8) in
  mkRed ema (if redirty_count r <? 64 then redirty_count r + 1 else redirty_count r).

(* src/compress/compressor_thread.h:611-618 SizeClassStats::redirtyDiscountX256 *)
Definition redirtyDiscountX256 (r : Redirty) (streak_relief_x256 : Z) : Z :=
  if redirty_count r <? 8 then 256
  else
    let p := redirty_ema_x256 r in
    let p := if 0 <? streak_relief_x256
             then (if streak_relief_x256 <? p then p - streak_relief_x256 else 0) else p in
    if 256 <=? p then 0 else 256 - p.

(** The ratio of a sample, 0 to 255. *)
Definition ratio_of (comp_size orig_size : Z) : Z :=
  if (0 <? orig_size) && (comp_size <? orig_size)
  then u8 (u64 (255 * (orig_size - comp_size)) / orig_size) else 0.

(* src/compress/compressor_thread.h:620-632 SizeClassStats::record *)
Definition record (w : Window) (comp_size orig_size : Z) : Window :=
  let r := ratio_of comp_size orig_size in
  let '(cnt, s) := if count w =? kWindow then (count w, u16 (sum w - zget 0 (ratios w) (head w)))
                   else (u8 (count w + 1), sum w) in
  mkWin (zset (ratios w) (head w) r) (u8 ((head w + 1) mod kWindow)) cnt (u16 (s + r)).

(* src/compress/compressor_thread.h:636-645 SizeClassStats::recordCost *)
Definition recordCost (c : Costs) (tier elapsed_us : Z) : Costs :=
  if (tier <? 0) || (kTiers <=? tier) then c
  else
    let sample_x16 := u32 (elapsed_us * 16) in
    let old := zget 0 (cost_ema_x16 c) tier in
    let n := zget 0 (cost_count c) tier in
    let ema := if n =? 0 then sample_x16 else u32 (old + Z.quot (i32 (i32 sample_x16 - i32 old)) 4) in
    mkCosts (zset (cost_ema_x16 c) tier ema)
      (if n <? 64 then zset (cost_count c) tier (n + 1) else cost_count c).

(* src/compress/compressor_thread.h:650-654 SizeClassStats::observedCostUs *)
Definition observedCostUs (c : Costs) (tier : Z) : Z :=
  if (tier <? 0) || (kTiers <=? tier) then 0
  else if 8 <=? zget 0 (cost_count c) tier then u32 (zget 0 (cost_ema_x16 c) tier + 8) / 16 else 0.

(* src/compress/compressor_thread.h:658-668 SizeClassStats::recordReward *)
Definition recordReward (a : Arms) (tier : Z) (reward : double) : Arms :=
  if (tier <? 0) || (kTiers <=? tier) then a
  else
    let reward := if dlt reward (dZ 0) then dZ 0 else reward in
    let reward := if dlt (dZ 1) reward then dZ 1 else reward in
    let n := u32 (zget 0 (arm_pulls a) tier + 1) in
    let mean := zget (dZ 0) (arm_mean a) tier in
    let delta := dsub reward mean in
    let mean' := dadd mean (ddiv delta (dZ n)) in
    let delta2 := dsub reward mean' in
    mkArms (zset (arm_pulls a) tier n) (zset (arm_mean a) tier mean')
      (zset (arm_m2 a) tier (dadd (zget (dZ 0) (arm_m2 a) tier) (dmul delta delta2))).

(* src/compress/compressor_thread.h:821-831 ArenaArmStats::recordReward *)
Definition arena_recordReward (a : Arms) (tier : Z) (reward : double) : Arms := recordReward a tier reward.

(* src/compress/compressor_thread.h:676-693 SizeClassStats::Persist *)
Record Persist := mkPersist {
  p_count : Z; decision_hint : Z; p_sum : Z; cost_ema_x16_t0 : Z; cost_ema_x16_t1 : Z;
  cost_count_t0 : Z; cost_count_t1 : Z; p_efficiency_x256 : Z; thrash_rate : Z; best_tier : Z; stable_cold : Z
}.

(* src/compress/compressor_thread.h:695-740 SizeClassStats::serialize *)
Definition serialize (st : SizeClassStats) : Persist :=
  let w := s_win st in
  let c := s_costs st in
  let e0 := zget 0 (cost_ema_x16 c) 0 in
  let e1 := zget 0 (cost_ema_x16 c) 1 in
  let hint :=
    if 8 <=? count w then
      let mean_x256 := u16 (u32 (sum w * 256) / count w) in
      if mean_x256 <? 13 then 1
      else if (4 <=? zget 0 (cost_count c) 0) && (4 <=? zget 0 (cost_count c) 1) &&
              (u32 (4 * e0) <=? e1) && (mean_x256 <? 64) then 2
      else 0
    else 0 in
  let cc := compress_count (s_bud st) in
  let dc := decompress_count (s_bud st) in
  let thrash := if 0 <? cc then Z.min 255 (u32 (dc * 255) / cc) else 0 in
  let p0 := zget 0 (arm_pulls (s_arms st)) 0 in
  let p1 := zget 0 (arm_pulls (s_arms st)) 1 in
  mkPersist (count w) hint (sum w)
    (if 65535 <? e0 then 65535 else e0) (if 65535 <? e1 then 65535 else e1)
    (zget 0 (cost_count c) 0) (zget 0 (cost_count c) 1) (efficiency_x256 (s_bud st)) thrash
    (if u32 (2 * p1 + 4) <? p0 then 0 else if u32 (2 * p0 + 4) <? p1 then 1 else 255)
    (if (8 <=? cc) && (thrash <? 26) then 1 else 0).

(* src/compress/compressor_thread.h:742-769 SizeClassStats::deserialize *)
Definition deserialize (st : SizeClassStats) (p : Persist) : SizeClassStats :=
  let cnt := if kWindow <? p_count p then kWindow else p_count p / 2 in
  let s := if 0 <? cnt then u16 (p_sum p * cnt / Z.max (p_count p) 1) else 0 in
  let mean_r := if 0 <? cnt then u8 (s / cnt) else 0 in
  let prof := s_prof st in
  let bud := s_bud st in
  mkStats
    (mkWin (replicate (Z.to_nat cnt) mean_r ++ drop (Z.to_nat cnt) (ratios (s_win st))) 0 cnt s)
    (mkCosts [cost_ema_x16_t0 p; cost_ema_x16_t1 p] [cost_count_t0 p / 2; cost_count_t1 p / 2])
    (s_arms st) (selections st) (s_red st)
    (mkBud (bytes_saved_total bud) (time_cost_total_us bud) (p_efficiency_x256 p) (budget_decision_hint bud)
       (compress_count bud) (decompress_count bud))
    (mkProf (persist_hint prof) (stable_cold p) (best_tier p) (thrash_rate p)).

(** ** The window *)

Definition records (w : Window) (xs : list (Z * Z)) : Window :=
  fold_left (fun w x => record w (fst x) (snd x)) xs w.
Definition ratios_of (xs : list (Z * Z)) : list Z := map (fun x => ratio_of (fst x) (snd x)) xs.
(** The last 64 elements. *)
Definition last64 (h : list Z) : list Z := drop (length h - 64) h.

Lemma ratio_of_bound c o : 0 <= ratio_of c o <= 255.
Proof. unfold ratio_of. case_if; [|lia]. pose proof (wrap_bound 8 (u64 (255 * (o - c)) / o) ltac:(lia)). lia. Qed.

Lemma zsum_bound l : Forall (fun x => 0 <= x <= 255) l -> 0 <= zsum l <= 255 * zlen l.
Proof. induction 1 as [|x l Hx Hl IH]; [by vm_compute|]. rewrite zlen_cons. change (zsum (x :: l)) with (x + zsum l). lia. Qed.

Lemma last64_bound h : Forall (fun x => 0 <= x <= 255) h -> 0 <= zsum (last64 h) <= 255 * 64.
Proof.
  intros H. assert (Hd : Forall (fun x => 0 <= x <= 255) (last64 h)) by (by apply Forall_drop).
  pose proof (zsum_bound _ Hd). assert (zlen (last64 h) <= 64) by (unfold zlen, last64; rewrite length_drop; lia). lia.
Qed.

(** Appending a sample drops the oldest one once there are 64. *)
Lemma last64_snoc h r :
  zsum (last64 (h ++ [r])) = zsum (last64 h) + r - (if 64 <=? zlen h then zget 0 h (zlen h - 64) else 0).
Proof.
  unfold last64, zlen. rewrite length_app. cbn [length]. destruct (Z.leb_spec 64 (Z.of_nat (length h))).
  - replace (length h + 1 - 64)%nat with (S (length h - 64)) by lia. rewrite drop_app_le by lia. rewrite zsum_app.
    destruct (h !! (length h - 64)%nat) as [x|] eqn:Ex; [|apply lookup_ge_None in Ex; lia].
    rewrite (drop_S h x (length h - 64)) by done. change (zsum (x :: ?l)) with (x + zsum l). change (zsum [r]) with (r + 0). unfold zget. rewrite (proj2 (Z.leb_le _ _)) by lia.
    replace (Z.to_nat (Z.of_nat (length h) - 64)) with (length h - 64)%nat by lia. rewrite Ex. change (default 0 (Some x)) with x. lia.
  - replace (length h + 1 - 64)%nat with O by lia. replace (length h - 64)%nat with O by lia. rewrite !drop_0, zsum_app. cbn. lia.
Qed.

(** A window that started with [c0] samples of which only the sum [e] counts,
    after the samples [h]. *)
Record window_at (c0 e : Z) (w : Window) (h : list Z) : Prop := {
  wa_len : zlen (ratios w) = 64;
  wa_head : head w = zlen h mod 64;
  wa_count : count w = Z.min (c0 + zlen h) 64;
  wa_new : forall j, 0 <= j -> zlen h - 64 <= j < zlen h -> zget 0 (ratios w) (j mod 64) = zget 0 h j;
  wa_old : forall j, zlen h <= j < 64 -> c0 <= j -> zget 0 (ratios w) j = 0;
  wa_sum : sum w = e + zsum (last64 h);
  wa_range : Forall (fun x => 0 <= x <= 255) h
}.

Lemma zget_snoc_Z (h : list Z) r j : zget 0 (h ++ [r]) j = if j =? zlen h then r else zget 0 h j.
Proof.
  unfold zget, zlen. destruct (Z.leb_spec 0 j); [|by case_if; lia]. case_if.
  - by rewrite list_lookup_middle by lia.
  - destruct (Z.ltb_spec j (Z.of_nat (length h))); [by rewrite lookup_app_l by lia|].
    rewrite lookup_ge_None_2 by (rewrite length_app; cbn; lia). by rewrite lookup_ge_None_2 by lia.
Qed.

Lemma record_at c0 e w h c o :
  0 <= c0 <= 32 -> 0 <= e <= 32 * 255 -> window_at c0 e w h -> window_at c0 e (record w c o) (h ++ [ratio_of c o]).
Proof.
  intros Hc He [Hl Hh Hn Hnew Hold Hs Hr]. pose proof (ratio_of_bound c o) as Hb. set (r := ratio_of c o) in *.
  pose proof (zlen_nonneg h) as Hp. assert (Hm : 0 <= zlen h mod 64 < 64) by (apply Z.mod_pos_bound; lia).
  pose proof (last64_bound h Hr) as Hlb.
  assert (Hr' : Forall (fun x => 0 <= x <= 255) (h ++ [r])) by (apply Forall_app; split; [done|by constructor]).
  pose proof (last64_bound _ Hr') as Hlb'. pose proof (last64_snoc h r) as Hsn.
  assert (Hout : count w = kWindow -> zget 0 (ratios w) (head w) = if 64 <=? zlen h then zget 0 h (zlen h - 64) else 0).
  { intros Hk. rewrite Hh. unfold kWindow in Hk. case_if.
    - rewrite <- Hnew by lia. f_equal. dlia.
    - rewrite Z.mod_small by lia. apply Hold; lia. }
  unfold record. fold r. destruct (Z.eqb_spec (count w) kWindow) as [Hk|Hk]; unfold kWindow in *;
    (constructor; cbn [ratios head count sum]; rewrite ?zlen_zset, ?zlen_app; change (zlen [r]) with 1; [done| | | | | |done]).
  1,6: rewrite wrap_small by dlia; rewrite Hh; dlia.
  1,5: rewrite ?wrap_small by dlia; lia.
  1,4: intros j Hj0 Hj; rewrite zget_zset by lia; rewrite zget_snoc_Z, Hh;
       destruct (Z.eqb_spec j (zlen h)) as [->|]; [by rewrite Z.eqb_refl|]; rewrite (proj2 (Z.eqb_neq _ _)) by dlia; apply Hnew; lia.
  1,3: intros j Hj Hj'; rewrite zget_zset_ne by (rewrite Hh; dlia); apply Hold; lia.
  - rewrite (Hout Hk) in *. rewrite Hs. unfold wrap. rewrite Z.add_mod_idemp_l by lia. rewrite Z.mod_small by lia. lia.
  - rewrite Hs, wrap_small by lia. rewrite Hsn. rewrite (proj2 (Z.leb_gt _ _)) by lia. lia.
Qed.

Lemma records_at c0 e w h xs :
  0 <= c0 <= 32 -> 0 <= e <= 32 * 255 -> window_at c0 e w h -> window_at c0 e (records w xs) (h ++ ratios_of xs).
Proof.
  intros Hc He. revert w h. induction xs as [|[c o] xs IH]; intros w h Hw; [by rewrite app_nil_r|].
  cbn. rewrite (cons_middle _ h). rewrite app_assoc. apply IH. by apply record_at.
Qed.

Lemma fresh_at : window_at 0 0 fresh_window [].
Proof.
  constructor; try done.
  - intros j Hj0 Hj. change (zlen []) with 0 in Hj. lia.
  - intros j Hj _. change (zlen []) with 0 in Hj. apply zget_replicate. lia.
Qed.

Lemma loaded_at p :
  0 <= p_count p <= 64 -> 0 <= p_sum p <= 255 * p_count p ->
  let w := s_win (deserialize fresh_stats p) in
  0 <= p_count p / 2 <= 32 /\ 0 <= sum w <= 32 * 255 /\ window_at (p_count p / 2) (sum w) w [].
Proof.
  intros Hc Hs w. assert (Hd : 0 <= p_count p / 2 <= 32) by (Z.to_euclidean_division_equations; lia).
  assert (Ew : w = s_win (deserialize fresh_stats p)) by done. unfold deserialize in Ew. cbn [s_win fresh_stats fresh_window ratios] in Ew.
  unfold kWindow in Ew. rewrite (proj2 (Z.ltb_ge 64 (p_count p))) in Ew by lia. set (c := p_count p / 2) in *.
  assert (Hq : 0 < c -> 0 <= p_sum p * c / Z.max (p_count p) 1 <= 32 * 255).
  { intros Hp. assert (p_count p = 0 -> c = 0) by (intros E; subst c; by rewrite E). assert (0 < p_count p) by lia. rewrite Z.max_l by lia. split; [apply Z.div_pos; nia|]. apply Z.div_le_upper_bound; nia. }
  assert (Hsum : 0 <= sum w <= 32 * 255).
  { rewrite Ew. cbn [sum]. case_if; [|lia]. rewrite wrap_small by (specialize (Hq ltac:(lia)); lia). apply Hq. lia. }
  splits; [lia|lia|lia|lia|]. constructor; [| | |intros j ? Hj; change (zlen []) with 0 in Hj; lia| |by change (zsum (last64 [])) with 0; lia|done];
    rewrite Ew; cbn [ratios head count]; try done.
  - rewrite zlen_app. unfold zlen. rewrite length_drop, !length_replicate. lia.
  - change (zlen []) with 0. lia.
  - intros j Hj Hj'. change (zlen []) with 0 in Hj. unfold zget. rewrite (proj2 (Z.leb_le _ _)) by lia.
    rewrite lookup_app_r by (rewrite length_replicate; lia). rewrite lookup_drop, length_replicate.
    change (repeat 0 64) with (replicate 64 0). rewrite lookup_replicate_2 by lia. done.
Qed.

(** Over the samples recorded since start-up the window sum is exact: it
    is the sum of the last 64 ratios and the count is their number.  After a
    profile was loaded the sum is too large by the loaded sum, for good: the
    loaded samples are overwritten without being subtracted, as the write
    position restarts at 0 while the count does not. *)
Lemma window_sum (p : Persist) (xs : list (Z * Z)) :
  0 <= p_count p <= 64 -> 0 <= p_sum p <= 255 * p_count p ->
  let loaded := s_win (deserialize fresh_stats p) in
  count (records fresh_window xs) = Z.min (zlen xs) 64 /\
  sum (records fresh_window xs) = zsum (last64 (ratios_of xs)) /\
  count (records loaded xs) = Z.min (p_count p / 2 + zlen xs) 64 /\
  sum (records loaded xs) = sum loaded + zsum (last64 (ratios_of xs)).
Proof.
  intros Hc Hs loaded. destruct (loaded_at p Hc Hs) as (H1 & H2 & Hw).
  assert (Hl : zlen (ratios_of xs) = zlen xs) by (unfold zlen, ratios_of; by rewrite length_map).
  pose proof (records_at 0 0 _ _ xs ltac:(lia) ltac:(lia) fresh_at) as [_ _ Ha _ _ Hb _].
  pose proof (records_at _ _ _ _ xs H1 H2 Hw) as [_ _ Hc' _ _ Hd _]. cbn [app] in *. rewrite Hl in *.
  splits; [rewrite Ha; lia|rewrite Hb; lia|done|done].
Qed.

(** The re-dirty average is a probability in 1/256, and so is the discount. *)
Lemma recordRedirty_bound r b :
  0 <= redirty_ema_x256 r <= 256 -> 0 <= redirty_ema_x256 (recordRedirty r b) <= 256.
Proof. intros H. unfold recordRedirty. cbn. destruct b; case_if; rewrite ?wrap_small; try lia; Z.to_euclidean_division_equations; lia. Qed.

Lemma redirtyDiscount_bound r relief :
  0 <= redirty_ema_x256 r -> 0 <= redirtyDiscountX256 r relief <= 256.
Proof. intros H. unfold redirtyDiscountX256. repeat case_if; lia. Qed.

(** A cost average moves towards the sample and never past it. *)
Lemma recordCost_between c tier us :
  (tier = 0 \/ tier = 1) -> zlen (cost_ema_x16 c) = 2 -> 0 <= us < 2 ^ 27 -> 0 <= zget 0 (cost_ema_x16 c) tier < 2 ^ 31 ->
  0 < zget 0 (cost_count c) tier ->
  let old := zget 0 (cost_ema_x16 c) tier in
  let new := zget 0 (cost_ema_x16 (recordCost c tier us)) tier in
  Z.min old (16 * us) <= new <= Z.max old (16 * us).
Proof.
  intros Ht Hl Hu Ho Hn old new. subst new. unfold recordCost, kTiers.
  rewrite (proj2 (orb_false_iff _ _)) by (destruct Ht as [-> | ->]; done). cbn [cost_ema_x16].
  rewrite zget_zset_eq by (destruct Ht; lia). rewrite (proj2 (Z.eqb_neq _ _)) by lia. fold old. fold old in Ho.
  rewrite (wrap_small 32 (us * 16)) by lia.
  rewrite (i32_small (us * 16)), (i32_small old), i32_small by lia. rewrite wrap_small; Z.to_euclidean_division_equations; lia.
Qed.
