(* ===== verification/Engine.v ===== *)
(** * Compression engine (src/compress/compress_engine.h)

    Dispatch over LZ4, zstd and zstd with a dictionary per size class, the
    dictionary table, and the packed record of a compressed page.  The codecs
    are libraries: class [Codecs] lists the calls the engine makes, and
    [CodecLaws] what their documentation promises. *)

From S2P Require Import Prelude BitOps Config.

(** The calls into LZ4 and zstd.  A compressor returns what it wrote, [None] for
    an error; a decompressor likewise. *)
Class Codecs := {
  lz4_compress : list Z -> Z -> option (list Z);
  lz4_decompress : list Z -> Z -> option (list Z);
  zstd_compress : Z -> list Z -> Z -> option (list Z);
  zstd_decompress : list Z -> Z -> option (list Z);
  zstd_compress_usingCDict : list Z -> list Z -> Z -> option (list Z);
  zstd_decompress_usingDDict : list Z -> list Z -> Z -> option (list Z);
  zdict_train : list (list Z) -> option (list Z);
  lz4_compressBound : Z -> Z;
  zstd_compressBound : Z -> Z
}.

(** What is compressed within the capacity is not empty and is given back, by
    the matching decompressor, into a buffer large enough. *)
Class CodecLaws `{Codecs} := {
  lz4_law x cap y : lz4_compress x cap = Some y ->
    0 < zlen y <= cap /\ forall n, zlen x <= n -> lz4_decompress y n = Some x;
  zstd_law l x cap y : zstd_compress l x cap = Some y ->
    0 < zlen y <= cap /\ forall n, zlen x <= n -> zstd_decompress y n = Some x;
  dict_law d x cap y : zstd_compress_usingCDict d x cap = Some y ->
    0 < zlen y <= cap /\ forall n, zlen x <= n -> zstd_decompress_usingDDict d y n = Some x
}.

(* src/compress/compress_engine.h:21-26 CompressAlgo *)
Inductive CompressAlgo := NONE | LZ4 | ZSTD | ZSTD_DICT.

#[export] Instance algo_eq_dec : EqDecision CompressAlgo.
Proof. solve_decision. Defined.

Definition algo_bits (a : CompressAlgo) : Z :=
  match a with NONE => 0 | LZ4 => 1 | ZSTD => 2 | ZSTD_DICT => 3 end.
Definition algo_of_bits (n : Z) : CompressAlgo :=
  if n =? 0 then NONE else if n =? 1 then LZ4 else if n =? 2 then ZSTD else ZSTD_DICT.

(* src/compress/compress_engine.h:30-33 CompressedPageInfo *)
Record CompressedPageInfo := mkInfo { data : Z; comp_size : Z; alloc_size : Z }.

(* src/compress/compress_engine.h:35-40 CompressedPageInfo::set *)
Definition info_set (d sz alloc_sz : Z) (algo : CompressAlgo) : CompressedPageInfo :=
  mkInfo d (Z.lor (Z.land (u32 sz) 0x3FFFFFFF) (u32 (Z.shiftl (algo_bits algo) 30))) (u32 alloc_sz).

(* src/compress/compress_engine.h:42-42 CompressedPageInfo::compressedSize *)
Definition compressedSize (i : CompressedPageInfo) : Z := Z.land (comp_size i) 0x3FFFFFFF.
(* src/compress/compress_engine.h:43-43 CompressedPageInfo::algorithm *)
Definition algorithm (i : CompressedPageInfo) : CompressAlgo := algo_of_bits (Z.shiftr (comp_size i) 30).
(** [compressed_[i] = {}] *)
Definition no_info : CompressedPageInfo := mkInfo 0 0 0.

(* include/smash/config.h:522-522 kZstdNormalLevel *)
Definition kZstdNormalLevel : Z := 3.
(* include/smash/config.h:523-523 kZstdDeepLevel *)
Definition kZstdDeepLevel : Z := 9.
(* include/smash/config.h:571-571 kDictCapacity *)
Definition kDictCapacity : Z := 16 * 1024.

(** The dictionary of each trained class; the compression and decompression
    dictionaries are built over these bytes. *)
Abbreviation Dicts := (gmap Z (list Z)).

Section Engine.
Context `{Codecs}.

Definition dict_of (E : Dicts) (size_class : Z) : option (list Z) :=
  if size_class <? kNumClasses then E !! size_class else None.

(* src/compress/compress_engine.h:235-237 CompressEngine::hasDictionary *)
Definition hasDictionary (E : Dicts) (size_class : Z) : bool :=
  (size_class <? kNumClasses) && bool_decide (is_Some (E !! size_class)).

(* src/compress/compress_engine.h:342-344 CompressEngine::getCDict *)
Definition getCDict (E : Dicts) (sc : Z) : option (list Z) := dict_of E sc.

(* src/compress/compress_engine.h:279-288 CompressEngine::dictBytes *)
Definition dictBytes (E : Dicts) (size_class : Z) : option (list Z) :=
  if (kNumClasses <=? size_class) || negb (hasDictionary E size_class) then None else E !! size_class.

(* src/compress/compress_engine.h:91-132 CompressEngine::compress *)
Definition engine_compress (E : Dicts) (src : list Z) (dst_capacity : Z) (algo : CompressAlgo) (size_class : Z)
    : option (list Z) :=
  match algo with
  | LZ4 => lz4_compress src dst_capacity
  | ZSTD => zstd_compress kZstdNormalLevel src dst_capacity
  | ZSTD_DICT =>
    match dict_of E size_class with
    | Some d => zstd_compress_usingCDict d src dst_capacity
    | None => zstd_compress kZstdDeepLevel src dst_capacity
    end
  | NONE => None
  end.

(** The worker's own contexts, the shared dictionaries. *)
(* src/compress/compressor_thread.h:867-909 CompressWorker::compress *)
Definition worker_compress (E : Dicts) (src : list Z) (dst_capacity : Z) (algo : CompressAlgo)
    (size_class zstd_level : Z) : option (list Z) :=
  match algo with
  | LZ4 => lz4_compress src dst_capacity
  | ZSTD => zstd_compress zstd_level src dst_capacity
  | ZSTD_DICT =>
    match getCDict E size_class with
    | Some d => zstd_compress_usingCDict d src dst_capacity
    | None => zstd_compress kZstdDeepLevel src dst_capacity
    end
  | NONE => None
  end.

(* src/compress/compress_engine.h:137-180 CompressEngine::decompress *)
Definition engine_decompress (E : Dicts) (src : list Z) (dst_capacity : Z) (algo : CompressAlgo) (size_class : Z)
    : option (list Z) :=
  match algo with
  | NONE => Some (replicate (Z.to_nat dst_capacity) 0)
  | LZ4 => lz4_decompress src dst_capacity
  | ZSTD => zstd_decompress src dst_capacity
  | ZSTD_DICT =>
    match dict_of E size_class with
    | Some d => zstd_decompress_usingDDict d src dst_capacity
    | None => zstd_decompress src dst_capacity
    end
  end.

(** The same with a context of the caller's. *)
(* src/compress/compress_engine.h:296-339 CompressEngine::decompressWithDCtx *)
Definition decompressWithDCtx (E : Dicts) (src : list Z) (dst_capacity : Z) (algo : CompressAlgo) (size_class : Z)
    : option (list Z) :=
  match algo with
  | NONE => Some (replicate (Z.to_nat dst_capacity) 0)
  | LZ4 => lz4_decompress src dst_capacity
  | ZSTD => zstd_decompress src dst_capacity
  | ZSTD_DICT =>
    match dict_of E size_class with
    | Some d => zstd_decompress_usingDDict d src dst_capacity
    | None => zstd_decompress src dst_capacity
    end
  end.

(** [alloc] says whether the metadata allocator had room, [built] whether both
    dictionary objects could be created. *)
(* src/compress/compress_engine.h:193-233 CompressEngine::trainDictionary *)
Definition trainDictionary (E : Dicts) (size_class : Z) (samples : list (list Z)) (alloc built : bool) : bool * Dicts :=
  if kNumClasses <=? size_class then (false, E)
  else if hasDictionary E size_class then (true, E)
  else if negb alloc then (false, E)
  else
    match zdict_train samples with
    | None | Some [] => (false, E)
    | Some d => if negb built then (false, E) else (true, <[size_class := d]> E)
    end.

(* src/compress/compress_engine.h:245-275 CompressEngine::setDictionary *)
Definition setDictionary (E : Dicts) (size_class : Z) (bytes : option (list Z)) (alloc built : bool) : bool * Dicts :=
  if kNumClasses <=? size_class then (false, E)
  else
    match bytes with
    | None => (false, E)
    | Some d =>
      if (zlen d =? 0) || (kDictCapacity <? zlen d) then (false, E)
      else if hasDictionary E size_class then (true, E)
      else if negb alloc then (false, E)
      else if negb built then (false, E)
      else (true, <[size_class := d]> E)
    end.

(* src/compress/compress_engine.h:352-362 CompressEngine::maxCompressedSize *)
Definition maxCompressedSize (src_size : Z) (algo : CompressAlgo) : Z :=
  match algo with
  | LZ4 | NONE => lz4_compressBound src_size
  | ZSTD | ZSTD_DICT => zstd_compressBound src_size
  end.

(* src/compress/compress_engine.h:365-369 CompressEngine::maxCompressedSizeAny *)
Definition maxCompressedSizeAny (src_size : Z) : Z := Z.max (lz4_compressBound src_size) (zstd_compressBound src_size).

(** What can happen to the dictionary table over time. *)
Inductive engine_step : Dicts -> Dicts -> Prop :=
| es_train E sc samples alloc built : engine_step E (snd (trainDictionary E sc samples alloc built))
| es_set E sc bytes alloc built : engine_step E (snd (setDictionary E sc bytes alloc built)).

(** A dictionary, once installed, never changes. *)
Lemma step_keeps E E' sc d : engine_step E E' -> E !! sc = Some d -> E' !! sc = Some d.
Proof.
  assert (Hins : forall sc' d', hasDictionary E sc' = false -> sc' < kNumClasses -> E !! sc = Some d ->
    <[sc' := d']> E !! sc = Some d).
  { intros sc' d' Hh Hk Hd. rewrite lookup_insert_ne; [done|]. intros ->. unfold hasDictionary in Hh.
    rewrite (proj2 (Z.ltb_lt _ _) Hk), Hd, bool_decide_eq_true_2 in Hh by (by eexists). done. }
  intros Hs Hd. destruct Hs; unfold trainDictionary, setDictionary.
  - case_if; [done|]. case_if; [done|]. case_if; [done|]. destruct (zdict_train _) as [[|]|]; try done.
    case_if; [done|]. cbn [snd]. apply Hins; [done|lia|done].
  - case_if; [done|]. destruct bytes; [|done]. repeat (case_if; [done|]). cbn [snd]. apply Hins; [done|lia|done].
Qed.

Lemma steps_keep E E' sc d : rtc engine_step E E' -> E !! sc = Some d -> E' !! sc = Some d.
Proof. induction 1; eauto using step_keeps. Qed.

Lemma info_unpack d sz a algo : 0 <= sz < 2 ^ 30 ->
  compressedSize (info_set d sz a algo) = sz /\ algorithm (info_set d sz a algo) = algo.
Proof.
  intros Hs. assert (Hb : 0 <= algo_bits algo < 4) by (destruct algo; cbn; lia).
  unfold compressedSize, algorithm, info_set. cbn [comp_size]. change 0x3FFFFFFF with (Z.ones 30).
  rewrite (wrap_small 32 sz) by lia. rewrite (wrap_small 32) by (rewrite Z.shiftl_mul_pow2; lia).
  rewrite Z.land_lor_distr_l, Z.shiftr_lor, !Z.land_ones, Z.mod_mod, Z.mod_small by lia.
  rewrite Z.shiftl_mul_pow2, Z.mod_mul, Z.lor_0_r by lia. rewrite Z.shiftr_div_pow2, Z.div_small, Z.lor_0_l by lia.
  rewrite Z.shiftr_div_pow2, Z.div_mul by lia. split; [done|]. by destruct algo.
Qed.

Context `{!CodecLaws}.

(** C18: A page compressed by a worker is decompressed to its bytes from the
    packed page record, whatever dictionaries are trained or installed in
    between; a dictionary frame needs its dictionary to be there when it is
    made, which the callers check with [hasDictionary]. *)
Theorem engine_roundtrip (E E' : Dicts) (src blob rest : list Z) (cap sc level addr alloc : Z) (algo : CompressAlgo) (n : Z) :
  worker_compress E src cap algo sc level = Some blob -> (algo = ZSTD_DICT -> hasDictionary E sc = true) ->
  rtc engine_step E E' -> cap < 2 ^ 30 -> zlen src <= n ->
  let info := info_set addr (zlen blob) alloc algo in
  0 < compressedSize info <= cap /\
  decompressWithDCtx E' (take (Z.to_nat (compressedSize info)) (blob ++ rest)) n (algorithm info) sc = Some src /\
  engine_decompress E' (take (Z.to_nat (compressedSize info)) (blob ++ rest)) n (algorithm info) sc = Some src.
Proof.
  intros Hc Hd Hs Hcap Hn info.
  assert (Hb : 0 < zlen blob <= cap /\ decompressWithDCtx E' blob n algo sc = Some src).
  { destruct algo; cbn in Hc |- *; [done| | |].
    - apply lz4_law in Hc as [? ?]; auto.
    - apply zstd_law in Hc as [? ?]; auto.
    - specialize (Hd eq_refl). unfold hasDictionary in Hd. apply andb_prop in Hd as [Hk Hi].
      apply bool_decide_eq_true in Hi as [d Hd]. unfold getCDict, dict_of in *. rewrite Hk, Hd in *.
      rewrite (steps_keep _ _ _ _ Hs Hd). apply dict_law in Hc as [? ?]; auto. }
  destruct Hb as [Hl Hb]. subst info. destruct (info_unpack addr (zlen blob) alloc algo) as [-> ->]; [lia|].
  replace (Z.to_nat (zlen blob)) with (length blob) by (unfold zlen; lia). rewrite take_app_length. splits; [lia|lia|done|done].
Qed.
End Engine.

(** ** A codec that stores bytes as they are *)

Definition stored_c (x : list Z) (cap : Z) : option (list Z) := if (0 <? zlen x) && (zlen x <=? cap) then Some x else None.
Definition stored_d (x : list Z) (n : Z) : option (list Z) := if zlen x <=? n then Some x else None.

Lemma stored_law x cap y : stored_c x cap = Some y ->
  0 < zlen y <= cap /\ forall n, zlen x <= n -> stored_d y n = Some x.
Proof.
  unfold stored_c, stored_d. intros H. case_if_in H; simplify_eq. b2p. split; [lia|]. intros n Hn.
  by rewrite (proj2 (Z.leb_le _ _)).
Qed.

Definition stored_codecs : Codecs :=
  {| lz4_compress := stored_c; lz4_decompress := stored_d; zstd_compress := fun _ => stored_c;
     zstd_decompress := stored_d; zstd_compress_usingCDict := fun _ => stored_c;
     zstd_decompress_usingDDict := fun _ => stored_d; zdict_train := fun _ => Some [1];
     lz4_compressBound := fun n => n + 16; zstd_compressBound := fun n => n + 16 |}.
Definition stored_laws : @CodecLaws stored_codecs :=
  @Build_CodecLaws stored_codecs stored_law (fun _ => stored_law) (fun _ => stored_law).

Lemma engine_roundtrip_witness :
  @decompressWithDCtx stored_codecs {[3 := [1]; 4 := [9; 9]]} (take 2 ([7; 8] ++ [0])) 16 ZSTD_DICT 3 = Some [7; 8].
Proof.
  refine (proj1 (proj2 (@engine_roundtrip stored_codecs stored_laws {[3 := [1]]} {[3 := [1]; 4 := [9; 9]]} [7; 8] [7; 8] [0]
    64 3 9 4096 64 ZSTD_DICT 16 _ _ _ _ _))); [by vm_compute|by intros _|
    |by vm_compute|by vm_compute].
  apply rtc_once. exact (@es_set stored_codecs {[3 := [1]]} 4 (Some [9; 9]) true true).
Defined.
