(* ===== verification/PageProg.v ===== *)
(** * Programs over shared state and their interleavings

    Code that runs concurrently with the application is written as a program:
    a tree of atomic accesses.  An access maps the shared state to the possible
    results and next states; no result means the thread waits.  A pool of threads
    takes accesses in any order.  [wp] is the rely-guarantee reading of a program
    and [pool_safe] its soundness for every interleaving. *)

From S2P Require Import Prelude.

Inductive prog (W : Type) (A : Type) : Type :=
| Ret (a : A)
| Act (X : Type) (f : W -> list (X * W)) (k : X -> prog W A).
Arguments Ret {W A} a.
Arguments Act {W A X} f k.

Fixpoint bind {W A B} (p : prog W A) (q : A -> prog W B) : prog W B :=
  match p with
  | Ret a => q a
  | Act f k => Act f (fun x => bind (k x) q)
  end.

Declare Scope prog_scope.
Delimit Scope prog_scope with prog.
Notation "x <- p ; q" := (bind p (fun x => q)) (at level 100, p at next level, right associativity) : prog_scope.
Notation "p ;; q" := (bind p (fun _ => q)) (at level 100, right associativity) : prog_scope.
Open Scope prog_scope.

(** Read, update, choose. *)
Definition get {W A} (f : W -> A) : prog W A := Act (fun w => [(f w, w)]) Ret.
Definition upd {W} (f : W -> W) : prog W unit := Act (fun w => [(tt, f w)]) Ret.
Definition choice {W} : prog W bool := Act (fun w => [(true, w); (false, w)]) Ret.

(** Running alone, taking the first result of each access. *)
Fixpoint exec {W A} (p : prog W A) (w : W) : option (A * W) :=
  match p with
  | Ret a => Some (a, w)
  | Act f k =>
    match f w with
    | (x, w') :: _ => exec (k x) w'
    | [] => None
    end
  end.

Lemma exec_bind {W A B} (p : prog W A) (q : A -> prog W B) w :
  exec (bind p q) w = match exec p w with Some (a, w') => exec (q a) w' | None => None end.
Proof.
  revert w. induction p as [a|X f k IH]; intros w; [done|]. cbn. destruct (f w) as [|[x w'] ?]; [done|]. apply IH.
Qed.

(** ** Pools of threads *)

Section Pool.
Context {W : Type}.

(** Thread [t] runs [pool t]; when it is done it may start any program of its
    menu. *)
Definition pool : Type := Z -> prog W unit.
Definition set_thread (ps : pool) (t : Z) (p : prog W unit) : pool := fun t' => if t' =? t then p else ps t'.

Inductive pstep (menu : Z -> prog W unit -> Prop) : W * pool -> W * pool -> Prop :=
| ps_act w ps t X (f : W -> list (X * W)) k x w' :
    ps t = Act f k -> (x, w') ∈ f w -> pstep menu (w, ps) (w', set_thread ps t (k x))
| ps_start w ps t p : ps t = Ret tt -> menu t p -> pstep menu (w, ps) (w, set_thread ps t p).

(** An executable interleaving: a thread starts a program, gets the [n]-th result
    of its next access, or runs alone to the end with first results. *)
Inductive event := Start (p : prog W unit) | Step (n : nat) | Finish.

Fixpoint run_trace (l : list (Z * event)) (w : W) (ps : pool) : option (W * pool) :=
  match l with
  | [] => Some (w, ps)
  | (t, Start p) :: l => match ps t with Ret _ => run_trace l w (set_thread ps t p) | Act _ _ => None end
  | (t, Step n) :: l =>
    match ps t with
    | Ret _ => None
    | Act f k => match f w !! n with Some (x, w') => run_trace l w' (set_thread ps t (k x)) | None => None end
    end
  | (t, Finish) :: l =>
    match exec (ps t) w with Some (_, w') => run_trace l w' (set_thread ps t (Ret tt)) | None => None end
  end.

(** What a trace starts is on the menu. *)
Definition on_menu (menu : Z -> prog W unit -> Prop) (e : Z * event) : Prop :=
  match snd e with Start p => menu (fst e) p | _ => True end.

(** Two pools that agree on every thread take the same steps. *)
Definition pool_eq (ps qs : pool) : Prop := forall t, ps t = qs t.

Lemma finish_steps menu p w w' t ps : exec p w = Some (tt, w') -> ps t = p ->
  exists qs, rtc (pstep menu) (w, ps) (w', qs) /\ pool_eq (set_thread ps t (Ret tt)) qs.
Proof.
  revert w ps. induction p as [[]|X f k IH]; intros w ps He Hp; cbn in He.
  - simplify_eq. exists ps. split; [apply rtc_refl|]. intros t'. unfold set_thread. by destruct (Z.eqb_spec t' t) as [->|].
  - destruct (f w) as [|[x w1] r] eqn:Ef; [done|].
    destruct (IH x w1 (set_thread ps t (k x)) He) as (qs & Hr & Hq); [unfold set_thread; by rewrite Z.eqb_refl|].
    exists qs. split.
    + eapply rtc_l; [|exact Hr]. eapply ps_act; [exact Hp|]. rewrite Ef. by left.
    + intros t'. rewrite <- Hq. unfold set_thread. by destruct (t' =? t).
Qed.

Lemma run_trace_sound menu l w ps qs w' ps' :
  run_trace l w ps = Some (w', ps') -> pool_eq ps qs -> Forall (on_menu menu) l ->
  exists qs', rtc (pstep menu) (w, qs) (w', qs').
Proof.
  revert w ps qs. induction l as [|[t e] l IH]; intros w ps qs H He Hm; cbn in H; [simplify_eq; by exists qs; apply rtc_refl|].
  apply Forall_cons in Hm as [Hm Hm'].
  assert (Hset : forall p, pool_eq (set_thread ps t p) (set_thread qs t p)).
  { intros p t'. unfold set_thread. by destruct (t' =? t). }
  destruct e as [p|n|].
  - destruct (ps t) as [u|] eqn:Ep; [|done]. destruct (IH w _ _ H (Hset p) Hm') as [qs' Hr]. exists qs'. eapply rtc_l; [|exact Hr].
    apply ps_start; [rewrite <- He, Ep; by destruct u|exact Hm].
  - destruct (ps t) as [|X f k] eqn:Ep; [done|]. destruct (f w !! n) as [[x w1]|] eqn:Ef; [|done].
    destruct (IH w1 _ _ H (Hset (k x)) Hm') as [qs' Hr]. exists qs'. eapply rtc_l; [|exact Hr].
    eapply ps_act; [by rewrite <- He, Ep|]. by eapply list_elem_of_lookup_2.
  - destruct (exec (ps t) w) as [[[] w1]|] eqn:Ex; [|done].
    destruct (finish_steps menu (ps t) w w1 t qs Ex) as (qs1 & Hr1 & Hq1); [by rewrite He|].
    destruct (IH w1 (set_thread ps t (Ret tt)) qs1 H) as [qs' Hr]; [|done|].
    + intros t'. rewrite <- Hq1. apply Hset.
    + exists qs'. by etrans.
Qed.

(** ** Running alone, with every result *)

(** No access waits and every outcome ends in [Q]. *)
Fixpoint always {A} (p : prog W A) (Q : A -> W -> Prop) (w : W) : Prop :=
  match p with
  | Ret a => Q a w
  | Act f k => f w <> [] /\ forall x w', (x, w') ∈ f w -> always (k x) Q w'
  end.

Lemma always_bind {A B} (p : prog W A) (q : A -> prog W B) Q w : always p (fun a => always (q a) Q) w -> always (bind p q) Q w.
Proof.
  revert w. induction p as [a|X f k IH]; intros w; cbn; [done|]. intros [Hn Hk]. split; [done|]. intros x w' Hx. by apply IH, Hk.
Qed.

Lemma always_mono {A} (p : prog W A) (Q Q' : A -> W -> Prop) w : (forall a w, Q a w -> Q' a w) -> always p Q w -> always p Q' w.
Proof.
  intros HQ. revert w. induction p as [a|X f k IH]; intros w; cbn; [apply HQ|]. intros [Hn Hk]. split; [done|]. intros x w' Hx. by apply IH, Hk.
Qed.

Lemma always_get {A} (g : W -> A) Q w : Q (g w) w -> always (get g) Q w.
Proof. intros Hq. split; [done|]. intros x w' Hx. apply list_elem_of_singleton in Hx. by simplify_eq. Qed.
Lemma always_upd (f : W -> W) Q w : Q tt (f w) -> always (upd f) Q w.
Proof. intros Hq. split; [done|]. intros x w' Hx. apply list_elem_of_singleton in Hx. by simplify_eq. Qed.
Lemma always_choice Q w : (forall b, Q b w) -> always choice Q w.
Proof.
  intros Hq. split; [done|]. intros x w' Hx. apply elem_of_cons in Hx as [Hx|Hx]; [|apply list_elem_of_singleton in Hx]; simplify_eq; apply Hq.
Qed.

(** ** Rely-guarantee reasoning *)

(** [R t] is what thread [t] tolerates from the others. *)
Context (R : Z -> relation W).

Fixpoint wp {A} (t : Z) (p : prog W A) (Q : A -> W -> Prop) (w : W) : Prop :=
  match p with
  | Ret a => forall w1, rtc (R t) w w1 -> Q a w1
  | Act f k => forall w1, rtc (R t) w w1 -> forall x w2, (x, w2) ∈ f w1 ->
      (forall t', t' <> t -> R t' w1 w2) /\ wp t (k x) Q w2
  end.

Lemma wp_rely {A} t (p : prog W A) Q w w' : rtc (R t) w w' -> wp t p Q w -> wp t p Q w'.
Proof.
  intros Hr. destruct p; cbn; intros H.
  - intros w1 H1. apply H. by etrans.
  - intros w1 H1 x w2 Hx. apply (H w1); [by etrans|done].
Qed.

Lemma wp_mono {A} t (p : prog W A) (Q Q' : A -> W -> Prop) w :
  (forall a w, Q a w -> Q' a w) -> wp t p Q w -> wp t p Q' w.
Proof.
  intros HQ. revert w. induction p as [a|X f k IH]; intros w H; cbn in *; [auto|].
  intros w1 Hr x w2 Hx. destruct (H w1 Hr x w2 Hx). auto.
Qed.

Lemma wp_bind {A B} t (p : prog W A) (q : A -> prog W B) Q w :
  wp t p (fun a => wp t (q a) Q) w -> wp t (bind p q) Q w.
Proof.
  revert w. induction p as [a|X f k IH]; intros w H; cbn in *.
  - specialize (H w (rtc_refl _ _)). done.
  - intros w1 Hr x w2 Hx. destruct (H w1 Hr x w2 Hx). auto.
Qed.

Definition stable (t : Z) (P : W -> Prop) : Prop := forall w w', R t w w' -> P w -> P w'.

Lemma stable_rtc t P w w' : stable t P -> rtc (R t) w w' -> P w -> P w'.
Proof. intros Hs. induction 1; eauto. Qed.

(** The rule for an access under a stable assertion. *)
Lemma wp_act {A X} t (f : W -> list (X * W)) (k : X -> prog W A) Q (P : W -> Prop) w :
  stable t P -> P w ->
  (forall w1 x w2, P w1 -> (x, w2) ∈ f w1 -> (forall t', t' <> t -> R t' w1 w2) /\ wp t (k x) Q w2) ->
  wp t (Act f k) Q w.
Proof. intros Hs Hp H w1 Hr x w2 Hx. apply H; [|done]. by eapply stable_rtc. Qed.

Lemma wp_ret {A} t (a : A) Q (P : W -> Prop) w :
  stable t P -> P w -> (forall w1, P w1 -> Q a w1) -> wp t (Ret a) Q w.
Proof. intros Hs Hp H w1 Hr. apply H. by eapply stable_rtc. Qed.

(** Every thread starts its programs from, and ends them in, [idle t]. *)
Context (I : W -> Prop) (idle : Z -> W -> Prop) (menu : Z -> prog W unit -> Prop).
Hypothesis I_stable : forall t, stable t I.
Hypothesis menu_ok : forall t p w, menu t p -> I w -> idle t w -> wp t p (fun _ w => I w /\ idle t w) w.

Definition pool_ok (c : W * pool) : Prop :=
  I (fst c) /\ forall t, wp t (snd c t) (fun _ w => I w /\ idle t w) (fst c).

Lemma pool_step_ok c c' : pstep menu c c' -> (forall t : Z, exists t' : Z, t' <> t) -> pool_ok c -> pool_ok c'.
Proof.
  intros Hs Ho [HI Hw]. destruct Hs as [w ps t X f k x w' Ep Hx|w ps t p Ep Hm]; split; cbn [fst snd] in *; [| |done|].
  - specialize (Hw t). rewrite Ep in Hw. destruct (Hw w (rtc_refl _ _) x w' Hx) as [Hg _].
    destruct (Ho t) as [t' Ht']. eapply (I_stable t'); [by apply Hg|done].
  - intros t'. unfold set_thread. destruct (Z.eqb_spec t' t) as [->|Hne].
    + specialize (Hw t). rewrite Ep in Hw. by destruct (Hw w (rtc_refl _ _) x w' Hx).
    + pose proof (Hw t) as Ht. rewrite Ep in Ht. destruct (Ht w (rtc_refl _ _) x w' Hx) as [Hg _].
      eapply wp_rely; [|apply Hw]. apply rtc_once. by apply Hg.
  - intros t'. unfold set_thread. destruct (Z.eqb_spec t' t) as [->|Hne]; [|done].
    specialize (Hw t). rewrite Ep in Hw. destruct (Hw w (rtc_refl _ _)). by apply menu_ok.
Qed.

(** Soundness: whatever the interleaving, [I] holds. *)
Lemma pool_safe c c' : rtc (pstep menu) c c' -> pool_ok c -> pool_ok c'.
Proof.
  induction 1; [done|]. intros Hc. apply IHrtc. eapply pool_step_ok; [done| |done].
  intros t. exists (t + 1). lia.
Qed.
End Pool.
