(* ===== verification/PageWorld.v ===== *)
(** * The world of one page

    Everything the compressor, the fault handler and the application share about
    one page: its lock, state, protection and bytes, the record of its blob, the
    blobs held by the two stores, the per-page counters, the span that owns the
    page, the statistics, and the bytes the application last wrote.  Kernel calls
    are accesses with their possible results. *)

From S2P Require Import Prelude Config Engine Stats PageState PageProg BlobStore.
From S2P Require Span.

#[local] Abbreviation Span := Span.Span.

Inductive Prot := PNone | PRead | PRW.

#[export] Instance Prot_eq_dec : EqDecision Prot.
Proof. solve_decision. Defined.

(** What the heap is told through [compressed_fn_] and [decompressed_fn_]. *)
Inductive Event := EvCompressed (arena_id size_class : Z) | EvDecompressed (arena_id size_class : Z).

(** The per-page arrays of the compressor. *)
(* src/compress/compressor_thread.h:332-405 CompressorThread *)
Record Meta := mkMeta {
  accessed : bool; cold_count : Z; page_tier : Z; recompress_count : Z; compress_fail_count : Z;
  write_clean_streak : Z; shadow_tick : Z; deferred_pending : bool; deferred_queue_tick : Z
}.

(** [stats_] are the buckets of the worker that owns the page's range, [arms_] its
    arms per arena, [stats0_] the buckets of worker 0, [truth_] the bytes the application relies on,
    [slots_] how many of the fault slots, which all pages share, are free. *)
Record PW := mkPW {
  lock_ : option Z; state_ : PageState; prot_ : Prot; mem_ : list Z; info_ : CompressedPageInfo;
  blobs_ : gmap Z (list Z); spilled_ : gmap Z (list Z); meta_ : Meta; dicts_ : Dicts; span_ : option Span;
  stats_ : gmap Z SizeClassStats; stats0_ : gmap Z SizeClassStats; arms_ : gmap Z Arms; rc_ema_ : gmap Z Z; rc_count_ : gmap Z Z;
  events_ : list Event; truth_ : list (option Z); slots_ : Z
}.

Definition set_lock_ x w := mkPW x (state_ w) (prot_ w) (mem_ w) (info_ w) (blobs_ w) (spilled_ w) (meta_ w) (dicts_ w) (span_ w) (stats_ w) (stats0_ w) (arms_ w) (rc_ema_ w) (rc_count_ w) (events_ w) (truth_ w) (slots_ w).
Definition set_state_ x w := mkPW (lock_ w) x (prot_ w) (mem_ w) (info_ w) (blobs_ w) (spilled_ w) (meta_ w) (dicts_ w) (span_ w) (stats_ w) (stats0_ w) (arms_ w) (rc_ema_ w) (rc_count_ w) (events_ w) (truth_ w) (slots_ w).
Definition set_prot_ x w := mkPW (lock_ w) (state_ w) x (mem_ w) (info_ w) (blobs_ w) (spilled_ w) (meta_ w) (dicts_ w) (span_ w) (stats_ w) (stats0_ w) (arms_ w) (rc_ema_ w) (rc_count_ w) (events_ w) (truth_ w) (slots_ w).
Definition set_mem_ x w := mkPW (lock_ w) (state_ w) (prot_ w) x (info_ w) (blobs_ w) (spilled_ w) (meta_ w) (dicts_ w) (span_ w) (stats_ w) (stats0_ w) (arms_ w) (rc_ema_ w) (rc_count_ w) (events_ w) (truth_ w) (slots_ w).
Definition set_info_ x w := mkPW (lock_ w) (state_ w) (prot_ w) (mem_ w) x (blobs_ w) (spilled_ w) (meta_ w) (dicts_ w) (span_ w) (stats_ w) (stats0_ w) (arms_ w) (rc_ema_ w) (rc_count_ w) (events_ w) (truth_ w) (slots_ w).
Definition set_blobs_ x w := mkPW (lock_ w) (state_ w) (prot_ w) (mem_ w) (info_ w) x (spilled_ w) (meta_ w) (dicts_ w) (span_ w) (stats_ w) (stats0_ w) (arms_ w) (rc_ema_ w) (rc_count_ w) (events_ w) (truth_ w) (slots_ w).
Definition set_spilled_ x w := mkPW (lock_ w) (state_ w) (prot_ w) (mem_ w) (info_ w) (blobs_ w) x (meta_ w) (dicts_ w) (span_ w) (stats_ w) (stats0_ w) (arms_ w) (rc_ema_ w) (rc_count_ w) (events_ w) (truth_ w) (slots_ w).
Definition set_meta_ x w := mkPW (lock_ w) (state_ w) (prot_ w) (mem_ w) (info_ w) (blobs_ w) (spilled_ w) x (dicts_ w) (span_ w) (stats_ w) (stats0_ w) (arms_ w) (rc_ema_ w) (rc_count_ w) (events_ w) (truth_ w) (slots_ w).
Definition set_dicts_ x w := mkPW (lock_ w) (state_ w) (prot_ w) (mem_ w) (info_ w) (blobs_ w) (spilled_ w) (meta_ w) x (span_ w) (stats_ w) (stats0_ w) (arms_ w) (rc_ema_ w) (rc_count_ w) (events_ w) (truth_ w) (slots_ w).
Definition set_span_ x w := mkPW (lock_ w) (state_ w) (prot_ w) (mem_ w) (info_ w) (blobs_ w) (spilled_ w) (meta_ w) (dicts_ w) x (stats_ w) (stats0_ w) (arms_ w) (rc_ema_ w) (rc_count_ w) (events_ w) (truth_ w) (slots_ w).
Definition set_stats_ x w := mkPW (lock_ w) (state_ w) (prot_ w) (mem_ w) (info_ w) (blobs_ w) (spilled_ w) (meta_ w) (dicts_ w) (span_ w) x (stats0_ w) (arms_ w) (rc_ema_ w) (rc_count_ w) (events_ w) (truth_ w) (slots_ w).
Definition set_stats0_ x w := mkPW (lock_ w) (state_ w) (prot_ w) (mem_ w) (info_ w) (blobs_ w) (spilled_ w) (meta_ w) (dicts_ w) (span_ w) (stats_ w) x (arms_ w) (rc_ema_ w) (rc_count_ w) (events_ w) (truth_ w) (slots_ w).
Definition set_arms_ x w := mkPW (lock_ w) (state_ w) (prot_ w) (mem_ w) (info_ w) (blobs_ w) (spilled_ w) (meta_ w) (dicts_ w) (span_ w) (stats_ w) (stats0_ w) x (rc_ema_ w) (rc_count_ w) (events_ w) (truth_ w) (slots_ w).
Definition set_rc_ x y w := mkPW (lock_ w) (state_ w) (prot_ w) (mem_ w) (info_ w) (blobs_ w) (spilled_ w) (meta_ w) (dicts_ w) (span_ w) (stats_ w) (stats0_ w) (arms_ w) x y (events_ w) (truth_ w) (slots_ w).
Definition set_events_ x w := mkPW (lock_ w) (state_ w) (prot_ w) (mem_ w) (info_ w) (blobs_ w) (spilled_ w) (meta_ w) (dicts_ w) (span_ w) (stats_ w) (stats0_ w) (arms_ w) (rc_ema_ w) (rc_count_ w) x (truth_ w) (slots_ w).
Definition set_truth_ x w := mkPW (lock_ w) (state_ w) (prot_ w) (mem_ w) (info_ w) (blobs_ w) (spilled_ w) (meta_ w) (dicts_ w) (span_ w) (stats_ w) (stats0_ w) (arms_ w) (rc_ema_ w) (rc_count_ w) (events_ w) x (slots_ w).

Definition set_slots_ x w := mkPW (lock_ w) (state_ w) (prot_ w) (mem_ w) (info_ w) (blobs_ w) (spilled_ w) (meta_ w) (dicts_ w) (span_ w) (stats_ w) (stats0_ w) (arms_ w) (rc_ema_ w) (rc_count_ w) (events_ w) (truth_ w) x.
Definition upd_meta (f : Meta -> Meta) (w : PW) : PW := set_meta_ (f (meta_ w)) w.
Definition m_cold x m := mkMeta (accessed m) x (page_tier m) (recompress_count m) (compress_fail_count m) (write_clean_streak m) (shadow_tick m) (deferred_pending m) (deferred_queue_tick m).
Definition m_accessed x m := mkMeta x (cold_count m) (page_tier m) (recompress_count m) (compress_fail_count m) (write_clean_streak m) (shadow_tick m) (deferred_pending m) (deferred_queue_tick m).
Definition m_tier x m := mkMeta (accessed m) (cold_count m) x (recompress_count m) (compress_fail_count m) (write_clean_streak m) (shadow_tick m) (deferred_pending m) (deferred_queue_tick m).
Definition m_rc x m := mkMeta (accessed m) (cold_count m) (page_tier m) x (compress_fail_count m) (write_clean_streak m) (shadow_tick m) (deferred_pending m) (deferred_queue_tick m).
Definition m_fail x m := mkMeta (accessed m) (cold_count m) (page_tier m) (recompress_count m) x (write_clean_streak m) (shadow_tick m) (deferred_pending m) (deferred_queue_tick m).
Definition m_streak x m := mkMeta (accessed m) (cold_count m) (page_tier m) (recompress_count m) (compress_fail_count m) x (shadow_tick m) (deferred_pending m) (deferred_queue_tick m).
Definition m_shadow x m := mkMeta (accessed m) (cold_count m) (page_tier m) (recompress_count m) (compress_fail_count m) (write_clean_streak m) x (deferred_pending m) (deferred_queue_tick m).
Definition m_pending x m := mkMeta (accessed m) (cold_count m) (page_tier m) (recompress_count m) (compress_fail_count m) (write_clean_streak m) (shadow_tick m) x (deferred_queue_tick m).
Definition m_queue x m := mkMeta (accessed m) (cold_count m) (page_tier m) (recompress_count m) (compress_fail_count m) (write_clean_streak m) (shadow_tick m) (deferred_pending m) x.

(** Update of one bucket of a statistics table. *)
Definition upd_bucket (idx : Z) (f : SizeClassStats -> SizeClassStats) (m : gmap Z SizeClassStats) : gmap Z SizeClassStats :=
  <[idx := f (rd fresh_stats m idx)]> m.

(** ** What varies between runs *)

(** Switches of the environment and the build, and what the kernel may refuse. *)
Record Cfg := mkCfg {
  page_bytes : Z;                (* kPageSize *)
  page_addr : option Z;          (* vm_->pageAddress(page_idx) *)
  isDeferredReclaimMode : bool; fixavEnabled : bool; deferMadviseEnabled : bool; p2_chunk : bool;
  kDeepTierEnabled : bool; cfg_safe_memcpy_ : bool; cfg_snapshot_verify_ : bool; self_mem_ok : bool;
  ratio_gate : Z;                (* static_cast<size_t>(kPageSize * min_ratio) *)
  softdirty_roi : bool; use_ucb : bool; ucb_warm : bool; tick_counter_ : Z; deferMadviseTicks : Z; reclaim_delay : Z;
  mprotect_may_fail : bool; pwrite_may_fail : bool; store_may_fail : bool
}.

(** The algorithm, zstd level and tier chosen for a page. *)
Record Choice := mkChoice { ch_algo : CompressAlgo; ch_level : Z; ch_tier : Z }.

Section Primitives.
Context (cfg : Cfg).

Abbreviation P A := (prog PW A).

Definition zero_page : list Z := replicate (Z.to_nat (page_bytes cfg)) 0.

(** The page lock. *)
Definition lock (t : Z) : P unit :=
  Act (fun w => match lock_ w with None => [(tt, set_lock_ (Some t) w)] | Some _ => [] end) Ret.
Definition tryLock (t : Z) : P bool :=
  Act (fun w => match lock_ w with None => [(true, set_lock_ (Some t) w)] | Some _ => [(false, w)] end) Ret.
Definition unlock : P unit := upd (set_lock_ None).
Definition heldByThisThread (t : Z) : P bool := get (fun w => bool_decide (lock_ w = Some t)).

Definition get_state : P PageState := get state_.
Definition set_state (s : PageState) : P unit := upd (set_state_ s).
Definition transition (a b : PageState) : P bool :=
  Act (fun w => if state_eqb (state_ w) a then [(true, set_state_ b w)] else [(false, w)]) Ret.

(** The fault slots: one search takes a free slot, or gives up (it may pass a slot
    just before it is freed); the loop around it waits until a slot is taken. *)
(* src/compress/compressor_thread.h:516-519 CompressorThread::kFaultSlotCount *)
Definition kFaultSlotCount : Z := 128.
(* src/compress/compressor_thread.h:521-529 CompressorThread::acquireFaultSlot *)
Definition acquireFaultSlot : P bool :=
  Act (fun w => if 0 <? slots_ w then [(true, set_slots_ (slots_ w - 1) w); (false, w)] else [(false, w)]) Ret.
(* src/compress/compressor_thread.h:5859-5869 CompressorThread::handleFault *)
Definition waitFaultSlot : P unit :=
  Act (fun w => if 0 <? slots_ w then [(tt, set_slots_ (slots_ w - 1) w)] else []) Ret.
(* src/compress/compressor_thread.h:531-533 CompressorThread::releaseFaultSlot *)
Definition releaseFaultSlot : P unit := upd (fun w => set_slots_ (slots_ w + 1) w).

(* src/vm/platform_mem.h:232-284 protectPages *)
Definition protectPages (p : Prot) : P bool :=
  Act (fun w => (true, set_prot_ p w) :: if mprotect_may_fail cfg then [(false, w)] else []) Ret.
(* src/vm/platform_mem.h:126-132 commitPages *)
Definition commitPages : P bool := protectPages PRW.
(* src/vm/platform_mem.h:291-320 remapPages *)
Definition remapPages (p : Prot) : P bool :=
  Act (fun w => (true, set_prot_ p (set_mem_ zero_page w)) :: if mprotect_may_fail cfg then [(false, w)] else []) Ret.
(** The bytes are gone, or still there (lazy or disabled). *)
(* src/vm/platform_mem.h:155-203 decommitPages *)
Definition decommitPages : P unit := Act (fun w => [(tt, set_mem_ zero_page w); (tt, w)]) Ret.

(** Loads and stores of the calling thread; an inaccessible page stops it. *)
Definition load (off : Z) : P Z :=
  Act (fun w => if bool_decide (prot_ w = PNone) then [] else [(zget 0 (mem_ w) off, w)]) Ret.
Definition store_byte (off v : Z) : P unit :=
  Act (fun w => if bool_decide (prot_ w = PRW) then [(tt, set_mem_ (zset (mem_ w) off v) w)] else []) Ret.

(** [memcpy] out of the page, into the page, and [memcmp] with the page. *)
Fixpoint copy_out (n : nat) (off : Z) : P (list Z) :=
  match n with
  | O => Ret []
  | S n => b <- load off; r <- copy_out n (off + 1); Ret (b :: r)
  end.
Fixpoint copy_in (src : list Z) (off : Z) : P unit :=
  match src with
  | [] => Ret tt
  | b :: src => store_byte off b;; copy_in src (off + 1)
  end.
Fixpoint compare (src : list Z) (off : Z) : P bool :=
  match src with
  | [] => Ret true
  | b :: src => c <- load off; if c =? b then compare src (off + 1) else Ret false
  end.
Definition copy_page : P (list Z) := copy_out (Z.to_nat (page_bytes cfg)) 0.

(** A write of the whole page through [/proc/self/mem], which does not look at the
    protection; a failed one may have written a part. *)
Definition pwrite_page (src : list Z) : P bool :=
  Act (fun w => (true, set_mem_ src w) ::
    if pwrite_may_fail cfg
    then map (fun k => (false, set_mem_ (take k src ++ drop k (mem_ w)) w)) (seq 0 (length src)) else []) Ret.

(** The stores, as maps from the addresses of the blobs they hold; [place] is
    the address the store takes. *)
Context (place : gmap Z (list Z) -> Z).
Definition held (w : PW) : gmap Z (list Z) := blobs_ w ∪ spilled_ w.
Definition store_blob (bytes : list Z) : P (Z * Z) :=
  Act (fun w => let a := place (held w) in
    ((a, slot_size_for (zlen bytes)), set_blobs_ (<[a := bytes]> (blobs_ w)) w) ::
    if store_may_fail cfg then [((0, 0), w)] else []) Ret.
Definition spill_blob (bytes : list Z) : P (Z * Z) :=
  Act (fun w => let a := place (held w) in
    ((a, slot_size_for (zlen bytes)), set_spilled_ (<[a := bytes]> (spilled_ w)) w) ::
    if store_may_fail cfg then [((0, 0), w)] else []) Ret.
Definition release_blob_at (a : Z) : P unit := upd (fun w => set_blobs_ (delete a (blobs_ w)) w).
Definition release_spilled_at (a : Z) : P unit := upd (fun w => set_spilled_ (delete a (spilled_ w)) w).
End Primitives.
