(* ===== verification/Roi.v ===== *)
(** * Cost model of compression (src/compress/compression_roi.h)

    The return on compressing a page in fixed point, the gate, and the choice of
    a tier, by that return or by a bandit over observed rewards.  The logarithm
    of the C library is an argument. *)

From S2P Require Import Prelude Config Double Stats Engine PageWorld.

(* src/compress/compression_roi.h:67-76 AlgoProfile *)
Record AlgoProfile := mkProfile {
  p_algo : CompressAlgo; zstd_level : Z; comp_mbs_hi : Z; comp_mbs_lo : Z; decomp_mbs_hi : Z; decomp_mbs_lo : Z;
  min_cold_ticks : Z; ratio_scale_num : Z; ratio_scale_den : Z
}.

(** [lo + (hi - lo) * ratio / 255] in 32-bit unsigned arithmetic, at least 1. *)
Definition interpolate (lo hi ratio_255 : Z) : Z :=
  let tp := u32 (lo + u32 (u32 (hi - lo) * ratio_255) / 255) in
  if 0 <? tp then tp else 1.

(* src/compress/compression_roi.h:80-84 AlgoProfile::compThroughput *)
Definition compThroughput (p : AlgoProfile) (ratio_255 : Z) : Z := interpolate (comp_mbs_lo p) (comp_mbs_hi p) ratio_255.
(* src/compress/compression_roi.h:86-90 AlgoProfile::decompThroughput *)
Definition decompThroughput (p : AlgoProfile) (ratio_255 : Z) : Z := interpolate (decomp_mbs_lo p) (decomp_mbs_hi p) ratio_255.

(* src/compress/compression_roi.h:111-149 AlgoProfile::computeROI *)
Definition computeROI `{PageGeometry} (p : AlgoProfile) (cold_count ratio_255 observed_comp_us redirty_discount_x256 : Z) : Z :=
  let effective_ratio :=
    if negb (ratio_scale_num p =? ratio_scale_den p) && (0 <? ratio_scale_den p)
    then let scaled := u32 (ratio_255 * ratio_scale_num p) / ratio_scale_den p in u16 (if 255 <? scaled then 255 else scaled)
    else ratio_255 in
  let benefit := u64 (u64 (kPageSize * effective_ratio) * cold_count) / 255 in
  let benefit := if redirty_discount_x256 <? 256 then u64 (benefit * redirty_discount_x256) / 256 else benefit in
  if benefit =? 0 then 0
  else
    let decomp_tp := decompThroughput p effective_ratio in
    let comp_cost_x256 := if 0 <? observed_comp_us then u32 (observed_comp_us * 256)
                          else u32 (kPageSize * 256) / compThroughput p effective_ratio in
    let cost_x256 := u32 (comp_cost_x256 + u32 (kPageSize * 256) / decomp_tp) in
    if cost_x256 =? 0 then 2 ^ 32 - 1
    else
      let roi := u64 (benefit * 256) / cost_x256 in
      if 2 ^ 32 - 1 <? roi then 2 ^ 32 - 1 else roi.

(** What the decisions read of [ROIConfig]. *)
Record RoiCfg := mkRoi {
  cold_ticks_floor : Z; cold_ticks_overridden : bool; roi_threshold : Z; profiles : list AlgoProfile;
  roi_use_ucb : bool; ucb_min_pulls : Z; ucb_v : bool; ucb_force_deep_every : Z; ucb_warmstart : bool
}.

Definition no_profile : AlgoProfile := mkProfile NONE 0 0 0 0 0 0 1 1.

(* src/compress/compression_roi.h:651-679 CompressionROI::shouldCompress *)
Definition shouldCompress `{PageGeometry} (cfg : RoiCfg) (cold_count stats_count stats_sum redirty_discount_x256 : Z) : bool :=
  if cold_count <? cold_ticks_floor cfg then false
  else if cold_ticks_overridden cfg then true
  else if (stats_count <? 8) && (256 <=? redirty_discount_x256) then true
  else
    let avg_ratio := if 8 <=? stats_count then stats_sum / stats_count else 128 in
    let roi := computeROI (zget no_profile (profiles cfg) 0) cold_count avg_ratio 0 redirty_discount_x256 in
    roi_threshold cfg <=? roi.

(** The loop over the profiles from index [i]. *)
Fixpoint best_profile `{PageGeometry} (ps : list AlgoProfile) (i : Z) (cold_count base_ratio : Z) (observed : Z -> Z)
    (best best_roi : Z) : Z :=
  match ps with
  | [] => best
  | p :: ps =>
    if cold_count <? min_cold_ticks p then best_profile ps (i + 1) cold_count base_ratio observed best best_roi
    else
      let roi := computeROI p cold_count base_ratio (observed i) 256 in
      if best_roi <? roi then best_profile ps (i + 1) cold_count base_ratio observed i roi
      else best_profile ps (i + 1) cold_count base_ratio observed best best_roi
  end.

(** The index of the chosen profile. *)
(* src/compress/compression_roi.h:693-719 CompressionROI::selectProfile *)
Definition selectProfile `{PageGeometry} (cfg : RoiCfg) (cold_count stats_count stats_sum : Z) (observed : Z -> Z) : option Z :=
  if zlen (profiles cfg) =? 0 then None
  else if (zlen (profiles cfg) =? 1) || (stats_count <? 8) then Some 0
  else Some (best_profile (profiles cfg) 0 cold_count (stats_sum / stats_count) observed 0 0).

(* src/compress/compression_roi.h:868-876 CompressionROI::ucbReward *)
Definition ucbReward (comp_size orig_size comp_us : Z) : double :=
  if (comp_us =? 0) || (orig_size =? 0) || (orig_size <=? comp_size) then dZ 0
  else
    let bps := ddiv (dZ (orig_size - comp_size)) (dZ comp_us) in
    if dle bps (dZ 0) then dZ 0
    else if dle (dZ 16384) bps then dZ 1
    else ddiv bps (dZ 16384).

(* src/compress/compression_roi.h:881-891 CompressionROI::selectAlgorithm *)
Definition selectAlgorithm `{PageGeometry} (cfg : RoiCfg) (cold_count stats_count stats_sum : Z) (E : Dicts) (sc : Z) : CompressAlgo :=
  match selectProfile cfg cold_count stats_count stats_sum (fun _ => 0) with
  | None => NONE
  | Some i =>
    let p := zget no_profile (profiles cfg) i in
    if bool_decide (p_algo p = ZSTD) && (zstd_level p =? kZstdDeepLevel) && hasDictionary E sc then ZSTD_DICT else p_algo p
  end.

(** ** The bandit *)

(** One arm: pulls, mean, sum of squared deviations, eligibility. *)
Record Arm := mkArm { a_pulls : Z; a_mean : double; a_m2 : double; a_eligible : bool }.

(** An arm with too few pulls borrows from the arena's arm. *)
(* src/compress/compression_roi.h:775-808 CompressionROI::selectTierUCB *)
Definition effective (min_pulls : Z) (a : Arm) (prior : option (Z * double * double)) : Arm :=
  match prior with
  | None => a
  | Some (pp, pm, pm2) =>
    if (min_pulls <=? a_pulls a) || (pp =? 0) then a
    else
      let cap := if a_pulls a <? min_pulls then min_pulls - a_pulls a else 0 in
      let p_n := if pp <? cap then pp else cap in
      if p_n =? 0 then a
      else
        let n_a := dZ (a_pulls a) in
        let n_b := dZ p_n in
        let scale := if 0 <? pp then ddiv n_b (dZ pp) else dZ 0 in
        let m2_b := dmul pm2 scale in
        let total_n := dadd n_a n_b in
        let delta := dsub pm (a_mean a) in
        mkArm (u32 (a_pulls a + p_n)) (dadd (a_mean a) (ddiv (dmul delta n_b) total_n))
          (dadd (dadd (a_m2 a) m2_b) (ddiv (dmul (dmul (dmul delta delta) n_a) n_b) total_n)) (a_eligible a)
  end.

(** The eligible arm with the fewest pulls below [best_pulls], if any. *)
(* src/compress/compression_roi.h:810-822 CompressionROI::selectTierUCB *)
Fixpoint forced_arm (arms : list Arm) (i best best_pulls : Z) : Z :=
  match arms with
  | [] => best
  | a :: arms =>
    if a_eligible a && (a_pulls a <? best_pulls) then forced_arm arms (i + 1) i (a_pulls a)
    else forced_arm arms (i + 1) best best_pulls
  end.

Fixpoint first_eligible (arms : list Arm) (i : Z) : Z :=
  match arms with
  | [] => -1
  | a :: arms => if a_eligible a then i else first_eligible arms (i + 1)
  end.

(* src/compress/compression_roi.h:839-854 CompressionROI::selectTierUCB *)
Definition ucb_score (variant_v : bool) (ln_n : double) (a : Arm) : double :=
  let n_i := dZ (a_pulls a) in
  let var := if 1 <? a_pulls a then ddiv (a_m2 a) (dsub n_i (dZ 1)) else dZ 0 in
  let bonus :=
    if variant_v then
      dadd (dsqrt (ddiv (dmul (dmul (dZ 2) var) ln_n) n_i)) (ddiv (dmul (dZ 3) ln_n) n_i)
    else
      let v_i := dadd var (dsqrt (ddiv (dmul (dZ 2) ln_n) n_i)) in
      let v_i := if dlt (dlit 25 2) v_i then dlit 25 2 else v_i in
      dsqrt (dmul (ddiv ln_n n_i) v_i) in
  dadd (a_mean a) bonus.

Fixpoint best_arm (variant_v : bool) (ln_n : double) (arms : list Arm) (i best : Z) (best_score : double) : Z :=
  match arms with
  | [] => best
  | a :: arms =>
    if negb (a_eligible a) || (a_pulls a =? 0) then best_arm variant_v ln_n arms (i + 1) best best_score
    else
      let score := ucb_score variant_v ln_n a in
      if dlt best_score score then best_arm variant_v ln_n arms (i + 1) i score
      else best_arm variant_v ln_n arms (i + 1) best best_score
  end.

Definition eligible_pulls (arms : list Arm) : Z :=
  u64 (zsum (map (fun a => if a_eligible a then a_pulls a else 0) arms)).

(* src/compress/compression_roi.h:760-861 CompressionROI::selectTierUCB *)
Definition selectTierUCB (log : double -> double) (arms : list Arm) (priors : list (option (Z * double * double)))
    (min_pulls : Z) (variant_v : bool) : Z :=
  if zlen arms <=? 0 then -1
  else
    let forced := forced_arm arms 0 (-1) min_pulls in
    if 0 <=? forced then forced
    else
      let eff := map (fun ap => effective min_pulls (fst ap) (snd ap)) (combine arms priors) in
      let total := eligible_pulls eff in
      if total =? 0 then first_eligible arms 0
      else best_arm variant_v (log (dZ total)) eff 0 (-1) (dZ (-1)).

(** ** The decision for a page *)

(** [have] says that the page has a bucket, [s] is the bucket, [arena] the arms of
    its arena.  The flag of the result says that the bandit was asked, which
    advances the bucket's selection counter. *)
(* src/compress/compressor_thread.h:1940-2037 CompressorThread::compressPage *)
Definition decide_page `{PageGeometry} (cfg : RoiCfg) (log : double -> double) (cold_count : Z) (have : bool)
    (s : SizeClassStats) (arena : Arms) (discount : Z) : bool * option Choice :=
  let stats_count := if have then count (s_win s) else 0 in
  let stats_sum := if have then sum (s_win s) else 0 in
  if negb (shouldCompress cfg cold_count stats_count stats_sum discount) then (false, None)
  else if roi_use_ucb cfg && (1 <? zlen (profiles cfg)) then
    let n := Z.min (zlen (profiles cfg)) kTiers in
    let tiers := map Z.of_nat (seq 0 (Z.to_nat n)) in
    let eligible i := min_cold_ticks (zget no_profile (profiles cfg) i) <=? cold_count in
    let arm i := mkArm (zget 0 (arm_pulls (s_arms s)) i) (zget (dZ 0) (arm_mean (s_arms s)) i)
                   (zget (dZ 0) (arm_m2 (s_arms s)) i) (eligible i) in
    let prior i := Some (zget 0 (arm_pulls arena) i, zget (dZ 0) (arm_mean arena) i, zget (dZ 0) (arm_m2 arena) i) in
    let sel_counter := u32 (selections s + 1) in
    let deep_idx := if 1 <? n then 1 else -1 in
    let best_tier := if have then profile_best_tier (s_prof s) else 255 in
    let chosen :=
      if (0 <? ucb_force_deep_every cfg) && (0 <=? deep_idx) && eligible deep_idx &&
         (sel_counter mod ucb_force_deep_every cfg =? 0) then deep_idx
      else if ucb_warmstart cfg && have
      then selectTierUCB log (map arm tiers) (map prior tiers) (ucb_min_pulls cfg) (ucb_v cfg)
      else selectTierUCB log (map arm tiers) (map (fun _ => None) tiers) (ucb_min_pulls cfg) (ucb_v cfg) in
    let chosen := if (chosen <? 0) && (best_tier <? n) && eligible best_tier then best_tier else chosen in
    (true, if 0 <=? chosen
           then let p := zget no_profile (profiles cfg) chosen in Some (mkChoice (p_algo p) (zstd_level p) chosen) else None)
  else
    let observed i := if have then observedCostUs (s_costs s) i else 0 in
    (false, match selectProfile cfg cold_count stats_count stats_sum observed with
    | Some i => let p := zget no_profile (profiles cfg) i in Some (mkChoice (p_algo p) (zstd_level p) (if i =? 0 then 0 else 1))
    | None => None
    end).

(** ** Facts *)

(** With the slower rate at low compressibility the throughput of a profile
    interpolates between its two rates and grows with the ratio.  Calibration can
    also measure a higher rate there; then the difference wraps around and the
    throughput of any page with a ratio of at least 1 is far above both rates. *)
Lemma throughput_interpolates (p : AlgoProfile) (r r' : Z) :
  1 <= comp_mbs_lo p < 2 ^ 16 -> 1 <= comp_mbs_hi p < 2 ^ 16 -> 0 <= r <= r' -> r' <= 255 ->
  (comp_mbs_lo p <= comp_mbs_hi p ->
    comp_mbs_lo p <= compThroughput p r <= compThroughput p r' /\ compThroughput p r' <= comp_mbs_hi p) /\
  (comp_mbs_hi p < comp_mbs_lo p -> 1 <= r -> 2 ^ 23 < compThroughput p r).
Proof.
  intros Hl Hh Hr Hr'. unfold compThroughput, interpolate. set (lo := comp_mbs_lo p) in *. set (hi := comp_mbs_hi p) in *. split.
  - intros Hle. assert (Hi : forall x, 0 <= x <= 255 -> u32 (lo + u32 (u32 (hi - lo) * x) / 255) = lo + (hi - lo) * x / 255 /\
      lo + (hi - lo) * x / 255 <= hi).
    { intros x Hx. rewrite (wrap_small 32 (hi - lo)) by lia. rewrite (wrap_small 32 ((hi - lo) * x)) by nia.
      assert (0 <= (hi - lo) * x / 255 <= hi - lo) by (split; [apply Z.div_pos; nia|apply Z.div_le_upper_bound; nia]).
      rewrite wrap_small by lia. lia. }
    destruct (Hi r ltac:(lia)) as [-> _]. destruct (Hi r' ltac:(lia)) as [-> Hb].
    assert (0 <= (hi - lo) * r / 255) by (apply Z.div_pos; nia).
    assert ((hi - lo) * r / 255 <= (hi - lo) * r' / 255) by (apply Z.div_le_mono; nia).
    rewrite !(proj2 (Z.ltb_lt _ _)) by lia. lia.
  - intros Hlt Hr1. set (d := lo - hi) in *. assert (Hd : 0 <= d * r <= 2 ^ 24) by nia.
    assert (E : u32 (u32 (hi - lo) * r) = 2 ^ 32 - d * r).
    { unfold wrap. rewrite Z.mul_mod_idemp_l by lia. symmetry. apply (Z.mod_unique_pos _ _ (-1)); nia. }
    rewrite E. assert (2 ^ 23 + 1 <= (2 ^ 32 - d * r) / 255) by (apply Z.div_le_lower_bound; lia).
    assert ((2 ^ 32 - d * r) / 255 <= 2 ^ 25) by (apply Z.div_le_upper_bound; nia).
    rewrite wrap_small by lia. rewrite (proj2 (Z.ltb_lt _ _)) by lia. lia.
Qed.

(** The return of profile [j], 0 when the page is not cold enough for it. *)
Definition roi_at `{PageGeometry} (ps : list AlgoProfile) (cold_count base_ratio : Z) (observed : Z -> Z) (j : Z) : Z :=
  let p := zget no_profile ps j in
  if cold_count <? min_cold_ticks p then 0 else computeROI p cold_count base_ratio (observed j) 256.

Lemma div_nonneg a b : 0 <= a -> 0 <= b -> 0 <= a / b.
Proof. intros Ha Hb. destruct (Z.eq_dec b 0) as [->|]; [by rewrite Z.div_0_r|]. apply Z.div_pos; lia. Qed.

Lemma computeROI_nonneg `{PageGeometry} p c r o d : 0 <= computeROI p c r o d.
Proof.
  unfold computeROI. cbv zeta. set (b := if d <? 256 then _ else _). assert (0 <= b).
  { subst b. destruct (d <? 256); apply div_nonneg; try lia; apply wrap_bound; lia. }
  destruct (b =? 0); [lia|]. match goal with |- context [if ?x =? 0 then _ else _] => set (q := x) end.
  assert (0 <= q) by (apply wrap_bound; lia). destruct (q =? 0); [lia|].
  destruct (Z.ltb_spec (2 ^ 32 - 1) (u64 (b * 256) / q)); [lia|]. apply div_nonneg; [apply wrap_bound|]; lia.
Qed.

Lemma best_profile_spec `{PageGeometry} all pre ps cold base observed best best_roi :
  all = pre ++ ps -> 0 <= best < zlen all -> (best < zlen pre \/ best = 0 /\ zlen pre = 0) ->
  (zlen pre = 0 -> best_roi = 0) -> (0 < zlen pre -> best_roi = roi_at all cold base observed best) ->
  (forall j, 0 <= j < zlen pre -> roi_at all cold base observed j <= best_roi) ->
  (forall j, 0 <= j < best -> roi_at all cold base observed j < best_roi) ->
  let i := best_profile ps (zlen pre) cold base observed best best_roi in
  0 <= i < zlen all /\
  (forall j, 0 <= j < zlen all -> roi_at all cold base observed j <= roi_at all cold base observed i) /\
  (forall j, 0 <= j < i -> roi_at all cold base observed j < roi_at all cold base observed i).
Proof.
  revert pre best best_roi. induction ps as [|p ps IH]; intros pre best best_roi Ha Hb Hbp Hz Hr Hm Hf i; cbn in i.
  - rewrite app_nil_r in Ha. subst all i. rewrite <- Hr by lia. done.
  - assert (Hx : zget no_profile all (zlen pre) = p).
    { subst all. unfold zget, zlen. rewrite (proj2 (Z.leb_le _ _)) by lia. by rewrite list_lookup_middle by lia. }
    assert (Hroi : roi_at all cold base observed (zlen pre) =
      if cold <? min_cold_ticks p then 0 else computeROI p cold base (observed (zlen pre)) 256) by (unfold roi_at; by rewrite Hx).
    pose proof (zlen_nonneg pre). assert (Hl : zlen (pre ++ [p]) = zlen pre + 1) by (by rewrite zlen_app).
    assert (Hge : 0 <= best_roi).
    { destruct (decide (zlen pre = 0)); [rewrite Hz; lia|]. rewrite Hr by lia. unfold roi_at. case_if; [lia|apply computeROI_nonneg]. }
    assert (Hall : zlen all = zlen pre + 1 + zlen ps) by (subst all; rewrite zlen_app, zlen_cons; lia).
    pose proof (zlen_nonneg ps).
    assert (Hskip : roi_at all cold base observed (zlen pre) <= best_roi ->
      let i := best_profile ps (zlen (pre ++ [p])) cold base observed best best_roi in
      0 <= i < zlen all /\ (forall j, 0 <= j < zlen all -> roi_at all cold base observed j <= roi_at all cold base observed i) /\
      (forall j, 0 <= j < i -> roi_at all cold base observed j < roi_at all cold base observed i)).
    { intros Hle. apply IH; [by rewrite <- app_assoc|done|lia|lia| |intros j Hj|done].
      - intros _. destruct (decide (zlen pre = 0)) as [E|]; [|apply Hr; lia]. specialize (Hz E). destruct Hbp as [|[-> _]]; [lia|].
        assert (0 <= roi_at all cold base observed 0) by (unfold roi_at; case_if; [lia|apply computeROI_nonneg]).
        rewrite E in Hle. lia.
      - destruct (decide (j = zlen pre)) as [->|]; [done|]. apply Hm. lia. }
    rewrite Hl in Hskip. subst i. revert Hroi. case_if; intros Hroi; [apply Hskip; lia|]. case_if; [|apply Hskip; lia].
    rewrite <- Hl. apply IH; [by rewrite <- app_assoc|lia|lia|lia|intros _; lia| |].
    + intros j Hj. destruct (decide (j = zlen pre)) as [->|]; [lia|]. assert (Hj' : 0 <= j < zlen pre) by lia. specialize (Hm j Hj'). lia.
    + intros j Hj. assert (Hj' : 0 <= j < zlen pre) by lia. specialize (Hm j Hj'). lia.
Qed.

(** Once a bucket has eight samples the cost model takes the profile with the
    greatest return among those the page is cold enough for, the first of equal
    ones, and always an existing profile; with fewer samples the fast tier. *)
Lemma selectProfile_best `{PageGeometry} (cfg : RoiCfg) (cold cnt sm : Z) (observed : Z -> Z) :
  profiles cfg <> [] ->
  exists i, selectProfile cfg cold cnt sm observed = Some i /\ 0 <= i < zlen (profiles cfg) /\
    (cnt < 8 -> i = 0) /\
    (8 <= cnt -> let roi := roi_at (profiles cfg) cold (sm / cnt) observed in
      (1 < zlen (profiles cfg) -> forall j, 0 <= j < zlen (profiles cfg) -> roi j <= roi i) /\
      (forall j, 0 <= j < i -> roi j < roi i)).
Proof.
  intros Hne. assert (Hl : 0 < zlen (profiles cfg)).
  { destruct (profiles cfg) as [|p ps]; [done|]. rewrite zlen_cons. pose proof (zlen_nonneg ps). lia. }
  unfold selectProfile. rewrite (proj2 (Z.eqb_neq _ _)) by lia. destruct (orb _ _) eqn:E; b2p.
  - exists 0. splits; [done|lia|lia|done|]. intros Hc. split; [lia|]. intros j Hj. lia.
  - pose proof (best_profile_spec (profiles cfg) [] (profiles cfg) cold (sm / cnt) observed 0 0 eq_refl) as Hs.
    change (zlen []) with 0 in Hs. destruct Hs as (Hi & Hmax & Hfst); [lia|lia|done|lia|intros j Hj; lia|intros j Hj; lia|].
    eexists. splits; [done|lia|lia|lia|]. intros _. split; [intros _; exact Hmax|exact Hfst].
Qed.
