(* ===== verification/PageOps.v ===== *)
(** * The compressor's operations on a page
    (src/compress/compressor_thread.h)

    Each function of the compressor that touches a page, as a program over the
    page's world: the accesses are in the order of the source.  Loops over pages
    appear as what they do to this page.  Left out are telemetry counters, the
    VMA budget and the waiting for a decompression slot; a branch that depends on
    other pages or on the kernel's state is a choice. *)

From S2P Require Import Prelude Config Double Engine Stats PageState PageProg PageWorld Roi.
From S2P Require Span.

#[local] Abbreviation Span := Span.Span.
#[local] Abbreviation page_count := Span.page_count.

(* src/compress/compressor_thread.h:342-359 TierLevel *)
Definition kTierNone : Z := 0.
(* src/compress/compressor_thread.h:342-359 TierLevel *)
Definition kTierFast : Z := 1.
(* src/compress/compressor_thread.h:342-359 TierLevel *)
Definition kTierDeep : Z := 2.
(* src/compress/compressor_thread.h:342-359 TierLevel *)
Definition kTierFastTried : Z := 3.
(* src/compress/compressor_thread.h:342-359 TierLevel *)
Definition kTierSpilled : Z := 4.
(* include/smash/config.h:408-408 kMaxEffectiveFloorTicks *)
Definition kMaxEffectiveFloorTicks : Z := 200.
(* include/smash/config.h:402-402 kMaxBackoffShift *)
Definition kMaxBackoffShift : Z := 6.
(* include/smash/config.h:414-414 kRcDecayColdTicks *)
Definition kRcDecayColdTicks : Z := 8.
(* include/smash/config.h:429-429 kBucketRcBiasThreshold_x256 *)
Definition kBucketRcBiasThreshold_x256 : Z := 256.
(* include/smash/config.h:440-440 kWriteCleanFullRelief *)
Definition kWriteCleanFullRelief : Z := 16.

(* src/compress/compressor_thread.h:1117-1123 CompressorThread::lookupSizeClass *)
Definition lookupSizeClass (sp : option Span) : Z :=
  match sp with None => 0 | Some s => Span.size_class s end.

(** The arena and the bucket: the size class, or above them the class of a large span. *)
(* src/compress/compressor_thread.h:1131-1144 CompressorThread::lookupSpanInfo *)
Definition lookupSpanInfo (sp : option Span) : option (Z * Z) :=
  match sp with
  | None => None
  | Some s => Some (Span.arena_id s, if Span.is_large s then largeSizeClass (page_count s) else Span.size_class s)
  end.

(* src/compress/compressor_thread.h:1151-1154 CompressorThread::statsIndex *)
Definition statsIndex (arena_id sc : Z) : Z := arena_id * kTotalBucketsPerArena + sc.

(** The bucket the code reads even for a page without a span. *)
Definition stats_idx (sp : option Span) : Z :=
  match lookupSpanInfo sp with Some (a, sc) => statsIndex a sc | None => statsIndex 0 0 end.
Definition arena_of (sp : option Span) : Z := match sp with Some s => Span.arena_id s | None => 0 end.

(** The statistics bucket of the page, if it has one. *)
Definition bucket_of (sp : option Span) : option Z :=
  match lookupSpanInfo sp with
  | Some (a, sc) => if sc <? kTotalBucketsPerArena then Some (statsIndex a sc) else None
  | None => None
  end.

(** [memset(buf + from, 0, to - from)] *)
Definition zero_range (buf : list Z) (from to : Z) : list Z :=
  take (Z.to_nat from) buf ++ replicate (Z.to_nat (to - from)) 0 ++ drop (Z.to_nat to) buf.

(** The loop over the slots that overlap the page, [n] slots to go. *)
Fixpoint zero_slots (n : nat) (s : Span) (psz page_off slot : Z) (buf : list Z) : list Z :=
  match n with
  | O => buf
  | S n =>
    if Span.object_count s <=? slot then buf
    else
      let obj_size := Span.object_size s in
      let slot_start := slot * obj_size in
      let page_end_off := page_off + psz in
      if page_end_off <=? slot_start then buf
      else
        let slot_end := slot_start + obj_size in
        let buf :=
          if Z.testbit (zget 0 (Span.bitmap s) (slot / 64)) (slot mod 64) then
            let zero_start := if page_off <? slot_start then slot_start else page_off in
            let zero_end := if slot_end <? page_end_off then slot_end else page_end_off in
            if zero_end <=? zero_start then buf
            else zero_range buf (zero_start - page_off) (zero_end - page_off)
          else buf in
        zero_slots n s psz page_off (slot + 1) buf
  end.

(* src/compress/compressor_thread.h:1215-1248 CompressorThread::zeroFreeSlots *)
Definition zeroFreeSlots (cfg : Cfg) (sp : option Span) (buf : list Z) : list Z :=
  match page_addr cfg, sp with
  | Some page_start, Some s =>
    if Span.is_large s || (Span.object_size s =? 0) then buf
    else
      let page_off := page_start - Span.base s in
      let first_slot := page_off / Span.object_size s in
      zero_slots (Z.to_nat (Span.object_count s)) s (page_bytes cfg) page_off first_slot buf
  | _, _ => buf
  end.

(* src/compress/compressor_thread.h:1204-1213 CompressorThread::pageIsAllZero *)
Definition pageIsAllZero (buf : list Z) : bool := forallb (fun b => b =? 0) buf.

Section Ops.
Context `{Codecs}.
Context (cfg : Cfg).
(** Where a store puts a blob, what a decompression slot held before, the
    measured time of a codec call, and the decision for a page, which is
    [Roi.decide_page]; nothing below depends on how it decides. *)
Context (place : gmap Z (list Z) -> Z) (stale : list Z) (elapsed_us : Z).
Context (policy : Z -> bool -> SizeClassStats -> Arms -> Z -> bool * option Choice).

Abbreviation P A := (prog PW A).

(** ** Blobs *)

(** The blob of the page, decompressed; on an error what the buffer held. *)
Definition blob_bytes (w : PW) : list Z :=
  take (Z.to_nat (compressedSize (info_ w))) (default [] (held w !! data (info_ w))).
Definition decode_as (w : PW) (sc : Z) : option (list Z) :=
  decompressWithDCtx (dicts_ w) (blob_bytes w) (page_bytes cfg) (algorithm (info_ w)) sc.
Definition decode (w : PW) : option (list Z) := decode_as w (lookupSizeClass (span_ w)).
(** The class a worker compresses for. *)
Definition codec_class (sp : option Span) : Z := match lookupSpanInfo sp with Some (_, sc) => sc | None => 0 end.
Definition decompress_page : P (list Z) := get (fun w => default stale (decode w)).

(* src/compress/compressor_thread.h:4077-4088 CompressorThread::releaseBlob *)
Definition releaseBlob : P unit :=
  upd (fun w =>
    if data (info_ w) =? 0 then w
    else if page_tier (meta_ w) =? kTierSpilled then set_spilled_ (delete (data (info_ w)) (spilled_ w)) w
    else set_blobs_ (delete (data (info_ w)) (blobs_ w)) w).

Definition clear_info : P unit := upd (set_info_ no_info).
Definition set_m (f : Meta -> Meta) : P unit := upd (upd_meta f).

(* src/compress/compressor_thread.h:3871-3874 CompressorThread::deferMadvise *)
Definition deferMadvise : P unit := set_m (fun m => m_pending true (m_queue (tick_counter_ cfg) m)).

(** Runs the callback of the heap for a page of a slab span. *)
Definition notify (ev : Z -> Z -> Event) : P unit :=
  upd (fun w => match span_ w with
    | Some s => if negb (Span.is_large s) && (Span.size_class s <? kNumClasses)
                then set_events_ (ev (Span.arena_id s) (Span.size_class s) :: events_ w) w else w
    | None => w
    end).

(** ** Restoring a page *)

(* src/compress/compressor_thread.h:3251-3321 CompressorThread::restorePageContents *)
Definition restorePageContents (src : list Z) : P bool :=
  fast <- (if self_mem_ok cfg then ok <- pwrite_page cfg src; (if ok then protectPages cfg PRW else Ret false) else Ret false);
  if fast then Ret true
  else
    c <- commitPages cfg;
    r <- (if c then Ret true else remapPages cfg PRW);
    if r then copy_in src 0;; Ret true else Ret false.

(** The page's own part in [restoreRange]: whether the other pages of the range
    are free, hold restorable states and could be filled is a choice. *)
(* src/compress/compressor_thread.h:3509-3594 CompressorThread::restoreRange *)
Definition restoreRange_self (src : option (list Z)) : P bool :=
  if negb (self_mem_ok cfg) then Ret false
  else
    others_locked <- choice;
    if negb others_locked then Ret false
    else
      ok <- (match src with Some b => pwrite_page cfg b | None => Ret true end);
      others_filled <- choice;
      if ok && others_filled then protectPages cfg PRW else Ret false.

(** A page of the range other than the faulting one, once all are locked: filled
    if compressed, made writable with the others, and finalised.  The slot is the
    one the range took for its first compressed page, if there was one. *)
(* src/compress/compressor_thread.h:3543-3582 CompressorThread::restoreRange *)
Definition restoreRange_fill : P unit :=
  st <- get_state;
  ok <- (if state_eqb st COMPRESSED then slot <- choice; (if slot then buf <- decompress_page; pwrite_page cfg buf else Ret false)
         else Ret true);
  others_filled <- choice;
  ok <- (if ok && others_filled then protectPages cfg PRW else Ret false);
  if negb ok then unlock
  else
    st <- get_state;
    (if state_eqb st COMPRESSED || state_eqb st COMPRESSED_SHADOW then
      set_m (m_pending false);; releaseBlob;; clear_info;; set_m (m_tier kTierNone);;
      set_state ACTIVE;; set_m (m_cold 0)
    else if state_eqb st ACTIVE_MONITORING then set_state ACTIVE else Ret tt);;
    unlock.

(** What [restoreRange], started for another page, does to this one. *)
(* src/compress/compressor_thread.h:3509-3542 CompressorThread::restoreRange *)
Definition restoreRange_other (t : Z) : P unit :=
  got <- tryLock t;
  if negb got then Ret tt
  else
    sj <- get_state;
    if state_eqb sj COMPRESSING || state_eqb sj EMPTY then unlock
    else
      others_locked <- choice;
      if negb others_locked then unlock else restoreRange_fill.

(* src/compress/compressor_thread.h:3605-3621 CompressorThread::makeResidentPageWritable *)
Definition makeResidentPageWritable : P bool :=
  near <- choice;
  done <- (if near then restoreRange_self None else Ret false);
  if done then Ret true
  else
    ok <- protectPages cfg PRW;
    if ok then Ret true
    else
      enomem <- choice;
      if enomem then restoreRange_self None else remapPages cfg PRW.

(** ** Faults *)

(** The average of recompressions of a bucket after one more, at 16 bits. *)
Definition rc_sample (prev_rc : Z) : Z := u16 (u16 (prev_rc + 1) * 256).
Definition rc_update (old cnt sample : Z) : Z :=
  if cnt =? 0 then sample else u16 (old + Z.quot (sample - old) 4).

Definition charge (dec_us : Z) (s : SizeClassStats) : SizeClassStats :=
  let b := s_bud s in
  mkStats (s_win s) (s_costs s) (s_arms s) (selections s) (s_red s)
    (mkBud (bytes_saved_total b) (u64 (time_cost_total_us b + dec_us)) (efficiency_x256 b) (budget_decision_hint b)
       (compress_count b) (u32 (decompress_count b + 1))) (s_prof s).

Definition redirtied (rewritten : bool) (s : SizeClassStats) : SizeClassStats :=
  mkStats (s_win s) (s_costs s) (s_arms s) (selections s) (recordRedirty (s_red s) rewritten) (s_bud s) (s_prof s).

(** After a refault: the page's count, the re-dirty average, the heap's callback,
    the bucket's average and its cost. *)
(* src/compress/compressor_thread.h:5954-6031 CompressorThread::handleFault *)
Definition note_refault (was_write : bool) : P unit :=
  prev_rc <- get (fun w => recompress_count (meta_ w));
  (if prev_rc <? 255 then set_m (m_rc (prev_rc + 1)) else Ret tt);;
  (if softdirty_roi cfg then
    set_m (m_streak 0);;
    upd (fun w => match bucket_of (span_ w) with
      | Some b => set_stats0_ (upd_bucket b (redirtied was_write) (stats0_ w)) w
      | None => w
      end)
  else Ret tt);;
  notify EvDecompressed;;
  upd (fun w => match bucket_of (span_ w) with
    | Some b =>
      let cnt := rd 0 (rc_count_ w) b in
      let w1 := set_rc_ (<[b := rc_update (rd 0 (rc_ema_ w) b) cnt (rc_sample prev_rc)]> (rc_ema_ w))
                  (if cnt <? 64 then <[b := cnt + 1]> (rc_count_ w) else rc_count_ w) w in
      set_stats0_ (upd_bucket b (charge elapsed_us) (stats0_ w1)) w1
    | None => w
    end).

(** The compressed case: decompress, restore, give the blob back. *)
(* src/compress/compressor_thread.h:5844-5953 CompressorThread::handleFault *)
Definition fault_compressed (was_write : bool) : P bool :=
  was_pending <- get (fun w => deferred_pending (meta_ w));
  set_m (m_pending false);;
  waitFaultSlot;;
  buf <- decompress_page;
  near_cap <- choice;
  r1 <- (if near_cap then restoreRange_self (Some buf) else Ret false);
  r2 <- (if r1 then Ret true else restorePageContents buf);
  restored <- (if r2 then Ret true else restoreRange_self (Some buf));
  releaseFaultSlot;;
  if negb restored then
    (if was_pending : bool then set_m (m_pending true) else Ret tt);; unlock;; Ret true
  else
    releaseBlob;; clear_info;; set_m (m_tier kTierNone);;
    set_state ACTIVE;; set_m (m_cold 0);; set_m (m_fail 0);; unlock;;
    note_refault was_write;; Ret true.

(* src/compress/compressor_thread.h:6036-6051 CompressorThread::handleFault *)
Definition fault_compressing : P bool :=
  c <- commitPages cfg;
  (if c then Ret tt else remapPages cfg PRW;; Ret tt);;
  set_state ACTIVE;; set_m (m_cold 0);; set_m (m_fail 0);; unlock;; Ret true.

(* src/compress/compressor_thread.h:6053-6067 CompressorThread::handleFault *)
Definition fault_monitoring : P bool :=
  ok <- makeResidentPageWritable;
  if negb ok then unlock;; Ret true
  else set_m (m_accessed true);; set_state ACTIVE;; unlock;; Ret true.

(* src/compress/compressor_thread.h:6069-6081 CompressorThread::handleFault *)
Definition fault_active : P bool := makeResidentPageWritable;; unlock;; Ret true.

(* src/compress/compressor_thread.h:6083-6101 CompressorThread::handleFault *)
Definition fault_shadow : P bool :=
  protectPages cfg PRW;; releaseBlob;; clear_info;;
  set_m (fun m => m_tier kTierNone (m_shadow 0 m));; set_m (m_cold 0);; set_m (m_fail 0);;
  set_m (fun m => if recompress_count m <? 255 then m_rc (recompress_count m + 1) m else m);;
  set_state ACTIVE;; unlock;; Ret true.

(** A fault of thread [t] on an address of the page. *)
(* src/compress/compressor_thread.h:5824-5843 CompressorThread::handleFault *)
Definition handleFault (t : Z) (was_write : bool) : P bool :=
  mine <- heldByThisThread t;
  if mine then Ret false
  else
    lock t;;
    st <- get_state;
    match st with
    | COMPRESSED => fault_compressed was_write
    | COMPRESSING => fault_compressing
    | ACTIVE_MONITORING => fault_monitoring
    | ACTIVE => fault_active
    | COMPRESSED_SHADOW => fault_shadow
    | EMPTY => unlock;; Ret false
    end.

(** The prefetch that a fault on a neighbour in the same span starts. *)
(* src/compress/compressor_thread.h:2766-2821 CompressorThread::prefetchAdjacent *)
Definition prefetchAdjacent (t : Z) : P unit :=
  got <- tryLock t;
  if negb got then Ret tt
  else
    go <- get (fun w => state_eqb (state_ w) COMPRESSED && negb (data (info_ w) =? 0));
    (if go : bool then
      slot <- acquireFaultSlot;
      if negb slot then Ret tt
      else
        buf <- decompress_page;
        restored <- restorePageContents buf;
        releaseFaultSlot;;
        if negb restored then Ret tt
        else releaseBlob;; clear_info;; set_state ACTIVE;; set_m (m_cold 0)
    else Ret tt);;
    unlock.

(** The span of the page is released. *)
(* src/compress/compressor_thread.h:6110-6134 CompressorThread::releaseCompressedPages *)
Definition releaseCompressedPages (t : Z) : P unit :=
  lock t;;
  set_m (m_pending false);;
  st <- get_state;
  has <- get (fun w => negb (data (info_ w) =? 0));
  (if (state_eqb st COMPRESSED || state_eqb st COMPRESSED_SHADOW) && has then releaseBlob;; clear_info else Ret tt);;
  set_m (m_shadow 0);;
  set_state EMPTY;;
  set_m (fun m => m_fail 0 (m_rc 0 (m_cold 0 m)));;
  set_m (m_accessed false);;
  unlock.

(** ** Compressing a page *)

Definition with_win (f : Window -> Window) (s : SizeClassStats) : SizeClassStats :=
  mkStats (f (s_win s)) (s_costs s) (s_arms s) (selections s) (s_red s) (s_bud s) (s_prof s).
Definition with_costs (f : Costs -> Costs) (s : SizeClassStats) : SizeClassStats :=
  mkStats (s_win s) (f (s_costs s)) (s_arms s) (selections s) (s_red s) (s_bud s) (s_prof s).
Definition with_bud (saved us compressed : Z) (s : SizeClassStats) : SizeClassStats :=
  let b := s_bud s in
  mkStats (s_win s) (s_costs s) (s_arms s) (selections s) (s_red s)
    (mkBud (u64 (bytes_saved_total b + saved)) (u64 (time_cost_total_us b + us)) (efficiency_x256 b)
       (budget_decision_hint b) (u32 (compress_count b + compressed)) (decompress_count b)) (s_prof s).
Definition upd_stats (f : SizeClassStats -> SizeClassStats) : P unit :=
  upd (fun w => match bucket_of (span_ w) with Some b => set_stats_ (upd_bucket b f (stats_ w)) w | None => w end).

Definition with_arms (f : Arms -> Arms) (s : SizeClassStats) : SizeClassStats :=
  mkStats (s_win s) (s_costs s) (f (s_arms s)) (selections s) (s_red s) (s_bud s) (s_prof s).
Definition with_selection (s : SizeClassStats) : SizeClassStats :=
  mkStats (s_win s) (s_costs s) (s_arms s) (u32 (selections s + 1)) (s_red s) (s_bud s) (s_prof s).

(** The reward of the chosen tier, in the bucket and in the arena's arms. *)
Definition reward_tier (ch : Choice) (r : double) : P unit :=
  if use_ucb cfg && (0 <=? ch_tier ch) then
    upd_stats (with_arms (fun a => recordReward a (ch_tier ch) r));;
    (if ucb_warm cfg then
      upd (fun w => let a := arena_of (span_ w) in
        match bucket_of (span_ w) with
        | Some _ => set_arms_ (<[a := arena_recordReward (rd fresh_arms (arms_ w) a) (ch_tier ch) r]> (arms_ w)) w
        | None => w
        end)
    else Ret tt)
  else Ret tt.

(** The survival discount of the page: the bucket's average relieved by the
    page's streak without writes. *)
(* src/compress/compressor_thread.h:1923-1938 CompressorThread::compressPage *)
Definition redirty_discount (have : bool) (s : SizeClassStats) (streak : Z) : Z :=
  if softdirty_roi cfg && have then
    redirtyDiscountX256 (s_red s)
      (if kWriteCleanFullRelief <=? streak then 256 else u32 (streak * 256) / kWriteCleanFullRelief)
  else 256.

(** The decision: none, or an algorithm, with the dictionary preferred for the
    deep level once one is trained. *)
(* src/compress/compressor_thread.h:1905-2054 CompressorThread::compressPage *)
Definition choose_codec (w : PW) : bool * option Choice :=
  let have := bool_decide (is_Some (bucket_of (span_ w))) in
  let s := rd fresh_stats (stats_ w) (stats_idx (span_ w)) in
  let arena := rd fresh_arms (arms_ w) (arena_of (span_ w)) in
  let '(asked, c) := policy (cold_count (meta_ w)) have s arena (redirty_discount have s (write_clean_streak (meta_ w))) in
  match c with
  | None => (asked, None)
  | Some ch =>
    let sc := codec_class (span_ w) in
    (asked, if bool_decide (ch_algo ch = ZSTD) && (ch_level ch =? kZstdDeepLevel) && (sc <? kNumClasses) && hasDictionary (dicts_ w) sc
            then Some (mkChoice ZSTD_DICT (ch_level ch) (ch_tier ch)) else Some ch)
  end.

Definition is_fast (ch : Choice) : bool :=
  (negb (ch_level ch =? 0) && negb (ch_level ch =? kZstdDeepLevel)) || bool_decide (ch_algo ch = LZ4).

(** The snapshot with the page left writable; [None] gave up and unlocked. *)
(* src/compress/compressor_thread.h:2064-2101 CompressorThread::compressPage *)
Definition snapshot_deferred : P (option (list Z)) :=
  protectPages cfg PRW;;
  page_buf <- copy_page cfg;
  same <- (if fixavEnabled cfg then verify_buf <- copy_page cfg; Ret (bool_decide (verify_buf = page_buf)) else Ret true);
  if negb same then set_state ACTIVE;; unlock;; Ret None
  else buf <- get (fun w => zeroFreeSlots cfg (span_ w) page_buf); Ret (Some buf).

(** The snapshot with the page read-only, made so with the lock released. *)
(* src/compress/compressor_thread.h:2102-2206 CompressorThread::compressPage *)
Definition snapshot_standard (t : Z) : P (option (list Z)) :=
  unlock;; protectPages cfg PRead;; lock t;;
  st <- get_state;
  if negb (state_eqb st COMPRESSING) then protectPages cfg PRW;; unlock;; Ret None
  else
    readv_ok <- (if cfg_safe_memcpy_ cfg then choice else Ret true);
    if negb readv_ok then protectPages cfg PRW;; set_state ACTIVE;; unlock;; Ret None
    else
      page_buf <- copy_page cfg;
      same <- (if cfg_snapshot_verify_ cfg || fixavEnabled cfg
               then verify_buf <- copy_page cfg; Ret (bool_decide (verify_buf = page_buf)) else Ret true);
      if negb same then protectPages cfg PRW;; set_state ACTIVE;; unlock;; Ret None
      else
        buf <- get (fun w => zeroFreeSlots cfg (span_ w) page_buf);
        st <- get_state;
        if negb (state_eqb st COMPRESSING) then unlock;; Ret None else Ret (Some buf).

Definition too_big (blob : option (list Z)) : bool :=
  match blob with None => true | Some b => ratio_gate cfg <? zlen b end.

(** The codec calls: the chosen one and, if the deep tier is built in, a second
    try of a fast-tier page.  The flag says whether the fast tier was used. *)
(* src/compress/compressor_thread.h:2223-2291 CompressorThread::compressPage *)
Definition run_codec (w : PW) (ch : Choice) (buf : list Z) : option (list Z) * CompressAlgo * bool :=
  let sc := codec_class (span_ w) in
  let max_comp := maxCompressedSizeAny (page_bytes cfg) in
  let r := worker_compress (dicts_ w) buf max_comp (ch_algo ch) sc (ch_level ch) in
  if kDeepTierEnabled cfg && is_fast ch && too_big r
  then (worker_compress (dicts_ w) buf max_comp ZSTD sc kZstdDeepLevel, ZSTD, false)
  else (r, ch_algo ch, is_fast ch).

(** Puts the page back as it was before the attempt. *)
(* src/compress/compressor_thread.h:2320-2325 CompressorThread::compressPage *)
Definition undo_snapshot (buf : list Z) : P unit :=
  if isDeferredReclaimMode cfg then Ret tt
  else
    ok <- protectPages cfg PRW;
    (if ok then Ret tt else remapPages cfg PRW;; Ret tt);;
    copy_in buf 0.

(** The result is too large: statistics, restore, back-off. *)
(* src/compress/compressor_thread.h:2293-2341 CompressorThread::compressPage *)
Definition reject (ch : Choice) (blob : option (list Z)) (fast : bool) (buf : list Z) : P bool :=
  let sz := match blob with Some b => zlen b | None => page_bytes cfg end in
  upd_stats (fun s => with_bud 0 elapsed_us 0 (with_costs (fun c => recordCost c (if fast then 0 else 1) elapsed_us)
                        (with_win (fun x => record x sz (page_bytes cfg)) s)));;
  reward_tier ch (dZ 0);;
  undo_snapshot buf;;
  set_m (fun m => if compress_fail_count m <? 255 then m_fail (compress_fail_count m + 1) m else m);;
  set_m (m_cold 0);;
  set_state ACTIVE;; unlock;; Ret false.

(** Records the blob and its tier. *)
(* src/compress/compressor_thread.h:2362-2402 CompressorThread::compressPage *)
Definition publish (ch : Choice) (zero : bool) (a alloc : Z) (blob : list Z) (algo : CompressAlgo) (fast : bool) : P unit :=
  (if zero then Ret tt else
    upd_stats (fun s => with_bud (if zlen blob <? page_bytes cfg then page_bytes cfg - zlen blob else 0) elapsed_us 0
      (with_costs (fun c => recordCost c (if fast then 0 else 1) elapsed_us)
        (with_win (fun x => record x (zlen blob) (page_bytes cfg)) s)));;
    reward_tier ch (ucbReward (zlen blob) (page_bytes cfg) elapsed_us));;
  upd (set_info_ (if zero then info_set 0 0 0 NONE else info_set a (zlen blob) alloc algo));;
  set_m (m_tier (if fast then kTierFast else kTierDeep));;
  (if zero then Ret tt else upd_stats (with_bud 0 0 1)).

(** The outcome of a kernel refusal after the blob was recorded. *)
Definition back_out (buf : list Z) : P bool :=
  ok <- protectPages cfg PRW;
  (if ok then Ret tt else remapPages cfg PRW;; Ret tt);;
  copy_in buf 0;; set_state ACTIVE;; unlock;; Ret false.

(** The page leaves the snapshot state: a shadow in deferred mode; otherwise it
    is queued or made inaccessible at once.  [queue_full] is a full batch. *)
(* src/compress/compressor_thread.h:2405-2500 CompressorThread::compressPage *)
Definition finish (buf : list Z) : P bool :=
  if isDeferredReclaimMode cfg then
    set_m (m_shadow (tick_counter_ cfg));; set_state COMPRESSED_SHADOW;; unlock;; notify EvCompressed;; Ret true
  else if p2_chunk cfg then
    set_state COMPRESSED;;
    queue_full <- choice;
    (if queue_full then
      decommitPages cfg;; ok <- protectPages cfg PNone; (if ok then Ret tt else remapPages cfg PNone;; Ret tt)
    else Ret tt);;
    unlock;; notify EvCompressed;; Ret true
  else if fixavEnabled cfg then
    p <- protectPages cfg PNone;
    r <- (if p then Ret true else remapPages cfg PNone);
    if negb r then back_out buf
    else set_state COMPRESSED;; decommitPages cfg;; unlock;; notify EvCompressed;; Ret true
  else if deferMadviseEnabled cfg then
    set_state COMPRESSED;; deferMadvise;; unlock;;
    st <- get_state;
    (if state_eqb st COMPRESSED then
      ok <- protectPages cfg PNone; (if ok then Ret tt else remapPages cfg PNone;; Ret tt)
    else Ret tt);;
    notify EvCompressed;; Ret true
  else
    decommitPages cfg;;
    p <- protectPages cfg PNone;
    r <- (if p then Ret true else remapPages cfg PNone);
    if negb r then back_out buf
    else set_state COMPRESSED;; unlock;; notify EvCompressed;; Ret true.

(** From the snapshot to the end. *)
(* src/compress/compressor_thread.h:2208-2357 CompressorThread::compressPage *)
Definition compress_buffer (ch : Choice) (buf : list Z) : P bool :=
  if pageIsAllZero buf then publish ch true 0 0 [] NONE (is_fast ch);; finish buf
  else
    r <- get (fun w => run_codec w ch buf);
    let '(blob, algo, fast) := r in
    match blob with
    | Some b =>
      if ratio_gate cfg <? zlen b then reject ch blob fast buf
      else
        s <- store_blob cfg place b;
        let '(a, alloc) := s in
        if a =? 0 then undo_snapshot buf;; set_state ACTIVE;; unlock;; Ret false
        else publish ch false a alloc b algo fast;; finish buf
    | None => reject ch blob fast buf
    end.

(* src/compress/compressor_thread.h:1886-1903 CompressorThread::compressPage *)
Definition compressPage (t : Z) : P bool :=
  got <- (if isDeferredReclaimMode cfg then tryLock t else lock t;; Ret true);
  if negb got then Ret false
  else
    st <- get_state;
    if negb (state_eqb st ACTIVE || state_eqb st ACTIVE_MONITORING) then unlock;; Ret false
    else
      set_state COMPRESSING;;
      c <- get choose_codec;
      (if fst c : bool then upd (fun w => set_stats_ (upd_bucket (stats_idx (span_ w)) with_selection (stats_ w)) w) else Ret tt);;
      match snd c with
      | None => set_state ACTIVE;; unlock;; Ret false
      | Some ch =>
        match page_addr cfg with
        | None => set_state EMPTY;; unlock;; Ret false
        | Some _ =>
          snap <- (if isDeferredReclaimMode cfg then snapshot_deferred else snapshot_standard t);
          match snap with
          | None => Ret false
          | Some buf => compress_buffer ch buf
          end
        end
      end.

(** ** Recompressing and spilling *)

(** The new blob does not save enough. *)
(* src/compress/compressor_thread.h:2615-2631 CompressorThread::recompressPage *)
Definition recompress_rejected : P bool :=
  set_state COMPRESSED;; set_m (m_tier kTierFastTried);; unlock;;
  upd_stats (with_costs (fun c => recordCost c 1 elapsed_us));; Ret false.

(** The new blob is kept in the spill file if it can be, and replaces the old one. *)
(* src/compress/compressor_thread.h:2633-2696 CompressorThread::recompressPage *)
Definition recompress_store (spill : bool) (old : CompressedPageInfo) (blob : list Z) (target_algo : CompressAlgo) : P bool :=
  s <- (if spill then spill_blob cfg place blob else Ret (0, 0));
  let spilled := negb (fst s =? 0) in
  s <- (if spilled then Ret s else store_blob cfg place blob);
  if fst s =? 0 then set_state COMPRESSED;; unlock;; Ret false
  else
    upd (set_info_ (info_set (fst s) (zlen blob) (snd s) target_algo));;
    set_m (m_tier (if spilled then kTierSpilled else kTierDeep));;
    set_state COMPRESSED;; unlock;;
    release_blob_at (data old);;
    upd_stats (fun s => with_costs (fun c => recordCost c 1 elapsed_us)
                          (with_win (fun x => record x (zlen blob) (page_bytes cfg)) s));;
    Ret true.

(** [spill] says that the spill file is configured and ready; the lock is held. *)
(* src/compress/compressor_thread.h:2546-2614 CompressorThread::recompressPage *)
Definition recompress_locked (spill : bool) (old : CompressedPageInfo) (target_algo : CompressAlgo) (target_level : Z) : P bool :=
  if data old =? 0 then set_m (m_tier kTierDeep);; unlock;; Ret false
  else if bool_decide (algorithm old = target_algo) && negb (bool_decide (target_algo = ZSTD_DICT))
  then set_m (m_tier kTierDeep);; unlock;; Ret false
  else
    set_state COMPRESSING;;
    waitFaultSlot;;
    d <- get (fun w => decode_as w (codec_class (span_ w)));
    releaseFaultSlot;;
    match d with
    | None => set_state COMPRESSED;; unlock;; Ret false
    | Some page_buf =>
      if negb (zlen page_buf =? page_bytes cfg) then set_state COMPRESSED;; unlock;; Ret false
      else
        let old_comp_size := compressedSize old in
        new <- get (fun w => worker_compress (dicts_ w) page_buf (maxCompressedSizeAny (page_bytes cfg)) target_algo
                 (codec_class (span_ w)) target_level);
        let savings_gate := old_comp_size * 4 / 5 in
        match new with
        | Some blob =>
          if savings_gate <? zlen blob then recompress_rejected
          else recompress_store spill old blob target_algo
        | None => recompress_rejected
        end
    end.


(* src/compress/compressor_thread.h:2529-2545 CompressorThread::recompressPage *)
Definition recompressPage (t : Z) (spill : bool) (target_algo : CompressAlgo) (target_level : Z) : P bool :=
  lock t;;
  st <- get_state;
  if negb (state_eqb st COMPRESSED) then unlock;; Ret false
  else
    old <- get info_;
    recompress_locked spill old target_algo target_level.

(** The lock is held; [old] is the page's record. *)
(* src/compress/compressor_thread.h:4048-4075 CompressorThread::maybeSpillPage *)
Definition spill_locked (old : CompressedPageInfo) : P unit :=
  there <- get (fun w => bool_decide (is_Some (spilled_ w !! data old)));
  if (data old =? 0) || there then unlock
  else
    bytes <- get blob_bytes;
    s <- spill_blob cfg place bytes;
    if fst s =? 0 then unlock
    else
      upd (set_info_ (info_set (fst s) (compressedSize old) (snd s) (algorithm old)));;
      set_m (m_tier kTierSpilled);;
      unlock;;
      release_blob_at (data old).

(** Copies the blob of a very cold page into the spill file. *)
(* src/compress/compressor_thread.h:4035-4047 CompressorThread::maybeSpillPage *)
Definition maybeSpillPage (t : Z) (ready : bool) : P unit :=
  if negb ready then Ret tt
  else
    got <- tryLock t;
    if negb got then Ret tt
    else
      go <- get (fun w => state_eqb (state_ w) COMPRESSED &&
                   ((page_tier (meta_ w) =? kTierDeep) || (page_tier (meta_ w) =? kTierFastTried)));
      if negb go then unlock
      else
        old <- get info_;
        spill_locked old.

(** ** Reclaiming *)

(** One page of the deferred sweep; runs of several pages take all locks first. *)
(* src/compress/compressor_thread.h:4090-4206 CompressorThread::sweepDeferredMadvise *)
Definition sweepDeferredMadvise (t : Z) : P unit :=
  if negb (deferMadviseEnabled cfg) then Ret tt
  else
    due <- get (fun w => deferred_pending (meta_ w) &&
                  (deferMadviseTicks cfg <=? u32 (tick_counter_ cfg - deferred_queue_tick (meta_ w))));
    match page_addr cfg with
    | None => Ret tt
    | Some _ =>
      if negb due then Ret tt
      else
        got <- tryLock t;
        if negb got then Ret tt
        else
          go <- get (fun w => deferred_pending (meta_ w) && state_eqb (state_ w) COMPRESSED);
          if negb go then set_m (m_pending false);; unlock
          else
            set_m (m_pending false);;
            ok <- protectPages cfg PNone;
            (if ok then Ret tt else remapPages cfg PNone;; Ret tt);;
            decommitPages cfg;;
            unlock
    end.

(** The page is read-only now: compare it with its blob, then drop it or the blob. *)
(* src/compress/compressor_thread.h:2993-3050 CompressorThread::reclaimShadowRange *)
Definition reclaim_checked : P unit :=
  st <- get_state;
  if negb (state_eqb st COMPRESSED_SHADOW) then protectPages cfg PRW;; unlock
  else
    slot <- acquireFaultSlot;
    if negb slot then protectPages cfg PRW;; unlock
    else
      buf <- decompress_page;
      content_matches <- compare buf 0;
      releaseFaultSlot;;
      if negb content_matches then
        releaseBlob;; clear_info;; set_m (m_shadow 0);; set_m (m_tier kTierNone);;
        set_m (m_cold 0);; set_m (m_fail 0);;
        protectPages cfg PRW;; set_state ACTIVE;; unlock
      else if fixavEnabled cfg then
        protectPages cfg PNone;; set_m (m_shadow 0);; set_state COMPRESSED;; decommitPages cfg;; unlock
      else
        decommitPages cfg;; protectPages cfg PNone;; set_m (m_shadow 0);; set_state COMPRESSED;; unlock.

(** The second phase of the deferred mode for one page: compare the page with its
    blob while it is read-only, then drop it, or drop the blob.  [budget] is
    what the VMA count allows. *)
(* src/compress/compressor_thread.h:2924-2992 CompressorThread::reclaimShadowRange *)
Definition reclaimShadow (t : Z) (budget : bool) : P unit :=
  if negb budget then Ret tt
  else
    due <- get (fun w => state_eqb (state_ w) COMPRESSED_SHADOW &&
                  (reclaim_delay cfg <=? u32 (tick_counter_ cfg - shadow_tick (meta_ w))));
    if negb due then Ret tt
    else
      got <- tryLock t;
      if negb got then Ret tt
      else
        st <- get_state;
        if negb (state_eqb st COMPRESSED_SHADOW) then unlock
        else
          match page_addr cfg with
          | None => set_state EMPTY;; unlock
          | Some _ =>
            protectPages cfg PRead;; reclaim_checked
          end.

(** The batch of pages compressed in the standard mode is queued for the sweep. *)
(* src/compress/compressor_thread.h:1653-1685 CompressorThread::flushPhase2PendingProt *)
Definition flushPhase2PendingProt (t : Z) : P unit :=
  if isDeferredReclaimMode cfg || negb (p2_chunk cfg) then Ret tt
  else
    lock t;;
    st <- get_state;
    (if state_eqb st COMPRESSED && bool_decide (is_Some (page_addr cfg)) then deferMadvise else Ret tt);;
    unlock.

(** ** The scan of a tick *)

(* src/compress/compressor_thread.h:1350-1359 CompressorThread::decayRecompressCount *)
Definition decayRecompressCount (m : Meta) : Meta :=
  let cc := cold_count m in
  if cc =? 255 then m_rc 0 m
  else if (kRcDecayColdTicks <=? cc) && (cc mod kRcDecayColdTicks =? 0) && (0 <? recompress_count m)
  then m_rc (recompress_count m - 1) m else m.

(** [idle_read] says that idle-page tracking saw a read. *)
(* src/compress/compressor_thread.h:1297-1343 CompressorThread::phase1Range *)
Definition phase1 (idle_read : bool) : P unit :=
  st <- get_state;
  if state_eqb st ACTIVE || state_eqb st ACTIVE_MONITORING then
    set_m (fun m =>
      let written := accessed m in
      let m := if softdirty_roi cfg
               then (if written then m_streak 0 m else if write_clean_streak m <? 255 then m_streak (write_clean_streak m + 1) m else m)
               else m in
      let acc := written || (idle_read && state_eqb st ACTIVE_MONITORING) in
      if acc then m_accessed false (m_fail 0 (m_cold 0 m))
      else decayRecompressCount (if cold_count m <? 255 then m_cold (cold_count m + 1) m else m))
  else if state_eqb st COMPRESSED then
    set_m (fun m => decayRecompressCount (if cold_count m <? 255 then m_cold (cold_count m + 1) m else m))
  else Ret tt.

(** The cold floor of a page from its bucket's profile. *)
(* src/compress/compressor_thread.h:1512-1546 CompressorThread::phase2Range *)
Definition profile_floor (floor : Z) (thrash_backoff : bool) (s : option SizeClassStats) : Z :=
  match s with
  | None => floor
  | Some s =>
    if negb (profile_stable_cold (s_prof s) =? 0) then Z.max 1 (floor / 4)
    else if thrash_backoff then
      let tr := profile_thrash_rate (s_prof s) in
      let mult := if 128 <=? tr then 8 else if 64 <=? tr then 4 else if 31 <=? tr then 2 else 1 in
      if 1 <? mult then Z.min (floor * mult) kMaxEffectiveFloorTicks else floor
    else floor
  end.

(** The floor after recompressions, failed attempts and the bucket's average. *)
(* src/compress/compressor_thread.h:1557-1601 CompressorThread::phase2Range *)
Definition effective_floor (pf rc ema fails : Z) : Z :=
  let bias := if kBucketRcBiasThreshold_x256 <=? ema then 1 else 0 in
  let shift := Z.min (rc + bias + fails) kMaxBackoffShift in
  Z.min (Z.shiftl pf shift) kMaxEffectiveFloorTicks.

(** Write-protects or, through idle tracking, only marks the page. *)
(* src/compress/compressor_thread.h:1697-1741 CompressorThread::escalateToDeepMonitoring *)
Definition escalateToDeepMonitoring (t : Z) (idle_marked budget : bool) : P unit :=
  if idle_marked then Ret tt
  else if negb budget then Ret tt
  else
    lock t;;
    st <- get_state;
    (if state_eqb st ACTIVE_MONITORING then protectPages cfg PNone;; Ret tt else Ret tt);;
    unlock.

(** The parameters of a tick for the page. *)
Record Tick := mkTick {
  tk_floor : Z; tk_very_cold : Z; tk_environ : bool; tk_spill : bool; tk_backoff : bool; tk_thrash : bool;
  tk_contig : bool; tk_no_map : bool; tk_external_hot : bool; tk_idle_marked : bool; tk_budget : bool
}.

(** The skips of a page by its bucket, or as an external page. *)
(* src/compress/compressor_thread.h:1459-1510 CompressorThread::phase2Range *)
Definition bucket_skips (tk : Tick) (w : PW) : bool :=
  match bucket_of (span_ w) with
  | Some b => let s := rd fresh_stats (stats_ w) b in
      (budget_decision_hint (s_bud s) =? 2) || (persist_hint (s_prof s) =? 1)
  | None => tk_no_map tk && negb (tk_contig tk) && (tk_external_hot tk || (0 <? recompress_count (meta_ w)))
  end.

(* src/compress/compressor_thread.h:1374-1458 CompressorThread::phase2Range *)
Definition phase2 (t : Z) (tk : Tick) : P unit :=
  cc <- get (fun w => cold_count (meta_ w));
  if (cc <? tk_floor tk) || tk_environ tk then Ret tt
  else
    st <- get_state;
    tier <- get (fun w => page_tier (meta_ w));
    (if kDeepTierEnabled cfg && state_eqb st COMPRESSED && (tk_very_cold tk <=? cc) && (tier =? kTierFast)
     then
       target <- get (fun w => let sc := lookupSizeClass (span_ w) in
                        if (sc <? kNumClasses) && hasDictionary (dicts_ w) sc then ZSTD_DICT else ZSTD);
       recompressPage t (tk_spill tk) target kZstdDeepLevel;; Ret tt
     else Ret tt);;
    tier <- get (fun w => page_tier (meta_ w));
    (if tk_spill tk && state_eqb st COMPRESSED && (tk_very_cold tk <=? cc) &&
        ((tier =? kTierDeep) || (tier =? kTierFastTried) || (negb (kDeepTierEnabled cfg) && (tier =? kTierFast)))
     then maybeSpillPage t true else Ret tt);;
    if negb (state_eqb st ACTIVE || state_eqb st ACTIVE_MONITORING) then Ret tt
    else
      skip <- get (bucket_skips tk);
      if skip : bool then Ret tt
      else
        floors <- get (fun w =>
          let s := match bucket_of (span_ w) with Some b => Some (rd fresh_stats (stats_ w) b) | None => None end in
          let pf := profile_floor (tk_floor tk) (tk_thrash tk) s in
          let ema := match bucket_of (span_ w) with Some b => rd 0 (rc_ema_ w) b | None => 0 end in
          (pf, if tk_backoff tk
               then effective_floor pf (recompress_count (meta_ w)) ema (compress_fail_count (meta_ w)) else pf));
        cc <- get (fun w => cold_count (meta_ w));
        if (cc =? fst floors) && state_eqb st ACTIVE_MONITORING then escalateToDeepMonitoring t (tk_idle_marked tk) (tk_budget tk)
        else if (fst floors <? cc) && (snd floors <=? cc) then
          if (state_eqb st ACTIVE_MONITORING || negb (isDeferredReclaimMode cfg)) && negb (tk_budget tk) then Ret tt
          else
            ok <- compressPage t;
            if ok : bool then flushPhase2PendingProt t else Ret tt
        else Ret tt.

(** Arms write detection on an active page; the protection changes after the
    lock is released. *)
(* src/compress/compressor_thread.h:1787-1825 CompressorThread::flushPhase3Run *)
Definition flushPhase3Run (t : Z) (budget : bool) : P unit :=
  if negb budget then
    lock t;; st <- get_state; (if state_eqb st ACTIVE_MONITORING then set_state ACTIVE else Ret tt);; unlock
  else
    lock t;;
    st <- get_state;
    if negb (state_eqb st ACTIVE_MONITORING) then unlock
    else
      unlock;;
      ok <- (match page_addr cfg with Some _ => protectPages cfg PRead | None => Ret false end);
      if ok then Ret tt
      else lock t;; st <- get_state; (if state_eqb st ACTIVE_MONITORING then set_state ACTIVE else Ret tt);; unlock.

(* src/compress/compressor_thread.h:1827-1882 CompressorThread::phase3Range *)
Definition phase3 (t : Z) (tk : Tick) : P unit :=
  if negb (tk_contig tk) || tk_environ tk then Ret tt
  else
    armed <- transition ACTIVE ACTIVE_MONITORING;
    if negb armed then Ret tt else flushPhase3Run t (tk_budget tk).
End Ops.
