(* ===== verification/PageSafe.v ===== *)
(** * Transparency of compression: the proof rules

    The invariant of a page's world under any interleaving of the compressor
    (thread 0), fault handlers and application threads, what a thread may rely on,
    and the Hoare rules the programs of PageOps are verified with. *)

From S2P Require Import Prelude Config Engine Stats PageState PageProg PageWorld PageOps.
From S2P Require Span.

#[local] Abbreviation Span := Span.Span.
#[local] Abbreviation page_count := Span.page_count.

(** The bytes [c] are what the application relies on. *)
Definition agree (c : list Z) (tr : list (option Z)) : Prop :=
  forall off v, zget None tr off = Some v -> zget 0 c off = v.

Definition truth_le (tr tr' : list (option Z)) : Prop :=
  forall off v, zget None tr off = Some v -> zget None tr' off = Some v.

Lemma agree_le c tr tr' : truth_le tr' tr -> agree c tr -> agree c tr'.
Proof. intros Hle Ha off v H. apply Ha. by apply Hle. Qed.

(** A state in which the page's bytes are in place. *)
Definition settled (s : PageState) : Prop := s = ACTIVE \/ s = ACTIVE_MONITORING \/ s = COMPRESSED_SHADOW.
Definition quiet (s : PageState) : Prop := s = EMPTY \/ s = ACTIVE \/ s = ACTIVE_MONITORING.

(** A state in which the page has a blob. *)
Definition stored (s : PageState) : Prop := s = COMPRESSED \/ s = COMPRESSED_SHADOW.

Definition span_ok (sp : option Span) : Prop :=
  match sp with
  | Some s => 0 <= page_count s < 2 ^ 32 /\ (Span.is_large s = true -> Span.size_class s = kNumClasses)
  | None => True
  end.

Section Safe.
Context `{Codecs}.
Context (cfg : Cfg) (place : gmap Z (list Z) -> Z).

(** The blob decompresses to [c], now and whatever dictionaries are added. *)
Definition decodes (w : PW) (c : list Z) : Prop :=
  zlen c = page_bytes cfg /\ (data (info_ w) = 0 \/ is_Some (held w !! data (info_ w))) /\
  forall E', rtc engine_step (dicts_ w) E' -> decode cfg (set_dicts_ E' w) = Some c.

(** Always true. *)
Record Icore (w : PW) : Prop := {
  ic_len : zlen (mem_ w) = page_bytes cfg;
  ic_truth : zlen (truth_ w) = page_bytes cfg;
  ic_span : span_ok (span_ w);
  ic_agree : state_ w <> EMPTY -> prot_ w <> PNone \/ settled (state_ w) -> agree (mem_ w) (truth_ w)
}.

(** True when nobody holds the lock. *)
Definition ok_state (w : PW) : Prop :=
  match state_ w with
  | COMPRESSED => prot_ w = PNone /\ exists c, decodes w c /\ agree c (truth_ w)
  | COMPRESSED_SHADOW => agree (mem_ w) (truth_ w) /\ exists c, decodes w c
  | COMPRESSING => False
  | _ => True
  end.

Definition Inv (w : PW) : Prop := Icore w /\ (lock_ w = None -> ok_state w).

(** What the others leave alone for the holder [t] of the lock. *)
Record kept (t : Z) (w w' : PW) : Prop := {
  k_info : info_ w' = info_ w;
  k_held : held w' !! data (info_ w) = held w !! data (info_ w);
  k_blobs : t = 0 -> held w' = held w;
  k_dict : rtc engine_step (dicts_ w) (dicts_ w');
  k_class : state_ w <> EMPTY -> lookupSizeClass (span_ w') = lookupSizeClass (span_ w) /\
              codec_class (span_ w') = codec_class (span_ w);
  k_state : state_ w' = state_ w \/ state_ w = EMPTY /\ state_ w' = ACTIVE \/
            state_ w = ACTIVE /\ state_ w' = ACTIVE_MONITORING;
  k_prot : ~ quiet (state_ w) -> prot_ w' = prot_ w;
  k_mem : ~ quiet (state_ w) -> prot_ w <> PRW -> mem_ w' = mem_ w /\ truth_le (truth_ w') (truth_ w);
  k_agree : state_ w <> EMPTY -> agree (mem_ w) (truth_ w) -> agree (mem_ w') (truth_ w')
}.

(** What the compressor relies on even without the lock. *)
Record env0 (w w' : PW) : Prop := {
  e_quiet : quiet (state_ w) -> quiet (state_ w');
  e_info : info_ w' = info_ w \/ info_ w' = no_info;
  e_comp : stored (state_ w') -> stored (state_ w) /\ lookupSizeClass (span_ w') = lookupSizeClass (span_ w) /\
             codec_class (span_ w') = codec_class (span_ w) /\ rtc engine_step (dicts_ w) (dicts_ w')
}.

Lemma env0_same w w' :
  state_ w' = state_ w -> info_ w' = info_ w \/ info_ w' = no_info -> span_ w' = span_ w -> dicts_ w' = dicts_ w -> env0 w w'.
Proof. intros E1 E2 E3 E4. constructor; rewrite ?E1, ?E3, ?E4; try done. Qed.

Definition R (t : Z) (w w' : PW) : Prop :=
  Inv w -> Inv w' /\ (lock_ w = Some t -> lock_ w' = Some t /\ kept t w w') /\
           (lock_ w <> Some t -> lock_ w' <> Some t) /\ (t = 0 -> env0 w w').

(** ** Assertions *)

Definition Held (t : Z) (Φ : PW -> Prop) (w : PW) : Prop := Inv w /\ lock_ w = Some t /\ Φ w.
Definition Free (t : Z) (Φ : PW -> Prop) (w : PW) : Prop := Inv w /\ lock_ w <> Some t /\ Φ w.

Definition lstable (t : Z) (Φ : PW -> Prop) : Prop := forall w w', Icore w -> Icore w' -> kept t w w' -> Φ w -> Φ w'.
(** Stable for a thread without the lock: the compressor knows more. *)
Definition fstable (t : Z) (Φ : PW -> Prop) : Prop := forall w w', (t = 0 -> env0 w w') -> Φ w -> Φ w'.

Lemma Held_stable t Φ : lstable t Φ -> stable R t (Held t Φ).
Proof.
  intros Hs w w' HR (HI & Hl & HΦ). destruct (HR HI) as (HI' & Hk & _). destruct (Hk Hl) as [Hl' Hkept].
  split; [done|]. split; [done|]. eapply Hs; [apply HI|apply HI'|done|done].
Qed.

Lemma Free_stable t Φ : fstable t Φ -> stable R t (Free t Φ).
Proof.
  intros Hs w w' HR (HI & Hl & HΦ). destruct (HR HI) as (HI' & _ & Hk & He). split; [done|]. split; [auto|]. eapply Hs; eauto.
Qed.

Definition triple {A} (t : Z) (P : PW -> Prop) (p : prog PW A) (Q : A -> PW -> Prop) : Prop :=
  forall w, P w -> wp R t p Q w.

Lemma t_bind {A B} t P (p : prog PW A) (M : A -> PW -> Prop) (q : A -> prog PW B) Q :
  triple t P p M -> (forall a, triple t (M a) (q a) Q) -> triple t P (bind p q) Q.
Proof. intros Hp Hq w Hw. apply wp_bind. eapply wp_mono; [|by apply Hp]. intros a w' Hm. by apply Hq. Qed.

Lemma t_pre {A} t P P' (p : prog PW A) Q : (forall w, P w -> P' w) -> triple t P' p Q -> triple t P p Q.
Proof. intros Hp H' w Hw. apply H'. by apply Hp. Qed.

Lemma t_ret {A} t (P : PW -> Prop) (a : A) (Q : A -> PW -> Prop) :
  stable R t P -> (forall w, P w -> Q a w) -> triple t P (Ret a) Q.
Proof. intros Hs H' w Hw. eapply wp_ret; [exact Hs|exact Hw|exact H']. Qed.

(** A step of the holder of the lock: the others only need the core and, if it is
    not the compressor, what that relies on. *)
Lemma guarantee_held t w w' :
  lock_ w = Some t -> (lock_ w' = Some t \/ lock_ w' = None /\ ok_state w') -> Icore w' -> (t <> 0 -> env0 w w') ->
  forall t', t' <> t -> R t' w w'.
Proof.
  intros Hl Hl' HI He t' Hne HIw. split; [|split; [|split]].
  - split; [done|]. intros Hn. destruct Hl' as [Hl'|[_ Hok]]; [congruence|done].
  - intros Hc. congruence.
  - intros _. destruct Hl' as [Hl'|[Hl' _]]; congruence.
  - intros ->. by apply He.
Qed.

Lemma t_held {A} t (Φ : PW -> Prop) (f : PW -> list (A * PW)) (Ψ : A -> PW -> Prop) :
  lstable t Φ ->
  (forall w x w', Icore w -> Φ w -> lock_ w = Some t -> (x, w') ∈ f w ->
     lock_ w' = Some t /\ Icore w' /\ (t <> 0 -> env0 w w') /\ Ψ x w') ->
  (forall x, lstable t (Ψ x)) ->
  triple t (Held t Φ) (Act f Ret) (fun x => Held t (Ψ x)).
Proof.
  intros Hs Hf HΨ w Hw. eapply wp_act; [by apply Held_stable|exact Hw|]. intros w1 x w2 (HI & Hl & HΦ) Hx.
  destruct (Hf w1 x w2 (proj1 HI) HΦ Hl Hx) as (Hl2 & HI2 & He & HΨ2). split.
  - by apply guarantee_held; [done|left|done|done].
  - eapply wp_ret; [exact (Held_stable t (Ψ x) (HΨ x))| |by intros ? ?]. split; [|done]. split; [done|]. congruence.
Qed.

(** Giving the lock back. *)
Lemma t_unlock_keep t (Φ Ψ : PW -> Prop) :
  lstable t Φ -> fstable t Ψ -> (forall w, Icore w -> Φ w -> ok_state w /\ Ψ (set_lock_ None w)) ->
  triple t (Held t Φ) unlock (fun _ => Free t Ψ).
Proof.
  intros Hs Hf Hok w Hw. eapply wp_act; [by apply Held_stable|exact Hw|]. intros w1 x w2 (HI & Hl & HΦ) Hx.
  apply list_elem_of_singleton in Hx. injection Hx as -> ->. destruct (Hok w1 (proj1 HI) HΦ) as [Hok1 HΨ].
  assert (Hc : Icore (set_lock_ None w1)) by (destruct HI as [[? ? ? ?] _]; by constructor). split.
  - apply guarantee_held; [done|right; split; [done|exact Hok1]|done|]. intros _. apply env0_same; auto.
  - eapply wp_ret; [exact (Free_stable t Ψ Hf)| |by intros ? ?]. split; [by split|]. by split.
Qed.

Lemma t_unlock t (Φ : PW -> Prop) :
  lstable t Φ -> (forall w, Icore w -> Φ w -> ok_state w) ->
  triple t (Held t Φ) unlock (fun _ => Free t (fun _ => True)).
Proof. intros Hs Hok. apply t_unlock_keep; [done|by intros w w' _ _|]. intros w HI HΦ. split; [by apply Hok|done]. Qed.

(** Taking it. *)
Lemma kept_refl t w : kept t w w.
Proof. constructor; try done; [by left|]. intros _ _. split; [done|by intros ? ?]. Qed.

Lemma take_guarantee t w : Inv w -> lock_ w = None -> forall t', t' <> t -> R t' w (set_lock_ (Some t) w).
Proof.
  intros HI Hl t' Hne _. split; [|split; [|split]].
  - destruct HI as [[? ? ? ?] ?]. split; [by constructor|done].
  - intros Hc. congruence.
  - intros _ [= ->]. done.
  - intros _. apply env0_same; auto.
Qed.

Lemma t_lock t (Φ : PW -> Prop) :
  fstable t Φ -> lstable t (fun w => ok_state w /\ Φ w) -> (forall w x, Φ w -> Φ (set_lock_ x w)) ->
  triple t (Free t Φ) (lock t) (fun _ => Held t (fun w => ok_state w /\ Φ w)).
Proof.
  intros Hf Hl Hx w Hw. eapply wp_act; [by apply Free_stable|exact Hw|]. intros w1 x w2 (HI & Hn & HΦ) Hin.
  destruct (lock_ w1) eqn:El; [by apply not_elem_of_nil in Hin|]. apply list_elem_of_singleton in Hin. injection Hin as -> ->. split.
  - by apply take_guarantee.
  - eapply wp_ret; [exact (Held_stable t _ Hl)| |by intros ? ?]. split; [|split; [done|split; [|by apply Hx]]].
    + destruct HI as [[? ? ? ?] ?]. split; [by constructor|done].
    + by apply HI.
Qed.

Lemma t_tryLock t (Φ : PW -> Prop) :
  fstable t Φ -> lstable t (fun w => ok_state w /\ Φ w) -> (forall w x, Φ w -> Φ (set_lock_ x w)) ->
  triple t (Free t Φ) (tryLock t) (fun b => if b then Held t (fun w => ok_state w /\ Φ w) else Free t Φ).
Proof.
  intros Hf Hl Hx w Hw. eapply wp_act; [by apply Free_stable|exact Hw|]. intros w1 x w2 (HI & Hn & HΦ) Hin.
  destruct (lock_ w1) eqn:El; apply list_elem_of_singleton in Hin; injection Hin as -> ->.
  - split; [|eapply wp_ret; [exact (Free_stable t _ Hf)| |by intros ? ?]; split; [done|split; [congruence|done]]].
    intros t' Hne HIw. split; [done|]. split; [|split; [done|intros _; apply env0_same; auto]].
    intros Hc. split; [done|apply kept_refl].
  - split; [by apply take_guarantee|]. eapply wp_ret; [exact (Held_stable t _ Hl)| |by intros ? ?].
    split; [|split; [done|split; [|by apply Hx]]].
    + destruct HI as [[? ? ? ?] ?]. split; [by constructor|done].
    + by apply HI.
Qed.

(** ** Steps that touch only counters and statistics *)

Record same_core (w w' : PW) : Prop := {
  sc_lock : lock_ w' = lock_ w; sc_state : state_ w' = state_ w; sc_prot : prot_ w' = prot_ w; sc_mem : mem_ w' = mem_ w;
  sc_info : info_ w' = info_ w; sc_blobs : blobs_ w' = blobs_ w; sc_spilled : spilled_ w' = spilled_ w;
  sc_dicts : dicts_ w' = dicts_ w; sc_span : span_ w' = span_ w; sc_truth : truth_ w' = truth_ w
}.

Lemma same_held w w' : same_core w w' -> held w' = held w.
Proof. intros []. unfold held. congruence. Qed.

Lemma same_Icore w w' : same_core w w' -> Icore w -> Icore w'.
Proof.
  intros Hs [H1 H2 H3 H4]. pose proof (same_held _ _ Hs) as Hh. destruct Hs.
  constructor; rewrite ?Hh; congruence || (rewrite sc_state0, sc_prot0, sc_mem0, sc_truth0; exact H4).
Qed.

Lemma same_decodes w w' c : same_core w w' -> decodes w c -> decodes w' c.
Proof.
  intros Hs (Hl & Hz & Hd). pose proof (same_held _ _ Hs) as Hh. destruct Hs. split; [done|]. split; [by rewrite sc_info0, Hh|].
  intros E' HE. rewrite sc_dicts0 in HE.
  rewrite <- (Hd E' HE). unfold decode, decode_as, blob_bytes. change (held (set_dicts_ E' ?x)) with (held x). rewrite Hh.
  cbn [info_ span_ dicts_ set_dicts_]. by rewrite sc_info0, sc_span0.
Qed.

Lemma same_ok w w' : same_core w w' -> ok_state w -> ok_state w'.
Proof.
  intros Hs. unfold ok_state. pose proof (fun c => same_decodes w w' c Hs) as Hd. destruct Hs.
  rewrite sc_state0, sc_prot0, sc_mem0, sc_truth0. destruct (state_ w); try done; [intros (? & c & ? & ?)|intros (? & c & ?)]; eauto.
Qed.

Lemma same_Inv w w' : same_core w w' -> Inv w -> Inv w'.
Proof.
  intros Hs [Hc Ho]. split; [by eapply same_Icore|]. intros Hl. eapply same_ok; [done|]. apply Ho. by rewrite <- (sc_lock _ _ Hs).
Qed.

Lemma same_kept t w w' : same_core w w' -> kept t w w'.
Proof.
  intros Hs. pose proof (same_held _ _ Hs) as Hh. destruct Hs.
  constructor; rewrite ?Hh, ?sc_info0, ?sc_dicts0, ?sc_span0, ?sc_state0, ?sc_prot0, ?sc_mem0, ?sc_truth0; try done; [by left|].
  intros _ _. split; [done|by intros ? ?].
Qed.

Lemma same_env0 w w' : same_core w w' -> env0 w w'.
Proof. intros []. apply env0_same; auto. Qed.

Lemma t_silent t Φ f :
  lstable t Φ -> (forall w, same_core w (f w)) -> triple t (Held t Φ) (upd f) (fun _ => Held t Φ).
Proof.
  intros Hs Hf. apply t_held; [done| |done]. intros w x w' HI HΦ Hl Hx. apply list_elem_of_singleton in Hx. injection Hx as -> ->.
  pose proof (Hf w) as Hc. pose proof (same_Icore _ _ Hc HI). splits; [by rewrite (sc_lock _ _ Hc)|done|intros _; by apply same_env0|].
  eapply Hs; [exact HI|done|by apply same_kept|done].
Qed.

(** The fault slots. *)
Lemma t_silent_act {A} t Φ (f : PW -> list (A * PW)) :
  lstable t Φ -> (forall w x w', (x, w') ∈ f w -> same_core w w') -> triple t (Held t Φ) (Act f Ret) (fun _ => Held t Φ).
Proof.
  intros Hs Hf. apply t_held; [done| |done]. intros w x w' HI HΦ Hl Hx. pose proof (Hf w x w' Hx) as Hc.
  pose proof (same_Icore _ _ Hc HI). splits; [by rewrite (sc_lock _ _ Hc)|done|intros _; by apply same_env0|].
  eapply Hs; [exact HI|done|by apply same_kept|done].
Qed.
Lemma t_wait_slot t Φ : lstable t Φ -> triple t (Held t Φ) waitFaultSlot (fun _ => Held t Φ).
Proof.
  intros Hs. apply t_silent_act; [done|]. intros w x w' Hx. case_if_in Hx; [|by apply not_elem_of_nil in Hx].
  apply list_elem_of_singleton in Hx. by injection Hx as -> ->.
Qed.
Lemma t_take_slot t Φ : lstable t Φ -> triple t (Held t Φ) acquireFaultSlot (fun _ => Held t Φ).
Proof.
  intros Hs. apply t_silent_act; [done|]. intros w x w' Hx.
  case_if_in Hx; rewrite ?elem_of_cons in Hx; [destruct Hx as [Hx|[Hx|Hx]]|destruct Hx as [Hx|Hx]];
    try (by apply not_elem_of_nil in Hx); by injection Hx as -> ->.
Qed.
Lemma t_give_slot t Φ : lstable t Φ -> triple t (Held t Φ) releaseFaultSlot (fun _ => Held t Φ).
Proof. intros Hs. by apply t_silent. Qed.

(** A step of a thread that does not hold the lock. *)
Lemma t_free {A} t (Φ : PW -> Prop) (f : PW -> list (A * PW)) (Ψ : A -> PW -> Prop) :
  fstable t Φ ->
  (forall w x w', Inv w -> lock_ w <> Some t -> Φ w -> (x, w') ∈ f w ->
     lock_ w' = lock_ w /\ Inv w' /\ (forall t', t' <> t -> kept t' w w') /\ (t <> 0 -> env0 w w') /\ Ψ x w') ->
  (forall x, fstable t (Ψ x)) ->
  triple t (Free t Φ) (Act f Ret) (fun x => Free t (Ψ x)).
Proof.
  intros Hs Hf HΨ w Hw. eapply wp_act; [exact (Free_stable t _ Hs)|exact Hw|]. intros w1 x w2 (HI & Hl & HΦ) Hx.
  destruct (Hf w1 x w2 HI Hl HΦ Hx) as (Hl2 & HI2 & Hk & He & HΨ2). split.
  - intros t' Hne _. split; [done|]. split; [|split].
    + intros Hc. split; [congruence|by apply Hk].
    + congruence.
    + intros ->. apply He. congruence.
  - eapply wp_ret; [exact (Free_stable t (Ψ x) (HΨ x))| |by intros ? ?]. split; [done|]. split; [congruence|done].
Qed.

Lemma t_silent_free t Φ f :
  fstable t Φ -> (forall w, same_core w (f w)) -> triple t (Free t Φ) (upd f) (fun _ => Free t Φ).
Proof.
  intros Hs Hf. apply t_free; [done| |done]. intros w x w' HI Hl HΦ Hx. apply list_elem_of_singleton in Hx. injection Hx as -> ->.
  pose proof (Hf w) as Hc. splits; [by rewrite (sc_lock _ _ Hc)|by eapply same_Inv|intros; by apply same_kept|intros _; by apply same_env0|].
  eapply Hs; [intros _; by apply same_env0|done].
Qed.

(** Reading, and choices. *)
Lemma t_get {A} t Φ (g : PW -> A) (Ψ : A -> PW -> Prop) :
  lstable t Φ -> (forall x, lstable t (Ψ x)) -> (forall w, Icore w -> Φ w -> Ψ (g w) w) ->
  triple t (Held t Φ) (get g) (fun x => Held t (Ψ x)).
Proof.
  intros Hs HΨ Hg. apply t_held; [done| |done]. intros w x w' HI HΦ Hl Hx. apply list_elem_of_singleton in Hx. injection Hx as -> ->.
  splits; [done|done|intros _; apply same_env0; by constructor|by apply Hg].
Qed.

Lemma t_get_free {A} t Φ (g : PW -> A) : fstable t Φ -> triple t (Free t Φ) (get g) (fun _ => Free t Φ).
Proof.
  intros Hs. apply t_free; [done| |done]. intros w x w' HI Hl HΦ Hx. apply list_elem_of_singleton in Hx. injection Hx as -> ->.
  splits; [done|done|intros; by apply same_kept|intros _; by apply same_env0|done].
Qed.

Lemma t_choice t Φ : lstable t Φ -> triple t (Held t Φ) choice (fun _ => Held t Φ).
Proof.
  intros Hs. apply t_held; [done| |done]. intros w x w' HI HΦ Hl Hx.
  assert (w' = w) as -> by (apply elem_of_cons in Hx as [Hx|Hx]; [|apply list_elem_of_singleton in Hx]; by injection Hx).
  splits; [done|done|intros _; apply same_env0; by constructor|done].
Qed.

(** ** Stable facts of the holder of the lock *)

Lemma kept_decodes t w w' c : kept t w w' -> state_ w <> EMPTY -> decodes w c -> decodes w' c.
Proof.
  intros Hk Hs (Hl & Hz & Hd). split; [done|]. split; [by rewrite (k_info _ _ _ Hk), (k_held _ _ _ Hk)|]. intros E' HE. destruct (k_class _ _ _ Hk Hs) as [Hc _].
  rewrite <- (Hd E') by (etrans; [apply (k_dict _ _ _ Hk)|done]). unfold decode, decode_as, blob_bytes.
  change (held (set_dicts_ E' ?x)) with (held x). cbn [info_ span_ dicts_ set_dicts_].
  rewrite (k_info _ _ _ Hk), (k_held _ _ _ Hk), Hc. done.
Qed.

Lemma kept_nq t w w' : kept t w w' -> ~ quiet (state_ w) -> state_ w' = state_ w /\ prot_ w' = prot_ w.
Proof.
  intros Hk Hq. split; [|by apply Hk]. destruct (k_state _ _ _ Hk) as [->|[[Hs _]|[Hs _]]]; [done| |];
    exfalso; apply Hq; rewrite Hs; unfold quiet; auto.
Qed.

(** Stable while the state is [s] and the protection [p]. *)
Definition kst (t : Z) (s : PageState) (p : Prot) (Φ : PW -> Prop) : Prop :=
  forall w w', kept t w w' -> state_ w = s -> prot_ w = p -> Φ w -> Φ w'.
Definition at_ (s : PageState) (p : Prot) (Φ : PW -> Prop) (w : PW) : Prop := state_ w = s /\ prot_ w = p /\ Φ w.

Lemma at_lstable t s p Φ : ~ quiet s -> kst t s p Φ -> lstable t (at_ s p Φ).
Proof.
  intros Hq Hk w w' _ _ HK (Hs & Hp & HΦ). destruct (kept_nq t w w' HK) as [E1 E2]; [by rewrite Hs|].
  split; [congruence|]. split; [congruence|]. by eapply Hk.
Qed.

Lemma kst_pure t s p (X : Prop) : kst t s p (fun _ => X).
Proof. by intros w w' _ _ _ ?. Qed.
Lemma kst_and t s p Φ Ψ : kst t s p Φ -> kst t s p Ψ -> kst t s p (fun w => Φ w /\ Ψ w).
Proof. intros H1 H2 w w' HK Hs Hp [? ?]. split; eauto. Qed.
Lemma kst_decodes t s p c : ~ quiet s -> kst t s p (fun w => decodes w c).
Proof. intros Hq w w' HK Hs Hp Hd. eapply kept_decodes; [done| |done]. rewrite Hs. intros ->. apply Hq. by left. Qed.
Lemma kst_agree t s p c : ~ quiet s -> p <> PRW -> kst t s p (fun w => agree c (truth_ w)).
Proof.
  intros Hq Hp w w' HK Hs Hp' Ha. eapply agree_le; [|exact Ha]. apply HK; [by rewrite Hs|by rewrite Hp'].
Qed.
Lemma kst_mem t s p m : ~ quiet s -> p <> PRW -> kst t s p (fun w => mem_ w = m).
Proof. intros Hq Hp w w' HK Hs Hp' <-. apply HK; [by rewrite Hs|by rewrite Hp']. Qed.
Lemma kst_held s p a b : kst 0 s p (fun w => held w !! a = Some b).
Proof. intros w w' HK _ _ Ha. by rewrite (k_blobs _ _ _ HK). Qed.
Lemma kst_info t s p i : kst t s p (fun w => info_ w = i).
Proof. intros w w' HK _ _ <-. apply HK. Qed.
Lemma kst_ex {A} t s p (Φ : A -> PW -> Prop) : (forall x, kst t s p (Φ x)) -> kst t s p (fun w => exists x, Φ x w).
Proof. intros Hx w w' HK Hs Hp [x HΦ]. exists x. by eapply Hx. Qed.

(** Active pages, and any state whose bytes are in place. *)
Definition active (w : PW) : Prop := state_ w = ACTIVE \/ state_ w = ACTIVE_MONITORING.
Lemma active_lstable t : lstable t active.
Proof.
  intros w w' _ _ HK Ha. unfold active in *. destruct (k_state _ _ _ HK) as [->|[[Hs _]|[_ Hs]]]; [done| |by right].
  rewrite Hs in Ha. by destruct Ha.
Qed.

Definition in_place (s : PageState) (w : PW) : Prop := state_ w = s /\ agree (mem_ w) (truth_ w).
Lemma in_place_lstable t s : ~ quiet s -> lstable t (in_place s).
Proof.
  intros Hq w w' _ _ HK [Hs Ha]. destruct (kept_nq t w w' HK) as [E1 _]; [by rewrite Hs|]. split; [congruence|].
  apply HK; [|done]. rewrite Hs. intros ->. apply Hq. by left.
Qed.

Lemma true_lstable t : lstable t (fun _ => True).
Proof. by intros w w' _ _ _ _. Qed.

Lemma pure_lstable t (X : Prop) Φ : lstable t Φ -> lstable t (fun w => X /\ Φ w).
Proof. intros Hs w w' HI HI' HK [? ?]. split; [done|]. exact (Hs w w' HI HI' HK ltac:(done)). Qed.

Lemma ok_lstable t : lstable t ok_state.
Proof.
  intros w w' HI HI' HK Hok. unfold ok_state in Hok. destruct (state_ w) eqn:Es.
  - unfold ok_state. destruct (k_state _ _ _ HK) as [E|[[_ E]|[E _]]]; [rewrite E, Es|rewrite E|congruence]; done.
  - unfold ok_state. destruct (k_state _ _ _ HK) as [E|[[E _]|[_ E]]]; [rewrite E, Es|congruence|rewrite E]; done.
  - destruct Hok as (Hp & c & Hd & Ha).
    assert (Hq : ~ quiet COMPRESSED) by (intros [?|[?|?]]; done).
    assert (Hat : at_ COMPRESSED PNone (fun w => decodes w c /\ agree c (truth_ w)) w) by done.
    eapply at_lstable in Hat as (Hs' & Hp' & Hd' & Ha'); [|done| |exact HI|exact HI'|exact HK].
    + unfold ok_state. rewrite Hs'. eauto.
    + apply kst_and; [by apply kst_decodes|by apply kst_agree].
  - done.
  - unfold ok_state. destruct (k_state _ _ _ HK) as [E|[[E _]|[E _]]]; [rewrite E, Es|congruence|congruence]; done.
  - destruct Hok as (Ha & c & Hd). assert (Hq : ~ quiet COMPRESSED_SHADOW) by (intros [?|[?|?]]; done).
    destruct (in_place_lstable t COMPRESSED_SHADOW Hq w w' HI HI' HK (conj Es Ha)) as [Hs' Ha'].
    unfold ok_state. rewrite Hs'. split; [done|]. exists c. eapply kept_decodes; [done| |done]. by rewrite Es.
Qed.
End Safe.

Create HintDb page.
#[export] Hint Resolve kst_pure kst_and kst_decodes kst_agree kst_mem kst_held kst_info kst_ex at_lstable active_lstable
  in_place_lstable true_lstable ok_lstable pure_lstable : page.
#[export] Hint Extern 1 (~ quiet _) => (intros [?|[?|?]]; discriminate) : page.
#[export] Hint Extern 1 (_ <> _) => discriminate : page.
