(* ===== verification/PageFault.v ===== *)
(** * Transparency of compression: faults and the application

    The fault handler and the operations other threads start on a page keep the
    invariant of PageSafe, when the kernel honours protection changes and writes
    through [/proc/self/mem]. *)

From S2P Require Import Prelude Config Engine Stats PageState PageProg PageWorld PageOps PageSafe.
From S2P Require Span.

#[local] Abbreviation Span := Span.Span.

(** The default mode: deferred reclaim, inaccessible before dropped. *)
Record default_mode (cfg : Cfg) : Prop := {
  dm_size : 0 < page_bytes cfg;
  dm_addr : is_Some (page_addr cfg);
  dm_deferred : isDeferredReclaimMode cfg = true;
  dm_fixav : fixavEnabled cfg = true
}.

(** The kernel refuses nothing: [/proc/self/mem] could be opened, every write
    through it is complete, and every protection change is granted (the process stays
    below the kernel's limit of mappings). *)
Record kernel_grants (cfg : Cfg) : Prop := {
  kg_selfmem : self_mem_ok cfg = true;
  kg_mprotect : mprotect_may_fail cfg = false;
  kg_pwrite : pwrite_may_fail cfg = false
}.

Record default_run (cfg : Cfg) : Prop := { run_mode :> default_mode cfg; run_grants :> kernel_grants cfg }.

Lemma state_eqb_true a b : state_eqb a b = true -> a = b.
Proof. unfold state_eqb. by intros ?%bool_decide_eq_true. Qed.

(** Evaluates comparisons of known states. *)
Ltac states :=
  repeat match goal with
  | |- context [state_eqb ?a ?b] => let v := eval vm_compute in (state_eqb a b) in change (state_eqb a b) with v
  end; cbn [orb andb negb].

Section Fault.
Context `{Codecs}.
Context (cfg : Cfg) (place : gmap Z (list Z) -> Z) (stale : list Z) (elapsed_us : Z).
Hypothesis DM : default_run cfg.

Abbreviation T := (triple cfg).
Abbreviation Hd := (Held cfg).
Abbreviation Fr := (Free cfg).
Abbreviation any := (fun _ : PW => True).

Lemma Icore_prot w p :
  Icore cfg w -> (p = PNone \/ agree (mem_ w) (truth_ w)) -> Icore cfg (set_prot_ p w).
Proof.
  intros [H1 H2 H3 H4] Hp. constructor; [done|done|done|]. cbn. intros Hs Hq. destruct Hp as [->|?]; [|done].
  apply H4; [done|]. destruct Hq; [done|by right].
Qed.
Lemma Icore_state w s :
  Icore cfg w -> (s = EMPTY \/ agree (mem_ w) (truth_ w) \/ prot_ w = PNone /\ ~ settled s) -> Icore cfg (set_state_ s w).
Proof.
  intros [H1 H2 H3 H4] Hp. constructor; [done|done|done|]. cbn. intros Hs Hq. destruct Hp as [->|[?|[Hp Hn]]]; [done|done|].
  rewrite Hp in Hq. destruct Hq; done.
Qed.
Lemma Icore_mem w m :
  Icore cfg w -> zlen m = page_bytes cfg ->
  (prot_ w = PNone /\ ~ settled (state_ w) \/ agree m (truth_ w)) -> Icore cfg (set_mem_ m w).
Proof.
  intros [H1 H2 H3 H4] Hl Hp. constructor; [done|done|done|]. cbn. intros Hs Hq. destruct Hp as [[Hp Hn]|?]; [|done].
  rewrite Hp in Hq. destruct Hq; done.
Qed.
Lemma Icore_agree w : Icore cfg w -> active w \/ state_ w = COMPRESSED_SHADOW -> agree (mem_ w) (truth_ w).
Proof.
  intros HI Ha. apply (ic_agree _ _ HI).
  - intros E. unfold active in Ha. rewrite E in Ha. destruct Ha as [[?|?]|?]; done.
  - right. unfold settled. destruct Ha as [[?|?]|?]; auto.
Qed.

(** Rules for the accesses of the holder of the lock. *)
Lemma t_upd t Φ Ψ f :
  lstable cfg t Φ -> lstable cfg t Ψ ->
  (forall w, Icore cfg w -> Φ w -> lock_ (f w) = lock_ w /\ Icore cfg (f w) /\ (t <> 0 -> env0 w (f w)) /\ Ψ (f w)) ->
  T t (Hd t Φ) (upd f) (fun _ => Hd t Ψ).
Proof.
  intros Hs Hs' Hf. apply t_held; [done| |done]. intros w x w' HI HΦ Hl Hx. apply list_elem_of_singleton in Hx. injection Hx as -> ->.
  destruct (Hf w HI HΦ) as (E & ? & ? & ?). splits; [congruence|done|done|done].
Qed.

Lemma t_protect t p Φ Ψ :
  lstable cfg t Φ -> lstable cfg t Ψ ->
  (forall w, Icore cfg w -> Φ w -> (p = PNone \/ agree (mem_ w) (truth_ w)) /\ Ψ (set_prot_ p w)) ->
  T t (Hd t Φ) (protectPages cfg p) (fun b => Hd t (fun w => b = true /\ Ψ w)).
Proof.
  intros Hs Hs' Hf. apply t_held; [done| |intros b; by apply pure_lstable].
  intros w x w' HI HΦ Hl Hx. rewrite (kg_mprotect _ DM) in Hx. apply list_elem_of_singleton in Hx. injection Hx as -> ->.
  destruct (Hf w HI HΦ) as [Hp HΨ]. splits; [done|by apply Icore_prot|intros _; apply env0_same; auto|done|done].
Qed.

Lemma t_set_state t s Φ Ψ :
  lstable cfg t Φ -> lstable cfg t Ψ -> (t = 0 \/ quiet s \/ stored s /\ forall w, Φ w -> stored (state_ w)) ->
  (forall w, Icore cfg w -> Φ w ->
     (s = EMPTY \/ agree (mem_ w) (truth_ w) \/ prot_ w = PNone /\ ~ settled s) /\ Ψ (set_state_ s w)) ->
  T t (Hd t Φ) (set_state s) (fun _ => Hd t Ψ).
Proof.
  intros Hs Hs' Hq Hf. apply t_upd; [done|done|]. intros w HI HΦ. destruct (Hf w HI HΦ) as [Ha HΨ].
  splits; [done|by apply Icore_state| |done]. intros Ht. destruct Hq as [|[Hq|[Hq Hst]]]; [done| |].
  - constructor; [done|by left|]. cbn. intros [-> | ->]; by destruct Hq as [?|[?|?]].
  - constructor; [|by left|by intros _; splits; [apply Hst| | |]]. intros Hqw. specialize (Hst w HΦ).
    destruct Hst as [E|E]; rewrite E in Hqw; by destruct Hqw as [?|[?|?]].
Qed.

Lemma t_pwrite t m Φ Ψ :
  lstable cfg t Φ -> lstable cfg t Ψ -> zlen m = page_bytes cfg ->
  (forall w, Icore cfg w -> Φ w -> (prot_ w = PNone /\ ~ settled (state_ w)) /\ Ψ (set_mem_ m w)) ->
  T t (Hd t Φ) (pwrite_page cfg m) (fun b => Hd t (fun w => b = true /\ Ψ w)).
Proof.
  intros Hs Hs' Hm Hf. apply t_held; [done| |intros b; by apply pure_lstable].
  intros w x w' HI HΦ Hl Hx. rewrite (kg_pwrite _ DM) in Hx. apply list_elem_of_singleton in Hx. injection Hx as -> ->.
  destruct (Hf w HI HΦ) as [Hp HΨ]. splits; [done|apply Icore_mem; auto|intros _; apply env0_same; auto|done|done].
Qed.

(** Counters only. *)
Lemma t_m t Φ f : lstable cfg t Φ -> T t (Hd t Φ) (set_m f) (fun _ => Hd t Φ).
Proof. intros Hs. apply t_silent; [done|]. by intros w. Qed.

(** Releasing the blob and forgetting it. *)
Lemma t_drop_blob t s p : ~ quiet s -> T t (Hd t (at_ s p any)) (releaseBlob;; clear_info) (fun _ => Hd t (at_ s p any)).
Proof.
  intros Hq. eapply t_bind with (M := fun _ => Hd t (at_ s p any)).
  - apply t_upd; [auto with page|auto with page|]. intros w [H1 H2 H3 H4] HΦ. repeat case_if; (splits; [done|by constructor|intros _; apply env0_same; auto|done]).
  - intros _. apply t_upd; [auto with page|auto with page|]. intros w [H1 H2 H3 H4] HΦ. splits; [done|by constructor| |done].
    intros _. apply env0_same; auto.
Qed.

(** The page is writable with its bytes in place: to ACTIVE and unlock. *)
Lemma t_finish_active t Φ :
  lstable cfg t Φ -> (forall w, Icore cfg w -> Φ w -> agree (mem_ w) (truth_ w)) ->
  T t (Hd t Φ) (set_state ACTIVE) (fun _ => Hd t active).
Proof.
  intros Hs Ha. apply t_set_state; [done|auto with page|right; left; unfold quiet; auto|]. intros w HI HΦ. split; [eauto|by left].
Qed.

Lemma quiet_lstable t : lstable cfg t (fun w => quiet (state_ w)).
Proof.
  intros w w' _ _ HK Hq. unfold quiet in *. destruct (k_state _ _ _ HK) as [->|[[_ ->]|[_ ->]]]; auto.
Qed.

Lemma active_ok w : active w -> ok_state cfg w.
Proof. unfold ok_state, active. by intros [-> | ->]. Qed.

Lemma t_unlock_active t : T t (Hd t active) unlock (fun _ => Fr t any).
Proof. apply t_unlock; [auto with page|]. intros w _ Ha. by apply active_ok. Qed.

Lemma t_exists {A B} t (Φ : B -> PW -> Prop) (p : prog PW A) Q :
  (forall x, T t (Hd t (Φ x)) p Q) -> T t (Hd t (fun w => exists x, Φ x w)) p Q.
Proof. intros Hx w (HI & Hl & x & HΦ). by apply (Hx x). Qed.

Lemma t_conseq {A} t P P' (p : prog PW A) (Q Q' : A -> PW -> Prop) :
  (forall w, P w -> P' w) -> (forall a w, Q' a w -> Q a w) -> T t P' p Q' -> T t P p Q.
Proof. intros Hp Hq Ht w Hw. eapply wp_mono; [exact Hq|]. apply Ht. by apply Hp. Qed.

Lemma Held_mono t (Φ Ψ : PW -> Prop) : (forall w, Icore cfg w -> Φ w -> Ψ w) -> forall w, Hd t Φ w -> Hd t Ψ w.
Proof. intros Hm w (HI & Hl & HΦ). split; [done|]. split; [done|]. by apply Hm; [apply HI|]. Qed.

(** What is known after reading the state under the lock. *)
Definition blob_of (c : list Z) (w : PW) : Prop := decodes cfg w c /\ agree c (truth_ w).
Definition seen (st : PageState) (w : PW) : Prop :=
  match st with
  | COMPRESSED => exists c, at_ COMPRESSED PNone (blob_of c) w
  | COMPRESSED_SHADOW => state_ w = COMPRESSED_SHADOW /\ exists c, decodes cfg w c
  | ACTIVE | ACTIVE_MONITORING => active w
  | EMPTY => ok_state cfg w
  | COMPRESSING => False
  end.

Lemma blob_kst t s p c : ~ quiet s -> p <> PRW -> kst t s p (blob_of c).
Proof. intros. apply kst_and; auto with page. Qed.
Hint Resolve blob_kst : page.

Lemma exists_lstable {B} t (Φ : B -> PW -> Prop) : (forall x, lstable cfg t (Φ x)) -> lstable cfg t (fun w => exists x, Φ x w).
Proof. intros Hx w w' HI HI' HK [x HΦ]. exists x. exact (Hx x w w' HI HI' HK HΦ). Qed.

Lemma shadow_lstable t Φ : (forall p, kst t COMPRESSED_SHADOW p Φ) -> lstable cfg t (fun w => state_ w = COMPRESSED_SHADOW /\ Φ w).
Proof.
  intros Hk w w' HI HI' HK [Hs HΦ]. destruct (kept_nq t w w' HK) as [E1 _]; [rewrite Hs; auto with page|].
  split; [congruence|]. by eapply Hk.
Qed.

Lemma seen_lstable t st : lstable cfg t (seen st).
Proof.
  destruct st; cbn; auto with page.
  - apply exists_lstable. auto with page.
  - by intros w w' ? ? ? ?.
  - apply shadow_lstable. auto with page.
Qed.
Hint Resolve seen_lstable : page.

Lemma seen_ok st w : Icore cfg w -> seen st w -> ok_state cfg w.
Proof.
  intros HI. destruct st; cbn; try done; try (intros; by apply active_ok).
  - intros (c & Hs & Hp & Hd & Ha). unfold ok_state. rewrite Hs. eauto.
  - intros (Hs & c & Hd). unfold ok_state. rewrite Hs. split; [|eauto]. apply Icore_agree; auto.
Qed.

Lemma t_get_state t : T t (Hd t (ok_state cfg)) get_state (fun st => Hd t (seen st)).
Proof.
  apply t_get; [auto with page|auto with page|]. intros w HI Hok. unfold ok_state in Hok. unfold seen, active.
  destruct (state_ w) eqn:Es; auto.
  - unfold ok_state. by rewrite Es.
  - destruct Hok as (Hp & c & Hd & Ha). exists c. done.
  - destruct Hok as (Ha & c & Hd). eauto.
Qed.

Lemma t_unlock_ok t Φ : lstable cfg t Φ -> (forall w, Icore cfg w -> Φ w -> ok_state cfg w) -> T t (Hd t Φ) unlock (fun _ => Fr t any).
Proof. apply t_unlock. Qed.

Lemma t_done {A} t (a : A) Q : (forall w, Fr t any w -> Q a w) -> T t (Fr t any) (Ret a) Q.
Proof. intros Hq. apply t_ret; [|done]. apply Free_stable. by intros w w' _ _. Qed.

Lemma t_return {A} t (a : A) Φ (Ψ : A -> PW -> Prop) :
  lstable cfg t Φ -> (forall w, Icore cfg w -> Φ w -> Ψ a w) -> T t (Hd t Φ) (Ret a) (fun x => Hd t (Ψ x)).
Proof. intros Hs Hm. apply t_ret; [by apply Held_stable|]. apply Held_mono. done. Qed.

(** ** Restoring *)

Abbreviation comp c := (at_ COMPRESSED PNone (blob_of c)).
Abbreviation rw s := (at_ s PRW any).

Lemma t_fill t c : zlen c = page_bytes cfg ->
  T t (Hd t (comp c)) (pwrite_page cfg c)
    (fun b => Hd t (fun w => b = true /\ at_ COMPRESSED PNone (fun w => blob_of c w /\ mem_ w = c) w)).
Proof.
  intros Hl. apply t_pwrite; [auto with page|auto with page|done|]. intros w HI (Hs & Hp & Hb). rewrite Hs. split.
  - split; [done|]. intros [?|[?|?]]; done.
  - split; [done|]. split; [done|]. split; [exact Hb|done].
Qed.

Lemma t_open t c :
  T t (Hd t (at_ COMPRESSED PNone (fun w => blob_of c w /\ mem_ w = c))) (protectPages cfg PRW)
    (fun b => Hd t (fun w => b = true /\ rw COMPRESSED w)).
Proof.
  apply t_protect; [auto with page|auto with page|]. intros w HI (Hs & Hp & [_ Ha] & Hm). split; [|done]. right. by rewrite Hm.
Qed.

Lemma t_pure {A} t (X : Prop) Φ (p : prog PW A) Q : (X -> T t (Hd t Φ) p Q) -> T t (Hd t (fun w => X /\ Φ w)) p Q.
Proof. intros Hx w (HI & Hl & HX & HΦ). by apply Hx. Qed.

(** After an access that always succeeds. *)
Lemma t_bind_true {A} t P (p : prog PW bool) Ψ (q : bool -> prog PW A) Q :
  T t P p (fun b => Hd t (fun w => b = true /\ Ψ w)) -> T t (Hd t Ψ) (q true) Q -> T t P (bind p q) Q.
Proof.
  intros Hp Hq. eapply t_bind; [exact Hp|]. intros b w (HI & Hl & -> & HΨ). by apply Hq.
Qed.

Lemma t_restore t c : zlen c = page_bytes cfg ->
  T t (Hd t (comp c)) (restorePageContents cfg c) (fun b => Hd t (fun w => b = true /\ rw COMPRESSED w)).
Proof.
  intros Hl. unfold restorePageContents. rewrite (kg_selfmem _ DM).
  eapply t_bind_true with (Ψ := rw COMPRESSED).
  - eapply t_bind_true; [by apply t_fill|]. apply t_open.
  - cbn. apply t_return; auto with page.
Qed.

Lemma t_range_self t c : zlen c = page_bytes cfg ->
  T t (Hd t (comp c)) (restoreRange_self cfg (Some c))
    (fun b => if b then Hd t (rw COMPRESSED) else Hd t (comp c)).
Proof.
  intros Hl. unfold restoreRange_self. rewrite (kg_selfmem _ DM). cbn [negb].
  eapply t_bind; [apply t_choice; auto with page|]. intros [|]; cbn [negb].
  2:{ apply t_ret; [apply Held_stable; auto with page|done]. }
  eapply t_bind_true; [by apply t_fill|]. eapply t_bind; [apply t_choice; auto with page|]. intros [|]; cbn [andb].
  - eapply t_conseq; [intros w Hw; exact Hw| |apply t_open]. intros b w (HI & Hl' & -> & Hr). done.
  - apply t_ret; [apply Held_stable; auto with page|]. apply Held_mono. intros w _ (Hs & Hp & Hb & _). done.
Qed.

Lemma t_range_none t : T t (Hd t active) (restoreRange_self cfg None) (fun _ => Hd t active).
Proof.
  unfold restoreRange_self. rewrite (kg_selfmem _ DM). cbn [negb].
  eapply t_bind; [apply t_choice; auto with page|]. intros [|]; cbn [negb]; [|apply t_return; auto with page].
  eapply t_bind; [apply (t_return t true active (fun _ => active)); auto with page|]. intros b.
  eapply t_bind; [apply t_choice; auto with page|]. intros b'. destruct (b && b'); [|apply t_return; auto with page].
  eapply t_conseq; [intros w Hw; exact Hw| |apply (t_protect t PRW active active); auto with page].
  - intros x w (HI & Hl & _ & Ha). by split.
  - intros w HI Ha. split; [right; by apply Icore_agree; [|left]|done].
Qed.

Lemma t_resident t : T t (Hd t active) (makeResidentPageWritable cfg) (fun _ => Hd t active).
Proof.
  unfold makeResidentPageWritable. eapply t_bind; [apply t_choice; auto with page|]. intros near.
  eapply t_bind with (M := fun _ => Hd t active).
  { destruct near; [apply t_range_none|apply t_return; auto with page]. }
  intros [|]; [apply t_return; auto with page|].
  eapply t_bind_true; [apply (t_protect t PRW active active); auto with page|apply t_return; auto with page].
  intros w HI Ha. split; [right; by apply Icore_agree; [|left]|done].
Qed.

(** ** The fault handler *)

Lemma t_m_free t f : T t (Fr t any) (set_m f) (fun _ => Fr t any).
Proof. apply t_silent_free; [by intros w w' _ _|]. by intros w. Qed.

Lemma t_upd_free t f : (forall w, same_core w (f w)) -> T t (Fr t any) (upd f) (fun _ => Fr t any).
Proof. intros Hf. apply t_silent_free; [by intros w w' _ _|done]. Qed.

Lemma t_skip t : T t (Fr t any) (Ret tt) (fun _ => Fr t any).
Proof. by apply t_done. Qed.

Lemma t_notify t ev : T t (Fr t any) (notify ev) (fun _ => Fr t any).
Proof. apply t_upd_free. intros w. destruct (span_ w); [case_if|]; done. Qed.

Lemma t_note_refault t b : T t (Fr t any) (note_refault cfg elapsed_us b) (fun _ => Fr t any).
Proof.
  unfold note_refault. eapply t_bind; [apply t_get_free; by intros w w' _ _|]. intros rc.
  eapply t_bind with (M := fun _ => Fr t any). { case_if; [apply t_m_free|apply t_skip]. }
  intros ?. eapply t_bind with (M := fun _ => Fr t any).
  { case_if; [|apply t_skip]. eapply t_bind; [apply t_m_free|]. intros ?. apply t_upd_free. intros w. by destruct (bucket_of _). }
  intros ?. eapply t_bind; [apply t_notify|]. intros ?. apply t_upd_free. intros w. by destruct (bucket_of _).
Qed.

(** From a writable page whose blob is no longer needed to an active page. *)
Lemma t_drop_then {A} t s (q : prog PW A) Q : ~ quiet s ->
  T t (Hd t (rw s)) q Q -> T t (Hd t (rw s)) (releaseBlob;; clear_info;; q) Q.
Proof.
  intros Hq Ht w Hw. pose proof (t_bind cfg t _ _ _ (fun _ => q) Q (t_drop_blob t s PRW Hq) (fun _ => Ht) w Hw) as Hx.
  exact Hx.
Qed.

Lemma t_m_then {A} t Φ f (q : prog PW A) Q : lstable cfg t Φ -> T t (Hd t Φ) q Q -> T t (Hd t Φ) (set_m f;; q) Q.
Proof. intros Hs Hq. eapply t_bind; [by apply t_m|]. by intros ?. Qed.

Lemma t_to_active {A} t Φ (q : prog PW A) Q :
  lstable cfg t Φ -> (forall w, Icore cfg w -> Φ w -> agree (mem_ w) (truth_ w)) ->
  T t (Hd t active) q Q -> T t (Hd t Φ) (set_state ACTIVE;; q) Q.
Proof. intros Hs Ha Hq. eapply t_bind; [by apply t_finish_active|]. by intros ?. Qed.

Lemma rw_agree s w : s <> EMPTY -> Icore cfg w -> rw s w -> agree (mem_ w) (truth_ w).
Proof. intros Hs HI (E & Hp & _). apply (ic_agree _ _ HI); [by rewrite E|left; by rewrite Hp]. Qed.

Lemma t_unlock_then {A} t (q : prog PW A) Q : T t (Fr t any) q Q -> T t (Hd t active) (unlock;; q) Q.
Proof. intros Hq. eapply t_bind; [apply t_unlock_active|]. by intros ?. Qed.

Lemma t_fault_compressed t b :
  T t (Hd t (seen COMPRESSED)) (fault_compressed cfg stale elapsed_us b) (fun _ => Fr t any).
Proof.
  apply t_exists. intros c. unfold fault_compressed.
  eapply t_bind with (M := fun _ => Hd t (comp c)); [apply t_get; auto with page|]. intros was.
  apply t_m_then; [auto with page|]. eapply t_bind; [apply t_wait_slot; auto with page|]. intros ?.
  eapply t_bind with (M := fun x => Hd t (fun w => x = c /\ comp c w)).
  { apply t_get; [auto with page|auto with page|]. intros w HI Hc. split; [|done]. destruct Hc as (_ & _ & (_ & _ & Hd) & _).
    specialize (Hd _ (rtc_refl _ _)). unfold set_dicts_ in Hd. destruct w. cbn in *. by rewrite Hd. }
  intros x. apply t_pure. intros ->.
  assert (zlen c = page_bytes cfg \/ zlen c <> page_bytes cfg) as [Hlen|Hlen] by lia.
  2:{ intros w (_ & _ & _ & _ & [Hz _] & _). lia. }
  eapply t_bind; [apply t_choice; auto with page|]. intros near.
  eapply t_bind with (M := fun r : bool => if r then Hd t (rw COMPRESSED) else Hd t (comp c)).
  { destruct near; [by apply t_range_self|]. apply t_ret; [apply Held_stable; auto with page|done]. }
  intros r1. eapply t_bind with (M := fun r : bool => Hd t (fun w => r = true /\ rw COMPRESSED w)).
  { destruct r1; [apply t_return; auto with page|by apply t_restore]. }
  intros r2. apply t_pure. intros ->.
  cbn [bind negb]. eapply t_bind; [apply t_give_slot; auto with page|]. intros ?.
  apply t_drop_then; [auto with page|]. apply t_m_then; [auto with page|].
  apply t_to_active; [auto with page|intros w; by apply rw_agree|].
  apply t_m_then; [auto with page|]. apply t_m_then; [auto with page|]. apply t_unlock_then.
  eapply t_bind; [apply t_note_refault|]. intros ?. by apply t_done.
Qed.

Lemma t_fault_shadow t : T t (Hd t (seen COMPRESSED_SHADOW)) (fault_shadow cfg) (fun _ => Fr t any).
Proof.
  unfold fault_shadow. eapply t_bind with (M := fun _ => Hd t (rw COMPRESSED_SHADOW)).
  { eapply t_conseq; [intros w Hw; exact Hw| |apply (t_protect t PRW (seen COMPRESSED_SHADOW) (rw COMPRESSED_SHADOW)); auto with page].
    - intros x w (HI & Hl & _ & Ha). by split.
    - intros w HI [Hs _]. split; [|done]. right. apply Icore_agree; auto. }
  intros ?. apply t_drop_then; [auto with page|]. do 4 (apply t_m_then; [auto with page|]).
  apply t_to_active; [auto with page|intros w; by apply rw_agree|]. apply t_unlock_then. by apply t_done.
Qed.

Lemma t_handleFault t b : T t (Fr t any) (handleFault cfg stale elapsed_us t b) (fun _ => Fr t any).
Proof.
  unfold handleFault. eapply t_bind; [apply t_get_free; by intros w w' _ _|]. intros [|]; [by apply t_done|].
  eapply t_bind with (M := fun _ => Hd t (ok_state cfg)).
  { eapply t_conseq; [intros w Hw; exact Hw| |apply (t_lock cfg t any)]; [|by intros w w' _ _| |done].
    - intros _ w (HI & Hl & Hok & _). done.
    - intros w w' HI HI' HK [Hok _]. split; [|done]. exact (ok_lstable cfg t w w' HI HI' HK Hok). }
  intros ?. eapply t_bind; [apply t_get_state|]. intros [].
  - eapply t_bind; [apply t_unlock_ok; [auto with page|]|intros ?; by apply t_done]. intros w HI Hs. by eapply seen_ok.
  - unfold fault_active. eapply t_bind; [apply t_resident|]. intros ?. apply t_unlock_then. by apply t_done.
  - apply t_fault_compressed.
  - by intros w (_ & _ & []).
  - unfold fault_monitoring. eapply t_bind; [apply t_resident|]. intros [|]; cbn [negb].
    + apply t_m_then; [auto with page|]. apply t_to_active; [auto with page|intros w HI Ha; apply Icore_agree; auto|].
      apply t_unlock_then. by apply t_done.
    + apply t_unlock_then. by apply t_done.
  - apply t_fault_shadow.
Qed.

(** ** Other handlers *)

Lemma t_take_lock t : T t (Fr t any) (lock t) (fun _ => Hd t (ok_state cfg)).
Proof.
  eapply t_conseq; [intros w Hw; exact Hw| |apply (t_lock cfg t any)]; [|by intros w w' _ _| |done].
  - intros _ w (HI & Hl & Hok & _). done.
  - intros w w' HI HI' HK [Hok _]. split; [|done]. exact (ok_lstable cfg t w w' HI HI' HK Hok).
Qed.

Lemma t_try t {A} (q : bool -> prog PW A) Q :
  T t (Fr t any) (q false) Q -> T t (Hd t (ok_state cfg)) (q true) Q -> T t (Fr t any) (bind (tryLock t) q) Q.
Proof.
  intros Hf Ht. eapply t_bind; [apply (t_tryLock cfg t any)|].
  - by intros w w' _ _.
  - intros w w' HI HI' HK [Hok _]. split; [|done]. exact (ok_lstable cfg t w w' HI HI' HK Hok).
  - done.
  - intros [|]; [|done]. intros w (HI & Hl & Hok & _). by apply Ht.
Qed.

(** The blob's bytes, decompressed. *)
Lemma t_decode t s p c Φ : ~ quiet s -> (forall w, Φ w -> decodes cfg w c) -> kst t s p Φ ->
  T t (Hd t (at_ s p Φ)) (decompress_page cfg stale) (fun x => Hd t (fun w => x = c /\ at_ s p Φ w)).
Proof.
  intros Hq Hd Hk. apply t_get; [auto with page|auto with page|]. intros w HI (Hs & Hp & HΦ). split; [|done].
  destruct (Hd w HΦ) as (_ & _ & Hdec). specialize (Hdec _ (rtc_refl _ _)). unfold set_dicts_ in Hdec. destruct w. cbn in *. by rewrite Hdec.
Qed.

Lemma blob_len c w : blob_of c w -> zlen c = page_bytes cfg.
Proof. intros [[Hz _] _]. done. Qed.

Lemma t_with_len {A} t s p c (q : prog PW A) Q :
  (zlen c = page_bytes cfg -> T t (Hd t (at_ s p (blob_of c))) q Q) -> T t (Hd t (at_ s p (blob_of c))) q Q.
Proof. intros Hq w Hw. apply Hq; [|done]. destruct Hw as (_ & _ & _ & _ & Hb). by eapply blob_len. Qed.

Lemma t_unlock_seen t st : T t (Hd t (seen st)) unlock (fun _ => Fr t any).
Proof. apply t_unlock_ok; [auto with page|]. intros w HI Hs. by eapply seen_ok. Qed.

Lemma comp_ok c w : comp c w -> ok_state cfg w.
Proof. intros (Hs & Hp & Hd & Ha). unfold ok_state. rewrite Hs. eauto. Qed.

Lemma t_unlock_comp t c : T t (Hd t (comp c)) unlock (fun _ => Fr t any).
Proof. apply t_unlock_ok; [auto with page|]. intros w HI Hs. by eapply comp_ok. Qed.

Lemma t_prefetch t : T t (Fr t any) (prefetchAdjacent cfg stale t) (fun _ => Fr t any).
Proof.
  unfold prefetchAdjacent. apply t_try; [apply t_skip|]. cbn [negb].
  eapply t_bind with (M := fun b : bool => Hd t (if b then seen COMPRESSED else ok_state cfg)).
  { apply t_get; [auto with page|intros []; auto with page|]. intros w HI Hok. case_if; [|done]. b2p.
    assert (Es : state_ w = COMPRESSED) by (by apply state_eqb_true). unfold ok_state in Hok. rewrite Es in Hok.
    destruct Hok as (Hp & c & Hd & Ha). by exists c. }
  intros [|].
  - apply t_exists. intros c. apply t_with_len. intros Hl.
    eapply t_bind with (M := fun _ => Hd t (ok_state cfg)); [|intros ?; apply t_unlock_ok; auto with page].
    eapply t_bind; [apply t_take_slot; auto with page|]. intros [|]; cbn [negb].
    2:{ apply t_return; [auto with page|]. intros w _ Hc. by eapply comp_ok. }
    eapply t_bind; [apply t_decode with (c := c); [auto with page|by intros w []|auto with page]|]. intros x. apply t_pure. intros ->.
    eapply t_bind_true; [by apply t_restore|]. eapply t_bind; [apply t_give_slot; auto with page|]. intros ?.
    cbn [negb]. apply t_drop_then; [auto with page|].
    apply t_to_active; [auto with page|intros w; by apply rw_agree|].
    eapply t_conseq; [intros w Hw; exact Hw| |apply t_m; auto with page]. intros ? w. apply Held_mono. intros ? _. by apply active_ok.
  - eapply t_bind; [apply t_return with (Ψ := fun _ => ok_state cfg); auto with page|]. intros ?. apply t_unlock_ok; auto with page.
Qed.

(** The release of a page, from whatever state. *)
Lemma t_release t : T t (Fr t any) (releaseCompressedPages t) (fun _ => Fr t any).
Proof.
  unfold releaseCompressedPages. eapply t_bind; [apply t_take_lock|]. intros ?.
  apply t_m_then; [auto with page|]. eapply t_bind with (M := fun _ => Hd t any); [apply t_get; auto with page|]. intros st.
  eapply t_bind with (M := fun _ => Hd t any); [apply t_get; auto with page|]. intros has.
  eapply t_bind with (M := fun _ => Hd t any).
  { case_if; [|apply t_return; auto with page]. eapply t_bind with (M := fun _ => Hd t any).
    - apply t_upd; [auto with page|auto with page|]. intros w [J1 J2 J3 J4] _. repeat case_if; (splits; [done|by constructor|intros _; apply env0_same; auto|done]).
    - intros ?. apply t_upd; [auto with page|auto with page|]. intros w [J1 J2 J3 J4] _. splits; [done|by constructor| |done].
      intros _. apply env0_same; auto. }
  intros ?. apply t_m_then; [auto with page|].
  eapply t_bind with (M := fun _ => Hd t (fun w => quiet (state_ w))).
  { apply t_set_state; [auto with page|apply quiet_lstable|right; left; by left|]. intros w HI _. split; by left. }
  intros ?. apply t_m_then; [apply quiet_lstable|]. apply t_m_then; [apply quiet_lstable|].
  apply t_unlock_ok; [apply quiet_lstable|]. intros w HI [Hs|[Hs|Hs]]; unfold ok_state; by rewrite Hs.
Qed.

(** A restore that another page's fault extends to this one. *)
Lemma t_state_is {A} t Φ (X : PageState -> Prop) (q : PageState -> prog PW A) Q :
  lstable cfg t Φ -> (forall w, Icore cfg w -> Φ w -> X (state_ w)) -> (forall st, X st -> T t (Hd t Φ) (q st) Q) ->
  T t (Hd t Φ) (bind get_state q) Q.
Proof.
  intros Hs HX Hq. eapply t_bind with (M := fun st => Hd t (fun w => X st /\ Φ w)).
  - apply t_get; [done|intros; by apply pure_lstable|]. intros w HI HΦ. split; [by apply HX|done].
  - intros st. apply t_pure. apply Hq.
Qed.

Lemma t_finalise t s : s = COMPRESSED \/ s = COMPRESSED_SHADOW ->
  T t (Hd t (rw s)) (set_m (m_pending false);; releaseBlob;; clear_info;; set_m (m_tier kTierNone);; set_state ACTIVE;; set_m (m_cold 0))
    (fun _ => Hd t active).
Proof.
  intros Hs. assert (Hq : ~ quiet s) by (destruct Hs as [-> | ->]; auto with page).
  apply t_m_then; [auto with page|]. apply t_drop_then; [done|]. apply t_m_then; [auto with page|].
  apply t_to_active; [auto with page| |apply t_m; auto with page]. intros w. apply rw_agree. by destruct Hs as [-> | ->].
Qed.

Lemma t_range_comp t c : zlen c = page_bytes cfg -> T t (Hd t (comp c)) (restoreRange_fill cfg stale) (fun _ => Fr t any).
Proof.
  intros Hl. unfold restoreRange_fill. apply t_state_is with (X := fun st => st = COMPRESSED); [auto with page|by intros w _ []|].
  intros st ->. states. eapply t_bind with (M := fun b : bool =>
    Hd t (if b then at_ COMPRESSED PNone (fun w => blob_of c w /\ mem_ w = c) else comp c)).
  { eapply t_bind; [apply t_choice; auto with page|]. intros [|].
    - eapply t_bind; [apply t_decode with (c := c); [auto with page|by intros w []|auto with page]|]. intros x. apply t_pure. intros ->.
      eapply t_conseq; [intros w Hw; exact Hw| |by apply t_fill]. intros b w (HI & Hk & -> & Hb). done.
    - apply t_ret; [apply Held_stable; auto with page|done]. }
  intros ok. eapply t_bind with (M := fun _ => Hd t (if ok then at_ COMPRESSED PNone (fun w => blob_of c w /\ mem_ w = c) else comp c)).
  { apply t_choice. destruct ok; auto with page. }
  intros filled. eapply t_bind with (M := fun b : bool => Hd t (if b then rw COMPRESSED else comp c)).
  { destruct ok, filled; cbn [andb].
    - eapply t_conseq; [intros w Hw; exact Hw| |apply t_open]. intros b w (HI & Hk & -> & Hb). done.
    - apply t_ret; [apply Held_stable; auto with page|]. apply Held_mono. intros w _ (? & ? & ? & _). done.
    - apply t_ret; [apply Held_stable; auto with page|done].
    - apply t_ret; [apply Held_stable; auto with page|done]. }
  intros [|]; cbn [negb]; [|apply t_unlock_comp].
  apply t_state_is with (X := fun st => st = COMPRESSED); [auto with page|by intros w _ []|]. intros st ->. states.
  eapply t_bind; [apply t_finalise; auto|]. intros ?. apply t_unlock_active.
Qed.

Lemma t_range_settled t Φ (X : PageState -> Prop) Ψ :
  lstable cfg t Φ -> lstable cfg t Ψ -> (forall w, Icore cfg w -> Φ w -> X (state_ w) /\ agree (mem_ w) (truth_ w) /\ ok_state cfg w) ->
  (forall w, Icore cfg w -> Φ w -> Ψ (set_prot_ PRW w)) -> (forall w, Icore cfg w -> Ψ w -> X (state_ w)) ->
  (forall st, X st -> st <> COMPRESSED) ->
  (forall st, X st -> T t (Hd t Ψ) (if state_eqb st COMPRESSED || state_eqb st COMPRESSED_SHADOW then
      set_m (m_pending false);; releaseBlob;; clear_info;; set_m (m_tier kTierNone);; set_state ACTIVE;; set_m (m_cold 0)
    else if state_eqb st ACTIVE_MONITORING then set_state ACTIVE else Ret tt) (fun _ => Hd t active)) ->
  T t (Hd t Φ) (restoreRange_fill cfg stale) (fun _ => Fr t any).
Proof.
  intros Hs Hs' HΦ HΨ HX Hne Hfin. unfold restoreRange_fill. apply t_state_is with (X := X); [done|intros w HI Hw; by apply HΦ|].
  intros st Hst. destruct (state_eqb st COMPRESSED) eqn:E; [exfalso; apply (Hne st Hst); by apply state_eqb_true|].
  eapply t_bind with (M := fun b : bool => Hd t Φ); [apply t_ret; [by apply Held_stable|done]|]. intros ok.
  eapply t_bind; [by apply t_choice|]. intros filled. eapply t_bind with (M := fun b : bool => Hd t (if b then Ψ else Φ)).
  { destruct (ok && filled); [|apply t_ret; [by apply Held_stable|done]].
    eapply t_conseq; [intros w Hw; exact Hw| |apply (t_protect t PRW Φ Ψ); [done|done|]].
    - intros b w (HI & Hk & -> & Hb). done.
    - intros w HI Hw. split; [right; by apply HΦ|by apply HΨ]. }
  intros [|]; cbn [negb]; [|apply t_unlock_ok; [done|]; intros w HI Hw; by apply HΦ].
  apply t_state_is with (X := X); [done|done|]. intros st' Hst'. eapply t_bind; [by apply Hfin|]. intros ?. apply t_unlock_active.
Qed.

Lemma t_range_other t : T t (Fr t any) (restoreRange_other cfg stale t) (fun _ => Fr t any).
Proof.
  unfold restoreRange_other. apply t_try; [apply t_skip|]. cbn [negb]. eapply t_bind; [apply t_get_state|]. intros sj.
  destruct (state_eqb sj COMPRESSING || state_eqb sj EMPTY) eqn:Ej; [apply t_unlock_seen|].
  eapply t_bind; [apply t_choice; auto with page|]. intros [|]; cbn [negb]; [|apply t_unlock_seen].
  assert (Hact : T t (Hd t active) (restoreRange_fill cfg stale) (fun _ => Fr t any)).
  { apply (t_range_settled t active (fun st => st = ACTIVE \/ st = ACTIVE_MONITORING) active); [auto with page|auto with page| |done|done| |].
    - intros w HI Ha. splits; [done|by apply Icore_agree; [|left]|by apply active_ok].
    - by intros st [-> | ->].
    - intros st [-> | ->]; states; [apply t_ret; [apply Held_stable; auto with page|done]|].
      apply t_finish_active; [auto with page|]. intros w HI Ha. by apply Icore_agree; [|left]. }
  destruct sj; try done.
  - apply t_exists. intros c. apply t_with_len. apply t_range_comp.
  - apply (t_range_settled t (seen COMPRESSED_SHADOW) (fun st => st = COMPRESSED_SHADOW) (rw COMPRESSED_SHADOW));
      [auto with page|auto with page| |by intros w HI []|by intros w HI []|by intros st ->|].
    + intros w HI Hw. splits; [apply Hw|apply Icore_agree; [done|right; apply Hw]|by eapply (seen_ok COMPRESSED_SHADOW)].
    + intros st ->. states. apply t_finalise. auto.
Qed.
End Fault.
