(* ===== verification/PageCompress.v ===== *)
(** * Transparency of compression: the compressor

    The compressor's programs keep the invariant of PageSafe in the default mode:
    compression leaves a shadow, the second phase compares it with the page before
    the page is dropped, and blobs are replaced only by blobs of the same bytes. *)

From S2P Require Import Prelude BitOps Config Double Engine Stats PageState PageProg PageWorld Roi PageOps PageSafe PageFault.
From S2P Require Span.

#[local] Abbreviation Span := Span.Span.

Section Compress.
Context `{CL : CodecLaws}.
Context (cfg : Cfg) (place : gmap Z (list Z) -> Z) (stale : list Z) (elapsed_us : Z).
Context (policy : Z -> bool -> SizeClassStats -> Arms -> Z -> bool * option Choice).
Hypothesis DM : default_run cfg.
(** A store takes an address that holds no blob. *)
Hypothesis place_fresh : forall m, place m <> 0 /\ m !! place m = None.
(** The output bound of the codecs for a page fits the packed size. *)
Hypothesis bound_fits : maxCompressedSizeAny (page_bytes cfg) < 2 ^ 30.
(** The profiles are plain LZ4 or zstd. *)
Hypothesis policy_plain : forall a b c d e f ch, policy a b c d e = (f, Some ch) -> ch_algo ch <> ZSTD_DICT.

Abbreviation T := (triple cfg).
Abbreviation Hd := (Held cfg).
Abbreviation Fr := (Free cfg).
Abbreviation any := (fun _ : PW => True).
Abbreviation comp c := (at_ COMPRESSED PNone (blob_of cfg c)).

(** ** Codec facts *)

(** [b] is a frame of [buf] for the page. *)
Definition codec_ok (b : list Z) (algo : CompressAlgo) (buf : list Z) (w : PW) : Prop :=
  0 < zlen b < 2 ^ 30 /\ zlen buf = page_bytes cfg /\
  forall E', rtc engine_step (dicts_ w) E' ->
    decompressWithDCtx E' b (page_bytes cfg) algo (lookupSizeClass (span_ w)) = Some buf.

(** A dictionary frame is made only with the dictionary there. *)
Definition algo_ok (algo : CompressAlgo) (w : PW) : Prop :=
  algo = ZSTD_DICT -> hasDictionary (dicts_ w) (codec_class (span_ w)) = true.

Lemma dict_class_large sp E : span_ok sp -> dict_of E (codec_class sp) = dict_of E (lookupSizeClass sp).
Proof.
  destruct sp as [s|]; [|done]. intros [Hp Hl]. unfold codec_class, lookupSpanInfo, lookupSizeClass.
  destruct (Span.is_large s) eqn:E1; [|done]. rewrite (Hl eq_refl). unfold dict_of.
  pose proof (largeSizeClass_range _ Hp). rewrite !(proj2 (Z.ltb_ge _ _)) by lia. done.
Qed.

Lemma decompress_class sp E b n algo : span_ok sp ->
  decompressWithDCtx E b n algo (codec_class sp) = decompressWithDCtx E b n algo (lookupSizeClass sp).
Proof. intros Hs. unfold decompressWithDCtx. destruct algo; try done. by rewrite (dict_class_large _ _ Hs). Qed.

Lemma compress_ok w buf algo level b :
  Icore cfg w -> zlen buf = page_bytes cfg -> algo_ok algo w ->
  worker_compress (dicts_ w) buf (maxCompressedSizeAny (page_bytes cfg)) algo (codec_class (span_ w)) level = Some b ->
  codec_ok b algo buf w.
Proof.
  intros HI Hl Ha Hc.
  assert (Hfin : forall E', rtc engine_step (dicts_ w) E' -> 0 < zlen b <= maxCompressedSizeAny (page_bytes cfg) /\
    decompressWithDCtx E' b (page_bytes cfg) algo (codec_class (span_ w)) = Some buf).
  { intros E' HE. destruct algo; cbn in Hc |- *; [done| | |].
    - apply lz4_law in Hc as [? Hd]. split; [lia|apply Hd; lia].
    - apply zstd_law in Hc as [? Hd]. split; [lia|apply Hd; lia].
    - specialize (Ha eq_refl). unfold hasDictionary in Ha. apply andb_prop in Ha as [Hk Hi].
      apply bool_decide_eq_true in Hi as [d Hd]. unfold getCDict, dict_of in *. rewrite Hk, Hd in *.
      rewrite (steps_keep _ _ _ _ HE Hd). apply dict_law in Hc as [? Hx]. split; [lia|apply Hx; lia]. }
  destruct (Hfin _ (rtc_refl _ _)) as [Hb _]. split; [lia|]. split; [done|]. intros E' HE.
  rewrite <- decompress_class by apply HI. by apply Hfin.
Qed.

Lemma hasDictionary_mono E E' sc : rtc engine_step E E' -> hasDictionary E sc = true -> hasDictionary E' sc = true.
Proof.
  intros HE Hd. unfold hasDictionary in *. apply andb_prop in Hd as [Hk Hi]. rewrite Hk. apply bool_decide_eq_true in Hi as [d Hd].
  apply bool_decide_eq_true. exists d. by eapply steps_keep.
Qed.

Lemma codec_kst t s p b algo buf : s <> EMPTY -> kst t s p (codec_ok b algo buf).
Proof.
  intros Hs w w' HK Es _ (H1 & H2 & H3). split; [done|]. split; [done|]. intros E' HE. rewrite <- Es in Hs.
  destruct (k_class _ _ _ HK Hs) as [-> _]. apply H3. etrans; [apply (k_dict _ _ _ HK)|done].
Qed.
Lemma algo_kst t s p algo : s <> EMPTY -> kst t s p (algo_ok algo).
Proof.
  intros Hs w w' HK Es _ Ha E. rewrite <- Es in Hs. destruct (k_class _ _ _ HK Hs) as [_ ->].
  eapply hasDictionary_mono; [apply (k_dict _ _ _ HK)|by apply Ha].
Qed.
Hint Resolve codec_kst algo_kst blob_kst seen_lstable quiet_lstable : page.

(** Recording a frame that is held makes the page's blob decode to its bytes. *)
Lemma info_decodes w a b alloc algo buf :
  codec_ok b algo buf w -> held w !! a = Some b -> decodes cfg (set_info_ (info_set a (zlen b) alloc algo) w) buf.
Proof.
  intros (Hb & Hl & Hd) Hh. destruct (info_unpack a (zlen b) alloc algo) as [E1 E2]; [lia|]. split; [done|].
  split; [right; exists b; exact Hh|]. intros E' HE. unfold decode, decode_as, blob_bytes.
  change (held (set_dicts_ E' (set_info_ _ w))) with (held w). cbn [info_ span_ dicts_ set_dicts_ set_info_ data info_set].
  rewrite E1, E2, Hh. change (default [] (Some b)) with b.
  assert (Et : take (Z.to_nat (zlen b)) b = b) by (unfold zlen; rewrite Nat2Z.id; apply firstn_all). rewrite Et. by apply Hd.
Qed.

Lemma zero_decodes w : decodes cfg (set_info_ (info_set 0 0 0 NONE) w) (replicate (Z.to_nat (page_bytes cfg)) 0).
Proof.
  pose proof (dm_size _ DM). split; [apply zlen_replicate; lia|]. split; [by left|]. intros E' HE. unfold decode, decode_as. cbn. done.
Qed.

(** ** The snapshot *)

Lemma zero_range_len buf from to : 0 <= from <= to -> to <= zlen buf -> zlen (zero_range buf from to) = zlen buf.
Proof. intros. unfold zero_range, zlen in *. rewrite !length_app, length_take, length_replicate, length_drop. lia. Qed.

Lemma zero_slots_len n s psz off slot buf : zlen buf = psz -> zlen (zero_slots n s psz off slot buf) = psz.
Proof.
  revert slot buf. induction n as [|n IH]; intros slot buf Hl; [done|]. cbn [zero_slots]. case_if; [done|]. case_if; [done|]. apply IH.
  case_if; [|done]. match goal with |- zlen (if ?b then _ else _) = _ => destruct b eqn:Eb end; [done|]. apply Z.leb_gt in Eb.
  rewrite zero_range_len; [done| |].
  - split; [case_if; lia|]. lia.
  - rewrite Hl. repeat case_if; lia.
Qed.

Lemma zeroFreeSlots_len sp buf : zlen buf = page_bytes cfg -> zlen (zeroFreeSlots cfg sp buf) = page_bytes cfg.
Proof.
  intros Hl. unfold zeroFreeSlots. destruct (page_addr cfg), sp; try done. case_if; [done|]. by apply zero_slots_len.
Qed.

Lemma t_load t Φ off : lstable cfg t Φ -> T t (Hd t Φ) (load off) (fun _ => Hd t Φ).
Proof.
  intros Hs. apply t_held; [done| |done]. intros w x w' HI HΦ Hl Hx. case_if_in Hx; [by apply not_elem_of_nil in Hx|].
  apply list_elem_of_singleton in Hx. injection Hx as -> ->. splits; [done|done|intros _; apply env0_same; auto|done].
Qed.

Lemma t_copy_out t Φ k off : lstable cfg t Φ -> T t (Hd t Φ) (copy_out k off) (fun l => Hd t (fun w => length l = k /\ Φ w)).
Proof.
  intros Hs. revert off. induction k as [|k IH]; intros off; cbn [copy_out].
  - apply t_ret; [by apply Held_stable|]. apply Held_mono. done.
  - eapply t_bind; [by apply t_load|]. intros b. eapply t_bind; [apply IH|]. intros l. apply t_pure. intros Hk.
    apply t_ret; [by apply Held_stable|]. apply Held_mono. intros w _ HΦ. split; [cbn; lia|done].
Qed.

Lemma t_copy t Φ : lstable cfg t Φ -> T t (Hd t Φ) (copy_page cfg) (fun l => Hd t (fun w => zlen l = page_bytes cfg /\ Φ w)).
Proof.
  intros Hs. eapply t_conseq; [intros w Hw; exact Hw| |by apply t_copy_out]. intros l. apply Held_mono.
  intros w _ [Hk HΦ]. split; [|done]. pose proof (dm_size _ DM). unfold zlen. lia.
Qed.

Abbreviation snap Φ := (at_ COMPRESSING PRW Φ).

Lemma snap_agree Φ w : Icore cfg w -> snap Φ w -> agree (mem_ w) (truth_ w).
Proof. intros HI (Hs & Hp & _). apply (ic_agree _ _ HI); [by rewrite Hs|left; by rewrite Hp]. Qed.

(** Giving up: back to ACTIVE. *)
Lemma t_abort {A} Φ (a : A) Q : lstable cfg 0 Φ -> (forall w, Icore cfg w -> Φ w -> agree (mem_ w) (truth_ w)) ->
  (forall w, Fr 0 any w -> Q a w) -> T 0 (Hd 0 Φ) (set_state ACTIVE;; unlock;; Ret a) Q.
Proof. intros Hs Ha Hq. apply t_to_active; [done|done|]. apply t_unlock_then. by apply t_done. Qed.

Lemma t_snapshot Φ : (forall p, kst 0 COMPRESSING p Φ) -> (forall w, Φ w -> Φ (set_prot_ PRW w)) ->
  T 0 (Hd 0 (fun w => in_place COMPRESSING w /\ Φ w)) (snapshot_deferred cfg)
    (fun o => match o with None => Fr 0 any | Some buf => Hd 0 (fun w => zlen buf = page_bytes cfg /\ snap Φ w) end).
Proof.
  intros Hk Hpr. assert (Hs : lstable cfg 0 (snap Φ)) by auto with page. unfold snapshot_deferred. eapply t_bind_true.
  { apply (t_protect cfg DM 0 PRW _ (snap Φ)); [|done|].
    - intros w w' HI HI' HK [Hi HΦ]. split; [exact (in_place_lstable cfg 0 COMPRESSING ltac:(auto with page) w w' HI HI' HK Hi)|].
      eapply Hk; [exact HK|apply Hi|reflexivity|done].
    - intros w HI [[E Ha] HΦ]. split; [by right|]. split; [done|]. split; [done|]. by apply Hpr. }
  eapply t_bind; [by apply t_copy|]. intros page_buf. apply t_pure. intros Hl. rewrite (dm_fixav _ DM).
  eapply t_bind with (M := fun _ => Hd 0 (snap Φ)).
  { eapply t_bind; [by apply t_copy|]. intros v. apply t_pure. intros _. apply t_ret; [by apply Held_stable|done]. }
  intros [|]; cbn [negb]; [|apply t_abort; [done|intros w; apply snap_agree|done]].
  eapply t_bind with (M := fun buf => Hd 0 (fun w => zlen buf = page_bytes cfg /\ snap Φ w)).
  - apply t_get; [done|intros; by apply pure_lstable|]. intros w HI HΦ. split; [by apply zeroFreeSlots_len|done].
  - intros buf. apply t_ret; [apply Held_stable; by apply pure_lstable|done].
Qed.

(** ** Statistics under the lock *)

Lemma t_upd_stats t Φ f : lstable cfg t Φ -> T t (Hd t Φ) (upd_stats f) (fun _ => Hd t Φ).
Proof. intros Hs. apply t_silent; [done|]. intros w. by destruct (bucket_of _). Qed.

Lemma t_reward t Φ ch r : lstable cfg t Φ -> T t (Hd t Φ) (reward_tier cfg ch r) (fun _ => Hd t Φ).
Proof.
  intros Hs. unfold reward_tier. case_if; [|apply t_return; auto]. eapply t_bind; [by apply t_upd_stats|]. intros ?.
  case_if; [|apply t_return; auto]. apply t_silent; [done|]. intros w. by destruct (bucket_of _).
Qed.

Lemma t_choose :
  T 0 (Hd 0 (in_place COMPRESSING)) (get (choose_codec cfg policy))
    (fun c => Hd 0 (fun w => in_place COMPRESSING w /\ (forall ch, snd c = Some ch -> algo_ok (ch_algo ch) w))).
Proof.
  apply t_get; [auto with page| |].
  - intros c w w' HI HI' HK [Hi Ha]. split; [exact (in_place_lstable cfg 0 COMPRESSING ltac:(auto with page) w w' HI HI' HK Hi)|].
    intros ch Hc. eapply (algo_kst 0 COMPRESSING (prot_ w)); [done|exact HK|apply Hi|done|by apply Ha].
  - intros w HI Hi. split; [done|]. intros ch. unfold choose_codec. destruct (policy _ _ _ _ _) as [asked [ch'|]] eqn:Ep; [|done].
    cbn [snd]. case_if; intros [= <-]; intros Ez; [by b2p|]. by apply policy_plain in Ep.
Qed.

(** ** Publishing *)

Lemma t_set_info t Φ Ψ i : t = 0 -> lstable cfg t Φ -> lstable cfg t Ψ -> (forall w, Icore cfg w -> Φ w -> Ψ (set_info_ i w)) ->
  T t (Hd t Φ) (upd (set_info_ i)) (fun _ => Hd t Ψ).
Proof.
  intros -> Hs Hs' Hf. apply t_upd; [done|done|]. intros w [H1 H2 H3 H4] HΦ. splits; [done|by constructor|done|]. apply Hf; [by constructor|done].
Qed.

Lemma t_publish_zero ch fast :
  T 0 (Hd 0 (snap any)) (publish cfg elapsed_us ch true 0 0 [] NONE fast)
    (fun _ => Hd 0 (snap (fun w => decodes cfg w (replicate (Z.to_nat (page_bytes cfg)) 0)))).
Proof.
  unfold publish. eapply t_bind with (M := fun _ => Hd 0 (snap any)); [apply t_return; auto with page|]. intros ?.
  eapply t_bind; [apply t_set_info with (Ψ := snap (fun w => decodes cfg w (replicate (Z.to_nat (page_bytes cfg)) 0)));
    [done|auto with page|auto with page|]|].
  - intros w _ (Hs & Hp & _). split; [done|]. split; [done|]. apply zero_decodes.
  - intros ?. apply t_m_then; [auto with page|]. apply t_return; auto with page.
Qed.

Lemma t_publish ch a alloc b algo fast buf :
  T 0 (Hd 0 (snap (fun w => codec_ok b algo buf w /\ held w !! a = Some b))) (publish cfg elapsed_us ch false a alloc b algo fast)
    (fun _ => Hd 0 (snap (fun w => decodes cfg w buf))).
Proof.
  unfold publish. assert (Hk : kst 0 COMPRESSING PRW (fun w => codec_ok b algo buf w /\ held w !! a = Some b)) by auto with page.
  eapply t_bind with (M := fun _ => Hd 0 (snap (fun w => codec_ok b algo buf w /\ held w !! a = Some b))).
  { eapply t_bind; [apply t_upd_stats; auto with page|]. intros ?. apply t_reward. auto with page. }
  intros ?. eapply t_bind; [apply t_set_info with (Ψ := snap (fun w => decodes cfg w buf)); [done|auto with page|auto with page|]|].
  - intros w _ (Hs & Hp & Hc & Hh). split; [done|]. split; [done|]. by apply info_decodes.
  - intros ?. apply t_m_then; [auto with page|]. apply t_upd_stats. auto with page.
Qed.

Lemma t_finish buf c : T 0 (Hd 0 (snap (fun w => decodes cfg w c))) (finish cfg buf) (fun _ => Fr 0 any).
Proof.
  unfold finish. rewrite (dm_deferred _ DM). apply t_m_then; [auto with page|].
  eapply t_bind with (M := fun _ => Hd 0 (seen cfg COMPRESSED_SHADOW)).
  { apply t_set_state; [auto with page|auto with page|by left|]. intros w HI Hsn. split; [right; left; by eapply snap_agree|].
    destruct Hsn as (Hs & Hp & Hd). cbn. split; [done|]. by exists c. }
  intros ?. eapply t_bind; [apply t_unlock_seen|]. intros ?. eapply t_bind; [apply t_notify|]. intros ?. by apply t_done.
Qed.

Lemma t_undo Φ buf : lstable cfg 0 Φ -> T 0 (Hd 0 Φ) (undo_snapshot cfg buf) (fun _ => Hd 0 Φ).
Proof. intros Hs. unfold undo_snapshot. rewrite (dm_deferred _ DM). apply t_return; auto. Qed.

Lemma t_reject ch blob fast buf Φ : lstable cfg 0 (snap Φ) ->
  T 0 (Hd 0 (snap Φ)) (reject cfg elapsed_us ch blob fast buf) (fun _ => Fr 0 any).
Proof.
  intros Hs. unfold reject. eapply t_bind; [by apply t_upd_stats|]. intros ?. eapply t_bind; [by apply t_reward|]. intros ?.
  eapply t_bind; [by apply t_undo|]. intros ?. apply t_m_then; [done|]. apply t_m_then; [done|].
  apply t_abort; [done|intros w; apply snap_agree|done].
Qed.

Lemma t_store Φ Ψ b : lstable cfg 0 Φ -> lstable cfg 0 (Ψ 0) -> (forall a, lstable cfg 0 (Ψ a)) ->
  (forall w, Icore cfg w -> Φ w -> Ψ 0 w) ->
  (forall w a, Icore cfg w -> Φ w -> a <> 0 -> held w !! a = None -> Ψ a (set_blobs_ (<[a := b]> (blobs_ w)) w)) ->
  T 0 (Hd 0 Φ) (store_blob cfg place b) (fun s => Hd 0 (Ψ (fst s))).
Proof.
  intros Hs _ Hs' H0 Ha. apply t_held; [done| |done]. intros w x w' HI HΦ Hl Hx.
  destruct (place_fresh (held w)) as [Hz Hn]. apply elem_of_cons in Hx as [Hx|Hx].
  - injection Hx as -> ->. splits; [done|by destruct HI|done|by apply Ha].
  - case_if_in Hx; [|by apply not_elem_of_nil in Hx]. apply list_elem_of_singleton in Hx. injection Hx as -> ->.
    splits; [done|done|done|by apply H0].
Qed.

Lemma held_insert w a b : held w !! a = None -> held (set_blobs_ (<[a := b]> (blobs_ w)) w) = <[a := b]> (held w).
Proof. intros Hn. unfold held. cbn [blobs_ spilled_ set_blobs_]. by rewrite insert_union_l. Qed.

Lemma t_compress_buffer ch buf : zlen buf = page_bytes cfg ->
  T 0 (Hd 0 (snap (algo_ok (ch_algo ch)))) (compress_buffer cfg place elapsed_us ch buf) (fun _ => Fr 0 any).
Proof.
  intros Hl. unfold compress_buffer. case_if.
  - eapply t_bind; [|intros ?; eapply t_finish]. eapply t_conseq; [| |apply t_publish_zero]; [|intros ? w Hw; exact Hw].
    intros w. apply Held_mono. by intros w' _ (? & ? & _).
  - eapply t_bind with (M := fun r => Hd 0 (snap (fun w => forall b, fst (fst r) = Some b -> codec_ok b (snd (fst r)) buf w))).
    { apply t_get; [auto with page| |].
      - intros r. apply at_lstable; [auto with page|]. intros w w' HK Es Ep Hc b Hb. eapply codec_kst; [|exact HK|exact Es|exact Ep|by apply Hc]. done.
      - intros w HI (Es & Ep & Ha). split; [done|]. split; [done|]. unfold run_codec. cbv zeta. case_if; cbn [fst snd]; intros b Hb;
          (eapply compress_ok; [done|done| |exact Hb]); [by intros ?|done]. }
    intros [[blob algo] fast]. cbn [fst snd].
    assert (Hls : lstable cfg 0 (snap (fun w => forall b, blob = Some b -> codec_ok b algo buf w))).
    { apply at_lstable; [auto with page|]. intros w w' HK Es Ep Hc b Hb. eapply codec_kst; [|exact HK|exact Es|exact Ep|by apply Hc]. done. }
    destruct blob as [b|]; [|by apply t_reject]. case_if; [by apply t_reject|].
    eapply t_bind with (M := fun s => Hd 0 (snap (fun w => codec_ok b algo buf w /\ (fst s = 0 \/ held w !! fst s = Some b)))).
    { apply (t_store _ (fun a => snap (fun w => codec_ok b algo buf w /\ (a = 0 \/ held w !! a = Some b)))); [done| | | |].
      1,2: intros; apply at_lstable; [auto with page|]; apply kst_and; [auto with page|]; intros w w' HK _ _ [?|Hh]; [by left|right]; by rewrite (k_blobs _ _ _ HK).
      - intros w HI (Es & Ep & Hc). split; [done|]. split; [done|]. split; [by apply Hc|by left].
      - intros w a HI (Es & Ep & Hc) Hz Hn. split; [done|]. split; [done|]. split; [exact (Hc b eq_refl)|right].
        rewrite held_insert by done. apply lookup_insert_eq. }
    intros [a alloc]. cbn [fst].
    assert (Hls' : lstable cfg 0 (snap (fun w => codec_ok b algo buf w /\ (a = 0 \/ held w !! a = Some b)))).
    { apply at_lstable; [auto with page|]; apply kst_and; [auto with page|]. intros w w' HK _ _ [?|Hh]; [by left|right]. by rewrite (k_blobs _ _ _ HK). }
    case_if.
    + eapply t_bind; [by apply t_undo|]. intros ?. apply t_abort; [done|intros w; apply snap_agree|done].
    + eapply t_bind; [|intros ?; eapply t_finish]. eapply t_conseq; [| |apply t_publish]; [|intros ? w Hw; exact Hw].
      intros w. apply Held_mono. intros w' _ (Es & Ep & Hc & [?|Hh]); [done|]. done.
Qed.

Lemma t_compressPage : T 0 (Fr 0 any) (compressPage cfg place elapsed_us policy 0) (fun _ => Fr 0 any).
Proof.
  unfold compressPage. rewrite (dm_deferred _ DM). apply t_try; [by apply t_done|]. cbn [negb].
  eapply t_bind; [apply t_get_state|]. intros st.
  destruct (state_eqb st ACTIVE || state_eqb st ACTIVE_MONITORING) eqn:Est; cbn [negb].
  2:{ eapply t_bind; [apply t_unlock_seen|]. intros ?. by apply t_done. }
  assert (Hact : forall w, seen cfg st w -> active w) by (destruct st; done).
  eapply t_bind with (M := fun _ => Hd 0 (in_place COMPRESSING)).
  { apply t_set_state; [auto with page|auto with page|by left|]. intros w HI Hs. apply Hact in Hs.
    assert (agree (mem_ w) (truth_ w)) by (by apply (Icore_agree cfg); [|left]). split; [by right; left|done]. }
  intros ?. eapply t_bind; [apply t_choose|]. intros [asked c]. cbn [fst snd].
  assert (Hls : lstable cfg 0 (fun w => in_place COMPRESSING w /\ (forall ch, c = Some ch -> algo_ok (ch_algo ch) w))).
  { intros w w' HI HI' HK [Hi Ha]. split; [exact (in_place_lstable cfg 0 COMPRESSING ltac:(auto with page) w w' HI HI' HK Hi)|].
    intros ch Hc. eapply (algo_kst 0 COMPRESSING (prot_ w)); [done|exact HK|apply Hi|done|by apply Ha]. }
  eapply t_bind with (M := fun _ => Hd 0 (fun w => in_place COMPRESSING w /\ (forall ch, c = Some ch -> algo_ok (ch_algo ch) w))).
  { destruct asked; [by apply t_silent|apply t_return; auto]. }
  intros ?. destruct c as [ch|]; [|apply t_abort; [done|by intros w _ [[_ Ha] _]|done]].
  destruct (dm_addr _ DM) as [pa ->].
  eapply t_bind; [eapply t_conseq; [| |apply (t_snapshot (algo_ok (ch_algo ch))); [auto with page|done]]; [|done]|].
  { intros w. apply Held_mono. intros w' _ [Hi Ha]. split; [done|by apply Ha]. }
  intros [buf|]; [|by apply t_done]. apply t_pure. intros Hl. by apply t_compress_buffer.
Qed.

(** ** The second phase *)

Abbreviation shadow p Φ := (at_ COMPRESSED_SHADOW p Φ).

(** Comparing the read-only page with [c]: it holds still. *)
Lemma t_compare t p Φ c pre src : p <> PRW -> kst t COMPRESSED_SHADOW p Φ -> c = pre ++ src -> zlen c = page_bytes cfg ->
  T t (Hd t (shadow p (fun w => Φ w /\ take (length pre) (mem_ w) = pre))) (compare src (zlen pre))
    (fun b => Hd t (shadow p (fun w => Φ w /\ (b = true -> mem_ w = c)))).
Proof.
  intros Hp Hk.
  assert (Hls : forall X : list Z -> Prop, lstable cfg t (shadow p (fun w => Φ w /\ X (mem_ w)))).
  { intros X. apply at_lstable; [auto with page|]. apply kst_and; [done|]. intros w w' HK Es Ep HX.
    destruct (k_mem _ _ _ HK) as [-> _]; [rewrite Es; auto with page|by rewrite Ep|done]. }
  revert pre. induction src as [|b src IH]; intros pre Hc Hn; cbn [compare].
  - apply t_ret; [apply Held_stable; apply (Hls (fun m => take (length pre) m = pre))|].
    apply Held_mono. intros w HI (Es & Ep & HΦ & Ht). split; [done|]. split; [done|]. split; [done|]. intros _.
    rewrite app_nil_r in Hc. subst pre. transitivity (take (length c) (mem_ w)); [symmetry; apply take_ge|done]. pose proof (ic_len _ _ HI). unfold zlen in *. lia.
  - eapply t_bind with (M := fun x => Hd t (shadow p (fun w => Φ w /\ (take (length pre) (mem_ w) = pre /\ zget 0 (mem_ w) (zlen pre) = x)))).
    { apply t_held; [apply (Hls (fun m => take (length pre) m = pre))| |].
      - intros w x w' HI (Es & Ep & HΦ & Hj) Hl Hx. case_if_in Hx; [by apply not_elem_of_nil in Hx|].
        apply list_elem_of_singleton in Hx. injection Hx as -> ->. splits; [done|done|intros _; apply env0_same; auto|done].
      - intros x. apply (Hls (fun m => take (length pre) m = pre /\ zget 0 m (zlen pre) = x)). }
    intros x. destruct (Z.eqb_spec x b) as [->|Hne].
    + replace (zlen pre + 1) with (zlen (pre ++ [b])) by (by rewrite zlen_app).
      eapply t_conseq; [|intros ? w Hw; exact Hw|apply (IH (pre ++ [b])); [by rewrite <- app_assoc|done]].
      intros w. apply Held_mono. intros w' HI (Es & Ep & HΦ & Ht & Hx). split; [done|]. split; [done|]. split; [done|].
      rewrite length_app. cbn [length]. replace (length pre + 1)%nat with (S (length pre)) by lia.
      assert (Hlt : (length pre < length (mem_ w'))%nat).
      { pose proof (ic_len _ _ HI). assert (length c = length pre + S (length src))%nat by (subst c; rewrite length_app; done). unfold zlen in *. lia. }
      apply lookup_lt_is_Some in Hlt as [y Hy]. rewrite (take_S_r _ _ y) by done. rewrite Ht. f_equal. f_equal.
      unfold zget, zlen in Hx. rewrite (proj2 (Z.leb_le _ _)), Nat2Z.id, Hy in Hx by lia. done.
    + apply t_ret; [apply Held_stable; apply (Hls (fun m => take (length pre) m = pre /\ zget 0 m (zlen pre) = x))|].
      apply Held_mono. intros w _ (Es & Ep & HΦ & _). done.
Qed.

Lemma t_decommit t Φ : lstable cfg t Φ -> (forall w, Φ w -> prot_ w = PNone /\ ~ settled (state_ w)) ->
  (forall w m, Φ w -> Φ (set_mem_ m w)) -> T t (Hd t Φ) (decommitPages cfg) (fun _ => Hd t Φ).
Proof.
  intros Hs Hp Hm. apply t_held; [done| |done]. intros w x w' HI HΦ Hl Hx. pose proof (dm_size _ DM).
  apply elem_of_cons in Hx as [Hx|Hx]; [|apply list_elem_of_singleton in Hx]; injection Hx as -> ->.
  - splits; [done| |intros _; apply env0_same; auto|by apply Hm].
    apply Icore_mem; [done|apply zlen_replicate; lia|left; by apply Hp].
  - splits; [done|done|intros _; apply env0_same; auto|done].
Qed.

(** The blob of a shadow page was given up, or could not be checked. *)
Lemma t_keep_page t Φ p : kst t COMPRESSED_SHADOW p Φ -> (forall w, Φ w -> exists c, decodes cfg w c) ->
  (forall w, Φ w -> Φ (set_prot_ PRW w)) -> kst t COMPRESSED_SHADOW PRW Φ ->
  T t (Hd t (shadow p Φ)) (protectPages cfg PRW;; unlock) (fun _ => Fr t any).
Proof.
  intros Hk Hd Hp Hk'. eapply t_bind_true; [apply (t_protect cfg DM t PRW _ (shadow PRW Φ)); [auto with page|auto with page|]|].
  - intros w HI (Es & Ep & HΦ). split; [right; apply (Icore_agree cfg); auto|]. split; [done|]. split; [done|by apply Hp].
  - apply t_unlock_ok; [auto with page|]. intros w HI (Es & Ep & HΦ). unfold ok_state. rewrite Es. split; [|by apply Hd].
    apply (Icore_agree cfg); auto.
Qed.

Lemma t_reclaim t budget : T t (Fr t any) (reclaimShadow cfg stale t budget) (fun _ => Fr t any).
Proof.
  unfold reclaimShadow. destruct budget; cbn [negb]; [|apply t_skip].
  eapply t_bind; [apply t_get_free; by intros w w' _ _|]. intros [|]; cbn [negb]; [|apply t_skip].
  apply t_try; [apply t_skip|]. cbn [negb]. eapply t_bind; [apply t_get_state|]. intros st.
  destruct (state_eqb st COMPRESSED_SHADOW) eqn:Est; cbn [negb]; [|apply t_unlock_seen].
  apply state_eqb_true in Est. subst st. destruct (dm_addr _ DM) as [pa ->].
  intros w (HI & Hl & Es & c & Hd). revert w HI Hl Es Hd.
  enough (HT : forall w, Hd t (fun w => state_ w = COMPRESSED_SHADOW /\ decodes cfg w c) w ->
    wp (R cfg) t (protectPages cfg PRead;; reclaim_checked cfg stale) (fun _ => Fr t any) w) by (intros; by apply HT).
  eapply t_bind_true.
  { apply (t_protect cfg DM t PRead _ (shadow PRead (fun w => decodes cfg w c))); [apply shadow_lstable; auto with page|auto with page|].
    intros w HI [Es Hd]. split; [right; apply (Icore_agree cfg); auto|done]. }
  unfold reclaim_checked. apply t_state_is with (X := fun st => st = COMPRESSED_SHADOW); [auto with page|by intros w _ []|]. intros st ->. states.
  eapply t_bind; [apply t_take_slot; auto with page|]. intros [|]; cbn [negb]; [|apply t_keep_page; [auto with page|eauto|done|auto with page]].
  eapply t_bind; [apply t_decode with (c := c); [auto with page|done|auto with page]|]. intros x. apply t_pure. intros ->.
  intros w Hw. assert (Hlen : zlen c = page_bytes cfg) by (destruct Hw as (_ & _ & _ & _ & Hz & _); done). revert w Hw.
  eapply t_bind.
  { eapply t_conseq; [|intros ? w Hw; exact Hw|apply (t_compare t PRead (fun w => decodes cfg w c) c [] c); [done|auto with page|done|done]].
    intros w. apply Held_mono. by intros w' _ (Es & Ep & Hd). }
  intros same.
  assert (Hls : lstable cfg t (shadow PRead (fun w => decodes cfg w c /\ (same = true -> mem_ w = c)))).
  { apply at_lstable; [auto with page|]. apply kst_and; [auto with page|]. intros w w' HK Es Ep HX.
    destruct (k_mem _ _ _ HK) as [-> _]; [rewrite Es; auto with page|by rewrite Ep|done]. }
  eapply t_bind; [by apply t_give_slot|]. intros ?. destruct same; cbn [negb].
  - rewrite (dm_fixav _ DM).
    eapply t_bind_true.
    { apply (t_protect cfg DM t PNone _ (shadow PNone (blob_of cfg c))); [done|auto with page|].
      intros w HI (Es & Ep & Hd & Hm). split; [by left|]. split; [done|]. split; [done|]. split; [exact Hd|]. cbn [truth_ set_prot_].
      rewrite <- (Hm eq_refl). apply (Icore_agree cfg); auto. }
    apply t_m_then; [auto with page|]. eapply t_bind with (M := fun _ => Hd t (comp c)).
    { apply t_set_state; [auto with page|auto with page|right; right; split; [by left|]; intros w [Es _]; right; exact Es|]. intros w HI (Es & Ep & Hb). split; [|done].
      right; right. split; [done|]. intros [?|[?|?]]; done. }
    intros ?. eapply t_bind; [apply t_decommit; [auto with page| |done]|intros ?; apply t_unlock_comp].
    intros w (Es & Ep & _). rewrite Es. split; [done|]. intros [?|[?|?]]; done.
  - eapply t_conseq; [|intros ? w Hw; exact Hw|].
    { intros w. apply (Held_mono cfg t _ (at_ COMPRESSED_SHADOW PRead any)). by intros w' _ (? & ? & _). }
    intros w Hw. refine (t_bind cfg t _ _ _ (fun _ => _) _ (t_drop_blob cfg t COMPRESSED_SHADOW PRead ltac:(auto with page)) (fun _ => _) w Hw).
    do 4 (apply t_m_then; [auto with page|]).
    eapply t_bind with (M := fun _ => Hd t (at_ COMPRESSED_SHADOW PRW any)).
    { eapply t_conseq; [intros v Hv; exact Hv| |apply (t_protect cfg DM t PRW _ (at_ COMPRESSED_SHADOW PRW any)); [auto with page|auto with page|]].
      - intros x v (HI & Hl & _ & Ha). by split.
      - intros v HI (Es & Ep & _). split; [right; apply (Icore_agree cfg); auto|done]. }
    intros ?. apply t_to_active; [auto with page|intros v; by apply rw_agree|]. apply t_unlock_active.
Qed.
End Compress.
