(* ===== verification/PageTiers.v ===== *)
(** * Transparency of compression: tiers, sweeps and scans

    The compressor's other programs keep the invariant of PageSafe in the default
    mode: recompression and spilling replace a blob by one of the same bytes, and
    the three phases of a tick compose the programs of PageCompress. *)

From S2P Require Import Prelude BitOps Config Double Engine Stats PageState PageProg PageWorld Roi PageOps PageSafe PageFault PageCompress.
From S2P Require Span.

#[local] Abbreviation Span := Span.Span.

Section Tiers.
Context `{CL : CodecLaws}.
Context (cfg : Cfg) (place : gmap Z (list Z) -> Z) (stale : list Z) (elapsed_us : Z).
Context (policy : Z -> bool -> SizeClassStats -> Arms -> Z -> bool * option Choice).
Hypothesis DM : default_run cfg.
Hypothesis place_fresh : forall m, place m <> 0 /\ m !! place m = None.
Hypothesis bound_fits : maxCompressedSizeAny (page_bytes cfg) < 2 ^ 30.
Hypothesis policy_plain : forall a b c d e f ch, policy a b c d e = (f, Some ch) -> ch_algo ch <> ZSTD_DICT.

Abbreviation T := (triple cfg).
Abbreviation Hd := (Held cfg).
Abbreviation Fr := (Free cfg).
Abbreviation any := (fun _ : PW => True).
Abbreviation comp c := (at_ COMPRESSED PNone (blob_of cfg c)).
Hint Resolve codec_kst algo_kst blob_kst seen_lstable quiet_lstable : page.

(** ** Replacing a blob *)

Lemma decodes_held w w' c :
  info_ w' = info_ w -> held w' !! data (info_ w) = held w !! data (info_ w) -> span_ w' = span_ w -> dicts_ w' = dicts_ w ->
  decodes cfg w c -> decodes cfg w' c.
Proof.
  intros E1 E2 E3 E4 (Hl & Hz & Hd). split; [done|]. split; [by rewrite E1, E2|]. intros E' HE. rewrite E4 in HE.
  rewrite <- (Hd E' HE). unfold decode, decode_as, blob_bytes. change (held (set_dicts_ E' ?x)) with (held x).
  cbn [info_ span_ dicts_ set_dicts_]. by rewrite E1, E2, E3.
Qed.

(** A new blob [b] at [a], beside the page's own. *)
Definition beside (s : PageState) (c : list Z) (old : CompressedPageInfo) (X : PW -> Prop) (b : list Z) (a : Z) : PW -> Prop :=
  at_ s PNone (fun w => (blob_of cfg c w /\ info_ w = old /\ X w) /\ (a = 0 \/ a <> data old /\ held w !! a = Some b)).

Lemma beside_kst s c old X b a : ~ quiet s -> kst 0 s PNone X ->
  kst 0 s PNone (fun w => (blob_of cfg c w /\ info_ w = old /\ X w) /\ (a = 0 \/ a <> data old /\ held w !! a = Some b)).
Proof.
  intros Hq HX. apply kst_and; [auto with page|]. intros w w' HK _ _ [?|[? Hh]]; [by left|right].
  split; [done|]. by rewrite (k_blobs _ _ _ HK).
Qed.

Lemma beside_lstable s c old X b a : ~ quiet s -> kst 0 s PNone X -> lstable cfg 0 (beside s c old X b a).
Proof. intros Hq HX. apply at_lstable; [done|]. by apply beside_kst. Qed.

Lemma held_fresh w a b : held w !! a = None ->
  held (set_blobs_ (<[a := b]> (blobs_ w)) w) = <[a := b]> (held w) /\ held (set_spilled_ (<[a := b]> (spilled_ w)) w) = <[a := b]> (held w).
Proof.
  intros Hn. split; [by apply held_insert|]. unfold held in *. cbn [blobs_ spilled_ set_spilled_].
  apply lookup_union_None in Hn as [Hn _]. by rewrite insert_union_r.
Qed.

Lemma beside_insert s c old (X : PW -> Prop) b a w w' :
  held w !! a = None -> a <> 0 -> held w' = <[a := b]> (held w) -> info_ w' = info_ w -> state_ w' = state_ w -> prot_ w' = prot_ w ->
  span_ w' = span_ w -> dicts_ w' = dicts_ w -> truth_ w' = truth_ w -> (X w -> X w') -> data old <> 0 ->
  at_ s PNone (fun w => blob_of cfg c w /\ info_ w = old /\ X w) w -> beside s c old X b a w'.
Proof.
  intros Hn Ha Eh Ei Es Ep Esp Ed Et HX Hz (Hs & Hp & [Hd Hg] & <- & Hx).
  assert (Hne : a <> data (info_ w)).
  { destruct Hd as (_ & [?|[y Hy]] & _); [done|]. intros ->. congruence. }
  split; [congruence|]. split; [congruence|]. split.
  - split; [|split; [done|by apply HX]]. split; [|by rewrite Et].
    eapply decodes_held; [done| |done|done|exact Hd]. rewrite Eh. by apply lookup_insert_ne.
  - right. split; [done|]. rewrite Eh. apply lookup_insert_eq.
Qed.

Definition keeps_blobs (X : PW -> Prop) : Prop :=
  forall w m, X w -> X (set_blobs_ m w) /\ X (set_spilled_ m w).

Lemma t_beside_store s c old X b : ~ quiet s -> kst 0 s PNone X -> keeps_blobs X -> data old <> 0 ->
  T 0 (Hd 0 (at_ s PNone (fun w => blob_of cfg c w /\ info_ w = old /\ X w))) (store_blob cfg place b)
    (fun r => Hd 0 (beside s c old X b (fst r))).
Proof.
  intros Hq HX Hb Hz. apply t_held; [auto with page| |intros r; by apply beside_lstable].
  intros w x w' HI HΦ Hl Hx. destruct (place_fresh (held w)) as [Ha Hn]. apply elem_of_cons in Hx as [Hx|Hx].
  - injection Hx as -> ->. splits; [done|by destruct HI|done|]. cbn [fst].
    eapply beside_insert; [exact Hn|done|by apply held_fresh|done..| |done|exact HΦ]. intros Hx. by apply Hb.
  - case_if_in Hx; [|by apply not_elem_of_nil in Hx]. apply list_elem_of_singleton in Hx. injection Hx as -> ->.
    destruct HΦ as (? & ? & ?). splits; [done|done|done|]. split; [done|]. split; [done|]. split; [done|by left].
Qed.

Lemma t_beside_spill s c old X b : ~ quiet s -> kst 0 s PNone X -> keeps_blobs X -> data old <> 0 ->
  T 0 (Hd 0 (at_ s PNone (fun w => blob_of cfg c w /\ info_ w = old /\ X w))) (spill_blob cfg place b)
    (fun r => Hd 0 (beside s c old X b (fst r))).
Proof.
  intros Hq HX Hb Hz. apply t_held; [auto with page| |intros r; by apply beside_lstable].
  intros w x w' HI HΦ Hl Hx. destruct (place_fresh (held w)) as [Ha Hn]. apply elem_of_cons in Hx as [Hx|Hx].
  - injection Hx as -> ->. splits; [done|by destruct HI|done|]. cbn [fst].
    eapply beside_insert; [exact Hn|done|by apply held_fresh|done..| |done|exact HΦ]. intros Hx. by apply Hb.
  - case_if_in Hx; [|by apply not_elem_of_nil in Hx]. apply list_elem_of_singleton in Hx. injection Hx as -> ->.
    destruct HΦ as (? & ? & ?). splits; [done|done|done|]. split; [done|]. split; [done|]. split; [done|by left].
Qed.

(** The blob of an earlier record is released after the lock: the page's record
    has moved on, or was cleared. *)
Definition moved (new : CompressedPageInfo) (w : PW) : Prop := info_ w = new \/ info_ w = no_info.
Lemma moved_fstable new : fstable 0 (moved new).
Proof. intros w w' He [Hi|Hi]; destruct (e_info _ _ (He eq_refl)) as [E|E]; unfold moved; rewrite E; auto. Qed.

Lemma t_release_old new a : data new <> a -> a <> 0 ->
  T 0 (Fr 0 (moved new)) (release_blob_at a) (fun _ => Fr 0 any).
Proof.
  intros Hn Hz. apply t_free; [apply moved_fstable| |by intros x w w' _ _].
  intros w x w' [HI Hok] Hl Hm Hx. apply list_elem_of_singleton in Hx. injection Hx as -> ->.
  assert (Hd : a <> data (info_ w)) by (destruct Hm as [-> | ->]; [congruence|done]).
  set (w' := set_blobs_ (delete a (blobs_ w)) w).
  assert (Eh : held w' !! data (info_ w) = held w !! data (info_ w)).
  { unfold held. cbn [blobs_ spilled_ set_blobs_ w']. rewrite !lookup_union. by rewrite lookup_delete_ne. }
  assert (Hdec : forall c, decodes cfg w c -> decodes cfg w' c) by (intros c; by apply decodes_held).
  splits; [done| | |done|done].
  - split; [by destruct HI|]. intros Hn'. specialize (Hok Hn'). unfold ok_state in *. cbn [state_ w' set_blobs_ prot_ mem_ truth_].
    destruct (state_ w); try done; [destruct Hok as (? & c & ? & ?)|destruct Hok as (? & c & ?)]; eauto.
  - intros t' Ht'. constructor; try done; [by left|]. intros _ _. split; [done|by intros ? ?].
Qed.

(** ** Recompressing *)

(** Known without the lock: if the page has a blob, the target's dictionary is there. *)
Definition target_ok (target : CompressAlgo) (w : PW) : Prop := stored (state_ w) -> algo_ok target w.
Lemma target_fstable target : fstable 0 (target_ok target).
Proof.
  intros w w' He Ht Es E. destruct (e_comp _ _ (He eq_refl) Es) as (Es0 & _ & Ec & Hs). rewrite Ec.
  eapply hasDictionary_mono; [done|]. by apply Ht.
Qed.

Lemma t_lock_target target : T 0 (Fr 0 (target_ok target)) (lock 0) (fun _ => Hd 0 (fun w => ok_state cfg w /\ target_ok target w)).
Proof.
  apply t_lock; [apply target_fstable| |done]. intros w w' HI HI' HK [Hok Ht].
  split; [exact (ok_lstable cfg 0 w w' HI HI' HK Hok)|]. intros Es. destruct (k_state _ _ _ HK) as [E|[[_ E]|[_ E]]]; rewrite E in Es; [|by destruct Es|by destruct Es].
  eapply (algo_kst 0 (state_ w) (prot_ w)); [by destruct Es as [-> | ->]|exact HK|done|done|by apply Ht].
Qed.

Lemma t_seen_target target :
  T 0 (Hd 0 (fun w => ok_state cfg w /\ target_ok target w)) get_state
    (fun st => Hd 0 (fun w => seen cfg st w /\ (st = COMPRESSED -> algo_ok target w))).
Proof.
  apply t_get.
  - intros w w' HI HI' HK [Hok Ht]. split; [exact (ok_lstable cfg 0 w w' HI HI' HK Hok)|]. intros Es.
    destruct (k_state _ _ _ HK) as [E|[[_ E]|[_ E]]]; rewrite E in Es; [|by destruct Es|by destruct Es].
    eapply (algo_kst 0 (state_ w) (prot_ w)); [by destruct Es as [-> | ->]|exact HK|done|done|by apply Ht].
  - intros st w w' HI HI' HK [Hs Ha]. split; [exact (seen_lstable cfg 0 st w w' HI HI' HK Hs)|]. intros ->.
    destruct Hs as (c & Es & Ep & _). eapply (algo_kst 0 COMPRESSED PNone); [done|exact HK|done|done|by apply Ha].
  - intros w HI [Hok Ht]. split; [|intros E; apply Ht; by left]. unfold ok_state in Hok. unfold seen, active.
    destruct (state_ w) eqn:Es; auto.
    + unfold ok_state. by rewrite Es.
    + destruct Hok as (Hp & c & Hd & Ha). by exists c.
    + destruct Hok as (Ha & c & Hd). eauto.
Qed.

Abbreviation work c old X := (at_ COMPRESSING PNone (fun w => blob_of cfg c w /\ info_ w = old /\ X w)).

(** Back to COMPRESSED with the blob it has. *)
Lemma t_recompressed {A} Φ c (q : prog PW A) Q : lstable cfg 0 (at_ COMPRESSING PNone Φ) -> (forall w, Φ w -> blob_of cfg c w) ->
  T 0 (Hd 0 (comp c)) q Q -> T 0 (Hd 0 (at_ COMPRESSING PNone Φ)) (set_state COMPRESSED;; q) Q.
Proof.
  intros Hs Hb Hq. eapply t_bind with (M := fun _ => Hd 0 (comp c)); [|intros ?; exact Hq].
  apply t_set_state; [done|auto with page|by left|]. intros w HI (Es & Ep & HΦ). split; [|split; [done|split; [done|exact (Hb w HΦ)]]].
  right; right. split; [done|]. intros [?|[?|?]]; done.
Qed.

Lemma t_unlock_ret {A} c (a : A) : T 0 (Hd 0 (comp c)) (unlock;; Ret a) (fun _ => Fr 0 any).
Proof. eapply t_bind; [apply t_unlock_comp|]. intros ?. by apply t_done. Qed.

Lemma t_stats_free f : T 0 (Fr 0 any) (upd_stats f) (fun _ => Fr 0 any).
Proof. apply t_upd_free. intros w. by destruct (bucket_of _). Qed.

Lemma t_rejected Φ c : lstable cfg 0 (at_ COMPRESSING PNone Φ) -> (forall w, Φ w -> blob_of cfg c w) ->
  T 0 (Hd 0 (at_ COMPRESSING PNone Φ)) (recompress_rejected elapsed_us) (fun _ => Fr 0 any).
Proof.
  intros Hs Hb. unfold recompress_rejected. apply (t_recompressed _ c); [done|done|]. apply t_m_then; [auto with page|].
  eapply t_bind; [apply t_unlock_comp|]. intros ?. eapply t_bind; [apply t_stats_free|]. intros ?. by apply t_done.
Qed.

(** The worker decompresses the page's blob with the class it compresses for. *)
Lemma t_decode_worker c old X : kst 0 COMPRESSING PNone X ->
  T 0 (Hd 0 (work c old X)) (get (fun w => decode_as cfg w (codec_class (span_ w)))) (fun d => Hd 0 (fun w => d = Some c /\ work c old X w)).
Proof.
  intros HX. apply t_get; [auto 6 with page|auto 6 with page|]. intros w HI Hw. split; [|done]. destruct Hw as (_ & _ & [(_ & _ & Hdec) _] & _).
  specialize (Hdec _ (rtc_refl _ _)). unfold decode_as. rewrite decompress_class by apply HI. unfold set_dicts_ in Hdec. destruct w. exact Hdec.
Qed.

Lemma t_encode c old target level : zlen c = page_bytes cfg ->
  T 0 (Hd 0 (work c old (algo_ok target)))
    (get (fun w => worker_compress (dicts_ w) c (maxCompressedSizeAny (page_bytes cfg)) target (codec_class (span_ w)) level))
    (fun r => Hd 0 (work c old (fun w => forall b, r = Some b -> codec_ok cfg b target c w))).
Proof.
  intros Hl. apply t_get; [auto 6 with page| |].
  - intros r. apply at_lstable; [auto with page|]. apply kst_and; [auto with page|]. apply kst_and; [auto with page|].
    intros w w' HK Es Ep Hc b Hb. eapply codec_kst; [|exact HK|exact Es|exact Ep|by apply Hc]. done.
  - intros w HI (Es & Ep & Hb & Hi & Ha). split; [done|]. split; [done|]. split; [done|]. split; [done|]. intros b Eb.
    by eapply compress_ok.
Qed.

(** The new blob takes the place of the old one. *)
Lemma t_swap {A} s c old b a i X (q : prog PW A) Q : a <> 0 -> ~ quiet s -> kst 0 s PNone X ->
  (forall w, X w -> held w !! a = Some b -> decodes cfg (set_info_ i w) c) ->
  T 0 (Hd 0 (at_ s PNone (fun w => blob_of cfg c w /\ info_ w = i))) q Q ->
  T 0 (Hd 0 (beside s c old X b a)) (upd (set_info_ i);; q) Q.
Proof.
  intros Ha Hq HX Hd Ht. eapply t_bind; [|intros ?; exact Ht].
  apply t_set_info; [done|by apply beside_lstable|auto with page|].
  intros w HI (Es & Ep & ([_ Hg] & _ & Hx) & [?|[_ Hh]]); [done|]. split; [done|]. split; [done|]. split; [|done].
  split; [by apply Hd|done].
Qed.

Lemma t_unlock_moved s c i : s = COMPRESSED ->
  T 0 (Hd 0 (at_ s PNone (fun w => blob_of cfg c w /\ info_ w = i))) unlock (fun _ => Fr 0 (moved i)).
Proof.
  intros ->. apply t_unlock_keep; [auto with page|apply moved_fstable|]. intros w HI (Es & Ep & Hb & Hi).
  split; [by apply (comp_ok cfg c)|by left].
Qed.

Lemma t_recompress_store spill c old b target : data old <> 0 ->
  T 0 (Hd 0 (work c old (codec_ok cfg b target c))) (recompress_store cfg place elapsed_us spill old b target) (fun _ => Fr 0 any).
Proof.
  intros Hz. unfold recompress_store. assert (HX' : kst 0 COMPRESSING PNone (codec_ok cfg b target c)) by auto with page.
  eapply t_bind with (M := fun s => Hd 0 (beside COMPRESSING c old (codec_ok cfg b target c) b (fst s))).
  { destruct spill; [by apply t_beside_spill; [auto with page| | |]|]. apply t_ret; [apply Held_stable; auto 6 with page|].
    apply Held_mono. intros w _ (? & ? & ?). split; [done|]. split; [done|]. split; [done|by left]. }
  intros s. eapply t_bind with (M := fun s => Hd 0 (beside COMPRESSING c old (codec_ok cfg b target c) b (fst s))).
  { destruct (fst s =? 0) eqn:Efs; cbn [negb].
    - eapply t_conseq; [|intros ? w Hw; exact Hw|by apply t_beside_store; [auto with page| | |]].
      intros w. apply Held_mono. by intros w' _ (? & ? & ? & _).
    - apply t_ret; [apply Held_stable; apply beside_lstable; auto with page|done]. }
  intros [adr alloc]. cbn [fst snd]. case_if.
  { apply (t_recompressed _ c); [apply beside_lstable; auto with page|by intros w [[? _] _]|apply t_unlock_ret]. }
  b2p. intros w Hw. assert (Hne : adr <> data old) by (destruct Hw as (_ & _ & _ & _ & _ & [?|[? _]]); [lia|done]). revert w Hw.
  apply t_swap; [lia|auto with page|auto with page|intros w Hc Hh; by apply info_decodes|]. apply t_m_then; [auto with page|].
  set (new := info_set adr (zlen b) alloc target).
  eapply t_bind with (M := fun _ => Hd 0 (at_ COMPRESSED PNone (fun w => blob_of cfg c w /\ info_ w = new))).
  { apply t_set_state; [auto with page|auto with page|by left|]. intros w HI (Es & Ep & HΦ). split; [|done].
    right; right. split; [done|]. intros [?|[?|?]]; done. }
  intros ?. eapply t_bind; [by apply t_unlock_moved|]. intros ?. eapply t_bind; [by apply t_release_old|]. intros ?.
  eapply t_bind; [apply t_stats_free|]. intros ?. by apply t_done.
Qed.

Lemma t_recompress_locked c spill target level :
  T 0 (Hd 0 (at_ COMPRESSED PNone (fun w => blob_of cfg c w /\ algo_ok target w)))
    (old <- get info_; recompress_locked cfg place elapsed_us spill old target level) (fun _ => Fr 0 any).
Proof.
  eapply t_bind with (M := fun old => Hd 0 (at_ COMPRESSED PNone (fun w => blob_of cfg c w /\ info_ w = old /\ algo_ok target w))).
  { apply t_get; [auto 6 with page|auto 8 with page|]. intros w HI (Es & Ep & Hb & Ha). done. }
  intros old. assert (Hdeep : T 0 (Hd 0 (at_ COMPRESSED PNone (fun w => blob_of cfg c w /\ info_ w = old /\ algo_ok target w)))
    (set_m (m_tier kTierDeep);; unlock;; Ret false) (fun _ => Fr 0 any)).
  { eapply t_conseq; [|intros ? w Hw; exact Hw|apply t_m_then; [|apply (t_unlock_ret c)]; auto with page].
    intros w. apply Held_mono. by intros w' _ (? & ? & ? & _). }
  unfold recompress_locked. case_if; [done|]. match goal with |- context [if ?b then _ else _] => destruct b end; [done|].
  eapply t_bind with (M := fun _ => Hd 0 (work c old (algo_ok target))).
  { apply t_set_state; [auto 6 with page|auto 6 with page|by left|]. intros w HI (Es & Ep & HΦ). split; [|done].
    right; right. split; [done|]. intros [?|[?|?]]; done. }
  intros ?. eapply t_bind; [apply t_wait_slot; auto 6 with page|]. intros ?.
  eapply t_bind; [apply t_decode_worker; auto with page|]. intros d. apply t_pure. intros ->.
  eapply t_bind; [apply t_give_slot; auto 6 with page|]. intros ?.
  case_if; [apply (t_recompressed _ c); [auto 6 with page|by intros w [? _]|apply t_unlock_ret]|]. b2p.
  eapply t_bind; [apply t_encode; lia|]. intros r.
  assert (HX : kst 0 COMPRESSING PNone (fun w => forall b, r = Some b -> codec_ok cfg b target c w)).
  { intros w w' HK Es Ep Hc b Hb. eapply codec_kst; [|exact HK|exact Es|exact Ep|by apply Hc]. done. }
  destruct r as [b|]; [|apply (t_rejected _ c); [auto 6 with page|by intros w [? _]]].
  case_if; [apply (t_rejected _ c); [auto 6 with page|by intros w [? _]]|].
  eapply t_conseq; [|intros ? w Hw; exact Hw|apply t_recompress_store; b2p; lia].
  intros w. apply Held_mono. intros w' _ (? & ? & ? & ? & Hc). split; [done|]. split; [done|]. split; [done|]. split; [done|]. by apply Hc.
Qed.

Lemma t_recompress spill target level :
  T 0 (Fr 0 (target_ok target)) (recompressPage cfg place elapsed_us 0 spill target level) (fun _ => Fr 0 any).
Proof.
  unfold recompressPage. eapply t_bind; [apply t_lock_target|]. intros ?. eapply t_bind; [apply t_seen_target|]. intros st.
  destruct (state_eqb st COMPRESSED) eqn:Est; cbn [negb].
  2:{ eapply t_conseq; [|intros ? w Hw; exact Hw|eapply t_bind; [apply (t_unlock_seen cfg 0 st)|intros ?; by apply t_done]].
      intros w. apply Held_mono. by intros w' _ []. }
  apply state_eqb_true in Est. subst st. eapply t_conseq; [|intros ? w Hw; exact Hw|apply (t_exists cfg 0 (fun c => at_ COMPRESSED PNone (fun w => blob_of cfg c w /\ algo_ok target w)))].
  - intros w. apply Held_mono. intros w' _ [(c & Es & Ep & Hb) Ha]. exists c. split; [done|]. split; [done|]. split; [done|by apply Ha].
  - intros c. apply t_recompress_locked.
Qed.

(** ** Spilling *)

(** [bytes] are the bytes of the blob of [old]. *)
Definition copy_ok (bytes : list Z) (old : CompressedPageInfo) (c : list Z) (w : PW) : Prop :=
  zlen c = page_bytes cfg /\ take (Z.to_nat (compressedSize old)) bytes = bytes /\
  forall E', rtc engine_step (dicts_ w) E' ->
    decompressWithDCtx E' bytes (page_bytes cfg) (algorithm old) (lookupSizeClass (span_ w)) = Some c.

Lemma copy_kst t s p bytes old c : s <> EMPTY -> kst t s p (copy_ok bytes old c).
Proof.
  intros Hs w w' HK Es _ (H1 & H2 & H3). split; [done|]. split; [done|]. intros E' HE. rewrite <- Es in Hs.
  destruct (k_class _ _ _ HK Hs) as [-> _]. apply H3. etrans; [apply (k_dict _ _ _ HK)|done].
Qed.
Hint Resolve copy_kst : page.

Lemma copy_decodes w a bytes alloc old c :
  copy_ok bytes old c w -> held w !! a = Some bytes -> decodes cfg (set_info_ (info_set a (compressedSize old) alloc (algorithm old)) w) c.
Proof.
  intros (Hl & Ht & Hd) Hh. destruct (info_unpack a (compressedSize old) alloc (algorithm old)) as [E1 E2].
  { unfold compressedSize. change 0x3FFFFFFF with (Z.ones 30). rewrite Z.land_ones by lia. apply Z.mod_pos_bound. lia. }
  split; [done|]. split; [right; by exists bytes|]. intros E' HE. unfold decode, decode_as, blob_bytes.
  change (held (set_dicts_ E' (set_info_ _ w))) with (held w). cbn [info_ span_ dicts_ set_dicts_ set_info_ data info_set].
  rewrite E1, E2, Hh. change (default [] (Some bytes)) with bytes. rewrite Ht. by apply Hd.
Qed.

Lemma t_blob_bytes c old :
  T 0 (Hd 0 (at_ COMPRESSED PNone (fun w => blob_of cfg c w /\ info_ w = old))) (get blob_bytes)
    (fun bytes => Hd 0 (at_ COMPRESSED PNone (fun w => blob_of cfg c w /\ info_ w = old /\ copy_ok bytes old c w))).
Proof.
  apply t_get; [auto with page|intros; auto 7 with page|]. intros w HI (Es & Ep & Hb & <-). split; [done|]. split; [done|]. split; [done|]. split; [done|].
  destruct Hb as [(Hl & Hz & Hd) _]. split; [done|]. split; [unfold blob_bytes; rewrite take_take; f_equal; lia|]. exact Hd.
Qed.

Lemma t_spill_locked c :
  T 0 (Hd 0 (comp c)) (old <- get info_; spill_locked cfg place old) (fun _ => Fr 0 any).
Proof.
  eapply t_bind with (M := fun old => Hd 0 (at_ COMPRESSED PNone (fun w => blob_of cfg c w /\ info_ w = old))).
  { apply t_get; [auto with page|intros; auto with page|]. by intros w HI (Es & Ep & Hb). }
  intros old. unfold spill_locked. eapply t_bind with (M := fun _ => Hd 0 (at_ COMPRESSED PNone (fun w => blob_of cfg c w /\ info_ w = old))); [apply t_get; auto with page|].
  intros there.
  destruct (data old =? 0) eqn:Ez; cbn [orb].
  { eapply t_conseq; [|intros ? w Hw; exact Hw|apply (t_unlock_comp cfg 0 c)]. intros w. apply Held_mono. by intros w' _ (? & ? & ? & _). }
  destruct there. { eapply t_conseq; [|intros ? w Hw; exact Hw|apply (t_unlock_comp cfg 0 c)]. intros w. apply Held_mono. by intros w' _ (? & ? & ? & _). }
  eapply t_bind; [apply t_blob_bytes|]. intros bytes.
  eapply t_bind; [apply t_beside_spill; [auto with page|auto with page|done|lia]|]. intros [adr alloc]. cbn [fst snd]. case_if.
  { eapply t_conseq; [|intros ? w Hw; exact Hw|apply (t_unlock_comp cfg 0 c)]. intros w. apply Held_mono. by intros w' _ (? & ? & (? & _) & _). }
  b2p. intros w Hw. assert (Hne : adr <> data old) by (destruct Hw as (_ & _ & _ & _ & _ & [?|[? _]]); [lia|done]). revert w Hw.
  apply t_swap; [lia|auto with page|auto with page|intros w Hc Hh; by eapply copy_decodes|]. apply t_m_then; [auto with page|].
  eapply t_bind; [by apply t_unlock_moved|]. intros ?. apply t_release_old; [done|lia].
Qed.

Lemma t_spill ready : T 0 (Fr 0 any) (maybeSpillPage cfg place 0 ready) (fun _ => Fr 0 any).
Proof.
  unfold maybeSpillPage. destruct ready; cbn [negb]; [|apply t_skip]. apply t_try; [apply t_skip|]. cbn [negb].
  eapply t_bind with (M := fun b : bool => Hd 0 (if b then seen cfg COMPRESSED else ok_state cfg)).
  { apply t_get; [auto with page|intros []; auto with page|]. intros w HI Hok. case_if; [|done]. b2p.
    assert (Es : state_ w = COMPRESSED) by (by apply state_eqb_true). unfold ok_state in Hok. rewrite Es in Hok.
    destruct Hok as (Hp & c & Hd & Ha). by exists c. }
  intros [|]; cbn [negb]; [|apply t_unlock_ok; auto with page]. apply t_exists. intros c. apply t_spill_locked.
Qed.

(** ** The sweep and the scans *)

Lemma t_sweep : T 0 (Fr 0 any) (sweepDeferredMadvise cfg 0) (fun _ => Fr 0 any).
Proof.
  unfold sweepDeferredMadvise. case_if; [apply t_skip|]. eapply t_bind; [apply t_get_free; by intros w w' _ _|]. intros due.
  destruct (dm_addr _ DM) as [pa ->]. destruct due; cbn [negb]; [|apply t_skip]. apply t_try; [apply t_skip|]. cbn [negb].
  eapply t_bind with (M := fun b : bool => Hd 0 (if b then seen cfg COMPRESSED else ok_state cfg)).
  { apply t_get; [auto with page|intros []; auto with page|]. intros w HI Hok. case_if; [|done]. b2p.
    assert (Es : state_ w = COMPRESSED) by (by apply state_eqb_true). unfold ok_state in Hok. rewrite Es in Hok.
    destruct Hok as (Hp & c & Hd & Ha). by exists c. }
  intros [|]; cbn [negb]; [|apply t_m_then; [auto with page|]; apply t_unlock_ok; auto with page]. apply t_exists. intros c.
  apply t_m_then; [auto with page|]. eapply t_bind_true; [apply (t_protect cfg DM 0 PNone (comp c) (comp c)); [auto with page|auto with page|]|].
  { intros w HI (Es & Ep & Hb). split; [by left|done]. }
  cbn [bind]. eapply t_bind; [apply t_decommit; [done|auto with page| |done]|intros ?; apply t_unlock_comp].
  intros w (Es & Ep & _). rewrite Es. split; [done|]. intros [?|[?|?]]; done.
Qed.

Lemma t_flush2 : T 0 (Fr 0 any) (flushPhase2PendingProt cfg 0) (fun _ => Fr 0 any).
Proof. unfold flushPhase2PendingProt. rewrite (dm_deferred _ DM). cbn [orb]. apply t_skip. Qed.

Lemma t_state_free t : T t (Fr t any) get_state (fun _ => Fr t any).
Proof. apply t_get_free. by intros w w' _ _. Qed.

Lemma t_phase1 idle_read : T 0 (Fr 0 any) (phase1 cfg idle_read) (fun _ => Fr 0 any).
Proof.
  unfold phase1. eapply t_bind; [apply t_state_free|]. intros st. case_if; [apply t_m_free|]. case_if; [apply t_m_free|apply t_skip].
Qed.

Lemma t_escalate marked budget : T 0 (Fr 0 any) (escalateToDeepMonitoring cfg 0 marked budget) (fun _ => Fr 0 any).
Proof.
  unfold escalateToDeepMonitoring. case_if; [apply t_skip|]. case_if; [apply t_skip|].
  eapply t_bind; [apply t_take_lock|]. intros ?. eapply t_bind; [apply t_get_state|]. intros st.
  eapply t_bind with (M := fun _ => Hd 0 (seen cfg st)); [|intros ?; apply t_unlock_seen].
  case_if; [|apply t_return; auto with page]. match goal with Hs : state_eqb _ _ = true |- _ => apply state_eqb_true in Hs as -> end.
  eapply t_bind_true; [apply (t_protect cfg DM 0 PNone active active); auto with page|apply t_return; auto with page].
Qed.

(** Back to ACTIVE if still monitored. *)
Lemma t_disarm :
  T 0 (Fr 0 any) (lock 0;; st <- get_state; (if state_eqb st ACTIVE_MONITORING then set_state ACTIVE else Ret tt);; unlock) (fun _ => Fr 0 any).
Proof.
  eapply t_bind; [apply t_take_lock|]. intros ?. eapply t_bind; [apply t_get_state|]. intros st. case_if.
  - match goal with Hs : state_eqb _ _ = true |- _ => apply state_eqb_true in Hs as -> end.
    eapply t_bind; [apply t_finish_active; [auto with page|]|intros ?; apply t_unlock_active]. intros w HI Ha. by apply (Icore_agree cfg); [|left].
  - eapply t_bind with (M := fun _ => Hd 0 (seen cfg st)); [apply t_return; auto with page|]. intros ?. apply t_unlock_seen.
Qed.

(** A change of protection to read-only without the lock, on a page nobody else
    than the compressor can take away. *)
Lemma t_arm : T 0 (Fr 0 (fun w => quiet (state_ w))) (protectPages cfg PRead) (fun _ => Fr 0 any).
Proof.
  apply t_free; [intros w w' He; apply (e_quiet _ _ (He eq_refl))| |by intros x w w' _ _].
  intros w x w' [HI Hok] Hl Hq Hx. rewrite (kg_mprotect _ DM) in Hx. apply list_elem_of_singleton in Hx. injection Hx as -> ->.
  splits; [done| | |done|done].
  - split; [|intros Hn; specialize (Hok Hn); unfold ok_state in *; cbn [state_ set_prot_]; by destruct Hq as [Es|[Es|Es]]; rewrite Es in *].
    destruct HI as [J1 J2 J3 J4]. constructor; [done|done|done|]. cbn [state_ set_prot_ mem_ truth_]. intros Hs _. apply J4; [done|right].
    unfold settled. destruct Hq as [Es|[Es|Es]]; [done|auto|auto].
  - intros t' Ht'. constructor; try done. by left.
Qed.

Lemma t_flush3 budget : T 0 (Fr 0 any) (flushPhase3Run cfg 0 budget) (fun _ => Fr 0 any).
Proof.
  unfold flushPhase3Run. case_if; [apply t_disarm|]. eapply t_bind; [apply t_take_lock|]. intros ?.
  eapply t_bind; [apply t_get_state|]. intros st. case_if; [apply t_unlock_seen|].
  destruct (state_eqb st ACTIVE_MONITORING) eqn:Es; [|done]. apply state_eqb_true in Es as ->.
  eapply t_bind; [apply t_unlock_keep with (Ψ := fun w => quiet (state_ w)); [auto with page|intros w w' He; apply (e_quiet _ _ (He eq_refl))|]|].
  { intros w HI Ha. split; [by apply active_ok|]. cbn [state_ set_lock_]. unfold quiet. destruct Ha; auto. }
  intros ?. destruct (dm_addr _ DM) as [pa ->]. eapply t_bind; [apply t_arm|]. intros [|]; [apply t_skip|apply t_disarm].
Qed.

Lemma t_transition : T 0 (Fr 0 any) (transition ACTIVE ACTIVE_MONITORING) (fun _ => Fr 0 any).
Proof.
  apply t_free; [by intros w w' _ _| |by intros x w w' _ _]. intros w x w' [HI Hok] Hl _ Hx. case_if_in Hx.
  - match goal with Hs : state_eqb _ _ = true |- _ => apply state_eqb_true in Hs; rename Hs into Es end.
    apply list_elem_of_singleton in Hx. injection Hx as -> ->. splits; [done| | |done|done].
    + split; [|done]. destruct HI as [J1 J2 J3 J4]. constructor; [done|done|done|]. cbn [state_ set_state_ mem_ truth_]. intros _ _.
      apply J4; rewrite Es; [done|right; by left].
    + intros t' Ht'. constructor; try done; [right; right; done|]. intros _ _. split; [done|by intros ? ?].
  - apply list_elem_of_singleton in Hx. injection Hx as -> ->. splits; [done|done|intros; apply kept_refl|done|done].
Qed.

Lemma t_phase3 tk : T 0 (Fr 0 any) (phase3 cfg 0 tk) (fun _ => Fr 0 any).
Proof.
  unfold phase3. case_if; [apply t_skip|]. eapply t_bind; [apply t_transition|]. intros [|]; cbn [negb]; [apply t_flush3|apply t_skip].
Qed.

Lemma small_class sp : span_ok sp -> lookupSizeClass sp < kNumClasses -> codec_class sp = lookupSizeClass sp \/ sp = None.
Proof.
  destruct sp as [s|]; [|by right]. intros [_ Hl]. left. unfold codec_class, lookupSpanInfo, lookupSizeClass in *.
  destruct (Span.is_large s); [|done]. rewrite (Hl eq_refl) in *. lia.
Qed.

Lemma t_target :
  T 0 (Fr 0 any) (get (fun w => let sc := lookupSizeClass (span_ w) in
                        if (sc <? kNumClasses) && hasDictionary (dicts_ w) sc then ZSTD_DICT else ZSTD))
    (fun x => Fr 0 (target_ok x)).
Proof.
  apply t_free; [by intros w w' _ _| |intros x; apply target_fstable]. intros w x w' [HI Hok] Hl _ Hx.
  apply list_elem_of_singleton in Hx. injection Hx as -> ->. splits; [done|done|intros; apply kept_refl|done|].
  intros _. cbv zeta. case_if; [|done]. intros _. b2p. destruct (small_class (span_ w)) as [->|E0]; [apply HI|lia|done|].
  rewrite E0 in *. cbn in *. done.
Qed.

Lemma t_phase2 tk : T 0 (Fr 0 any) (phase2 cfg place elapsed_us policy 0 tk) (fun _ => Fr 0 any).
Proof.
  unfold phase2. assert (Hany : forall t, fstable t any) by (by intros t w w' _ _).
  eapply t_bind; [by apply t_get_free|]. intros cc. case_if; [apply t_skip|].
  eapply t_bind; [apply t_state_free|]. intros st. eapply t_bind; [by apply t_get_free|]. intros tier.
  eapply t_bind with (M := fun _ => Fr 0 any).
  { case_if; [|apply t_skip]. eapply t_bind; [apply t_target|]. intros target.
    eapply t_bind; [apply t_recompress|]. intros ?. apply t_skip. }
  intros ?. eapply t_bind; [by apply t_get_free|]. intros tier'. eapply t_bind with (M := fun _ => Fr 0 any).
  { case_if; [apply t_spill|apply t_skip]. }
  intros ?. case_if; [apply t_skip|]. eapply t_bind; [by apply t_get_free|]. intros [|]; [apply t_skip|].
  eapply t_bind; [by apply t_get_free|]. intros floors. eapply t_bind; [by apply t_get_free|]. intros cc'.
  case_if; [apply t_escalate|]. case_if; [|apply t_skip]. case_if; [apply t_skip|].
  eapply t_bind; [by apply t_compressPage|]. intros [|]; [apply t_flush2|apply t_skip].
Qed.
End Tiers.
