(* ===== verification/PageTransparency.v ===== *)
(** * Transparency of compression

    The application's accesses to a page, the arena's, and every program of the
    compressor and the fault handler, run by any number of threads in any
    interleaving: in the default mode an access that the protection lets through
    sees the bytes last written, and a page that was dropped can be restored. *)

From S2P Require Import Prelude BitOps Config Double Engine Stats PageState PageProg PageWorld Roi PageOps PageSafe PageFault PageCompress PageTiers.
From S2P Require Span.

#[local] Abbreviation Span := Span.Span.

Section Transparency.
Context `{CL : CodecLaws}.
Context (cfg : Cfg) (place : gmap Z (list Z) -> Z) (stale : list Z) (elapsed_us : Z).
Context (policy : Z -> bool -> SizeClassStats -> Arms -> Z -> bool * option Choice).

(** ** What the application and the arena do to a page *)

(** A store of the application, which waits while the page is not writable. *)
Definition app_store (off v : Z) : prog PW unit :=
  Act (fun w => if bool_decide (prot_ w = PRW) && negb (state_eqb (state_ w) EMPTY)
                then [(tt, set_truth_ (zset (truth_ w) off (Some v)) (set_mem_ (zset (mem_ w) off v) w))] else []) Ret.
(** A byte of an object that is freed: its value no longer matters. *)
Definition app_forget (off : Z) : prog PW unit := upd (fun w => set_truth_ (zset (truth_ w) off None) w).
(** Slots of the page's span are allocated or freed. *)
Definition app_slots (s : Span) : prog PW unit :=
  Act (fun w => if negb (state_eqb (state_ w) EMPTY) && (lookupSizeClass (Some s) =? lookupSizeClass (span_ w)) &&
                   (codec_class (Some s) =? codec_class (span_ w))
                then [(tt, set_span_ (Some s) w)] else []) Ret.
(** A released page enters service again, with whatever it holds. *)
Definition arena_reuse (sp : option Span) : prog PW unit :=
  Act (fun w => if state_eqb (state_ w) EMPTY
                then [(tt, set_state_ ACTIVE (set_span_ sp (set_truth_ (replicate (Z.to_nat (page_bytes cfg)) None) w)))] else []) Ret.
(** The memory of a released page is given back. *)
Definition arena_decommit : prog PW unit :=
  Act (fun w => if state_eqb (state_ w) EMPTY then [(tt, set_mem_ (zero_page cfg) w)] else []) Ret.
(** A dictionary is trained, or loaded from a profile. *)
Definition add_dictionary (sc : Z) (src : list (list Z) + option (list Z)) (alloc built : bool) : prog PW unit :=
  upd (fun w => set_dicts_ (snd (match src with
    | inl samples => trainDictionary (dicts_ w) sc samples alloc built
    | inr bytes => setDictionary (dicts_ w) sc bytes alloc built end)) w).

(** A handler, worker or prefetch at another page takes a fault slot and gives it back. *)
Definition slot_elsewhere : prog PW unit := waitFaultSlot;; releaseFaultSlot.

(** What a thread may run: thread 0 is the compressor's worker for the page; the
    reclaim phase of a neighbouring worker may visit the page too (Scan.v). *)
Inductive page_menu : Z -> prog PW unit -> Prop :=
| pm_phase1 r : page_menu 0 (phase1 cfg r)
| pm_phase2 tk : page_menu 0 (phase2 cfg place elapsed_us policy 0 tk)
| pm_phase3 tk : page_menu 0 (phase3 cfg 0 tk)
| pm_reclaim t budget : page_menu t (reclaimShadow cfg stale t budget)
| pm_sweep : page_menu 0 (sweepDeferredMadvise cfg 0)
| pm_dictionary sc src alloc built : page_menu 0 (add_dictionary sc src alloc built)
| pm_fault t b : page_menu t (handleFault cfg stale elapsed_us t b;; Ret tt)
| pm_prefetch t : page_menu t (prefetchAdjacent cfg stale t)
| pm_range t : page_menu t (restoreRange_other cfg stale t)
| pm_release t : page_menu t (releaseCompressedPages t)
| pm_store t off v : 0 <= off < page_bytes cfg -> page_menu t (app_store off v)
| pm_forget t off : page_menu t (app_forget off)
| pm_slots t s : span_ok (Some s) -> page_menu t (app_slots s)
| pm_reuse t sp : span_ok sp -> page_menu t (arena_reuse sp)
| pm_decommit t : page_menu t arena_decommit
| pm_slot t : page_menu t slot_elsewhere.

(** A page that no span owns yet. *)
Definition unused_page (w : PW) : Prop :=
  lock_ w = None /\ state_ w = EMPTY /\ zlen (mem_ w) = page_bytes cfg /\ zlen (truth_ w) = page_bytes cfg /\ span_ok (span_ w).

Definition idle_pool : @pool PW := fun _ => Ret tt.

Hypothesis mode : default_mode cfg.
Hypothesis kernel : kernel_grants cfg.
#[local] Definition DM : default_run cfg := {| run_mode := mode; run_grants := kernel |}.
Hypothesis place_fresh : forall m, place m <> 0 /\ m !! place m = None.
Hypothesis bound_fits : maxCompressedSizeAny (page_bytes cfg) < 2 ^ 30.
Hypothesis policy_plain : forall a b c d e f ch, policy a b c d e = (f, Some ch) -> ch_algo ch <> ZSTD_DICT.

Abbreviation T := (triple cfg).
Abbreviation Fr := (Free cfg).
Abbreviation any := (fun _ : PW => True).

(** An access of a thread without the lock that every other thread tolerates. *)
Lemma t_env t (f : PW -> list (unit * PW)) :
  (forall w x w', Inv cfg w -> (x, w') ∈ f w -> lock_ w' = lock_ w /\ Inv cfg w' /\ (forall t', kept t' w w') /\ env0 w w') ->
  T t (Fr t any) (Act f Ret) (fun _ => Fr t any).
Proof.
  intros Hf. apply t_free; [by intros w w' _ _| |by intros x w w' _ _]. intros w x w' HI Hl _ Hx.
  destruct (Hf w x w' HI Hx) as (? & ? & ? & ?). by splits.
Qed.

(** The parts of [kept] and [env0] that most such accesses leave alone. *)
Ltac quiet_env :=
  match goal with
  | |- forall t', kept t' _ _ => intros t'; constructor; cbn; try done; try (by left); try (intros _ _; split; [done|by intros ? ?])
  | |- env0 _ _ => try (apply env0_same; by auto)
  end.

Lemma agree_store m tr off v : 0 <= off < zlen m -> agree m tr -> agree (zset m off v) (zset tr off (Some v)).
Proof.
  intros Ho Ha i x Hi. destruct (decide (i = off)) as [->|Hne].
  - rewrite zget_zset_eq by done. destruct (decide (off < zlen tr)).
    + rewrite zget_zset_eq in Hi by lia. by injection Hi.
    + exfalso. rewrite zget_out in Hi by (rewrite zlen_zset; lia). done.
  - rewrite zget_zset_ne in Hi by done. rewrite zget_zset_ne by done. by apply Ha.
Qed.

Lemma truth_le_forget tr off : truth_le (zset tr off None) tr.
Proof.
  intros i x Hi. destruct (decide (i = off)) as [->|Hne]; [|by rewrite zget_zset_ne in Hi].
  destruct (decide (0 <= off < zlen tr)); [by rewrite zget_zset_eq in Hi|].
  rewrite zget_out in Hi; [done|]. rewrite zlen_zset. lia.
Qed.

Lemma agree_forget m tr off : agree m tr -> agree m (zset tr off None).
Proof. apply agree_le, truth_le_forget. Qed.

Lemma t_app_store t off v : 0 <= off < page_bytes cfg -> T t (Fr t any) (app_store off v) (fun _ => Fr t any).
Proof.
  intros Ho. apply t_env. intros w x w' [HI Hok] Hx. case_if_in Hx; [|by apply not_elem_of_nil in Hx]. b2p.
  apply list_elem_of_singleton in Hx. injection Hx as -> ->. pose proof HI as [J1 J2 J3 J4].
  assert (Es : state_ w <> EMPTY) by (intros Es; rewrite Es in *; done).
  assert (Ep : prot_ w = PRW) by done. assert (Ha : agree (mem_ w) (truth_ w)) by (apply J4; [done|rewrite Ep; by left]).
  assert (Hag : agree (zset (mem_ w) off v) (zset (truth_ w) off (Some v))) by (apply agree_store; [lia|done]). splits; [done| | |quiet_env].
  - split; [constructor; cbn; rewrite ?zlen_zset; done|]. intros Hn. specialize (Hok Hn). unfold ok_state in *. cbn.
    destruct (state_ w); try done; [destruct Hok; congruence|]. destruct Hok as (_ & c & Hc). split; [done|]. by exists c.
  - quiet_env.
Qed.

Lemma t_app_forget t off : T t (Fr t any) (app_forget off) (fun _ => Fr t any).
Proof.
  apply t_env. intros w x w' [HI Hok] Hx. apply list_elem_of_singleton in Hx. injection Hx as -> ->. pose proof HI as [J1 J2 J3 J4].
  splits; [done| | |quiet_env].
  - split; [constructor; cbn; rewrite ?zlen_zset; try done; intros; by apply agree_forget, J4|]. intros Hn. specialize (Hok Hn). unfold ok_state in *. cbn.
    destruct (state_ w); try done; [destruct Hok as (? & c & ? & ?)|destruct Hok as (? & c & ?)]; (split; [try done; by apply agree_forget|]);
      exists c; [split; [done|by apply agree_forget]|done].
  - intros t'. constructor; cbn; try done; [by left| |]; intros _; [|by apply agree_forget]. intros _. split; [done|apply truth_le_forget].
Qed.

Lemma decodes_class w sp c : lookupSizeClass sp = lookupSizeClass (span_ w) -> decodes cfg w c -> decodes cfg (set_span_ sp w) c.
Proof.
  intros E (Hl & Hz & Hd). split; [done|]. split; [done|]. intros E' HE. rewrite <- (Hd E' HE). unfold decode, decode_as, blob_bytes.
  change (held (set_dicts_ E' ?x)) with (held x). change (held (set_span_ sp w)) with (held w).
  cbn [info_ span_ dicts_ set_dicts_ set_span_]. by rewrite E.
Qed.

Lemma t_app_slots t s : span_ok (Some s) -> T t (Fr t any) (app_slots s) (fun _ => Fr t any).
Proof.
  intros Hs. apply t_env. intros w x w' [HI Hok] Hx. case_if_in Hx; [|by apply not_elem_of_nil in Hx]. b2p.
  apply list_elem_of_singleton in Hx. injection Hx as -> ->. pose proof HI as [J1 J2 J3 J4]. splits; [done| | |].
  - split; [by constructor|]. intros Hn. specialize (Hok Hn). unfold ok_state in *. cbn [state_ set_span_ prot_ mem_ truth_].
    destruct (state_ w); try done; [destruct Hok as (? & c & ? & ?)|destruct Hok as (? & c & ?)]; (split; [done|]); exists c;
      [split; [by apply decodes_class|done]|by apply decodes_class].
  - quiet_env.
  - constructor; [done|by left|]. intros Es. by splits.
Qed.

Lemma t_arena_reuse t sp : span_ok sp -> T t (Fr t any) (arena_reuse sp) (fun _ => Fr t any).
Proof.
  intros Hs. apply t_env. intros w x w' [HI Hok] Hx. case_if_in Hx; [|by apply not_elem_of_nil in Hx].
  match goal with Hq : state_eqb _ _ = true |- _ => apply state_eqb_true in Hq as Es end.
  apply list_elem_of_singleton in Hx. injection Hx as -> ->. pose proof HI as [J1 J2 J3 J4]. pose proof (dm_size _ DM).
  assert (Ha : agree (mem_ w) (replicate (Z.to_nat (page_bytes cfg)) None)).
  { intros i x Hi. destruct (decide (0 <= i < page_bytes cfg)); [by rewrite zget_replicate in Hi by lia|].
    rewrite zget_out in Hi; [done|]. rewrite zlen_replicate by lia. lia. }
  splits; [done| | |].
  - split; [constructor; cbn; try done; apply zlen_replicate; lia|done].
  - assert (Hq : quiet (state_ w)) by (by left). intros t'. constructor; cbn; try done. right; by left.
  - constructor; cbn; [by right; left|by left|by intros [?|?]].
Qed.

Lemma t_arena_decommit t : T t (Fr t any) arena_decommit (fun _ => Fr t any).
Proof.
  apply t_env. intros w x w' [HI Hok] Hx. case_if_in Hx; [|by apply not_elem_of_nil in Hx].
  match goal with Hq : state_eqb _ _ = true |- _ => apply state_eqb_true in Hq as Es end.
  apply list_elem_of_singleton in Hx. injection Hx as -> ->. pose proof HI as [J1 J2 J3 J4]. pose proof (dm_size _ DM).
  splits; [done| | |quiet_env].
  - split; [constructor; cbn; try done; apply zlen_replicate; lia|]. intros Hn. unfold ok_state. cbn. by rewrite Es.
  - assert (Hq : quiet (state_ w)) by (by left). intros t'. constructor; cbn; try done. by left.
Qed.

Lemma t_add_dictionary t sc src alloc built : T t (Fr t any) (add_dictionary sc src alloc built) (fun _ => Fr t any).
Proof.
  apply t_env. intros w x w' [HI Hok] Hx. apply list_elem_of_singleton in Hx. injection Hx as -> ->. pose proof HI as [J1 J2 J3 J4].
  set (E' := snd _). assert (Hst : rtc engine_step (dicts_ w) E').
  { apply rtc_once. unfold E'. destruct src; constructor. }
  assert (Hd : forall c, decodes cfg w c -> decodes cfg (set_dicts_ E' w) c).
  { intros c (Hl & Hz & Hd). split; [done|]. split; [done|]. intros E2 H2. apply (Hd E2). by etrans. }
  splits; [done| | |].
  - split; [by constructor|]. intros Hn. specialize (Hok Hn). unfold ok_state in *. cbn [state_ set_dicts_ prot_ mem_ truth_].
    destruct (state_ w); try done; [destruct Hok as (? & c & ? & ?)|destruct Hok as (? & c & ?)]; eauto.
  - quiet_env.
  - constructor; [done|by left|]. intros Es. by splits.
Qed.

Lemma t_slot_elsewhere t : T t (Fr t any) slot_elsewhere (fun _ => Fr t any).
Proof.
  eapply t_bind; [|intros ?; apply t_upd_free; by intros w].
  apply t_env. intros w x w' HI Hx. case_if_in Hx; [|by apply not_elem_of_nil in Hx].
  apply list_elem_of_singleton in Hx. injection Hx as -> ->.
  assert (Hs : same_core w (set_slots_ (slots_ w - 1) w)) by done.
  splits; [done|by eapply same_Inv|intros t'; by apply same_kept|by apply same_env0].
Qed.

(** ** Any interleaving *)

Lemma menu_ok t p : page_menu t p -> T t (Fr t any) p (fun _ => Fr t any).
Proof.
  destruct 1.
  - apply t_phase1.
  - by apply t_phase2.
  - by apply t_phase3.
  - by apply t_reclaim.
  - by apply t_sweep.
  - apply t_add_dictionary.
  - eapply t_bind; [by apply t_handleFault|]. intros ?. apply t_skip.
  - by apply t_prefetch.
  - by apply t_range_other.
  - by apply t_release.
  - by apply t_app_store.
  - by apply t_app_forget.
  - by apply t_app_slots.
  - by apply t_arena_reuse.
  - by apply t_arena_decommit.
  - apply t_slot_elsewhere.
Qed.

Lemma unused_ok w : unused_page w -> pool_ok (R cfg) (Inv cfg) (fun t w => lock_ w <> Some t) (w, idle_pool).
Proof.
  intros (Hl & Hs & Hm & Ht & Hsp). assert (HI : Inv cfg w).
  { split; [constructor; try done|]. intros _. unfold ok_state. by rewrite Hs. }
  split; [done|]. intros t. cbn [snd fst idle_pool].
  apply (wp_ret (R cfg) t tt _ (Fr t any)); [apply Free_stable; by intros ? ? _ _|split; [done|]; split; [by rewrite Hl|done]|].
  intros w1 (? & ? & _). done.
Qed.

Lemma reachable_inv w w' ps : unused_page w -> rtc (pstep page_menu) (w, idle_pool) (w', ps) -> Inv cfg w'.
Proof.
  intros Hu Hr. assert (Hp : pool_ok (R cfg) (Inv cfg) (fun t w => lock_ w <> Some t) (w', ps)); [|by destruct Hp].
  eapply pool_safe; [| |exact Hr|by apply unused_ok].
  - intros t v v' HR HI. by destruct (HR HI).
  - intros t p v Hm HI Hn. eapply wp_mono; [|apply (menu_ok t p Hm v); by split]. by intros ? v' (? & ? & _).
Qed.

(** ** A fault is resolved *)

Lemma a_protect p Q w : Q true (set_prot_ p w) -> always (protectPages cfg p) Q w.
Proof.
  intros Hq. split; [done|]. intros x w' Hx. rewrite (kg_mprotect _ DM) in Hx. apply list_elem_of_singleton in Hx. by simplify_eq.
Qed.
Lemma a_pwrite m Q w : Q true (set_mem_ m w) -> always (pwrite_page cfg m) Q w.
Proof.
  intros Hq. split; [done|]. intros x w' Hx. rewrite (kg_pwrite _ DM) in Hx. apply list_elem_of_singleton in Hx. by simplify_eq.
Qed.
Lemma a_lock t Q w : lock_ w = None -> Q tt (set_lock_ (Some t) w) -> always (lock t) Q w.
Proof.
  intros Hl Hq. split; [by rewrite Hl|]. intros x w' Hx. rewrite Hl in Hx. apply list_elem_of_singleton in Hx. by simplify_eq.
Qed.
Lemma a_wait_slot Q w : 0 < slots_ w -> Q tt (set_slots_ (slots_ w - 1) w) -> always waitFaultSlot Q w.
Proof.
  intros Hs Hq. assert (E : (0 <? slots_ w) = true) by lia. split; [by rewrite E|]. intros x w' Hx.
  rewrite E in Hx. apply list_elem_of_singleton in Hx. by simplify_eq.
Qed.

(** The page serves accesses again. *)
Record resolved (tr : list (option Z)) (w : PW) : Prop := {
  rs_state : state_ w = ACTIVE; rs_prot : prot_ w = PRW; rs_truth : truth_ w = tr; rs_agree : agree (mem_ w) tr
}.

(** Counters, statistics, events and the record of the blob do not matter. *)
Record same_page (w w' : PW) : Prop := {
  sp_lock : lock_ w' = lock_ w; sp_state : state_ w' = state_ w; sp_prot : prot_ w' = prot_ w; sp_mem : mem_ w' = mem_ w; sp_truth : truth_ w' = truth_ w
}.
Lemma same_page_trans w w1 w2 : same_page w w1 -> same_page w1 w2 -> same_page w w2.
Proof. intros [] []. constructor; congruence. Qed.

Lemma a_silent f Q w : (forall w, same_page w (f w)) -> (forall w', same_page w w' -> Q tt w') -> always (upd f) Q w.
Proof. intros Hf Hq. apply always_upd. apply Hq, Hf. Qed.

(** Runs a silent step of a longer program. *)
Lemma a_silent_then {A} f (q : prog PW A) Q w :
  (forall w, same_page w (f w)) -> (forall w', same_page w w' -> always q Q w') -> always (upd f;; q) Q w.
Proof. intros Hf Hq. apply always_bind, a_silent; done. Qed.

Lemma release_same w : same_page w (if data (info_ w) =? 0 then w
    else if page_tier (meta_ w) =? kTierSpilled then set_spilled_ (delete (data (info_ w)) (spilled_ w)) w
    else set_blobs_ (delete (data (info_ w)) (blobs_ w)) w).
Proof. repeat case_if; done. Qed.

Lemma a_note_refault b Q w : (forall w', same_page w w' -> Q tt w') -> always (note_refault cfg elapsed_us b) Q w.
Proof.
  intros Hq. unfold note_refault. apply always_bind, always_get.
  apply always_bind. apply always_mono with (Q := fun _ w' => same_page w w').
  2:{ case_if; [|done]. by apply a_silent; [|]. }
  intros ? w1 H1. apply always_bind. apply always_mono with (Q := fun _ w' => same_page w w').
  2:{ case_if; [|done]. apply a_silent_then; [done|]. intros w2 H2. apply a_silent; [intros; by destruct (bucket_of _)|].
      intros w3 H3. eapply same_page_trans; [|exact H3]. by eapply same_page_trans. }
  intros ? w2 H2. apply a_silent_then; [intros v; destruct (span_ v); [case_if|]; done|]. intros w3 H3.
  apply a_silent; [intros v; by destruct (bucket_of _)|]. intros w4 H4. apply Hq.
  eapply same_page_trans; [|exact H4]. by eapply same_page_trans.
Qed.

(** The tail of every case: forget the blob, the counters, then ACTIVE and unlocked. *)
Definition opened (tr : list (option Z)) (w : PW) : Prop := prot_ w = PRW /\ truth_ w = tr /\ agree (mem_ w) tr.

Lemma opened_same tr w w' : same_page w w' -> opened tr w -> opened tr w'.
Proof. intros [] (? & ? & ?). unfold opened. by rewrite sp_prot0, sp_truth0, sp_mem0. Qed.

Lemma a_range (b : option (list Z)) tr w : truth_ w = tr -> agree (match b with Some c => c | None => mem_ w end) tr ->
  always (restoreRange_self cfg b) (fun r w' => if r then opened tr w' /\ state_ w' = state_ w
     else truth_ w' = tr /\ agree (match b with Some c => c | None => mem_ w' end) tr /\ state_ w' = state_ w) w.
Proof.
  intros Ht Ha. unfold restoreRange_self. rewrite (kg_selfmem _ DM). cbn [negb]. apply always_bind, always_choice. intros [|]; [|done].
  cbn [negb]. apply always_bind. destruct b as [c|].
  - apply a_pwrite. apply always_bind, always_choice. intros [|]; cbn [andb]; [|done]. apply a_protect. done.
  - cbn [always]. apply always_bind, always_choice. intros [|]; cbn [andb]; [|done]. apply a_protect. done.
Qed.

Lemma a_resident tr w : truth_ w = tr -> agree (mem_ w) tr ->
  always (makeResidentPageWritable cfg) (fun r w' => r = true /\ opened tr w' /\ state_ w' = state_ w) w.
Proof.
  intros Ht Ha. unfold makeResidentPageWritable. apply always_bind, always_choice. intros near. apply always_bind.
  apply always_mono with (Q := fun r w' => if r : bool then opened tr w' /\ state_ w' = state_ w
    else truth_ w' = tr /\ agree (mem_ w') tr /\ state_ w' = state_ w).
  - intros [|] w1 Hw; [by destruct Hw|]. destruct Hw as (E1 & E2 & E3). apply always_bind, a_protect. done.
  - destruct near; [|done]. by apply (a_range None tr).
Qed.

Lemma a_restore c tr w : truth_ w = tr -> agree c tr ->
  always (restorePageContents cfg c) (fun r w' => r = true /\ opened tr w' /\ state_ w' = state_ w) w.
Proof.
  intros Ht Ha. unfold restorePageContents. rewrite (kg_selfmem _ DM). apply always_bind, always_bind, a_pwrite, a_protect. done.
Qed.

(** The steps after the page is open, up to the unlock. *)
Lemma a_close {A} tr w (q : prog PW A) Q : opened tr w ->
  (forall w', resolved tr w' -> always q Q w') ->
  always (releaseBlob;; clear_info;; set_m (m_tier kTierNone);; set_state ACTIVE;; q) Q w.
Proof.
  intros Ho Hq. apply a_silent_then; [apply release_same|]. intros w1 H1. apply a_silent_then; [done|]. intros w2 H2.
  apply a_silent_then; [done|]. intros w3 H3. apply always_bind, always_upd. apply Hq.
  pose proof (opened_same _ _ _ H3 (opened_same _ _ _ H2 (opened_same _ _ _ H1 Ho))) as (E1 & E2 & E3). done.
Qed.

Lemma resolved_same tr w w' : same_page w w' -> resolved tr w -> resolved tr w'.
Proof. intros [] []. constructor; rewrite ?sp_state0, ?sp_prot0, ?sp_truth0, ?sp_mem0; done. Qed.

(** Some counters, then the unlock. *)
Lemma a_unlock {A} tr w (q : prog PW A) Q : resolved tr w ->
  (forall w', lock_ w' = None /\ resolved tr w' -> always q Q w') -> always (unlock;; q) Q w.
Proof. intros [] Hq. apply always_bind, always_upd. apply Hq. done. Qed.

Lemma a_count {A} tr w f (q : prog PW A) Q : resolved tr w ->
  (forall w', resolved tr w' -> always q Q w') -> always (set_m f;; q) Q w.
Proof. intros Hr Hq. apply a_silent_then; [done|]. intros w' Hs. apply Hq. by eapply resolved_same. Qed.

Definition served (tr : list (option Z)) (r : bool) (w : PW) : Prop := r = true /\ lock_ w = None /\ resolved tr w.

Lemma a_fault_compressed tr b w c : truth_ w = tr -> 0 < slots_ w -> decode cfg w = Some c -> agree c tr ->
  always (fault_compressed cfg stale elapsed_us b) (served tr) w.
Proof.
  intros Ht Hsl Hc Ha. unfold fault_compressed. apply always_bind, always_get. apply always_bind, always_upd.
  apply always_bind, a_wait_slot; [done|]. apply always_bind, always_get. change (decode cfg (set_slots_ _ (upd_meta _ w))) with (decode cfg w). rewrite Hc. change (default stale (Some c)) with c.
  apply always_bind, always_choice. intros near. apply always_bind.
  apply always_mono with (Q := fun r w' => if r : bool then opened tr w' else truth_ w' = tr).
  2:{ destruct near; [|done]. eapply always_mono; [|by apply (a_range (Some c) tr)]. by intros [|] w' []. }
  intros r1 w1 H1. apply always_bind. apply always_mono with (Q := fun r w' => r = true /\ opened tr w').
  2:{ destruct r1; [done|]. eapply always_mono; [|by apply (a_restore c tr)]. by intros r w' (? & ? & _). }
  intros r2 w2 [-> H2]. apply always_bind. cbn [always negb]. apply always_bind, always_upd. apply (a_close tr); [done|]. intros w3 H3.
  apply (a_count tr); [done|]. intros w4 H4. apply (a_count tr); [done|]. intros w5 H5. apply (a_unlock tr); [done|]. intros w6 [H6 H6'].
  apply always_bind, a_note_refault. intros w7 H7. cbn [always]. split; [done|]. split; [by rewrite (sp_lock _ _ H7)|]. by eapply resolved_same.
Qed.

Lemma a_fault_shadow tr w : truth_ w = tr -> agree (mem_ w) tr -> always (fault_shadow cfg) (served tr) w.
Proof.
  intros Ht Ha. unfold fault_shadow. apply always_bind, a_protect. assert (Ho : opened tr (set_prot_ PRW w)) by done. revert Ho.
  generalize (set_prot_ PRW w). clear w Ht Ha. intros w Ho. apply a_silent_then; [apply release_same|]. intros w1 H1.
  assert (Hstep : forall f (q : prog PW bool) v, opened tr v -> (forall w, same_page w (f w)) ->
    (forall v', opened tr v' -> always q (served tr) v') -> always (upd f;; q) (served tr) v).
  { intros f q v Hv Hf Hq. apply a_silent_then; [done|]. intros v' Hv'. apply Hq. by eapply opened_same. }
  assert (Ho1 : opened tr w1) by (by eapply opened_same). revert Ho1. clear Ho H1. generalize w1. intros v Hv.
  do 5 (apply Hstep; [assumption|done|]; clear v Hv; intros v Hv).
  apply always_bind, always_upd. apply always_bind, always_upd. cbn [always]. by destruct Hv as (? & ? & ?).
Qed.

Lemma fault_served t b w : Inv cfg w -> lock_ w = None -> state_ w <> EMPTY -> (state_ w = COMPRESSED -> 0 < slots_ w) ->
  always (handleFault cfg stale elapsed_us t b) (served (truth_ w)) w.
Proof.
  intros [HI Hok] Hl Hne Hsl. specialize (Hok Hl). unfold handleFault. apply always_bind, always_get.
  rewrite bool_decide_eq_false_2 by (by rewrite Hl). apply always_bind, a_lock; [done|]. apply always_bind, always_get. cbn [state_ set_lock_].
  unfold ok_state in Hok. destruct (state_ w) eqn:Es; [done| | |done| |].
  - assert (Ha : agree (mem_ w) (truth_ w)) by (apply (Icore_agree cfg); [done|left; by left]).
    unfold fault_active. apply always_bind. eapply always_mono; [|by apply (a_resident (truth_ w))].
    intros r w1 (_ & (E1 & E2 & E3) & E4). apply (a_unlock (truth_ w)); [by constructor; [rewrite E4|..]|]. done.
  - destruct Hok as (_ & c & Hd & Ha). apply (a_fault_compressed (truth_ w) b (set_lock_ (Some t) w) c); [done|by apply Hsl| |done].
    destruct Hd as (_ & _ & Hd). specialize (Hd _ (rtc_refl _ _)). unfold set_dicts_ in Hd. by destruct w.
  - assert (Ha : agree (mem_ w) (truth_ w)) by (apply (Icore_agree cfg); [done|left; by right]).
    unfold fault_monitoring. apply always_bind. eapply always_mono; [|by apply (a_resident (truth_ w))].
    intros r w1 (-> & (E1 & E2 & E3) & E4). cbn [negb]. apply always_bind, always_upd. apply always_bind, always_upd.
    apply (a_unlock (truth_ w)); done.
  - destruct Hok as [Ha _]. by apply (a_fault_shadow (truth_ w)).
Qed.

(** C1: Compression is transparent in the default mode, as long as the kernel refuses
    nothing: [/proc/self/mem] is open, every write through it is complete and every
    protection change is granted (the hypothesis [kernel]; [refused_protection_loses_page]
    shows that it is needed); codecs decompress what they compressed, the stores give
    unused addresses, and the policy leaves the choice of a dictionary to [compressPage].  From an unused page, in
    any interleaving of the compressor's scans, compressions, recompressions,
    spills, reclaims, sweeps and dictionary training with fault handlers,
    prefetches, releases and reuses and the stores of any number of application
    threads: whenever the page is in use and its protection lets an access through,
    every byte the application relies on is in place; and whenever the page is
    compressed and unlocked it is inaccessible and its blob decompresses to those bytes. *)
Theorem page_transparency w w' ps :
  unused_page w -> rtc (pstep page_menu) (w, idle_pool) (w', ps) ->
  (state_ w' <> EMPTY -> prot_ w' <> PNone ->
   forall off v, zget None (truth_ w') off = Some v -> zget 0 (mem_ w') off = v) /\
  (state_ w' = COMPRESSED -> lock_ w' = None -> prot_ w' = PNone /\
   exists c, decode cfg w' = Some c /\ forall off v, zget None (truth_ w') off = Some v -> zget 0 c off = v).
Proof.
  intros Hu Hr. destruct (reachable_inv _ _ _ Hu Hr) as [HI Hok]. split.
  - intros Hs Hp. apply (ic_agree _ _ HI); [done|by left].
  - intros Hs Hl. specialize (Hok Hl). unfold ok_state in Hok. rewrite Hs in Hok. destruct Hok as (Hp & c & Hd & Ha).
    split; [done|]. exists c. split; [|exact Ha]. destruct Hd as (_ & _ & Hd). specialize (Hd _ (rtc_refl _ _)).
    unfold set_dicts_ in Hd. by destruct w'.
Qed.

(** C2: A fault on a page in use is resolved in the default mode, when the kernel
    grants every protection change and every write through [/proc/self/mem] (and codecs, stores and
    policy are as above).  From any
    reachable world in which the page is unlocked and, if it is compressed, one of the
    fault slots that all pages share is free, [handleFault] run to its end never waits,
    reports the fault as handled, and leaves the page ACTIVE, writable and unlocked,
    with every byte the application relies on in place, whatever the choices of
    [restoreRange].  (With every slot taken the handler waits for one; a refused
    restore leaves the page COMPRESSED, see [fault_refused].) *)
Theorem fault_resolves w w' ps t was_write :
  unused_page w -> rtc (pstep page_menu) (w, idle_pool) (w', ps) -> lock_ w' = None -> state_ w' <> EMPTY ->
  (state_ w' = COMPRESSED -> 0 < slots_ w') ->
  always (handleFault cfg stale elapsed_us t was_write)
    (fun r w2 => r = true /\ lock_ w2 = None /\ state_ w2 = ACTIVE /\ prot_ w2 = PRW /\ truth_ w2 = truth_ w' /\
       forall off v, zget None (truth_ w') off = Some v -> zget 0 (mem_ w2) off = v) w'.
Proof.
  intros Hu Hr Hl Hs Hsl. eapply always_mono; [|apply fault_served; [by eapply reachable_inv|done|done|done]].
  intros r w2 (-> & Hl2 & [E1 E2 E3 E4]). done.
Qed.
End Transparency.

(** ** A kernel that refuses *)

Section Refused.
Context `{Codecs}.
Context (cfg : Cfg) (stale : list Z) (elapsed_us : Z).

(** Only the bytes of the inaccessible page may differ. *)
Definition untouched (w w' : PW) : Prop := exists m, zlen m = zlen (mem_ w) /\ w' = set_mem_ m w.

Lemma untouched_refl w : untouched w w.
Proof. exists (mem_ w). split; [done|]. by destruct w. Qed.
Lemma untouched_trans w w1 w2 : untouched w w1 -> untouched w1 w2 -> untouched w w2.
Proof. intros (m1 & ? & ->) (m2 & E & ->). exists m2. split; [by rewrite E|done]. Qed.

Lemma a_protect_any p Q w : Q true (set_prot_ p w) -> Q false w -> always (protectPages cfg p) Q w.
Proof.
  intros H1 H2. split; [done|]. intros x w' Hx. apply elem_of_cons in Hx as [Hx|Hx]; [by simplify_eq|].
  case_if_in Hx; [|by apply not_elem_of_nil in Hx]. apply list_elem_of_singleton in Hx. by simplify_eq.
Qed.
Lemma a_remap_any p Q w : Q true (set_prot_ p (set_mem_ (zero_page cfg) w)) -> Q false w -> always (remapPages cfg p) Q w.
Proof.
  intros H1 H2. split; [done|]. intros x w' Hx. apply elem_of_cons in Hx as [Hx|Hx]; [by simplify_eq|].
  case_if_in Hx; [|by apply not_elem_of_nil in Hx]. apply list_elem_of_singleton in Hx. by simplify_eq.
Qed.
Lemma a_pwrite_any c Q w : zlen c = zlen (mem_ w) ->
  Q true (set_mem_ c w) -> (forall w', untouched w w' -> Q false w') -> always (pwrite_page cfg c) Q w.
Proof.
  intros Hl H1 H2. split; [done|]. intros x w' Hx. apply elem_of_cons in Hx as [Hx|Hx]; [by simplify_eq|].
  case_if_in Hx; [|by apply not_elem_of_nil in Hx]. apply list_elem_of_fmap in Hx as (k & Hx & _). simplify_eq.
  apply H2. eexists. split; [|done]. unfold zlen in *. rewrite length_app, length_take, length_drop. lia.
Qed.

Lemma a_copy_in src : forall off w Q, prot_ w = PRW -> 0 <= off -> off + zlen src <= zlen (mem_ w) ->
  (forall m, zlen m = zlen (mem_ w) ->
     (forall i, zget 0 m i = if (off <=? i) && (i <? off + zlen src) then zget 0 src (i - off) else zget 0 (mem_ w) i) ->
     Q tt (set_mem_ m w)) -> always (copy_in src off) Q w.
Proof.
  induction src as [|b src IH]; intros off w Q Hp Ho Hl HQ.
  - cbn. replace w with (set_mem_ (mem_ w) w) by (by destruct w). apply HQ; [done|]. intros i. case_if; [|done].
    change (zlen []) with 0 in *. lia.
  - rewrite zlen_cons in *. pose proof (zlen_nonneg src). cbn [copy_in]. apply always_bind.
    assert (E : bool_decide (prot_ w = PRW) = true) by (by apply bool_decide_eq_true). split; [by rewrite E|].
    intros x w' Hx. rewrite E in Hx. apply list_elem_of_singleton in Hx. simplify_eq. cbn [always].
    apply IH; [done|lia|cbn [mem_ set_mem_]; rewrite zlen_zset; lia|]. cbn [mem_ set_mem_]. intros m Hm Hg. apply HQ; [by rewrite Hm, zlen_zset|].
    intros i. rewrite Hg. destruct (decide (i = off)) as [->|Hne].
    + rewrite zget_zset_eq by lia. replace (off - off) with 0 by lia.
      repeat case_if; try lia. done.
    + rewrite zget_zset_ne by done.
      assert (E' : (off + 1 <=? i) && (i <? off + 1 + zlen src) = (off <=? i) && (i <? off + (1 + zlen src))) by lia.
      rewrite E'. case_if; [|done]. unfold zget. assert ((0 <=? i - (off + 1)) = true) as -> by lia. assert ((0 <=? i - off) = true) as -> by lia.
      by replace (Z.to_nat (i - off)) with (S (Z.to_nat (i - (off + 1)))) by lia.
Qed.

Lemma copied_agree c m m0 tr : zlen c = zlen m0 -> agree c tr ->
  (forall i, zget 0 m i = if (0 <=? i) && (i <? 0 + zlen c) then zget 0 c (i - 0) else zget 0 m0 i) -> agree m tr.
Proof.
  intros Hl Ha Hg i v Hi. rewrite Hg. apply Ha in Hi. case_if; [by rewrite Z.sub_0_r|].
  rewrite zget_out in Hi by lia. rewrite zget_out by lia. done.
Qed.

(** Whether the restore succeeds or not. *)
Definition restored_or_not (tr : list (option Z)) (w : PW) (r : bool) (w' : PW) : Prop :=
  if r then opened tr w' else untouched w w'.

Lemma a_copied c tr w w0 : truth_ w = tr -> agree c tr -> zlen c = zlen (mem_ w) -> prot_ w = PRW ->
  always (copy_in c 0;; Ret true) (restored_or_not tr w0) w.
Proof.
  intros Ht Ha Hl Hp. apply always_bind, a_copy_in; [done|lia|lia|]. intros m _ Hg. cbn.
  split; [done|]. split; [done|]. by eapply copied_agree.
Qed.

Lemma a_restore_any c tr w : 0 < page_bytes cfg -> truth_ w = tr -> agree c tr -> zlen c = page_bytes cfg -> zlen (mem_ w) = page_bytes cfg ->
  always (restorePageContents cfg c) (restored_or_not tr w) w.
Proof.
  intros Hpos Ht Ha Hc Hm. unfold restorePageContents. apply always_bind. apply always_mono with (Q := restored_or_not tr w).
  - intros [|] w1 H1; [exact H1|]. destruct H1 as (m & Em & ->). cbn [negb].
    apply always_bind, a_protect_any; apply always_bind.
    + cbn [always]. apply (a_copied c tr); cbn; [done|done|lia|done].
    + apply a_remap_any.
      * apply (a_copied c tr); [done|done| |done]. cbn. rewrite Hc. symmetry. apply zlen_replicate. lia.
      * by exists m.
  - destruct (self_mem_ok cfg); [|by apply untouched_refl]. apply always_bind, a_pwrite_any; [lia| |by intros w' Hw'].
    apply a_protect_any; [done|]. exists c. split; [lia|done].
Qed.

Lemma a_range_any c tr w : truth_ w = tr -> agree c tr -> zlen c = zlen (mem_ w) ->
  always (restoreRange_self cfg (Some c)) (restored_or_not tr w) w.
Proof.
  intros Ht Ha Hc. unfold restoreRange_self. destruct (self_mem_ok cfg); cbn [negb]; [|by apply untouched_refl].
  apply always_bind, always_choice. intros [|]; cbn [negb]; [|by apply untouched_refl].
  apply always_bind, a_pwrite_any; [done| |].
  - apply always_bind, always_choice. intros [|]; cbn [andb]; [|exists c; split; [lia|done]].
    apply a_protect_any; [done|]. exists c. split; [lia|done].
  - intros w' Hw'. apply always_bind, always_choice. by intros [|].
Qed.

(** What a handler that could not restore the page leaves: the page still
    compressed, with the blob it had. *)
Definition retry (w w' : PW) : Prop :=
  state_ w' = state_ w /\ prot_ w' = prot_ w /\ truth_ w' = truth_ w /\ decode cfg w' = decode cfg w.

Lemma a_finish_fault tr b w0 r w : restored_or_not tr w0 r w -> truth_ w0 = tr -> forall was,
  always (releaseFaultSlot;;
    if negb r then (if was : bool then set_m (m_pending true) else Ret tt);; unlock;; Ret true
    else releaseBlob;; clear_info;; set_m (m_tier kTierNone);;
      set_state ACTIVE;; set_m (m_cold 0);; set_m (m_fail 0);; unlock;; note_refault cfg elapsed_us b;; Ret true)
    (fun x w2 => x = true /\ lock_ w2 = None /\ (resolved tr w2 \/ retry w0 w2)) w.
Proof.
  intros Hr Ht was. apply always_bind, always_upd. destruct r; cbn [negb].
  - apply (a_close tr); [done|]. intros w3 H3. apply (a_count tr); [done|]. intros w4 H4. apply (a_count tr); [done|]. intros w5 H5.
    apply (a_unlock tr); [done|]. intros w6 [H6 H6']. apply always_bind, a_note_refault. intros w7 H7. cbn [always].
    split; [done|]. split; [by rewrite (sp_lock _ _ H7)|]. left. by eapply resolved_same.
  - destruct Hr as (m & _ & ->). destruct was; [apply always_bind, always_upd|]; apply always_bind, always_upd; cbn [always];
      (split; [done|]; split; [done|]; by right).
Qed.

(** Whatever the kernel refuses: a handler alone, with a fault slot free, comes to
    its end, and either the page serves accesses again or it is still compressed,
    inaccessible as before and with the same blob, for the access that faults again. *)
Lemma fault_refused t b w c :
  0 < page_bytes cfg -> zlen (mem_ w) = page_bytes cfg -> lock_ w = None -> state_ w = COMPRESSED -> 0 < slots_ w ->
  decode cfg w = Some c -> zlen c = page_bytes cfg -> agree c (truth_ w) ->
  always (handleFault cfg stale elapsed_us t b)
    (fun r w2 => r = true /\ lock_ w2 = None /\ (resolved (truth_ w) w2 \/ retry w w2)) w.
Proof.
  intros Hpos Hm Hl Hs Hsl Hd Hc Ha. unfold handleFault. apply always_bind, always_get.
  rewrite bool_decide_eq_false_2 by (by rewrite Hl). apply always_bind, a_lock; [done|]. apply always_bind, always_get. cbn [state_ set_lock_].
  rewrite Hs. unfold fault_compressed. apply always_bind, always_get. apply always_bind, always_upd.
  apply always_bind, a_wait_slot; [done|]. apply always_bind, always_get.
  change (decode cfg (set_slots_ _ (upd_meta _ (set_lock_ _ w)))) with (decode cfg w). rewrite Hd. change (default stale (Some c)) with c.
  match goal with |- always _ _ ?v => set (w0 := v) end.
  assert (Hfin : forall r v was, restored_or_not (truth_ w) w0 r v -> always (releaseFaultSlot;;
    if negb r then (if was : bool then set_m (m_pending true) else Ret tt);; unlock;; Ret true
    else releaseBlob;; clear_info;; set_m (m_tier kTierNone);;
      set_state ACTIVE;; set_m (m_cold 0);; set_m (m_fail 0);; unlock;; note_refault cfg elapsed_us b;; Ret true)
    (fun r w2 => r = true /\ lock_ w2 = None /\ (resolved (truth_ w) w2 \/ retry w w2)) v).
  { intros r v was Hr. eapply always_mono; [|by apply (a_finish_fault (truth_ w) b w0)]. done. }
  apply always_bind, always_choice. intros near. apply always_bind. apply always_mono with (Q := restored_or_not (truth_ w) w0).
  2:{ destruct near; [|by apply untouched_refl]. apply (a_range_any c); [done|done|cbn; lia]. }
  intros r1 w1 H1. apply always_bind. apply always_mono with (Q := restored_or_not (truth_ w) w0).
  2:{ destruct r1; [done|]. pose proof H1 as (m & Em & ->). eapply always_mono; [|apply (a_restore_any c (truth_ w)); [done|done|done|done|]].
      - intros [|] v Hv; [done|]. by eapply untouched_trans.
      - cbn in *. lia. }
  intros r2 w2 H2. apply always_bind. apply always_mono with (Q := restored_or_not (truth_ w) w0); [intros r v Hv; by apply Hfin|].
  destruct r2; [done|]. pose proof H2 as (m & Em & ->). eapply always_mono; [|apply (a_range_any c (truth_ w)); [done|done|]].
  - intros [|] v Hv; [done|]. by eapply untouched_trans.
  - cbn in *. lia.
Qed.
End Refused.
