(* ===== verification/PageTraces.v ===== *)
(** * Traces of one page

    Concrete interleavings on a page of four bytes: the ordinary life of a page in
    the default mode, and two in which bytes are lost, in the standard mode and
    when the kernel refuses protection changes. *)

From S2P Require Import Prelude BitOps Config Double Engine Stats PageState PageProg PageWorld Roi PageOps PageSafe PageFault PageCompress PageTiers PageTransparency.
From S2P Require Span.

(** The address after the last one. *)
Definition next_place (m : gmap Z (list Z)) : Z := 1 + foldr (fun p a => Z.max (fst p) a) 0 (map_to_list m).

Lemma next_place_fresh m : next_place m <> 0 /\ m !! next_place m = None.
Proof.
  assert (Hb : 0 <= foldr (fun (p : Z * list Z) a => Z.max (fst p) a) 0 (map_to_list m) /\
    forall k v, (k, v) ∈ map_to_list m -> k <= foldr (fun (p : Z * list Z) a => Z.max (fst p) a) 0 (map_to_list m)).
  { induction (map_to_list m) as [|[k v] l IH]; cbn; [split; [lia|by intros ? ? ?%not_elem_of_nil]|].
    destruct IH as [IH0 IH]. split; [lia|]. intros k' v' [Hx|Hx]%elem_of_cons; [injection Hx as -> ->; lia|]. apply IH in Hx. lia. }
  unfold next_place. split; [lia|]. destruct (m !! _) as [v|] eqn:E; [|done].
  apply elem_of_map_to_list in E. apply Hb in E. lia.
Qed.

(** Every page is tried with LZ4. *)
Definition lz4_always (_ : Z) (_ : bool) (_ : SizeClassStats) (_ : Arms) (_ : Z) : bool * option Choice := (false, Some (mkChoice LZ4 1 kTierFast)).

Definition small (deferred : bool) (gate : Z) (mprotect_fails : bool) : Cfg :=
  mkCfg 4 (Some 0x10000) deferred true true false true false false true gate false false false 100 4 0 mprotect_fails false false.

Definition page0 : PW :=
  mkPW None EMPTY PRW [0; 0; 0; 0] no_info ∅ ∅ (mkMeta false 0 0 0 0 0 0 false 0) ∅ None ∅ ∅ ∅ ∅ ∅ [] [None; None; None; None] kFaultSlotCount.

Definition tick0 : Tick := mkTick 0 255 false false false false true false false false true.

Section Small.
#[local] Existing Instance stored_codecs.
Context (cfg : Cfg).

Definition scan : prog PW unit := phase2 cfg next_place 5 lz4_always 0 tick0.
Definition into_use : list (Z * @event PW) :=
  [(1, Start (arena_reuse cfg None)); (1, Finish); (1, Start (app_store 0 7)); (1, Finish); (0, Start (phase1 cfg false)); (0, Finish)].
Definition compressed_life : list (Z * @event PW) :=
  into_use ++ [(0, Start scan); (0, Finish); (0, Start (reclaimShadow cfg [] 0 true)); (0, Finish)].
End Small.

Abbreviation reaches cfg w :=
  (exists ps, rtc (pstep (@page_menu stored_codecs cfg next_place [] 5 lz4_always)) (page0, idle_pool) (w, ps)).

(** A trace whose programs are all on the menu reaches its end. *)
Lemma trace_reaches cfg l w ps :
  run_trace l page0 idle_pool = Some (w, ps) ->
  Forall (on_menu (@page_menu stored_codecs cfg next_place [] 5 lz4_always)) l -> reaches cfg w.
Proof. intros Hr Hm. by apply (run_trace_sound _ _ _ _ idle_pool _ _ Hr). Qed.

(** The menu entries of the programs used. *)
Ltac menu :=
  repeat (apply Forall_cons; split;
    [match goal with
     | |- on_menu _ (_, Finish) => exact I
     | |- on_menu _ (_, Step _) => exact I
     | |- on_menu _ (_, Start (arena_reuse _ _)) => apply pm_reuse; exact I
     | |- on_menu _ (_, Start (app_store _ _)) => apply pm_store; cbn; lia
     | |- on_menu _ (_, Start (phase1 _ _)) => apply pm_phase1
     | |- on_menu _ (_, Start (scan _)) => apply pm_phase2
     | |- on_menu _ (_, Start (reclaimShadow _ _ _ _)) => apply pm_reclaim
     end|]); by apply Forall_nil.

Lemma small_default : default_run (small true 100 false).
Proof. by constructor; constructor. Qed.

Lemma page0_unused deferred gate fails : unused_page (small deferred gate fails) page0.
Proof. by split. Qed.

Definition final (l : list (Z * @event PW)) : PW :=
  match run_trace l page0 idle_pool with Some (w, _) => w | None => page0 end.

Lemma final_reaches cfg l : match run_trace l page0 idle_pool with Some _ => true | None => false end = true ->
  Forall (on_menu (@page_menu stored_codecs cfg next_place [] 5 lz4_always)) l -> reaches cfg (final l).
Proof. unfold final. destruct (run_trace _ _ _) as [[w ps]|] eqn:E; [|done]. intros _. by eapply trace_reaches. Qed.

(** ** The ordinary life of a page *)

Lemma life_reaches : reaches (small true 100 false) (final (compressed_life (small true 100 false))).
Proof. apply final_reaches; [by vm_compute|]. unfold compressed_life, into_use, app. menu. Qed.

(** The page of [compressed_life] was dropped, and its blob still holds the byte. *)
Lemma page_transparency_witness :
  mem_ (final (compressed_life (small true 100 false))) = [0; 0; 0; 0] /\
  exists c, @decode stored_codecs (small true 100 false) (final (compressed_life (small true 100 false))) = Some c /\ zget 0 c 0 = 7.
Proof.
  split; [by vm_compute|]. destruct life_reaches as [ps Hr].
  destruct (@page_transparency stored_codecs stored_laws (small true 100 false) next_place [] 5 lz4_always (run_mode _ small_default) (run_grants _ small_default)
    next_place_fresh ltac:(by vm_compute) ltac:(by intros ? ? ? ? ? ? ? [= _ <-]) _ _ _ (page0_unused _ _ _) Hr) as [_ Hc].
  destruct Hc as (_ & c & Hd & Ha); [by vm_compute|by vm_compute|]. exists c. split; [exact Hd|]. apply Ha. by vm_compute.
Defined.

(** The access that faults on it is served. *)
Lemma fault_resolves_witness :
  always (@handleFault stored_codecs (small true 100 false) [] 5 1 true)
    (fun r w => r = true /\ prot_ w = PRW /\ zget 0 (mem_ w) 0 = 7) (final (compressed_life (small true 100 false))).
Proof.
  destruct life_reaches as [ps Hr].
  refine (always_mono _ _ _ _ _ (@fault_resolves stored_codecs stored_laws (small true 100 false) next_place [] 5 lz4_always (run_mode _ small_default) (run_grants _ small_default)
    next_place_fresh ltac:(by vm_compute) ltac:(by intros ? ? ? ? ? ? ? [= _ <-]) _ _ _ 1 true (page0_unused _ _ _) Hr _ _ _));
    [|by vm_compute|by vm_compute|by vm_compute].
  intros r w (-> & _ & _ & Hp & _ & Ha). split; [done|]. split; [done|]. apply Ha. by vm_compute.
Defined.

(** ** The standard mode *)

(** The compressor stops just after it made the page writable again, before it
    copies the snapshot back. *)
Definition rejected_race : list (Z * @event PW) :=
  let cfg := small false 3 false in
  into_use cfg ++ [(0, Start (scan cfg))] ++ replicate 28 (0, Step 0) ++ [(1, Start (app_store 0 9)); (1, Finish); (0, Finish)].

(** C38: In the standard mode a failed compression can lose an update.  When the
    result is too large, [compressPage] makes the page writable and then copies the
    snapshot over it; a store of the application in between is overwritten.
    There is an interleaving of one scan with the stores of one thread after which the
    page is ACTIVE, writable and unlocked, the application's last store to its first
    byte was 9, and the byte is 7 again. *)
Theorem rejected_compression_loses_update :
  exists w, reaches (small false 3 false) w /\ state_ w = ACTIVE /\ prot_ w = PRW /\ lock_ w = None /\
    zget None (truth_ w) 0 = Some 9 /\ zget 0 (mem_ w) 0 = 7.
Proof.
  exists (final rejected_race). split; [|by vm_compute]. apply final_reaches; [by vm_compute|].
  unfold rejected_race, into_use, app, replicate. menu.
Qed.

(** ** A kernel out of mappings *)

(** Both protection changes of the reclaim are refused. *)
Definition refused_reclaim : list (Z * @event PW) :=
  let cfg := small true 100 true in
  into_use cfg ++ [(0, Start (scan cfg)); (0, Finish); (0, Start (@reclaimShadow stored_codecs cfg [] 0 true))] ++
  replicate 3 (0, Step 0) ++ [(0, Step 1)] ++ replicate 8 (0, Step 0) ++ [(0, Step 1); (0, Finish)].

(** In the default mode, bytes are lost if the kernel refuses a protection
    change.  [reclaimShadowRange] ignores the results of [protectPages] and gives
    the memory back all the same: there is a run after which the page is unlocked and
    accessible, its first byte is zero, and the application's last store to it
    was 7. *)
Lemma refused_protection_loses_page :
  exists w, reaches (small true 100 true) w /\ state_ w = COMPRESSED /\ prot_ w = PRW /\ lock_ w = None /\
    zget None (truth_ w) 0 = Some 7 /\ zget 0 (mem_ w) 0 = 0.
Proof.
  exists (final refused_reclaim). split; [|by vm_compute]. apply final_reaches; [by vm_compute|].
  unfold refused_reclaim, into_use, app, replicate. menu.
Qed.
