(* ===== verification/Scan.v ===== *)
(** * Handing pages to workers and scanning them (src/compress/compressor_thread.h)

    Each tick rebuilds a bitmap of the pages in use, splits the committed pages
    among the workers, and each phase walks the set bits of its range.  The walk
    of the first three phases visits every page in use exactly once, as the linear
    scan it replaces does; the walk of the reclaim phase does not. *)

From S2P Require Import Prelude BitOps PageState.

(* include/smash/config.h:590-591 kChunkSize *)
Definition kChunkSize : Z := Z.shiftl 1 6.

Section Scan.
(** [states_->get(i) != EMPTY] when the bitmap is rebuilt. *)
Context (live : Z -> bool).

(** The mask of the pages [base], ..., [base + n - 1], built from the lowest. *)
Fixpoint chunk_mask (n : nat) (base i mask : Z) : Z :=
  match n with
  | O => mask
  | S n => chunk_mask n base (i + 1) (if live i then Z.lor mask (u64 (Z.shiftl 1 (i - base))) else mask)
  end.

(* src/compress/compressor_thread.h:1252-1265 CompressorThread::rebuildChunkBitmap *)
Definition rebuildChunkBitmap (committed : Z) (live_chunks : gmap Z Z) : gmap Z Z :=
  let nchunks := (committed + kChunkSize - 1) / kChunkSize in
  foldl (fun m c =>
           let base := c * kChunkSize in
           let e := if committed <? base + kChunkSize then committed else base + kChunkSize in
           <[c := chunk_mask (Z.to_nat (e - base)) base base 0]> m)
    live_chunks (seqZ 0 nchunks).

(** [while (mask) { bit = ctz(mask); ...; mask &= mask - 1; }] *)
Fixpoint mask_walk (fuel : nat) (mask : Z) : list Z :=
  match fuel with
  | O => []
  | S fuel => if mask =? 0 then [] else ctz mask :: mask_walk fuel (Z.land mask (mask - 1))
  end.

(** The pages [fn] is called with, in order. *)
(* src/compress/compressor_thread.h:1268-1292 CompressorThread::forEachLivePage *)
Definition forEachLivePage (live_chunks : gmap Z Z) (start e : Z) : list Z :=
  let start_chunk := start / kChunkSize in
  let end_chunk := (e + kChunkSize - 1) / kChunkSize in
  concat (map (fun c =>
    let base := c * kChunkSize in
    filter (fun idx => start <= idx /\ idx < e) (map (fun bit => base + bit) (mask_walk 64 (rd 0 live_chunks c))))
    (seqZ start_chunk (end_chunk - start_chunk))).

(** The linear scan the bitmap replaces. *)
(* src/compress/compressor_thread.h:1271-1275 CompressorThread::forEachLivePage *)
Definition linear_scan (start e : Z) : list Z := filter (fun i => live i = true) (seqZ start (e - start)).

(** The workers' ranges. *)
(* src/compress/compressor_thread.h:4354-4367 CompressorThread::tick *)
Definition worker_ranges (helpers_active : bool) (nw committed : Z) : list (Z * Z) :=
  if helpers_active then
    let per_worker := committed / nw in
    map (fun w => (w * per_worker, if w =? nw - 1 then committed else (w + 1) * per_worker)) (seqZ 0 nw)
  else [(0, committed)].

(** The pages the reclaim phase looks at, as far as the VMA budget allows. *)
(* src/compress/compressor_thread.h:2927-2967 CompressorThread::reclaimShadowRange *)
Definition reclaim_scan (num_chunks : Z) (live_chunks : gmap Z Z) (start e : Z) : list Z :=
  let num_chunks_range := (e - start + kChunkSize - 1) / kChunkSize in
  let chunk_base := start / kChunkSize in
  concat (map (fun ci => filter (fun i => i < e) (map (fun bit => ci * kChunkSize + bit) (mask_walk 64 (rd 0 live_chunks ci))))
    (filter (fun ci => ci < num_chunks) (seqZ chunk_base num_chunks_range))).

(** ** The walk of a mask *)

Lemma mask_walk_spec fuel mask : 0 <= mask < 2 ^ 64 -> (length (setbits mask) <= fuel)%nat -> mask_walk fuel mask = setbits mask.
Proof.
  revert mask. induction fuel as [|fuel IH]; intros mask Hm Hl; cbn.
  - destruct (setbits mask); [done|cbn in Hl; lia].
  - case_if; b2p; [subst; by rewrite setbits_0|]. rewrite setbits_step in Hl |- * by lia. f_equal. apply IH; [|cbn in Hl; lia].
    apply clear_lowest_bound. lia.
Qed.

Lemma chunk_mask_spec n base i mask : 0 <= mask < 2 ^ 64 -> base <= i -> i + Z.of_nat n <= base + 64 ->
  0 <= chunk_mask n base i mask < 2 ^ 64 /\
  forall b, 0 <= b -> Z.testbit (chunk_mask n base i mask) b = Z.testbit mask b || (i <=? base + b) && (base + b <? i + Z.of_nat n) && live (base + b).
Proof.
  revert i mask. induction n as [|n IH]; intros i mask Hm Hb Hn; cbn [chunk_mask].
  - split; [done|]. intros b Hb0.
    destruct (Z.leb_spec i (base + b)), (Z.ltb_spec (base + b) (i + Z.of_nat 0)); try lia; by rewrite orb_false_r.
  - set (m := if live i then _ else _).
    assert (Hs : u64 (Z.shiftl 1 (i - base)) = bit1 (i - base)).
    { apply wrap_small. change (Z.shiftl 1 (i - base)) with (bit1 (i - base)). apply bit1_bound. lia. }
    assert (Hm' : 0 <= m < 2 ^ 64).
    { unfold m. case_if; [|done]. rewrite Hs. apply lor_bound; [lia|done|apply bit1_bound; lia]. }
    destruct (IH (i + 1) m Hm') as [H1 H2]; [lia|lia|]. split; [done|]. intros b Hb0. rewrite H2 by done.
    assert (Et : Z.testbit m b = Z.testbit mask b || (base + b =? i) && live i).
    { unfold m. destruct (live i) eqn:El; rewrite ?andb_true_r, ?andb_false_r, ?orb_false_r; [|done]. rewrite Hs, Z.lor_spec, bit1_spec by lia.
      f_equal. destruct (Z.eqb_spec b (i - base)), (Z.eqb_spec (base + b) i); try done; lia. }
    rewrite Et. destruct (Z.eqb_spec (base + b) i) as [<-|].
    + rewrite (proj2 (Z.leb_gt (base + b + 1) (base + b))), (proj2 (Z.leb_le (base + b) (base + b))) by lia.
      cbn [andb]. rewrite (proj2 (Z.ltb_lt (base + b) (base + b + Z.of_nat (S n)))) by lia. by rewrite orb_false_r.
    + cbn [andb]. rewrite orb_false_r. f_equal. f_equal.
      destruct (Z.leb_spec (i + 1) (base + b)), (Z.leb_spec i (base + b)), (Z.ltb_spec (base + b) (i + 1 + Z.of_nat n)), (Z.ltb_spec (base + b) (i + Z.of_nat (S n))); try done; lia.
Qed.

(** ** The bitmap *)

Lemma foldl_insert {B} (f : Z -> B) l (m : gmap Z B) d c : NoDup l ->
  rd d (foldl (fun m c => <[c := f c]> m) m l) c = if bool_decide (c ∈ l) then f c else rd d m c.
Proof.
  revert m. induction l as [|x l IH]; intros m Hn; cbn [foldl]; [done|]. apply NoDup_cons in Hn as [Hx Hn]. rewrite IH by done.
  destruct (decide (c = x)) as [->|Hne].
  - rewrite bool_decide_eq_false_2, bool_decide_eq_true_2 by (done || by left). apply rd_insert_eq.
  - rewrite rd_insert_ne by done. by rewrite (bool_decide_ext (c ∈ x :: l) (c ∈ l)) by set_solver.
Qed.

Lemma bitmap_chunk committed m c : 0 <= committed -> 0 <= c -> c * 64 < committed ->
  setbits (rd 0 (rebuildChunkBitmap committed m) c) = filter (fun b => c * 64 + b < committed /\ live (c * 64 + b) = true) (seqZ 0 64).
Proof.
  intros Hc Hp Hlt. unfold rebuildChunkBitmap. change kChunkSize with 64.
  rewrite (foldl_insert (fun c => chunk_mask (Z.to_nat ((if committed <? c * 64 + 64 then committed else c * 64 + 64) - c * 64)) (c * 64) (c * 64) 0)) by apply NoDup_seqZ.
  rewrite bool_decide_eq_true_2 by (apply elem_of_seqZ; dlia).
  set (n := Z.to_nat _). assert (Hn : Z.of_nat n = Z.min committed (c * 64 + 64) - c * 64) by (unfold n; case_if; b2p; lia).
  destruct (chunk_mask_spec n (c * 64) (c * 64) 0) as [_ Hb]; [lia|lia|lia|].
  unfold setbits. apply filter_ext_in. intros b Hb'. apply elem_of_seqZ in Hb'. rewrite Hb by lia. rewrite Z.testbit_0_l, orb_false_l.
  rewrite (proj2 (Z.leb_le (c * 64) _)) by lia. cbn [andb].
  destruct (Z.ltb_spec (c * 64 + b) (c * 64 + Z.of_nat n)); cbn [andb]; naive_solver lia.
Qed.

Lemma bitmap_bound committed m c : 0 <= committed -> 0 <= c -> c * 64 < committed -> 0 <= rd 0 (rebuildChunkBitmap committed m) c < 2 ^ 64.
Proof.
  intros Hc Hp Hlt. unfold rebuildChunkBitmap. change kChunkSize with 64.
  rewrite (foldl_insert (fun c => chunk_mask (Z.to_nat ((if committed <? c * 64 + 64 then committed else c * 64 + 64) - c * 64)) (c * 64) (c * 64) 0)) by apply NoDup_seqZ.
  rewrite bool_decide_eq_true_2 by (apply elem_of_seqZ; dlia). apply chunk_mask_spec; [lia|lia|]. case_if; b2p; lia.
Qed.

(** ** The walk equals the linear scan *)

Lemma filter_seq_shift (P : Z -> Prop) `{!forall x, Decision (P x)} base n :
  map (fun b => base + b) (filter (fun b => P (base + b)) (seqZ 0 n)) = filter P (seqZ base n).
Proof.
  replace (seqZ base n) with (map (fun b => base + b) (seqZ 0 n)).
  - induction (seqZ 0 n) as [|x l IH]; [done|]. cbn [map]. rewrite !filter_cons. case_decide; cbn [map]; by rewrite IH.
  - unfold seqZ. change (map ?f ?l) with (f <$> l). rewrite <- list_fmap_compose. apply list_fmap_ext. intros. cbn. lia.
Qed.

Lemma concat_seq (P : Z -> Prop) `{!forall x, Decision (P x)} c n : 0 <= n ->
  concat (map (fun c => filter P (seqZ (c * 64) 64)) (seqZ c n)) = filter P (seqZ (c * 64) (n * 64)).
Proof.
  intros Hn. revert c. pattern n. apply natlike_ind; [done| |done]. clear n Hn. intros n Hn IH c.
  rewrite seqZ_cons by lia. cbn [map concat]. replace (Z.pred (Z.succ n)) with n by lia. rewrite IH, <- filter_app. f_equal.
  replace (Z.succ n * 64) with (64 + n * 64) by lia. rewrite seqZ_app by lia. f_equal. f_equal. lia.
Qed.

Lemma filter_window (P : Z -> Prop) `{!forall x, Decision (P x)} a n s e : a <= s -> s <= e -> e <= a + n ->
  (forall i, P i -> s <= i < e) -> filter P (seqZ a n) = filter P (seqZ s (e - s)).
Proof.
  intros H1 H2 H3 HP. replace n with ((s - a) + ((e - s) + (a + n - e))) by lia.
  rewrite !seqZ_app by lia. rewrite !filter_app. rewrite (filter_none P (seqZ a (s - a))), (filter_none P (seqZ (a + (s - a) + (e - s)) _)).
  - rewrite app_nil_r. cbn [app]. f_equal. f_equal. lia.
  - intros i Hi HPi. apply elem_of_seqZ in Hi. apply HP in HPi. lia.
  - intros i Hi HPi. apply elem_of_seqZ in Hi. apply HP in HPi. lia.
Qed.

Lemma forEachLivePage_linear committed m s e : 0 <= s <= e -> e <= committed ->
  forEachLivePage (rebuildChunkBitmap committed m) s e = linear_scan s e.
Proof.
  intros Hs He. unfold forEachLivePage, linear_scan. change kChunkSize with 64.
  set (ec := (e + 64 - 1) / 64). set (sc := s / 64).
  assert (Hse : sc * 64 <= s /\ e <= ec * 64 /\ ec * 64 < e + 64 /\ 0 <= sc /\ s < sc * 64 + 64) by (unfold sc, ec; dlia).
  destruct (decide (sc < ec)) as [Hlt|].
  2:{ rewrite (seqZ_nil sc) by lia. rewrite (seqZ_nil s) by lia. done. }
  transitivity (concat (map (fun c => filter (fun i => s <= i < e /\ live i = true) (seqZ (c * 64) 64)) (seqZ sc (ec - sc)))).
  - f_equal. apply map_ext_in. intros c Hc%list_elem_of_In. apply elem_of_seqZ in Hc.
    rewrite mask_walk_spec by (try apply setbits_length; apply bitmap_bound; lia). rewrite bitmap_chunk by lia.
    pose proof (filter_seq_shift (fun i => i < committed /\ live i = true) (c * 64) 64) as Hsh. cbv beta in Hsh. rewrite Hsh, list_filter_filter. apply filter_ext_in. intros i _. naive_solver lia.
  - rewrite concat_seq by lia. rewrite (filter_window _ _ _ s e); [|lia|lia|lia|naive_solver].
    apply filter_ext_in. intros i Hi. apply elem_of_seqZ in Hi. naive_solver lia.
Qed.

(** ** The workers *)

Lemma ranges_join nw per committed k : 0 < nw -> 0 <= per -> 0 <= k <= nw -> per = committed / nw -> 0 <= committed ->
  concat (map (fun w => linear_scan (w * per) (if w =? nw - 1 then committed else (w + 1) * per)) (seqZ (nw - k) k)) =
  if k =? 0 then [] else linear_scan ((nw - k) * per) committed.
Proof.
  intros Hn Hp Hk Hd Hc. destruct Hk as [Hk0 Hkn]. revert Hkn. pattern k. apply natlike_ind; [done| |done].
  clear k Hk0. intros k Hk IH Hle. rewrite seqZ_cons by lia. cbn [map concat]. replace (Z.pred (Z.succ k)) with k by lia.
  replace (Z.succ (nw - Z.succ k)) with (nw - k) by lia. rewrite IH by lia. rewrite (proj2 (Z.eqb_neq (Z.succ k) 0)) by lia.
  destruct (Z.eqb_spec k 0) as [->|].
  - rewrite (proj2 (Z.eqb_eq _ _)) by lia. by rewrite app_nil_r.
  - rewrite (proj2 (Z.eqb_neq _ _)) by lia. unfold linear_scan. rewrite <- filter_app. f_equal.
    assert (per * nw <= committed) by (subst per; dlia). assert ((nw - k) * per <= committed) by nia.
    replace (committed - (nw - Z.succ k) * per) with (((nw - Z.succ k + 1) * per - (nw - Z.succ k) * per) + (committed - (nw - k) * per)) by lia.
    rewrite seqZ_app by nia. f_equal. f_equal. lia.
Qed.

(** C24: The chunk bitmap and the split among workers are an optimisation of the
    linear scan: over a whole phase, the workers together call the phase's body on
    exactly the pages in use, each once and in increasing order within and across
    ranges, whatever the number of workers and whatever the bitmap held before. *)
Theorem scan_visits_each_live_page (helpers_active : bool) (nw committed : Z) (old : gmap Z Z) :
  0 < nw -> 0 <= committed ->
  concat (map (fun r => forEachLivePage (rebuildChunkBitmap committed old) (fst r) (snd r)) (worker_ranges helpers_active nw committed)) =
  linear_scan 0 committed.
Proof.
  intros Hn Hc. unfold worker_ranges. destruct helpers_active; cbn [map concat fst snd].
  2:{ rewrite app_nil_r. apply forEachLivePage_linear; lia. }
  rewrite map_map. cbn [fst snd]. set (per := committed / nw). assert (Hp : 0 <= per /\ per * nw <= committed) by (split; [apply Z.div_pos; lia|rewrite Z.mul_comm; apply Z.mul_div_le; lia]).
  pose proof (ranges_join nw per committed nw Hn ltac:(lia) ltac:(lia) eq_refl Hc) as Hj.
  rewrite (proj2 (Z.eqb_neq nw 0)) in Hj by lia. replace (nw - nw) with 0 in Hj by lia. rewrite Z.mul_0_l in Hj. rewrite <- Hj.
  f_equal. apply map_ext_in. intros w Hw%list_elem_of_In. apply elem_of_seqZ in Hw.
  assert (0 <= w * per /\ w * per <= (w + 1) * per /\ (w + 1) * per <= nw * per) by (repeat split; nia).
  apply forEachLivePage_linear; case_if; b2p; lia.
Qed.
End Scan.

Lemma scan_visits_each_live_page_witness :
  concat (map (fun r => forEachLivePage (rebuildChunkBitmap (fun i => i mod 3 =? 0) 130 ∅) (fst r) (snd r)) (worker_ranges true 4 130)) =
  linear_scan (fun i => i mod 3 =? 0) 0 130.
Proof. apply (scan_visits_each_live_page (fun i => i mod 3 =? 0) true 4 130 ∅); lia. Defined.

(** The pages all workers' reclaim phases look at. *)
Definition reclaim_visits (live : Z -> bool) (nw committed : Z) : list Z :=
  concat (map (fun r => reclaim_scan ((committed + kChunkSize - 1) / kChunkSize) (rebuildChunkBitmap live committed ∅) (fst r) (snd r))
    (worker_ranges true nw committed)).

(** The reclaim phase does not visit every page in use.  It counts the chunks
    from the length of the range but starts at the chunk of its first page: with
    three workers and 190 committed pages, all in use, the 62 pages from 128 on are
    visited by no worker, and the first 63 by two. *)
Lemma reclaim_scan_misses :
  reclaim_visits (fun _ => true) 3 190 = seqZ 0 63 ++ seqZ 0 64 ++ seqZ 64 64 /\
  Forall (fun i => i ∉ reclaim_visits (fun _ => true) 3 190) (seqZ 128 62).
Proof.
  assert (E : reclaim_visits (fun _ => true) 3 190 = seqZ 0 63 ++ seqZ 0 64 ++ seqZ 64 64) by (vm_compute; reflexivity).
  split; [done|]. rewrite E. apply Forall_forall. intros i Hi%elem_of_seqZ. rewrite !elem_of_app, !elem_of_seqZ. lia.
Qed.
