(* ===== verification/Profile.v ===== *)
(** * Profile file and dictionary training (src/compress/compressor_thread.h)

    The statistics of the buckets and the dictionaries outlive the process in a
    binary file: a header, one record per bucket, and a list of dictionaries.
    Saving merges with the file other processes wrote.  A file is its list of
    bytes, [None] if it cannot be opened; integers are little-endian.  The
    temporary file, the lock around the update and the rename are one step:
    the new contents replace the old as a whole. *)

From S2P Require Import Prelude BitOps Config Stats Engine.

(** ** Bytes *)

Fixpoint le (n : nat) (x : Z) : list Z :=
  match n with
  | O => []
  | S n => x mod 256 :: le n (x / 256)
  end.

Fixpoint of_le (l : list Z) : Z :=
  match l with
  | [] => 0
  | b :: l => b + 256 * of_le l
  end.

(** [fread] of one object of [n] bytes. *)
Definition fread (n : nat) (f : list Z) : option (list Z * list Z) :=
  if (n <=? length f)%nat then Some (take n f, drop n f) else None.

(** The integer of [n] bytes at offset [i]. *)
Definition field (b : list Z) (i n : nat) : Z := of_le (take n (drop i b)).

Definition kProfileMagic : Z := 0x53503031.
Definition kProfileVersion : Z := 6.
Definition kDictSectionEnd : Z := 255.
Definition kMaxDictBytes : Z := 64 * 1024.
Definition kProfileFlagExternalHot : Z := 1.
Definition kMaxCompressorWorkers : Z := 8.
Definition kMaxDictClasses : Z := 8.

(* src/compress/compressor_thread.h:4936-4948 ProfileHeader *)
Record Header := mkHeader { magic : Z; version : Z; num_arenas : Z; num_classes : Z; flags : Z }.

Definition put_header (h : Header) : list Z := le 4 (magic h) ++ le 4 (version h) ++ le 2 (num_arenas h) ++ le 2 (num_classes h) ++ le 4 (flags h).
Definition get_header (b : list Z) : Header := mkHeader (field b 0 4) (field b 4 4) (field b 8 2) (field b 10 2) (field b 12 4).

(** A record with its last byte, [pad]. *)
Definition Rec : Type := Persist * Z.
Definition put_rec (r : Rec) : list Z :=
  let p := r.1 in
  le 1 (p_count p) ++ le 1 (decision_hint p) ++ le 2 (p_sum p) ++ le 2 (cost_ema_x16_t0 p) ++ le 2 (cost_ema_x16_t1 p) ++
  le 1 (cost_count_t0 p) ++ le 1 (cost_count_t1 p) ++ le 2 (p_efficiency_x256 p) ++ le 1 (thrash_rate p) ++ le 1 (best_tier p) ++
  le 1 (stable_cold p) ++ le 1 r.2.
Definition get_rec (b : list Z) : Rec :=
  (mkPersist (field b 0 1) (field b 1 1) (field b 2 2) (field b 4 2) (field b 6 2) (field b 8 1) (field b 9 1) (field b 10 2)
     (field b 12 1) (field b 13 1) (field b 14 1), field b 15 1).

(** ** State *)

(** Training of one class: the pages copied so far by slot. *)
(* src/compress/compressor_thread.h:935-942 DictTrainState *)
Record DictTrain := mkTrain { dt_trained : bool; dt_allocated : bool; num_samples : Z; sample_data : gmap Z (list Z) }.

(** The buckets of each worker, by index. *)
Record Prof := mkProfile {
  workers : list (list SizeClassStats);
  dicts : Dicts;
  dict_train : list DictTrain;
  external_hot_from_profile : bool;
  skip_external : bool;
  external_pages_hot : bool
}.

Definition no_train : DictTrain := mkTrain false false 0 ∅.
Definition set_trained (d : DictTrain) : DictTrain := mkTrain true (dt_allocated d) (num_samples d) (sample_data d).
Definition with_workers (s : Prof) (ws : list (list SizeClassStats)) : Prof :=
  mkProfile ws (dicts s) (dict_train s) (external_hot_from_profile s) (skip_external s) (external_pages_hot s).
Definition with_dicts (s : Prof) (E : Dicts) (t : list DictTrain) : Prof :=
  mkProfile (workers s) E t (external_hot_from_profile s) (skip_external s) (external_pages_hot s).

Definition set_hint (st : SizeClassStats) (h : Z) : SizeClassStats :=
  let p := s_prof st in
  mkStats (s_win st) (s_costs st) (s_arms st) (selections st) (s_red st) (s_bud st) (mkProf h (profile_stable_cold p) (profile_best_tier p) (profile_thrash_rate p)).

Section ProfileFile.
(** [kNumArenas], 128 in the default build, and whether [setDictionary] finds
    memory and can build the dictionary of a class. *)
Context (kNumArenas : Z) (alloc built : Z -> bool).

Definition total : Z := kNumArenas * kTotalBucketsPerArena.

(** ** Loading *)

Definition header_ok (h : Header) : bool :=
  (magic h =? kProfileMagic) && (version h =? kProfileVersion) && (num_arenas h =? kNumArenas) && (num_classes h =? kTotalBucketsPerArena).

(** One record goes to the bucket of every worker. *)
(* src/compress/compressor_thread.h:4996-4999 CompressorThread::loadProfileFile *)
Definition absorb (i : Z) (p : Persist) (ws : list (list SizeClassStats)) : list (list SizeClassStats) :=
  map (fun w => zset w i (set_hint (deserialize (zget fresh_stats w i) p) (decision_hint p))) ws.

(** The rest of the file is [None] after a short read. *)
(* src/compress/compressor_thread.h:4988-5000 CompressorThread::loadProfileFile *)
Fixpoint load_records (n : nat) (i : Z) (f : list Z) (ws : list (list SizeClassStats)) : option (list Z) * list (list SizeClassStats) :=
  match n with
  | O => (Some f, ws)
  | S n =>
    match fread 16 f with
    | None => (None, ws)
    | Some (b, f) => load_records n (i + 1) f (absorb i (get_rec b).1 ws)
    end
  end.

(** Each turn reads at least one byte. *)
(* src/compress/compressor_thread.h:5009-5029 CompressorThread::loadProfileFile *)
Fixpoint load_dicts (n : nat) (engine : bool) (f : list Z) (E : Dicts) (t : list DictTrain) : Dicts * list DictTrain :=
  match n with
  | O => (E, t)
  | S n =>
    match fread 1 f with
    | None => (E, t)
    | Some (b, f) =>
      let sc := of_le b in
      if sc =? kDictSectionEnd then (E, t)
      else match fread 4 f with
           | None => (E, t)
           | Some (b, f) =>
             let dsize := of_le b in
             if (dsize =? 0) || (kMaxDictBytes <? dsize) || (kNumClasses <=? sc) then (E, t)
             else match fread (Z.to_nat dsize) f with
                  | None => (E, t)
                  | Some (d, f) =>
                    if engine
                    then load_dicts n engine f (setDictionary E sc (Some d) (alloc sc) (built sc)).2
                           (zset t sc (set_trained (zget no_train t sc)))
                    else load_dicts n engine f E t
                  end
           end
    end
  end.

(** [path] tells whether SMASH_PROFILE_FILE is set. *)
(* src/compress/compressor_thread.h:4966-5031 CompressorThread::loadProfileFile *)
Definition loadProfileFile (path engine : bool) (file : option (list Z)) (s : Prof) : Prof :=
  if negb path then s
  else match file with
       | None => s
       | Some f =>
         match fread 16 f with
         | None => s
         | Some (b, f) =>
           let hdr := get_header b in
           if negb (header_ok hdr) then s
           else
             let hot := negb (Z.land (flags hdr) kProfileFlagExternalHot =? 0) in
             let s := mkProfile (workers s) (dicts s) (dict_train s) (external_hot_from_profile s || hot) (skip_external s || hot) (external_pages_hot s) in
             let '(rest, ws) := load_records (Z.to_nat total) 0 f (workers s) in
             let s := with_workers s ws in
             match rest with
             | None => s
             | Some f => let '(E, t) := load_dicts (S (length f)) engine f (dicts s) (dict_train s) in with_dicts s E t
             end
         end
       end.

(** ** Saving *)

(** The worker with most samples, the first of them. *)
(* src/compress/compressor_thread.h:5042-5049 CompressorThread::saveProfileFile *)
Definition best_of (ws : list (list SizeClassStats)) (i : Z) : SizeClassStats :=
  foldl (fun best w => let s := zget fresh_stats w i in if count (s_win best) <? count (s_win s) then s else best)
    (zget fresh_stats (zget [] ws 0) i) (tail ws).

Definition mine (s : Prof) : list Rec := map (fun i => (serialize (best_of (workers s) i), 0)) (seqZ 0 total).

(** The records of the old file, as far as it goes, replace those with fewer
    samples. *)
(* src/compress/compressor_thread.h:5081-5086 CompressorThread::saveProfileFile *)
Fixpoint merge (l : list Rec) (f : list Z) : list Rec :=
  match l with
  | [] => []
  | r :: l' =>
    match fread 16 f with
    | None => l
    | Some (b, f) => (if p_count r.1 <? p_count (get_rec b).1 then get_rec b else r) :: merge l' f
    end
  end.

(* src/compress/compressor_thread.h:5073-5089 CompressorThread::saveProfileFile *)
Definition merge_file (old : option (list Z)) (fl : Z) (l : list Rec) : Z * list Rec :=
  match old with
  | None => (fl, l)
  | Some f =>
    match fread 16 f with
    | None => (fl, l)
    | Some (b, f) => if header_ok (get_header b) then (Z.lor fl (flags (get_header b)), merge l f) else (fl, l)
    end
  end.

(* src/compress/compressor_thread.h:5113-5129 CompressorThread::saveProfileFile *)
Definition put_dicts (E : Dicts) : list Z :=
  mjoin (map (fun sc =>
    if negb (hasDictionary E sc) then []
    else match dictBytes E sc with
         | None => []
         | Some d => if (zlen d =? 0) || (kMaxDictBytes <? zlen d) then [] else le 1 sc ++ le 4 (zlen d) ++ d
         end) (seqZ 0 kNumClasses)).

(** The contents of a complete file. *)
Definition put_file (fl : Z) (l : list Rec) (ds : list Z) : list Z :=
  put_header (mkHeader kProfileMagic kProfileVersion (u16 kNumArenas) (u16 kTotalBucketsPerArena) fl) ++ mjoin (map put_rec l) ++ ds ++ [kDictSectionEnd].

(** How a save goes: [shouldSaveProfile] and the path, whether there is an engine, whether
    the temporary file could be opened, how many of its bytes reached the disk ([None]: all;
    the results of [fwrite] and [fclose] are not looked at), and the result of [rename]. *)
Record SaveEnv := mkSave { sv_enabled : bool; sv_path : bool; sv_engine : bool; sv_tmp : bool; sv_bytes : option nat; sv_renamed : bool }.

(** The contents of the file after a save.  [seen] are the contents merged with, [now]
    those at the time of the [rename]: the same if the lock file could be locked. *)
(* src/compress/compressor_thread.h:5033-5134 CompressorThread::saveProfileFile *)
Definition saveProfileFile (E : SaveEnv) (seen now : option (list Z)) (s : Prof) : option (list Z) :=
  if negb (sv_enabled E) || negb (sv_path E) then now
  else
    let my_flags := if external_pages_hot s then kProfileFlagExternalHot else 0 in
    let '(fl, l) := merge_file seen my_flags (mine s) in
    if negb (sv_tmp E) then now
    else
      let bytes := put_file fl l (if sv_engine E then put_dicts (dicts s) else []) in
      let written := match sv_bytes E with None => bytes | Some n => take n bytes end in
      if sv_renamed E then Some written else now.

(** ** Training *)

Section Training.
Context `{Codecs} (target_samples : Z).

(* src/compress/compressor_thread.h:2738-2743 CompressorThread::trainedDictCount *)
Definition trainedDictCount (E : Dicts) : Z := zlen (filter (fun sc => hasDictionary E sc = true) (seqZ 0 kNumClasses)).

(** [room]: the sample buffers could be allocated.  The claim of a slot and the
    copy into it are one step. *)
(* src/compress/compressor_thread.h:2701-2736 CompressorThread::collectDictSample *)
Definition collectDictSample (room : bool) (sc : Z) (page : list Z) (s : Prof) : Prof :=
  if kNumClasses <=? sc then s
  else if target_samples <=? 0 then s
  else
    let dt := zget no_train (dict_train s) sc in
    let put d := with_dicts s (dicts s) (zset (dict_train s) sc d) in
    if dt_trained dt then s
    else if hasDictionary (dicts s) sc then put (set_trained dt)
    else if kMaxDictClasses <=? trainedDictCount (dicts s) then s
    else if negb (dt_allocated dt) && negb room then put (set_trained dt)
    else
      let slot := num_samples dt in
      let next := u16 (slot + 1) in
      if u16 target_samples <=? slot then put (mkTrain false true next (sample_data dt))
      else put (mkTrain false true next (<[slot := page]> (sample_data dt))).

(** The loop over the classes; the caller has checked the count. *)
(* src/compress/compressor_thread.h:2750-2763 CompressorThread::trainDictionaries *)
Fixpoint train_loop (n : nat) (sc : Z) (s : Prof) : Prof :=
  match n with
  | O => s
  | S n =>
    let dt := zget no_train (dict_train s) sc in
    if dt_trained dt then train_loop n (sc + 1) s
    else if num_samples dt <? u16 target_samples then train_loop n (sc + 1) s
    else
      let actual_samples := Z.min (num_samples dt) (u16 target_samples) in
      let pages := map (fun i => default [] (sample_data dt !! i)) (seqZ 0 actual_samples) in
      let E := (trainDictionary (dicts s) sc pages (alloc sc) (built sc)).2 in
      let s := with_dicts s E (zset (dict_train s) sc (set_trained dt)) in
      if kMaxDictClasses <=? trainedDictCount (dicts s) then s else train_loop n (sc + 1) s
  end.

(* src/compress/compressor_thread.h:2745-2764 CompressorThread::trainDictionaries *)
Definition trainDictionaries (s : Prof) : Prof :=
  if target_samples <=? 0 then s
  else if kMaxDictClasses <=? trainedDictCount (dicts s) then s
  else train_loop (Z.to_nat kNumClasses) 0 s.
End Training.
End ProfileFile.
