(* ===== verification/ProfileCorrect.v ===== *)
(** * Correctness of the profile file (for [Profile.v])

    Saved profiles load back, merging never loses samples, and no byte sequence
    does harm. *)

From S2P Require Import Prelude BitOps Config Stats Engine Profile.

(** ** Bytes *)

Lemma le_length n : forall x, length (le n x) = n.
Proof. induction n as [|n IH]; intros x; [done|]. cbn. by rewrite IH. Qed.

Lemma of_le_le n : forall x, 0 <= x < 256 ^ Z.of_nat n -> of_le (le n x) = x.
Proof.
  induction n as [|n IH]; intros x Hx; [change (256 ^ Z.of_nat 0) with 1 in Hx; cbn; lia|]. cbn [le of_le]. rewrite Nat2Z.inj_succ, Z.pow_succ_r in Hx by lia.
  rewrite IH; [pose proof (Z.div_mod x 256 ltac:(lia)); lia|]. split; [apply Z.div_pos; lia|apply Z.div_lt_upper_bound; lia].
Qed.

Lemma fread_app n a r : length a = n -> fread n (a ++ r) = Some (a, r).
Proof.
  intros <-. unfold fread. rewrite (proj2 (Nat.leb_le _ _)) by (rewrite length_app; lia). by rewrite take_app_length, drop_app_length.
Qed.

Lemma fread_some n f b r : fread n f = Some (b, r) -> f = b ++ r /\ length b = n.
Proof. unfold fread. destruct (Nat.leb_spec n (length f)); [|done]. intros [= <- <-]. split; [by rewrite take_drop|rewrite length_take; lia]. Qed.

Lemma fread_none n f : fread n f = None -> (length f < n)%nat.
Proof. unfold fread. by destruct (Nat.leb_spec n (length f)). Qed.

(** A field behind a prefix of known length. *)
Lemma field_skip a b i n : (length a <= i)%nat -> field (a ++ b) i n = field b (i - length a) n.
Proof. intros H. unfold field. rewrite drop_app_ge by done. done. Qed.

Lemma field_le n x r : 0 <= x < 256 ^ Z.of_nat n -> field (le n x ++ r) 0 n = x.
Proof. intros H. unfold field. rewrite drop_0, take_app_le by (rewrite le_length; lia). rewrite take_ge by (rewrite le_length; lia). by apply of_le_le. Qed.

Ltac fields := repeat (rewrite field_skip by (rewrite le_length; lia); rewrite le_length; cbn [Nat.sub]); rewrite field_le; [done|try (change (256 ^ Z.of_nat 1) with 256); try (change (256 ^ Z.of_nat 2) with 65536); try (change (256 ^ Z.of_nat 4) with (2 ^ 32)); lia].

Record header_typed (h : Header) : Prop := {
  ht_magic : 0 <= magic h < 2 ^ 32; ht_version : 0 <= version h < 2 ^ 32;
  ht_arenas : 0 <= num_arenas h < 65536; ht_classes : 0 <= num_classes h < 65536; ht_flags : 0 <= flags h < 2 ^ 32
}.

Lemma put_header_length h : length (put_header h) = 16%nat.
Proof. unfold put_header. rewrite !length_app, !le_length. done. Qed.

Lemma header_roundtrip h : header_typed h -> get_header (put_header h) = h.
Proof.
  intros [? ? ? ? ?]. unfold get_header, put_header. rewrite <- (app_nil_r (le 4 (flags h))). destruct h as [a b c d e]. cbn [magic version num_arenas num_classes flags] in *. f_equal; fields.
Qed.

(** A record within the widths of its fields. *)
Record rec_typed (r : Rec) : Prop := {
  rt_count : 0 <= p_count r.1 < 256; rt_hint : 0 <= decision_hint r.1 < 256; rt_sum : 0 <= p_sum r.1 < 65536;
  rt_c0 : 0 <= cost_ema_x16_t0 r.1 < 65536; rt_c1 : 0 <= cost_ema_x16_t1 r.1 < 65536;
  rt_n0 : 0 <= cost_count_t0 r.1 < 256; rt_n1 : 0 <= cost_count_t1 r.1 < 256; rt_eff : 0 <= p_efficiency_x256 r.1 < 65536;
  rt_thrash : 0 <= thrash_rate r.1 < 256; rt_best : 0 <= best_tier r.1 < 256; rt_cold : 0 <= stable_cold r.1 < 256; rt_pad : 0 <= r.2 < 256
}.

Lemma put_rec_length r : length (put_rec r) = 16%nat.
Proof. unfold put_rec. rewrite !length_app, !le_length. done. Qed.

Lemma rec_roundtrip r : rec_typed r -> get_rec (put_rec r) = r.
Proof.
  intros [? ? ? ? ? ? ? ? ? ? ? ?]. destruct r as [[a b c d e f g h i j k] pad].
  unfold get_rec, put_rec. cbn [fst snd p_count decision_hint p_sum cost_ema_x16_t0 cost_ema_x16_t1 cost_count_t0 cost_count_t1 p_efficiency_x256 thrash_rate best_tier stable_cold] in *.
  rewrite <- (app_nil_r (le 1 pad)). f_equal; [f_equal|]; fields.
Qed.

(** ** Well-typed buckets *)

Record stats_typed (st : SizeClassStats) : Prop := {
  ty_ratios : length (ratios (s_win st)) = 64%nat /\ Forall (fun r => 0 <= r < 256) (ratios (s_win st));
  ty_window : 0 <= head (s_win st) < 64 /\ 0 <= count (s_win st) <= 64 /\ 0 <= sum (s_win st) < 65536;
  ty_costs : exists e0 e1 n0 n1, s_costs st = mkCosts [e0; e1] [n0; n1] /\ 0 <= e0 < 2 ^ 32 /\ 0 <= e1 < 2 ^ 32 /\ 0 <= n0 < 256 /\ 0 <= n1 < 256;
  ty_eff : 0 <= efficiency_x256 (s_bud st) < 65536;
  ty_prof : 0 <= persist_hint (s_prof st) < 256 /\ 0 <= profile_stable_cold (s_prof st) < 256 /\ 0 <= profile_best_tier (s_prof st) < 256 /\
            0 <= profile_thrash_rate (s_prof st) < 256
}.

Lemma serialize_typed st : stats_typed st -> rec_typed (serialize st, 0).
Proof.
  intros [_ (Hh & Hc & Hs) (e0 & e1 & n0 & n1 & Ec & E0 & E1 & N0 & N1) He _]. unfold serialize. rewrite Ec. cbn [cost_ema_x16 cost_count].
  change (zget 0 [e0; e1] 0) with e0. change (zget 0 [e0; e1] 1) with e1. change (zget 0 [n0; n1] 0) with n0. change (zget 0 [n0; n1] 1) with n1.
  assert (Ht : 0 <= (if 0 <? compress_count (s_bud st) then Z.min 255 (u32 (decompress_count (s_bud st) * 255) / compress_count (s_bud st)) else 0) < 256).
  { case_if; [|lia]. pose proof (wrap_bound 32 (decompress_count (s_bud st) * 255) ltac:(lia)). assert (0 <= u32 (decompress_count (s_bud st) * 255) / compress_count (s_bud st)) by (apply Z.div_pos; lia). lia. }
  constructor; cbn [fst snd p_count decision_hint p_sum cost_ema_x16_t0 cost_ema_x16_t1 cost_count_t0 cost_count_t1 p_efficiency_x256 thrash_rate best_tier stable_cold]; try lia; try exact Ht; repeat case_if; lia.
Qed.

Lemma deserialize_typed st p pad : stats_typed st -> rec_typed (p, pad) -> stats_typed (set_hint (deserialize st p) (decision_hint p)).
Proof.
  intros T R. destruct R as [R1 R2 R3 R4 R5 R6 R7 R8 R9 R10 R11 R12]. cbn [fst snd] in *. destruct T as [(L & F) (Hh & Hc & Hs) _ He Hp]. unfold deserialize.
  set (cnt := if kWindow <? p_count p then kWindow else p_count p / 2).
  assert (Hcnt : 0 <= cnt <= 64) by (unfold cnt, kWindow; case_if; [lia|]; split; [apply Z.div_pos; lia|]; transitivity (64 / 2); [apply Z.div_le_mono; lia|done]).
  clearbody cnt.
  constructor; unfold set_hint; cbn [s_win s_costs s_bud s_prof ratios head count sum efficiency_x256 persist_hint profile_stable_cold profile_best_tier profile_thrash_rate]; try lia.
  - split; [rewrite length_app, length_replicate, length_drop; lia|]. apply Forall_app. split; [|by apply Forall_drop].
    apply Forall_forall. intros x [-> _]%elem_of_replicate. case_if; [apply (wrap_bound 8); lia|lia].
  - splits; try lia; case_if; try lia; apply (wrap_bound 16); lia.
  - eexists _, _, _, _. split; [reflexivity|]. splits; try lia; first [apply Z.div_pos; lia|apply Z.div_lt_upper_bound; lia].
Qed.

Lemma fresh_typed : stats_typed fresh_stats.
Proof.
  constructor; cbn; try lia.
  - split; [done|]. apply Forall_forall. intros x Hx. assert (x ∈ replicate 64 0) as [-> _]%elem_of_replicate by exact Hx. lia.
  - exists 0, 0, 0, 0. split; [done|]. lia.
Qed.

(** Fields of bytes. *)
Definition is_byte (b : Z) : Prop := 0 <= b < 256.

Lemma of_le_bound l : Forall is_byte l -> 0 <= of_le l < 256 ^ Z.of_nat (length l).
Proof.
  induction l as [|b l IH]; intros H; [cbn; lia|]. apply Forall_cons in H as [Hb H]. specialize (IH H). unfold is_byte in Hb. cbn [of_le length].
  rewrite Nat2Z.inj_succ, Z.pow_succ_r by lia. nia.
Qed.

Lemma field_bound b i n : Forall is_byte b -> 0 <= field b i n < 256 ^ Z.of_nat n.
Proof.
  intros H. unfold field. pose proof (of_le_bound (take n (drop i b)) ltac:(by apply Forall_take, Forall_drop)) as Hb. split; [lia|].
  eapply Z.lt_le_trans; [apply Hb|]. apply Z.pow_le_mono_r; [lia|]. rewrite length_take. lia.
Qed.

Lemma get_rec_typed b : Forall is_byte b -> rec_typed (get_rec b).
Proof.
  intros H. pose proof (fun i => field_bound b i 1 H) as H1. pose proof (fun i => field_bound b i 2 H) as H2. change (256 ^ Z.of_nat 1) with 256 in H1. change (256 ^ Z.of_nat 2) with 65536 in H2.
  constructor; cbn [get_rec fst snd p_count decision_hint p_sum cost_ema_x16_t0 cost_ema_x16_t1 cost_count_t0 cost_count_t1 p_efficiency_x256 thrash_rate best_tier stable_cold]; auto.
Qed.

Lemma get_header_typed b : Forall is_byte b -> header_typed (get_header b).
Proof. intros H. constructor; cbn; [exact (field_bound b 0 4 H)|exact (field_bound b 4 4 H)|exact (field_bound b 8 2 H)|exact (field_bound b 10 2 H)|exact (field_bound b 12 4 H)]. Qed.

(** ** Buckets *)

Definition bucket (ws : list (list SizeClassStats)) (w i : Z) : SizeClassStats := zget fresh_stats (zget [] ws w) i.

(** Eight workers with [n] buckets each. *)
Definition rows (ws : list (list SizeClassStats)) (n : Z) : Prop := length ws = 8%nat /\ Forall (fun r => zlen r = n) ws.

Definition restored (st : SizeClassStats) (r : Rec) : SizeClassStats := set_hint (deserialize st r.1) (decision_hint r.1).

Fixpoint absorb_all (i : Z) (l : list Rec) (ws : list (list SizeClassStats)) : list (list SizeClassStats) :=
  match l with
  | [] => ws
  | r :: l => absorb_all (i + 1) l (absorb i r.1 ws)
  end.

Lemma absorb_rows i p ws n : rows ws n -> rows (absorb i p ws) n.
Proof.
  intros [H1 H2]. split; [unfold absorb; by rewrite length_map|]. unfold absorb. apply Forall_forall. intros r (r' & -> & Hr)%list_elem_of_fmap. rewrite zlen_zset. rewrite Forall_forall in H2. by apply H2.
Qed.

Lemma absorb_bucket i p ws n w j : rows ws n -> 0 <= w < 8 -> 0 <= i < n -> 0 <= j -> bucket (absorb i p.1 ws) w j = if i =? j then restored (bucket ws w j) p else bucket ws w j.
Proof.
  intros [H1 H2] Hw Hi Hj. unfold bucket, absorb. destruct (lookup_lt_is_Some_2 ws (Z.to_nat w)) as [r Hr]; [lia|].
  assert (E : zget [] ws w = r) by (unfold zget; rewrite (proj2 (Z.leb_le 0 w)) by lia; by rewrite Hr). rewrite E.
  assert (E' : forall f : list SizeClassStats -> list SizeClassStats, zget [] (map f ws) w = f r).
  { intros f. unfold zget. rewrite (proj2 (Z.leb_le 0 w)) by lia. change (map f ws) with (f <$> ws). by rewrite list_lookup_fmap, Hr. }
  rewrite E'. rewrite Forall_forall in H2. pose proof (H2 r (list_elem_of_lookup_2 _ _ _ Hr)) as Hl. destruct (Z.eqb_spec i j) as [->|Hn]; [by rewrite zget_zset_eq by lia|by rewrite zget_zset_ne by lia].
Qed.

Lemma absorb_all_rows l : forall i ws n, rows ws n -> rows (absorb_all i l ws) n.
Proof. induction l as [|r l IH]; intros i ws n H; [done|]. cbn. by apply IH, absorb_rows. Qed.

Lemma absorb_all_bucket l : forall i ws n w j, rows ws n -> 0 <= w < 8 -> 0 <= i -> i + zlen l <= n -> 0 <= j ->
  bucket (absorb_all i l ws) w j = match (if i <=? j then l !! Z.to_nat (j - i) else None) with Some r => restored (bucket ws w j) r | None => bucket ws w j end.
Proof.
  induction l as [|r l IH]; intros i ws n w j R Hw Hi Hn Hj; [by case_if|]. rewrite zlen_cons in Hn. pose proof (zlen_nonneg l). cbn [absorb_all].
  rewrite (IH (i + 1) _ n) by (try apply absorb_rows; lia || done). rewrite (absorb_bucket i r ws n) by (done || lia).
  destruct (Z.eqb_spec i j) as [->|Hne].
  - rewrite (proj2 (Z.leb_gt (j + 1) j)) by lia. rewrite Z.leb_refl, Z.sub_diag. done.
  - destruct (Z.leb_spec (i + 1) j); [rewrite (proj2 (Z.leb_le i j)) by lia|by rewrite (proj2 (Z.leb_gt i j)) by lia].
    replace (Z.to_nat (j - i)) with (S (Z.to_nat (j - (i + 1)))) by lia. done.
Qed.

(** The complete records at the front of [f], at most [n]. *)
Fixpoint records_of (n : nat) (f : list Z) : list Rec :=
  match n with
  | O => []
  | S n => match fread 16 f with None => [] | Some (b, f) => get_rec b :: records_of n f end
  end.

Lemma records_of_length n : forall f, (length (records_of n f) <= n)%nat.
Proof. induction n as [|n IH]; intros f; [done|]. cbn. destruct (fread 16 f) as [[b r]|]; cbn; [specialize (IH r)|]; lia. Qed.

Lemma load_records_spec n : forall i f ws,
  (load_records n i f ws).2 = absorb_all i (records_of n f) ws /\
  match (load_records n i f ws).1 with Some r => exists b, f = b ++ r | None => True end.
Proof.
  induction n as [|n IH]; intros i f ws; cbn [load_records records_of]; [split; [done|by exists []]|]. destruct (fread 16 f) as [[b r]|] eqn:E; [|done].
  destruct (IH (i + 1) r (absorb i (get_rec b).1 ws)) as [H1 H2]. split; [exact H1|]. destruct (load_records n _ r _).1; [|done]. destruct H2 as [c ->].
  apply fread_some in E as [-> _]. exists (b ++ c). by rewrite <- app_assoc.
Qed.

Lemma load_records_put l : forall i rest ws, Forall rec_typed l -> load_records (length l) i (mjoin (map put_rec l) ++ rest) ws = (Some rest, absorb_all i l ws).
Proof.
  induction l as [|r l IH]; intros i rest ws H; [done|]. apply Forall_cons in H as [Hr H]. cbn [length load_records map absorb_all].
  change (mjoin (put_rec r :: map put_rec l)) with (put_rec r ++ mjoin (map put_rec l)). rewrite <- app_assoc, fread_app by apply put_rec_length. rewrite (rec_roundtrip r Hr). by apply IH.
Qed.

Lemma records_of_typed n : forall f, Forall is_byte f -> Forall rec_typed (records_of n f).
Proof.
  induction n as [|n IH]; intros f H; [constructor|]. cbn. destruct (fread 16 f) as [[b r]|] eqn:E; [|constructor]. apply fread_some in E as [-> _]. apply Forall_app in H as [H1 H2].
  constructor; [by apply get_rec_typed|by apply IH].
Qed.

Lemma records_of_put l rest : Forall rec_typed l -> records_of (length l) (mjoin (map put_rec l) ++ rest) = l.
Proof.
  induction l as [|r l IH]; intros H; [done|]. apply Forall_cons in H as [Hr H]. cbn [length records_of map].
  change (mjoin (put_rec r :: map put_rec l)) with (put_rec r ++ mjoin (map put_rec l)). rewrite <- app_assoc, fread_app by apply put_rec_length. rewrite (rec_roundtrip r Hr). f_equal. by apply IH.
Qed.

(** ** Dictionaries *)

Section Files.
Context (kNumArenas : Z) (alloc built : Z -> bool).
Context (Harenas : 0 < kNumArenas < 65536).
Local Abbreviation total := (total kNumArenas).
Local Abbreviation load_dicts := (load_dicts alloc built).

Lemma total_pos : 0 < total.
Proof. unfold Profile.total. change kTotalBucketsPerArena with 44. lia. Qed.

(** The dictionary of a class that is written to a file. *)
Definition saved (E : Dicts) (sc : Z) : option (list Z) :=
  match E !! sc with
  | Some d => if (zlen d =? 0) || (kMaxDictBytes <? zlen d) then None else Some d
  | None => None
  end.

Definition entry (E : Dicts) (sc : Z) : list Z := match saved E sc with Some d => le 1 sc ++ le 4 (zlen d) ++ d | None => [] end.

Lemma put_dicts_entries E : put_dicts E = mjoin (map (entry E) (seqZ 0 kNumClasses)).
Proof.
  unfold put_dicts. f_equal. apply map_ext_in. intros sc H. apply list_elem_of_In, elem_of_seqZ in H. unfold entry, saved, dictBytes, hasDictionary.
  rewrite (proj2 (Z.ltb_lt sc kNumClasses)), (proj2 (Z.leb_gt kNumClasses sc)) by lia. destruct (E !! sc) as [d|] eqn:Ed; cbn; [|done]. by case_if.
Qed.

Definition take_dict (E : Dicts) (a : Dicts * list DictTrain) (sc : Z) : Dicts * list DictTrain :=
  match saved E sc with
  | Some d => ((setDictionary a.1 sc (Some d) (alloc sc) (built sc)).2, zset a.2 sc (set_trained (zget no_train a.2 sc)))
  | None => a
  end.

Lemma load_dicts_put E rest scs : forall n a, Forall (fun sc => 0 <= sc < kNumClasses) scs -> (length (mjoin (map (entry E) scs)) < n)%nat ->
  load_dicts n true (mjoin (map (entry E) scs) ++ [kDictSectionEnd] ++ rest) a.1 a.2 = foldl (take_dict E) a scs.
Proof.
  induction scs as [|sc scs IH]; intros n [E0 t0] H Hn; [by destruct n as [|n]; [cbn in Hn; lia|]|]. apply Forall_cons in H as [Hsc H]. unfold kNumClasses in Hsc.
  change (mjoin (map (entry E) (sc :: scs))) with (entry E sc ++ mjoin (map (entry E) scs)) in *. cbn [foldl]. unfold entry at 1, take_dict at 2. unfold entry at 1 in Hn.
  destruct (saved E sc) as [d|] eqn:Es; [|by apply IH]. assert (Hd : 0 < zlen d <= kMaxDictBytes).
  { unfold saved in Es. destruct (E !! sc) as [d'|]; [|done]. case_if_in Es; [done|]. pose proof (zlen_nonneg d'). injection Es as ->. lia. }
  unfold kMaxDictBytes in Hd. rewrite !length_app, !le_length in Hn. destruct n as [|n]; [lia|]. cbn [Profile.load_dicts fst snd].
  rewrite <- !app_assoc, fread_app by apply le_length. rewrite of_le_le by (cbn; lia). unfold kDictSectionEnd at 1. rewrite (proj2 (Z.eqb_neq sc 255)) by lia.
  rewrite fread_app by apply le_length. rewrite of_le_le by (cbn; lia). unfold kMaxDictBytes, kNumClasses. rewrite (proj2 (Z.eqb_neq (zlen d) 0)), (proj2 (Z.ltb_ge (64 * 1024) (zlen d))), (proj2 (Z.leb_gt 36 sc)) by lia.
  cbn [orb]. rewrite fread_app by (unfold zlen; lia). refine (IH n (_, _) H _). lia.
Qed.

Lemma setDictionary_other E sc d a b sc' : sc <> sc' -> (setDictionary E sc d a b).2 !! sc' = E !! sc'.
Proof. intros H. unfold setDictionary. repeat case_match; try done. cbn. by rewrite lookup_insert_ne. Qed.

Lemma take_dict_other E a sc sc' : sc <> sc' -> (take_dict E a sc).1 !! sc' = a.1 !! sc' /\ (0 <= sc -> zget no_train (take_dict E a sc).2 sc' = zget no_train a.2 sc').
Proof.
  intros H. unfold take_dict. destruct (saved E sc); [|done]. cbn. split; [by apply setDictionary_other|]. intros H0. destruct (decide (0 <= sc')); [by rewrite zget_zset_ne by lia|].
  unfold zget. by rewrite (proj2 (Z.leb_gt 0 sc')) by lia.
Qed.

Lemma take_dicts_other E sc scs : forall a, sc ∉ scs -> Forall (fun sc => 0 <= sc) scs ->
  (foldl (take_dict E) a scs).1 !! sc = a.1 !! sc /\ zget no_train (foldl (take_dict E) a scs).2 sc = zget no_train a.2 sc.
Proof.
  induction scs as [|x scs IH]; intros a H P; [done|]. apply not_elem_of_cons in H as [Hx H]. apply Forall_cons in P as [Px P]. cbn [foldl].
  destruct (take_dict_other E a x sc ltac:(done)) as [H1 H2]. destruct (IH (take_dict E a x) H P) as [-> ->]. auto.
Qed.

Lemma take_dicts_train_len E scs : forall a, zlen (foldl (take_dict E) a scs).2 = zlen a.2.
Proof. induction scs as [|x scs IH]; intros a; [done|]. cbn [foldl]. rewrite IH. unfold take_dict. destruct (saved E x); [apply zlen_zset|done]. Qed.

(** What a class has once the list is read. *)
Lemma take_dicts_spec E sc : forall scs a, NoDup scs -> sc ∈ scs -> Forall (fun sc => 0 <= sc < kNumClasses) scs -> zlen a.2 = kNumClasses ->
  (foldl (take_dict E) a scs).1 !! sc =
    match saved E sc with Some d => (setDictionary a.1 sc (Some d) (alloc sc) (built sc)).2 !! sc | None => a.1 !! sc end /\
  dt_trained (zget no_train (foldl (take_dict E) a scs).2 sc) = (dt_trained (zget no_train a.2 sc) || bool_decide (is_Some (saved E sc))).
Proof.
  induction scs as [|x scs IH]; intros a N Hi P L; [by apply elem_of_nil in Hi|]. apply NoDup_cons in N as [Nx N]. apply Forall_cons in P as [Px P]. cbn [foldl]. destruct (decide (x = sc)) as [->|Hne].
  - assert (P' : Forall (fun sc => 0 <= sc) scs) by (eapply Forall_impl; [exact P|]; cbn; lia).
    destruct (take_dicts_other E sc scs (take_dict E a sc) Nx P') as [-> ->]. unfold take_dict. destruct (saved E sc) as [d|]; cbn; [|by rewrite orb_false_r]. split; [done|].
    rewrite zget_zset_eq by lia. cbn. by rewrite orb_true_r.
  - apply elem_of_cons in Hi as [->|Hi]; [done|]. destruct (take_dict_other E a x sc Hne) as [H1 H2]. specialize (H2 ltac:(lia)).
    destruct (IH (take_dict E a x) N Hi P) as [H3 H4]; [unfold take_dict; destruct (saved E x); [by cbn; rewrite zlen_zset|done]|]. rewrite H4, H2. split; [|done]. rewrite H3. clear IH H3 H4. destruct (saved E sc) as [d|]; [|done].
    unfold setDictionary, hasDictionary. rewrite H1. destruct (kNumClasses <=? sc); [exact H1|]. destruct ((zlen d =? 0) || _); [exact H1|]. destruct ((sc <? kNumClasses) && _); [exact H1|]. destruct (alloc sc); [|exact H1]. destruct (built sc); [|exact H1]. cbn. by rewrite !lookup_insert_eq.
Qed.

Lemma take_all_spec E a sc : 0 <= sc < kNumClasses -> zlen a.2 = kNumClasses ->
  (foldl (take_dict E) a (seqZ 0 kNumClasses)).1 !! sc =
    match saved E sc with Some d => (setDictionary a.1 sc (Some d) (alloc sc) (built sc)).2 !! sc | None => a.1 !! sc end /\
  dt_trained (zget no_train (foldl (take_dict E) a (seqZ 0 kNumClasses)).2 sc) = (dt_trained (zget no_train a.2 sc) || bool_decide (is_Some (saved E sc))).
Proof.
  intros H L. apply take_dicts_spec; [apply NoDup_seqZ|by apply elem_of_seqZ|apply Forall_forall; intros x Hx%elem_of_seqZ; lia|done].
Qed.

(** A class without a dictionary gets the one that was saved. *)
Lemma setDictionary_new E sc d : 0 <= sc < kNumClasses -> E !! sc = None -> 0 < zlen d <= kDictCapacity -> (setDictionary E sc (Some d) true true).2 !! sc = Some d.
Proof.
  intros H He Hd. unfold setDictionary, hasDictionary. rewrite (proj2 (Z.leb_gt kNumClasses sc)), (proj2 (Z.eqb_neq (zlen d) 0)), (proj2 (Z.ltb_ge kDictCapacity (zlen d))) by lia.
  rewrite He. cbn [orb]. rewrite bool_decide_eq_false_2 by (by intros [? ?]). rewrite andb_false_r. cbn. by rewrite lookup_insert_eq.
Qed.

(** Whatever the bytes, a dictionary that is there stays, and a new one fits. *)
Lemma load_dicts_any n : forall engine f E t, let E' := (load_dicts n engine f E t).1 in
  (forall sc d, E !! sc = Some d -> 0 <= sc < kNumClasses -> E' !! sc = Some d) /\
  (forall sc d, E' !! sc = Some d -> E !! sc = Some d \/ (sc < kNumClasses /\ 0 < zlen d <= kDictCapacity /\ (exists b r, f = b ++ d ++ r))) /\
  zlen (load_dicts n engine f E t).2 = zlen t.
Proof.
  induction n as [|n IH]; intros engine f E t; cbn; [by splits; auto|]. destruct (fread 1 f) as [[b1 f1]|] eqn:E1; [|by splits; auto]. destruct (of_le b1 =? kDictSectionEnd); [by splits; auto|].
  destruct (fread 4 f1) as [[b2 f2]|] eqn:E2; [|by splits; auto]. destruct (_ || _); [by splits; auto|]. destruct (fread (Z.to_nat (of_le b2)) f2) as [[d f3]|] eqn:E3; [|by splits; auto].
  apply fread_some in E1 as [-> _], E2 as [-> _], E3 as [-> _].
  assert (Lift : forall d' : list Z, (exists b r, f3 = b ++ d' ++ r) -> exists b r, b1 ++ b2 ++ d ++ f3 = b ++ d' ++ r).
  { intros d' (b & r & ->). exists (b1 ++ b2 ++ d ++ b), r. by rewrite <- !app_assoc. }
  destruct engine; [|destruct (IH false f3 E t) as (H1 & H2 & H3); splits; [done| |done]; intros sc d' Hd; destruct (H2 sc d' Hd) as [?|(? & ? & ?)]; eauto 6].
  set (sc0 := of_le b1). set (E1 := (setDictionary E sc0 (Some d) (alloc sc0) (built sc0)).2). destruct (IH true f3 E1 (zset t sc0 (set_trained (zget no_train t sc0)))) as (H1 & H2 & H3).
  assert (HE : forall sc d', E1 !! sc = Some d' -> E !! sc = Some d' \/ (sc < kNumClasses /\ 0 < zlen d' <= kDictCapacity /\ d' = d)).
  { intros sc d'. unfold E1, setDictionary. destruct (Z.leb_spec kNumClasses sc0); [by left|]. pose proof (zlen_nonneg d). destruct (Z.eqb_spec (zlen d) 0); [by left|]. destruct (Z.ltb_spec kDictCapacity (zlen d)); [by left|]. cbn [orb].
    destruct (hasDictionary E sc0); [by left|]. destruct (alloc sc0); [|by left]. destruct (built sc0); [|by left]. cbn. destruct (decide (sc0 = sc)) as [->|Hn]; [|rewrite lookup_insert_ne by done; by left].
    rewrite lookup_insert_eq. intros [= <-]. right. splits; [lia|lia|lia|done]. }
  splits; [|intros sc d' Hd|by rewrite H3, zlen_zset].
  - intros sc d' Hd Hr. apply H1; [|done]. destruct (decide (sc0 = sc)) as [<-|Hn]; [|unfold E1; by rewrite setDictionary_other]. unfold E1, setDictionary, hasDictionary. rewrite Hd.
    rewrite (proj2 (Z.ltb_lt sc0 kNumClasses)) by lia. destruct (_ <=? _); [done|]. by destruct (_ || _).
  - destruct (H2 sc d' Hd) as [Hold|(? & ? & ?)]; [|eauto 6]. destruct (HE sc d' Hold) as [?|(? & ? & ->)]; [eauto|]. right. splits; [done|lia|lia|]. exists (b1 ++ b2), f3. by rewrite <- app_assoc.
Qed.

(** ** Files *)

Local Abbreviation load := (loadProfileFile kNumArenas alloc built).
Local Abbreviation save := (saveProfileFile kNumArenas).

(** A save that reaches its end, with every byte written. *)
Definition goes_through (E : SaveEnv) : bool := sv_enabled E && sv_path E && sv_tmp E && sv_renamed E.

(** The records of a file with a valid header. *)
Definition file_records (file : option (list Z)) : list Rec :=
  match file with
  | None => []
  | Some f => match fread 16 f with
              | None => []
              | Some (b, r) => if header_ok kNumArenas (get_header b) then records_of (Z.to_nat total) r else []
              end
  end.

(** Flags and records within their widths. *)
Definition file_typed (file : option (list Z)) : Prop :=
  forall f b r, file = Some f -> fread 16 f = Some (b, r) -> 0 <= flags (get_header b) < 2 ^ 32 /\ Forall rec_typed (records_of (Z.to_nat total) r).

Lemma bytes_typed f : Forall is_byte f -> file_typed (Some f).
Proof. intros H f' b r [= <-] E. apply fread_some in E as [-> _]. apply Forall_app in H as [H1 H2]. split; [apply (get_header_typed b H1)|by apply records_of_typed]. Qed.

Lemma file_records_length file : (length (file_records file) <= Z.to_nat total)%nat.
Proof. unfold file_records. repeat case_match; cbn; try lia. apply records_of_length. Qed.

Lemma file_records_typed file : file_typed file -> Forall rec_typed (file_records file).
Proof. intros H. destruct file as [f|]; [|constructor]. cbn. destruct (fread 16 f) as [[b r]|] eqn:E; [|constructor]. case_if; [|constructor]. by apply (H f b r). Qed.

Lemma put_file_read fl l ds : 0 <= fl < 2 ^ 32 ->
  exists b, fread 16 (put_file kNumArenas fl l ds) = Some (b, mjoin (map put_rec l) ++ ds ++ [kDictSectionEnd]) /\ header_ok kNumArenas (get_header b) = true /\ flags (get_header b) = fl.
Proof.
  intros H. eexists. unfold put_file. rewrite fread_app by apply put_header_length. split; [reflexivity|]. rewrite (wrap_small 16 kNumArenas) by lia. change (u16 kTotalBucketsPerArena) with kTotalBucketsPerArena.
  rewrite header_roundtrip by (constructor; cbn [magic version num_arenas num_classes flags]; unfold kProfileMagic, kProfileVersion; change kTotalBucketsPerArena with 44; lia). split; [|done]. unfold header_ok. cbn [magic version num_arenas num_classes]. by rewrite !Z.eqb_refl.
Qed.

Lemma put_file_records fl l ds : 0 <= fl < 2 ^ 32 -> Forall rec_typed l -> length l = Z.to_nat total ->
  file_records (Some (put_file kNumArenas fl l ds)) = l /\ file_typed (Some (put_file kNumArenas fl l ds)).
Proof.
  intros Hf T L. destruct (put_file_read fl l ds Hf) as (b & E & Hk & Hfl). cbn [file_records]. rewrite E, Hk, <- L. split; [by apply records_of_put|].
  intros f' b' r [= <-] E'. rewrite E in E'. injection E' as <- <-. rewrite Hfl, <- L, records_of_put; done.
Qed.

(** A process's buckets within their widths. *)
Record prof_typed (s : Prof) : Prop := { pt_rows : rows (workers s) total; pt_stats : Forall (Forall stats_typed) (workers s) }.

Lemma row_lookup ws n w : rows ws n -> 0 <= w < 8 -> exists r, ws !! Z.to_nat w = Some r /\ zget [] ws w = r /\ zlen r = n.
Proof.
  intros [H1 H2] Hw. destruct (lookup_lt_is_Some_2 ws (Z.to_nat w)) as [r Hr]; [lia|]. exists r. split; [done|]. split; [unfold zget; rewrite (proj2 (Z.leb_le 0 w)) by lia; by rewrite Hr|].
  rewrite Forall_forall in H2. by apply H2, (list_elem_of_lookup_2 _ (Z.to_nat w)).
Qed.

Lemma zget_typed r i : Forall stats_typed r -> stats_typed (zget fresh_stats r i).
Proof. intros H. unfold zget. destruct (0 <=? i); [|apply fresh_typed]. destruct (r !! Z.to_nat i) eqn:E; [|apply fresh_typed]. by apply (Forall_lookup_1 _ _ _ _ H E). Qed.

(** The record written for a bucket comes from one of the workers and has as
    many samples as any of them. *)
Lemma best_of_spec ws i : Forall (Forall stats_typed) ws -> stats_typed (best_of ws i) /\ forall r, r ∈ ws -> count (s_win (zget fresh_stats r i)) <= count (s_win (best_of ws i)).
Proof.
  intros T. unfold best_of. assert (G : forall l b, Forall (Forall stats_typed) l -> stats_typed b ->
    let m := foldl (fun best w => if count (s_win best) <? count (s_win (zget fresh_stats w i)) then zget fresh_stats w i else best) b l in
    stats_typed m /\ count (s_win b) <= count (s_win m) /\ forall r, r ∈ l -> count (s_win (zget fresh_stats r i)) <= count (s_win m)).
  { induction l as [|r l IH]; intros b Tl Tb m; subst m; cbn [foldl]; cbv zeta in *; [splits; [done|lia|intros r Hr; by apply elem_of_nil in Hr]|]. apply Forall_cons in Tl as [Tr Tl].
    destruct (Z.ltb_spec (count (s_win b)) (count (s_win (zget fresh_stats r i)))).
    - destruct (IH (zget fresh_stats r i) Tl (zget_typed r i Tr)) as (H1 & H2 & H3). splits; [done|lia|]. intros r' [->|Hr]%elem_of_cons; [lia|by apply H3].
    - destruct (IH b Tl Tb) as (H1 & H2 & H3). splits; [done|lia|]. intros r' [->|Hr]%elem_of_cons; [lia|by apply H3]. }
  destruct ws as [|r ws]; cbn [tail]; [split; [apply zget_typed; constructor|intros r Hr; by apply elem_of_nil in Hr]|]. apply Forall_cons in T as [Tr T].
  change (zget [] (r :: ws) 0) with r. destruct (G ws (zget fresh_stats r i) T (zget_typed r i Tr)) as (H1 & H2 & H3). split; [done|]. intros r' [->|Hr]%elem_of_cons; auto.
Qed.

Lemma mine_length s : length (mine kNumArenas s) = Z.to_nat total.
Proof. unfold mine. by rewrite length_map, length_seqZ. Qed.

Lemma mine_lookup s i : (i < Z.to_nat total)%nat -> mine kNumArenas s !! i = Some (serialize (best_of (workers s) (Z.of_nat i)), 0).
Proof. intros H. unfold mine. change (map ?f ?l) with (f <$> l). rewrite list_lookup_fmap, lookup_seqZ_lt by lia. cbn. by rewrite ?Z.add_0_l. Qed.

Lemma mine_typed s : prof_typed s -> Forall rec_typed (mine kNumArenas s).
Proof. intros [_ T]. apply Forall_forall. intros r (i & -> & _)%list_elem_of_fmap. apply serialize_typed, best_of_spec, T. Qed.

Lemma merge_length l : forall f, length (merge l f) = length l.
Proof. induction l as [|r l IH]; intros f; [done|]. cbn. destruct (fread 16 f) as [[b g]|]; cbn; by rewrite ?IH. Qed.

Definition better (r : Rec) (old : option Rec) : Rec := match old with Some d => if p_count r.1 <? p_count d.1 then d else r | None => r end.

Lemma merge_lookup l : forall f i, merge l f !! i = (fun r => better r (records_of (length l) f !! i)) <$> l !! i.
Proof.
  induction l as [|r l IH]; intros f i; [done|]. cbn [merge length records_of]. destruct (fread 16 f) as [[b g]|]; [|by destruct ((r :: l) !! i)]. destruct i as [|i]; [done|]. cbn. apply IH.
Qed.

Lemma better_typed r old : rec_typed r -> (forall d, old = Some d -> rec_typed d) -> rec_typed (better r old).
Proof. intros H1 H2. unfold better. destruct old; [|done]. case_if; auto. Qed.

(** What a save writes, over any old file. *)
Lemma save_spec V old now s : goes_through V = true -> sv_bytes V = None -> prof_typed s -> file_typed old ->
  exists f, save V old now s = Some f /\ file_typed (Some f) /\ length (file_records (Some f)) = Z.to_nat total /\
  forall i, (i < Z.to_nat total)%nat -> file_records (Some f) !! i = Some (better (serialize (best_of (workers s) (Z.of_nat i)), 0) (file_records old !! i)).
Proof.
  intros Hg Hby T To. unfold goes_through in Hg. rewrite !andb_true_iff in Hg. destruct Hg as [[[G1 G2] G3] G4]. unfold saveProfileFile. rewrite G1, G2, G3, G4, Hby. cbn [negb orb]. set (my := if external_pages_hot s then kProfileFlagExternalHot else 0).
  assert (G : exists fl l, merge_file kNumArenas old my (mine kNumArenas s) = (fl, l) /\ 0 <= fl < 2 ^ 32 /\ Forall rec_typed l /\ length l = Z.to_nat total /\
    forall i, (i < Z.to_nat total)%nat -> l !! i = Some (better (serialize (best_of (workers s) (Z.of_nat i)), 0) (file_records old !! i))).
  { assert (Hmy : 0 <= my < 2 ^ 32) by (unfold my, kProfileFlagExternalHot; case_if; lia). assert (Hm := mine_typed s T). assert (Hl := mine_length s).
    assert (Base : file_records old = [] -> 0 <= my < 2 ^ 32 /\ Forall rec_typed (mine kNumArenas s) /\ length (mine kNumArenas s) = Z.to_nat total /\
      forall i, (i < Z.to_nat total)%nat -> mine kNumArenas s !! i = Some (better (serialize (best_of (workers s) (Z.of_nat i)), 0) (file_records old !! i))).
    { intros ->. split; [done|]. split; [done|]. split; [done|]. intros i Hi. by rewrite mine_lookup. }
    destruct old as [f|]; cbn [merge_file]; [|eauto]. cbn [file_records] in *. destruct (fread 16 f) as [[b r]|] eqn:E; [|eauto]. destruct (header_ok kNumArenas (get_header b)) eqn:Hk; [|eauto].
    destruct (To f b r eq_refl E) as [Hf Hr]. eexists _, _. split; [reflexivity|]. split; [by apply lor_bound|].
    assert (Hlook : forall i, (i < Z.to_nat total)%nat -> merge (mine kNumArenas s) r !! i = Some (better (serialize (best_of (workers s) (Z.of_nat i)), 0) (records_of (Z.to_nat total) r !! i))).
    { intros i Hi. rewrite merge_lookup, Hl, mine_lookup by done. done. }
    split; [|by rewrite merge_length]. apply Forall_lookup. intros i x Hx. assert (Hi := lookup_lt_Some _ _ _ Hx). rewrite merge_length, Hl in Hi. rewrite (Hlook i Hi) in Hx. injection Hx as <-.
    apply better_typed; [apply serialize_typed, best_of_spec, T|]. intros d Hd. by apply (Forall_lookup_1 _ _ _ _ Hr Hd). }
  destruct G as (fl & l & -> & Hf & Tl & L & Hl). eexists. split; [reflexivity|]. destruct (put_file_records fl l (if sv_engine V then put_dicts (dicts s) else []) Hf Tl L) as [-> Ht]. auto.
Qed.
End Files.

(** ** What loading does to any bytes *)

Section Loading.
Context (kNumArenas : Z) (alloc built : Z -> bool).
Local Abbreviation total := (Profile.total kNumArenas).
Local Abbreviation load := (loadProfileFile kNumArenas alloc built).
Local Abbreviation frecords := (file_records kNumArenas).

(** Without a valid header nothing changes; with one, the buckets become those
    of the records. *)
Lemma load_cases engine f s :
  load true engine (Some f) s = s /\ frecords (Some f) = [] \/
  exists b r, fread 16 f = Some (b, r) /\ header_ok kNumArenas (get_header b) = true /\
    let s' := load true engine (Some f) s in
    workers s' = absorb_all 0 (frecords (Some f)) (workers s) /\
    external_pages_hot s' = external_pages_hot s /\
    external_hot_from_profile s' = external_hot_from_profile s || negb (Z.land (flags (get_header b)) kProfileFlagExternalHot =? 0) /\
    match (load_records (Z.to_nat total) 0 r (workers s)).1 with
    | None => dicts s' = dicts s /\ dict_train s' = dict_train s
    | Some rest => (exists c, r = c ++ rest) /\ (dicts s', dict_train s') = load_dicts alloc built (S (length rest)) engine rest (dicts s) (dict_train s)
    end.
Proof.
  cbn [file_records loadProfileFile negb]. destruct (fread 16 f) as [[b r]|] eqn:E; [|by left]. destruct (header_ok kNumArenas (get_header b)) eqn:Hk; [|by left]. right. exists b, r. split; [done|]. split; [done|].
  cbn [negb]. destruct (load_records_spec (Z.to_nat total) 0 r (workers s)) as [H1 H2]. cbn [workers dicts dict_train]. destruct (load_records (Z.to_nat total) 0 r (workers s)) as [rest ws]. cbn [fst snd] in *. rewrite <- H1.
  destruct rest as [rest|]; [|done]. cbn [with_workers dicts dict_train]. destruct (load_dicts alloc built _ engine rest (dicts s) (dict_train s)) as [E' t]. cbv zeta. by cbn.
Qed.

Lemma absorb_all_typed l : forall i ws, Forall rec_typed l -> Forall (Forall stats_typed) ws -> Forall (Forall stats_typed) (absorb_all i l ws).
Proof.
  induction l as [|r l IH]; intros i ws Tl T; [done|]. apply Forall_cons in Tl as [Tr Tl]. cbn. apply IH; [done|]. unfold absorb. apply Forall_map. eapply Forall_impl; [exact T|]. cbn. intros row Hrow.
  unfold zset. case_if; [|done]. apply Forall_insert; [done|]. destruct r as [p pad]. apply (deserialize_typed _ p pad); [by apply zget_typed|done].
Qed.

Lemma load_workers engine f s w i : 0 <= kNumArenas -> rows (workers s) total -> 0 <= w < 8 -> 0 <= i ->
  bucket (workers (load true engine (Some f) s)) w i =
  match frecords (Some f) !! Z.to_nat i with Some r => restored (bucket (workers s) w i) r | None => bucket (workers s) w i end.
Proof.
  intros Ha R Hw Hi. destruct (load_cases engine f s) as [[-> ->]|(b & r & _ & _ & -> & _)]; [done|]. pose proof (file_records_length kNumArenas (Some f)) as Hl.
  assert (0 <= total) by (unfold Profile.total; change kTotalBucketsPerArena with 44; lia).
  rewrite (absorb_all_bucket _ 0 _ total) by (done || unfold zlen; lia). rewrite (proj2 (Z.leb_le 0 i)), Z.sub_0_r by lia. done.
Qed.
End Loading.

(** C21: A profile file may hold any bytes.  With a header that is not valid it
    changes nothing.  Otherwise each bucket of each worker becomes the one of
    its record, or stays as it is where the file has ended; every field of
    every bucket stays within its type, with at most 64 samples in the window;
    dictionaries that are there stay, and one that is new is a run of bytes of
    the file, of at most 16 KiB and for a class that exists. *)
Theorem profile_load_typed (kNumArenas : Z) (alloc built : Z -> bool) (engine : bool) (f : list Z) (s : Prof) :
  0 < kNumArenas < 65536 -> Forall is_byte f -> prof_typed kNumArenas s ->
  let s' := loadProfileFile kNumArenas alloc built true engine (Some f) s in
  prof_typed kNumArenas s' /\
  ((forall b r, fread 16 f = Some (b, r) -> header_ok kNumArenas (get_header b) = false) -> s' = s) /\
  (forall w i, 0 <= w < 8 -> 0 <= i -> bucket (workers s') w i =
     match file_records kNumArenas (Some f) !! Z.to_nat i with Some r => restored (bucket (workers s) w i) r | None => bucket (workers s) w i end) /\
  (forall sc d, 0 <= sc < kNumClasses -> dicts s !! sc = Some d -> dicts s' !! sc = Some d) /\
  (forall sc d, dicts s' !! sc = Some d -> dicts s !! sc = Some d \/ (sc < kNumClasses /\ 0 < zlen d <= kDictCapacity /\ exists a c, f = a ++ d ++ c)).
Proof.
  intros Ha Hb [Hr Ht] s'. assert (Hc := load_cases kNumArenas alloc built engine f s). fold s' in Hc.
  split; [|split; [|split; [intros w i Hw Hi; apply load_workers; lia || done|]]].
  - destruct Hc as [[-> _]|(b & r & _ & _ & Hw & _)]; [done|]. split; rewrite Hw; [by apply absorb_all_rows|]. apply absorb_all_typed; [|done]. by apply file_records_typed, bytes_typed.
  - intros H. destruct Hc as [[-> _]|(b & r & E & Hk & _)]; [done|]. by rewrite (H b r E) in Hk.
  - destruct Hc as [[-> _]|(b & r & E & Hk & _ & _ & _ & Hd)]; [by split; [|left]|]. apply fread_some in E as [-> _].
    destruct (load_records _ 0 r (workers s)).1 as [rest|]; [|destruct Hd as [-> _]; by split; [|left]]. destruct Hd as [[c ->] Hd].
    pose proof (load_dicts_any alloc built (S (length rest)) engine rest (dicts s) (dict_train s)) as H. rewrite <- Hd in H. cbn [fst snd] in H. destruct H as (H1 & H2 & _). split; [auto|].
    intros sc d Hsc. destruct (H2 sc d Hsc) as [?|(? & ? & a & x & ->)]; [by left|]. right. split; [done|]. split; [done|]. exists (b ++ c ++ a), x. by rewrite <- !app_assoc.
Qed.

Definition fresh_prof : Prof := mkProfile (replicate 8 (replicate 44 fresh_stats)) ∅ (replicate 36 no_train) false false false.

Lemma fresh_prof_typed : prof_typed 1 fresh_prof.
Proof.
  split; [split; [done|]; by apply Forall_replicate|]. apply Forall_replicate, Forall_replicate, fresh_typed.
Qed.

(** A file that ends within its second record. *)
Lemma profile_load_typed_witness :
  let f := put_header (mkHeader kProfileMagic kProfileVersion 1 44 0) ++ put_rec (mkPersist 255 7 65535 0 0 0 0 0 0 255 0, 0) ++ [1; 2] in
  let s' := loadProfileFile 1 (fun _ => true) (fun _ => true) true true (Some f) fresh_prof in
  prof_typed 1 s' /\ count (s_win (bucket (workers s') 5 0)) = 64 /\ bucket (workers s') 5 1 = fresh_stats.
Proof.
  assert (Hb : Forall is_byte (put_header (mkHeader kProfileMagic kProfileVersion 1 44 0) ++ put_rec (mkPersist 255 7 65535 0 0 0 0 0 0 255 0, 0) ++ [1; 2])).
  { vm_compute. repeat (constructor; [split; [discriminate|reflexivity]|]). constructor. }
  destruct (profile_load_typed 1 (fun _ => true) (fun _ => true) true _ fresh_prof ltac:(lia) Hb fresh_prof_typed) as (H1 & _ & H3 & _).
  split; [exact H1|]. rewrite (H3 5 0 ltac:(lia) ltac:(lia)), (H3 5 1 ltac:(lia) ltac:(lia)). split; reflexivity.
Defined.

(** ** Save and load *)

(** What a bucket [b'] of the loading process takes over from the bucket [b] of the
    saving one: half of its samples with their mean, the cost averages cut at 16 bits with half of their
    counts, the efficiency, the hint, the thrash rate, the better tier and whether pages stay cold; the
    rest is as it was in [b0]. *)
Definition mean_x256 (b : SizeClassStats) : Z := u16 (u32 (sum (s_win b) * 256) / count (s_win b)).
Definition thrash_x255 (b : SizeClassStats) : Z :=
  if compress_count (s_bud b) <=? 0 then 0 else Z.min 255 (u32 (decompress_count (s_bud b) * 255) / compress_count (s_bud b)).

Record takes_over (b0 b b' : SizeClassStats) : Prop := {
  to_count : count (s_win b') = count (s_win b) / 2;
  to_sum : sum (s_win b') = sum (s_win b) * (count (s_win b) / 2) / count (s_win b);
  to_ratios : forall i, 0 <= i < count (s_win b') -> zget 0 (ratios (s_win b')) i = u8 (sum (s_win b') / count (s_win b'));
  to_costs : forall t, 0 <= t < 2 -> zget 0 (cost_ema_x16 (s_costs b')) t = Z.min 65535 (zget 0 (cost_ema_x16 (s_costs b)) t) /\
    zget 0 (cost_count (s_costs b')) t = zget 0 (cost_count (s_costs b)) t / 2;
  to_efficiency : efficiency_x256 (s_bud b') = efficiency_x256 (s_bud b);
  to_hint : persist_hint (s_prof b') =
    if count (s_win b) <? 8 then 0
    else if mean_x256 b <? 13 then 1
    else if (4 <=? zget 0 (cost_count (s_costs b)) 0) && (4 <=? zget 0 (cost_count (s_costs b)) 1) &&
            (u32 (4 * zget 0 (cost_ema_x16 (s_costs b)) 0) <=? zget 0 (cost_ema_x16 (s_costs b)) 1) && (mean_x256 b <? 64) then 2 else 0;
  to_thrash : profile_thrash_rate (s_prof b') = thrash_x255 b;
  to_tier : let p t := zget 0 (arm_pulls (s_arms b)) t in
    profile_best_tier (s_prof b') = if u32 (2 * p 1 + 4) <? p 0 then 0 else if u32 (2 * p 0 + 4) <? p 1 then 1 else 255;
  to_cold : profile_stable_cold (s_prof b') = if (8 <=? compress_count (s_bud b)) && (thrash_x255 b <? 26) then 1 else 0;
  to_kept : s_arms b' = s_arms b0 /\ selections b' = selections b0 /\ s_red b' = s_red b0 /\ bytes_saved_total (s_bud b') = bytes_saved_total (s_bud b0) /\
    time_cost_total_us (s_bud b') = time_cost_total_us (s_bud b0) /\ compress_count (s_bud b') = compress_count (s_bud b0) /\
    decompress_count (s_bud b') = decompress_count (s_bud b0)
}.

Lemma halves n s : 0 <= n <= 64 -> 0 <= s < 65536 ->
  (if 0 <? n / 2 then u16 (s * (n / 2) / Z.max n 1) else 0) = s * (n / 2) / n.
Proof.
  intros Hn Hs. case_if.
  - rewrite Z.max_l by dlia. apply wrap_small. split; [apply Z.div_pos; dnia|]. apply Z.div_lt_upper_bound; dnia.
  - assert (n / 2 = 0) as -> by dlia. rewrite Z.mul_0_r. by rewrite Zdiv_0_l.
Qed.

Lemma restored_takes_over b0 b : stats_typed b -> takes_over b0 b (restored b0 (serialize b, 0)).
Proof.
  intros [_ (_ & Hc & Hs) (e0 & e1 & n0 & n1 & Ec & E0 & E1 & N0 & N1) _ _].
  assert (Hw : (kWindow <? count (s_win b)) = false) by (unfold kWindow; lia).
  assert (Hsum : sum (s_win (restored b0 (serialize b, 0))) = sum (s_win b) * (count (s_win b) / 2) / count (s_win b)).
  { cbn [restored set_hint s_win sum deserialize serialize p_count p_sum fst]. rewrite Hw. by apply halves. }
  assert (Hcnt : count (s_win (restored b0 (serialize b, 0))) = count (s_win b) / 2).
  { cbn [restored set_hint s_win count deserialize serialize p_count p_sum fst]. by rewrite Hw. }
  constructor; [exact Hcnt|exact Hsum| | |done| | |done| |done].
  - rewrite Hsum, Hcnt. intros i Hi. cbn [restored set_hint s_win ratios deserialize serialize p_count p_sum fst]. rewrite Hw.
    rewrite (halves _ _ Hc Hs), (proj2 (Z.ltb_lt 0 _)) by lia. unfold zget. rewrite (proj2 (Z.leb_le 0 i)) by lia.
    rewrite lookup_app_l by (rewrite length_replicate; lia). by rewrite lookup_replicate_2 by lia.
  - intros t Ht. assert (t = 0 \/ t = 1) as [-> | ->] by lia; cbn [restored set_hint s_costs cost_ema_x16 cost_count deserialize serialize fst
      cost_ema_x16_t0 cost_ema_x16_t1 cost_count_t0 cost_count_t1]; rewrite Ec; (split; [|done]); cbn [cost_ema_x16];
      repeat match goal with
      | |- context [zget 0 [?x; ?y] 0] => change (zget 0 [x; y] 0) with x
      | |- context [zget 0 [?x; ?y] 1] => change (zget 0 [x; y] 1) with y end; case_if; lia.
  - cbn [restored set_hint s_prof persist_hint serialize decision_hint fst]. unfold mean_x256. repeat case_if; try lia.
  - cbn [restored set_hint s_prof profile_thrash_rate deserialize serialize thrash_rate fst]. unfold thrash_x255. repeat case_if; lia.
  - cbn [restored set_hint s_prof profile_stable_cold deserialize serialize stable_cold fst]. unfold thrash_x255. repeat case_if; lia.
Qed.


Definition one_sample : SizeClassStats := mkStats (mkWin (replicate 64 128) 2 2 256) (mkCosts [160; 320] [3; 4]) fresh_arms 0 (mkRed 0 0) (mkBud 0 0 77 0 0 0) (mkProf 0 0 255 0).
Definition saver : Prof := mkProfile ([replicate 44 fresh_stats; one_sample :: replicate 43 fresh_stats] ++ replicate 6 (replicate 44 fresh_stats)) {[3 := [1; 2; 3]]} (replicate 36 no_train) false false true.

Lemma saver_typed : prof_typed 1 saver.
Proof.
  assert (T : stats_typed one_sample).
  { constructor; cbn [one_sample s_win ratios head count sum s_bud efficiency_x256 s_prof persist_hint profile_stable_cold profile_best_tier profile_thrash_rate s_costs]; try lia.
    - split; [done|]. apply Forall_replicate. lia.
    - exists 160, 320, 3, 4. split; [done|]. lia. }
  split; [split; [done|by repeat constructor]|]. constructor; [apply Forall_replicate, fresh_typed|]. constructor; [constructor; [done|apply Forall_replicate, fresh_typed]|]. apply Forall_replicate, Forall_replicate, fresh_typed.
Qed.


(** ** Several processes *)

Lemma save_stays kNumArenas V seen now s : goes_through V = false -> saveProfileFile kNumArenas V seen now s = now.
Proof.
  unfold goes_through, saveProfileFile. destruct (sv_enabled V), (sv_path V); try done. cbn [andb orb negb]. destruct (merge_file _ _ _ _) as [fl l].
  destruct (sv_tmp V), (sv_renamed V); done.
Qed.

(** The file after processes saved to it one after the other, each holding the lock. *)
Definition saves (kNumArenas : Z) (old : option (list Z)) (l : list (SaveEnv * Prof)) : option (list Z) :=
  foldl (fun f x => saveProfileFile kNumArenas x.1 f f x.2) old l.

Definition full_saves (kNumArenas : Z) (l : list (SaveEnv * Prof)) : Prop := Forall (fun x => prof_typed kNumArenas x.2 /\ sv_bytes x.1 = None) l.

Lemma saves_keep kNumArenas i : 0 < kNumArenas < 65536 -> (i < Z.to_nat (total kNumArenas))%nat -> forall l old, full_saves kNumArenas l -> file_typed kNumArenas old ->
  let rs f : option Rec := file_records kNumArenas f !! i in
  forall r : Rec, rs (saves kNumArenas old l) = Some r ->
  (rs old = Some r \/ exists x, x ∈ l /\ goes_through x.1 = true /\ r = (serialize (best_of (workers x.2) (Z.of_nat i)), 0)) /\
  (forall d, rs old = Some d -> p_count d.1 <= p_count r.1) /\
  (forall x, x ∈ l -> goes_through x.1 = true -> count (s_win (best_of (workers x.2) (Z.of_nat i))) <= p_count r.1).
Proof.
  intros Ha Hi. induction l as [|[V s] l IH]; intros old Tl To rs r; cbn [saves foldl fst snd].
  - intros Hr. split; [by left|]. split; [intros d Hd; rewrite Hd in Hr; injection Hr as ->; lia|]. intros s Hs. by apply elem_of_nil in Hs.
  - apply Forall_cons in Tl as [[Ts Hby] Tl]. cbn [fst snd] in Ts, Hby. destruct (goes_through V) eqn:HV.
    2:{ rewrite save_stays by done. intros Hr. destruct (IH old Tl To r Hr) as (H1 & H2 & H3). split; [|split; [done|]].
        - destruct H1 as [?|(x & ? & ? & ?)]; [by left|]. right. exists x. split; [by apply elem_of_cons; right|done].
        - intros x [->|Hx]%elem_of_cons Hg; [cbn in Hg; congruence|by apply H3]. }
    destruct (save_spec kNumArenas Ha V old old s HV Hby Ts To) as (f & Ef & Tf & _ & Hf). specialize (Hf i Hi). rewrite Ef. intros Hr.
    destruct (IH (Some f) Tl Tf r Hr) as (H1 & H2 & H3). cbv beta zeta in H1, H2, H3. specialize (H2 _ Hf). unfold better in Hf, H2.
    assert (Hmine : forall s', p_count (serialize s') = count (s_win s')) by done.
    split; [|split].
    + destruct H1 as [H1|(x & Hx & Hg & ->)]; [|right; exists x; split; [by apply elem_of_cons; right|done]]. rewrite Hf in H1. injection H1 as <-.
      destruct (file_records kNumArenas old !! i) as [d|] eqn:Eo; [case_if|].
      * left. exact Eo.
      * right. exists (V, s). split; [by apply elem_of_cons; left|done].
      * right. exists (V, s). split; [by apply elem_of_cons; left|done].
    + intros d Hd. unfold rs in Hd. rewrite Hd in H2. cbn [fst] in H2. case_if_in H2; cbn [fst] in *; lia.
    + intros x [->|Hx]%elem_of_cons Hg; [|by apply H3]. cbn [snd]. destruct (file_records kNumArenas old !! i); [case_if_in H2|]; cbn [fst] in *; rewrite ?Hmine in *; lia.
Qed.

Lemma saves_last kNumArenas : 0 < kNumArenas < 65536 -> forall l old, full_saves kNumArenas l -> file_typed kNumArenas old ->
  length (file_records kNumArenas old) = Z.to_nat (total kNumArenas) \/ Exists (fun x => goes_through x.1 = true) l ->
  length (file_records kNumArenas (saves kNumArenas old l)) = Z.to_nat (total kNumArenas).
Proof.
  intros Ha. induction l as [|[V s] l IH]; intros old Tl To Hne; cbn [saves foldl fst snd].
  - destruct Hne as [?|[]%Exists_nil]. done.
  - apply Forall_cons in Tl as [[Ts Hby] Tl]. cbn [fst snd] in Ts, Hby. destruct (goes_through V) eqn:HV.
    + destruct (save_spec kNumArenas Ha V old old s HV Hby Ts To) as (f & Ef & Tf & Lf & _). rewrite Ef. apply (IH (Some f)); [done|done|by left].
    + rewrite save_stays by done. apply IH; [done|done|]. destruct Hne as [?|[Hg|?]%Exists_cons]; [by left| |by right]. cbn in Hg. congruence.
Qed.

(** A save whose bytes did not all reach the disk replaces the profile all the same: over a
    file with two samples in its first bucket, a full disk leaves no record. *)
Lemma full_disk_loses_profile :
  let good := saves 1 None [(mkSave true true true true None true, saver)] in
  (exists r, file_records 1 good !! O = Some r /\ p_count r.1 = 2) /\
  file_records 1 (saves 1 good [(mkSave true true true true (Some 10%nat) true, saver)]) = [].
Proof. cbv zeta. split; [eexists; split; vm_compute; reflexivity|vm_compute; reflexivity]. Qed.

(** C20: Processes that save to one file, each holding the lock, never lose what another one learned, as long as
    every byte written reaches the disk ([full_disk_loses_profile] shows what happens otherwise): after any sequence of
    saves over any old file, of which at least one went through (enabled, its temporary file
    opened and renamed; the others leave the file as it is), each bucket has a record,
    that record is the old one or the one of a process whose save went through, unmixed, and it has at
    least as many samples as the old one and as each worker of each such process. *)
Theorem profile_merge_keeps (kNumArenas : Z) (old : option (list Z)) (l : list (SaveEnv * Prof)) (i : nat) :
  0 < kNumArenas < 65536 -> full_saves kNumArenas l -> Exists (fun x => goes_through x.1 = true) l -> (forall f, old = Some f -> Forall is_byte f) ->
  (i < Z.to_nat (total kNumArenas))%nat ->
  exists r, file_records kNumArenas (saves kNumArenas old l) !! i = Some r /\
  (file_records kNumArenas old !! i = Some r \/
   exists x, x ∈ l /\ goes_through x.1 = true /\ r = (serialize (best_of (workers x.2) (Z.of_nat i)), 0)) /\
  (forall d, file_records kNumArenas old !! i = Some d -> p_count d.1 <= p_count r.1) /\
  (forall x w, x ∈ l -> goes_through x.1 = true -> 0 <= w < 8 -> count (s_win (bucket (workers x.2) w (Z.of_nat i))) <= p_count r.1).
Proof.
  intros Ha Tl Hne Hb Hi. assert (To : file_typed kNumArenas old). { destruct old as [f|]; [by apply bytes_typed, Hb|]. intros f b r [=]. }
  destruct (lookup_lt_is_Some_2 (file_records kNumArenas (saves kNumArenas old l)) i) as [r Hr]; [by rewrite saves_last by auto|].
  destruct (saves_keep kNumArenas i Ha Hi l old Tl To r Hr) as (H1 & H2 & H3). exists r. split; [done|]. split; [done|]. split; [done|].
  intros x w Hx Hg Hw. unfold full_saves in Tl. rewrite Forall_forall in Tl. destruct (Tl x Hx) as [[Rs Ts] _]. etransitivity; [|by apply H3].
  destruct (row_lookup _ _ w Rs Hw) as (row & Hrow & Eq & _). unfold bucket. rewrite Eq.
  by apply best_of_spec, (list_elem_of_lookup_2 _ _ _ Hrow).
Qed.

Lemma profile_merge_keeps_witness :
  exists r, file_records 1 (saves 1 (Some [7]) [(mkSave true true false true None true, saver); (mkSave true true true true None false, fresh_prof)]) !! O = Some r /\ 2 <= p_count r.1.
Proof.
  assert (T : full_saves 1 [(mkSave true true false true None true, saver); (mkSave true true true true None false, fresh_prof)])
    by (constructor; [split; [exact saver_typed|reflexivity]|constructor; [split; [exact fresh_prof_typed|reflexivity]|constructor]]).
  assert (Hb : forall f, Some [7] = Some f -> Forall is_byte f) by (intros f [= <-]; constructor; [split; [discriminate|reflexivity]|constructor]).
  destruct (profile_merge_keeps 1 (Some [7]) _ O ltac:(lia) T ltac:(constructor; reflexivity) Hb ltac:(vm_compute; lia)) as (r & H1 & _ & _ & H4).
  exists r. split; [exact H1|]. exact (H4 (mkSave true true false true None true, saver) 1 ltac:(apply elem_of_cons; left; reflexivity) ltac:(reflexivity) ltac:(lia)).
Defined.
