(* ===== verification/Calibration.v ===== *)
(** * Policy configuration and calibration (src/compress/compression_roi.h)

    How the cost model gets its constants: environment variables, the measured
    or stored throughputs, the profiles built from them, and the calibration
    file.  A file is its text.  What the clock and the codecs report, whether
    the buffers could be allocated and the contents of the file system are
    arguments; [std::sort], [printf] and the number parsers of the C library are
    written out. *)

From Stdlib Require Import String Ascii SpecFloat.
From S2P Require Import Prelude BitOps Config Double Stats Engine PageWorld Roi.

#[local] Open Scope Z_scope.

(** ** Numbers and text *)

Definition quote : ascii := ascii_of_nat 34.
Definition newline : ascii := ascii_of_nat 10.
Definition tab : ascii := ascii_of_nat 9.
Definition nul : ascii := ascii_of_nat 0.
Definition text1 (c : ascii) : string := String c EmptyString.

Definition digit_char (d : Z) : ascii := ascii_of_nat (48 + Z.to_nat d).

(** [%u] *)
Fixpoint dec_aux (fuel : nat) (n : Z) (acc : string) : string :=
  match fuel with
  | O => acc
  | S f => let acc := String (digit_char (n mod 10)) acc in if n <? 10 then acc else dec_aux f (n / 10) acc
  end.
Definition dec (n : Z) : string := dec_aux (S (Z.to_nat (Z.log2 n))) n EmptyString.

(** The last [k] digits. *)
Fixpoint fixed (k : nat) (n : Z) (acc : string) : string :=
  match k with
  | O => acc
  | S k => fixed k (n / 10) (String (digit_char (n mod 10)) acc)
  end.

(** [n / d] to the nearest integer, ties to even. *)
Definition round_div (n d : Z) : Z :=
  let q := n / d in
  let r := n mod d in
  if 2 * r <? d then q else if d <? 2 * r then q + 1 else if Z.even q then q else q + 1.

(** The value in millionths. *)
Definition millionths (x : double) : Z :=
  match x with
  | S754_finite _ m e => if 0 <=? e then Zpos m * 2 ^ e * 10 ^ 6 else round_div (Zpos m * 10 ^ 6) (2 ^ (- e))
  | _ => 0
  end.

Definition negative (x : double) : bool := match x with S754_finite s _ _ | S754_zero s | S754_infinity s => s | S754_nan => false end.

(** [%.6f] *)
Definition fmt6 (x : double) : string :=
  let sign := if negative x then text1 "-" else EmptyString in
  match x with
  | S754_infinity _ => sign ++ "inf"
  | S754_nan => "nan"
  | _ => sign ++ dec (millionths x / 10 ^ 6) ++ String "." (fixed 6 (millionths x mod 10 ^ 6) EmptyString)
  end%string.

(** The double nearest to [n / d]: the quotient with at least 60 bits and a
    sticky bit, rounded once. *)
Definition dratio (n d : Z) : double :=
  if n =? 0 then S754_zero false
  else
    let s := Z.max 0 (60 + Z.log2 d - Z.log2 n) in
    let q := n * 2 ^ s / d in
    let sticky := if n * 2 ^ s mod d =? 0 then 0 else 1 in
    binary_normalize 53 1024 (2 * q + sticky) (- (s + 1)) false.

(** A run of digits appended to [acc], its length, and what follows. *)
Fixpoint scan_digits (s : string) (acc cnt : Z) : Z * Z * string :=
  match s with
  | String c r => match digit_val c with Some d => scan_digits r (acc * 10 + d) (cnt + 1) | None => (acc, cnt, s) end
  | EmptyString => (acc, cnt, s)
  end.

(** [strtod] of decimal numbers; the hexadecimal form and the names of infinity
    and of not-a-number are left out. *)
Definition strtod (s : string) : double :=
  let s := skip_space s in
  let '(neg, s) := match s with
                   | String c r => if Ascii.eqb c "-" then (true, r) else if Ascii.eqb c "+" then (false, r) else (false, s)
                   | EmptyString => (false, s)
                   end in
  let '(m, c1, s) := scan_digits s 0 0 in
  let '(m, c2, s) := match s with
                     | String c r => if Ascii.eqb c "." then scan_digits r m 0 else (m, 0, s)
                     | EmptyString => (m, 0, s)
                     end in
  if c1 + c2 =? 0 then S754_zero false
  else
    let e := match s with
             | String c r =>
               if Ascii.eqb c "e" || Ascii.eqb c "E" then
                 match r with
                 | String c' r' =>
                   if Ascii.eqb c' "-" then - (scan_digits r' 0 0).1.1 else if Ascii.eqb c' "+" then (scan_digits r' 0 0).1.1 else (scan_digits r 0 0).1.1
                 | EmptyString => 0
                 end
               else 0
             | EmptyString => 0
             end in
    let v := if 0 <=? e - c2 then dratio (m * 10 ^ (e - c2)) 1 else dratio m (10 ^ (c2 - e)) in
    if neg then SFopp v else v.

(** [strstr]: the text from the first occurrence on. *)
Fixpoint strstr (key s : string) : option string :=
  if String.prefix key s then Some s
  else match s with
       | EmptyString => None
       | String _ r => strstr key r
       end.

Fixpoint drop_chars (n : nat) (s : string) : string :=
  match n, s with
  | S n, String _ r => drop_chars n r
  | _, _ => s
  end.

(** ** Configuration *)

(** Compile-time choices. *)
(* include/smash/config.h:536-569 kUseLz4FastTier *)
Record Build := mkBuild { kUseLz4FastTier : bool; kDeepTierEnabled : bool }.
Definition default_build : Build := mkBuild false false.

Definition kZstdFastLevel : Z := 1.

Definition Env : Type := string -> option string.

(* src/compress/compression_roi.h:55-58 roiEnvInt *)
Definition roiEnvInt (env : Env) (name : string) (default_val : Z) : Z :=
  match env name with Some v => atoi v | None => default_val end.

(* src/compress/compression_roi.h:60-63 roiEnvDouble *)
Definition roiEnvDouble (env : Env) (name : string) (default_val : double) : double :=
  match env name with Some v => strtod v | None => default_val end.

(* src/compress/compression_roi.h:307-314 ROIConfig::CalData *)
Record CalData := mkCal {
  fast_comp_hi : Z; fast_comp_lo : Z; fast_decomp_hi : Z; fast_decomp_lo : Z;
  deep_comp_hi : Z; deep_comp_lo : Z; deep_decomp_hi : Z; deep_decomp_lo : Z;
  fast_ratio_zeros : double; fast_ratio_random : double; deep_ratio_zeros : double; deep_ratio_random : double
}.

Definition cal_default : CalData := mkCal 2000 100 4400 1600 700 45 3800 1100 (dlit 11 3) (dZ 1) (dlit 10 3) (dZ 1).

(** [c_profiles] is the array of four, of which the first [num_profiles] count. *)
(* src/compress/compression_roi.h:154-204 ROIConfig *)
Record ROIConfig := mkRoiConfig {
  c_roi_threshold : Z; c_min_compress_ratio : double; c_cold_ticks_floor : Z; c_very_cold_ticks : Z;
  c_recompress_backoff : bool; c_softdirty_roi : bool;
  c_profiles : list AlgoProfile; num_profiles : Z;
  c_cold_ticks_overridden : bool; very_cold_ticks_overridden : bool; initialized : bool;
  use_ucb : bool; ucb_variant_v : bool; c_ucb_min_pulls : Z; c_ucb_warmstart : bool; c_ucb_force_deep_every : Z;
  cal_ : CalData
}.

Definition config_default : ROIConfig :=
  mkRoiConfig 1024 (dlit 75 2) 10 60 true false (replicate 4 no_profile) 0 false false false false false 4 false 0 cal_default.

Definition with_profiles (c : ROIConfig) (ps : list AlgoProfile) (n : Z) : ROIConfig :=
  mkRoiConfig (c_roi_threshold c) (c_min_compress_ratio c) (c_cold_ticks_floor c) (c_very_cold_ticks c) (c_recompress_backoff c) (c_softdirty_roi c) ps n
    (c_cold_ticks_overridden c) (very_cold_ticks_overridden c) (initialized c) (use_ucb c) (ucb_variant_v c) (c_ucb_min_pulls c) (c_ucb_warmstart c) (c_ucb_force_deep_every c) (cal_ c).
Definition with_cal (c : ROIConfig) (d : CalData) : ROIConfig :=
  mkRoiConfig (c_roi_threshold c) (c_min_compress_ratio c) (c_cold_ticks_floor c) (c_very_cold_ticks c) (c_recompress_backoff c) (c_softdirty_roi c) (c_profiles c) (num_profiles c)
    (c_cold_ticks_overridden c) (very_cold_ticks_overridden c) (initialized c) (use_ucb c) (ucb_variant_v c) (c_ucb_min_pulls c) (c_ucb_warmstart c) (c_ucb_force_deep_every c) d.

(** What the decisions of [Roi] read. *)
Definition decisions (c : ROIConfig) : RoiCfg :=
  mkRoi (c_cold_ticks_floor c) (c_cold_ticks_overridden c) (c_roi_threshold c) (take (Z.to_nat (num_profiles c)) (c_profiles c))
    (use_ucb c) (c_ucb_min_pulls c) (ucb_variant_v c) (c_ucb_force_deep_every c) (c_ucb_warmstart c).

Section Config.
Context `{PageGeometry} (build : Build) (env : Env).

(* src/compress/compression_roi.h:320-374 ROIConfig::buildProfiles *)
Definition buildProfiles (c : ROIConfig) : ROIConfig :=
  let d := cal_ c in
  let cap255 x := u8 (if 255 <? x then 255 else x) in
  let fast := mkProfile (if kUseLz4FastTier build then LZ4 else ZSTD) (if kUseLz4FastTier build then 0 else kZstdFastLevel)
                (fast_comp_hi d) (fast_comp_lo d) (fast_decomp_hi d) (fast_decomp_lo d) (cap255 (c_cold_ticks_floor c)) 1 1 in
  let c := with_profiles c (zset (c_profiles c) 0 fast) 1 in
  if kDeepTierEnabled build then
    let '(scale_num, scale_den) :=
      if dlt (dlit 1 3) (fast_ratio_zeros d) && dlt (dlit 1 3) (deep_ratio_zeros d) then
        let fast_sav := dsub (dZ 1) (fast_ratio_zeros d) in
        let deep_sav := dsub (dZ 1) (deep_ratio_zeros d) in
        if dlt (dlit 1 2) fast_sav then
          let scale := ddiv deep_sav fast_sav in
          if dle (dlit 15 1) scale then (3, 2) else if dle (dlit 13 1) scale then (4, 3) else if dle (dlit 11 1) scale then (11, 10) else (1, 1)
        else (1, 1)
      else (1, 1) in
    let deep := mkProfile ZSTD kZstdDeepLevel (deep_comp_hi d) (deep_comp_lo d) (deep_decomp_hi d) (deep_decomp_lo d)
                  (cap255 (c_very_cold_ticks c)) scale_num scale_den in
    with_profiles c (zset (c_profiles c) 1 deep) 2
  else c.

(** ** Measuring *)

(** The words of the random page. *)
(* src/compress/compression_roi.h:391-401 ROIConfig::calibrate *)
Fixpoint random_words (n : nat) (rng : Z) : list Z :=
  match n with
  | O => []
  | S n =>
    let rng := Z.lxor rng (Z.shiftr rng 30) in
    let rng := u64 (rng * 0xBF58476D1CE4E5B9) in
    let rng := Z.lxor rng (Z.shiftr rng 27) in
    let rng := u64 (rng * 0x94D049BB133111EB) in
    let rng := Z.lxor rng (Z.shiftr rng 31) in
    rng :: random_words n rng
  end.

(** The times of ten runs each in microseconds, and the compressed size, 0 on
    failure. *)
Record Bench := mkBench { comp_times : list double; decomp_times : list double; comp_size : Z }.

(** [codecs level page] measures zstd at the level, or LZ4 at level 0.  [None]:
    a buffer or a context is missing. *)
Definition Measure : Type := option (Z -> list Z -> Bench).

Fixpoint insert_sorted (x : double) (l : list double) : list double :=
  match l with
  | [] => [x]
  | y :: r => if dlt x y then x :: l else y :: insert_sorted x r
  end.
Definition median (l : list double) : double := nth 5 (foldr insert_sorted [] l) (dZ 0).

(* src/compress/compression_roi.h:489-494 ROIConfig::calibrate *)
Definition toMBps (us : double) : Z :=
  if dle us (dlit 1 3) then 60000
  else
    let mbs := ddiv (dZ kPageSize) us in
    u16 (dtrunc (if dlt (dZ 60000) mbs then dZ 60000 else mbs)).

(* src/compress/compression_roi.h:376-528 ROIConfig::calibrate *)
Definition calibrate (engine : Measure) (c : ROIConfig) : ROIConfig :=
  match engine with
  | None => buildProfiles c
  | Some bench =>
    let words := Z.to_nat (kPageSize / 8) in
    let zeros_page := replicate words 0 in
    let random_page := random_words words 0xDEADBEEFCAFE1234 in
    let fast := if kUseLz4FastTier build then 0 else kZstdFastLevel in
    let ratio b := if 0 <? comp_size b then ddiv (dZ (comp_size b)) (dZ kPageSize) else dZ 1 in
    let fz := bench fast zeros_page in
    let fr := bench fast random_page in
    let dz := bench kZstdDeepLevel zeros_page in
    let dr := bench kZstdDeepLevel random_page in
    let hi f b := toMBps (median (f b)) in
    buildProfiles (with_cal c (mkCal (hi comp_times fz) (hi comp_times fr) (hi decomp_times fz) (hi decomp_times fr)
                                 (hi comp_times dz) (hi comp_times dr) (hi decomp_times dz) (hi decomp_times dr)
                                 (ratio fz) (ratio fr) (ratio dz) (ratio dr)))
  end.

(* src/compress/compression_roi.h:530-555 ROIConfig::applyEnvOverrides *)
Definition applyEnvOverrides (c : ROIConfig) : ROIConfig :=
  let rate name old := match env name with Some v => u16 (atoi v) | None => old end in
  let override i ch cl dh dl c :=
    let p := zget no_profile (c_profiles c) i in
    with_profiles c (zset (c_profiles c) i
      (mkProfile (p_algo p) (zstd_level p) (rate ch (comp_mbs_hi p)) (rate cl (comp_mbs_lo p)) (rate dh (decomp_mbs_hi p)) (rate dl (decomp_mbs_lo p))
         (min_cold_ticks p) (ratio_scale_num p) (ratio_scale_den p))) (num_profiles c) in
  let c := if 1 <=? num_profiles c
           then override 0 "SMASH_FAST_COMP_MBS_HI"%string "SMASH_FAST_COMP_MBS_LO"%string "SMASH_FAST_DECOMP_MBS_HI"%string "SMASH_FAST_DECOMP_MBS_LO"%string c else c in
  if 2 <=? num_profiles c
  then override 1 "SMASH_DEEP_COMP_MBS_HI"%string "SMASH_DEEP_COMP_MBS_LO"%string "SMASH_DEEP_DECOMP_MBS_HI"%string "SMASH_DEEP_DECOMP_MBS_LO"%string c else c.

(** ** The calibration file *)

Definition quoted (key : string) : string := String quote (key ++ text1 quote)%string.

(** Past the next colon, if there is one. *)
Fixpoint after_colon (s : string) : string :=
  match s with
  | EmptyString => EmptyString
  | String c r => if Ascii.eqb c ":" then r else after_colon r
  end.

Fixpoint skip_blank (s : string) : string :=
  match s with
  | String c r => if Ascii.eqb c " " || Ascii.eqb c tab then skip_blank r else s
  | EmptyString => EmptyString
  end.

Definition value_at (key buf : string) : option string :=
  option_map (fun p => skip_blank (after_colon (drop_chars (String.length key) p))) (strstr key buf).

(* src/compress/compression_roi.h:567-575 ROIConfig::loadCalibrationFile *)
Definition extractUint (buf key : string) : Z := match value_at (quoted key) buf with Some p => atoi p | None => -1 end.
(* src/compress/compression_roi.h:576-584 ROIConfig::loadCalibrationFile *)
Definition extractDouble (buf key : string) : double := match value_at (quoted key) buf with Some p => strtod p | None => dZ (-1) end.

(** The first 4095 bytes up to a null. *)
Fixpoint c_buffer (n : nat) (s : string) : string :=
  match n, s with
  | S n, String c r => if Ascii.eqb c nul then EmptyString else String c (c_buffer n r)
  | _, _ => EmptyString
  end.

(** A missing or negative value leaves the old one. *)
(* src/compress/compression_roi.h:586-612 ROIConfig::loadCalibrationFile *)
Definition read_cal (buf : string) (d : CalData) : CalData :=
  let uint key old := let v := extractUint buf key in if 0 <=? v then u16 v else old in
  let real key old := let x := extractDouble buf key in if dle (dZ 0) x then x else old in
  mkCal
    (uint "fast_comp_mbs_hi"%string (fast_comp_hi d)) (uint "fast_comp_mbs_lo"%string (fast_comp_lo d))
    (uint "fast_decomp_mbs_hi"%string (fast_decomp_hi d)) (uint "fast_decomp_mbs_lo"%string (fast_decomp_lo d))
    (uint "deep_comp_mbs_hi"%string (deep_comp_hi d)) (uint "deep_comp_mbs_lo"%string (deep_comp_lo d))
    (uint "deep_decomp_mbs_hi"%string (deep_decomp_hi d)) (uint "deep_decomp_mbs_lo"%string (deep_decomp_lo d))
    (real "fast_ratio_zeros"%string (fast_ratio_zeros d)) (real "fast_ratio_random"%string (fast_ratio_random d))
    (real "deep_ratio_zeros"%string (deep_ratio_zeros d)) (real "deep_ratio_random"%string (deep_ratio_random d)).

(** [None]: the file cannot be opened. *)
(* src/compress/compression_roi.h:557-616 ROIConfig::loadCalibrationFile *)
Definition loadCalibrationFile (file : option string) (c : ROIConfig) : bool * ROIConfig :=
  match file with
  | None => (false, c)
  | Some EmptyString => (false, c)
  | Some content => (true, buildProfiles (with_cal c (read_cal (c_buffer 4095 content) (cal_ c))))
  end.

(** One line: two blanks, the key, a colon and a blank, the value, the end. *)
Definition line (key value fin : string) : string := ("  " ++ quoted key ++ ": " ++ value ++ fin)%string.
Definition comma : string := String "," (text1 newline).

(** The lines between the braces. *)
Definition entries (d : CalData) : list (string * string) :=
  [("page_size"%string, dec kPageSize);
   ("fast_comp_mbs_hi"%string, dec (fast_comp_hi d)); ("fast_comp_mbs_lo"%string, dec (fast_comp_lo d));
   ("fast_decomp_mbs_hi"%string, dec (fast_decomp_hi d)); ("fast_decomp_mbs_lo"%string, dec (fast_decomp_lo d));
   ("fast_ratio_zeros"%string, fmt6 (fast_ratio_zeros d)); ("fast_ratio_random"%string, fmt6 (fast_ratio_random d));
   ("deep_comp_mbs_hi"%string, dec (deep_comp_hi d)); ("deep_comp_mbs_lo"%string, dec (deep_comp_lo d));
   ("deep_decomp_mbs_hi"%string, dec (deep_decomp_hi d)); ("deep_decomp_mbs_lo"%string, dec (deep_decomp_lo d));
   ("deep_ratio_zeros"%string, fmt6 (deep_ratio_zeros d)); ("deep_ratio_random"%string, fmt6 (deep_ratio_random d))].

Fixpoint lines (l : list (string * string)) (fin : string) : string :=
  match l with
  | [] => fin
  | [(k, v)] => (line k v (text1 newline) ++ fin)%string
  | (k, v) :: l => (line k v comma ++ lines l fin)%string
  end.

(* src/compress/compression_roi.h:618-639 ROIConfig::saveCalibrationFile *)
Definition saveCalibrationFile (d : CalData) : string :=
  (String "{" (text1 newline) ++ lines (entries d) (String "}" (text1 newline)))%string.

(** ** Initialisation *)

(** Step 1: policy variables. *)
(* src/compress/compression_roi.h:215-263 ROIConfig::init *)
Definition read_policy (c : ROIConfig) : ROIConfig :=
  let mp := roiEnvInt env "SMASH_UCB_MIN_PULLS"%string 4 in
  let fd := roiEnvInt env "SMASH_UCB_FORCE_DEEP_EVERY"%string 0 in
  let '(floor, over) :=
    match env "SMASH_COLD_TIMEOUT_SEC"%string, env "SMASH_COLD_TICKS"%string with
    | Some t, _ =>
      let sec := strtod t in
      if dlt (dZ 0) sec
      then (let f := u32 (dtrunc (dadd (ddiv (dmul sec (dZ 1000)) (dZ 1000)) (dlit 5 1))) in ((if f <? 1 then 1 else f), true))
      else (c_cold_ticks_floor c, c_cold_ticks_overridden c)
    | None, Some t => (u32 (atoi t), true)
    | None, None => (c_cold_ticks_floor c, c_cold_ticks_overridden c)
    end in
  let '(very, very_over) := match env "SMASH_VERY_COLD_TICKS"%string with
                            | Some t => (u32 (atoi t), true)
                            | None => (c_very_cold_ticks c, very_cold_ticks_overridden c)
                            end in
  mkRoiConfig (u32 (roiEnvInt env "SMASH_ROI_THRESHOLD"%string 1024)) (roiEnvDouble env "SMASH_MIN_COMPRESS_RATIO"%string (dlit 75 2)) floor very
    (match env "SMASH_RECOMPRESS_BACKOFF"%string with Some t => negb (atoi t =? 0) | None => c_recompress_backoff c end)
    (match env "SMASH_SOFTDIRTY_ROI"%string with Some t => negb (atoi t =? 0) | None => c_softdirty_roi c end)
    (c_profiles c) (num_profiles c) over very_over true
    (negb (roiEnvInt env "SMASH_UCB"%string 0 =? 0)) (roiEnvInt env "SMASH_UCB_VARIANT"%string 1 =? 2)
    (if 0 <? mp then u32 mp else 4) (negb (roiEnvInt env "SMASH_UCB_WARMSTART"%string 0 =? 0)) (if 0 <? fd then u32 fd else 0) (cal_ c).

(** Step 5: the profiles that are not zstd move to the front. *)
(* src/compress/compression_roi.h:286-294 ROIConfig::init *)
Definition drop_zstd (c : ROIConfig) : ROIConfig :=
  if very_cold_ticks_overridden c && (9999 <=? c_very_cold_ticks c) then
    let n := Z.to_nat (num_profiles c) in
    let kept := filter (fun p => p_algo p <> ZSTD) (take n (c_profiles c)) in
    with_profiles c (kept ++ drop (length kept) (c_profiles c)) (zlen kept)
  else c.

(** Steps 2 and 3: the calibration is loaded, measured or the default.  [file] is
    the text of SMASH_CALIBRATION_FILE if it can be opened, [engine] is null or
    measures. *)
(* src/compress/compression_roi.h:265-281 ROIConfig::init *)
Definition obtain (cal_file : bool) (engine : option Measure) (file : option string) (c : ROIConfig) : bool * ROIConfig :=
  let mode name := match env "SMASH_CALIBRATE"%string with Some m => String.eqb m name | None => false end in
  let '(loaded, c) := if cal_file && negb (mode "always"%string) then loadCalibrationFile file c else (false, c) in
  if loaded then (false, c)
  else match engine with
       | Some m => if negb (mode "never"%string) then (true, calibrate m c) else (false, buildProfiles c)
       | None => (false, buildProfiles c)
       end.

(** The result has the text written to the file, if any. *)
(* src/compress/compression_roi.h:211-299 ROIConfig::init *)
Definition roi_init (engine : option Measure) (file : option string) (c : ROIConfig) : ROIConfig * option string :=
  if initialized c then (c, None)
  else
    let c := read_policy c in
    let cal_file := match env "SMASH_CALIBRATION_FILE"%string with Some _ => true | None => false end in
    let '(just_calibrated, c) := obtain cal_file engine file c in
    let c := applyEnvOverrides c in
    let c := drop_zstd c in
    (c, if cal_file && just_calibrated then Some (saveCalibrationFile (cal_ c)) else None).
End Config.
