(* ===== verification/CalibrationCorrect.v ===== *)
(** * Correctness of the policy configuration (for [Calibration.v])

    The profiles built for a configuration, printing and parsing of numbers, and
    the round trip of the calibration file. *)

From Stdlib Require Import String Ascii SpecFloat.
From S2P Require Import Prelude BitOps Config Double Stats Engine PageWorld Roi Calibration.

#[local] Open Scope Z_scope.

(** ** Lemmas: profiles *)

Section Profiles.
Context `{PageGeometry} (build : Build) (env : Env).

(** The array has four entries, and the ones in use are all zstd. *)
Definition only_zstd (c : ROIConfig) : Prop := exists p0 p1 p2 p3, c_profiles c = [p0; p1; p2; p3] /\ p_algo p0 = ZSTD /\
  (num_profiles c = 1 \/ (num_profiles c = 2 /\ p_algo p1 = ZSTD)).

Lemma four {A} (l : list A) : length l = 4%nat -> exists a b c d, l = [a; b; c; d].
Proof. destruct l as [|a [|b [|c [|d [|]]]]]; try done. intros _. by exists a, b, c, d. Qed.

Lemma buildProfiles_zstd c : kUseLz4FastTier build = false -> length (c_profiles c) = 4%nat -> only_zstd (buildProfiles build c).
Proof.
  intros Hb Hl. destruct (four _ Hl) as (p0 & p1 & p2 & p3 & E). unfold buildProfiles. rewrite Hb. destruct (kDeepTierEnabled build).
  - match goal with |- context [let '(a, b) := ?x in _] => destruct x as [sn sd] end. eexists _, _, p2, p3. cbn [c_profiles num_profiles with_profiles]. rewrite E.
    split; [reflexivity|]. split; [done|by right].
  - eexists _, p1, p2, p3. cbn [c_profiles num_profiles with_profiles]. rewrite E. split; [reflexivity|]. split; [done|by left].
Qed.

Lemma overrides_zstd c : only_zstd c -> only_zstd (applyEnvOverrides env c).
Proof.
  intros (p0 & p1 & p2 & p3 & E & Z0 & N). destruct c as [? ? ? ? ? ? ps n ? ? ? ? ? ? ? ? ?]. cbn [c_profiles num_profiles] in E, N. subst ps.
  destruct N as [N|[N Z1]]; subst n; unfold applyEnvOverrides; cbn [num_profiles with_profiles Z.leb Z.compare Pos.compare Pos.compare_cont]; eexists _, _, p2, p3.
  - split; [reflexivity|]. split; [exact Z0|by left].
  - split; [reflexivity|]. split; [exact Z0|]. right. split; [done|exact Z1].
Qed.

Lemma drop_zstd_empty c : only_zstd c -> very_cold_ticks_overridden c = true -> 9999 <= c_very_cold_ticks c -> num_profiles (drop_zstd c) = 0.
Proof.
  intros (p0 & p1 & p2 & p3 & E & Z0 & N) Ho Hv. unfold drop_zstd. rewrite Ho, (proj2 (Z.leb_le _ _) Hv). cbn [andb num_profiles with_profiles]. rewrite E.
  destruct N as [N|[N Z1]]; rewrite N; [change (Z.to_nat 1) with 1%nat|change (Z.to_nat 2) with 2%nat]; cbn [take]; rewrite !filter_cons_False by tauto; reflexivity.
Qed.

(** Loading, measuring or defaults: the profiles are built anew. *)
Definition very_cold (c : ROIConfig) : bool * Z := (very_cold_ticks_overridden c, c_very_cold_ticks c).

Lemma buildProfiles_very c : very_cold (buildProfiles build c) = very_cold c.
Proof.
  unfold buildProfiles. destruct (kDeepTierEnabled build); [|done]. by match goal with |- context [let '(a, b) := ?x in _] => destruct x end.
Qed.

Lemma overrides_very c : very_cold (applyEnvOverrides env c) = very_cold c.
Proof. unfold applyEnvOverrides. destruct (1 <=? num_profiles c); cbn [num_profiles with_profiles]; by destruct (2 <=? num_profiles c). Qed.

Lemma obtain_zstd b engine file c : kUseLz4FastTier build = false -> length (c_profiles c) = 4%nat ->
  only_zstd (obtain build env b engine file c).2 /\ very_cold (obtain build env b engine file c).2 = very_cold c.
Proof.
  intros Hb Hl.
  assert (Hd : forall d, only_zstd (buildProfiles build (with_cal c d)) /\ very_cold (buildProfiles build (with_cal c d)) = very_cold c)
    by (intros d; split; [by apply buildProfiles_zstd|by rewrite buildProfiles_very]).
  assert (H0 : only_zstd (buildProfiles build c) /\ very_cold (buildProfiles build c) = very_cold c) by (split; [by apply buildProfiles_zstd|by rewrite buildProfiles_very]).
  assert (Hm : forall m, only_zstd (calibrate build m c) /\ very_cold (calibrate build m c) = very_cold c) by (intros [m|]; [apply Hd|exact H0]).
  assert (Hl' : forall f, let r := loadCalibrationFile build f c in (r.1 = true /\ only_zstd r.2 /\ very_cold r.2 = very_cold c) \/ r = (false, c)).
  { intros [[|a s]|]; [by right| |by right]. left. split; [done|]. apply Hd. }
  unfold obtain. destruct (b && _).
  - destruct (Hl' file) as [(E & Z1 & V1)|E].
    + rewrite (surjective_pairing (loadCalibrationFile build file c)), E. done.
    + rewrite E. destruct engine as [m|]; [|exact H0]. destruct (negb _); [apply Hm|exact H0].
  - destruct engine as [m|]; [|exact H0]. destruct (negb _); [apply Hm|exact H0].
Qed.

(** The documented way to use the fast tier only turns compression off.  In
    a build whose fast tier is zstd, the default, SMASH_VERY_COLD_TICKS=9999
    or more removes every zstd profile, the fast tier's too.  No profile is
    left, and none is ever selected, for whatever measurements, calibration
    file and other variables. *)
Lemma fast_tier_only_disables t engine file c :
  kUseLz4FastTier build = false -> env "SMASH_VERY_COLD_TICKS"%string = Some t -> 9999 <= u32 (atoi t) -> initialized c = false -> length (c_profiles c) = 4%nat ->
  let c' := (roi_init build env engine file c).1 in
  num_profiles c' = 0 /\ forall cold count sum observed, selectProfile (decisions c') cold count sum observed = None.
Proof.
  intros Hb Ht Hv Hi Hl. cbv zeta. unfold roi_init. rewrite Hi. set (c1 := read_policy env c).
  assert (L1 : length (c_profiles c1) = 4%nat /\ very_cold c1 = (true, u32 (atoi t))).
  { unfold c1, read_policy. rewrite Ht. match goal with |- context [let '(a, b) := ?x in _] => destruct x end. done. }
  set (b := match env "SMASH_CALIBRATION_FILE"%string with Some _ => true | None => false end).
  destruct (obtain_zstd b engine file c1 Hb (proj1 L1)) as [Z2 V2]. rewrite (proj2 L1) in V2. destruct (obtain build env b engine file c1) as [j c2]. cbn [fst snd] in *.
  rewrite <- (overrides_very c2) in V2. injection V2 as V2 V3.
  assert (N : num_profiles (drop_zstd (applyEnvOverrides env c2)) = 0) by (apply drop_zstd_empty; [by apply overrides_zstd|done|lia]).
  split; [done|]. intros. unfold selectProfile, decisions. cbn [profiles]. by rewrite N.
Qed.
End Profiles.

(** ** Lemmas: text *)

Lemma digit_val_char d : 0 <= d < 10 -> digit_val (digit_char d) = Some d.
Proof.
  intros H. assert (d = 0 \/ d = 1 \/ d = 2 \/ d = 3 \/ d = 4 \/ d = 5 \/ d = 6 \/ d = 7 \/ d = 8 \/ d = 9) as D by lia.
  repeat (destruct D as [D|D]; [by subst|]). by subst.
Qed.

(** A text that no digit begins. *)
Definition no_digit (s : string) : Prop := match s with String c _ => digit_val c = None | EmptyString => True end.

Lemma dec_digits fuel : forall n s, 0 <= n < 2 ^ Z.of_nat fuel -> (0 < fuel)%nat -> digits (dec_aux fuel n s) None = digits s (Some n).
Proof.
  induction fuel as [|f IH]; intros n s Hn Hf; [lia|]. cbn [dec_aux]. destruct (Z.ltb_spec n 10) as [Hl|Hl].
  - cbn [digits]. rewrite digit_val_char by (apply Z.mod_pos_bound; lia). cbn [default]. rewrite Z.mod_small by lia. f_equal.
  - assert (0 <= n / 10 < 2 ^ Z.of_nat f).
    { split; [apply Z.div_pos; lia|]. apply Z.div_lt_upper_bound; [lia|]. rewrite Nat2Z.inj_succ, Z.pow_succ_r in Hn by lia. lia. }
    rewrite IH; [|done|destruct f; [cbn in *; lia|lia]]. cbn [digits]. rewrite digit_val_char by (apply Z.mod_pos_bound; lia). cbn [from_option]; unfold id. f_equal. f_equal. pose proof (Z.div_mod n 10 ltac:(lia)). lia.
Qed.

Lemma scan_dec fuel : forall n s, 0 <= n < 2 ^ Z.of_nat fuel -> (0 < fuel)%nat -> exists k, 0 < k /\ scan_digits (dec_aux fuel n s) 0 0 = scan_digits s n k.
Proof.
  induction fuel as [|f IH]; intros n s Hn Hf; [lia|]. cbn [dec_aux]. destruct (Z.ltb_spec n 10) as [Hl|Hl].
  - exists 1. split; [lia|]. cbn [scan_digits]. rewrite digit_val_char by (apply Z.mod_pos_bound; lia). rewrite Z.mod_small by lia. done.
  - assert (0 <= n / 10 < 2 ^ Z.of_nat f).
    { split; [apply Z.div_pos; lia|]. apply Z.div_lt_upper_bound; [lia|]. rewrite Nat2Z.inj_succ, Z.pow_succ_r in Hn by lia. lia. }
    destruct (IH (n / 10) (String (digit_char (n mod 10)) s) H ltac:(destruct f; [cbn in *; lia|lia])) as (k & Hk & ->). exists (k + 1). split; [lia|].
    cbn [scan_digits]. rewrite digit_val_char by (apply Z.mod_pos_bound; lia). f_equal. pose proof (Z.div_mod n 10 ltac:(lia)). lia.
Qed.

Lemma dec_fuel n : 0 <= n -> 0 <= n < 2 ^ Z.of_nat (S (Z.to_nat (Z.log2 n))).
Proof.
  intros Hn. split; [done|]. rewrite Nat2Z.inj_succ, Z2Nat.id by apply Z.log2_nonneg. destruct (Z.eq_dec n 0) as [->|]; [cbn; lia|]. apply Z.log2_spec. lia.
Qed.

Lemma dec_aux_app fuel : forall n s r, (dec_aux fuel n s ++ r)%string = dec_aux fuel n (s ++ r)%string.
Proof. induction fuel as [|f IH]; intros n s r; [done|]. cbn [dec_aux]. destruct (n <? 10); [done|]. apply IH. Qed.

Lemma fixed_app k : forall n s r, (fixed k n s ++ r)%string = fixed k n (s ++ r)%string.
Proof. induction k as [|k IH]; intros n s r; [done|]. cbn [fixed]. apply IH. Qed.

Lemma scan_fixed k : forall n s acc cnt, 0 <= n -> scan_digits (fixed k n s) acc cnt = scan_digits s (acc * 10 ^ Z.of_nat k + n mod 10 ^ Z.of_nat k) (cnt + Z.of_nat k).
Proof.
  induction k as [|k IH]; intros n s acc cnt Hn.
  - cbn [fixed]. change (10 ^ Z.of_nat 0) with 1. rewrite Z.mod_1_r. f_equal; lia.
  - cbn [fixed]. rewrite IH by (apply Z.div_pos; lia). cbn [scan_digits]. rewrite digit_val_char by (apply Z.mod_pos_bound; lia). f_equal; [|lia].
    rewrite Nat2Z.inj_succ, Z.pow_succ_r by lia. set (p := 10 ^ Z.of_nat k). assert (0 < p) by (unfold p; apply Z.pow_pos_nonneg; lia).
    rewrite Z.rem_mul_r by lia. lia.
Qed.

(** [dec] begins with a digit. *)
Lemma dec_head fuel : forall n s, 0 <= n -> (0 < fuel)%nat -> exists d r, 0 <= d < 10 /\ dec_aux fuel n s = String (digit_char d) r.
Proof.
  induction fuel as [|f IH]; intros n s Hn Hf; [lia|]. cbn [dec_aux]. pose proof (Z.mod_pos_bound n 10 ltac:(lia)) as Hm. destruct (n <? 10).
  - by exists (n mod 10), s.
  - destruct f as [|f]; [by exists (n mod 10), s|]. apply IH; [apply Z.div_pos; lia|lia].
Qed.

Lemma digit_char_plain d : 0 <= d < 10 ->
  is_space (digit_char d) = false /\ Ascii.eqb (digit_char d) "-" = false /\ Ascii.eqb (digit_char d) "+" = false /\ Ascii.eqb (digit_char d) " " = false /\
  Ascii.eqb (digit_char d) tab = false /\ Ascii.eqb (digit_char d) quote = false /\ Ascii.eqb (digit_char d) nul = false.
Proof.
  intros H. assert (d = 0 \/ d = 1 \/ d = 2 \/ d = 3 \/ d = 4 \/ d = 5 \/ d = 6 \/ d = 7 \/ d = 8 \/ d = 9) as D by lia.
  repeat (destruct D as [D|D]; [by subst|]). by subst.
Qed.

Lemma dec_app n s : (dec n ++ s)%string = dec_aux (S (Z.to_nat (Z.log2 n))) n s.
Proof. unfold dec. by rewrite dec_aux_app. Qed.

Lemma atoi_dec n s : 0 <= n < 2 ^ 31 -> no_digit s -> atoi (dec n ++ s) = n.
Proof.
  intros Hn Hs. rewrite dec_app. set (fu := S (Z.to_nat (Z.log2 n))). assert (Hf : (0 < fu)%nat) by (unfold fu; lia). pose proof (dec_fuel n ltac:(lia)) as Hb. fold fu in Hb.
  pose proof (dec_digits fu n s Hb Hf) as Hd. destruct (dec_head fu n s ltac:(lia) Hf) as (d & r & Hd1 & E). rewrite E in *.
  destruct (digit_char_plain d Hd1) as (P1 & P2 & P3 & _). unfold atoi, strtol. cbn [skip_space]. rewrite P1, P2, P3, Hd.
  assert (Hx : digits s (Some n) = Some n) by (destruct s as [|c s']; [done|]; cbn in *; by rewrite Hs). rewrite Hx. cbn.
  unfold clamp. rewrite (proj2 (Z.ltb_ge n (- 2 ^ 63))), (proj2 (Z.ltb_ge (2 ^ 63 - 1) n)) by lia. apply i32_small. lia.
Qed.

(** [strtod] reads back the millionths of a value without a sign. *)
Definition plain (x : double) : Prop := match x with S754_finite false _ _ | S754_zero false => True | _ => False end.

Lemma millionths_nonneg x : 0 <= millionths x.
Proof.
  destruct x as [| | |s m e]; cbn [millionths]; try lia. destruct (Z.leb_spec 0 e); [assert (0 < 2 ^ e) by (apply Z.pow_pos_nonneg; lia); nia|].
  assert (0 < 2 ^ (- e)) by (apply Z.pow_pos_nonneg; lia). unfold round_div. assert (0 <= Z.pos m * 10 ^ 6 / 2 ^ (- e)) by (apply Z.div_pos; lia). repeat case_if; lia.
Qed.

Definition ends_number (s : string) : Prop := match s with String c _ => digit_val c = None /\ Ascii.eqb c "e" = false /\ Ascii.eqb c "E" = false | EmptyString => True end.

Lemma strtod_fmt6 x s : plain x -> ends_number s -> strtod (fmt6 x ++ s) = dratio (millionths x) (10 ^ 6).
Proof.
  intros Hx Hs. set (N := millionths x). pose proof (millionths_nonneg x) as HN. fold N in HN.
  assert (E : (fmt6 x ++ s)%string = dec_aux (S (Z.to_nat (Z.log2 (N / 10 ^ 6)))) (N / 10 ^ 6) (String "." (fixed 6 (N mod 10 ^ 6) s))).
  { assert (fmt6 x = (dec (N / 10 ^ 6) ++ String "." (fixed 6 (N mod 10 ^ 6) EmptyString))%string) as -> by (destruct x as [[]| | |[] m e]; try done).
    rewrite dec_app, dec_aux_app. reflexivity. }
  rewrite E. set (q := N / 10 ^ 6). assert (Hq : 0 <= q) by (apply Z.div_pos; lia). set (fu := S (Z.to_nat (Z.log2 q))). assert (Hf : (0 < fu)%nat) by (unfold fu; lia).
  set (tail := String "." _). pose proof (dec_fuel q Hq) as Hb. fold fu in Hb. destruct (scan_dec fu q tail Hb Hf) as (k & Hk & Ek).
  destruct (dec_head fu q tail Hq Hf) as (d & r & Hd1 & Ed). destruct (digit_char_plain d Hd1) as (P1 & P2 & P3 & _). unfold strtod. rewrite Ed in *. cbn [skip_space]. rewrite P1, P2, P3, Ek.
  assert (Et : scan_digits tail q k = (q, k, tail)) by done. rewrite Et. unfold tail. rewrite scan_fixed by (apply Z.mod_pos_bound; lia).
  change (Ascii.eqb "." ".") with true. cbv iota.
  assert (Hv : q * 10 ^ Z.of_nat 6 + (N mod 10 ^ 6) mod 10 ^ Z.of_nat 6 = N).
  { change (Z.of_nat 6) with 6. rewrite Z.mod_mod by lia. unfold q. pose proof (Z.div_mod N (10 ^ 6) ltac:(lia)). lia. }
  rewrite Hv. assert (Ex : scan_digits s N (0 + Z.of_nat 6) = (N, 6, s)) by (destruct s as [|c s']; [done|]; destruct Hs as (Hs & _); cbn [scan_digits]; by rewrite Hs).
  rewrite Ex. rewrite (proj2 (Z.eqb_neq (k + 6) 0)) by lia. destruct s as [|c s']; [done|]. destruct Hs as (_ & -> & ->). done.
Qed.

(** The sign of a positive ratio is positive. *)
Lemma shr_1_nonneg r : 0 <= shr_m r -> 0 <= shr_m (shr_1 r).
Proof. destruct r as [m a b]. cbn. destruct m as [|[p|p|]|p]; cbn; lia. Qed.

Lemma iter_shr_nonneg p : forall r, 0 <= shr_m r -> 0 <= shr_m (SpecFloat.iter_pos shr_1 p r).
Proof. induction p as [p IH|p IH|]; intros r Hr; cbn [SpecFloat.iter_pos]; auto using shr_1_nonneg. Qed.

Lemma shr_fexp_nonneg m e l : 0 <= m -> 0 <= shr_m (shr_fexp 53 1024 m e l).1.
Proof.
  intros Hm. unfold shr_fexp, shr. assert (0 <= shr_m (shr_record_of_loc m l)) by (by destruct l as [|[]]). destruct (_ - e); [done|by apply iter_shr_nonneg|done].
Qed.

Lemma round_even_nonneg m l : 0 <= m -> 0 <= round_nearest_even m l.
Proof. intros Hm. destruct l as [|[]]; cbn; try lia. destruct (Z.even m); lia. Qed.

Lemma round_aux_nonneg m e l : 0 <= m -> dle (dZ 0) (binary_round_aux 53 1024 false m e l) = true.
Proof.
  intros Hm. unfold binary_round_aux. destruct (shr_fexp 53 1024 m e l) as [r e1] eqn:E1.
  pose proof (shr_fexp_nonneg m e l Hm) as H1. rewrite E1 in H1. cbn [fst] in H1.
  pose proof (round_even_nonneg (shr_m r) (loc_of_shr_record r) H1) as H2. set (z := round_nearest_even _ _) in *. destruct (shr_fexp 53 1024 z e1 loc_Exact) as [r2 e2] eqn:E2.
  pose proof (shr_fexp_nonneg z e1 loc_Exact H2) as H3. rewrite E2 in H3. cbn [fst] in H3. destruct (shr_m r2) as [|p|p]; [done| |lia]. by destruct (_ <=? _).
Qed.

Lemma dratio_nonneg n d : 0 <= n -> 0 < d -> dle (dZ 0) (dratio n d) = true.
Proof.
  intros Hn Hd. unfold dratio. destruct (Z.eqb_spec n 0); [done|]. set (s := Z.max 0 _). assert (0 <= n * 2 ^ s / d) by (apply Z.div_pos; [assert (0 < 2 ^ s) by (apply Z.pow_pos_nonneg; lia); nia|done]).
  set (q := n * 2 ^ s / d) in *. set (m := 2 * q + _). assert (0 <= m) by (unfold m; destruct (_ =? 0); lia). unfold binary_normalize. destruct m as [|p|p]; [done| |lia].
  unfold binary_round. destruct (shl_align _ _ _) as [mz ez]. by apply round_aux_nonneg.
Qed.

(** ** Lemmas: searching *)

Fixpoint differ (k t : string) : bool :=
  match k, t with
  | String a k, String b t => if Ascii.eqb a b then differ k t else true
  | _, _ => false
  end.

(** [key] cannot begin inside [pre], whatever follows. *)
Fixpoint clear_of (key pre : string) : bool :=
  match pre with
  | EmptyString => true
  | String _ r => differ key pre && clear_of key r
  end.

Lemma append_cons c s r : (String c s ++ r)%string = String c (s ++ r).
Proof. done. Qed.

Lemma prefix_cons a k b t : String.prefix (String a k) (String b t) = Ascii.eqb a b && String.prefix k t.
Proof. cbn [String.prefix]. destruct (ascii_dec a b) as [->|Hn]; [by rewrite Ascii.eqb_refl|]. by rewrite (proj2 (Ascii.eqb_neq a b) Hn). Qed.

Lemma differ_prefix k : forall t r, differ k t = true -> String.prefix k (t ++ r) = false.
Proof.
  induction k as [|a k IH]; intros [|b t] r; try done. rewrite append_cons, prefix_cons. cbn [differ]. destruct (Ascii.eqb a b); [apply IH|done].
Qed.

Lemma strstr_skip key pre rest : key <> EmptyString -> clear_of key pre = true -> strstr key (pre ++ rest) = strstr key rest.
Proof.
  intros Hk. induction pre as [|c r IH]; [done|]. cbn [clear_of]. intros [H1 H2]%andb_prop. pose proof (differ_prefix key (String c r) rest H1) as Hp.
  rewrite append_cons in *. cbn [strstr]. rewrite Hp. by apply IH.
Qed.

Lemma strstr_hit key rest : strstr key (key ++ rest) = Some (key ++ rest)%string.
Proof.
  assert (H : String.prefix key (key ++ rest) = true) by (induction key as [|a k IH]; [by destruct rest|]; by rewrite append_cons, prefix_cons, Ascii.eqb_refl).
  destruct (key ++ rest)%string; cbn [strstr]; by rewrite H.
Qed.

Fixpoint no_char (c : ascii) (s : string) : bool :=
  match s with
  | EmptyString => true
  | String a r => negb (Ascii.eqb a c) && no_char c r
  end.

Lemma clear_plain k s : no_char quote s = true -> clear_of (String quote k) s = true.
Proof.
  induction s as [|a s IH]; [done|]. cbn [no_char clear_of differ]. intros [H1 H2]%andb_prop. rewrite Ascii.eqb_sym. apply negb_true_iff in H1. rewrite H1. cbn. by apply IH.
Qed.

Lemma no_char_app c s t : no_char c (s ++ t) = no_char c s && no_char c t.
Proof. induction s as [|a s IH]; [done|]. rewrite append_cons. cbn [no_char]. rewrite IH. by rewrite andb_assoc. Qed.

Lemma append_assoc (a b c : string) : ((a ++ b) ++ c)%string = (a ++ (b ++ c))%string.
Proof. induction a as [|x a IH]; [done|]. rewrite !append_cons. by rewrite IH. Qed.

Lemma drop_chars_app k s : drop_chars (String.length k) (k ++ s) = s.
Proof. induction k as [|a k IH]; [by destruct s|]. rewrite append_cons. apply IH. Qed.

(** The part of a line before its value. *)
Definition head_of (key : string) : string := ("  " ++ quoted key ++ ": ")%string.

Lemma line_split key v fin rest : (line key v fin ++ rest)%string = (head_of key ++ v ++ fin ++ rest)%string.
Proof. unfold line, head_of. by rewrite !append_assoc. Qed.

(** A printed value: no quote in it, and it begins with neither blank nor tab. *)
Definition value_ok (v : string) : Prop := no_char quote v = true /\ match v with String c _ => (Ascii.eqb c " " || Ascii.eqb c tab) = false | EmptyString => False end.

Lemma line_skip key k v fin rest : clear_of (quoted key) (head_of k) = true -> no_char quote v = true -> no_char quote fin = true ->
  strstr (quoted key) (line k v fin ++ rest) = strstr (quoted key) rest.
Proof. intros H1 H2 H3. rewrite line_split. rewrite strstr_skip by done. rewrite strstr_skip by (done || by apply clear_plain). rewrite strstr_skip by (done || by apply clear_plain). done. Qed.

Lemma skip_blank_value v s : value_ok v -> skip_blank (v ++ s) = (v ++ s)%string.
Proof. intros [_ H]. destruct v as [|c v]; [done|]. rewrite append_cons. cbn [skip_blank]. by rewrite H. Qed.

Lemma line_hit key v fin rest : value_ok v -> value_at (quoted key) (line key v fin ++ rest) = Some (v ++ fin ++ rest)%string.
Proof.
  intros Hv. rewrite line_split. unfold value_at, head_of. rewrite !append_assoc. rewrite strstr_skip by done. rewrite strstr_hit. cbn [option_map]. rewrite drop_chars_app.
  rewrite append_cons. cbn [after_colon Ascii.eqb Bool.eqb]. f_equal. rewrite append_cons. cbn [skip_blank]. change (Ascii.eqb " " " ") with true. cbn [orb]. exact (skip_blank_value v (fin ++ rest) Hv).
Qed.

(** A text that goes on after a value. *)
Definition goes_on (s : string) : Prop := exists r, s = (comma ++ r)%string \/ s = (text1 newline ++ r)%string.

Lemma goes_on_ends s : goes_on s -> ends_number s /\ no_digit s.
Proof. intros (r & [->| ->]); done. Qed.

Lemma lines_value key v l : forall fin, (key, v) ∈ l -> (forall v', (key, v') ∈ l -> v' = v) ->
  Forall (fun e => (e.1 = key \/ clear_of (quoted key) (head_of e.1) = true) /\ value_ok e.2) l ->
  exists s, goes_on s /\ value_at (quoted key) (lines l fin) = Some (v ++ s)%string.
Proof.
  induction l as [|[k w] l IH]; intros fin Hin Hu Hf; [by apply elem_of_nil in Hin|]. apply Forall_cons in Hf as [[Hk Hw] Hf]. cbn [fst snd] in *.
  assert (Hl : exists f r, lines ((k, w) :: l) fin = (line k w f ++ r)%string /\ (f = comma \/ f = text1 newline) /\ (l <> [] -> r = lines l fin)).
  { destruct l as [|e l]; [exists (text1 newline), fin; split; [done|]; split; [by right|done]|]. exists comma, (lines (e :: l) fin). split; [done|]. split; [by left|done]. }
  destruct Hl as (f & r & -> & Hf1 & Hr). destruct (decide (k = key)) as [->|Hne].
  - rewrite (Hu w) in * by (by left). rewrite line_hit by done. exists (f ++ r)%string. split; [|done]. exists r. destruct Hf1 as [->| ->]; [by left|by right].
  - destruct Hk as [|Hk]; [done|]. assert (Hin' : (key, v) ∈ l) by (apply elem_of_cons in Hin as [Hin|Hin]; [congruence|done]).
    destruct (IH fin Hin') as (s & Hs & E); [intros v' Hv'; apply Hu; by right|done|]. exists s. split; [done|]. rewrite <- E, <- Hr by (intros ->; by apply elem_of_nil in Hin').
    unfold value_at. rewrite line_skip; [done|done|apply Hw|by destruct Hf1 as [->| ->]].
Qed.

(** Printed numbers. *)
Lemma dec_plain fuel c : forall n s, Ascii.eqb c quote = true \/ Ascii.eqb c nul = true -> no_char c s = true -> no_char c (dec_aux fuel n s) = true.
Proof.
  intros n s Hc. revert n s. assert (Hd : forall n, no_char c (text1 (digit_char (n mod 10))) = true).
  { intros n. pose proof (Z.mod_pos_bound n 10 ltac:(lia)) as Hm. destruct (digit_char_plain _ Hm) as (_ & _ & _ & _ & _ & P6 & P7). cbn. destruct Hc as [Hc|Hc]; apply Ascii.eqb_eq in Hc; subst c; [by rewrite P6|by rewrite P7]. }
  induction fuel as [|f IH]; intros n s Hs; [done|]. cbn [dec_aux]. specialize (Hd n). cbn in Hd. rewrite andb_true_r in Hd.
  assert (Hs' : no_char c (String (digit_char (n mod 10)) s) = true) by (cbn; by rewrite Hd). destruct (n <? 10); [done|by apply IH].
Qed.

Lemma fixed_plain k c : forall n s, Ascii.eqb c quote = true \/ Ascii.eqb c nul = true -> no_char c s = true -> no_char c (fixed k n s) = true.
Proof.
  intros n s Hc. revert n s. induction k as [|k IH]; intros n s Hs; [done|]. cbn [fixed]. apply IH. cbn. rewrite Hs, andb_true_r.
  pose proof (Z.mod_pos_bound n 10 ltac:(lia)) as Hm. destruct (digit_char_plain _ Hm) as (_ & _ & _ & _ & _ & P6 & P7). destruct Hc as [Hc|Hc]; apply Ascii.eqb_eq in Hc; subst c; [by rewrite P6|by rewrite P7].
Qed.

Lemma dec_value_ok n : 0 <= n -> value_ok (dec n).
Proof.
  intros Hn. split; [apply dec_plain; [by left|done]|]. unfold dec. destruct (dec_head (S (Z.to_nat (Z.log2 n))) n EmptyString Hn ltac:(lia)) as (d & r & Hd & ->).
  destruct (digit_char_plain d Hd) as (_ & _ & _ & P4 & P5 & _). by rewrite P4, P5.
Qed.

Lemma fmt6_plain x : plain x -> fmt6 x = (dec (millionths x / 10 ^ 6) ++ String "." (fixed 6 (millionths x mod 10 ^ 6) EmptyString))%string.
Proof. by destruct x as [[]| | |[] m e]. Qed.

Lemma fmt6_value_ok x : plain x -> value_ok (fmt6 x).
Proof.
  intros Hx. rewrite fmt6_plain by done. destruct (dec_value_ok (millionths x / 10 ^ 6)) as [H1 H2]; [apply Z.div_pos; [apply millionths_nonneg|lia]|]. split.
  - rewrite no_char_app, H1. apply andb_true_intro. split; [done|]. apply andb_true_intro. split; [done|]. apply fixed_plain; [by left|done].
  - destruct (dec _); [done|]. done.
Qed.

(** The text fits the buffer and has no null. *)
Lemma c_buffer_id n : forall s, (String.length s <= n)%nat -> no_char nul s = true -> c_buffer n s = s.
Proof.
  induction n as [|n IH]; intros [|c s] Hl Hn; try done; cbn in Hl; [lia|]. cbn [c_buffer no_char] in *. apply andb_prop in Hn as [H1 H2]. apply negb_true_iff in H1. rewrite H1. f_equal. apply IH; [lia|done].
Qed.

Lemma length_append a b : String.length (a ++ b) = (String.length a + String.length b)%nat.
Proof. induction a as [|c a IH]; [done|]. rewrite append_cons. cbn. by rewrite IH. Qed.

Lemma dec_length fuel : forall n s m, 0 <= n < 10 ^ Z.of_nat (S m) -> (String.length (dec_aux fuel n s) <= S m + String.length s)%nat.
Proof.
  induction fuel as [|f IH]; intros n s m Hn; cbn [dec_aux]; [lia|]. destruct (Z.ltb_spec n 10); [cbn; lia|]. destruct m as [|m]; [change (10 ^ Z.of_nat 1) with 10 in Hn; lia|].
  specialize (IH (n / 10) (String (digit_char (n mod 10)) s) m). cbn [String.length] in IH. assert (0 <= n / 10 < 10 ^ Z.of_nat (S m)); [|specialize (IH H0); lia].
  split; [apply Z.div_pos; lia|]. apply Z.div_lt_upper_bound; [lia|]. rewrite (Nat2Z.inj_succ (S m)), Z.pow_succ_r in Hn by lia. lia.
Qed.

Lemma fixed_length k : forall n s, String.length (fixed k n s) = (k + String.length s)%nat.
Proof. induction k as [|k IH]; intros n s; [done|]. cbn [fixed]. rewrite IH. cbn. lia. Qed.

(** At most 100 characters and no null. *)
Definition short (v : string) : Prop := (String.length v <= 100)%nat /\ no_char nul v = true.

Lemma dec_short n : 0 <= n < 10 ^ 20 -> short (dec n).
Proof. intros Hn. split; [|apply dec_plain; [by right|done]]. pose proof (dec_length (S (Z.to_nat (Z.log2 n))) n EmptyString 19 Hn). cbn in *. unfold dec. lia. Qed.

Lemma fmt6_short x : plain x -> millionths x < 10 ^ 26 -> short (fmt6 x).
Proof.
  intros Hx Hm. rewrite fmt6_plain by done. pose proof (millionths_nonneg x). destruct (dec_short (millionths x / 10 ^ 6)) as [H1 H2]; [split; [apply Z.div_pos; lia|apply Z.div_lt_upper_bound; lia]|]. split.
  - rewrite length_append. cbn [String.length]. rewrite fixed_length. cbn [String.length].
    pose proof (dec_length (S (Z.to_nat (Z.log2 (millionths x / 10 ^ 6)))) (millionths x / 10 ^ 6) EmptyString 19). cbn [String.length] in *. unfold dec.
    assert (0 <= millionths x / 10 ^ 6 < 10 ^ Z.of_nat 20) by (split; [apply Z.div_pos; lia|apply Z.div_lt_upper_bound; lia]). specialize (H0 H3). lia.
  - rewrite no_char_app, H2. apply andb_true_intro. split; [done|]. apply andb_true_intro. split; [done|]. apply fixed_plain; [by right|done].
Qed.

Lemma line_short k v f : (String.length k <= 20)%nat -> no_char nul k = true -> short v -> f = comma \/ f = text1 newline ->
  (String.length (line k v f) <= 130)%nat /\ no_char nul (line k v f) = true.
Proof.
  intros Hk Hn [V1 V2] Hf. unfold line, quoted. rewrite !length_append, !no_char_app. cbn [String.length no_char]. rewrite !length_append, !no_char_app. split.
  - destruct Hf as [->| ->]; cbn; lia.
  - rewrite Hn, V2. by destruct Hf as [->| ->].
Qed.

Lemma lines_short l fin : Forall (fun e => (String.length e.1 <= 20)%nat /\ no_char nul e.1 = true /\ short e.2) l -> no_char nul fin = true ->
  (String.length (lines l fin) <= 130 * length l + String.length fin)%nat /\ no_char nul (lines l fin) = true.
Proof.
  induction l as [|[k v] l IH]; intros Hf Hn; [split; [cbn; lia|done]|]. apply Forall_cons in Hf as [(K1 & K2 & V) Hf]. cbn [fst snd] in *. destruct (IH Hf Hn) as [L1 L2].
  assert (E : exists f r, lines ((k, v) :: l) fin = (line k v f ++ r)%string /\ (f = comma \/ f = text1 newline) /\ (r = lines l fin)).
  { destruct l as [|e l]; [exists (text1 newline), fin; split; [done|]; split; [by right|done]|]. exists comma, (lines (e :: l) fin). split; [done|]. split; [by left|done]. }
  destruct E as (f & r & -> & Hf1 & ->). destruct (line_short k v f K1 K2 V Hf1) as [M1 M2]. rewrite length_append, no_char_app, M2, L2. split; [cbn [length]; lia|done].
Qed.

(** ** Round trip of the calibration file *)

Section Roundtrip.
Context `{PageGeometry} (build : Build).

Definition rate_ok (n : Z) : Prop := 0 <= n < 2 ^ 16.
Definition ratio_ok (x : double) : Prop := plain x /\ millionths x < 10 ^ 26.

(** 16-bit rates, and ratios that are finite and not negative. *)
Record cal_ok (d : CalData) : Prop := {
  co_rates : Forall rate_ok [fast_comp_hi d; fast_comp_lo d; fast_decomp_hi d; fast_decomp_lo d; deep_comp_hi d; deep_comp_lo d; deep_decomp_hi d; deep_decomp_lo d];
  co_ratios : Forall ratio_ok [fast_ratio_zeros d; fast_ratio_random d; deep_ratio_zeros d; deep_ratio_random d]
}.

(** A ratio as the file keeps it: to the millionth. *)
Definition rounded (x : double) : double := dratio (millionths x) (10 ^ 6).

Definition rounded_cal (d : CalData) : CalData :=
  mkCal (fast_comp_hi d) (fast_comp_lo d) (fast_decomp_hi d) (fast_decomp_lo d) (deep_comp_hi d) (deep_comp_lo d) (deep_decomp_hi d) (deep_decomp_lo d)
    (rounded (fast_ratio_zeros d)) (rounded (fast_ratio_random d)) (rounded (deep_ratio_zeros d)) (rounded (deep_ratio_random d)).

Lemma rate_value n : rate_ok n -> value_ok (dec n) /\ short (dec n).
Proof. intros Hn. unfold rate_ok in Hn. split; [apply dec_value_ok; lia|apply dec_short; lia]. Qed.

Lemma ratio_value x : ratio_ok x -> value_ok (fmt6 x) /\ short (fmt6 x).
Proof. intros [H1 H2]. split; [by apply fmt6_value_ok|by apply fmt6_short]. Qed.

Lemma page_value : value_ok (dec kPageSize) /\ short (dec kPageSize).
Proof. assert (4096 <= kPageSize <= 16384) by (unfold kPageSize; destruct kPageShift_cases as [E|E]; rewrite E; lia). split; [apply dec_value_ok; lia|apply dec_short; lia]. Qed.

Lemma entries_ok d : cal_ok d -> Forall (fun e => value_ok e.2 /\ short e.2) (entries d).
Proof.
  intros [R F]. rewrite !Forall_cons in R. rewrite !Forall_cons in F. destruct R as (R1 & R2 & R3 & R4 & R5 & R6 & R7 & R8 & _), F as (F1 & F2 & F3 & F4 & _).
  unfold entries. rewrite !Forall_cons. cbn [snd]. repeat split; first [apply page_value|by apply rate_value|by apply ratio_value|idtac]. constructor.
Qed.

(** The keys are distinct, and none begins inside the head of another's line. *)
Definition keys : list string := (entries cal_default).*1.

Lemma keys_clear : forallb (fun k => clear_of (quoted k) (String "{" (text1 newline)) && forallb (fun k' => String.eqb k' k || clear_of (quoted k) (head_of k')) keys) keys = true.
Proof. reflexivity. Qed.

Lemma keys_NoDup : NoDup keys.
Proof. apply (bool_decide_unpack _). by vm_compute. Qed.

Lemma keyed_unique {A B} (l : list (A * B)) k v v' : NoDup (l.*1) -> (k, v) ∈ l -> (k, v') ∈ l -> v' = v.
Proof.
  induction l as [|[a b] l IH]; intros N H1 H2; [by apply elem_of_nil in H1|]. cbn in N. apply NoDup_cons in N as [N1 N2].
  assert (Hn : forall x, (a, x) ∉ l) by (intros x Hx; apply N1; apply list_elem_of_fmap; by exists (a, x)).
  apply elem_of_cons in H1 as [H1|H1]; apply elem_of_cons in H2 as [H2|H2]; [congruence| | |by apply IH].
  - injection H1 as <- <-. by destruct (Hn v').
  - injection H2 as <- <-. by destruct (Hn v).
Qed.

Lemma saved_value d key v : cal_ok d -> (key, v) ∈ entries d -> exists s, goes_on s /\ value_at (quoted key) (saveCalibrationFile d) = Some (v ++ s)%string.
Proof.
  intros O Hin. pose proof keys_clear as Hc. rewrite forallb_forall in Hc. assert (Hk : key ∈ keys) by (change keys with ((entries d).*1); apply list_elem_of_fmap; by exists (key, v)).
  specialize (Hc key (proj1 (list_elem_of_In _ _) Hk)). apply andb_prop in Hc as [Hb Hc]. rewrite forallb_forall in Hc.
  destruct (lines_value key v (entries d) (String "}" (text1 newline)) Hin) as (s & Hs & E).
  - intros v'. apply keyed_unique; [exact keys_NoDup|done].
  - pose proof (entries_ok d O) as Hv. rewrite Forall_forall in Hv. apply Forall_forall. intros e He. split; [|by apply Hv].
    assert (Hk' : e.1 ∈ keys) by (change keys with ((entries d).*1); apply list_elem_of_fmap; by exists e).
    specialize (Hc _ (proj1 (list_elem_of_In _ _) Hk')). apply orb_prop in Hc as [Hc|Hc]; [left; by apply String.eqb_eq|by right].
  - exists s. split; [done|]. rewrite <- E. unfold value_at, saveCalibrationFile. by rewrite strstr_skip.
Qed.

Lemma saved_rate d key n : cal_ok d -> rate_ok n -> (key, dec n) ∈ entries d -> extractUint (saveCalibrationFile d) key = n.
Proof.
  intros O Hn Hin. unfold rate_ok in Hn. destruct (saved_value d key (dec n) O Hin) as (s & Hs & E). unfold extractUint. rewrite E. apply atoi_dec; [lia|by apply goes_on_ends].
Qed.

Lemma saved_ratio d key x : cal_ok d -> ratio_ok x -> (key, fmt6 x) ∈ entries d -> extractDouble (saveCalibrationFile d) key = rounded x.
Proof.
  intros O Hx Hin. destruct (saved_value d key (fmt6 x) O Hin) as (s & Hs & E). unfold extractDouble. rewrite E. apply strtod_fmt6; [apply Hx|by apply goes_on_ends].
Qed.

Lemma saved_buffer d : cal_ok d -> c_buffer 4095 (saveCalibrationFile d) = saveCalibrationFile d.
Proof.
  intros O. assert (Hf : Forall (fun e => (String.length e.1 <= 20)%nat /\ no_char nul e.1 = true /\ short e.2) (entries d)).
  { pose proof (entries_ok d O) as Hv. unfold entries in *. rewrite !Forall_cons in Hv. rewrite !Forall_cons. cbn [fst snd] in *. repeat split; try apply Hv; try done; try (cbn; lia). }
  destruct (lines_short (entries d) (String "}" (text1 newline)) Hf eq_refl) as [L1 L2]. apply c_buffer_id; unfold saveCalibrationFile.
  - rewrite length_append. cbn [String.length text1] in *. change (length (entries d)) with 13%nat in L1. lia.
  - rewrite no_char_app, L2. done.
Qed.

(** C30: The calibration file keeps the calibration.  Loading what was saved
    succeeds, whatever the configuration held before: every rate comes back
    unchanged, every ratio rounded to the millionth, and the profiles are
    built from them. *)
Theorem calibration_roundtrip d c :
  cal_ok d -> loadCalibrationFile build (Some (saveCalibrationFile d)) c = (true, buildProfiles build (with_cal c (rounded_cal d))).
Proof.
  intros O. pose proof O as [R F]. rewrite !Forall_cons in R. rewrite !Forall_cons in F. destruct R as (R1 & R2 & R3 & R4 & R5 & R6 & R7 & R8 & _), F as (F1 & F2 & F3 & F4 & _).
  assert (HU : forall key n old, rate_ok n -> (key, dec n) ∈ entries d -> (let v := extractUint (saveCalibrationFile d) key in if 0 <=? v then u16 v else old) = n).
  { intros key n old Hn Hin. rewrite (saved_rate d key n O Hn Hin). unfold rate_ok in Hn. cbv zeta. rewrite (proj2 (Z.leb_le 0 n)), wrap_small by lia. done. }
  assert (HD : forall key x old, ratio_ok x -> (key, fmt6 x) ∈ entries d -> (let v := extractDouble (saveCalibrationFile d) key in if dle (dZ 0) v then v else old) = rounded x).
  { intros key x old Hx Hin. rewrite (saved_ratio d key x O Hx Hin). cbv zeta. unfold rounded. rewrite dratio_nonneg; [done|apply millionths_nonneg|lia]. }
  assert (E : read_cal (saveCalibrationFile d) (cal_ c) = rounded_cal d).
  { unfold read_cal, rounded_cal. f_equal; first [apply HU|apply HD]; try done; unfold entries; repeat first [by left|right]. }
  rewrite <- E. rewrite <- (saved_buffer d O) at 2. reflexivity.
Qed.
End Roundtrip.

Section Witnesses.
#[local] Existing Instance pages4K.

Definition demo_env (name : string) : option string := if String.eqb name "SMASH_VERY_COLD_TICKS" then Some "9999"%string else None.

Lemma cal_default_ok : cal_ok cal_default.
Proof.
  constructor; rewrite !Forall_cons; unfold rate_ok, ratio_ok; repeat split; try done; lia.
Qed.

Lemma calibration_roundtrip_witness :
  loadCalibrationFile default_build (Some (saveCalibrationFile cal_default)) config_default = (true, buildProfiles default_build (with_cal config_default (rounded_cal cal_default))).
Proof. apply (calibration_roundtrip default_build cal_default config_default). exact cal_default_ok. Defined.
End Witnesses.
