(* ===== verification/Workers.v ===== *)
(** * Number of compression workers (src/compress/compressor_thread.h)

    After each tick the compressor estimates the pages that became eligible and
    the pages one worker compresses, as moving averages in 1/256, and sets the
    number of workers for the next tick to their quotient, bounded by the load
    of the machine and by the threads that exist. *)

From S2P Require Import Prelude Double Profile.

Definition kCompressorWorkers : Z := 2.
Definition kMaxHelpers : Z := kMaxCompressorWorkers - 1.
Definition kCpuPressureSampleTicks : Z := 4.

(* src/compress/compressor_thread.h:1098-1108 CompressorThread *)
Record Scale := mkScale { active_workers : Z; helpers_created : Z; lambda_ema : Z; mu_ema : Z; cached_cap : Z; sample_age : Z; with_state : Z -> bool }.

(** What one sample of the machine sees: [sysconf], the threads of the process
    and the load average, if there is one. *)
Record Machine := mkMachine { cap_enabled : bool; nproc : Z; own_threads : Z; loadavg : option double }.

(* src/compress/compressor_thread.h:4489-4536 CompressorThread::cpuPressureWorkerCap *)
Definition cpuPressureWorkerCap (m : Machine) (s : Scale) : Z * Scale :=
  let set cap age := mkScale (active_workers s) (helpers_created s) (lambda_ema s) (mu_ema s) cap age (with_state s) in
  if negb (cap_enabled m) then (0, s)
  else
    let nproc_cached := if 0 <? nproc m then nproc m else 1 in
    if sample_age s <? kCpuPressureSampleTicks then (cached_cap s, set (cached_cap s) (i32 (sample_age s + 1)))
    else if own_threads m <=? 0 then (0, set 0 0)
    else
      let our_workers := helpers_created s + 1 in
      let app_threads := Z.max 1 (own_threads m - our_workers) in
      let sys_pressure :=
        match loadavg m with
        | Some l => Z.max 0 (dtrunc (dadd l (dlit 5 1)) - app_threads)
        | None => 0
        end in
      let cap := Z.max 1 (i32 (nproc_cached) - app_threads - sys_pressure) in
      (cap, set cap 0).

(** The counters of the first [nw] workers added up. *)
Definition sum_first (nw : Z) (l : list Z) : Z := foldl (fun a x => u32 (a + x)) 0 (take (Z.to_nat nw) l).

(** One update of an average, in 32-bit arithmetic; [/] rounds towards zero. *)
(* src/compress/compressor_thread.h:4586-4595 CompressorThread::adaptWorkerCount *)
Definition ema_step (ema sample_fp : Z) : Z := u32 (ema + Z.quot (i32 (i32 sample_fp - i32 ema)) 4).

(* src/compress/compressor_thread.h:928-932 CompressorThread::ensureWorkerState *)
Definition ensureWorkerState (w : Z) (inited : Z -> bool) : Z -> bool := fun v => (v =? w) || inited v.

(** Helpers are created until one cannot be; [ok] tells for each whether
    [pthread_create] succeeds. *)
(* src/compress/compressor_thread.h:4623-4635 CompressorThread::adaptWorkerCount *)
Fixpoint create_helpers (fuel : nat) (ok : Z -> bool) (n created : Z) : Z :=
  match fuel with
  | O => created
  | S fuel => if created <? n - 1 then if ok created then create_helpers fuel ok n (created + 1) else created else created
  end.

(* src/compress/compressor_thread.h:4596-4607 CompressorThread::adaptWorkerCount *)
Definition n_needed (lambda mu : Z) : Z :=
  let n := if lambda =? 0 then 1 else i32 (u32 (u32 (lambda + mu) - 1) / mu) in
  let n := if n <? 1 then 1 else n in
  if kMaxCompressorWorkers <? n then kMaxCompressorWorkers else n.

(* src/compress/compressor_thread.h:4573-4641 CompressorThread::adaptWorkerCount *)
Definition adaptWorkerCount (m : Machine) (ok : Z -> bool) (nw : Z) (eligible compressed : list Z) (s : Scale) : Scale :=
  let total_eligible := sum_first nw eligible in
  let total_compressed := sum_first nw compressed in
  let mu_sample := if 0 <? nw then u32 (u32 (total_compressed + nw) - 1) / nw else 0 in
  let lambda := ema_step (lambda_ema s) (u32 (total_eligible * 256)) in
  let mu :=
    if 0 <? total_compressed
    then let mu := ema_step (mu_ema s) (u32 (mu_sample * 256)) in if mu =? 0 then 1 else mu
    else mu_ema s in
  let n := n_needed lambda mu in
  let '(cap, s) := cpuPressureWorkerCap m s in
  let n := if (0 <? cap) && (cap <? n) then cap else n in
  let inited := foldl (fun f w => ensureWorkerState w f) (with_state s) (seqZ 0 n) in
  let created := create_helpers (Z.to_nat kMaxHelpers) ok n (helpers_created s) in
  let n := if created + 1 <? n then created + 1 else n in
  mkScale n created lambda mu (cached_cap s) (sample_age s) inited.

(** The helpers and the state made at start-up. *)
(* src/compress/compressor_thread.h:5266-5281 CompressorThread::start *)
Definition start_workers (ok : Z -> bool) (s : Scale) : Scale :=
  let inited := foldl (fun f w => ensureWorkerState w f) (with_state s) (seqZ 0 kMaxCompressorWorkers) in
  mkScale (active_workers s) (create_helpers (Z.to_nat kMaxHelpers) ok kMaxCompressorWorkers 0) (lambda_ema s) (mu_ema s) (cached_cap s) (sample_age s) inited.

Definition initial : Scale := mkScale kCompressorWorkers 0 0 256 0 1000 (fun _ => false).

(** ** Bounds *)

(** Demands of less than 2^23 pages, 32 GiB, per tick. *)
Record Tick := mkTick { t_machine : Machine; t_ok : Z -> bool; t_eligible : list Z; t_compressed : list Z }.
Definition counters_ok (l : list Z) : Prop := Forall (fun x => 0 <= x) l /\ zsum l < 2 ^ 23.
Definition tick_ok (t : Tick) : Prop := counters_ok (t_eligible t) /\ counters_ok (t_compressed t).
Definition adapt (s : Scale) (t : Tick) : Scale := adaptWorkerCount (t_machine t) (t_ok t) (active_workers s) (t_eligible t) (t_compressed t) s.

Record scale_ok (s : Scale) : Prop := {
  so_active : 1 <= active_workers s <= kMaxCompressorWorkers;
  so_created : 0 <= helpers_created s <= kMaxHelpers;
  so_lambda : 0 <= lambda_ema s < 2 ^ 31;
  so_mu : 256 <= mu_ema s < 2 ^ 31
}.

Lemma zsum_take n l : Forall (fun x => 0 <= x) l -> 0 <= zsum (take n l) <= zsum l.
Proof.
  intros H. revert n. induction H as [|x l Hx Hl IH]; intros [|n]; cbn [take]; try (change (zsum []) with 0; lia).
  - change (zsum []) with 0. pose proof (zsum_nonneg (x :: l) ltac:(by constructor)). lia.
  - change (zsum (x :: take n l)) with (x + zsum (take n l)). change (zsum (x :: l)) with (x + zsum l). specialize (IH n). lia.
Qed.

Lemma sum_first_exact nw l : counters_ok l -> sum_first nw l = zsum (take (Z.to_nat nw) l) /\ 0 <= sum_first nw l < 2 ^ 23.
Proof.
  intros [H1 H2]. destruct (zsum_take (Z.to_nat nw) l H1) as [B1 B2]. assert (E : sum_first nw l = zsum (take (Z.to_nat nw) l)); [|rewrite E; lia]. unfold sum_first.
  assert (F : Forall (fun x => 0 <= x) (take (Z.to_nat nw) l)) by by apply Forall_take. generalize dependent (take (Z.to_nat nw) l). intros k _ B2 F.
  enough (G : forall a, 0 <= a -> a + zsum k < 2 ^ 32 -> foldl (fun a x => u32 (a + x)) a k = a + zsum k) by (apply G; lia).
  clear B2. induction F as [|x k Hx F IH]; intros a Ha Hb; [cbn; change (zsum []) with 0; lia|]. change (zsum (x :: k)) with (x + zsum k) in *. cbn [foldl]. pose proof (zsum_nonneg k F). rewrite wrap_small by lia. rewrite IH by lia. lia.
Qed.

(** An average moves a quarter of the way, and nothing wraps. *)
Lemma ema_step_exact ema sample : 0 <= ema < 2 ^ 31 -> 0 <= sample < 2 ^ 31 ->
  let e := ema_step ema sample in
  e = ema + Z.quot (sample - ema) 4 /\ Z.min ema sample <= e <= Z.max ema sample /\ Z.abs (sample - e) = Z.abs (sample - ema) - Z.abs (sample - ema) / 4.
Proof.
  intros H1 H2 e. assert (Hq : e = ema + Z.quot (sample - ema) 4).
  { unfold e, ema_step. rewrite (i32_small sample), (i32_small ema) by lia. rewrite i32_small by lia. rewrite wrap_small; [done|]. Z.to_euclidean_division_equations; lia. }
  rewrite Hq. split; [done|]. Z.to_euclidean_division_equations; lia.
Qed.

Lemma create_helpers_spec fuel ok n : forall c, 0 <= c -> n - 1 <= c + Z.of_nat fuel ->
  let c' := create_helpers fuel ok n c in c <= c' <= Z.max c (n - 1) /\ (c' < n - 1 -> ok c' = false).
Proof.
  induction fuel as [|fuel IH]; intros c Hc Hf; cbn [create_helpers]; [lia|]. destruct (Z.ltb_spec c (n - 1)); [|lia]. destruct (ok c) eqn:E; [|split; [lia|done]].
  destruct (IH (c + 1) ltac:(lia) ltac:(lia)) as [H1 H2]. split; [lia|done].
Qed.

Lemma ensure_all f n w : 0 <= w < n -> foldl (fun f w => ensureWorkerState w f) f (seqZ 0 n) w = true.
Proof.
  intros H. assert (G : forall l g, w ∈ l \/ g w = true -> foldl (fun f w => ensureWorkerState w f) g l w = true).
  { induction l as [|x l IH]; intros g Hg; [by destruct Hg as [Hg%elem_of_nil|Hg]|]. cbn [foldl]. apply IH. unfold ensureWorkerState. destruct Hg as [[->|Hg]%elem_of_cons|Hg]; [right|by left|right].
    - by rewrite Z.eqb_refl.
    - by rewrite Hg, orb_true_r. }
  apply G. left. apply elem_of_seqZ. lia.
Qed.

Lemma n_needed_bounds lambda mu : 0 <= lambda < 2 ^ 31 -> 256 <= mu < 2 ^ 31 ->
  n_needed lambda mu = Z.max 1 (Z.min kMaxCompressorWorkers ((lambda + mu - 1) / mu)) /\ 1 <= n_needed lambda mu <= kMaxCompressorWorkers.
Proof.
  intros H1 H2. unfold n_needed. change kMaxCompressorWorkers with 8. rewrite (wrap_small 32 (lambda + mu)) by lia. rewrite (wrap_small 32) by lia. assert (Hd : 0 <= (lambda + mu - 1) / mu < 2 ^ 31).
  { split; [apply Z.div_pos; lia|]. apply Z.div_lt_upper_bound; [lia|]. nia. }
  rewrite i32_small by lia. destruct (Z.eqb_spec lambda 0) as [E|E].
  - assert ((lambda + mu - 1) / mu = 0) as -> by (apply Z.div_small; lia). cbn. lia.
  - repeat case_if; lia.
Qed.

Lemma cap_frame m s : let '(cap, s') := cpuPressureWorkerCap m s in
  active_workers s' = active_workers s /\ helpers_created s' = helpers_created s /\ lambda_ema s' = lambda_ema s /\ mu_ema s' = mu_ema s /\ with_state s' = with_state s.
Proof. unfold cpuPressureWorkerCap. repeat case_if; done. Qed.

(** One tick. *)
Lemma adapt_spec s t : scale_ok s -> tick_ok t ->
  let s' := adapt s t in let cap := (cpuPressureWorkerCap (t_machine t) s).1 in
  scale_ok s' /\ lambda_ema s' = ema_step (lambda_ema s) (256 * zsum (take (Z.to_nat (active_workers s)) (t_eligible t))) /\
  active_workers s' <= helpers_created s' + 1 /\ helpers_created s <= helpers_created s' /\ (0 < cap -> active_workers s' <= cap) /\
  active_workers s' <= n_needed (lambda_ema s') (mu_ema s') /\ (forall w, 0 <= w < active_workers s' -> with_state s' w = true).
Proof.
  intros [Ha Hc Hl Hm] [He Hp] s' cap. unfold s', adapt, adaptWorkerCount.
  destruct (sum_first_exact (active_workers s) _ He) as [E1 B1]. destruct (sum_first_exact (active_workers s) _ Hp) as [E2 B2]. change kMaxCompressorWorkers with 8 in *. change kMaxHelpers with 7 in *.
  set (te := sum_first (active_workers s) (t_eligible t)) in *. set (tc := sum_first (active_workers s) (t_compressed t)) in *. clearbody te tc.
  rewrite (proj2 (Z.ltb_lt 0 (active_workers s))) by lia. rewrite (wrap_small 32 (te * 256)) by lia. set (ms := u32 (u32 (tc + active_workers s) - 1) / active_workers s).
  assert (Hms : 0 < tc -> 1 <= ms <= tc).
  { intros Hpos. unfold ms. rewrite (wrap_small 32 (tc + _)) by lia. rewrite (wrap_small 32) by lia. split; [apply Z.div_le_lower_bound; lia|]. apply Z.div_le_upper_bound; nia. }
  clearbody ms. destruct (ema_step_exact (lambda_ema s) (te * 256) ltac:(lia) ltac:(lia)) as (_ & BL & _). set (lam := ema_step (lambda_ema s) (te * 256)) in *.
  set (mu := if 0 <? tc then _ else mu_ema s). assert (Hmu : 256 <= mu < 2 ^ 31).
  { unfold mu. destruct (Z.ltb_spec 0 tc) as [Hpos|]; [|lia]. specialize (Hms Hpos). rewrite (wrap_small 32 (ms * 256)) by lia. destruct (ema_step_exact (mu_ema s) (ms * 256) ltac:(lia) ltac:(lia)) as (_ & BM & _). case_if; lia. }
  destruct (n_needed_bounds lam mu ltac:(lia) Hmu) as [_ Hn]. change kMaxCompressorWorkers with 8 in Hn. pose proof (cap_frame (t_machine t) s) as F. unfold cap. destruct (cpuPressureWorkerCap (t_machine t) s) as [cap0 s0].
  destruct F as (F1 & F2 & F3 & F4 & F5). cbn [fst]. set (n1 := if (0 <? cap0) && (cap0 <? n_needed lam mu) then cap0 else n_needed lam mu).
  assert (Hn1 : 1 <= n1 <= n_needed lam mu /\ (0 < cap0 -> n1 <= cap0)) by (unfold n1; case_if; lia).
  destruct (create_helpers_spec 7 (t_ok t) n1 (helpers_created s0) ltac:(lia) ltac:(lia)) as [Hcr _]. change (Z.to_nat 7) with 7%nat in *. set (cr := create_helpers 7 (t_ok t) n1 (helpers_created s0)) in *.
  set (n2 := if cr + 1 <? n1 then cr + 1 else n1). assert (Hn2 : 1 <= n2 <= n1 /\ n2 <= cr + 1) by (unfold n2; case_if; lia).
  cbn [active_workers helpers_created lambda_ema mu_ema with_state]. split; [constructor; cbn [active_workers helpers_created lambda_ema mu_ema]; change kMaxCompressorWorkers with 8; change kMaxHelpers with 7; lia|]. split; [unfold lam; f_equal; lia|]. split; [lia|]. split; [lia|]. split; [lia|]. split; [lia|].
  intros w Hw. apply ensure_all. lia.
Qed.

Lemma adapts_ok l s : scale_ok s -> Forall tick_ok l -> scale_ok (foldl adapt s l).
Proof. revert s. induction l as [|t l IH]; intros s Hs Hl; [done|]. apply Forall_cons in Hl as [Ht Hl]. cbn [foldl]. apply IH; [|done]. by apply (adapt_spec s t). Qed.

Lemma start_ok ok : scale_ok (start_workers ok initial).
Proof.
  destruct (create_helpers_spec 7 ok 8 0 ltac:(lia) ltac:(lia)) as [H _]. constructor; cbn [start_workers initial active_workers helpers_created lambda_ema mu_ema]; change (Z.to_nat kMaxHelpers) with 7%nat; change kMaxCompressorWorkers with 8; change kMaxHelpers with 7; unfold kCompressorWorkers; lia.
Qed.

(** Whatever is counted: what the code guards itself. *)
Record scale_some (s : Scale) : Prop := {
  sw_active : 1 <= active_workers s <= kMaxCompressorWorkers;
  sw_created : 0 <= helpers_created s <= kMaxHelpers;
  sw_mu : 1 <= mu_ema s < 2 ^ 32
}.

Lemma n_needed_clamped lambda mu : 1 <= n_needed lambda mu <= kMaxCompressorWorkers.
Proof. unfold n_needed. change kMaxCompressorWorkers with 8. repeat case_if; lia. Qed.

Lemma adapt_some s t : scale_some s ->
  let s' := adapt s t in let cap := (cpuPressureWorkerCap (t_machine t) s).1 in
  scale_some s' /\ active_workers s' <= helpers_created s' + 1 /\ helpers_created s <= helpers_created s' /\ (0 < cap -> active_workers s' <= cap) /\
  (forall w, 0 <= w < active_workers s' -> with_state s' w = true).
Proof.
  intros [Ha Hc Hm] s' cap. unfold s', adapt, adaptWorkerCount. set (te := sum_first _ (t_eligible t)). set (tc := sum_first _ (t_compressed t)). set (ms := if 0 <? active_workers s then _ else 0).
  set (lam := ema_step (lambda_ema s) _). set (mu := if 0 <? tc then _ else mu_ema s).
  assert (Hmu : 1 <= mu < 2 ^ 32).
  { unfold mu. case_if; [|done]. set (e := ema_step (mu_ema s) _). assert (0 <= e < 2 ^ 32) by (apply wrap_bound; lia). case_if; lia. }
  pose proof (n_needed_clamped lam mu) as Hn. clearbody mu lam. change kMaxCompressorWorkers with 8 in *. change kMaxHelpers with 7 in *.
  pose proof (cap_frame (t_machine t) s) as F. unfold cap. destruct (cpuPressureWorkerCap (t_machine t) s) as [cap0 s0].
  destruct F as (F1 & F2 & F3 & F4 & F5). cbn [fst]. set (n1 := if (0 <? cap0) && (cap0 <? n_needed lam mu) then cap0 else n_needed lam mu).
  assert (Hn1 : 1 <= n1 <= n_needed lam mu /\ (0 < cap0 -> n1 <= cap0)) by (unfold n1; case_if; lia).
  destruct (create_helpers_spec 7 (t_ok t) n1 (helpers_created s0) ltac:(lia) ltac:(lia)) as [Hcr _]. change (Z.to_nat 7) with 7%nat in *. set (cr := create_helpers 7 (t_ok t) n1 (helpers_created s0)) in *.
  set (n2 := if cr + 1 <? n1 then cr + 1 else n1). assert (Hn2 : 1 <= n2 <= n1 /\ n2 <= cr + 1) by (unfold n2; case_if; lia).
  cbn [active_workers helpers_created lambda_ema mu_ema with_state].
  split; [constructor; cbn [active_workers helpers_created mu_ema]; change kMaxCompressorWorkers with 8; change kMaxHelpers with 7; lia|]. split; [lia|]. split; [lia|]. split; [lia|].
  intros w Hw. apply ensure_all. lia.
Qed.

Lemma adapts_some l s : scale_some s -> scale_some (foldl adapt s l).
Proof. revert s. induction l as [|t l IH]; intros s Hs; [done|]. cbn [foldl]. apply IH. by apply (adapt_some s t). Qed.

(** C25: The number of workers stays within its bounds: whichever threads could
    be created at start-up and later, and whatever is measured at each tick,
    after a tick there is at least one active worker and at most eight, one
    per thread that exists (the coordinator included) and no more than the
    cap on CPU pressure; each has its state; and the average divided by is not zero.
    If moreover fewer than 2^23 pages (32 GiB with 4 KiB pages) are counted at each tick,
    the averages stay where no signed overflow or wrap-around can happen
    ([full_arena_counts_nothing] shows that the shift wraps for an arena of 2^24 pages). *)
Theorem worker_count_bounds (ok : Z -> bool) (l : list Tick) (t : Tick) :
  let s := foldl adapt (start_workers ok initial) l in
  let s' := adapt s t in
  1 <= active_workers s' <= Z.min kMaxCompressorWorkers (helpers_created s' + 1) /\
  (0 < (cpuPressureWorkerCap (t_machine t) s).1 -> active_workers s' <= (cpuPressureWorkerCap (t_machine t) s).1) /\
  helpers_created s <= helpers_created s' <= kMaxHelpers /\
  (forall w, 0 <= w < active_workers s' -> with_state s' w = true) /\
  1 <= mu_ema s' /\
  (Forall tick_ok l -> tick_ok t -> 0 <= lambda_ema s' < 2 ^ 31 /\ 256 <= mu_ema s' < 2 ^ 31).
Proof.
  intros s s'. assert (Hw : scale_some s).
  { apply adapts_some. destruct (start_ok ok) as [H1 H2 H3 H4]. constructor; [done|done|lia]. }
  destruct (adapt_some s t Hw) as ([H1 H2 H3] & H5 & H6 & H7 & H8). fold s' in H1, H2, H3, H5, H6, H8. split; [lia|]. split; [done|]. split; [lia|]. split; [done|]. split; [lia|].
  intros Hl Ht. assert (Hs : scale_ok s) by (apply adapts_ok; [apply start_ok|done]). destruct (adapt_spec s t Hs Ht) as ([_ _ L M] & _). done.
Qed.

(** With 2^24 pages eligible, as many as the largest arena has, the shift to 1/256 gives zero, and
    one worker is thought to be enough. *)
Lemma full_arena_counts_nothing :
  active_workers (adapt initial (mkTick (mkMachine false 8 0 None) (fun _ => true) [2 ^ 23; 2 ^ 23] [10; 10])) = 1.
Proof. vm_compute. reflexivity. Qed.

Definition busy_tick : Tick := mkTick (mkMachine true 4 12 (Some (dZ 1))) (fun _ => true) [5000; 0; 0; 0; 0; 0; 0; 0] [10; 0; 0; 0; 0; 0; 0; 0].

Lemma busy_tick_ok : tick_ok busy_tick.
Proof. split; (split; [repeat (constructor; [lia|]); constructor|reflexivity]). Qed.

Lemma worker_count_bounds_witness :
  let s' := adapt (start_workers (fun i => i <? 5) initial) busy_tick in
  1 <= active_workers s' <= Z.min kMaxCompressorWorkers (helpers_created s' + 1) /\ 256 <= mu_ema s' < 2 ^ 31.
Proof.
  destruct (worker_count_bounds (fun i => i <? 5) [] busy_tick) as (H & _ & _ & _ & _ & Hb). split; [exact H|].
  exact (proj2 (Hb ltac:(constructor) busy_tick_ok)).
Defined.

(** Distance to the demand after so many ticks. *)
Fixpoint approach (n : nat) (d : Z) : Z := match n with O => d | S n => approach n (d - d / 4) end.

Lemma approach_mono n : forall d e, 0 <= d <= e -> approach n d <= approach n e.
Proof. induction n as [|n IH]; intros d e H; cbn; [lia|]. apply IH. Z.to_euclidean_division_equations; lia. Qed.

Lemma approach_le n : forall d, 0 <= d -> approach n d <= d.
Proof. induction n as [|n IH]; intros d H; cbn; [lia|]. pose proof (Z.div_pos d 4 H ltac:(lia)). pose proof (Z.div_le_upper_bound d 4 d ltac:(lia) ltac:(lia)). specialize (IH (d - d / 4) ltac:(lia)). lia. Qed.

Lemma approach_fast n : (80 <= n)%nat -> approach n (2 ^ 31) <= 3.
Proof.
  intros H. replace n with (80 + (n - 80))%nat by lia. assert (G : forall a b d, approach (a + b) d = approach b (approach a d)) by (induction a as [|a IH]; intros b d; [done|apply IH]).
  rewrite G. change (approach 80 (2 ^ 31)) with 3. apply approach_le. lia.
Qed.

(** The demand seen at each tick of [l]. *)
Fixpoint demand (E : Z) (s : Scale) (l : list Tick) : Prop :=
  match l with
  | [] => True
  | t :: l => zsum (take (Z.to_nat (active_workers s)) (t_eligible t)) = E /\ demand E (adapt s t) l
  end.

Lemma demand_approach E l : 0 <= 256 * E < 2 ^ 31 -> forall s, scale_ok s -> Forall tick_ok l -> demand E s l -> forall d, Z.abs (256 * E - lambda_ema s) <= d ->
  Z.abs (256 * E - lambda_ema (foldl adapt s l)) <= approach (length l) d.
Proof.
  intros HE. induction l as [|t l IH]; intros s Hs Hl Hd d Hb; [done|]. apply Forall_cons in Hl as [Ht Hl]. destruct Hd as [Hd1 Hd]. destruct (adapt_spec s t Hs Ht) as (Hs' & Hlam & _). cbn [foldl length approach].
  apply IH; [done|done|done|]. rewrite Hlam, Hd1. destruct (ema_step_exact (lambda_ema s) (256 * E) (so_lambda s Hs) HE) as (_ & _ & ->). set (x := Z.abs (256 * E - lambda_ema s)) in *. assert (0 <= x) by (unfold x; lia). clearbody x. Z.to_euclidean_division_equations; lia.
Qed.

(** The estimate of the demand follows it: after 80 ticks with the same
    number [E] of eligible pages the average is within 3/256 of [E], whatever
    it was before; and when nothing was eligible one worker is left. *)
Lemma worker_demand_tracks (E : Z) (s : Scale) (l : list Tick) :
  0 <= E < 2 ^ 23 -> scale_ok s -> Forall tick_ok l -> demand E s l -> (80 <= length l)%nat ->
  let s' := foldl adapt s l in
  Z.abs (256 * E - lambda_ema s') <= 3 /\ (E = 0 -> active_workers s' = 1).
Proof.
  intros HE Hs Hl Hd Hn s'. assert (Hlam : Z.abs (256 * E - lambda_ema s') <= 3).
  { etransitivity; [apply (demand_approach E l ltac:(lia) s Hs Hl Hd (2 ^ 31)); pose proof (so_lambda s Hs); lia|]. by apply approach_fast. }
  split; [done|]. intros ->. destruct (list_eq_nil_dec l) as [->|Hne]; [cbn in Hn; lia|]. destruct (exists_last Hne) as (l0 & t & ->). unfold s'. rewrite foldl_snoc. apply Forall_app in Hl as [Hl0 Ht]. apply Forall_cons in Ht as [Ht _].
  assert (Hs0 : scale_ok (foldl adapt s l0)) by by apply adapts_ok. destruct (adapt_spec _ t Hs0 Ht) as ([H1 H2 H3 H4] & _ & _ & _ & _ & H5 & _). unfold s' in Hlam. rewrite foldl_snoc in Hlam.
  destruct (n_needed_bounds _ _ H3 H4) as [En _]. rewrite En in H5. assert ((lambda_ema (adapt (foldl adapt s l0) t) + mu_ema (adapt (foldl adapt s l0) t) - 1) / mu_ema (adapt (foldl adapt s l0) t) <= 1).
  { apply Z.lt_succ_r, Z.div_lt_upper_bound; lia. }
  change kMaxCompressorWorkers with 8 in *. lia.
Qed.

