(* ===== verification/Dispatch.v ===== *)
(** * Coordinator and helper threads (src/compress/compressor_thread.h)

    The coordinator publishes a phase by raising a generation number, does its
    own share, and waits for the active helpers to acknowledge the generation;
    [fork] and [stop] interfere from other threads.  Each step is one access to
    a shared variable, or the execution of a phase by a worker from its start
    to its end; steps of different threads interleave in any order, as the
    sequentially consistent accesses of the code do.  The generation does not
    reach 2^64. *)

From S2P Require Import Prelude Profile Workers.

(** ** State *)

(** A helper is at the head of its loop, has loaded the generation, has taken
    it as its last one, runs a phase, is about to acknowledge, or has ended. *)
Inductive HPc := HTop | HLoaded (g : Z) | HTaken | HRun (p : Z) | HAck | HGone.

(** [h_done] is [helper_done_gen_] of the helper. *)
Record Helper := mkHelper { hpc : HPc; last_gen : Z; h_done : Z }.

(** The coordinator sleeps, has published [in_tick_], is in a tick between two
    calls of [dispatch], has read the number of workers, has stored the phase,
    has raised the generation, waits for helper [i], or has ended.  In [CAlone]
    it runs the phase without helpers. *)
Inductive CPc :=
| CSleep | CCheck | CTick | CStore (nw p : Z) | CRaise (nw p : Z) | COwn (nw p : Z) | CWait (nw p : Z) (i : nat) | CAlone (p : Z) | CLeave | CGone.

(** The thread that forks: waiting after [k] looks, or in [fork] ([quiet] tells
    whether it saw [in_tick_] clear). *)
Inductive FPc := FIdle | FWait (k : Z) | FFork (quiet : bool).
(** The thread that stops the compressor. *)
Inductive SPc := SIdle | SJoin | SHelper (i : nat) | SStopped.

(** [work] lists the phases run by helpers: helper, its generation, phase. *)
Record Sys := mkSys {
  work_gen : Z; current_phase : Z; active : Z; running : bool; in_tick : bool; paused : bool;
  helpers : list Helper; co : CPc; fk : FPc; sp : SPc; work : list (nat * Z * Z)
}.

Definition set_helper (s : Sys) (i : nat) (h : Helper) : Sys :=
  mkSys (work_gen s) (current_phase s) (active s) (running s) (in_tick s) (paused s) (<[i := h]> (helpers s)) (co s) (fk s) (sp s) (work s).
Definition set_co (s : Sys) (c : CPc) : Sys :=
  mkSys (work_gen s) (current_phase s) (active s) (running s) (in_tick s) (paused s) (helpers s) c (fk s) (sp s) (work s).
Definition set_in_tick (s : Sys) (b : bool) : Sys :=
  mkSys (work_gen s) (current_phase s) (active s) (running s) b (paused s) (helpers s) (co s) (fk s) (sp s) (work s).

(** ** Steps *)

(** A waiting helper may return from its wait at any time, as the wait has a
    timeout. *)
(* src/compress/compressor_thread.h:4764-4795 CompressorThread::helperEntry *)
Definition helper_next (i : nat) (s : Sys) : option Sys :=
  match helpers s !! i with
  | None => None
  | Some h =>
    let pc c := set_helper s i (mkHelper c (last_gen h) (h_done h)) in
    match hpc h with
    | HTop => Some (pc (if running s then HLoaded (work_gen s) else HGone))
    | HLoaded g => Some (if g =? last_gen h then pc HTop else set_helper s i (mkHelper HTaken g (h_done h)))
    | HTaken =>
      if Z.of_nat i + 1 <? active s
      then let s' := pc (HRun (current_phase s)) in
           Some (mkSys (work_gen s') (current_phase s') (active s') (running s') (in_tick s') (paused s') (helpers s') (co s') (fk s') (sp s') (work s' ++ [(i, last_gen h, current_phase s)]))
      else Some (pc HAck)
    | HRun _ => Some (pc HAck)
    | HAck => Some (set_helper s i (mkHelper HTop (last_gen h) (last_gen h)))
    | HGone => None
    end
  end.

(** What the coordinator does next in a tick: dispatch a phase, or end the tick
    with the number of workers that [adaptWorkerCount] finds, creating [new]
    helpers. *)
Inductive Choice := Phase (p : Z) | Adapt (n : Z) (new : nat).

Definition new_helper : Helper := mkHelper HTop 0 0.
(** The value of [helper_done_gen_], zero for a helper that was never made. *)
Definition done_gen (s : Sys) (i : nat) : Z := match helpers s !! i with Some h => h_done h | None => 0 end.

(* src/compress/compressor_thread.h:2875-2899 CompressorThread::dispatch *)
Definition dispatch_next (s : Sys) : option Sys :=
  match co s with
  | CStore nw p => Some (mkSys (work_gen s) p (active s) (running s) (in_tick s) (paused s) (helpers s) (CRaise nw p) (fk s) (sp s) (work s))
  | CRaise nw p => Some (mkSys (work_gen s + 1) (current_phase s) (active s) (running s) (in_tick s) (paused s) (helpers s) (COwn nw p) (fk s) (sp s) (work s))
  | COwn nw p => Some (set_co s (CWait nw p O))
  | CWait nw p i =>
    if Z.of_nat i <? nw - 1
    then if work_gen s <=? done_gen s i then Some (set_co s (CWait nw p (S i))) else None
    else Some (set_co s CTick)
  | CAlone p => Some (set_co s CTick)
  | _ => None
  end.

(* src/compress/compressor_thread.h:4708-4757 CompressorThread::coordEntry *)
Definition coord_next (c : Choice) (s : Sys) : option Sys :=
  match co s with
  | CSleep => Some (if running s then set_co (set_in_tick s true) CCheck else set_co s CGone)
  | CCheck => Some (if paused s then set_co (set_in_tick s false) CSleep else set_co s CTick)
  | CTick =>
    match c with
    | Phase p => Some (set_co s (if running s && (1 <? active s) then CStore (active s) p else CAlone p))
    | Adapt n new =>
      let hs := helpers s ++ replicate new new_helper in
      if (1 <=? n) && (n <=? zlen hs + 1) && (zlen hs <=? kMaxHelpers)
      then Some (mkSys (work_gen s) (current_phase s) n (running s) (in_tick s) (paused s) hs CLeave (fk s) (sp s) (work s))
      else None
    end
  | CLeave => Some (set_co (set_in_tick s false) CSleep)
  | _ => dispatch_next s
  end.

(** The wait looks at [in_tick_] at most 50 times. *)
(* src/compress/compressor_thread.h:976-991 CompressorThread::pauseForFork *)
Definition fork_next (s : Sys) : option Sys :=
  let set p f := mkSys (work_gen s) (current_phase s) (active s) (running s) (in_tick s) p (helpers s) (co s) f (sp s) (work s) in
  match fk s with
  | FIdle => Some (set true (FWait 0))
  | FWait k => Some (if k <? 50 then if in_tick s then set (paused s) (FWait (k + 1)) else set (paused s) (FFork true) else set (paused s) (FFork false))
  | FFork _ => Some (set false FIdle)
  end.

(** Joining a thread waits for its end. *)
(* src/compress/compressor_thread.h:5764-5774 CompressorThread::stop *)
Definition stop_next (s : Sys) : option Sys :=
  let set r p := mkSys (work_gen s) (current_phase s) (active s) r (in_tick s) (paused s) (helpers s) (co s) (fk s) p (work s) in
  match sp s with
  | SIdle => if running s then Some (set false SJoin) else Some (set (running s) SStopped)
  | SJoin => match co s with CGone => Some (set (running s) (SHelper O)) | _ => None end
  | SHelper i =>
    match helpers s !! i with
    | None => Some (set (running s) SStopped)
    | Some h => match hpc h with HGone => Some (set (running s) (SHelper (S i))) | _ => None end
    end
  | SStopped => None
  end.

(** ** Executions *)

Inductive Event := EHelper (i : nat) | ECoord (c : Choice) | EFork | EStop.

Definition exec (e : Event) (s : Sys) : option Sys :=
  match e with EHelper i => helper_next i s | ECoord c => coord_next c s | EFork => fork_next s | EStop => stop_next s end.

Fixpoint run (l : list Event) (s : Sys) : option Sys :=
  match l with
  | [] => Some s
  | e :: l => match exec e s with Some s => run l s | None => None end
  end.

(** After [start] with [n] helpers. *)
Definition started (n : nat) : Sys := mkSys 0 0 kCompressorWorkers true false false (replicate n new_helper) CSleep FIdle SIdle [].

Inductive reach (n : nat) : Sys -> Prop :=
| reach_start : reach n (started n)
| reach_step s e s' : reach n s -> exec e s = Some s' -> reach n s'.

Lemma run_app l1 : forall l2 s, run (l1 ++ l2) s = match run l1 s with Some s' => run l2 s' | None => None end.
Proof. induction l1 as [|e l1 IH]; intros l2 s; [done|]. cbn. destruct (exec e s); [apply IH|done]. Qed.

Lemma reach_run n l : forall s s', reach n s -> run l s = Some s' -> reach n s'.
Proof. induction l as [|e l IH]; intros s s' Hs; cbn; [by intros [= <-]|]. destruct (exec e s) as [s1|] eqn:E; [|done]. apply IH. by apply (reach_step n s e). Qed.

(** ** Invariant *)

Definition entries (i : nat) (g : Z) (w : list (nat * Z * Z)) : list (nat * Z * Z) := filter (fun e => e.1 = (i, g)) w.
#[local] Arguments entries : simpl never.

Record helper_inv (g : Z) (w : list (nat * Z * Z)) (i : nat) (h : Helper) : Prop := {
  hi_gen : 0 <= h_done h <= last_gen h /\ last_gen h <= g;
  hi_pc : match hpc h with
          | HTop | HGone => h_done h = last_gen h
          | HLoaded g' => h_done h = last_gen h /\ last_gen h <= g' <= g
          | HTaken | HRun _ | HAck => h_done h < last_gen h
          end;
  hi_work : forall g', last_gen h < g' -> entries i g' w = [];
  hi_taken : hpc h = HTaken -> entries i (last_gen h) w = []
}.

(** In a call of [dispatch] by [nw] workers, after the generation was raised:
    an active helper that took it has run the phase, or is about to. *)
Definition phase_inv (nw p : Z) (s : Sys) : Prop :=
  nw = active s /\ current_phase s = p /\ 0 < work_gen s /\
  forall i h, helpers s !! i = Some h -> Z.of_nat i + 1 < nw -> last_gen h = work_gen s -> hpc h <> HTaken -> entries i (work_gen s) (work s) = [(i, work_gen s, p)].

Definition coord_inv (s : Sys) : Prop :=
  match co s with
  | CStore nw p => nw = active s /\ 1 < nw
  | CRaise nw p => nw = active s /\ current_phase s = p /\ 1 < nw
  | COwn nw p => phase_inv nw p s /\ 1 < nw
  | CWait nw p k => phase_inv nw p s /\ 1 < nw /\ Z.of_nat k <= nw - 1 /\ forall j, (j < k)%nat -> done_gen s j = work_gen s
  | _ => True
  end.

Definition in_coord (c : CPc) : bool := match c with CSleep | CGone => false | _ => true end.

Record inv (s : Sys) : Prop := {
  inv_gen : 0 <= work_gen s;
  inv_helpers : forall i h, helpers s !! i = Some h -> helper_inv (work_gen s) (work s) i h;
  inv_work : forall i g, (length (helpers s) <= i)%nat -> entries i g (work s) = [];
  inv_co : coord_inv s;
  inv_tick : in_tick s = in_coord (co s);
  inv_pause : fk s <> FIdle -> paused s = true;
  inv_fork : fk s = FFork true -> co s = CSleep \/ co s = CCheck \/ co s = CGone;
  inv_run : running s = true -> (forall i h, helpers s !! i = Some h -> hpc h <> HGone) /\ sp s = SIdle
}.

Lemma entries_app i g w e : entries i g (w ++ [e]) = entries i g w ++ (if decide (e.1 = (i, g)) then [e] else []).
Proof. unfold entries. by rewrite filter_app. Qed.

(** A helper's step changes that helper and the log. *)
Lemma helper_next_frame i s s' : helper_next i s = Some s' ->
  work_gen s' = work_gen s /\ current_phase s' = current_phase s /\ active s' = active s /\ running s' = running s /\ in_tick s' = in_tick s /\ paused s' = paused s /\ co s' = co s /\ fk s' = fk s /\ sp s' = sp s /\
  exists h h', helpers s !! i = Some h /\ helpers s' = <[i := h']> (helpers s) /\
  (work s' = work s \/ (hpc h = HTaken /\ Z.of_nat i + 1 < active s /\ work s' = work s ++ [(i, last_gen h, current_phase s)])).
Proof.
  unfold helper_next. destruct (helpers s !! i) as [h|] eqn:E; [|done]. intros H. destruct (hpc h) eqn:Ep; try discriminate.
  all: try (destruct (Z.ltb_spec (Z.of_nat i + 1) (active s))); injection H as <-; try (destruct (running s) eqn:Er); try (case_if); cbn; repeat (split; [done|]); eexists _, _; (split; [done|]); (split; [reflexivity|]); auto.
Qed.

(** The helper itself. *)
Lemma helper_next_inv i s s' : inv s -> helper_next i s = Some s' -> forall h', helpers s' !! i = Some h' -> helper_inv (work_gen s) (work s') i h' /\ h_done h' >= done_gen s i.
Proof.
  intros I. unfold helper_next, done_gen. destruct (helpers s !! i) as [h|] eqn:E; [|done]. pose proof (inv_helpers s I i h E) as [G P W T]. assert (Hl := lookup_lt_Some _ _ _ E).
  intros H h'. destruct (hpc h) eqn:Ep; try discriminate.
  - injection H as <-. cbn. rewrite list_lookup_insert_eq by done. intros [= <-]. split; [|cbn; lia]. constructor; cbn; [lia|destruct (running s); lia|done|by destruct (running s)].
  - destruct (Z.eqb_spec g (last_gen h)); injection H as <-; cbn; rewrite list_lookup_insert_eq by done; intros [= <-]; (split; [|cbn; lia]); constructor; cbn; try lia; try done; intros; apply W; lia.
  - destruct (Z.ltb_spec (Z.of_nat i + 1) (active s)); injection H as <-; cbn; rewrite list_lookup_insert_eq by done; intros [= <-]; (split; [|cbn; lia]); constructor; cbn; try lia; try done.
    intros g' Hg. rewrite entries_app, W by done. cbn. rewrite decide_False; [done|]. intros [= ?]. lia.
  - injection H as <-. cbn. rewrite list_lookup_insert_eq by done. intros [= <-]. split; [|cbn; lia]. constructor; cbn; [lia|lia|done|done].
  - injection H as <-. cbn. rewrite list_lookup_insert_eq by done. intros [= <-]. split; [|cbn; lia]. constructor; cbn; [lia|lia|done|done].
Qed.

Lemma entries_other i j g w e : i <> j -> e.1.1 = i -> entries j g (w ++ [e]) = entries j g w.
Proof. intros Hne He. rewrite entries_app, decide_False; [apply app_nil_r|]. intros E. rewrite E in He. by cbn in He. Qed.

Lemma helper_entries_other i j g s s' : helper_next i s = Some s' -> i <> j -> entries j g (work s') = entries j g (work s) /\ helpers s' !! j = helpers s !! j.
Proof.
  intros H Hne. destruct (helper_next_frame i s s' H) as (_ & _ & _ & _ & _ & _ & _ & _ & _ & h & h' & _ & Hh & Hw). split; [|by rewrite Hh, list_lookup_insert_ne].
  destruct Hw as [->|(_ & _ & ->)]; [done|]. by apply (entries_other i).
Qed.

Lemma helper_phase_inv i nw p s s' : inv s -> helper_next i s = Some s' -> phase_inv nw p s -> phase_inv nw p s'.
Proof.
  intros I H (P1 & P2 & P3 & P4). pose proof (helper_next_frame i s s' H) as (F1 & F2 & F3 & _). split; [by rewrite F3|]. split; [by rewrite F2|]. split; [by rewrite F1|]. rewrite F1.
  intros j h' Hj Hn Hl Hp. destruct (decide (i = j)) as [<-|Hne]; [|destruct (helper_entries_other i j (work_gen s) s s' H Hne) as [E1 E2]; rewrite E1; rewrite E2 in Hj; by apply (P4 j h')].
  unfold helper_next in H. destruct (helpers s !! i) as [h|] eqn:E; [|done]. pose proof (inv_helpers s I i h E) as [_ _ _ T]. specialize (P4 i h E Hn). assert (Hlt := lookup_lt_Some _ _ _ E).
  destruct (hpc h) eqn:Ep; try discriminate.
  - injection H as <-. cbn in *. rewrite list_lookup_insert_eq in Hj by done. injection Hj as <-. by apply P4.
  - destruct (Z.eqb_spec g (last_gen h)); injection H as <-; cbn in *; rewrite list_lookup_insert_eq in Hj by done; injection Hj as <-; [by apply P4|done].
  - destruct (Z.ltb_spec (Z.of_nat i + 1) (active s)); [|lia]. injection H as <-. cbn in *. rewrite list_lookup_insert_eq in Hj by done. injection Hj as <-. cbn in Hl. rewrite entries_app, <- Hl, T by done. cbn. by rewrite decide_True, P2.
  - injection H as <-. cbn in *. rewrite list_lookup_insert_eq in Hj by done. injection Hj as <-. by apply P4.
  - injection H as <-. cbn in *. rewrite list_lookup_insert_eq in Hj by done. injection Hj as <-. by apply P4.
Qed.

Lemma helper_done_gen i s s' j : inv s -> helper_next i s = Some s' -> done_gen s' j >= done_gen s j /\ (done_gen s j = work_gen s -> done_gen s' j = work_gen s).
Proof.
  intros I H. unfold done_gen at 1 4. destruct (decide (i = j)) as [<-|Hne]; [|destruct (helper_entries_other i j 0 s s' H Hne) as [_ ->]; fold (done_gen s j); lia].
  destruct (helper_next_frame i s s' H) as (_ & _ & _ & _ & _ & _ & _ & _ & _ & h & h' & Hi & Hh & _). assert (Hlt := lookup_lt_Some _ _ _ Hi).
  assert (E : helpers s' !! i = Some h') by (by rewrite Hh, list_lookup_insert_eq). rewrite E. destruct (helper_next_inv i s s' I H h' E) as [[G _ _ _] Hd]. lia.
Qed.

Lemma inv_helper i s s' : inv s -> helper_next i s = Some s' -> inv s'.
Proof.
  intros I H. pose proof (helper_next_frame i s s' H) as (F1 & F2 & F3 & F4 & F5 & F6 & F7 & F8 & F9 & h & h' & Hi & Hh & Hw). assert (Hlt := lookup_lt_Some _ _ _ Hi). pose proof I as [I1 I2 I3 I4 I5 I6 I7 I8].
  constructor; rewrite ?F1, ?F4, ?F5, ?F6, ?F7, ?F8, ?F9; try done.
  - intros j hj Hj. destruct (decide (i = j)) as [<-|Hne]; [by apply (helper_next_inv i s s' I H)|]. destruct (helper_entries_other i j 0 s s' H Hne) as [_ E]. rewrite E in Hj. destruct (I2 j hj Hj) as [G P W T].
    constructor; try done; [intros g' Hg|intros Ht]; rewrite (proj1 (helper_entries_other i j _ s s' H Hne)); auto.
  - intros j g Hj. rewrite Hh, length_insert in Hj. rewrite (proj1 (helper_entries_other i j g s s' H ltac:(lia))). auto.
  - unfold coord_inv in *. rewrite F7. destruct (co s); try done; rewrite ?F2, ?F3.
    + done.
    + done.
    + destruct I4 as [P ?]. split; [by apply (helper_phase_inv i _ _ s)|done].
    + destruct I4 as (P & ? & ? & D). split; [by apply (helper_phase_inv i _ _ s)|]. split; [done|]. split; [done|]. intros j Hj. rewrite F1. by apply (helper_done_gen i s s' j I H), D.
  - intros Hr. destruct (I8 Hr) as [N ?]. split; [|done]. intros j hj Hj. destruct (decide (i = j)) as [<-|Hne]; [|destruct (helper_entries_other i j 0 s s' H Hne) as [_ E]; rewrite E in Hj; by apply (N j)].
    unfold helper_next in H. rewrite Hi in H. specialize (N i h Hi). destruct (hpc h); try discriminate; rewrite ?Hr in H; try case_if_in H; injection H as <-; cbn in Hj; rewrite list_lookup_insert_eq in Hj by done; by injection Hj as <-.
Qed.

Lemma helper_inv_gen g g' w i h : g <= g' -> helper_inv g w i h -> helper_inv g' w i h.
Proof. intros Hg [G P W T]. constructor; [lia| |done|done]. destruct (hpc h); try done; lia. Qed.

(** A coordinator step that leaves the helpers and the log alone. *)
Lemma inv_keep s s' : inv s -> helpers s' = helpers s -> work s' = work s -> work_gen s <= work_gen s' -> fk s' = fk s -> sp s' = sp s -> paused s' = paused s -> running s' = running s ->
  coord_inv s' -> in_tick s' = in_coord (co s') -> (fk s = FFork true -> co s' = CSleep \/ co s' = CCheck \/ co s' = CGone) -> inv s'.
Proof.
  intros [I1 I2 I3 I4 I5 I6 I7 I8] E1 E2 E3 E4 E5 E6 E7 C T F. constructor; rewrite ?E1, ?E2, ?E4, ?E5, ?E6, ?E7; try done; [lia|]. intros i h Hi. by apply (helper_inv_gen (work_gen s)), I2.
Qed.

Lemma done_gen_le s j : inv s -> 0 < work_gen s -> done_gen s j <= work_gen s.
Proof. intros I Hg. unfold done_gen. destruct (helpers s !! j) as [h|] eqn:E; [|lia]. destruct (inv_helpers s I j h E) as [G _ _ _]. lia. Qed.

Lemma inv_dispatch s s' : inv s -> dispatch_next s = Some s' -> inv s'.
Proof.
  intros I. pose proof I as [I1 _ _ I4 I5 _ I7 _]. unfold dispatch_next. unfold coord_inv in I4. destruct (co s) as [| | |nw p|nw p|nw p|nw p k|p| |] eqn:Ec; try discriminate.
  - intros [= <-]. apply (inv_keep s); cbn; try done; try lia; try (by destruct I4). intros Hf. by destruct (I7 Hf) as [?|[?|?]].
  - intros [= <-]. apply (inv_keep s); cbn; try done; try lia; [|intros Hf; by destruct (I7 Hf) as [?|[?|?]]]. destruct I4 as (H1 & H2 & H3). unfold coord_inv, phase_inv. cbn. split; [|done]. split; [done|]. split; [done|]. split; [lia|].
    intros i h Hi _ Hl. destruct (inv_helpers s I i h Hi) as [G _ _ _]. lia.
  - intros [= <-]. apply (inv_keep s); cbn; try done; [|intros Hf; by destruct (I7 Hf) as [?|[?|?]]]. unfold coord_inv. cbn. destruct I4 as [P H]. split; [exact P|]. split; [done|]. split; [lia|]. intros j Hj. lia.
  - destruct (Z.ltb_spec (Z.of_nat k) (nw - 1)); [|intros [= <-]; apply (inv_keep s); cbn; try done; intros Hf; by destruct (I7 Hf) as [?|[?|?]]].
    destruct (Z.leb_spec (work_gen s) (done_gen s k)) as [Hd|]; [|done]. intros [= <-]. apply (inv_keep s); cbn; try done; [|intros Hf; by destruct (I7 Hf) as [?|[?|?]]].
    unfold coord_inv. cbn. destruct I4 as (P & H1 & H2 & D). split; [exact P|]. split; [done|]. split; [lia|]. intros j Hj. destruct (decide (j = k)) as [->|Hne]; [|by apply D; lia]. pose proof (done_gen_le s k I ltac:(apply P)). change (done_gen (set_co s (CWait nw p (S k))) k) with (done_gen s k). lia.
  - intros [= <-]. apply (inv_keep s); cbn; try done. intros Hf; by destruct (I7 Hf) as [?|[?|?]].
Qed.

Lemma inv_coord c s s' : inv s -> coord_next c s = Some s' -> inv s'.
Proof.
  intros I. pose proof I as [I1 I2 I3 I4 I5 I6 I7 I8]. unfold coord_next. destruct (co s) as [| | |nw p|nw p|nw p|nw p k|p| |] eqn:Ec; try (by apply inv_dispatch).
  - intros [= <-]. destruct (running s) eqn:Er; apply (inv_keep s); cbn; try done; auto.
  - intros [= <-]. destruct (paused s) eqn:Er; apply (inv_keep s); cbn; try done; auto. intros Hf. by specialize (I6 ltac:(congruence)).
  - destruct c as [p|n new].
    + intros [= <-]. apply (inv_keep s); cbn; try done; [|destruct (running s && _); done|intros Hf; by destruct (I7 Hf) as [?|[?|?]]]. unfold coord_inv. cbn. destruct (running s); cbn; [|done]. destruct (Z.ltb_spec 1 (active s)); done.
    + destruct (_ && _ && _); [|done]. intros [= <-]. constructor; cbn; try done; [| |intros Hf; by destruct (I7 Hf) as [?|[?|?]]|].
      * intros i h Hi. apply lookup_app_Some in Hi as [Hi|[Hl [Hi _]%lookup_replicate]]; [by apply I2|]. rewrite Hi. constructor; cbn; try lia; try done. intros g' Hg. by apply I3.
      * intros i g Hi. rewrite length_app in Hi. apply I3. lia.
      * intros Hr. destruct (I8 Hr) as [N ?]. split; [|done]. intros i h Hi. apply lookup_app_Some in Hi as [Hi|[Hl [Hi _]%lookup_replicate]]; [by apply (N i)|by rewrite Hi].
  - intros [= <-]. apply (inv_keep s); cbn; try done. auto.
Qed.

Lemma inv_fork_step s s' : inv s -> fork_next s = Some s' -> inv s'.
Proof.
  intros [I1 I2 I3 I4 I5 I6 I7 I8]. unfold fork_next. destruct (fk s) as [|k|q] eqn:Ef; intros [= <-].
  - by constructor.
  - destruct (k <? 50); [|by constructor; cbn; auto]. destruct (in_tick s) eqn:Et; constructor; cbn; auto; try done. intros _. destruct (co s); cbn in I5; auto; discriminate.
  - by constructor.
Qed.

Lemma inv_stop s s' : inv s -> stop_next s = Some s' -> inv s'.
Proof.
  intros [I1 I2 I3 I4 I5 I6 I7 I8]. unfold stop_next. destruct (sp s) as [| |k|] eqn:Ep.
  - destruct (running s) eqn:Er; intros [= <-]; constructor; cbn; try done.
  - destruct (co s) eqn:Ec; try discriminate. intros [= <-]. constructor; cbn; try done; rewrite ?Ec; try done. intros Hr. by destruct (I8 Hr).
  - destruct (helpers s !! k) as [h|]; [destruct (hpc h); try discriminate|]; intros [= <-]; constructor; cbn; try done; intros Hr; by destruct (I8 Hr).
  - discriminate.
Qed.

Lemma inv_started n : inv (started n).
Proof.
  constructor; cbn; try done.
  - intros i h [-> _]%lookup_replicate. constructor; cbn; try lia; done.
  - intros _. split; [|done]. by intros i h [-> _]%lookup_replicate.
Qed.

Lemma inv_exec e s s' : inv s -> exec e s = Some s' -> inv s'.
Proof. destruct e; cbn [exec]; eauto using inv_helper, inv_coord, inv_fork_step, inv_stop. Qed.

Lemma reach_inv n s : reach n s -> inv s.
Proof. induction 1 as [|s e s' _ IH H]; [apply inv_started|by apply (inv_exec e s)]. Qed.

(** ** The barrier *)

(** C15: When a call of [dispatch] for [nw] workers is about to return, each
    active helper has run its phase for this generation exactly once, has
    acknowledged it and does not run a phase any more, in every interleaving
    with helpers, forks and a stop. *)
Theorem dispatch_barrier (n : nat) (s : Sys) (nw p : Z) (k i : nat) :
  reach n s -> co s = CWait nw p k -> nw - 1 <= Z.of_nat k -> Z.of_nat i + 1 < nw ->
  exists h, helpers s !! i = Some h /\ h_done h = work_gen s /\ (forall q, hpc h <> HRun q) /\
  entries i (work_gen s) (work s) = [(i, work_gen s, p)].
Proof.
  intros R Ec Hk Hi. pose proof (reach_inv n s R) as I. pose proof (inv_co s I) as C. unfold coord_inv in C. rewrite Ec in C. destruct C as ((P1 & P2 & P3 & P4) & H1 & H2 & D).
  specialize (D i ltac:(lia)). unfold done_gen in D. destruct (helpers s !! i) as [h|] eqn:E; [|lia]. exists h. destruct (inv_helpers s I i h E) as [G P _ _]. split; [done|]. split; [done|].
  assert (Hpc : hpc h <> HTaken /\ forall q, hpc h <> HRun q) by (split; [|intros q]; intros Ep; rewrite Ep in P; lia). split; [apply Hpc|]. apply (P4 i h E Hi); [lia|apply Hpc].
Qed.

Definition steps_of (i k : nat) : list Event := replicate k (EHelper i).
(** The coordinator enters a tick and publishes a phase. *)
Definition publish : list Event := [ECoord (Phase 0); ECoord (Phase 0); ECoord (Phase 1); ECoord (Phase 0); ECoord (Phase 0)].

Lemma dispatch_barrier_witness :
  exists s, run (publish ++ steps_of 0 5 ++ replicate 2 (ECoord (Phase 0))) (started 7) = Some s /\ entries 0 1 (work s) = [(O, 1, 1)].
Proof.
  set (s := mkSys 1 1 2 true true false (mkHelper HTop 1 1 :: replicate 6 new_helper) (CWait 2 1 1) FIdle SIdle [(O, 1, 1)]).
  assert (E : run (publish ++ steps_of 0 5 ++ replicate 2 (ECoord (Phase 0))) (started 7) = Some s) by (vm_compute; reflexivity).
  exists s. split; [exact E|]. assert (R : reach 7 s) by exact (reach_run 7 _ (started 7) s (reach_start 7) E).
  destruct (dispatch_barrier 7 _ 2 1 1 0 R eq_refl ltac:(lia) ltac:(lia)) as (h & _ & _ & _ & H). exact H.
Defined.

(** ** Forks *)

Lemma reach_by n l s : run l (started n) = Some s -> reach n s.
Proof. apply reach_run. constructor. Qed.

(** Helper 6 was parked when it took generation 1. *)
Definition stale_helper : Sys :=
  mkSys 1 1 8 true false true (mkHelper HTop 1 1 :: replicate 5 new_helper ++ [mkHelper (HRun 1) 1 0]) CSleep (FFork true) SIdle [(0%nat, 1, 1); (6%nat, 1, 1)].

(** While the process forks after [pauseForFork] saw no tick, the
    coordinator is in no tick and enters none.  This does not hold of the
    helpers: one that took the generation while it was parked and is counted
    active after the tick runs the phase while the process forks. *)
Lemma fork_excludes_tick (n : nat) (s : Sys) :
  reach n s -> fk s = FFork true ->
  (co s = CSleep \/ co s = CCheck \/ co s = CGone) /\ (forall c s', coord_next c s = Some s' -> co s' <> CTick) /\
  exists s0, reach 7 s0 /\ fk s0 = FFork true /\ in_tick s0 = false /\ exists h, helpers s0 !! 6%nat = Some h /\ hpc h = HRun 1.
Proof.
  intros R F. pose proof (reach_inv n s R) as [_ _ _ _ _ I6 I7 _]. specialize (I7 F). specialize (I6 ltac:(congruence)). split; [done|]. split.
  - intros c s'. unfold coord_next. destruct I7 as [E|[E|E]]; rewrite E; [destruct (running s)| |unfold dispatch_next; rewrite E; discriminate]; intros [= <-]; cbn; [done|done|]. by rewrite I6.
  - exists stale_helper. split; [|repeat split; by eexists].
    apply (reach_by 7 (publish ++ steps_of 6 2 ++ steps_of 0 5 ++ [ECoord (Phase 0); ECoord (Phase 0); ECoord (Phase 0); ECoord (Adapt 8 0); ECoord (Phase 0); EFork; EFork] ++ steps_of 6 1)). by vm_compute.
Qed.

(** ** Waiting for ever *)

(** The coordinator waits for a helper that will not answer. *)
Definition trapped (s : Sys) : Prop :=
  exists nw p k i, co s = CWait nw p k /\ (k <= i)%nat /\ Z.of_nat i + 1 < nw /\ done_gen s i < work_gen s /\
  match helpers s !! i with Some h => hpc h = HGone | None => True end.

Lemma trapped_exec e s s' : trapped s -> exec e s = Some s' -> trapped s'.
Proof.
  intros (nw & p & k & i & Ec & Hk & Hi & Hd & Hg). destruct e as [j|c| |]; cbn [exec].
  - intros H. destruct (helper_next_frame j s s' H) as (F1 & _ & _ & _ & _ & _ & F7 & _ & _ & h & h' & Hj & Hh & _). destruct (decide (j = i)) as [->|Hne].
    + unfold helper_next in H. rewrite Hj in *. by rewrite Hg in H.
    + exists nw, p, k, i. rewrite F7, F1. unfold done_gen in *. rewrite Hh, list_lookup_insert_ne by done. done.
  - unfold coord_next, dispatch_next. rewrite Ec. destruct (Z.ltb_spec (Z.of_nat k) (nw - 1)); [|lia]. destruct (Z.leb_spec (work_gen s) (done_gen s k)) as [Hle|]; [|done]. intros [= <-]. exists nw, p, (S k), i. cbn.
    assert (k <> i) by (intros ->; lia). split; [done|]. split; [lia|]. done.
  - unfold fork_next. destruct (fk s); intros [= <-]; repeat case_if; by exists nw, p, k, i.
  - unfold stop_next. destruct (sp s) as [| |m|]; [destruct (running s)|rewrite Ec|destruct (helpers s !! m) as [hm|]; [destruct (hpc hm)|]|]; try discriminate; intros [= <-]; by exists nw, p, k, i.
Qed.

Lemma trapped_run l : forall s s', trapped s -> run l s = Some s' -> trapped s'.
Proof. induction l as [|e l IH]; intros s s' T; cbn; [by intros [= <-]|]. destruct (exec e s) as [s1|] eqn:E; [|done]. intros H. by apply (IH s1), H; apply (trapped_exec e s). Qed.

(** Helper 0 ended before it took generation 1; and there is no helper. *)
Definition stopped_helper : Sys := mkSys 1 1 2 false true false (mkHelper HGone 0 0 :: replicate 6 new_helper) (CWait 2 1 0) FIdle SJoin [].
Definition no_helper : Sys := mkSys 1 1 2 true true false [] (CWait 2 1 0) FIdle SIdle [].

(** C37: The coordinator can wait for ever, in two ways.  A call of [stop] makes
    a helper that was not yet awake end without acknowledging the generation
    the coordinator waits for, so that [stop], and the exit of the process,
    never returns.  And when no helper could be created at start-up the first
    tick waits for one all the same, as two workers count as active. *)
Theorem coordinator_waits_forever :
  (exists s, reach 7 s /\ sp s = SJoin /\ forall l s', run l s = Some s' -> exists nw p k, co s' = CWait nw p k) /\
  (exists s, reach 0 s /\ running s = true /\ forall l s', run l s = Some s' -> exists nw p k, co s' = CWait nw p k).
Proof.
  assert (W : forall s, trapped s -> forall l s', run l s = Some s' -> exists nw p k, co s' = CWait nw p k).
  { intros s T l s' H. destruct (trapped_run l s s' T H) as (nw & p & k & _ & E & _). eauto. }
  assert (T1 : trapped stopped_helper) by (exists 2, 1, O, O; cbn; repeat split; lia). assert (T2 : trapped no_helper) by (exists 2, 1, O, O; cbn; repeat split; lia). split.
  - exists stopped_helper. split; [apply (reach_by 7 (publish ++ [EStop] ++ steps_of 0 1 ++ [ECoord (Phase 0)])); by vm_compute|]. split; [done|]. by apply W.
  - exists no_helper. split; [apply (reach_by 0 (publish ++ [ECoord (Phase 0)])); by vm_compute|]. split; [done|]. by apply W.
Qed.

(** ** Progress *)

(** The same but for helper [i] and the log. *)
Definition same_but (i : nat) (s s' : Sys) : Prop :=
  work_gen s' = work_gen s /\ active s' = active s /\ running s' = running s /\ co s' = co s /\ length (helpers s') = length (helpers s) /\ forall j, j <> i -> helpers s' !! j = helpers s !! j.

Lemma same_but_refl i s : same_but i s s.
Proof. by repeat split. Qed.

Lemma same_but_trans i s1 s2 s3 : same_but i s1 s2 -> same_but i s2 s3 -> same_but i s1 s3.
Proof. intros (A1 & A2 & A3 & A4 & A5 & A6) (B1 & B2 & B3 & B4 & B5 & B6). repeat split; try congruence. intros j Hj. by rewrite B6, A6. Qed.

(** Helper [i] on its own. *)
Definition drives (i : nat) (s s' : Sys) : Prop := exists k, run (steps_of i k) s = Some s' /\ same_but i s s' /\ (inv s -> inv s').

Lemma drives_refl i s : drives i s s.
Proof. exists O. split; [done|]. split; [apply same_but_refl|done]. Qed.

Lemma drives_step i s s1 s2 : helper_next i s = Some s1 -> drives i s1 s2 -> drives i s s2.
Proof.
  intros H (k & R & B & I). exists (S k). destruct (helper_next_frame i s s1 H) as (F1 & _ & F3 & F4 & _ & _ & F7 & _ & _ & h & h' & _ & Hh & _). split; [by cbn; rewrite H|]. split; [|intros I0; by eapply I, inv_helper].
  eapply same_but_trans; [|exact B]. repeat split; try done; [by rewrite Hh, length_insert|]. intros j Hj. by rewrite Hh, list_lookup_insert_ne.
Qed.

Lemma drives_ack i s h : helpers s !! i = Some h -> hpc h = HTaken \/ (exists p, hpc h = HRun p) \/ hpc h = HAck ->
  exists s', drives i s s' /\ helpers s' !! i = Some (mkHelper HTop (last_gen h) (last_gen h)).
Proof.
  assert (A : forall s l d, helpers s !! i = Some (mkHelper HAck l d) -> exists s', drives i s s' /\ helpers s' !! i = Some (mkHelper HTop l l)).
  { intros s0 l d H. eexists. split; [eapply drives_step; [unfold helper_next; rewrite H; reflexivity|apply drives_refl]|]. cbn. apply list_lookup_insert_eq. by apply (lookup_lt_Some _ _ _ H). }
  assert (B : forall s p l d, helpers s !! i = Some (mkHelper (HRun p) l d) -> exists s', drives i s s' /\ helpers s' !! i = Some (mkHelper HTop l l)).
  { intros s0 p l d H. edestruct (A (set_helper s0 i (mkHelper HAck l d))) as (s' & D & E); [cbn; apply list_lookup_insert_eq; by apply (lookup_lt_Some _ _ _ H)|].
    exists s'. split; [|done]. eapply drives_step; [unfold helper_next; rewrite H; reflexivity|done]. }
  destruct h as [c l d]. cbn. intros H [->|[[p ->]| ->]]; [|by apply (B s p l d)|by apply (A s l d)]. assert (Hl := lookup_lt_Some _ _ _ H).
  destruct (Z.of_nat i + 1 <? active s) eqn:Ea.
  - edestruct (B (mkSys (work_gen s) (current_phase s) (active s) (running s) (in_tick s) (paused s) (<[i := mkHelper (HRun (current_phase s)) l d]> (helpers s)) (co s) (fk s) (sp s) (work s ++ [(i, l, current_phase s)])) (current_phase s) l d) as (s' & D & E); [cbn; by apply list_lookup_insert_eq|].
    exists s'. split; [|done]. eapply drives_step; [unfold helper_next; rewrite H; cbn; rewrite Ea; reflexivity|done].
  - edestruct (A (set_helper s i (mkHelper HAck l d)) l d) as (s' & D & E); [cbn; by apply list_lookup_insert_eq|].
    exists s'. split; [|done]. eapply drives_step; [unfold helper_next; rewrite H; cbn; rewrite Ea; reflexivity|done].
Qed.

Lemma drives_trans i s1 s2 s3 : drives i s1 s2 -> drives i s2 s3 -> drives i s1 s3.
Proof.
  intros (k1 & R1 & B1 & I1) (k2 & R2 & B2 & I2). exists (k1 + k2)%nat. split; [|split; [by eapply same_but_trans|auto]]. unfold steps_of in *. by rewrite replicate_add, run_app, R1.
Qed.

(** From the head of its loop a helper acknowledges the current generation. *)
Lemma drives_current i s l : helpers s !! i = Some (mkHelper HTop l l) -> running s = true -> exists s', drives i s s' /\ done_gen s' i = work_gen s.
Proof.
  intros H Hr. assert (Hl := lookup_lt_Some _ _ _ H). destruct (decide (l = work_gen s)) as [->|Hne]; [exists s; split; [apply drives_refl|unfold done_gen; by rewrite H]|].
  set (s1 := set_helper s i (mkHelper (HLoaded (work_gen s)) l l)). set (s2 := set_helper s1 i (mkHelper HTaken (work_gen s) l)).
  assert (H1 : helpers s1 !! i = Some (mkHelper (HLoaded (work_gen s)) l l)) by (cbn; by apply list_lookup_insert_eq).
  assert (H2 : helpers s2 !! i = Some (mkHelper HTaken (work_gen s) l)) by (cbn; apply list_lookup_insert_eq; by rewrite length_insert).
  destruct (drives_ack i s2 _ H2 ltac:(by left)) as (s' & D & E). cbn in E. exists s'. split; [|unfold done_gen; by rewrite E].
  eapply drives_step; [unfold helper_next; rewrite H; cbn; rewrite Hr; reflexivity|]. eapply drives_step; [|exact D]. unfold helper_next. fold s1. rewrite H1. cbn. rewrite (proj2 (Z.eqb_neq (work_gen s) l)) by congruence. done.
Qed.

Lemma helper_answers i s h : inv s -> running s = true -> helpers s !! i = Some h -> exists s', drives i s s' /\ done_gen s' i = work_gen s.
Proof.
  intros I Hr H. destruct (inv_helpers s I i h H) as [G P _ _]. pose proof (proj1 (inv_run s I Hr) i h H) as Hg. assert (Hl := lookup_lt_Some _ _ _ H).
  assert (C : forall s1, drives i s s1 -> forall l, helpers s1 !! i = Some (mkHelper HTop l l) -> exists s', drives i s s' /\ done_gen s' i = work_gen s).
  { intros s1 D l H1. pose proof D as (_ & _ & B & _). destruct B as (B1 & _ & B3 & _). destruct (drives_current i s1 l H1 ltac:(congruence)) as (s' & D' & E). exists s'. split; [by eapply drives_trans|congruence]. }
  destruct (hpc h) as [|g| |p| |] eqn:Ep; [| | | | |done].
  - apply (C s (drives_refl i s) (last_gen h)). rewrite H. destruct h; cbn in *. congruence.
  - destruct (decide (g = last_gen h)) as [->|Hne].
    + apply (C (set_helper s i (mkHelper HTop (last_gen h) (h_done h)))) with (last_gen h); [|cbn; rewrite list_lookup_insert_eq by done; destruct P; congruence].
      eapply drives_step; [|apply drives_refl]. unfold helper_next. rewrite H, Ep. by rewrite Z.eqb_refl.
    + set (s1 := set_helper s i (mkHelper HTaken g (h_done h))). assert (H1 : helpers s1 !! i = Some (mkHelper HTaken g (h_done h))) by (cbn; by apply list_lookup_insert_eq).
      destruct (drives_ack i s1 _ H1 ltac:(by left)) as (s2 & D & E). apply (C s2) with g; [|exact E]. eapply drives_step; [|exact D]. unfold helper_next. rewrite H, Ep. by rewrite (proj2 (Z.eqb_neq g (last_gen h))) by done.
  - destruct (drives_ack i s h H ltac:(by left)) as (s2 & D & E). by apply (C s2 D (last_gen h)).
  - destruct (drives_ack i s h H ltac:(right; left; by exists p)) as (s2 & D & E). by apply (C s2 D (last_gen h)).
  - destruct (drives_ack i s h H ltac:(by right; right)) as (s2 & D & E). by apply (C s2 D (last_gen h)).
Qed.

Lemma wait_finishes m : forall s nw p k, inv s -> running s = true -> nw - 1 <= zlen (helpers s) -> co s = CWait nw p k -> (Z.to_nat (nw - 1) - k <= m)%nat ->
  exists l s', run l s = Some s' /\ co s' = CTick.
Proof.
  induction m as [|m IH]; intros s nw p k I Hr Hn Ec Hm.
  - exists [ECoord (Phase 0)]. cbn. unfold coord_next, dispatch_next. rewrite Ec. rewrite (proj2 (Z.ltb_ge _ _)) by lia. by eexists.
  - destruct (decide (Z.of_nat k < nw - 1)) as [Hk|]; [|exists [ECoord (Phase 0)]; cbn; unfold coord_next, dispatch_next; rewrite Ec, (proj2 (Z.ltb_ge _ _)) by lia; by eexists].
    destruct (lookup_lt_is_Some_2 (helpers s) k) as [h Hh]; [unfold zlen in Hn; lia|]. destruct (helper_answers k s h I Hr Hh) as (s1 & (n1 & R1 & (B1 & B2 & B3 & B4 & B5 & _) & I1) & D1).
    destruct (IH (set_co s1 (CWait nw p (S k))) nw p (S k)) as (l & s' & R & E); [|cbn; congruence|cbn; unfold zlen in *; lia|done|lia|].
    + apply (inv_exec (ECoord (Phase 0)) s1); [by apply I1|]. cbn. unfold coord_next, dispatch_next. rewrite B4, Ec, (proj2 (Z.ltb_lt _ _)), (proj2 (Z.leb_le _ _)) by lia. done.
    + exists (steps_of k n1 ++ ECoord (Phase 0) :: l), s'. split; [|done]. rewrite run_app, R1. cbn. unfold coord_next, dispatch_next. by rewrite B4, Ec, (proj2 (Z.ltb_lt _ _)), (proj2 (Z.leb_le _ _)) by lia.
Qed.

(** Until [stop] is called a call of [dispatch] can always finish, if there
    are as many helpers as its workers need: in every state that can arise the
    helpers that are still to answer can do so, and the coordinator returns. *)
Lemma dispatch_can_finish (n : nat) (s : Sys) (nw p : Z) (k : nat) :
  reach n s -> running s = true -> co s = CWait nw p k -> nw - 1 <= zlen (helpers s) ->
  exists l s', run l s = Some s' /\ co s' = CTick.
Proof. intros R Hr Ec Hn. by eapply (wait_finishes (Z.to_nat (nw - 1) - k) s nw p k (reach_inv n s R)). Qed.
