(* ===== verification/VmaBudget.v ===== *)
(** * Mappings and their limit (src/compress/compressor_thread.h)

    Linux bounds the number of mappings (VMAs) of a process, and each protection
    change in the middle of one splits it.  The compressor counts the mappings in
    /proc/self/maps, charges a budget before it splits one, and near the limit
    restores runs of pages rather than single ones. *)

From S2P Require Import Prelude Config PageState VmArena.

(** ** /proc/self/maps *)

Definition ch_newline : Z := 10.
Definition ch_space : Z := 32.
Definition ch_dash : Z := 45.

Definition hexval (ch : Z) : Z :=
  if (48 <=? ch) && (ch <=? 57) then ch - 48
  else if (97 <=? ch) && (ch <=? 102) then ch - 97 + 10
  else if (65 <=? ch) && (ch <=? 70) then ch - 65 + 10
  else -1.

(** The state of the scan: field, start, end; and the result once done. *)
Record VmaScan := mkScan { fld : Z; v_start : Z; v_end : Z; outcome : option (option (Z * Z)) }.

Definition scan_char (addr : Z) (st : VmaScan) (ch : Z) : VmaScan :=
  match outcome st with
  | Some _ => st
  | None =>
    if fld st =? 0 then
      if ch =? ch_dash then mkScan 1 (v_start st) (v_end st) None
      else if 0 <=? hexval ch then mkScan 0 (u64 (u64 (v_start st * 16) + hexval ch)) (v_end st) None
      else st
    else if fld st =? 1 then
      if ch =? ch_space then
        if (v_start st <=? addr) && (addr <? v_end st) then mkScan 1 (v_start st) (v_end st) (Some (Some (v_start st, v_end st)))
        else if addr <? v_start st then mkScan 1 (v_start st) (v_end st) (Some None)
        else mkScan 2 (v_start st) (v_end st) None
      else if 0 <=? hexval ch then mkScan 1 (v_start st) (u64 (u64 (v_end st * 16) + hexval ch)) None
      else st
    else if ch =? ch_newline then mkScan 0 0 0 None
    else st
  end.

(** The file as the pieces [read] returns. *)
(* src/compress/compressor_thread.h:3405-3443 CompressorThread::findVma *)
Definition findVma (file : option (list (list Z))) (addr : Z) : option (Z * Z) :=
  match file with
  | None => None
  | Some bufs => default None (outcome (foldl (fun st buf => foldl (scan_char addr) st buf) (mkScan 0 0 0 None) bufs))
  end.

(* src/compress/compressor_thread.h:3912-3928 CompressorThread::readVmaCount *)
Definition readVmaCount (file : option (list (list Z))) : Z :=
  match file with
  | None => 0
  | Some bufs => foldl (fun n buf => foldl (fun n ch => n + (if ch =? ch_newline then 1 else 0)) n buf) 0 bufs
  end.

(** ** Budget *)

(* src/compress/compressor_thread.h:408-429 CompressorThread *)
Record Vma := mkVma {
  vma_max : Z; vma_estimate : Z; vma_near_at : Z; vma_near_cap : bool; vma_count_cached : Z;
  vma_budget_on : bool; vma_budget : Z; vma_budget_skips : Z; cfg_vma_margin : Z
}.

(** The guard at the start of a tick; the result tells whether compression is
    put off.  [n] is the count just read. *)
(* src/compress/compressor_thread.h:4265-4285 CompressorThread::tick *)
Definition vma_guard (max_map_count n : Z) (s : Vma) : bool * Vma :=
  let have_cap := (0 <? max_map_count) && (0 <? n) in
  (max_map_count <=? n + cfg_vma_margin s,
   mkVma (if have_cap then max_map_count else 0) n (if have_cap then max_map_count - cfg_vma_margin s else 0)
     (have_cap && (max_map_count <=? n + cfg_vma_margin s)) n (vma_budget_on s) (vma_budget s) (vma_budget_skips s) (cfg_vma_margin s)).

(* src/compress/compressor_thread.h:4391-4398 CompressorThread::tick *)
Definition arm_budget (defer_phases deferred_mode : bool) (max_map_count fresh : Z) (s : Vma) : Vma :=
  let on := negb defer_phases && (0 <? max_map_count) && (0 <? vma_count_cached s) in
  let vma_now := if deferred_mode then fresh else vma_count_cached s in
  mkVma (vma_max s) (vma_estimate s) (vma_near_at s) (vma_near_cap s) (vma_count_cached s) on
    (if on then max_map_count - cfg_vma_margin s - vma_now else vma_budget s) (vma_budget_skips s) (cfg_vma_margin s).

(* src/compress/compressor_thread.h:546-551 CompressorThread::chargeVmaBudget *)
Definition chargeVmaBudget (n : Z) (s : Vma) : bool * Vma :=
  if negb (vma_budget_on s) then (true, s)
  else
    let old := vma_budget s in
    let granted := n <=? old in
    (granted, mkVma (vma_max s) (vma_estimate s) (vma_near_at s) (vma_near_cap s) (vma_count_cached s) true (old - n)
                (if granted then vma_budget_skips s else u64 (vma_budget_skips s + 1)) (cfg_vma_margin s)).

(* src/compress/compressor_thread.h:3393-3399 CompressorThread::noteFaultSplits *)
Definition noteFaultSplits (n : Z) (s : Vma) : Vma :=
  if n <=? 0 then s
  else if vma_near_at s <=? 0 then s
  else mkVma (vma_max s) (vma_estimate s + n) (vma_near_at s) (vma_near_cap s || (vma_near_at s <=? vma_estimate s + n)) (vma_count_cached s)
         (vma_budget_on s) (vma_budget s) (vma_budget_skips s) (cfg_vma_margin s).

Definition kMaxVmaRunPages : Z := 2 ^ 16.
Definition kNearCapVmaPages : Z := 64.
Definition kNearCapVmaPagesMid : Z := 512.
Definition kNearCapVmaPagesMax : Z := 4096.

(* src/compress/compressor_thread.h:3369-3375 CompressorThread::nearCapVmaLimit *)
Definition nearCapVmaLimit (s : Vma) : Z :=
  let headroom := vma_max s - vma_estimate s in
  if Z.quot (cfg_vma_margin s) 2 <? headroom then kNearCapVmaPages
  else if Z.quot (cfg_vma_margin s) 4 <? headroom then kNearCapVmaPagesMid
  else kNearCapVmaPagesMax.

(** ** Ranges to restore *)

Section Ranges.
Context (states : Z -> PageState).

Definition maybeSameVma (j : Z) : bool := match states j with COMPRESSED | ACTIVE_MONITORING => true | _ => false end.

(* src/compress/compressor_thread.h:3380-3389 CompressorThread::inaccessibleNeighbors *)
Definition inaccessibleNeighbors (committed page_idx : Z) : Z :=
  (if (0 <? page_idx) && maybeSameVma (page_idx - 1) then 1 else 0) + (if (page_idx + 1 <? committed) && maybeSameVma (page_idx + 1) then 1 else 0).

(** The two scans along pages in state [cls]. *)
Fixpoint scan_left (n : nat) (cls : PageState) (page_idx limit l : Z) : Z :=
  match n with
  | O => l
  | S n => if (0 <? l) && (page_idx - l <? limit) && bool_decide (states (l - 1) = cls) then scan_left n cls page_idx limit (l - 1) else l
  end.
Fixpoint scan_right (n : nat) (cls : PageState) (fin page_idx limit r : Z) : Z :=
  match n with
  | O => r
  | S n => if (r <? fin) && (r - page_idx - 1 <? limit) && bool_decide (states r = cls) then scan_right n cls fin page_idx limit (r + 1) else r
  end.

(** The range that is restored, if any. *)
(* src/compress/compressor_thread.h:3469-3498 CompressorThread::restoreNearCap *)
Definition near_cap_range (have_fd : bool) (contig committed npages limit page_idx : Z) : option (Z * Z) :=
  if negb have_fd then None
  else if contig <=? page_idx then None
  else
    let fin := Z.min (Z.min committed contig) npages in
    if fin <=? page_idx then None
    else
      let cls := states page_idx in
      if negb (maybeSameVma page_idx) then None
      else
        let l := scan_left (Z.to_nat limit) cls page_idx limit page_idx in
        let r := scan_right (Z.to_nat limit) cls fin page_idx limit (page_idx + 1) in
        let left_end := (l =? 0) || negb (bool_decide (states (l - 1) = cls)) in
        let right_end := (r =? fin) || negb (bool_decide (states r = cls)) in
        let range :=
          if left_end && right_end && (r - l - 1 <=? limit) then Some (l, r)
          else if left_end && (negb right_end || (page_idx - l <=? r - 1 - page_idx)) then Some (l, page_idx + 1)
          else if right_end then Some (page_idx, r)
          else None in
        match range with
        | Some (lo, hi) => if hi - lo <? 2 then None else Some (lo, hi)
        | None => None
        end.
End Ranges.

(* src/compress/compressor_thread.h:3446-3462 CompressorThread::restoreWholeVma *)
Definition whole_vma_range `{PageGeometry} (have_fd : bool) (maps : option (list (list Z))) (base contig npages page_idx : Z) : option (Z * Z) :=
  if negb have_fd then None
  else if contig <=? page_idx then None
  else
    match findVma maps (u64 (base + page_idx * kPageSize)) with
    | None => None
    | Some (vlo, vhi) =>
      let lo := if vlo <=? base then 0 else (vlo - base) / kPageSize in
      let hi := u64 (u64 (u64 (vhi - base) + kPageSize) - 1) / kPageSize in
      let hi := if contig <? hi then contig else hi in
      let hi := if npages <? hi then npages else hi in
      let lo := if kMaxVmaRunPages / 2 <? page_idx - lo then page_idx - kMaxVmaRunPages / 2 else lo in
      let hi := if kMaxVmaRunPages / 2 <? hi - page_idx then page_idx + kMaxVmaRunPages / 2 else hi in
      Some (lo, hi)
    end.

(** ** Reading the maps *)

(** A line: the digits of its bounds, and what follows. *)
Record Line := mkLine { d_start : list Z; d_end : list Z; l_rest : list Z }.
Definition hex_of (v : Z) (l : list Z) : Z := foldl (fun v c => v * 16 + hexval c) v l.
Definition lo_of (l : Line) : Z := hex_of 0 (d_start l).
Definition hi_of (l : Line) : Z := hex_of 0 (d_end l).
Definition text (l : Line) : list Z := d_start l ++ [ch_dash] ++ d_end l ++ [ch_space] ++ l_rest l ++ [ch_newline].

Record line_ok (l : Line) : Prop := {
  lk_start : Forall (fun c => 0 <= hexval c) (d_start l); lk_end : Forall (fun c => 0 <= hexval c) (d_end l);
  lk_rest : Forall (fun c => c <> ch_newline) (l_rest l); lk_lo : lo_of l < 2 ^ 64; lk_hi : hi_of l < 2 ^ 64
}.

Lemma hexval_bound c : hexval c < 16.
Proof. unfold hexval. repeat case_if; lia. Qed.

Lemma hex_of_ge l : Forall (fun c => 0 <= hexval c) l -> forall v, 0 <= v -> v <= hex_of v l.
Proof. induction 1 as [|c l Hc Hl IH]; intros v Hv; [done|]. cbn. specialize (IH (v * 16 + hexval c) ltac:(lia)). unfold hex_of in IH. lia. Qed.

Lemma scan_done addr st l r : outcome st = Some r -> foldl (scan_char addr) st l = st.
Proof. intros H. induction l as [|c l IH]; [done|]. cbn [foldl]. unfold scan_char at 2. rewrite H. exact IH. Qed.

Lemma hex_plain c : 0 <= hexval c -> c <> ch_dash /\ c <> ch_space /\ c <> ch_newline.
Proof. intros H. repeat split; intros ->; vm_compute in H; done. Qed.

Lemma scan_start addr e l : Forall (fun c => 0 <= hexval c) l -> forall v, 0 <= v -> hex_of v l < 2 ^ 64 -> foldl (scan_char addr) (mkScan 0 v e None) l = mkScan 0 (hex_of v l) e None.
Proof.
  induction 1 as [|c l Hc Hl IH]; intros v Hv Hb; [done|]. cbn [foldl hex_of] in *. destruct (hex_plain c Hc) as (P1 & _ & _). pose proof (hexval_bound c).
  pose proof (hex_of_ge l Hl (v * 16 + hexval c) ltac:(lia)). change (foldl _ (v * 16 + hexval c) l) with (hex_of (v * 16 + hexval c) l) in *.
  unfold scan_char at 2. cbn. rewrite (proj2 (Z.eqb_neq c ch_dash)), (proj2 (Z.leb_le 0 (hexval c))) by done. rewrite (wrap_small 64 (v * 16)) by lia. rewrite wrap_small by lia. apply IH; lia.
Qed.

Lemma scan_end addr s l : Forall (fun c => 0 <= hexval c) l -> forall v, 0 <= v -> hex_of v l < 2 ^ 64 -> foldl (scan_char addr) (mkScan 1 s v None) l = mkScan 1 s (hex_of v l) None.
Proof.
  induction 1 as [|c l Hc Hl IH]; intros v Hv Hb; [done|]. cbn [foldl hex_of] in *. destruct (hex_plain c Hc) as (_ & P2 & _). pose proof (hexval_bound c).
  pose proof (hex_of_ge l Hl (v * 16 + hexval c) ltac:(lia)). change (foldl _ (v * 16 + hexval c) l) with (hex_of (v * 16 + hexval c) l) in *.
  unfold scan_char at 2. cbn. rewrite (proj2 (Z.eqb_neq c ch_space)), (proj2 (Z.leb_le 0 (hexval c))) by done. rewrite (wrap_small 64 (v * 16)) by lia. rewrite wrap_small by lia. apply IH; lia.
Qed.

Lemma scan_rest addr s e l : Forall (fun c => c <> ch_newline) l -> foldl (scan_char addr) (mkScan 2 s e None) l = mkScan 2 s e None.
Proof. induction 1 as [|c l Hc Hl IH]; [done|]. cbn [foldl]. unfold scan_char at 2. cbn. by rewrite (proj2 (Z.eqb_neq c ch_newline)). Qed.

(** One line. *)
Lemma scan_line addr l rest : line_ok l ->
  foldl (scan_char addr) (mkScan 0 0 0 None) (text l ++ rest) =
  if (lo_of l <=? addr) && (addr <? hi_of l) then mkScan 1 (lo_of l) (hi_of l) (Some (Some (lo_of l, hi_of l)))
  else if addr <? lo_of l then mkScan 1 (lo_of l) (hi_of l) (Some None)
  else foldl (scan_char addr) (mkScan 0 0 0 None) rest.
Proof.
  intros [H1 H2 H3 H4 H5]. unfold text. rewrite <- !app_assoc, foldl_app, (scan_start addr 0 _ H1) by (lia || done). fold (lo_of l). rewrite foldl_app. change (foldl (scan_char addr) (mkScan 0 (lo_of l) 0 None) [ch_dash]) with (mkScan 1 (lo_of l) 0 None).
  rewrite foldl_app, (scan_end addr _ _ H2) by (lia || done). fold (hi_of l). rewrite foldl_app. cbn [foldl]. unfold scan_char at 2. cbn.
  destruct ((lo_of l <=? addr) && (addr <? hi_of l)); [by erewrite scan_done|]. destruct (addr <? lo_of l); [by erewrite scan_done|]. rewrite foldl_app, (scan_rest addr _ _ _ H3). cbn. done.
Qed.

Lemma foldl_chunks {A B} (f : A -> B -> A) (a : A) bufs : foldl (fun st buf => foldl f st buf) a bufs = foldl f a (mjoin bufs).
Proof. revert a. induction bufs as [|b bufs IH]; intros a; [done|]. cbn. rewrite foldl_app. apply IH. Qed.

Lemma count_newlines n l : foldl (fun n ch => n + (if ch =? ch_newline then 1 else 0)) n l = n + zlen (filter (fun c => c = ch_newline) l).
Proof. revert n. induction l as [|c l IH]; intros n; [change (zlen _) with 0; cbn; lia|]. cbn [foldl]. rewrite IH, filter_cons. destruct (Z.eqb_spec c ch_newline); [rewrite decide_True, zlen_cons by done|rewrite decide_False by done]; lia. Qed.

Lemma no_newlines l : Forall (fun c => c <> ch_newline) l -> filter (fun c => c = ch_newline) l = [].
Proof. induction 1 as [|c l Hc Hl IH]; [done|]. by rewrite filter_cons, decide_False. Qed.

(** C29: The two readers of /proc/self/maps are right for any lines that are in
    order and do not overlap, with any text after the bounds, and however the
    file is cut into pieces by the reads: [findVma] finds the mapping that
    contains the address, and nothing if there is none, and [readVmaCount]
    counts the mappings. *)
Theorem maps_readers_correct (lines : list Line) (bufs : list (list Z)) (addr : Z) :
  Forall line_ok lines -> StronglySorted (fun a b => hi_of a <= lo_of b) lines -> Forall (fun l => lo_of l < hi_of l) lines ->
  mjoin bufs = mjoin (map text lines) ->
  (forall l, l ∈ lines -> lo_of l <= addr < hi_of l -> findVma (Some bufs) addr = Some (lo_of l, hi_of l)) /\
  ((forall l, l ∈ lines -> ~ lo_of l <= addr < hi_of l) -> findVma (Some bufs) addr = None) /\
  readVmaCount (Some bufs) = zlen lines.
Proof.
  intros Hok Hs Hne Hb. unfold findVma, readVmaCount. rewrite !foldl_chunks, Hb, count_newlines. clear Hb bufs. induction Hok as [|l lines Hl Hok IH]; [split; [by intros l ?%elem_of_nil|done]|].
  apply StronglySorted_inv in Hs as [Hs Hl']. apply Forall_cons in Hne as [Hn Hne]. rewrite Forall_forall in Hl'. destruct (IH Hs Hne) as (I1 & I2 & I3). change (mjoin (map text (l :: lines))) with (text l ++ mjoin (map text lines)). rewrite scan_line by done.
  split; [|split].
  - intros k [->|Hk]%elem_of_cons Hin; [by rewrite (proj2 (Z.leb_le _ _)), (proj2 (Z.ltb_lt _ _)) by lia|]. specialize (Hl' k Hk). rewrite (proj2 (Z.ltb_ge addr (hi_of l))), andb_false_r, (proj2 (Z.ltb_ge addr (lo_of l))) by lia. by apply I1.
  - intros Hno. destruct (Z.leb_spec (lo_of l) addr), (Z.ltb_spec addr (hi_of l)); cbn [andb]; try (exfalso; apply (Hno l); [by apply elem_of_cons; left|lia]).
    + rewrite (proj2 (Z.ltb_ge addr (lo_of l))) by lia. apply I2. intros k Hk. apply Hno. by apply elem_of_cons; right.
    + by rewrite (proj2 (Z.ltb_lt addr (lo_of l))) by lia.
  - destruct Hl as [H1 H2 H3 _ _]. unfold text at 1. rewrite !filter_app. assert (Hex : forall d, Forall (fun c => 0 <= hexval c) d -> filter (fun c => c = ch_newline) d = []) by (intros d Hd; apply no_newlines; eapply Forall_impl; [exact Hd|]; cbn; intros c Hc; by destruct (hex_plain c Hc) as (_ & _ & ?)).
    rewrite (Hex _ H1), (Hex _ H2), (no_newlines _ H3). change (filter (fun c => c = ch_newline) [ch_dash]) with (@nil Z). change (filter (fun c => c = ch_newline) [ch_space]) with (@nil Z). change (filter (fun c => c = ch_newline) [ch_newline]) with [ch_newline]. cbn [app]. rewrite zlen_cons, zlen_cons. lia.
Qed.

(** "1000-2000 x" and "3000-a000 y", cut inside the second line. *)
Lemma maps_readers_correct_witness :
  let l1 := mkLine [49; 48; 48; 48] [50; 48; 48; 48] [120] in let l2 := mkLine [51; 48; 48; 48] [97; 48; 48; 48] [121] in
  findVma (Some [text l1 ++ [51; 48]; [48; 48; 45; 97; 48; 48; 48; 32; 121; 10]]) 0x9fff = Some (0x3000, 0xa000).
Proof.
  intros l1 l2. assert (Hok : Forall line_ok [l1; l2]) by (repeat (constructor; [constructor; [repeat (constructor; [discriminate|])..|reflexivity|reflexivity]; try constructor; try discriminate; constructor|]); constructor).
  refine (proj1 (maps_readers_correct [l1; l2] _ 0x9fff Hok _ _ eq_refl) l2 _ _).
  - repeat constructor. discriminate.
  - repeat constructor.
  - apply elem_of_cons. right. apply elem_of_cons. left. reflexivity.
  - split; [discriminate|reflexivity].
Defined.

(** ** The budget *)

(** What a sequence of charges is granted. *)
Fixpoint charges (l : list Z) (s : Vma) : Z * Vma :=
  match l with
  | [] => (0, s)
  | n :: l => let '(ok, s) := chargeVmaBudget n s in let '(g, s) := charges l s in ((if ok then n else 0) + g, s)
  end.

(** The charges granted, to all workers in any order, fit into the budget. *)
Lemma charges_le l : forall s, vma_budget_on s = true -> Forall (fun n => 0 <= n) l -> (charges l s).1 <= Z.max 0 (vma_budget s).
Proof.
  induction l as [|n l IH]; intros s Hon Hl; [cbn; lia|]. apply Forall_cons in Hl as [Hn Hl]. cbn [charges]. unfold chargeVmaBudget. rewrite Hon. cbn [negb].
  match goal with |- context [charges l ?s'] => specialize (IH s' eq_refl Hl); destruct (charges l s') as [g s2] end. cbn [fst vma_budget] in *. destruct (Z.leb_spec n (vma_budget s)); lia.
Qed.

(** ** Runs of pages *)

Lemma scan_left_spec st cls p limit : forall n l, 0 <= l <= p -> p - l + Z.of_nat n = limit -> (forall j, l <= j <= p -> st j = cls) ->
  let l' := scan_left st n cls p limit l in 0 <= l' <= l /\ p - l' <= limit /\ forall j, l' <= j <= p -> st j = cls.
Proof.
  induction n as [|n IH]; intros l Hl Hn Hc; cbn [scan_left]; [split; [lia|split; [lia|done]]|]. destruct ((0 <? l) && (p - l <? limit) && bool_decide (st (l - 1) = cls)) eqn:E; [|split; [lia|split; [lia|done]]].
  apply andb_prop in E as [E1 E2]. apply bool_decide_eq_true in E2. destruct (IH (l - 1) ltac:(lia) ltac:(lia)) as (H1 & H2 & H3); [|split; [lia|done]]. intros j Hj. destruct (decide (j = l - 1)) as [->|]; [done|apply Hc; lia].
Qed.

Lemma scan_right_spec st cls fin p limit : forall n r, p < r <= fin -> r - p - 1 + Z.of_nat n = limit -> (forall j, p <= j < r -> st j = cls) ->
  let r' := scan_right st n cls fin p limit r in r <= r' <= fin /\ r' - p - 1 <= limit /\ forall j, p <= j < r' -> st j = cls.
Proof.
  induction n as [|n IH]; intros r Hr Hn Hc; cbn [scan_right]; [split; [lia|split; [lia|done]]|]. destruct ((r <? fin) && (r - p - 1 <? limit) && bool_decide (st r = cls)) eqn:E; [|split; [lia|split; [lia|done]]].
  apply andb_prop in E as [E1 E2]. apply bool_decide_eq_true in E2. destruct (IH (r + 1) ltac:(lia) ltac:(lia)) as (H1 & H2 & H3); [|split; [lia|done]]. intros j Hj. destruct (decide (j = r)) as [->|]; [done|apply Hc; lia].
Qed.

(** The changes of protection between neighbouring pages, of the first [n]. *)
Fixpoint changes (f : Z -> Z) (n : nat) : Z :=
  match n with
  | O => 0
  | S n => (if f (Z.of_nat n) =? f (Z.of_nat n + 1) then 0 else 1) + changes f n
  end.

(** A change removed at [a] makes up for one added at [b]. *)
Lemma changes_trade f g a b n : (forall i, i <> a -> i <> b -> f i = f (i + 1) -> g i = g (i + 1)) -> a <> b -> f a <> f (a + 1) -> g a = g (a + 1) ->
  changes g n <= changes f n + (if decide (0 <= b < Z.of_nat n) then 1 else 0) - (if decide (0 <= a < Z.of_nat n) then 1 else 0).
Proof.
  intros H Hab Ha1 Ha2. induction n as [|n IH]; [cbn; repeat case_decide; lia|]. cbn [changes]. set (i := Z.of_nat n) in *. replace (Z.of_nat (S n)) with (i + 1) by lia.
  destruct (decide (i = a)) as [Ea|Na]; [|destruct (decide (i = b)) as [Eb|Nb]].
  - rewrite Ea in *. rewrite (proj2 (Z.eqb_neq (f a) _)), (proj2 (Z.eqb_eq (g a) _)) by done. repeat case_decide; lia.
  - rewrite Eb in *. destruct (f b =? f (b + 1)), (g b =? g (b + 1)); repeat case_decide; lia.
  - destruct (Z.eqb_spec (f i) (f (i + 1))) as [E|E]; [rewrite (proj2 (Z.eqb_eq (g i) _)) by auto|destruct (g i =? g (i + 1))]; repeat case_decide; lia.
Qed.

Definition restored_to (states : Z -> PageState) (lo hi : Z) : Z -> PageState := fun j => if (lo <=? j) && (j <? hi) then ACTIVE else states j.

(** Near the limit a fault restores a run of pages in the state of the
    faulting page: the run contains that page, has at least two pages and at
    most [limit] besides it, lies in the committed part of the region, and
    reaches an end of the pages in that state.  If the page beyond that end is
    accessible, restoring the run adds no mapping: the protection does not
    change more often along the pages than before. *)
Lemma near_cap_restore (st : Z -> PageState) (have_fd : bool) (contig committed npages limit p lo hi : Z) (prot : PageState -> Z) (n : nat) :
  0 <= p -> 0 <= limit -> near_cap_range st have_fd contig committed npages limit p = Some (lo, hi) ->
  prot (st p) <> prot ACTIVE ->
  let fin := Z.min (Z.min committed contig) npages in
  let left_end := lo = 0 \/ st (lo - 1) <> st p in let right_end := hi = fin \/ st hi <> st p in
  0 <= lo <= p /\ p < hi <= fin /\ 2 <= hi - lo <= limit + 1 /\ (forall j, lo <= j < hi -> st j = st p) /\ (left_end \/ right_end) /\
  ((0 < lo /\ st (lo - 1) = ACTIVE \/ hi < fin /\ st hi = ACTIVE) -> fin <= Z.of_nat n + 1 ->
   changes (fun j => prot (restored_to st lo hi j)) n <= changes (fun j => prot (st j)) n).
Proof.
  intros Hp Hl H Hprot fin. unfold near_cap_range in H. destruct (negb have_fd); [done|]. destruct (Z.leb_spec contig p); [done|]. fold fin in H. destruct (Z.leb_spec fin p) as [|Hfin]; [done|]. destruct (negb (maybeSameVma st p)); [done|].
  pose proof (scan_left_spec st (st p) p limit (Z.to_nat limit) p ltac:(lia) ltac:(lia) ltac:(intros j Hj; by replace j with p by lia)) as (L1 & L2 & L3). set (l := scan_left _ _ _ _ _ _) in *.
  pose proof (scan_right_spec st (st p) fin p limit (Z.to_nat limit) (p + 1) ltac:(lia) ltac:(lia) ltac:(intros j Hj; by replace j with p by lia)) as (R1 & R2 & R3). set (r := scan_right _ _ _ _ _ _ _) in *.
  assert (LE : (l =? 0) || negb (bool_decide (st (l - 1) = st p)) = true -> l = 0 \/ st (l - 1) <> st p) by (intros [E|E]%orb_prop; [left; lia|right; apply negb_true_iff, bool_decide_eq_false in E; done]).
  assert (RE : (r =? fin) || negb (bool_decide (st r = st p)) = true -> r = fin \/ st r <> st p) by (intros [E|E]%orb_prop; [left; lia|right; apply negb_true_iff, bool_decide_eq_false in E; done]).
  set (le := (l =? 0) || _) in *. set (re := (r =? fin) || _) in *.
  assert (Main : 0 <= lo <= p /\ p < hi <= fin /\ 2 <= hi - lo <= limit + 1 /\ (forall j, lo <= j < hi -> st j = st p) /\ ((lo = 0 \/ st (lo - 1) <> st p) \/ (hi = fin \/ st hi <> st p))).
  { assert (Hst : forall j, l <= j < r -> st j = st p) by (intros j Hj; destruct (decide (j <= p)); [apply L3; lia|apply R3; lia]).
    destruct le eqn:Ele, re eqn:Ere; cbn [andb negb orb] in H; try destruct (Z.leb_spec (r - l - 1) limit); try destruct (Z.leb_spec (p - l) (r - 1 - p)); cbn [andb orb] in H; try (destruct (_ <? 2) eqn:E2; [done|]; injection H as <- <-); try done;
      (split; [lia|]); (split; [lia|]); (split; [lia|]); (split; [intros j Hj; apply Hst; lia|]); auto. }
  clear H LE RE L1 L2 L3 R1 R2 R3. clearbody le re l r. destruct Main as (M1 & M2 & M3 & M4 & M5). split; [done|]. split; [done|]. split; [done|]. split; [done|]. split; [exact M5|].
  intros Hend Hn. assert (Hin : forall j, lo <= j < hi -> restored_to st lo hi j = ACTIVE) by (intros j Hj; unfold restored_to; by rewrite (proj2 (Z.leb_le lo j)), (proj2 (Z.ltb_lt j hi)) by lia).
  assert (Hout : forall j, ~ lo <= j < hi -> restored_to st lo hi j = st j) by (intros j Hj; unfold restored_to; destruct (Z.leb_spec lo j), (Z.ltb_spec j hi); cbn; done || lia).
  assert (T : forall a b, (a = lo - 1 /\ b = hi - 1 \/ a = hi - 1 /\ b = lo - 1) -> prot (st a) <> prot (st (a + 1)) -> prot (restored_to st lo hi a) = prot (restored_to st lo hi (a + 1)) -> 0 <= a < Z.of_nat n ->
    changes (fun j => prot (restored_to st lo hi j)) n <= changes (fun j => prot (st j)) n).
  { intros a b Hab Ha1 Ha2 Ha. pose proof (changes_trade (fun j => prot (st j)) (fun j => prot (restored_to st lo hi j)) a b n) as C. cbn beta in C. specialize (C ltac:(intros i N1 N2 E; destruct (decide (lo <= i < hi)); [rewrite !Hin by lia; done|rewrite !Hout by lia; done]) ltac:(lia) Ha1 Ha2). repeat case_decide; lia. }
  destruct Hend as [[Hlo E]|[Hhi E]].
  - apply (T (lo - 1) (hi - 1)); [by left| | |lia].
    + replace (lo - 1 + 1) with lo by lia. rewrite E, (M4 lo) by lia. congruence.
    + replace (lo - 1 + 1) with lo by lia. by rewrite (Hin lo), (Hout (lo - 1)), E by lia.
  - apply (T (hi - 1) (lo - 1)); [by right| | |lia].
    + replace (hi - 1 + 1) with hi by lia. rewrite E, (M4 (hi - 1)) by lia. congruence.
    + replace (hi - 1 + 1) with hi by lia. by rewrite (Hin (hi - 1)), (Hout hi), E by lia.
Qed.

(** A fault on page 5 of the run 3 to 9, with page 2 accessible. *)
(** Whatever the file holds, a mapping that is found contains the address. *)
Lemma findVma_contains maps addr lo hi : findVma maps addr = Some (lo, hi) -> lo <= addr < hi.
Proof.
  unfold findVma. destruct maps as [bufs|]; [|done]. rewrite foldl_chunks. set (good st := forall lo hi, outcome st = Some (Some (lo, hi)) -> lo <= addr < hi).
  assert (G : forall l st, good st -> good (foldl (scan_char addr) st l)).
  { induction l as [|c l IH]; intros st Hst; [done|]. cbn [foldl]. apply IH. unfold scan_char. destruct (outcome st) as [r|] eqn:E; [done|].
    repeat match goal with |- context [if ?b then _ else _] => destruct b eqn:? end; try done; intros lo' hi'; cbn; try discriminate; try congruence. intros [= <- <-]. lia. }
  specialize (G (mjoin bufs) (mkScan 0 0 0 None) ltac:(done)). unfold good in G. destruct (outcome _) as [[[a b]|]|]; cbn; try done. intros [= <- <-]. by apply G.
Qed.

(** The range of a whole mapping holds the page, within the region and the
    bound on the work. *)
Lemma whole_vma_range_spec `{PageGeometry} have_fd maps base contig npages p lo hi :
  0 <= p < npages -> 0 <= base -> base + contig * kPageSize <= 2 ^ 62 -> whole_vma_range have_fd maps base contig npages p = Some (lo, hi) ->
  (forall vlo vhi, findVma maps (base + p * kPageSize) = Some (vlo, vhi) -> 0 <= vlo /\ vhi < 2 ^ 63) ->
  0 <= lo <= p /\ p < hi <= Z.min contig npages /\ hi - lo <= kMaxVmaRunPages.
Proof.
  intros Hp Hb Hc. pose proof pg_pos as Hpg. unfold whole_vma_range. destruct (negb have_fd); [done|]. destruct (Z.leb_spec contig p); [done|]. rewrite (wrap_small 64 (base + p * kPageSize)) by nia.
  destruct (findVma maps (base + p * kPageSize)) as [[vlo vhi]|] eqn:E; [|done]. pose proof (findVma_contains _ _ _ _ E) as Hin. intros Hr Hk. destruct (Hk vlo vhi eq_refl) as [K1 K2]. clear Hk.
  rewrite (wrap_small 64 (vhi - base)) in Hr by nia. rewrite (wrap_small 64 (vhi - base + kPageSize)) in Hr by nia. rewrite (wrap_small 64 (vhi - base + kPageSize - 1)) in Hr by nia.
  set (a := (vlo - base) / kPageSize) in Hr. set (b := (vhi - base + kPageSize - 1) / kPageSize) in Hr.
  assert (Ha : base < vlo -> 0 <= a <= p) by (intros Hv; unfold a; split; [apply Z.div_pos; lia|apply Z.div_le_upper_bound; nia]).
  assert (Hbb : p < b) by (unfold b; apply Z.lt_le_trans with (p + 1); [lia|apply Z.div_le_lower_bound; nia]). clearbody a b. unfold kMaxVmaRunPages in *. change (2 ^ 16 / 2) with 32768 in Hr. injection Hr as <- <-.
  destruct (Z.leb_spec vlo base); repeat case_if; lia.
Qed.
