(* ===== verification/SoftDirty.v ===== *)
(** * Access tracking by the kernel (src/compress/compressor_thread.h)

    On Linux writes are seen through the soft-dirty bits of /proc/self/pagemap,
    read in batches for the pages of the region and singly for others, and
    reads through the idle bitmap of physical pages.  The kernel's files are
    arguments. *)

From S2P Require Import Prelude BitOps Config VmArena.

Definition kBatchPages : Z := 4096.
Definition kSoftDirtyBit : Z := 55.

Section SoftDirty.
Context `{PageGeometry}.
(** The addresses of pages (zero for none); the entry of /proc/self/pagemap for
    a page number; and how many bytes a read of [n] bytes at [off] returns. *)
Context (pageAddress pagemap : Z -> Z) (pread_got : Z -> Z -> Z) (contig_pages : Z).

(** Entries read at an offset. *)
Definition entries_at (off n : Z) : list Z := map (fun k => pagemap (off / 8 + k)) (seqZ 0 n).

Definition mark (accessed : gmap Z bool) (i entry : Z) : gmap Z bool :=
  if Z.land entry (Z.shiftl 1 kSoftDirtyBit) =? 0 then accessed else <[i := true]> accessed.

Fixpoint mark_all (accessed : gmap Z bool) (i : Z) (l : list Z) : gmap Z bool :=
  match l with
  | [] => accessed
  | e :: l => mark_all (mark accessed i e) (i + 1) l
  end.

(** The loop over the region; [n] bounds its turns, each of which advances. *)
(* src/compress/compressor_thread.h:3638-3659 CompressorThread::readSoftDirty *)
Fixpoint read_contig (n : nat) (i contig_end : Z) (accessed : gmap Z bool) : gmap Z bool :=
  match n with
  | O => accessed
  | S n =>
    if contig_end <=? i then accessed
    else
      let batch := Z.min (contig_end - i) kBatchPages in
      let pa := pageAddress i in
      if pa =? 0 then read_contig n (i + 1) contig_end accessed
      else
        let pfn_off := pa / kPageSize * 8 in
        let got := pread_got pfn_off (batch * 8) in
        if got <=? 0 then accessed
        else
          let got_pages := got / 8 in
          let accessed := mark_all accessed i (entries_at pfn_off got_pages) in
          if got_pages <? batch then accessed else read_contig n (i + got_pages) contig_end accessed
  end.

(* src/compress/compressor_thread.h:3673-3684 CompressorThread::readSoftDirty *)
Definition read_external (accessed : gmap Z bool) (i : Z) : gmap Z bool :=
  let pa := pageAddress i in
  if pa =? 0 then accessed
  else
    let pfn_off := pa / kPageSize * 8 in
    if pread_got pfn_off 8 =? 8 then mark accessed i (pagemap (pfn_off / 8)) else accessed.

(** [have_fd]: the file is open and the region exists. *)
(* src/compress/compressor_thread.h:3626-3688 CompressorThread::readSoftDirty *)
Definition readSoftDirty (have_fd external_hot : bool) (start fin : Z) (accessed : gmap Z bool) : gmap Z bool :=
  if negb have_fd || (fin <=? start) then accessed
  else
    let contig_end := if fin <? contig_pages then fin else contig_pages in
    let accessed := read_contig (Z.to_nat (contig_end - start)) start contig_end accessed in
    if external_hot then foldl (fun a i => <[i := true]> a) accessed (seqZ contig_pages (fin - contig_pages))
    else
      let start := if start <? contig_pages then contig_pages else start in
      foldl read_external accessed (seqZ start (fin - start)).

(** What a page should be marked with. *)
Definition dirty (i : Z) : bool := negb (pageAddress i =? 0) && Z.testbit (pagemap (pageAddress i / kPageSize)) kSoftDirtyBit.

Lemma mark_spec a i e j : rd false (mark a i e) j = rd false a j || ((i =? j) && Z.testbit e kSoftDirtyBit).
Proof.
  unfold mark, kSoftDirtyBit. assert (E : (Z.land e (Z.shiftl 1 55) =? 0) = negb (Z.testbit e 55)).
  { rewrite Z.shiftl_1_l. destruct (Z.testbit e 55) eqn:T; cbn.
    - apply Z.eqb_neq. intros H0. assert (H1 : Z.testbit (Z.land e (2 ^ 55)) 55 = false) by (by rewrite H0). rewrite Z.land_spec, T in H1. by rewrite Z.pow2_bits_true in H1.
    - apply Z.eqb_eq, Z.bits_inj'. intros n Hn. rewrite Z.land_spec, Z.bits_0. destruct (Z.eq_dec n 55) as [->|Hne]; [by rewrite T|]. by rewrite Z.pow2_bits_false, andb_false_r by lia. }
  rewrite E. destruct (Z.testbit e 55); cbn; [|by rewrite andb_false_r, orb_false_r]. rewrite andb_true_r. unfold rd. destruct (Z.eqb_spec i j) as [->|Hne]; [by rewrite lookup_insert_eq, orb_true_r|by rewrite lookup_insert_ne, orb_false_r].
Qed.

Lemma mark_all_spec f m : forall a i b j,
  rd false (mark_all a i (map f (seqZ b (Z.of_nat m)))) j = rd false a j || ((i <=? j) && (j <? i + Z.of_nat m) && Z.testbit (f (b + (j - i))) kSoftDirtyBit).
Proof.
  induction m as [|m IH]; intros a i b j.
  - assert ((i <=? j) && (j <? i + Z.of_nat 0) = false) as -> by lia. cbn [andb]. by rewrite orb_false_r.
  - rewrite Nat2Z.inj_succ, seqZ_cons by lia. cbn [map mark_all]. replace (Z.pred (Z.succ (Z.of_nat m))) with (Z.of_nat m) by lia. replace (Z.succ b) with (b + 1) by lia. rewrite IH, mark_spec.
    destruct (Z.eqb_spec i j) as [->|Hne].
    + rewrite Z.leb_refl, Z.sub_diag, (proj2 (Z.ltb_lt j (j + Z.succ (Z.of_nat m)))), (proj2 (Z.leb_gt (j + 1) j)), Z.add_0_r by lia. cbn [andb]. by rewrite orb_false_r.
    + cbn [andb]. rewrite orb_false_r. replace (b + 1 + (j - (i + 1))) with (b + (j - i)) by lia. replace (i + 1 + Z.of_nat m) with (i + Z.succ (Z.of_nat m)) by lia. destruct (Z.leb_spec i j), (Z.leb_spec (i + 1) j); done || lia.
Qed.

(** Complete reads; the pages of the region lie one after the other. *)
Context (Hgot : forall off n, 0 < n -> pread_got off n = n) (Hcontig : forall i, 0 <= i < contig_pages -> pageAddress i = pageAddress 0 + i * kPageSize) (Hbase : 0 < pageAddress 0).

Lemma read_contig_spec n : forall i c a j, 0 <= i -> c <= contig_pages -> c - i <= Z.of_nat n -> rd false (read_contig n i c a) j = rd false a j || ((i <=? j) && (j <? c) && dirty j).
Proof.
  pose proof pg_pos as Hpg. induction n as [|n IH]; intros i c a j Hi Hc Hn; cbn [read_contig].
  { assert ((i <=? j) && (j <? c) = false) as -> by lia. cbn [andb]. by rewrite orb_false_r. }
  destruct (Z.leb_spec c i) as [|Hlt]; [assert ((i <=? j) && (j <? c) = false) as -> by lia; cbn [andb]; by rewrite orb_false_r|].
  assert (Hpa : forall k, 0 <= k < c -> pageAddress k = pageAddress 0 + k * kPageSize) by (intros k Hk; apply Hcontig; lia).
  rewrite (proj2 (Z.eqb_neq (pageAddress i) 0)) by (rewrite Hpa by lia; nia). set (batch := Z.min (c - i) kBatchPages). assert (Hb : 0 < batch <= c - i) by (unfold batch, kBatchPages; lia).
  rewrite Hgot by lia. rewrite (proj2 (Z.leb_gt (batch * 8) 0)) by lia. rewrite Z.div_mul by lia. rewrite Z.ltb_irrefl, IH by lia. unfold entries_at. rewrite Z.div_mul by lia.
  replace (seqZ 0 batch) with (seqZ 0 (Z.of_nat (Z.to_nat batch))) by (f_equal; lia). rewrite mark_all_spec, Z.add_0_l, Z2Nat.id by lia.
  rewrite <- orb_assoc. f_equal. destruct (Z.leb_spec i j); [|assert ((i + batch <=? j) = false) as -> by lia; done]. cbn [andb].
  destruct (Z.ltb_spec j (i + batch)).
  - rewrite (proj2 (Z.leb_gt (i + batch) j)), (proj2 (Z.ltb_lt j c)) by lia. cbn [andb orb]. rewrite orb_false_r. unfold dirty. rewrite (Hpa j), (Hpa i) by lia. rewrite (proj2 (Z.eqb_neq (pageAddress 0 + j * kPageSize) 0)) by nia. cbn [negb andb].
    rewrite !Z.div_add by lia. replace (pageAddress 0 / kPageSize + i + (j - i)) with (pageAddress 0 / kPageSize + j) by lia. done.
  - rewrite (proj2 (Z.leb_le (i + batch) j)) by lia. done.
Qed.

Lemma read_external_spec l : forall a j, NoDup l -> rd false (foldl read_external a l) j = rd false a j || (bool_decide (j ∈ l) && dirty j).
Proof.
  pose proof pg_pos as Hpg. induction l as [|i l IH]; intros a j N; [cbn; by rewrite orb_false_r|]. apply NoDup_cons in N as [Ni N]. cbn [foldl]. rewrite IH by done.
  assert (E : rd false (read_external a i) j = rd false a j || ((i =? j) && dirty i)).
  { unfold read_external, dirty. destruct (pageAddress i =? 0); cbn [negb andb]; [by rewrite andb_false_r, orb_false_r|]. rewrite Hgot by lia. rewrite Z.eqb_refl, Z.div_mul by lia. apply mark_spec. }
  rewrite E, <- orb_assoc. f_equal. destruct (Z.eqb_spec i j) as [->|Hne].
  - rewrite (bool_decide_eq_true_2 (j ∈ j :: l)) by (by apply elem_of_cons; left). rewrite (bool_decide_eq_false_2 (j ∈ l)) by done. cbn [andb]. by rewrite orb_false_r.
  - cbn [andb orb]. f_equal. apply bool_decide_ext. rewrite elem_of_cons. split; [by right|by intros [->|?]].
Qed.
End SoftDirty.

(** C28: Reading the soft-dirty bits in batches marks exactly the pages the
    kernel saw written: when the reads are complete, a page between [start] and
    [fin] is marked afterwards if it was before or its bit is set, whether it
    lies in the region or elsewhere, and no other page is; external pages are
    all marked where the profile calls them hot. *)
Theorem readSoftDirty_correct `{PageGeometry} (pageAddress pagemap : Z -> Z) (pread_got : Z -> Z -> Z) (contig_pages : Z) (external_hot : bool) (start fin : Z) (accessed : gmap Z bool) (j : Z) :
  (forall off n, 0 < n -> pread_got off n = n) -> (forall i, 0 <= i < contig_pages -> pageAddress i = pageAddress 0 + i * kPageSize) -> 0 < pageAddress 0 ->
  0 <= start -> start <= contig_pages -> 
  rd false (readSoftDirty pageAddress pagemap pread_got contig_pages true external_hot start fin accessed) j =
  rd false accessed j || ((start <=? j) && (j <? fin) && (dirty pageAddress pagemap j || ((contig_pages <=? j) && external_hot))).
Proof.
  intros Hgot Hcontig Hbase Hs Hsc. unfold readSoftDirty. cbn [negb orb]. destruct (Z.leb_spec fin start) as [|Hlt]; [assert ((start <=? j) && (j <? fin) = false) as -> by lia; cbn [andb]; by rewrite orb_false_r|].
  set (c := if fin <? contig_pages then fin else contig_pages). assert (Hc : c = Z.min fin contig_pages) by (unfold c; case_if; lia).
  assert (R := read_contig_spec pageAddress pagemap pread_got contig_pages Hgot Hcontig Hbase (Z.to_nat (c - start)) start c accessed j Hs ltac:(lia) ltac:(lia)). destruct external_hot.
  - assert (F : forall l a, rd false (foldl (fun a i => <[i := true]> a) a l) j = rd false a j || bool_decide (j ∈ l)).
    { induction l as [|i l IH]; intros a; [cbn; by rewrite orb_false_r|]. cbn [foldl]. rewrite IH. destruct (decide (i = j)) as [->|Hne].
      - unfold rd at 1. rewrite lookup_insert_eq. cbn. rewrite bool_decide_eq_true_2 by (by apply elem_of_cons; left). by rewrite orb_true_r.
      - unfold rd at 1. rewrite lookup_insert_ne by done. fold (rd false a j). f_equal. apply bool_decide_ext. rewrite elem_of_cons. split; [by right|by intros [->|?]]. }
    rewrite F, R, <- orb_assoc. f_equal. rewrite andb_true_r. destruct (Z.leb_spec contig_pages j).
    + rewrite (proj2 (Z.ltb_ge j c)), andb_false_r by lia. cbn [andb orb]. rewrite orb_true_r, andb_true_r, (proj2 (Z.leb_le start j)) by lia. cbn [andb]. destruct (Z.ltb_spec j fin); [apply bool_decide_eq_true_2, elem_of_seqZ; lia|apply bool_decide_eq_false_2; rewrite elem_of_seqZ; lia].
    + rewrite orb_false_r, (bool_decide_eq_false_2 (j ∈ _)) by (rewrite elem_of_seqZ; lia). rewrite orb_false_r. f_equal. f_equal. lia.
  - rewrite (read_external_spec pageAddress pagemap pread_got Hgot) by apply NoDup_seqZ. rewrite R, <- orb_assoc. f_equal. rewrite andb_false_r, orb_false_r.
    assert (Es : (if start <? contig_pages then contig_pages else start) = contig_pages) by (case_if; lia). rewrite Es. destruct (Z.leb_spec contig_pages j).
    + rewrite (proj2 (Z.ltb_ge j c)), andb_false_r, (proj2 (Z.leb_le start j)) by lia. cbn [andb orb]. destruct (Z.ltb_spec j fin); [rewrite bool_decide_eq_true_2 by (apply elem_of_seqZ; lia)|rewrite bool_decide_eq_false_2 by (rewrite elem_of_seqZ; lia)]; done.
    + rewrite (bool_decide_eq_false_2 (j ∈ _)) by (rewrite elem_of_seqZ; lia). cbn [andb]. rewrite orb_false_r. f_equal. f_equal. lia.
Qed.

#[local] Instance small_pages : PageGeometry := {| kPageShift := 12; kPageShift_cases := or_introl eq_refl |}.

(** Two pages of the region and an external one; pages 1 and 2 were written. *)
Lemma readSoftDirty_correct_witness :
  rd false (readSoftDirty (fun i => if i <? 2 then 4096 * (100 + i) else 4096 * 900) (fun n => if (n =? 101) || (n =? 900) then 2 ^ 55 else 0) (fun _ n => n) 2 true false 0 3 ∅) 2 = true.
Proof.
  rewrite (readSoftDirty_correct (fun i => if i <? 2 then 4096 * (100 + i) else 4096 * 900) (fun n => if (n =? 101) || (n =? 900) then 2 ^ 55 else 0) (fun _ n => n) 2 false 0 3 ∅ 2); [reflexivity|reflexivity| |reflexivity|discriminate|discriminate].
  intros i Hi. destruct (decide (i = 0)) as [->|]; [reflexivity|]. replace i with 1 by lia. reflexivity.
Defined.

(** ** Idle pages *)

(** The kernel's bitmap, 64 physical pages per word: a word written is or-ed with
    the current one, and an access clears the bit of its page. *)
Definition kernel_write (bm : gmap Z Z) (idx word : Z) : gmap Z Z := <[idx := Z.lor (rd 0 bm idx) word]> bm.
Definition kernel_access (bm : gmap Z Z) (pfn : Z) : gmap Z Z := <[pfn / 64 := Z.ldiff (rd 0 bm (pfn / 64)) (Z.shiftl 1 (pfn mod 64))]> bm.

(* src/compress/compressor_thread.h:3179-3188 CompressorThread::pfnForPage *)
Definition pfnForPage `{PageGeometry} (pageAddress : Z -> Z) (pagemap : Z -> option Z) (page_idx : Z) : Z :=
  let pa := pageAddress page_idx in
  if pa =? 0 then 0
  else match pagemap (pa / kPageSize) with
       | None => 0
       | Some e => if Z.land (Z.shiftr e 63) 1 =? 0 then 0 else Z.land e (Z.shiftl 1 55 - 1)
       end.

(** The word that is written, from the one that was read. *)
(* src/compress/compressor_thread.h:3191-3201 CompressorThread::markPageIdle *)
Definition mark_word (read : option Z) (pfn : Z) : Z :=
  match read with Some word => Z.lor word (Z.shiftl 1 (pfn mod 64)) | None => Z.shiftl 1 (pfn mod 64) end.
Definition markPageIdle (have_fd readable : bool) (bm : gmap Z Z) (pfn : Z) : gmap Z Z :=
  if negb have_fd || (pfn =? 0) then bm
  else kernel_write bm (pfn / 64) (mark_word (if readable then Some (rd 0 bm (pfn / 64)) else None) pfn).

(* src/compress/compressor_thread.h:3204-3211 CompressorThread::isPageIdle *)
Definition isPageIdle (have_fd readable : bool) (bm : gmap Z Z) (pfn : Z) : bool :=
  if negb have_fd || (pfn =? 0) then false
  else if negb readable then false
  else negb (Z.land (Z.shiftr (rd 0 bm (pfn / 64)) (pfn mod 64)) 1 =? 0).

Lemma bit0 x : negb (Z.land x 1 =? 0) = Z.testbit x 0.
Proof. change 1 with (Z.ones 1). rewrite Z.land_ones by lia. change (2 ^ 1) with 2. rewrite Z.bit0_odd, <- Z.bit0_odd, Z.bit0_eqb. pose proof (Z.mod_pos_bound x 2 ltac:(lia)). destruct (Z.eqb_spec (x mod 2) 0), (Z.eqb_spec (x mod 2) 1); done || lia. Qed.

Lemma isPageIdle_bit bm q : 0 < q -> isPageIdle true true bm q = Z.testbit (rd 0 bm (q / 64)) (q mod 64).
Proof. intros Hq. unfold isPageIdle. rewrite (proj2 (Z.eqb_neq q 0)) by lia. cbn [negb orb]. rewrite bit0, Z.shiftr_spec by lia. done. Qed.

(** Marking a page marks that page and no other. *)
Lemma mark_idle_spec readable bm p q : 0 < p -> 0 < q -> isPageIdle true true (markPageIdle true readable bm p) q = isPageIdle true true bm q || (p =? q).
Proof.
  intros Hp Hq. rewrite !isPageIdle_bit by done. unfold markPageIdle. rewrite (proj2 (Z.eqb_neq p 0)) by lia. cbn [negb orb]. unfold kernel_write, mark_word. pose proof (Z.mod_pos_bound p 64 ltac:(lia)). pose proof (Z.mod_pos_bound q 64 ltac:(lia)).
  pose proof (Z.div_mod p 64 ltac:(lia)). pose proof (Z.div_mod q 64 ltac:(lia)). rewrite rd_insert. destruct (Z.eqb_spec (p / 64) (q / 64)) as [E|E].
  - rewrite E, Z.shiftl_1_l. assert (B : Z.testbit (Z.lor (rd 0 bm (q / 64)) (2 ^ (p mod 64))) (q mod 64) = Z.testbit (rd 0 bm (q / 64)) (q mod 64) || (p =? q)).
    { rewrite Z.lor_spec, Z.pow2_bits_eqb by lia. f_equal. destruct (Z.eqb_spec (p mod 64) (q mod 64)), (Z.eqb_spec p q); done || lia. }
    destruct readable; [rewrite Z.lor_spec, B, orb_assoc; by rewrite orb_diag|exact B].
  - assert (p <> q) by congruence. rewrite (proj2 (Z.eqb_neq p q)) by done. by rewrite orb_false_r.
Qed.

(** An access between the read and the write of the word is forgotten: page 65
    was idle when the word for page 64 was read, is accessed, and is idle again
    after the write, since the bitmap is or-ed with the old word. *)
Lemma idle_access_lost : let bm := markPageIdle true true ∅ 65 in
  isPageIdle true true (kernel_access bm 65) 65 = false /\ isPageIdle true true (kernel_write (kernel_access bm 65) 1 (mark_word (Some (rd 0 bm 1)) 64)) 65 = true.
Proof. by vm_compute. Qed.
