(* ===== verification/Tick.v ===== *)
(** * One tick of the coordinator (src/compress/compressor_thread.h)

    A tick decides which phases run.  The calls it makes to the parts modelled
    elsewhere (the phases, the number of workers, the training of dictionaries,
    the deferred sweep) are recorded in order; what they depend on is read from
    the environment of the tick. *)

From S2P Require Import Prelude Scan VmaBudget.

Definition kBudgetRecomputeEveryTicks : Z := 8.

(** The calls of a tick. *)
Inductive Act :=
| PreTick | EnsureInstalled | Recompute | ReclaimSignal | WarmStdio | RefreshEnviron | DumpStats
| RebuildBitmap (committed : Z) | ResetCounters (nw : Z) | SetRanges (l : list (Z * Z))
| ReadSoftDirty (fin : Z) | ProbeIdle | Dispatch (phase : Z) | ClearSoftDirty
| AdaptWorkers (nw : Z) | TrainDictionaries | SweepDeferred.

(** Settings read at start-up. *)
Record Knobs := mkKnobs {
  k_defer_ms : Z; k_stats_signal : bool; k_debug : bool; k_no_monitor : bool; k_phase3_skip : Z; k_deferred_mode : bool;
  k_pre_tick : bool; k_fault_handler : bool; k_external_hot : bool
}.

(** What the tick finds: the time since start, the limit and the count of
    mappings (at the start and before phase 2), whether SIGUSR2 was taken away,
    the pages, the workers, whether soft-dirty bits can be read, and what the
    workers counted. *)
Record Now := mkNow {
  n_elapsed_ms : Z; n_max_map : Z; n_maps : Z; n_maps_fresh : Z; n_signal_lost : bool; n_committed : Z; n_contig : Z;
  n_active : Z; n_running : bool; n_softdirty : bool; n_eligible : list Z; n_compressed : list Z
}.

Record TickState := mkTs { tick_counter : Z; debug_counter : Z; phase3_idle : Z; vma : Vma }.

Section Tick.
Context (k : Knobs).

(** Up to the count of pages: the state, whether the phases that change
    protections are put off, and the calls. *)
(* src/compress/compressor_thread.h:4210-4331 CompressorThread::tick *)
Definition tick_begin (e : Now) (s : TickState) : TickState * bool * list Act :=
  let counter := u32 (tick_counter s + 1) in
  let deferred := (0 <? k_defer_ms k) && (n_elapsed_ms e <? k_defer_ms k) in
  let '(near, v) := vma_guard (n_max_map e) (n_maps e) (vma s) in
  let dbg := i32 (debug_counter s + 1) in
  let dump := k_debug k && (5 <=? dbg) in
  (mkTs counter (if k_debug k then if dump then 0 else dbg else debug_counter s) (phase3_idle s) v,
   deferred || near,
   (if k_pre_tick k then [PreTick] else []) ++ (if k_fault_handler k then [EnsureInstalled] else []) ++
   (if counter mod kBudgetRecomputeEveryTicks =? 0 then [Recompute] else []) ++
   (if k_stats_signal k && n_signal_lost e then [ReclaimSignal] else []) ++ [WarmStdio; RefreshEnviron] ++ (if dump then [DumpStats] else [])).

Definition worker_sum (nw : Z) (l : list Z) : Z := foldl (fun a x => u64 (a + x)) 0 (take (Z.to_nat nw) l).

(** Whether phase 3 is skipped after many ticks without work. *)
(* src/compress/compressor_thread.h:4414-4437 CompressorThread::tick *)
Definition phase3_decision (thresh : Z) (idle : bool) (idle_ticks : Z) : Z * bool :=
  if 0 <? thresh then
    if idle then let n := idle_ticks + 1 in (n, (thresh <? n) && negb (Z.rem n thresh =? 0)) else (0, false)
  else (idle_ticks, false).

(* src/compress/compressor_thread.h:4332-4463 CompressorThread::tick *)
Definition tick_phases (e : Now) (defer : bool) (s : TickState) : TickState * list Act :=
  if n_committed e =? 0 then (s, [])
  else
    let committed := if k_external_hot k && (n_contig e <? n_committed e) then n_contig e else n_committed e in
    let nw := n_active e in
    let v := arm_budget defer (k_deferred_mode k) (n_max_map e) (n_maps_fresh e) (vma s) in
    let idle := (worker_sum nw (n_compressed e) =? 0) && (worker_sum nw (n_eligible e) =? 0) in
    let '(idle_ticks, skip_phase3) := phase3_decision (k_phase3_skip k) idle (phase3_idle s) in
    (mkTs (tick_counter s) (debug_counter s) idle_ticks v,
     [RebuildBitmap committed; ResetCounters nw; SetRanges (worker_ranges (n_running e && (1 <? nw)) nw committed)] ++
     (if n_softdirty e then [ReadSoftDirty committed] else []) ++ [ProbeIdle; Dispatch 1] ++
     (if negb defer && k_deferred_mode k then [Dispatch 4] else []) ++
     (if negb defer then [Dispatch 2] else []) ++
     (if negb (k_no_monitor k) && negb defer && negb skip_phase3 && negb (n_softdirty e) then [Dispatch 3] else []) ++
     (if n_softdirty e then [ClearSoftDirty] else []) ++ [AdaptWorkers nw; TrainDictionaries; SweepDeferred]).

(* src/compress/compressor_thread.h:4210-4463 CompressorThread::tick *)
Definition tick (e : Now) (s : TickState) : TickState * list Act :=
  let '(s, defer, acts) := tick_begin e s in
  let '(s, rest) := tick_phases e defer s in
  (s, acts ++ rest).
End Tick.

(** ** The limit on mappings *)

Lemma elem_of_cond (b : bool) (a x : Act) : x ∈ (if b then [a] else []) -> b = true /\ x = a.
Proof. destruct b; [by intros ->%list_elem_of_singleton|by intros ?%elem_of_nil]. Qed.

Lemma begin_no_dispatch k e s p : Dispatch p ∉ (tick_begin k e s).2.
Proof.
  unfold tick_begin, vma_guard. cbn [snd]. intros H. repeat (apply elem_of_app in H as [H|H]; [try (apply elem_of_cond in H as [_ H]; discriminate H)|]); [|by apply elem_of_cond in H as [_ H]]. by repeat (apply elem_of_cons in H as [H|H]; [discriminate|]); apply elem_of_nil in H.
Qed.

(** The phases that a tick dispatches, with the reason. *)
Lemma phases_dispatch k e defer s p : Dispatch p ∈ (tick_phases k e defer s).2 -> n_committed e <> 0 /\ (p = 1 \/ defer = false /\ (p = 2 \/ p = 3 \/ p = 4)).
Proof.
  unfold tick_phases. destruct (Z.eqb_spec (n_committed e) 0); [by intros ?%elem_of_nil|]. destruct (phase3_decision _ _ _) as [it sk]. cbn [snd]. intros H. split; [done|].
  repeat (apply elem_of_app in H as [H|H]); try (apply elem_of_cond in H as [Hb H]; first [discriminate H|injection H as ->; right; split; [destruct defer; [cbn in Hb; by rewrite ?andb_false_r in Hb|done]|by auto]]).
  - repeat (apply elem_of_cons in H as [H|H]; [discriminate|]). by apply elem_of_nil in H.
  - apply elem_of_cons in H as [H|H]; [discriminate|]. apply list_elem_of_singleton in H. injection H as ->. by left.
  - repeat (apply elem_of_cons in H as [H|H]; [discriminate|]). by apply elem_of_nil in H.
Qed.

Lemma tick_split k e s : exists s1 defer acts rest, tick_begin k e s = (s1, defer, acts) /\ tick_phases k e defer s1 = ((tick k e s).1, rest) /\ (tick k e s).2 = acts ++ rest /\
  defer = (0 <? k_defer_ms k) && (n_elapsed_ms e <? k_defer_ms k) || (n_max_map e <=? n_maps e + cfg_vma_margin (vma s)) /\ vma s1 = (vma_guard (n_max_map e) (n_maps e) (vma s)).2 /\ phase3_idle s1 = phase3_idle s.
Proof.
  unfold tick. destruct (tick_begin k e s) as [[s1 defer] acts] eqn:E. destruct (tick_phases k e defer s1) as [s2 rest] eqn:E2. exists s1, defer, acts, rest. cbn [fst snd]. unfold tick_begin, vma_guard in E. cbn in E. injection E as <- <- _. by repeat split.
Qed.

(** C26: A tick keeps the number of mappings below its limit.  The phases that
    change protections run only if the count is more than the margin away from
    it, and the splits that the workers are then granted, in whatever order
    and number they ask, do not take the count over the limit less the margin
    (nor further over it, if the reclaim phase was there already). *)
Theorem tick_respects_limit (k : Knobs) (e : Now) (s : TickState) (l : list Z) :
  0 < n_max_map e -> 0 < n_maps e -> Forall (fun n => 0 <= n) l ->
  let s' := (tick k e s).1 in let margin := cfg_vma_margin (vma s) in
  let now := if k_deferred_mode k then n_maps_fresh e else n_maps e in
  (forall p, Dispatch p ∈ (tick k e s).2 -> p = 1 \/ n_maps e + margin < n_max_map e) /\
  (Dispatch 2 ∈ (tick k e s).2 -> now + (charges l (vma s')).1 <= Z.max now (n_max_map e - margin)).
Proof.
  intros Hm Hn Hl s' margin now. destruct (tick_split k e s) as (s1 & defer & acts & rest & E1 & E2 & E3 & Hd & Hv & _). fold s' in E2. rewrite E3.
  assert (Hdis : forall p, Dispatch p ∈ acts ++ rest -> n_committed e <> 0 /\ (p = 1 \/ defer = false /\ (p = 2 \/ p = 3 \/ p = 4))).
  { intros p [Hp|Hp]%elem_of_app; [exfalso; apply (begin_no_dispatch k e s p); by rewrite E1|]. apply (phases_dispatch k e defer s1). by rewrite E2. }
  split.
  - intros p Hp. destruct (Hdis p Hp) as [_ [?|[Hf _]]]; [by left|right]. rewrite Hf in Hd. symmetry in Hd. apply orb_false_elim in Hd as [_ Hd]. unfold margin. lia.
  - intros Hp. destruct (Hdis 2 Hp) as [Hc [?|[Hf _]]]; [done|]. assert (Hs' : vma s' = arm_budget false (k_deferred_mode k) (n_max_map e) (n_maps_fresh e) (vma s1)).
    { unfold tick_phases in E2. rewrite (proj2 (Z.eqb_neq (n_committed e) 0)), Hf in E2 by done. destruct (phase3_decision _ _ _) as [it sk]. injection E2 as <- _. done. }
    rewrite Hs', Hv. unfold vma_guard. cbn [snd]. set (v := arm_budget _ _ _ _ _).
    assert (On : vma_budget_on v = true) by (cbn; by rewrite (proj2 (Z.ltb_lt 0 (n_max_map e))), (proj2 (Z.ltb_lt 0 (n_maps e))) by lia).
    assert (B : vma_budget v = n_max_map e - margin - now) by (cbn; by rewrite (proj2 (Z.ltb_lt 0 (n_max_map e))), (proj2 (Z.ltb_lt 0 (n_maps e))) by lia).
    pose proof (charges_le l v On Hl). lia.
Qed.

Definition default_knobs (skip : Z) : Knobs := mkKnobs 0 false false false skip false true true false.
Definition plain_now : Now := mkNow 5000 65530 1000 1000 false 100 100 2 true false [0; 0] [0; 0].
Definition fresh_ts : TickState := mkTs 0 0 0 (mkVma 0 0 0 false 0 false 0 0 8192).

Lemma tick_respects_limit_witness : 1000 + (charges [2; 2; 2] (vma (tick (default_knobs 0) plain_now fresh_ts).1)).1 <= Z.max 1000 (65530 - 8192).
Proof.
  refine (proj2 (tick_respects_limit (default_knobs 0) plain_now fresh_ts [2; 2; 2] _ _ _) _); [reflexivity|reflexivity|repeat constructor; discriminate|].
  change (tick (default_knobs 0) plain_now fresh_ts).2 with [PreTick; EnsureInstalled; WarmStdio; RefreshEnviron; RebuildBitmap 100; ResetCounters 2; SetRanges [(0, 50); (50, 100)]; ProbeIdle; Dispatch 1; Dispatch 2; Dispatch 3; AdaptWorkers 2; TrainDictionaries; SweepDeferred].
  repeat (apply elem_of_cons; first [left; reflexivity|right]).
Defined.

(** ** Monitoring *)

(** The calls of consecutive ticks. *)
Fixpoint ticks (k : Knobs) (l : list Now) (s : TickState) : list (list Act) :=
  match l with
  | [] => []
  | e :: l => (tick k e s).2 :: ticks k l (tick k e s).1
  end.

(** Nothing but the skipping of idle ticks keeps phase 3 from running. *)
Definition may_monitor (k : Knobs) (margin : Z) (e : Now) : Prop :=
  k_no_monitor k = false /\ n_committed e <> 0 /\ n_softdirty e = false /\ (0 < k_defer_ms k -> k_defer_ms k <= n_elapsed_ms e) /\ n_maps e + margin < n_max_map e.

Lemma tick_monitor k e s : may_monitor k (cfg_vma_margin (vma s)) e ->
  exists idle, let '(n, skip) := phase3_decision (k_phase3_skip k) idle (phase3_idle s) in
  phase3_idle (tick k e s).1 = n /\ cfg_vma_margin (vma (tick k e s).1) = cfg_vma_margin (vma s) /\ (skip = false -> Dispatch 3 ∈ (tick k e s).2).
Proof.
  intros (M1 & M2 & M3 & M4 & M5). destruct (tick_split k e s) as (s1 & defer & acts & rest & E1 & E2 & E3 & Hd & Hv & Hi). rewrite E3.
  exists ((worker_sum (n_active e) (n_compressed e) =? 0) && (worker_sum (n_active e) (n_eligible e) =? 0)).
  assert (Hf : defer = false) by (rewrite Hd; apply orb_false_intro; [destruct (Z.ltb_spec 0 (k_defer_ms k)); cbn; [apply Z.ltb_ge; auto|done]|lia]). rewrite Hf in E2.
  unfold tick_phases in E2. rewrite (proj2 (Z.eqb_neq (n_committed e) 0)) in E2 by done. rewrite <- Hi. destruct (phase3_decision (k_phase3_skip k) _ (phase3_idle s1)) as [n skip] eqn:E. injection E2 as <- <-. split; [done|]. split; [cbn; by rewrite Hv|].
  intros ->. rewrite M1, M3. cbn [negb andb app]. repeat first [apply elem_of_cons; left; reflexivity|apply elem_of_cons; right|apply elem_of_app; right].
Qed.

(** Phase 3 is never skipped for good: with a threshold [t] for skipping
    it, of any [t] consecutive ticks in which it may run at least one runs
    it, whatever work the ticks find. *)
Lemma phase3_reprobed (k : Knobs) (l : list Now) (s : TickState) :
  0 < k_phase3_skip k -> 0 <= phase3_idle s -> Z.of_nat (length l) = k_phase3_skip k -> Forall (may_monitor k (cfg_vma_margin (vma s))) l ->
  exists acts, acts ∈ ticks k l s /\ Dispatch 3 ∈ acts.
Proof.
  intros Ht Hi Hlen Hl. set (t := k_phase3_skip k) in *. enough (G : forall l s, Forall (may_monitor k (cfg_vma_margin (vma s))) l -> 0 <= phase3_idle s ->
    (exists acts, acts ∈ ticks k l s /\ Dispatch 3 ∈ acts) \/ forall n, phase3_idle s < n <= phase3_idle s + Z.of_nat (length l) -> Z.rem n t <> 0).
  { destruct (G l s Hl Hi) as [?|N]; [done|]. exfalso. set (q := phase3_idle s / t + 1). apply (N (q * t)); [|apply Z.rem_mul; lia].
    pose proof (Z.div_mod (phase3_idle s) t ltac:(lia)). pose proof (Z.mod_pos_bound (phase3_idle s) t Ht). unfold q. nia. }
  clear l s Hi Hlen Hl. induction l as [|e l IH]; intros s Hl Hi; [right; intros n Hn; cbn in Hn; lia|]. apply Forall_cons in Hl as [He Hl]. destruct (tick_monitor k e s He) as [idle H]. fold t in H. unfold phase3_decision in H. rewrite (proj2 (Z.ltb_lt 0 t)) in H by done. cbn [ticks length].
  destruct idle; destruct H as (H1 & H2 & H3); [|left; eexists; split; [apply elem_of_cons; by left|by apply H3]].
  destruct (negb (Z.rem (phase3_idle s + 1) t =? 0)) eqn:Er; [|left; eexists; split; [apply elem_of_cons; by left|apply H3; by rewrite andb_false_r]].
  destruct (IH (tick k e s).1) as [(acts & A1 & A2)|N]; [by rewrite H2|lia|left; exists acts; split; [by apply elem_of_cons; right|done]|]. right. intros n Hn. destruct (decide (n = phase3_idle s + 1)) as [->|]; [apply negb_true_iff in Er; lia|]. apply N. lia.
Qed.
