(* ===== verification/Budget.v ===== *)
(** * Time budget of the compressor (src/compress/compressor_thread.h)

    With SMASH_TIME_BUDGET_PCT set, the coordinator ranks the buckets by bytes
    saved per time spent and lets the best ones compress as long as the time
    spent on them fits into the share of the elapsed time. *)

From S2P Require Import Prelude Config Stats Profile ProfileCorrect.

Definition kBudgetExplore : Z := 0.
Definition kBudgetCompress : Z := 1.
Definition kBudgetSkip : Z := 2.

(* src/compress/compressor_thread.h:3721-3727 BucketAgg *)
Record Agg := mkAgg { bidx : Z; agg_count : Z; bytes_saved : Z; time_cost : Z; agg_eff : Z }.
Definition no_agg : Agg := mkAgg 0 0 0 0 0.

(** The sums over the workers. *)
(* src/compress/compressor_thread.h:3738-3754 CompressorThread::recomputeMarginalEfficiency *)
Definition aggregate (ws : list (list SizeClassStats)) (i : Z) : Agg :=
  let '(cnt, bs, tc) := foldl (fun '(cnt, bs, tc) row =>
    let s := zget fresh_stats row i in
    (u32 (cnt + count (s_win s)), u64 (bs + bytes_saved_total (s_bud s)), u64 (tc + time_cost_total_us (s_bud s)))) (0, 0, 0) ws in
  let e := u64 (bs * 256) / tc in
  mkAgg i cnt bs tc (if 0 <? tc then if 0xFFFF <? e then 0xFFFF else e else 0).

Definition with_bud (f : Budget -> Budget) (s : SizeClassStats) : SizeClassStats :=
  mkStats (s_win s) (s_costs s) (s_arms s) (selections s) (s_red s) (f (s_bud s)) (s_prof s).
(** The same change to a bucket of every worker. *)
Definition for_workers (f : Budget -> Budget) (i : Z) (ws : list (list SizeClassStats)) : list (list SizeClassStats) :=
  map (fun row => zset row i (with_bud f (zget fresh_stats row i))) ws.

(* src/compress/compressor_thread.h:3758-3763 CompressorThread::recomputeMarginalEfficiency *)
Definition publish_eff (ws : list (list SizeClassStats)) (a : Agg) : list (list SizeClassStats) :=
  for_workers (fun b => mkBud (bytes_saved_total b) (time_cost_total_us b) (u16 (agg_eff a)) (budget_decision_hint b) (compress_count b) (decompress_count b)) (bidx a) ws.

(* src/compress/compressor_thread.h:3767-3770 CompressorThread::recomputeMarginalEfficiency *)
Definition setHint (ws : list (list SizeClassStats)) (i hint : Z) : list (list SizeClassStats) :=
  for_workers (fun b => mkBud (bytes_saved_total b) (time_cost_total_us b) (efficiency_x256 b) hint (compress_count b) (decompress_count b)) i ws.

Definition swap (l : list Agg) (i j : Z) : list Agg := zset (zset l i (zget no_agg l j)) j (zget no_agg l i).

(** Buckets with eight samples move to the front; [n_rank] of them so far. *)
(* src/compress/compressor_thread.h:3797-3803 CompressorThread::recomputeMarginalEfficiency *)
Fixpoint partition (n : nat) (i n_rank : Z) (l : list Agg) : list Agg * Z :=
  match n with
  | O => (l, n_rank)
  | S n =>
    if 8 <=? agg_count (zget no_agg l i)
    then partition n (i + 1) (n_rank + 1) (if n_rank =? i then l else swap l n_rank i)
    else partition n (i + 1) n_rank l
  end.

(* src/compress/compressor_thread.h:3811-3826 CompressorThread::recomputeMarginalEfficiency *)
Fixpoint accept (available used : Z) (l : list Agg) (ws : list (list SizeClassStats)) : list (list SizeClassStats) :=
  match l with
  | [] => ws
  | a :: l =>
    if u64 (used + time_cost a) <=? available
    then accept available (u64 (used + time_cost a)) l (setHint ws (bidx a) kBudgetCompress)
    else accept available used l (setHint ws (bidx a) kBudgetSkip)
  end.

Section Recompute.
(** [std::sort] with the comparison of efficiencies. *)
Context (sort : list Agg -> list Agg) (kNumArenas : Z).
Local Abbreviation total := (total kNumArenas).

(* src/compress/compressor_thread.h:3783-3790 CompressorThread::recomputeMarginalEfficiency *)
Definition available_us (budget_pct elapsed_us : Z) : Z :=
  let elapsed_us := if elapsed_us <? 1000 then 1000 else elapsed_us in u64 (elapsed_us * budget_pct) / 100.

(** The summary printed for debugging is left out. *)
(* src/compress/compressor_thread.h:3714-3862 CompressorThread::recomputeMarginalEfficiency *)
Definition recomputeMarginalEfficiency (budget_pct elapsed_us : Z) (ws : list (list SizeClassStats)) : list (list SizeClassStats) :=
  let aggs := map (aggregate ws) (seqZ 0 total) in
  let ws := foldl publish_eff ws aggs in
  if (budget_pct <? 0) || (100 <=? budget_pct)
  then foldl (fun ws a => setHint ws (bidx a) (if agg_count a <? 8 then kBudgetExplore else kBudgetCompress)) ws aggs
  else
    let '(aggs, n_rank) := partition (length aggs) 0 0 aggs in
    let ws := accept (available_us budget_pct elapsed_us) 0 (sort (take (Z.to_nat n_rank) aggs)) ws in
    foldl (fun ws a => setHint ws (bidx a) kBudgetExplore) ws (drop (Z.to_nat n_rank) aggs).
End Recompute.

(** ** Partition *)

Lemma swap_app r b u a t : swap (r ++ b :: u ++ a :: t) (zlen r) (zlen r + 1 + zlen u) = r ++ a :: u ++ b :: t.
Proof.
  assert (N : Z.to_nat (zlen r + 1 + zlen u) = (length r + S (length u))%nat) by (unfold zlen; lia). assert (N' : Z.to_nat (zlen r) = length r) by (unfold zlen; lia).
  pose proof (zlen_nonneg r). pose proof (zlen_nonneg u). unfold swap, zset, zget. rewrite (proj2 (Z.leb_le 0 (zlen r))), (proj2 (Z.leb_le 0 (zlen r + 1 + zlen u))) by lia. rewrite N, N'.
  assert (E1 : (r ++ b :: u ++ a :: t) !! length r = Some b) by (by rewrite list_lookup_middle).
  assert (E2 : (r ++ b :: u ++ a :: t) !! (length r + S (length u))%nat = Some a).
  { rewrite lookup_app_r by lia. replace (length r + S (length u) - length r)%nat with (S (length u)) by lia. change ((u ++ a :: t) !! length u = Some a). by rewrite list_lookup_middle. }
  rewrite E1, E2. cbn [default from_option id]. assert (I1 : <[length r := a]> (r ++ b :: u ++ a :: t) = r ++ a :: u ++ a :: t) by (rewrite insert_app_r_alt by lia; by rewrite Nat.sub_diag).
  rewrite I1, insert_app_r. change (<[S (length u) := b]> (a :: u ++ a :: t)) with (a :: <[length u := b]> (u ++ a :: t)). rewrite insert_app_r_alt by lia. by rewrite Nat.sub_diag.
Qed.

Definition ranked (a : Agg) : Prop := 8 <= agg_count a.

Lemma partition_go t : forall r u, Forall ranked r -> Forall (fun a => ~ ranked a) u ->
  exists k1 k2, partition (length t) (zlen r + zlen u) (zlen r) (r ++ u ++ t) = (k1 ++ k2, zlen k1) /\ k1 ++ k2 ≡ₚ r ++ u ++ t /\ Forall ranked k1 /\ Forall (fun a => ~ ranked a) k2.
Proof.
  induction t as [|a t IH]; intros r u Hr Hu; [exists r, u; cbn; by rewrite app_nil_r|]. cbn [length partition].
  assert (Ea : zget no_agg (r ++ u ++ a :: t) (zlen r + zlen u) = a).
  { pose proof (zlen_nonneg r). pose proof (zlen_nonneg u). unfold zget. rewrite (proj2 (Z.leb_le 0 _)) by lia. rewrite app_assoc. rewrite list_lookup_middle; [done|]. rewrite length_app. unfold zlen. lia. }
  rewrite Ea. destruct (Z.leb_spec 8 (agg_count a)) as [Ha|Ha].
  - destruct u as [|b u].
    + change (zlen (@nil Agg)) with 0. rewrite Z.add_0_r, Z.eqb_refl. cbn [app]. destruct (IH (r ++ [a]) [] ltac:(by apply Forall_app; split; [|constructor]) Hu) as (k1 & k2 & E & P & F1 & F2).
      exists k1, k2. rewrite zlen_app in E. change (zlen [a]) with 1 in E. change (zlen (@nil Agg)) with 0 in E. rewrite Z.add_0_r, <- app_assoc in E. split; [exact E|]. split; [by rewrite P, <- app_assoc|done].
    + rewrite zlen_cons. pose proof (zlen_nonneg u). rewrite (proj2 (Z.eqb_neq (zlen r) _)) by lia. cbn [app]. replace (zlen r + (1 + zlen u)) with (zlen r + 1 + zlen u) by lia. rewrite swap_app. apply Forall_cons in Hu as [Hb Hu].
      destruct (IH (r ++ [a]) (u ++ [b])) as (k1 & k2 & E & P & F1 & F2); [by apply Forall_app; split; [|constructor]|by apply Forall_app; split; [|constructor]|].
      exists k1, k2. rewrite !zlen_app in E. change (zlen [a]) with 1 in E. change (zlen [b]) with 1 in E. rewrite <- !app_assoc in E. cbn [app] in E. replace (zlen r + 1 + (zlen u + 1)) with (zlen r + 1 + zlen u + 1) in E by lia. split; [exact E|]. split; [|done].
      rewrite P, <- !app_assoc. cbn [app]. solve_Permutation.
  - destruct (IH r (u ++ [a]) Hr ltac:(apply Forall_app; split; [done|constructor; [unfold ranked; lia|constructor]])) as (k1 & k2 & E & P & F1 & F2).
    exists k1, k2. rewrite zlen_app, <- app_assoc in E. change (zlen [a]) with 1 in E. cbn [app] in E. replace (zlen r + (zlen u + 1)) with (zlen r + zlen u + 1) in E by lia. split; [exact E|]. split; [by rewrite P, <- app_assoc|done].
Qed.

Lemma partition_spec l : exists k1 k2, partition (length l) 0 0 l = (k1 ++ k2, zlen k1) /\ k1 ++ k2 ≡ₚ l /\ Forall ranked k1 /\ Forall (fun a => ~ ranked a) k2.
Proof. apply (partition_go l [] []); constructor. Qed.

(** ** Hints *)

Definition hint (ws : list (list SizeClassStats)) (w i : Z) : Z := budget_decision_hint (s_bud (bucket ws w i)).

Lemma for_workers_rows f i ws n : rows ws n -> rows (for_workers f i ws) n.
Proof.
  intros [H1 H2]. split; [unfold for_workers; by rewrite length_map|]. unfold for_workers. apply Forall_forall. intros r (r' & -> & Hr)%list_elem_of_fmap. rewrite zlen_zset. rewrite Forall_forall in H2. by apply H2.
Qed.

Lemma for_workers_bucket f i ws n w j : rows ws n -> 0 <= w < 8 -> 0 <= i < n -> 0 <= j -> bucket (for_workers f i ws) w j = if i =? j then with_bud f (bucket ws w j) else bucket ws w j.
Proof.
  intros R Hw Hi Hj. destruct (row_lookup ws n w R Hw) as (r & Hr & E & Hl). unfold bucket, for_workers. rewrite E.
  assert (E' : zget [] (map (fun row => zset row i (with_bud f (zget fresh_stats row i))) ws) w = zset r i (with_bud f (zget fresh_stats r i))).
  { unfold zget at 1. rewrite (proj2 (Z.leb_le 0 w)) by lia. change (map ?g ws) with (g <$> ws). by rewrite list_lookup_fmap, Hr. }
  rewrite E'. destruct (Z.eqb_spec i j) as [->|Hn]; [by rewrite zget_zset_eq by lia|by rewrite zget_zset_ne by lia].
Qed.

Definition apply_hints (ws : list (list SizeClassStats)) (l : list (Z * Z)) : list (list SizeClassStats) := foldl (fun ws x => setHint ws x.1 x.2) ws l.

Lemma apply_hints_spec n l : forall ws, rows ws n -> Forall (fun x => 0 <= x.1 < n) l -> NoDup l.*1 ->
  rows (apply_hints ws l) n /\ forall w j, 0 <= w < 8 -> 0 <= j ->
  (forall h, (j, h) ∈ l -> hint (apply_hints ws l) w j = h) /\ (j ∉ l.*1 -> hint (apply_hints ws l) w j = hint ws w j).
Proof.
  induction l as [|[i h0] l IH]; intros ws R F N; [split; [done|]; intros w j Hw Hj; split; [by intros h ?%elem_of_nil|done]|]. apply Forall_cons in F as [Fi F]. cbn in N. apply NoDup_cons in N as [Ni N].
  change (apply_hints ws ((i, h0) :: l)) with (apply_hints (setHint ws i h0) l). cbn [fst snd] in *. destruct (IH (setHint ws i h0) (for_workers_rows _ i ws n R) F N) as [R' H]. split; [exact R'|]. intros w j Hw Hj. destruct (H w j Hw Hj) as [H1 H2].
  assert (E : hint (setHint ws i h0) w j = if i =? j then h0 else hint ws w j) by (unfold hint, setHint; rewrite (for_workers_bucket _ i ws n) by done; by case_if). split.
  - intros h [[= -> ->]|Hin]%elem_of_cons; [|by apply H1]. rewrite H2, E by done. by rewrite Z.eqb_refl.
  - cbn. intros [Hne Hnj]%not_elem_of_cons. rewrite H2, E by done. by rewrite (proj2 (Z.eqb_neq i j)).
Qed.

(** The decisions of the loop, in order. *)
Fixpoint verdicts (available used : Z) (l : list Agg) : list (Z * Z) :=
  match l with
  | [] => []
  | a :: l => if used + time_cost a <=? available then (bidx a, kBudgetCompress) :: verdicts available (used + time_cost a) l else (bidx a, kBudgetSkip) :: verdicts available used l
  end.

Definition cost_ok (a : Agg) : Prop := 0 <= time_cost a < 2 ^ 63.

Lemma accept_verdicts available l : 0 <= available < 2 ^ 63 -> Forall cost_ok l -> forall used ws, 0 <= used <= available -> accept available used l ws = apply_hints ws (verdicts available used l).
Proof.
  intros Ha. induction 1 as [|a l Hc Hl IH]; intros used ws Hu; [done|]. cbn [accept verdicts]. unfold cost_ok in Hc. rewrite wrap_small by lia. destruct (Z.leb_spec (used + time_cost a) available); apply IH; lia.
Qed.

Lemma verdicts_idx available l : forall used, (verdicts available used l).*1 = map bidx l.
Proof. induction l as [|a l IH]; intros used; [done|]. cbn. destruct (_ <=? _); cbn; by rewrite IH. Qed.

(** Time of the buckets with a decision. *)
Definition spent (cost : Z -> Z) (P : Z * Z -> Prop) `{!forall x, Decision (P x)} (l : list (Z * Z)) : Z := zsum (map (fun x => cost x.1) (filter P l)).

Lemma spent_nonneg cost P `{!forall x, Decision (P x)} l : (forall x, x ∈ l -> 0 <= cost x.1) -> 0 <= spent cost P l.
Proof. intros Hc. apply zsum_nonneg, Forall_forall. intros c (x & -> & Hx)%list_elem_of_fmap. apply list_elem_of_filter in Hx as [_ Hx]. by apply Hc. Qed.

Lemma spent_cons cost P `{!forall x, Decision (P x)} x l : spent cost P (x :: l) = (if decide (P x) then cost x.1 else 0) + spent cost P l.
Proof. unfold spent. rewrite filter_cons. destruct (decide (P x)); [done|lia]. Qed.

Lemma spent_app cost P `{!forall x, Decision (P x)} l k : spent cost P (l ++ k) = spent cost P l + spent cost P k.
Proof. unfold spent. by rewrite filter_app, map_app, zsum_app. Qed.

(** What is accepted fits. *)
Lemma verdicts_fit cost available l : forall used, used <= available -> (forall a, a ∈ l -> cost (bidx a) = time_cost a) ->
  used + spent cost (fun x => x.2 = kBudgetCompress) (verdicts available used l) <= available.
Proof.
  induction l as [|a l IH]; intros used Hu Hc; [unfold spent; cbn; change (zsum []) with 0; lia|]. assert (Ha := Hc a ltac:(by apply elem_of_cons; left)). assert (Hc' : forall a, a ∈ l -> cost (bidx a) = time_cost a) by (intros b Hb; apply Hc; by apply elem_of_cons; right).
  cbn [verdicts]. destruct (Z.leb_spec (used + time_cost a) available); rewrite spent_cons; cbn [fst snd].
  - rewrite decide_True by done. specialize (IH (used + time_cost a) ltac:(lia) Hc'). lia.
  - rewrite decide_False by done. specialize (IH used Hu Hc'). lia.
Qed.

(** What is skipped would not fit beside the better ones. *)
Lemma verdicts_tight cost eff available i l : forall used, (forall a, a ∈ l -> cost (bidx a) = time_cost a /\ 0 <= time_cost a /\ eff (bidx a) = agg_eff a) ->
  StronglySorted (fun a b => agg_eff b <= agg_eff a) l -> (i, kBudgetSkip) ∈ verdicts available used l ->
  available < used + cost i + spent cost (fun x => x.2 = kBudgetCompress /\ eff i <= eff x.1) (verdicts available used l).
Proof.
  induction l as [|a l IH]; intros used Hc S Hi; [by apply elem_of_nil in Hi|]. assert (Ha := Hc a ltac:(by apply elem_of_cons; left)). destruct Ha as (Ha1 & Ha2 & Ha3). assert (Hc' : forall a, a ∈ l -> cost (bidx a) = time_cost a /\ 0 <= time_cost a /\ eff (bidx a) = agg_eff a) by (intros b Hb; apply Hc; by apply elem_of_cons; right).
  apply StronglySorted_inv in S as [S Sa]. rewrite Forall_forall in Sa.
  assert (In : forall u, (i, kBudgetSkip) ∈ verdicts available u l -> eff i <= eff (bidx a)).
  { intros u Hin. assert (Hx : i ∈ (verdicts available u l).*1) by (apply list_elem_of_fmap; by exists (i, kBudgetSkip)). rewrite verdicts_idx in Hx. apply list_elem_of_fmap in Hx as (b & -> & Hb). rewrite (proj2 (proj2 (Hc' b Hb))), Ha3. by apply Sa. }
  assert (Pos : forall u, 0 <= spent cost (fun x => x.2 = kBudgetCompress /\ eff i <= eff x.1) (verdicts available u l)).
  { intros u. apply spent_nonneg. intros x Hx. assert (Hx' : x.1 ∈ (verdicts available u l).*1) by (apply list_elem_of_fmap; by exists x). rewrite verdicts_idx in Hx'. apply list_elem_of_fmap in Hx' as (b & -> & Hb). destruct (Hc' b Hb) as (-> & ? & _). done. }
  cbn [verdicts] in *. destruct (Z.leb_spec (used + time_cost a) available); rewrite spent_cons; cbn [fst snd]; apply elem_of_cons in Hi as [Hi|Hi]; try discriminate Hi.
  - rewrite decide_True by (split; [done|by apply (In (used + time_cost a))]). specialize (IH _ Hc' S Hi). lia.
  - injection Hi as ->. rewrite decide_False by (intros [? ?]; done). specialize (Pos used). lia.
  - rewrite decide_False by (intros [? ?]; done). specialize (IH _ Hc' S Hi). lia.
Qed.

(** ** The ranking *)

Lemma aggregate_idx ws i : bidx (aggregate ws i) = i.
Proof. unfold aggregate. by destruct (foldl _ _ ws) as [[c b] t]. Qed.

(** Publishing the efficiencies leaves the hints. *)
Lemma publish_keeps n l : forall ws, rows ws n -> Forall (fun a => 0 <= bidx a < n) l ->
  rows (foldl publish_eff ws l) n.
Proof. induction l as [|a l IH]; intros ws R F; [done|]. apply Forall_cons in F as [Fa F]. cbn [foldl]. apply IH; [by apply for_workers_rows|done]. Qed.

Lemma explore_hints l ws : foldl (fun ws a => setHint ws (bidx a) kBudgetExplore) ws l = apply_hints ws (map (fun a => (bidx a, kBudgetExplore)) l).
Proof. revert ws. induction l as [|a l IH]; intros ws; [done|]. apply IH. Qed.

Lemma apply_hints_app ws l k : apply_hints ws (l ++ k) = apply_hints (apply_hints ws l) k.
Proof. unfold apply_hints. apply foldl_app. Qed.

Lemma spent_index cost (P : Z * Z -> Prop) `{!forall x, Decision (P x)} (Q : Z -> Prop) `{!forall i, Decision (Q i)} L idx : L.*1 ≡ₚ idx -> (forall x, x ∈ L -> P x <-> Q x.1) -> zsum (map cost (filter Q idx)) = spent cost P L.
Proof.
  intros Hp HQ. assert (E : filter Q L.*1 = (filter P L).*1).
  { clear Hp. induction L as [|x L IH]; [done|]. cbn [fmap list_fmap]. rewrite !filter_cons. specialize (IH (fun y Hy => HQ y (proj2 (elem_of_cons _ _ _) (or_intror Hy)))). destruct (HQ x (proj2 (elem_of_cons _ _ _) (or_introl eq_refl))) as [Q1 Q2].
    destruct (decide (P x)), (decide (Q x.1)); try tauto. cbn. by rewrite IH. }
  rewrite (zsum_perm _ (map cost (filter Q L.*1))) by (change (map cost) with (fmap (M := list) cost); by rewrite Hp). rewrite E. unfold spent. change ((filter P L).*1) with (map fst (filter P L)). by rewrite map_map.
Qed.

Section Ranking.
Context (sort : list Agg -> list Agg) (kNumArenas pct elapsed : Z) (ws : list (list SizeClassStats)).
Local Abbreviation total := (total kNumArenas).
Local Abbreviation available := (available_us pct elapsed).
Context (Hpct : 0 <= pct < 100) (Helapsed : 0 <= elapsed < 2 ^ 56) (Hrows : rows ws total).
Context (Hcost : forall i, 0 <= i < total -> 0 <= time_cost (aggregate ws i) < 2 ^ 63).
Context (Hsort : forall l, sort l ≡ₚ l /\ StronglySorted (fun a b => agg_eff b <= agg_eff a) (sort l)).

Lemma available_bound : 0 <= available < 2 ^ 63.
Proof.
  unfold available_us. assert (H : 0 <= (if elapsed <? 1000 then 1000 else elapsed) < 2 ^ 56) by (case_if; lia). set (e := if elapsed <? 1000 then 1000 else elapsed) in *. clearbody e.
  rewrite wrap_small by nia. split; [apply Z.div_pos; nia|]. apply Z.div_lt_upper_bound; nia.
Qed.

(** The decisions as a list: those of the ranked buckets and the others. *)
Lemma recompute_decisions : exists l rest, let L := verdicts available 0 l ++ map (fun a => (bidx a, kBudgetExplore)) rest in
  l ++ rest ≡ₚ map (aggregate ws) (seqZ 0 total) /\ Forall ranked l /\ Forall (fun a => ~ ranked a) rest /\ StronglySorted (fun a b => agg_eff b <= agg_eff a) l /\
  L.*1 ≡ₚ seqZ 0 total /\ forall w i h, 0 <= w < 8 -> (i, h) ∈ L -> hint (recomputeMarginalEfficiency sort kNumArenas pct elapsed ws) w i = h.
Proof.
  set (aggs := map (aggregate ws) (seqZ 0 total)). destruct (partition_spec aggs) as (k1 & k2 & E & P & F1 & F2). destruct (Hsort k1) as [Ps Ss]. exists (sort k1), k2. intros L.
  assert (PL : sort k1 ++ k2 ≡ₚ aggs) by by rewrite Ps. split; [done|]. split; [by rewrite Ps|]. split; [done|]. split; [done|].
  assert (Hagg : Forall (fun a => 0 <= bidx a < total /\ cost_ok a) aggs).
  { apply Forall_forall. intros a (i & -> & Hi%elem_of_seqZ)%list_elem_of_fmap. rewrite aggregate_idx. split; [lia|]. apply Hcost. lia. }
  assert (Hidx : L.*1 ≡ₚ seqZ 0 total).
  { unfold L. rewrite fmap_app, verdicts_idx. change ((map ?f k2).*1) with (map fst (map f k2)). rewrite map_map. cbn [fst]. change (fun a => bidx a) with bidx. rewrite <- map_app. change (map bidx) with (fmap (M := list) bidx). rewrite PL. unfold aggs. change (map (aggregate ws) ?x) with (aggregate ws <$> x).
    rewrite <- list_fmap_compose. rewrite (list_fmap_ext _ id); [by rewrite list_fmap_id|]. intros i x _. cbn. apply aggregate_idx. }
  split; [exact Hidx|]. intros w i h Hw Hin. unfold recomputeMarginalEfficiency. fold aggs. rewrite (proj2 (Z.ltb_ge pct 0)), (proj2 (Z.leb_gt 100 pct)) by lia. cbn [orb]. rewrite E.
  replace (Z.to_nat (zlen k1)) with (length k1) by (unfold zlen; lia). rewrite take_app_length, drop_app_length.
  rewrite accept_verdicts; [|apply available_bound|rewrite Ps; rewrite <- P in Hagg; apply Forall_app in Hagg as [Hagg _]; eapply Forall_impl; [exact Hagg|]; by intros a [_ ?]|pose proof available_bound; lia].
  rewrite explore_hints, <- apply_hints_app. fold L. refine (proj1 (proj2 (apply_hints_spec total L _ _ _ _) w i Hw _) h Hin).
  - apply publish_keeps; [done|]. eapply Forall_impl; [exact Hagg|]. by intros a [? _].
  - apply Forall_forall. intros x Hx. assert (Hx' : x.1 ∈ L.*1) by (apply list_elem_of_fmap; by exists x). rewrite Hidx in Hx'. apply elem_of_seqZ in Hx'. lia.
  - rewrite Hidx. apply NoDup_seqZ.
  - assert (Hx' : i ∈ L.*1) by (apply list_elem_of_fmap; by exists (i, h)). rewrite Hidx in Hx'. apply elem_of_seqZ in Hx'. lia.
Qed.
End Ranking.

(** The compression time of the buckets with a property. *)
Definition time_of (kNumArenas : Z) (ws : list (list SizeClassStats)) (Q : Z -> Prop) `{!forall i, Decision (Q i)} : Z :=
  zsum (map (fun i => time_cost (aggregate ws i)) (filter Q (seqZ 0 (total kNumArenas)))).

(** C27: The time budget is kept and used.  With a budget below 100 percent all
    workers are given the same decision for a bucket; it is to explore exactly
    for the buckets with fewer than eight samples; the time spent on those that
    may compress fits into the budget; and one that must not would exceed it,
    together with those that may and save at least as much per time.  The sort
    may be any that sorts. *)
Theorem budget_respected (sort : list Agg -> list Agg) (kNumArenas pct elapsed : Z) (ws : list (list SizeClassStats)) :
  0 <= pct < 100 -> 0 <= elapsed < 2 ^ 56 -> rows ws (total kNumArenas) ->
  (forall i, 0 <= i < total kNumArenas -> 0 <= time_cost (aggregate ws i) < 2 ^ 63) ->
  (forall l, sort l ≡ₚ l /\ StronglySorted (fun a b => agg_eff b <= agg_eff a) (sort l)) ->
  let ws' := recomputeMarginalEfficiency sort kNumArenas pct elapsed ws in
  (forall w i, 0 <= w < 8 -> 0 <= i < total kNumArenas -> hint ws' w i = hint ws' 0 i /\ (hint ws' 0 i = kBudgetExplore <-> agg_count (aggregate ws i) < 8)) /\
  time_of kNumArenas ws (fun i => hint ws' 0 i = kBudgetCompress) <= available_us pct elapsed /\
  (forall i, 0 <= i < total kNumArenas -> hint ws' 0 i = kBudgetSkip ->
     available_us pct elapsed < time_cost (aggregate ws i) + time_of kNumArenas ws (fun j => hint ws' 0 j = kBudgetCompress /\ agg_eff (aggregate ws i) <= agg_eff (aggregate ws j))).
Proof.
  intros Hp He R Hc Hs ws'. destruct (recompute_decisions sort kNumArenas pct elapsed ws Hp He R Hc Hs) as (l & rest & P & F1 & F2 & S & Hidx & H). fold ws' in H. set (L := verdicts _ 0 l ++ _) in *.
  assert (Hin : forall i, 0 <= i < total kNumArenas -> exists h, (i, h) ∈ L) by (intros i Hi; assert (Hx : i ∈ L.*1) by (rewrite Hidx; apply elem_of_seqZ; lia); apply list_elem_of_fmap in Hx as ([j h] & -> & Hx); by exists h).
  assert (Hl : forall a, a ∈ l ++ rest -> 0 <= bidx a < total kNumArenas /\ a = aggregate ws (bidx a)).
  { intros a Ha. rewrite P in Ha. apply list_elem_of_fmap in Ha as (i & -> & Hi%elem_of_seqZ). rewrite aggregate_idx. split; [lia|done]. }
  assert (HV : forall i h, (i, h) ∈ verdicts (available_us pct elapsed) 0 l -> exists a, a ∈ l /\ bidx a = i /\ h <> kBudgetExplore).
  { generalize 0 at 1 as u. clear -l. induction l as [|a l IH]; intros u i h Hx; [by apply elem_of_nil in Hx|]. cbn [verdicts] in Hx. destruct (_ <=? _); apply elem_of_cons in Hx as [Hx|Hx]; try (injection Hx as -> ->; exists a; split; [by apply elem_of_cons; left|done]); destruct (IH _ i h Hx) as (b & ? & ?); exists b; (split; [by apply elem_of_cons; right|done]). }
  assert (Hh : forall x, x ∈ L -> hint ws' 0 x.1 = x.2) by (intros [i h] Hx; apply H; [lia|done]).
  split; [|split].
  - intros w i Hw Hi. destruct (Hin i Hi) as [h Hx]. rewrite (H w i h Hw Hx), (H 0 i h ltac:(lia) Hx). split; [done|]. unfold L in Hx. apply elem_of_app in Hx as [Hx|Hx].
    + destruct (HV i h Hx) as (a & Ha & <- & Hne). rewrite Forall_forall in F1. specialize (F1 a Ha). unfold ranked in F1. destruct (Hl a ltac:(by apply elem_of_app; left)) as [_ <-]. split; [done|lia].
    + apply list_elem_of_fmap in Hx as (a & [= -> ->] & Ha). rewrite Forall_forall in F2. specialize (F2 a Ha). unfold ranked in F2. destruct (Hl a ltac:(by apply elem_of_app; right)) as [_ <-]. split; [lia|done].
  - unfold time_of. rewrite (spent_index _ (fun x => x.2 = kBudgetCompress) _ L) by (done || (intros x Hx; by rewrite (Hh x Hx))). unfold L. rewrite spent_app.
    assert (E : spent (fun i => time_cost (aggregate ws i)) (fun x => x.2 = kBudgetCompress) (map (fun a => (bidx a, kBudgetExplore)) rest) = 0) by (clear; induction rest as [|a r IH]; [done|cbn [map]; rewrite spent_cons, decide_False by done; lia]). rewrite E, Z.add_0_r.
    pose proof (available_bound pct elapsed Hp He). apply (verdicts_fit (fun i => time_cost (aggregate ws i)) (available_us pct elapsed) l 0); [lia|]. intros a Ha. by destruct (Hl a ltac:(by apply elem_of_app; left)) as [_ <-].
  - intros i Hi Hskip. unfold time_of. rewrite (spent_index _ (fun x => x.2 = kBudgetCompress /\ agg_eff (aggregate ws i) <= agg_eff (aggregate ws x.1)) _ L) by (done || (intros x Hx; by rewrite (Hh x Hx))). unfold L. rewrite spent_app.
    destruct (Hin i Hi) as [h Hx]. rewrite (H 0 i h ltac:(lia) Hx) in Hskip. subst h. unfold L in Hx. apply elem_of_app in Hx as [Hx|Hx]; [|by apply list_elem_of_fmap in Hx as (a & [=] & _)].
    assert (Pos : 0 <= spent (fun i => time_cost (aggregate ws i)) (fun x => x.2 = kBudgetCompress /\ agg_eff (aggregate ws i) <= agg_eff (aggregate ws x.1)) (map (fun a => (bidx a, kBudgetExplore)) rest)).
    { apply spent_nonneg. intros x (a & -> & Ha)%list_elem_of_fmap. cbn. apply Hc. by destruct (Hl a ltac:(by apply elem_of_app; right)). }
    assert (T := verdicts_tight (fun i => time_cost (aggregate ws i)) (fun i => agg_eff (aggregate ws i)) (available_us pct elapsed) i l 0). cbn beta in T. enough (available_us pct elapsed < 0 + time_cost (aggregate ws i) + spent (fun i => time_cost (aggregate ws i)) (fun x => x.2 = kBudgetCompress /\ agg_eff (aggregate ws i) <= agg_eff (aggregate ws x.1)) (verdicts (available_us pct elapsed) 0 l)) by lia.
    apply T; [|done|done]. intros a Ha. destruct (Hl a ltac:(by apply elem_of_app; left)) as [Hr Ea]. rewrite <- Ea. split; [done|]. split; [|done]. rewrite Ea. by apply Hc.
Qed.

(** Two buckets past exploration, the second one too costly. *)
Definition busy (saved cost : Z) : SizeClassStats := mkStats (mkWin (replicate 64 128) 8 8 1024) (mkCosts [0; 0] [0; 0]) fresh_arms 0 (mkRed 0 0) (mkBud saved cost 0 0 0 0) (mkProf 0 0 255 0).
Definition two_busy : list (list SizeClassStats) := (busy 90000 100 :: busy 500 600 :: replicate 42 fresh_stats) :: replicate 7 (replicate 44 fresh_stats).
Definition more_efficient (a b : Agg) : Prop := agg_eff b <= agg_eff a.
#[local] Instance more_efficient_dec a b : Decision (more_efficient a b).
Proof. unfold more_efficient. apply _. Defined.

Lemma merge_sorts l : merge_sort more_efficient l ≡ₚ l /\ StronglySorted (fun a b => agg_eff b <= agg_eff a) (merge_sort more_efficient l).
Proof. split; [apply merge_sort_Permutation|]. apply StronglySorted_merge_sort; unfold more_efficient; intros ? **; lia. Qed.

Lemma budget_respected_witness :
  let ws' := recomputeMarginalEfficiency (merge_sort more_efficient) 1 50 1000 two_busy in
  time_of 1 two_busy (fun i => hint ws' 0 i = kBudgetCompress) <= available_us 50 1000 /\ hint ws' 0 1 = hint ws' 7 1.
Proof.
  assert (R : rows two_busy (total 1)) by (split; [reflexivity|repeat constructor]).
  assert (B : forallb (fun i => (0 <=? time_cost (aggregate two_busy i)) && (time_cost (aggregate two_busy i) <? 2 ^ 63)) (seqZ 0 (total 1)) = true) by reflexivity.
  assert (C : forall i, 0 <= i < total 1 -> 0 <= time_cost (aggregate two_busy i) < 2 ^ 63).
  { intros i Hi. rewrite forallb_forall in B. specialize (B i (proj1 (list_elem_of_In _ _) (proj2 (elem_of_seqZ 0 (total 1) i) ltac:(lia)))). lia. }
  destruct (budget_respected (merge_sort more_efficient) 1 50 1000 two_busy ltac:(lia) ltac:(lia) R C merge_sorts) as (H1 & H2 & _).
  split; [exact H2|]. symmetry. exact (proj1 (H1 7 1 ltac:(lia) ltac:(split; [discriminate|reflexivity]))).
Defined.
