(* ===== verification/FaultHandler.v ===== *)
(** * Signal handler (src/vm/fault_handler.h)

    Faults on protected pages arrive as SIGSEGV or SIGBUS.  Here: the kernel's
    dispositions of the two signals, the handler with its depth guard and its
    chaining to the disposition it replaced, installation, removal and
    reinstallation.  The callback and the program's own handlers are arguments:
    both are given as what they do next, so that a callback may fault itself
    and a handler of the program may call ours.  This is the Linux
    configuration. *)

From S2P Require Import Prelude BitOps Config.

Inductive Sig := SIGSEGV | SIGBUS.
(** [Plain] and [SigInfo] are handlers of the program, the latter with SA_SIGINFO. *)
Inductive Disp := SIG_DFL | SIG_IGN | Plain (h : nat) | SigInfo (h : nat) | Ours.

#[export] Instance Sig_eq_dec : EqDecision Sig.
Proof. solve_decision. Defined.
#[export] Instance Disp_eq_dec : EqDecision Disp.
Proof. solve_decision. Defined.

(** [uc_err] is gregs[REG_ERR], if there is a context. *)
Record Info := mkInfo { si_code : Z; si_addr : Z; uc_err : option Z }.
Definition SI_TKILL : Z := -6.

(** What is visible from outside. *)
Inductive Note :=
| N_callback (depth addr : Z) | N_handled (addr : Z) | N_chain (sig : Sig) (d : Disp) | N_trace (sig : Sig) | N_backtrace (sig : Sig).

Inductive Fate := Alive | Killed (sig : Sig) | NullInstance.

(* src/vm/fault_handler.h:107-139 FaultHandler *)
Record Handler := mkHandler {
  table : Sig -> Disp;          (* of the kernel *)
  old_sigsegv_ : Disp;
  old_sigbus_ : Disp;
  running_ : bool;
  instance_ : bool;             (* not null *)
  callback_ : bool;             (* not null *)
  shutting_down_ : bool;
  sigtrace_enabled_ : bool;
  dump_crash_bt_enabled_ : bool
}.

Definition old_of (f : Handler) (sig : Sig) : Disp := match sig with SIGSEGV => old_sigsegv_ f | SIGBUS => old_sigbus_ f end.
Definition sigaction (f : Handler) (sig : Sig) (d : Disp) : Handler :=
  mkHandler (fun x => if decide (x = sig) then d else table f x) (old_sigsegv_ f) (old_sigbus_ f) (running_ f) (instance_ f) (callback_ f)
    (shutting_down_ f) (sigtrace_enabled_ f) (dump_crash_bt_enabled_ f).
Definition shut_down (f : Handler) : Handler :=
  mkHandler (table f) (old_sigsegv_ f) (old_sigbus_ f) (running_ f) (instance_ f) (callback_ f) true (sigtrace_enabled_ f) (dump_crash_bt_enabled_ f).

(* src/vm/fault_handler.h:179-179 FaultHandler::kMaxFaultDepth *)
Definition kMaxFaultDepth : Z := 2.

(* src/vm/fault_handler.h:162-164 FaultHandler::isKernelFault *)
Definition isKernelFault (i : Info) : bool := 0 <? si_code i.

(** ** Installation *)

(** [null] tells whether the callback is the null pointer. *)
(* src/vm/fault_handler.h:458-491 FaultHandler::start *)
Definition start (null trace bt : bool) (f : Handler) : bool * Handler :=
  (true, mkHandler (fun _ => Ours) (table f SIGSEGV) (table f SIGBUS) true true (negb null) (shutting_down_ f) trace bt).

(* src/vm/fault_handler.h:493-509 FaultHandler::stop *)
Definition stop (f : Handler) : Handler :=
  if negb (running_ f) then f
  else mkHandler (old_of f) (old_sigsegv_ f) (old_sigbus_ f) false false (callback_ f) (shutting_down_ f) (sigtrace_enabled_ f) (dump_crash_bt_enabled_ f).

(* src/vm/fault_handler.h:527-562 FaultHandler::ensureInstalled *)
Definition ensureInstalled (f : Handler) : Handler :=
  if negb (running_ f) then f
  else if shutting_down_ f then f
  else if decide (table f SIGSEGV = Ours) then f
  else mkHandler (fun x => match x with SIGSEGV => Ours | SIGBUS => table f SIGBUS end) (table f SIGSEGV) (old_sigbus_ f) (running_ f) (instance_ f) (callback_ f)
         (shutting_down_ f) (sigtrace_enabled_ f) (dump_crash_bt_enabled_ f).

(* src/vm/fault_handler.h:514-516 FaultHandler::ensureInstalledIfRunning *)
Definition ensureInstalledIfRunning (f : Handler) : Handler := if instance_ f then ensureInstalled f else f.

(** ** Handling *)

Section Handling.
Context {G : Type}.

(** What the callback does: return, or touch memory and fault. *)
Inductive Act :=
| Done (handled : bool) (g : G) (errno : Z)
| Touch (sig : Sig) (i : Info) (g : G) (resume : G -> Act).

(** What a handler of the program does: return, end the process, or call the
    handler it replaced, which is ours. *)
Inductive AppAct := Return (g : G) | Exit | Chain (g : G).

Context (callback : Z -> Z -> G -> Act) (app : nat -> Sig -> Info -> G -> AppAct).

(** [depth], [was_write] and [errno] belong to the thread. *)
(* src/vm/fault_handler.h:71-100 faultDepth *)
Record St := mkSt { fh : Handler; depth : Z; was_write : Z; errno : Z; world : G; fate : Fate; out : list Note }.

Definition with_fh (s : St) (f : Handler) : St := mkSt f (depth s) (was_write s) (errno s) (world s) (fate s) (out s).
Definition with_depth (s : St) (d : Z) : St := mkSt (fh s) d (was_write s) (errno s) (world s) (fate s) (out s).
Definition with_write (s : St) (w : Z) : St := mkSt (fh s) (depth s) w (errno s) (world s) (fate s) (out s).
Definition with_errno (s : St) (e : Z) : St := mkSt (fh s) (depth s) (was_write s) e (world s) (fate s) (out s).
Definition with_world (s : St) (g : G) : St := mkSt (fh s) (depth s) (was_write s) (errno s) g (fate s) (out s).
Definition with_fate (s : St) (x : Fate) : St := mkSt (fh s) (depth s) (was_write s) (errno s) (world s) x (out s).
Definition note (s : St) (x : Note) : St := mkSt (fh s) (depth s) (was_write s) (errno s) (world s) (fate s) (out s ++ [x]).

Definition alive (s : St) : bool := match fate s with Alive => true | _ => false end.

(** [rec] is our handler; [None]: it never returns. *)
Section Body.
Context (rec : Sig -> Info -> St -> option St).

(** A call of a disposition's function. *)
Definition call_app (h : nat) (d : Disp) (sig : Sig) (i : Info) (s : St) : option St :=
  match app h sig i (world s) with
  | Return g => Some (with_world (note s (N_chain sig d)) g)
  | Exit => Some (with_fate (note s (N_chain sig d)) (Killed sig))
  | Chain g => rec sig i (with_world (note s (N_chain sig d)) g)
  end.

(** The kernel delivers a signal.  A fault cannot be ignored. *)
Definition deliver (sig : Sig) (i : Info) (s : St) : option St :=
  match table (fh s) sig with
  | SIG_DFL => Some (with_fate s (Killed sig))
  | SIG_IGN => Some (if isKernelFault i then with_fate s (Killed sig) else s)
  | Plain h => call_app h (Plain h) sig i s
  | SigInfo h => call_app h (SigInfo h) sig i s
  | Ours => rec sig i s
  end.

Definition raise (sig : Sig) (s : St) : option St := deliver sig (mkInfo SI_TKILL 0 (Some 0)) s.

Fixpoint run (a : Act) (s : St) : option (bool * St) :=
  match a with
  | Done b g e => Some (b, with_errno (with_world s g) e)
  | Touch sig i g resume =>
    match deliver sig i (with_world s g) with
    | None => None
    | Some s => if alive s then run (resume (world s)) s else Some (false, s)
    end
  end.

(** Restore [d] and let it have the signal. *)
Definition hand_over (sig : Sig) (d : Disp) (s : St) : option St := raise sig (with_fh s (sigaction (shut_down (fh s)) sig d)).

(* src/vm/fault_handler.h:307-325 FaultHandler::signalHandler *)
Definition call_old (old : Disp) (sig : Sig) (i : Info) (s : St) : option St :=
  match old with
  | SigInfo h => call_app h old sig i s
  | Ours => rec sig i s
  | SIG_DFL => hand_over sig old s
  | SIG_IGN => hand_over sig SIG_DFL s
  | Plain h => call_app h old sig i s
  end.

(** The second half: not our fault. *)
(* src/vm/fault_handler.h:234-326 FaultHandler::signalHandler *)
Definition chain (saved_errno : Z) (sig : Sig) (i : Info) (s : St) : option St :=
  if negb (instance_ (fh s)) then Some (with_fate s NullInstance)
  else
    let old := old_of (fh s) sig in
    let s := if sigtrace_enabled_ (fh s) then note s (N_trace sig) else s in
    if negb (isKernelFault i) then
      match hand_over sig old s with Some s => Some (with_errno s saved_errno) | None => None end
    else
      let want_bt := dump_crash_bt_enabled_ (fh s) && isKernelFault i && bool_decide (old = SIG_DFL) in
      call_old old sig i (if want_bt then note s (N_backtrace sig) else s).

(* src/vm/fault_handler.h:181-233 FaultHandler::signalHandler *)
Definition handler_body (sig : Sig) (i : Info) (s : St) : option St :=
  let saved_errno := errno s in
  let depthOk := depth s <? kMaxFaultDepth in
  if isKernelFault i && instance_ (fh s) && callback_ (fh s) && depthOk then
    let addr := si_addr i in
    let s := with_depth s (depth s + 1) in
    let s := with_write s (match uc_err i with Some e => if Z.testbit e 1 then 1 else 0 | None => -1 end) in
    match run (callback addr (was_write s) (world s)) (note s (N_callback (depth s) addr)) with
    | None => None
    | Some (handled, s) =>
      if negb (alive s) then Some s
      else
        let s := with_depth s (depth s - 1) in
        if handled then Some (with_errno (note s (N_handled addr)) saved_errno) else chain saved_errno sig i s
    end
  else chain saved_errno sig i s.
End Body.

(** [n] bounds the nesting of the handler. *)
(* src/vm/fault_handler.h:181-326 FaultHandler::signalHandler *)
Fixpoint signalHandler (n : nat) (sig : Sig) (i : Info) (s : St) : option St :=
  match n with
  | O => None
  | S n => handler_body (signalHandler n) sig i s
  end.

(** ** Lemmas *)

(** The handler never replaced itself. *)
Definition settled (f : Handler) : Prop := forall sig, old_of f sig <> Ours.
Definition no_chain : Prop := forall h sig i g g', app h sig i g <> Chain g'.

(** What every step keeps: the saved dispositions, the thread's depth while the
    process lives, and the bound on the callback's nesting. *)
Record keeps (s s' : St) (l : list Note) : Prop := {
  kp_out : out s' = out s ++ l;
  kp_nest : forall d a, N_callback d a ∈ l -> depth s < d <= kMaxFaultDepth;
  kp_depth : alive s' = true -> depth s' = depth s;
  kp_old : old_of (fh s') = old_of (fh s);
  kp_inst : instance_ (fh s') = instance_ (fh s);
  kp_shut : shutting_down_ (fh s) = true -> shutting_down_ (fh s') = true
}.

(** The same, with any new notes. *)
Definition step (s s' : St) : Prop := exists l, keeps s s' l.

Lemma keeps_trans a b c l k : alive b = true -> keeps a b l -> keeps b c k -> keeps a c (l ++ k).
Proof.
  intros Hb [A1 A2 A3 A4 A5 A6] [B1 B2 B3 B4 B5 B6]. specialize (A3 Hb). constructor.
  - by rewrite B1, A1, <- app_assoc.
  - intros d x [H|H]%elem_of_app; [by apply (A2 d x)|rewrite <- A3; by apply (B2 d x)].
  - intros H. rewrite B3 by done. done.
  - congruence.
  - congruence.
  - auto.
Qed.

Lemma keeps_refl s : keeps s s [].
Proof. constructor; try done. - by rewrite app_nil_r. - intros d a H. by apply elem_of_nil in H. Qed.

(** A change of world, errno, write bit or fate, with at most one note. *)
Lemma keeps_note s s' x : out s' = out s ++ [x] -> (forall d a, x <> N_callback d a) -> depth s' = depth s -> fh s' = fh s -> keeps s s' [x].
Proof. intros H1 H2 H3 H4. constructor; try (by rewrite ?H4); try done. intros d a Hin%list_elem_of_singleton. by destruct (H2 d a). Qed.

Lemma keeps_quiet s s' : out s' = out s -> depth s' = depth s -> old_of (fh s') = old_of (fh s) -> instance_ (fh s') = instance_ (fh s) ->
  (shutting_down_ (fh s) = true -> shutting_down_ (fh s') = true) -> keeps s s' [].
Proof. intros H1 H3 H4 H5 H6. constructor; try done. - by rewrite app_nil_r. - intros d a H. by apply elem_of_nil in H. Qed.

Section Steps.
Context (Hc : no_chain).

Lemma call_app_keeps rec h d sig i s : exists s', call_app rec h d sig i s = Some s' /\ keeps s s' [N_chain sig d].
Proof.
  unfold call_app. pose proof (Hc h sig i (world s)) as H. destruct (app h sig i (world s)) as [g| |g]; [| |by destruct (H g)].
  all: eexists; split; [reflexivity|]; by apply keeps_note.
Qed.

(** A signal whose disposition is not ours needs no call of our handler. *)
Lemma deliver_other rec sig i s : table (fh s) sig <> Ours ->
  exists s' l, deliver rec sig i s = Some s' /\ keeps s s' l /\
    (alive s' = false \/ N_chain sig (table (fh s) sig) ∈ l \/ (isKernelFault i = false /\ table (fh s) sig = SIG_IGN)).
Proof.
  intros Hd. unfold deliver. destruct (table (fh s) sig) as [| |h|h|] eqn:E; [| | | |done].
  - eexists _, []. split; [reflexivity|]. split; [by apply keeps_quiet|by left].
  - eexists _, []. split; [reflexivity|]. destruct (isKernelFault i); (split; [by apply keeps_quiet|]); [by left|by right; right].
  - destruct (call_app_keeps rec h (Plain h) sig i s) as (s' & H1 & H2). exists s', [N_chain sig (Plain h)]. split; [done|]. split; [done|]. right. left. by left.
  - destruct (call_app_keeps rec h (SigInfo h) sig i s) as (s' & H1 & H2). exists s', [N_chain sig (SigInfo h)]. split; [done|]. split; [done|]. right. left. by left.
Qed.

Lemma hand_over_keeps rec sig d s : d <> Ours ->
  exists s' l, hand_over rec sig d s = Some s' /\ keeps s s' l /\ (alive s' = false \/ N_chain sig d ∈ l \/ d = SIG_IGN) /\ (d = SIG_DFL -> alive s' = false).
Proof.
  intros Hd. set (s1 := with_fh s (sigaction (shut_down (fh s)) sig d)). assert (Et : table (fh s1) sig = d) by (cbn; by rewrite decide_True).
  destruct (deliver_other rec sig (mkInfo SI_TKILL 0 (Some 0)) s1 ltac:(by rewrite Et)) as (s' & l & E & K & H). rewrite Et in H.
  exists s', l. split; [exact E|]. split; [|split; [tauto|]].
  - destruct K as [K1 K2 K3 K4 K5 K6]. constructor; try done. intros _. by apply K6.
  - intros ->. unfold deliver in E. rewrite Et in E. by injection E as <-.
Qed.

(** The signal is passed on to what the handler replaced, or ends the process. *)
Definition passed_on (sig : Sig) (i : Info) (s s' : St) (l : list Note) : Prop :=
  alive s' = false \/ N_chain sig (old_of (fh s) sig) ∈ l \/ (isKernelFault i = false /\ old_of (fh s) sig = SIG_IGN).

(** An optional note. *)
Lemma note_keeps (c : bool) s x : (forall d a, x <> N_callback d a) ->
  exists s' l, (if c then note s x else s) = s' /\ fh s' = fh s /\ alive s' = alive s /\ keeps s s' l.
Proof.
  intros H. destruct c; eexists _, _; (split; [reflexivity|]); (split; [done|]); (split; [done|]); [by apply keeps_note|apply keeps_refl].
Qed.

Lemma passed_on_app sig i s s' l l' : passed_on sig i s s' l' -> passed_on sig i s s' (l ++ l').
Proof. intros [H|[H|H]]; [by left|right; left; apply elem_of_app; by right|by right; right]. Qed.

Lemma call_old_keeps rec sig i s s0 old : old_of (fh s0) sig = old -> old <> Ours -> isKernelFault i = true ->
  exists s' l, call_old rec old sig i s = Some s' /\ keeps s s' l /\ passed_on sig i s0 s' l.
Proof.
  intros Eo Hn Hk. unfold call_old, passed_on. rewrite Eo. destruct old as [| |h|h|]; [| | | |done].
  - destruct (hand_over_keeps rec sig SIG_DFL s Hn) as (s' & l & E & K & _ & D). exists s', l. split; [done|]. split; [done|]. left. by apply D.
  - destruct (hand_over_keeps rec sig SIG_DFL s ltac:(done)) as (s' & l & E & K & _ & D). exists s', l. split; [done|]. split; [done|]. left. by apply D.
  - destruct (call_app_keeps rec h (Plain h) sig i s) as (s' & E & K). exists s', [N_chain sig (Plain h)]. split; [done|]. split; [done|]. right. left. by left.
  - destruct (call_app_keeps rec h (SigInfo h) sig i s) as (s' & E & K). exists s', [N_chain sig (SigInfo h)]. split; [done|]. split; [done|]. right. left. by left.
Qed.

Lemma chain_keeps rec e sig i s : settled (fh s) -> alive s = true -> exists s' l, chain rec e sig i s = Some s' /\ keeps s s' l /\ passed_on sig i s s' l.
Proof.
  intros Hs Ha. unfold chain. destruct (instance_ (fh s)); cbn [negb]; [|eexists _, []; split; [reflexivity|]; split; [by apply keeps_quiet|by left]].
  destruct (note_keeps (sigtrace_enabled_ (fh s)) s (N_trace sig) ltac:(done)) as (s1 & l1 & -> & F1 & A1 & K1). specialize (Hs sig). destruct (isKernelFault i) eqn:Ek; cbn [negb].
  - destruct (note_keeps (dump_crash_bt_enabled_ (fh s1) && true && bool_decide (old_of (fh s) sig = SIG_DFL)) s1 (N_backtrace sig) ltac:(done)) as (s2 & l2 & -> & F2 & A2 & K2).
    destruct (call_old_keeps rec sig i s2 s (old_of (fh s) sig) eq_refl Hs Ek) as (s' & l & E & K & P). exists s', (l1 ++ l2 ++ l). split; [exact E|]. split.
    + apply (keeps_trans s s1); [congruence|done|]. apply (keeps_trans s1 s2); [congruence|done|done].
    + by do 2 apply passed_on_app.
  - destruct (hand_over_keeps rec sig (old_of (fh s) sig) s1 Hs) as (s' & l & -> & K & D & _). exists (with_errno s' e), (l1 ++ l). split; [done|]. split.
    + apply (keeps_trans s s1); [congruence|done|]. destruct K as [? ? ? ? ? ?]. by constructor.
    + apply passed_on_app. destruct D as [D|[D|D]]; [by left|by right; left|by right; right].
Qed.

(** ** Nesting *)

(** Our handler answers at every greater depth. *)
Definition answers (rec : Sig -> Info -> St -> option St) (d : Z) : Prop := forall sig i s, settled (fh s) -> alive s = true -> depth s = d ->
  exists s' l, rec sig i s = Some s' /\ keeps s s' l.

Lemma settled_keeps s s' l : keeps s s' l -> settled (fh s) -> settled (fh s').
Proof. intros K H sig. rewrite (kp_old _ _ _ K). apply H. Qed.

Lemma run_keeps rec a : forall s, answers rec (depth s) -> settled (fh s) -> alive s = true ->
  exists b s' l, run rec a s = Some (b, s') /\ keeps s s' l.
Proof.
  induction a as [b g e|sig i g resume IH]; intros s R Hs Ha; cbn [run].
  { eexists b, _, []. split; [reflexivity|]. by apply keeps_quiet. }
  assert (exists s1 l1, deliver rec sig i (with_world s g) = Some s1 /\ keeps s s1 l1) as (s1 & l1 & -> & K1).
  { destruct (decide (table (fh s) sig = Ours)) as [E|E].
    - unfold deliver. cbn [fh with_world]. rewrite E. destruct (R sig i (with_world s g) Hs Ha eq_refl) as (s1 & l1 & E1 & K1). exists s1, l1. split; [done|].
      destruct K1. by constructor.
    - destruct (deliver_other rec sig i (with_world s g) E) as (s1 & l1 & E1 & K1 & _). exists s1, l1. split; [done|]. destruct K1. by constructor. }
  destruct (alive s1) eqn:A1; [|by exists false, s1, l1].
  destruct (IH (world s1) s1) as (b & s2 & l2 & E2 & K2); [by rewrite (kp_depth _ _ _ K1 A1)|by apply (settled_keeps _ _ _ K1)|done|].
  exists b, s2, (l1 ++ l2). split; [done|by apply (keeps_trans s s1)].
Qed.

(** What the handler may do with a signal. *)
Definition answered (sig : Sig) (i : Info) (s s' : St) (l : list Note) : Prop :=
  passed_on sig i s s' l \/ (N_handled (si_addr i) ∈ l /\ errno s' = errno s).

Lemma body_keeps rec sig i s : (depth s < kMaxFaultDepth -> answers rec (depth s + 1)) -> settled (fh s) -> alive s = true ->
  exists s' l, handler_body rec sig i s = Some s' /\ keeps s s' l /\ answered sig i s s' l.
Proof.
  intros R Hs Ha. unfold handler_body. destruct (isKernelFault i && _ && _ && _) eqn:Ec.
  2:{ destruct (chain_keeps rec (errno s) sig i s Hs Ha) as (s' & l & E & K & P). exists s', l. split; [done|]. split; [done|by left]. }
  assert (Hd : depth s < kMaxFaultDepth) by (b2p; lia). set (s1 := with_write _ _). set (s2 := note s1 _).
  destruct (run_keeps rec (callback (si_addr i) (was_write s1) (world s1)) s2 (R Hd) Hs Ha) as (b & s3 & l3 & -> & K3).
  destruct K3 as [C1 C2 C3 C4 C5 C6]. cbn [out s2 s1 note depth with_write with_depth fh] in *.
  assert (Hn : forall d a, N_callback d a ∈ N_callback (depth s + 1) (si_addr i) :: l3 -> depth s < d <= kMaxFaultDepth).
  { intros d a [[= -> _]|H]%elem_of_cons; [lia|]. specialize (C2 d a H). lia. }
  destruct (alive s3) eqn:A3; cbn [negb].
  2:{ exists s3, (N_callback (depth s + 1) (si_addr i) :: l3). split; [done|]. split; [|left; by left]. constructor; try done; [by rewrite C1, <- app_assoc|congruence]. }
  set (s4 := with_depth s3 (depth s3 - 1)).
  assert (K4 : keeps s s4 (N_callback (depth s + 1) (si_addr i) :: l3)).
  { constructor; try done; cbn; [by rewrite C1, <- app_assoc|]. intros _. specialize (C3 eq_refl). lia. }
  destruct b.
  - exists (with_errno (note s4 (N_handled (si_addr i))) (errno s)), ((N_callback (depth s + 1) (si_addr i) :: l3) ++ [N_handled (si_addr i)]). split; [done|]. split.
    + apply (keeps_trans s s4); [done|done|]. by apply keeps_note.
    + right. split; [|done]. apply elem_of_app. right. by left.
  - destruct (chain_keeps rec (errno s) sig i s4 (settled_keeps _ _ _ K4 Hs) A3) as (s' & l & E & K & P). exists s', ((N_callback (depth s + 1) (si_addr i) :: l3) ++ l). split; [done|]. split.
    + by apply (keeps_trans s s4).
    + left. apply passed_on_app. unfold passed_on in *. by rewrite <- C4.
Qed.
End Steps.

Lemma nesting_answers (Hc : no_chain) n : forall s sig i, 1 <= Z.of_nat n -> 3 - depth s <= Z.of_nat n -> settled (fh s) -> alive s = true ->
  exists s' l, signalHandler n sig i s = Some s' /\ keeps s s' l /\ answered sig i s s' l.
Proof.
  induction n as [|n IH]; intros s sig i Hn Hd Hs Ha; [lia|]. cbn [signalHandler]. apply body_keeps; try done.
  intros Hlt sig' i' s1 Hs1 Ha1 Hd1. unfold kMaxFaultDepth in Hlt. destruct (IH s1 sig' i' ltac:(lia) ltac:(lia) Hs1 Ha1) as (s' & l & E & K & _). by exists s', l.
Qed.

(** ** Theorems *)

(** C10: Every signal is answered, under two conditions: the dispositions the handler saved
    are not the handler itself ([settled]), and no handler of the program calls it
    back ([no_chain]); [reinstalled_handler_recurses] shows what happens without them.
    Then it returns however the callback faults in turn.  The callback is nested at most twice, and the depth counter
    is back where it was.  Either the callback handled the fault and errno
    is as before, or the disposition the handler replaced had the signal, or
    the process has ended; only a signal sent with [kill] may be ignored.  A
    fault that the callback handles leaves the rest of the state alone. *)
Theorem fault_signal_correct n sig i s :
  no_chain -> (3 <= n)%nat -> 0 <= depth s -> settled (fh s) -> alive s = true ->
  (exists s' l, signalHandler n sig i s = Some s' /\ out s' = out s ++ l /\ (forall d a, N_callback d a ∈ l -> depth s < d <= kMaxFaultDepth) /\
     (alive s' = true -> depth s' = depth s) /\ old_of (fh s') = old_of (fh s) /\ answered sig i s s' l) /\
  (forall w g e, w = (match uc_err i with Some e => if Z.testbit e 1 then 1 else 0 | None => -1 end) ->
     isKernelFault i = true -> instance_ (fh s) = true -> callback_ (fh s) = true -> depth s < kMaxFaultDepth -> callback (si_addr i) w (world s) = Done true g e ->
     signalHandler n sig i s = Some (mkSt (fh s) (depth s) w (errno s) g (fate s) (out s ++ [N_callback (depth s + 1) (si_addr i); N_handled (si_addr i)]))).
Proof.
  intros Hc Hn Hd Hs Ha. split.
  - destruct (nesting_answers Hc n s sig i ltac:(lia) ltac:(lia) Hs Ha) as (s' & l & E & [K1 K2 K3 K4 K5 K6] & A). by exists s', l.
  - intros w g e Hw Hk Hi Hcb Hdp Hdone. destruct n as [|n]; [lia|]. cbn [signalHandler]. unfold handler_body.
    rewrite Hk, Hi, Hcb, (proj2 (Z.ltb_lt _ _) Hdp). cbn [andb]. rewrite <- Hw. cbn [was_write with_write world with_depth]. rewrite Hdone. cbn [run]. unfold alive in Ha. unfold alive at 1. cbn [fate with_errno with_world note with_write with_depth].
    destruct (fate s) eqn:Ef; try done. cbn. unfold note, with_errno, with_depth, with_world. cbn. rewrite Ef. f_equal. f_equal; [lia|]. by rewrite <- app_assoc.
Qed.

(** A raised signal that the program survives disables fault handling for
    good.  Let the program send itself SIGSEGV or SIGBUS and have a handler
    for it, installed before ours, that returns.  Our handler restores that
    handler and marks the process as shutting down.  From then on the periodic
    reinstallation does nothing, and the kernel gives every fault on
    a compressed page to the program's handler instead of ours. *)
Lemma raise_disables n sig i s h g :
  isKernelFault i = false -> alive s = true -> instance_ (fh s) = true -> old_of (fh s) sig = SigInfo h ->
  app h sig (mkInfo SI_TKILL 0 (Some 0)) (world s) = Return g ->
  exists s', signalHandler (S n) sig i s = Some s' /\ alive s' = true /\ ensureInstalled (fh s') = fh s' /\
    forall m j, deliver (signalHandler m) sig j s' = call_app (signalHandler m) h (SigInfo h) sig j s'.
Proof.
  intros Hk Ha Hi Ho Hg. cbn [signalHandler]. unfold handler_body. rewrite Hk. cbn [andb]. unfold chain. rewrite Hi, Hk, Ho. cbn [negb].
  set (s1 := if sigtrace_enabled_ (fh s) then note s (N_trace sig) else s). assert (W : world s1 = world s /\ fate s1 = fate s) by (unfold s1; by destruct (sigtrace_enabled_ (fh s))).
  unfold hand_over, raise, deliver. cbn [table fh with_fh sigaction]. rewrite (decide_True _ _ (eq_refl sig)). unfold call_app at 1. cbn [world with_fh]. rewrite (proj1 W), Hg.
  eexists. split; [reflexivity|]. split; [unfold alive in *; cbn; by rewrite (proj2 W)|]. split.
  - unfold ensureInstalled. cbn. by destruct (running_ (fh s1)).
  - intros m j. cbn. by rewrite decide_True.
Qed.

(** Reinstallation over a handler that chains makes a fault recurse for
    ever.  Let the program install a SIGSEGV handler that calls the one it
    replaced, which is ours, when it does not know the fault.  The next
    [ensureInstalled] puts ours in front with the program's as the old one.
    A fault neither side handles then goes back and forth without end; the
    depth guard does not stop it. *)
Lemma reinstalled_handler_recurses f h d w e g0 o i :
  running_ f = true -> shutting_down_ f = false -> instance_ f = true -> table f SIGSEGV = SigInfo h ->
  (forall i g, app h SIGSEGV i g = Chain g) -> (forall a w g, callback a w g = Done false g 0) -> isKernelFault i = true ->
  table (ensureInstalled f) SIGSEGV = Ours /\ forall n, signalHandler n SIGSEGV i (mkSt (ensureInstalled f) d w e g0 Alive o) = None.
Proof.
  intros Hr Hs Hi Ht Ha Hc Hk.
  assert (E : table (ensureInstalled f) SIGSEGV = Ours /\ old_of (ensureInstalled f) SIGSEGV = SigInfo h /\ instance_ (ensureInstalled f) = true).
  { unfold ensureInstalled. rewrite Hr, Hs. cbn [negb]. rewrite decide_False by (by rewrite Ht). cbn. by rewrite Ht. }
  destruct E as (E1 & E2 & E3). split; [done|]. generalize (ensureInstalled f), E2, E3. clear - Ha Hc Hk. intros f Ho Hi n. revert f Ho Hi d w e g0 o.
  induction n as [|n IH]; intros f Ho Hi d w e g0 o; [done|]. cbn [signalHandler].
  assert (Hch : forall sv d w e g0 o, chain (signalHandler n) sv SIGSEGV i (mkSt f d w e g0 Alive o) = None).
  { intros. unfold chain, call_old, call_app. cbn [fh]. rewrite Hi, Hk, Ho. cbn [negb]. rewrite Ha. destruct (sigtrace_enabled_ f); cbn [fh note]; destruct (_ && _ && _); by apply IH. }
  unfold handler_body. destruct (_ && _ && _ && _); [|apply Hch]. rewrite Hc. cbn. apply Hch.
Qed.
End Handling.

Section Witnesses.
(** A process whose SIGSEGV handler was handler 5 before ours. *)
Definition demo_before : Handler := mkHandler (fun sig => match sig with SIGSEGV => SigInfo 5 | SIGBUS => SIG_DFL end) SIG_DFL SIG_DFL false false false false false false.
Definition demo_fh : Handler := (start false false false demo_before).2.
Definition demo_fault : Info := mkInfo 2 4096 (Some 2).
(** The first call of the callback faults itself. *)
Definition demo_callback (a w g : Z) : @Act Z :=
  if g =? 0 then Touch SIGSEGV (mkInfo 2 8192 (Some 0)) 1 (fun g => Done true g 11) else Done true (g + 1) 0.
Definition demo_app (h : nat) (sig : Sig) (i : Info) (g : Z) : @AppAct Z := Return g.
Definition demo_st : @St Z := mkSt demo_fh 0 (-1) 7 0 Alive [].

Lemma demo_settled : settled demo_fh.
Proof. by intros []. Qed.

Lemma fault_signal_correct_witness :
  exists s' l, signalHandler demo_callback demo_app 3 SIGSEGV demo_fault demo_st = Some s' /\ out s' = l /\ l = [N_callback 1 4096; N_callback 2 8192; N_handled 8192; N_handled 4096].
Proof.
  destruct (fault_signal_correct demo_callback demo_app 3 SIGSEGV demo_fault demo_st) as [(s' & l & E & O & _) _]; [done|lia|done|exact demo_settled|done|].
  exists s', l. split; [exact E|]. split; [exact O|]. vm_compute in E. injection E as <-. vm_compute in O. by rewrite <- O.
Defined.

(** The program replaces our handler by handler 6, which chains. *)End Witnesses.
