(* ===== verification/Mappings.v ===== *)
(** * Tracking of the program's own mappings (src/linux_syscall_wrappers.cpp)

    [mmap], [munmap] and [mremap] of the program register the pages of
    anonymous writable mappings with the external page directory, so that the
    compressor sees them.  The state is the directory with the page tables;
    the kernel's part is an argument.  [None] as a whole result: a page lock is
    held and the caller spins. *)

From S2P Require Import Prelude BitOps Config PageState VmArena VmTrack VmRegion.

Section Mappings.
Context `{PG : PageGeometry}.

(** [x_enabled] is SMASH_TRACK_EXTERNAL, [x_skip] the profile's verdict,
    [x_warned] whether an oversized mapping has been reported. *)
(* src/linux_syscall_wrappers.cpp:1145-1151 externalTrackingEnabledLinux *)
Record Tracking := mkTracking {
  x_vm : VmRegion;
  x_states : option PageStateTable;
  x_locks : option PageLockTable;
  x_enabled : bool;
  x_skip : bool;
  x_warned : bool
}.

Definition with_pages (x : Tracking) (v : VmRegion) (st : option PageStateTable) (l : option PageLockTable) : Tracking :=
  mkTracking v st l (x_enabled x) (x_skip x) (x_warned x).
Definition set_warned (x : Tracking) : Tracking := mkTracking (x_vm x) (x_states x) (x_locks x) (x_enabled x) (x_skip x) true.

(* src/vm/vm_region.h:943-943 VmRegion::externalSlotCapacity *)
Definition externalSlotCapacity : Z := kTrackMaxPages.

(** The region's directory is used in full mode only. *)
(* src/vm/vm_region.h:704-705 VmRegion::trackExternalPage *)
Definition track_external (v : VmRegion) (p : Z) : Z * VmRegion :=
  if tracking_mode v then (0, v)
  else let '(idx, t) := trackExternalPage (base_ (arena v)) (contig_pages_ (arena v)) (tracker v) p in (idx, with_tracker v t).

(** The pages from [start] below [fin]. *)
Definition page_down (p : Z) : Z := Z.land p (u64 (Z.lnot (kPageSize - 1))).
Definition page_up (p : Z) : Z := Z.land (u64 (p + kPageSize - 1)) (u64 (Z.lnot (kPageSize - 1))).

(* src/linux_syscall_wrappers.cpp:1191-1195 registerLinuxExternalRange *)
Fixpoint register_from (n : nat) (p fin : Z) (v : VmRegion) (st : PageStateTable) : VmRegion * PageStateTable :=
  match n with
  | O => (v, st)
  | S n =>
    if p <? fin then
      let '(idx, v) := track_external v p in
      register_from n (u64 (p + kPageSize)) fin v (if idx =? 0 then st else pst_set st idx ACTIVE)
    else (v, st)
  end.

(** One step per page suffices. *)
(* src/linux_syscall_wrappers.cpp:1153-1196 registerLinuxExternalRange *)
Definition registerLinuxExternalRange (x : Tracking) (base len : Z) : Tracking :=
  if (base =? 0) || (len =? 0) then x
  else if negb (x_enabled x) then x
  else if x_skip x then x
  else match x_states x with
       | None => x
       | Some st =>
         let npages := u64 (len + kPageSize - 1) / kPageSize in
         if externalSlotCapacity <? npages then set_warned x
         else
           let start := page_down base in
           let fin := page_up (u64 (base + len)) in
           let '(v, st) := register_from (Z.to_nat ((fin - start) / kPageSize)) start fin (x_vm x) st in
           with_pages x v (Some st) (x_locks x)
       end.

(* src/linux_syscall_wrappers.cpp:1206-1216 deregisterLinuxExternalRange *)
Fixpoint deregister_from (self : Z) (n : nat) (p fin : Z) (x : Tracking) : option Tracking :=
  match n with
  | O => Some x
  | S n =>
    if p <? fin then
      match untrackExternalPageLocked (x_vm x) (x_locks x) (x_states x) self p with
      | Some (v, l, st) => deregister_from self n (u64 (p + kPageSize)) fin (with_pages x v st l)
      | None => None
      end
    else Some x
  end.

(* src/linux_syscall_wrappers.cpp:1198-1217 deregisterLinuxExternalRange *)
Definition deregisterLinuxExternalRange (self : Z) (x : Tracking) (base len : Z) : option Tracking :=
  if (base =? 0) || (len =? 0) then Some x
  else if negb (x_enabled x) then Some x
  else match x_states x with
       | None => Some x
       | Some _ =>
         let start := page_down base in
         let fin := page_up (u64 (base + len)) in
         deregister_from self (Z.to_nat ((fin - start) / kPageSize)) start fin x
       end.

Definition PROT_WRITE : Z := 2.
Definition MAP_ANONYMOUS : Z := 32.
Definition MREMAP_FIXED : Z := 2.
Definition MAP_FAILED : Z := 2 ^ 64 - 1.

Section Calls.
(** The kernel's mappings. *)
Context {K : Type}.

(** [None] as the tracking state: the heap's region does not exist yet. *)
(* src/linux_syscall_wrappers.cpp:1221-1233 mmap *)
Definition mmap (real : option (K -> Z * K)) (len prot flags : Z) (x : option Tracking) (k : K) : Z * option Tracking * K :=
  match real with
  | None => (MAP_FAILED, x, k)
  | Some real_mmap =>
    let '(ret, k) := real_mmap k in
    if ret =? MAP_FAILED then (ret, x, k)
    else
      let anon := negb (Z.land flags MAP_ANONYMOUS =? 0) in
      let writable := negb (Z.land prot PROT_WRITE =? 0) in
      if negb anon || negb writable || (len =? 0) then (ret, x, k)
      else (ret, option_map (fun x => registerLinuxExternalRange x ret len) x, k)
  end.

(* src/linux_syscall_wrappers.cpp:1245-1257 mmap64 *)
Definition mmap64 := mmap.

(** The directory is updated before the kernel's mapping goes. *)
(* src/linux_syscall_wrappers.cpp:1235-1242 munmap *)
Definition munmap (self : Z) (real : option (K -> Z * K)) (addr len : Z) (x : option Tracking) (k : K) : option (Z * option Tracking * K) :=
  match real with
  | None => Some (-1, x, k)
  | Some real_munmap =>
    let x' := match x with
              | Some y => if (addr =? 0) || (len =? 0) then Some x else option_map Some (deregisterLinuxExternalRange self y addr len)
              | None => Some x
              end in
    match x' with
    | None => None
    | Some x => let '(ret, k) := real_munmap k in Some (ret, x, k)
    end
  end.

(** [real] is given the new address of a fixed move. *)
(* src/linux_syscall_wrappers.cpp:1260-1303 mremap *)
Definition mremap (self : Z) (real : option (option Z -> K -> Z * K)) (old_addr old_size new_size flags new_arg : Z) (x : option Tracking) (k : K)
    : option (Z * option Tracking * K) :=
  match real with
  | None => Some (MAP_FAILED, x, k)
  | Some real_mremap =>
    let '(ret, k) := real_mremap (if Z.land flags MREMAP_FIXED =? 0 then None else Some new_arg) k in
    if ret =? MAP_FAILED then Some (ret, x, k)
    else match x with
         | None => Some (ret, x, k)
         | Some y =>
           if negb (x_enabled y) then Some (ret, x, k)
           else if negb (ret =? old_addr) then
             match deregisterLinuxExternalRange self y old_addr old_size with
             | None => None
             | Some y => Some (ret, Some (registerLinuxExternalRange y ret new_size), k)
             end
           else if old_size <? new_size then Some (ret, Some (registerLinuxExternalRange y (u64 (ret + old_size)) (new_size - old_size)), k)
           else if new_size <? old_size then
             match deregisterLinuxExternalRange self y (u64 (ret + new_size)) (old_size - new_size) with
             | None => None
             | Some y => Some (ret, Some y, k)
             end
           else Some (ret, x, k)
         end
  end.
End Calls.

(** ** Lemmas *)

Definition off_arena (v : VmRegion) (q : Z) : Prop := 0 < q < 2 ^ 48 /\ inContigArena (arena v) (q * kPageSize) = false.

Lemma page_facts q : 0 < q < 2 ^ 48 -> 0 <= q * kPageSize < 2 ^ 64 - kPageSize /\ (q * kPageSize) mod kPageSize = 0 /\ key_of (q * kPageSize) = q.
Proof.
  intros Hq. pose proof pg_pos as Hp. split; [nia|]. split; [apply Z.mod_mul; lia|]. unfold key_of. assert (0 <= kPageShift) by (destruct kPageShift_cases; lia).
  rewrite Z.shiftr_div_pow2 by done. change (2 ^ kPageShift) with kPageSize. apply Z.div_mul. lia.
Qed.

Lemma track_step v b lv ext q : vm_ok v b lv ext -> off_arena v q -> ext !! q = None -> external_slot_next_ (tracker v) < kTrackMaxPages ->
  let idx := contig_pages_ (arena v) + external_slot_next_ (tracker v) in
  exists v', track_external v (q * kPageSize) = (idx, v') /\ vm_ok v' b lv (<[q := idx]> ext) /\ arena v' = arena v /\
    external_slot_next_ (tracker v') = external_slot_next_ (tracker v) + 1.
Proof.
  intros O [Hq Ho] He Hn idx. destruct (page_facts q Hq) as (Hr & Hmod & Hk). pose proof (vo_track _ _ _ _ O) as R. unfold key_of in Hk.
  destruct (find_absent _ _ _ R q ltac:(unfold kTombstone; lia) He) as (i & Hi & Ef & Hh & Hp).
  assert (E0 : (key_at (track_hash (tracker v)) (trackSlot q i) =? q) = false) by (unfold key_at, rd; rewrite Hh; apply Z.eqb_neq; simpl; lia).
  unfold track_external, trackExternalPage. rewrite (vo_mode _ _ _ _ O), (proj2 (Z.leb_gt kTrackMaxPages _) Hn). unfold inContigArena in Ho. rewrite Ho, Hk, (proj2 (Z.eqb_neq q 0)) by lia. rewrite Ef, E0.
  eexists. split; [reflexivity|]. split; [|done]. constructor; cbn [tracking_mode arena total_pages_ with_tracker tracker]; try apply O.
  rewrite insert_insert_eq. pose proof pg_pos. apply (track_insert_rep _ _ _ R (q * kPageSize)); try done; lia.
Qed.

(** The map after pages [q], ..., [q + n - 1] got the indices from [idx] on. *)
Definition added (ext : gmap Z Z) (q n idx : Z) (ext' : gmap Z Z) : Prop :=
  forall k, ext' !! k = if (q <=? k) && (k <? q + n) then Some (idx + (k - q)) else ext !! k.

Definition states_set (st : PageStateTable) (lo n : Z) (s : PageState) (st' : PageStateTable) : Prop :=
  forall i, pst_get st' i = if (lo <=? i) && (i <? lo + n) then s else pst_get st i.

Lemma register_loop n : forall q v b lv ext st, vm_ok v b lv ext -> (forall k, q <= k < q + Z.of_nat n -> off_arena v k /\ ext !! k = None) ->
  external_slot_next_ (tracker v) + Z.of_nat n <= kTrackMaxPages -> let idx := contig_pages_ (arena v) + external_slot_next_ (tracker v) in
  exists v' st' ext', register_from n (q * kPageSize) ((q + Z.of_nat n) * kPageSize) v st = (v', st') /\ vm_ok v' b lv ext' /\ arena v' = arena v /\
    external_slot_next_ (tracker v') = external_slot_next_ (tracker v) + Z.of_nat n /\ added ext q (Z.of_nat n) idx ext' /\ states_set st idx (Z.of_nat n) ACTIVE st'.
Proof.
  pose proof pg_pos as Hpp. induction n as [|n IH]; intros q v b lv ext st O Hq Hn idx.
  { exists v, st, ext. splits; try done; [lia|intros k; case_if; [lia|done]|intros i; case_if; [lia|done]]. }
  destruct (Hq q ltac:(lia)) as [Ho He]. destruct (track_step v b lv ext q O Ho He ltac:(lia)) as (v1 & E1 & O1 & A1 & N1).
  destruct (page_facts q (proj1 Ho)) as (Hr & _ & _). cbn [register_from]. rewrite (proj2 (Z.ltb_lt _ _)) by nia. rewrite E1.
  assert (Hi : 0 < idx) by (pose proof (vo_contig _ _ _ _ O); pose proof (tr_next _ _ _ (vo_track _ _ _ _ O)); lia).
  fold idx. rewrite (proj2 (Z.eqb_neq idx 0)), wrap_small by lia. replace (q * kPageSize + kPageSize) with ((q + 1) * kPageSize) by lia.
  replace (q + Z.of_nat (S n)) with (q + 1 + Z.of_nat n) by lia.
  destruct (IH (q + 1) v1 b lv _ (pst_set st idx ACTIVE) O1) as (v2 & st2 & ext2 & E2 & O2 & A2 & N2 & P2 & S2).
  - intros k Hk. destruct (Hq k ltac:(lia)) as [[K1 K2] K3]. split; [split; [done|by rewrite A1]|]. rewrite lookup_insert_ne by lia. done.
  - lia.
  - rewrite A1, N1 in *. exists v2, st2, ext2. splits; try done; [lia| |].
    + intros k. rewrite P2. destruct (Z.eq_dec k q) as [->|]; [rewrite lookup_insert_eq; repeat case_if; try lia; f_equal; lia|].
      rewrite lookup_insert_ne by lia. repeat case_if; try lia; [|done]. f_equal. lia.
    + intros i. rewrite S2, pst_get_set. subst idx. repeat case_if; done || lia.
Qed.

(** No page lock is held. *)
Definition locks_free (l : PageLockTable) : Prop := forall i, rd false (locks l) i = false.

Lemma untrack_step v b lv ext l st self q idx : vm_ok v b lv ext -> off_arena v q -> ext !! q = Some idx -> locks_free l ->
  exists v' l', untrackExternalPageLocked v (Some l) (Some st) self (q * kPageSize) = Some (v', Some l', Some (pst_set st idx EMPTY)) /\
    vm_ok v' b lv (delete q ext) /\ arena v' = arena v /\ external_slot_next_ (tracker v') = external_slot_next_ (tracker v) /\ locks_free l'.
Proof.
  intros O [Hq Ho] He Hf. destruct (page_facts q Hq) as (Hr & Hmod & Hk). pose proof pg_pos as Hpp. pose proof (vo_track _ _ _ _ O) as R. pose proof (vo_mode _ _ _ _ O) as Hm.
  assert (Ei : pageIndex v (q * kPageSize) = idx) by (unfold pageIndex; rewrite Hm, Ho, (lookup_rep _ _ _ R) by lia; unfold key_of in Hk; rewrite Hk, (proj2 (Z.eqb_neq q 0)), He by lia; done).
  destruct (tr_idx _ _ _ R _ _ He) as [Hi _]. pose proof (vo_contig _ _ _ _ O).
  destruct (untrackExternalPageLocked v (Some l) (Some st) self (q * kPageSize)) as [[[v' l'] st']|] eqn:E.
  - destruct (untrackLocked_correct v b lv ext l st self (q * kPageSize) v' l' st' O ltac:(lia) Hmod Ho ltac:(rewrite Hk; by eexists) ltac:(lia) E) as (O' & _ & _ & -> & _).
    rewrite Hk, Ei in *. unfold untrackExternalPageLocked in E. rewrite Hm, Ei, (proj2 (Z.eqb_neq idx 0)) in E by lia. unfold lock, test_and_set in E. rewrite Hf in E.
    injection E as <- <-. eexists _, _. split; [reflexivity|]. split; [exact O'|]. split; [done|]. split.
    + cbn. unfold clearReverse, untrackExternalPage. repeat case_match; done.
    + intros i. cbn. rewrite !rd_insert. repeat case_if; try done; apply Hf.
  - exfalso. unfold untrackExternalPageLocked in E. rewrite Hm, Ei, (proj2 (Z.eqb_neq idx 0)) in E by lia. unfold lock, test_and_set in E. by rewrite Hf in E.
Qed.

Definition removed (ext : gmap Z Z) (q n : Z) (ext' : gmap Z Z) : Prop :=
  forall k, ext' !! k = if (q <=? k) && (k <? q + n) then None else ext !! k.

(** The pages' indices become EMPTY, no other state changes. *)
Definition states_cleared (ext : gmap Z Z) (q n : Z) (st st' : PageStateTable) : Prop :=
  forall i, pst_get st' i = pst_get st i \/ (pst_get st' i = EMPTY /\ exists k, q <= k < q + n /\ ext !! k = Some i).

Lemma deregister_loop self n : forall q x b lv ext st l, x_states x = Some st -> x_locks x = Some l -> locks_free l -> vm_ok (x_vm x) b lv ext ->
  (forall k, q <= k < q + Z.of_nat n -> off_arena (x_vm x) k /\ is_Some (ext !! k)) ->
  exists v' st' l' ext', deregister_from self n (q * kPageSize) ((q + Z.of_nat n) * kPageSize) x = Some (with_pages x v' (Some st') (Some l')) /\ locks_free l' /\
    vm_ok v' b lv ext' /\ arena v' = arena (x_vm x) /\ external_slot_next_ (tracker v') = external_slot_next_ (tracker (x_vm x)) /\
    removed ext q (Z.of_nat n) ext' /\ states_cleared ext q (Z.of_nat n) st st' /\ (forall k i, q <= k < q + Z.of_nat n -> ext !! k = Some i -> pst_get st' i = EMPTY).
Proof.
  pose proof pg_pos as Hpp. induction n as [|n IH]; intros q x b lv ext st l Es El Hf O Hq.
  { exists (x_vm x), st, l, ext. cbn [deregister_from]. splits; try done; [by destruct x; cbn in *; subst|intros k; case_if; [lia|done]|intros i; by left|lia]. }
  destruct (Hq q ltac:(lia)) as [Ho [idx He]]. destruct (untrack_step (x_vm x) b lv ext l st self q idx O Ho He Hf) as (v1 & l1 & E1 & O1 & A1 & N1 & F1).
  destruct (page_facts q (proj1 Ho)) as (Hr & _ & _). cbn [deregister_from]. rewrite (proj2 (Z.ltb_lt _ _)) by nia. rewrite El, Es, E1.
  rewrite wrap_small by lia. replace (q * kPageSize + kPageSize) with ((q + 1) * kPageSize) by lia. replace (q + Z.of_nat (S n)) with (q + 1 + Z.of_nat n) by lia.
  destruct (IH (q + 1) (with_pages x v1 (Some (pst_set st idx EMPTY)) (Some l1)) b lv _ _ l1 eq_refl eq_refl F1 O1) as (v2 & st2 & l2 & ext2 & E2 & F2 & O2 & A2 & N2 & P2 & S2 & T2).
  - intros k Hk. destruct (Hq k ltac:(lia)) as [[K1 K2] K3]. split; [split; [done|cbn; by rewrite A1]|]. rewrite lookup_delete_ne by lia. done.
  - exists v2, st2, l2, ext2. cbn in A2, N2. splits; try done; [congruence|congruence| | |].
    + intros k. rewrite P2. destruct (Z.eq_dec k q) as [->|]; [rewrite lookup_delete_eq|rewrite lookup_delete_ne by lia]; repeat case_if; done || lia.
    + intros i. destruct (S2 i) as [E|(E & k & Hk & Hi)]; rewrite E.
      * rewrite pst_get_set. case_if; [right|by left]. subst. split; [done|]. exists q. split; [lia|done].
      * right. split; [done|]. exists k. split; [lia|]. by rewrite lookup_delete_ne in Hi by lia.
    + intros k i Hk Hi. destruct (Z.eq_dec k q) as [->|]; [|apply (T2 k); [lia|by rewrite lookup_delete_ne by lia]].
      rewrite He in Hi. injection Hi as <-. destruct (S2 idx) as [E|[E _]]; rewrite E; [|done]. rewrite pst_get_set, Z.eqb_refl. done.
Qed.

(** The pages of a range. *)
Definition first_page (base : Z) : Z := base / kPageSize.
Definition page_count (base len : Z) : Z := (base + len + kPageSize - 1) / kPageSize - base / kPageSize.

Lemma range_pages base len : 0 < base -> 0 < len -> base + len < 2 ^ 60 ->
  page_down base = first_page base * kPageSize /\ page_up (u64 (base + len)) = (first_page base + page_count base len) * kPageSize /\ 0 < page_count base len /\
  u64 (len + kPageSize - 1) / kPageSize <= page_count base len.
Proof.
  intros Hb Hl Hs. pose proof pg_pos as Hpp. assert (Hk : 12 <= kPageShift <= 14) by (destruct kPageShift_cases; lia).
  assert (Hmask : forall x, 0 <= x < 2 ^ 64 -> Z.land x (u64 (Z.lnot (kPageSize - 1))) = x / kPageSize * kPageSize) by (intros x Hx; unfold kPageSize; rewrite land_lnot_mask by lia; lia).
  unfold page_down, page_up, first_page, page_count. rewrite (wrap_small 64 (base + len)), (wrap_small 64 (base + len + _ - 1)), (wrap_small 64 (len + _ - 1)) by lia. rewrite !Hmask by lia.
  split; [done|]. split; [f_equal; lia|]. clear Hmask. assert (Hn0 : kPageSize <> 0) by lia. pose proof (Z.div_mod base kPageSize Hn0) as Hd. assert (Hn1 : 0 < kPageSize) by lia. pose proof (Z.mod_pos_bound base kPageSize Hn1) as Hm.
  assert (Hle : (len + kPageSize - 1) / kPageSize + base / kPageSize <= (base + len + kPageSize - 1) / kPageSize).
  { rewrite <- Z.div_add by lia. apply Z.div_le_mono; [lia|]. lia. }
  assert (0 < (len + kPageSize - 1) / kPageSize) by (apply Z.div_str_pos; lia). lia.
Qed.

(** ** Theorems *)

Record tracking_ok (x : Tracking) (b : list DecommitEntry) (lv : list FreeRun) (ext : gmap Z Z) (st : PageStateTable) : Prop := {
  to_vm : vm_ok (x_vm x) b lv ext;
  to_states : x_states x = Some st;
  to_locks : exists l, x_locks x = Some l /\ locks_free l;
  to_enabled : x_enabled x = true;
  to_skip : x_skip x = false
}.

Definition next_index (x : Tracking) : Z := contig_pages_ (arena (x_vm x)) + external_slot_next_ (tracker (x_vm x)).

(** A range outside the arena with room for its pages in the directory. *)
Definition fresh_range (x : Tracking) (ext : gmap Z Z) (base len : Z) : Prop :=
  0 < base /\ 0 < len /\ base + len < 2 ^ 60 /\ external_slot_next_ (tracker (x_vm x)) + page_count base len <= kTrackMaxPages /\
  forall q, first_page base <= q < first_page base + page_count base len -> off_arena (x_vm x) q /\ ext !! q = None.

Definition tracked_range (x : Tracking) (ext : gmap Z Z) (base len : Z) : Prop :=
  0 < base /\ 0 < len /\ base + len < 2 ^ 60 /\
  forall q, first_page base <= q < first_page base + page_count base len -> off_arena (x_vm x) q /\ is_Some (ext !! q).

Lemma register_range x b lv ext st base len : tracking_ok x b lv ext st -> fresh_range x ext base len ->
  exists ext' st', tracking_ok (registerLinuxExternalRange x base len) b lv ext' st' /\ added ext (first_page base) (page_count base len) (next_index x) ext' /\
    states_set st (next_index x) (page_count base len) ACTIVE st' /\ arena (x_vm (registerLinuxExternalRange x base len)) = arena (x_vm x) /\
    next_index (registerLinuxExternalRange x base len) = next_index x + page_count base len.
Proof.
  intros [O Es El Ee Ek] (Hb & Hl & Hs & Hn & Hq). destruct (range_pages base len Hb Hl Hs) as (R1 & R2 & R3 & R4). pose proof pg_pos as Hpp.
  pose proof (tr_next _ _ _ (vo_track _ _ _ _ O)) as Hnx.
  unfold registerLinuxExternalRange. rewrite (proj2 (Z.eqb_neq base 0)), (proj2 (Z.eqb_neq len 0)) by lia. rewrite Ee, Ek, Es. cbn [orb negb].
  unfold externalSlotCapacity. rewrite (proj2 (Z.ltb_ge kTrackMaxPages _)) by lia. rewrite R1, R2.
  replace (((first_page base + page_count base len) * kPageSize - first_page base * kPageSize) / kPageSize) with (page_count base len)
    by (replace (_ - _) with (page_count base len * kPageSize) by lia; rewrite Z.div_mul by lia; done).
  destruct (register_loop (Z.to_nat (page_count base len)) (first_page base) (x_vm x) b lv ext st O) as (v' & st' & ext' & E & O' & A & N & P & S); rewrite Z2Nat.id in * by lia.
  - exact Hq.
  - exact Hn.
  - rewrite E. exists ext', st'. split; [by constructor|]. split; [exact P|]. split; [exact S|]. split; [exact A|]. unfold next_index. cbn. rewrite A, N. lia.
Qed.

Lemma deregister_range self x b lv ext st base len : tracking_ok x b lv ext st -> tracked_range x ext base len ->
  exists y ext' st', deregisterLinuxExternalRange self x base len = Some y /\ tracking_ok y b lv ext' st' /\ removed ext (first_page base) (page_count base len) ext' /\
    states_cleared ext (first_page base) (page_count base len) st st' /\
    (forall q i, first_page base <= q < first_page base + page_count base len -> ext !! q = Some i -> pst_get st' i = EMPTY) /\
    arena (x_vm y) = arena (x_vm x) /\ next_index y = next_index x.
Proof.
  intros [O Es (l & El & Hf) Ee Ek] (Hb & Hl & Hs & Hq). destruct (range_pages base len Hb Hl Hs) as (R1 & R2 & R3 & R4). pose proof pg_pos as Hpp.
  unfold deregisterLinuxExternalRange. rewrite (proj2 (Z.eqb_neq base 0)), (proj2 (Z.eqb_neq len 0)) by lia. rewrite Ee, Es. cbn [orb negb]. rewrite R1, R2.
  replace (((first_page base + page_count base len) * kPageSize - first_page base * kPageSize) / kPageSize) with (page_count base len)
    by (replace (_ - _) with (page_count base len * kPageSize) by lia; rewrite Z.div_mul by lia; done).
  destruct (deregister_loop self (Z.to_nat (page_count base len)) (first_page base) x b lv ext st l Es El Hf O) as (v' & st' & l' & ext' & E & F & O' & A & N & P & S & T); rewrite Z2Nat.id in * by lia.
  - exact Hq.
  - rewrite E. eexists _, ext', st'. split; [reflexivity|]. split; [constructor; try done; by exists l'|]. split; [exact P|]. split; [exact S|]. split; [exact T|]. split; [exact A|].
    unfold next_index. cbn. by rewrite A, N.
Qed.

(** C32: A program's mapping is tracked from [mmap] to [munmap], if tracking is on
    (SMASH_TRACK_EXTERNAL=1, and the profile did not mark external pages as hot), all page locks are free, and the range the
    kernel gives lies outside the arena, is not tracked yet, ends below 2^60 and fits into the
    indices left for external pages.  Then mapping
    anonymous writable memory gives each of its pages the next index and makes
    it ACTIVE, so that the compressor may take it.  Unmapping it, before the
    kernel does, removes exactly these pages: the directory is the old map
    again, their indices are EMPTY, every other page keeps index and state, and all page
    locks are free.  The indices are not used again. *)
Theorem mapping_roundtrip {K} x b lv ext st (real_mmap real_munmap : K -> Z * K) self ret len prot flags k k1 :
  tracking_ok x b lv ext st -> fresh_range x ext ret len ->
  real_mmap k = (ret, k1) -> Z.land flags MAP_ANONYMOUS <> 0 -> Z.land prot PROT_WRITE <> 0 ->
  exists y ext1 st1, mmap (Some real_mmap) len prot flags (Some x) k = (ret, Some y, k1) /\ tracking_ok y b lv ext1 st1 /\
    added ext (first_page ret) (page_count ret len) (next_index x) ext1 /\ states_set st (next_index x) (page_count ret len) ACTIVE st1 /\
    exists z st2, munmap self (Some real_munmap) ret len (Some y) k1 = Some ((real_munmap k1).1, Some z, (real_munmap k1).2) /\ tracking_ok z b lv ext st2 /\
      states_set st (next_index x) (page_count ret len) EMPTY st2 /\ next_index z = next_index x + page_count ret len.
Proof.
  intros O F Er Hfl Hp. destruct (register_range x b lv ext st ret len O F) as (ext1 & st1 & O1 & P1 & S1 & A1 & N1). set (y := registerLinuxExternalRange x ret len) in *.
  destruct F as (Hb & Hl & Hs & Hn & Hq). exists y, ext1, st1. split; [|split; [exact O1|split; [exact P1|split; [exact S1|]]]].
  { unfold mmap. rewrite Er. unfold MAP_FAILED. rewrite (proj2 (Z.eqb_neq ret _)), (proj2 (Z.eqb_neq _ 0) Hfl), (proj2 (Z.eqb_neq _ 0) Hp), (proj2 (Z.eqb_neq len 0)) by lia. done. }
  destruct (deregister_range self y b lv ext1 st1 ret len O1) as (z & ext2 & st2 & E2 & O2 & P2 & S2 & T2 & A2 & N2).
  { split; [done|]. split; [done|]. split; [done|]. intros q Hr. destruct (Hq q Hr) as [[H1 H2] _]. split; [split; [done|by rewrite A1]|]. rewrite P1.
    rewrite (proj2 (Z.leb_le _ q)), (proj2 (Z.ltb_lt q _)) by lia. by eexists. }
  assert (ext2 = ext) as ->.
  { apply map_eq. intros q. rewrite P2, P1. destruct ((first_page ret <=? q) && (q <? first_page ret + page_count ret len)) eqn:E; [|done]. b2p. symmetry. by apply Hq. }
  exists z, st2. split; [|split; [exact O2|split]].
  - unfold munmap. rewrite (proj2 (Z.eqb_neq ret 0)), (proj2 (Z.eqb_neq len 0)) by lia. cbn [orb]. rewrite E2. cbn [option_map]. by destruct (real_munmap k1).
  - intros i. specialize (S1 i). destruct ((next_index x <=? i) && (i <? next_index x + page_count ret len)) eqn:E.
    + b2p. apply (T2 (first_page ret + (i - next_index x))); [lia|]. rewrite P1, (proj2 (Z.leb_le _ _)), (proj2 (Z.ltb_lt _ _)) by lia. cbn. f_equal. lia.
    + rewrite <- S1. destruct (S2 i) as [Ei|(_ & q & Hr & Hi)]; [done|]. exfalso. rewrite P1, (proj2 (Z.leb_le _ _)), (proj2 (Z.ltb_lt _ _)) in Hi by lia. injection Hi as <-. b2p. lia.
  - lia.
Qed.

(** C39: [mremap] forgets compressed pages that it moves.  Let a page of the
    old range be COMPRESSED, so that its contents are under its index in the
    stores.  After a move that index is EMPTY and leads nowhere, and the page
    at its new address has another index in state ACTIVE, which owns no
    contents. *)
Theorem mremap_move_loses {K} x b lv ext st (real_mremap : option Z -> K -> Z * K) self old_addr old_size ret new_size flags new_arg k k1 q i :
  tracking_ok x b lv ext st -> tracked_range x ext old_addr old_size -> fresh_range x ext ret new_size ->
  real_mremap (if Z.land flags MREMAP_FIXED =? 0 then None else Some new_arg) k = (ret, k1) -> ret <> old_addr ->
  0 <= q < page_count old_addr old_size -> q < page_count ret new_size ->
  ext !! (first_page old_addr + q) = Some i -> pst_get st i = COMPRESSED ->
  exists y ext' st' j, mremap self (Some real_mremap) old_addr old_size new_size flags new_arg (Some x) k = Some (ret, Some y, k1) /\
    tracking_ok y b lv ext' st' /\ (forall p, ext' !! p <> Some i) /\ pst_get st' i = EMPTY /\
    ext' !! (first_page ret + q) = Some j /\ j <> i /\ pst_get st' j = ACTIVE.
Proof.
  intros O T F Er Hne Hq Hq' Hi Hc. destruct (deregister_range self x b lv ext st old_addr old_size O T) as (y & ext1 & st1 & E1 & O1 & P1 & S1 & T1 & A1 & N1).
  assert (Hslot : external_slot_next_ (tracker (x_vm y)) = external_slot_next_ (tracker (x_vm x))) by (unfold next_index in N1; rewrite A1 in N1; lia).
  destruct (register_range y b lv ext1 st1 ret new_size O1) as (ext2 & st2 & O2 & P2 & S2 & A2 & N2).
  { destruct F as (F1 & F2 & F3 & F4 & F5). split; [done|]. split; [done|]. split; [done|]. split; [by rewrite Hslot|]. intros p Hp. destruct (F5 p Hp) as [[H1 H2] H3].
    split; [split; [done|by rewrite A1]|]. rewrite P1. by case_if. }
  destruct (tr_idx _ _ _ (vo_track _ _ _ _ (to_vm _ _ _ _ _ O)) _ _ Hi) as [Hib _].
  assert (Hlt : i < next_index y) by (rewrite N1; unfold next_index; lia).
  exists (registerLinuxExternalRange y ret new_size), ext2, st2, (next_index y + q). split; [|split; [exact O2|split; [|split; [|split; [|split]]]]].
  - unfold mremap. rewrite Er. destruct F as (F1 & F2 & F3 & _). unfold MAP_FAILED. rewrite (proj2 (Z.eqb_neq ret (2 ^ 64 - 1))), (to_enabled _ _ _ _ _ O), (proj2 (Z.eqb_neq ret old_addr) Hne) by lia.
    cbn [negb]. by rewrite E1.
  - intros p Hp. rewrite P2 in Hp. destruct ((first_page ret <=? p) && _) eqn:E; [b2p; injection Hp as Hp; lia|]. rewrite P1 in Hp. case_if_in Hp; [done|].
    pose proof (track_idx_inj _ _ _ _ _ _ (vo_track _ _ _ _ (to_vm _ _ _ _ _ O)) Hi Hp). lia.
  - rewrite S2. case_if; [lia|]. apply (T1 (first_page old_addr + q)); [lia|done].
  - rewrite P2, (proj2 (Z.leb_le _ _)), (proj2 (Z.ltb_lt _ _)) by lia. cbn. f_equal. lia.
  - lia.
  - rewrite S2, (proj2 (Z.leb_le _ _)), (proj2 (Z.ltb_lt _ _)) by lia. done.
Qed.
End Mappings.

Section Witnesses.
#[local] Existing Instance pages4K.

Definition demo_tracking (v : VmRegion) (st : PageStateTable) : Tracking := mkTracking v (Some st) (Some plt_init) true false false.
Definition demo_states : PageStateTable := pst_set (pst_init 200 false) 100 COMPRESSED.

Lemma demo_tracking_ok v ext st : vm_ok v [] [] ext -> tracking_ok (demo_tracking v st) [] [] ext st.
Proof. intros H. constructor; try done. by exists plt_init. Qed.

Lemma demo_vm_ok : vm_ok demo_vm [] [] ∅.
Proof. constructor; [done|exact demo_arena_inv|apply track_init_rep|done|done]. Qed.

Lemma demo_off v q : arena v = arena demo_vm -> 0 < q < 1000 -> off_arena v q.
Proof. intros Ea Hq. split; [lia|]. rewrite Ea. unfold inContigArena. change (base_ (arena demo_vm)) with 4194304. change kPageSize with 4096. apply andb_false_iff. left. apply Z.leb_gt. lia. Qed.

Lemma demo_next : external_slot_next_ (tracker demo_vm1) = 1.
Proof. reflexivity. Qed.

Lemma mapping_roundtrip_witness :
  exists y z, mmap (K := unit) (Some (fun k => (81920, k))) 8192 3 34 (Some (demo_tracking demo_vm (pst_init 200 false))) tt = (81920, Some y, tt) /\
    munmap (K := unit) 7 (Some (fun k => (0, k))) 81920 8192 (Some y) tt = Some (0, Some z, tt) /\ next_index z = 102.
Proof.
  destruct (mapping_roundtrip (K := unit) (demo_tracking demo_vm (pst_init 200 false)) [] [] ∅ (pst_init 200 false) (fun k => (81920, k)) (fun k => (0, k)) 7 81920 8192 3 34 tt tt)
    as (y & ext1 & st1 & E1 & _ & _ & _ & z & st2 & E2 & _ & _ & N).
  - apply demo_tracking_ok, demo_vm_ok.
  - split; [lia|]. split; [lia|]. split; [lia|]. split; [done|]. intros q Hq. change (first_page 81920) with 20 in Hq. change (page_count 81920 8192) with 2 in Hq.
    split; [apply demo_off; [done|lia]|done].
  - reflexivity.
  - discriminate.
  - discriminate.
  - exists y, z. split; [exact E1|]. split; [exact E2|exact N].
Defined.

Lemma mremap_move_loses_witness :
  exists y, mremap (K := unit) 7 (Some (fun _ k => (163840, k))) 81920 4096 4096 1 0 (Some (demo_tracking demo_vm1 demo_states)) tt = Some (163840, Some y, tt) /\
    exists st', x_states y = Some st' /\ pst_get st' 100 = EMPTY.
Proof.
  destruct (mremap_move_loses (K := unit) (demo_tracking demo_vm1 demo_states) [] [] {[20 := 100]} demo_states (fun _ k => (163840, k)) 7 81920 4096 163840 4096 1 0 tt tt 0 100)
    as (y & ext' & st' & j & E & O & _ & Hs & _).
  - apply demo_tracking_ok, demo_vm1_ok.
  - split; [lia|]. split; [lia|]. split; [lia|]. intros q Hq. change (first_page 81920) with 20 in Hq. change (page_count 81920 4096) with 1 in Hq.
    assert (q = 20) as -> by lia. split; [apply demo_off; [reflexivity|lia]|by eexists].
  - split; [lia|]. split; [lia|]. split; [lia|]. split; [cbn [demo_tracking x_vm]; rewrite demo_next; done|]. intros q Hq. change (first_page 163840) with 40 in Hq. change (page_count 163840 4096) with 1 in Hq.
    assert (q = 40) as -> by lia. split; [apply demo_off; [reflexivity|lia]|reflexivity].
  - reflexivity.
  - discriminate.
  - change (page_count 81920 4096) with 1. lia.
  - reflexivity.
  - reflexivity.
  - reflexivity.
  - exists y. split; [exact E|]. exists st'. split; [apply (to_states _ _ _ _ _ O)|exact Hs].
Defined.
End Witnesses.
