(* ===== verification/Syscalls.v ===== *)
(** * System call wrappers (src/vm/syscall_compat.h, src/linux_syscall_wrappers.cpp)

    A system call that meets a protected page fails with EFAULT instead of
    raising a fault; the wrappers then touch the pages of the buffers and call
    again.  Here: the touching loops, the bounded retry, every wrapper's walk,
    the buffered and exec wrappers, and the tracking of mappings made by the
    program itself.

    A process is its page protections, what the program sees, and the time
    slept.  Touching a protected page makes it writable and changes nothing the
    program sees: [PageTransparency.fault_resolves] and [page_transparency].
    The real functions, the kernel and what the compressor does between two
    attempts are arguments. *)

From stdpp Require Import functions.
From S2P Require Import Prelude BitOps Config PageState VmArena VmTrack VmRegion PageProg PageWorld.

(** ** Processes *)

Record Proc (U : Type) := mkProc { prot_of : gmap Z Prot; user : U; slept : list Z }.
Arguments mkProc {U}. Arguments prot_of {U}. Arguments user {U}. Arguments slept {U}.

(** Results: return value, errno, process. *)
Definition Sys (U : Type) : Type := Proc U -> Z * Z * Proc U.

Definition EFAULT : Z := 14.
Definition ENOSYS : Z := 38.

Section Wrappers.
Context `{PG : PageGeometry} {U : Type}.
#[local] Abbreviation Proc := (Proc U).
#[local] Abbreviation Sys := (Sys U).

Definition prot_at (m : Proc) (page : Z) : Prot := rd PRW (prot_of m) page.
Definition page_of (p : Z) : Z := Z.shiftr p kPageShift.
Definition set_prot (page : Z) (a : Prot) (m : Proc) : Proc := mkProc (<[page := a]> (prot_of m)) (user m) (slept m).
Definition sleep (ns : Z) (m : Proc) : Proc := mkProc (prot_of m) (user m) (slept m ++ [ns]).

(** A load faults on a page without access, a store on any that is not writable. *)
Definition load (p : Z) (m : Proc) : Proc := match prot_at m (page_of p) with PNone => set_prot (page_of p) PRW m | _ => m end.
Definition store (p : Z) (m : Proc) : Proc := match prot_at m (page_of p) with PRW => m | _ => set_prot (page_of p) PRW m end.

(** ** Touching pages *)

Fixpoint warm_from (n : nat) (vm : VmRegion) (p e : Z) (m : Proc) : Proc :=
  match n with
  | O => m
  | S n =>
    if p <? e
    then warm_from n vm (u64 (p + kPageSize)) e (if vm_contains vm p then store p (load p m) else m)
    else m
  end.

(** [len / kPageSize + 2] steps reach the end of the buffer. *)
(* src/vm/syscall_compat.h:56-66 warmPages *)
Definition warmPages (vm : option VmRegion) (buf len : Z) (m : Proc) : Proc :=
  match vm with
  | None => m
  | Some vm =>
    if (buf =? 0) || (len =? 0) then m
    else warm_from (Z.to_nat (len / kPageSize) + 2) vm (Z.land buf (u64 (Z.lnot (kPageSize - 1)))) (u64 (buf + len)) m
  end.

(* src/vm/syscall_compat.h:70-72 walkPagesForFault *)
Definition walkPagesForFault (vm : option VmRegion) (buf len : Z) (m : Proc) : Proc := warmPages vm buf len m.

(** The array lies at [iov]; its entries are loaded one by one. *)
(* src/vm/syscall_compat.h:74-79 walkIovecForFault *)
Definition walkIovecForFault (vm : option VmRegion) (iov : Z) (vec : list (Z * Z)) (m : Proc) : Proc :=
  foldl (fun m x =>
           let '(i, (b, n)) := x in
           let m := load (iov + 16 * Z.of_nat i + 8) (load (iov + 16 * Z.of_nat i) m) in
           if (b =? 0) || (n =? 0) then m else walkPagesForFault vm b n m)
    m (zip (seq 0 (length vec)) vec).

(** ** Retrying *)

Section Retry.
(** What the compressor does before the n-th call. *)
Context (meddle : nat -> Proc -> Proc).

Fixpoint retry (n : nat) (attempt : nat) (backoff_ns : Z) (syscall : Sys) (walk : Proc -> Proc) (ret errno : Z) (m : Proc) : Z * Z * Proc :=
  match n with
  | O => (ret, errno, m)
  | S n =>
    if (ret =? -1) && (errno =? EFAULT) then
      let m := walk m in
      let '(m, backoff_ns) := if (0 <? attempt)%nat then (sleep backoff_ns m, backoff_ns * 2) else (m, backoff_ns) in
      let '(ret, errno, m) := syscall (meddle (S attempt) m) in
      retry n (S attempt) backoff_ns syscall walk ret errno m
    else (ret, errno, m)
  end.

(* src/vm/syscall_compat.h:81-104 retryWithDecompress *)
Definition retryWithDecompress (syscall : Sys) (walk : Proc -> Proc) : Sys := fun m =>
  let '(ret, errno, m) := syscall (meddle 0%nat m) in retry 8 0 1000 syscall walk ret errno m.

Context (vm : option VmRegion).

(* src/vm/syscall_compat.h:145-152 retryWith1Buf *)
Definition retryWith1Buf (syscall : Sys) (buf len : Z) : Sys :=
  retryWithDecompress syscall (fun m => if (buf =? 0) || (len =? 0) then m else walkPagesForFault vm buf len m).

(* src/vm/syscall_compat.h:155-168 retryWith2Bufs *)
Definition retryWith2Bufs (syscall : Sys) (a a_len b b_len : Z) : Sys :=
  retryWithDecompress syscall (fun m =>
    let m := if (a =? 0) || (a_len =? 0) then m else walkPagesForFault vm a a_len m in
    if (b =? 0) || (b_len =? 0) then m else walkPagesForFault vm b b_len m).

(* src/vm/syscall_compat.h:171-179 retryWithIovec *)
Definition retryWithIovec (syscall : Sys) (iov : Z) (vec : list (Z * Z)) : Sys :=
  retryWithDecompress syscall (fun m => match vm with Some _ => if iov =? 0 then m else walkIovecForFault vm iov vec m | None => m end).

(** ** Lookup of the real functions *)

(** [resolving] is [g_resolving_syscalls], [found] the answer of [dlsym]. *)
(* src/linux_syscall_wrappers.cpp:66-74 SMASH_LAZY_RESOLVE *)
Definition lazy_resolve {F : Type} (real : option F) (resolving : bool) (found : option F) : option F :=
  match real with Some f => Some f | None => if resolving then None else found end.

(* src/linux_syscall_wrappers.cpp:82-87 bufferInHeap *)
Definition bufferInHeap (buf len : Z) : bool :=
  match vm with
  | None => false
  | Some v => if (buf =? 0) || (len =? 0) then false else vm_contains v buf || vm_contains v (u64 (buf + len - 1))
  end.

(** The entries are loaded up to the first that is in the heap. *)
(* src/linux_syscall_wrappers.cpp:90-97 iovecInHeap *)
Fixpoint entriesInHeap (iov : Z) (vec : list (Z * Z)) (m : Proc) : bool * Proc :=
  match vec with
  | [] => (false, m)
  | x :: vec =>
    let m := load (iov + 8) (load iov m) in
    if bufferInHeap x.1 x.2 then (true, m) else entriesInHeap (iov + 16) vec m
  end.

(* src/linux_syscall_wrappers.cpp:90-97 iovecInHeap *)
Definition iovecInHeap (iov : Z) (vec : list (Z * Z)) (m : Proc) : bool * Proc :=
  match vm with
  | None => (false, m)
  | Some _ => if iov =? 0 then (false, m) else entriesInHeap iov vec m
  end.

(** ** The wrappers

    A call carries the pointers and lengths its wrapper looks at; [real] is the
    resolved function applied to the arguments, [raw] the direct system call
    used while the former is not known. *)

Definition interpose (real : option Sys) (raw : Sys) (wrapped : Sys -> Sys) : Sys :=
  match real with Some f => wrapped f | None => raw end.

(** [walk] only if [cond] held when the call was made. *)
Definition walk_if (cond : bool) (buf len : Z) (m : Proc) : Proc := if cond then walkPagesForFault vm buf len m else m.

(** The return address of the peer is in [from], its length in [fromlen]. *)
(* src/linux_syscall_wrappers.cpp:104-201 read *)
Inductive IoCall :=
| C_read (buf count : Z) | C_write (buf count : Z) | C_pread (buf count : Z) | C_pwrite (buf count : Z)
| C_readv (iov : Z) (vec : list (Z * Z)) | C_writev (iov : Z) (vec : list (Z * Z))
| C_recv (buf len : Z) | C_send (buf len : Z)
| C_recvfrom (buf len from fromlen size : Z) | C_sendto (buf len to tolen : Z).

(** [disabled] is [g_syscall_wrap_disabled]. *)
(* src/linux_syscall_wrappers.cpp:104-201 read *)
Definition w_io (disabled : bool) (c : IoCall) (real : option Sys) (raw : Sys) : Sys :=
  interpose real raw (fun f =>
    match c with
    | C_read buf n | C_write buf n => if disabled then f else retryWith1Buf f buf n
    | C_pread buf n | C_pwrite buf n | C_recv buf n | C_send buf n | C_recvfrom buf n _ _ _ | C_sendto buf n _ _ => retryWith1Buf f buf n
    | C_readv iov vec | C_writev iov vec => retryWithIovec f iov vec
    end).

(** The header at [msg]; name, control and vector are its fields. *)
(* src/linux_syscall_wrappers.cpp:203-227 recvmsg *)
Record Msg := mkMsg { msg : Z; msg_name : Z * Z; msg_control : Z * Z; msg_iov : Z; msg_vec : list (Z * Z) }.

(** The two fields that describe the vector. *)
Definition load_header (p : Z) (m : Proc) : Proc := load (p + 24) (load (p + 16) m).

(* src/linux_syscall_wrappers.cpp:203-227 recvmsg *)
Definition w_msg (h : Msg) (real : option Sys) (raw : Sys) : Sys :=
  interpose real raw (fun f m =>
    let '(in_heap, m) := if msg h =? 0 then (false, m) else iovecInHeap (msg_iov h) (msg_vec h) (load_header (msg h) m) in
    retryWithDecompress f (fun m => if in_heap then walkIovecForFault vm (msg_iov h) (msg_vec h) (load_header (msg h) m) else m) m).

(** One array of [n] entries of [size] bytes. *)
(* src/linux_syscall_wrappers.cpp:229-269 poll *)
Definition w_array (buf n size : Z) (real : option Sys) (raw : Sys) : Sys :=
  interpose real raw (fun f =>
    let bytes := u64 (n * size) in
    let in_heap := bufferInHeap buf bytes in
    retryWithDecompress f (walk_if in_heap buf bytes)).

Definition sizeof_pollfd : Z := 8.
Definition sizeof_fd_set : Z := 128.
Definition sizeof_epoll_event : Z := 12.

(* src/linux_syscall_wrappers.cpp:271-322 select *)
Definition w_select (readfds writefds exceptfds : Z) (real : option Sys) (raw : Sys) : Sys :=
  interpose real raw (fun f =>
    let pin s := negb (s =? 0) && bufferInHeap s sizeof_fd_set in
    let pin_r := pin readfds in let pin_w := pin writefds in let pin_e := pin exceptfds in
    retryWithDecompress f (fun m =>
      walk_if pin_e exceptfds sizeof_fd_set (walk_if pin_w writefds sizeof_fd_set (walk_if pin_r readfds sizeof_fd_set m)))).

(** A buffer whose size is read through a pointer: [size] is [*lenp]. *)
(* src/linux_syscall_wrappers.cpp:324-353 accept *)
Definition w_sized (addr lenp size : Z) (real : option Sys) (raw : Sys) : Sys :=
  interpose real raw (fun f m =>
    let m := if negb (addr =? 0) && negb (lenp =? 0) then load lenp m else m in
    let addr_size := if negb (addr =? 0) && negb (lenp =? 0) then size else 0 in
    let in_heap := negb (addr_size =? 0) && bufferInHeap addr addr_size in
    retryWithDecompress f (walk_if in_heap addr addr_size) m).

(** The headers are read from the array, so that it is loaded. *)
(* src/linux_syscall_wrappers.cpp:355-393 recvmmsg *)
Definition w_mmsg (msgvec : Z) (hs : list Msg) (real : option Sys) (raw : Sys) : Sys :=
  interpose real raw (fun f =>
    retryWithDecompress f (fun m =>
      foldl (fun m x =>
               let '(i, h) := x in
               let m := load_header (msgvec + 64 * Z.of_nat i) m in
               if negb (msg_iov h =? 0) && (0 <? zlen (msg_vec h)) then walkIovecForFault vm (msg_iov h) (msg_vec h) m else m)
        m (zip (seq 0 (length hs)) hs))).

(* src/linux_syscall_wrappers.cpp:395-438 getsockopt *)
Definition w_sockopt := w_sized.

(** Calls that fill one structure; those with a path take it in [path]. *)
(* src/linux_syscall_wrappers.cpp:440-589 fstat *)
Inductive StructCall :=
| C_fstat | C_fstat64 | C_fxstat | C_fxstat64 | C_fstatfs
| C_stat | C_lstat | C_fstatat | C_stat64 | C_lstat64 | C_fstatat64
| C_xstat | C_lxstat | C_fxstatat | C_xstat64 | C_lxstat64 | C_fxstatat64 | C_statx
| C_waitid | C_statvfs | C_fstatvfs | C_getrusage.

Definition sizeof_out (c : StructCall) : Z :=
  match c with
  | C_fstatfs => 120
  | C_statx => 256
  | C_waitid => 128
  | C_statvfs | C_fstatvfs => 112
  | _ => 144
  end.

Definition takes_path (c : StructCall) : bool :=
  match c with
  | C_fstat | C_fstat64 | C_fxstat | C_fxstat64 | C_fstatfs | C_waitid | C_fstatvfs | C_getrusage => false
  | _ => true
  end.

(** [statvfs] and [fstatvfs] have no direct system call. *)
(* src/linux_syscall_wrappers.cpp:500-625 stat *)
Definition w_struct (c : StructCall) (st : Z) (real : option Sys) (raw : Sys) : Sys :=
  let raw := match c with C_statvfs | C_fstatvfs => fun m => (-1, ENOSYS, m) | _ => raw end in
  interpose real raw (fun f => retryWith1Buf f st (sizeof_out c)).

(** Calls that fill a buffer of the given size. *)
(* src/linux_syscall_wrappers.cpp:627-661 getdents64 *)
Inductive FillCall :=
| C_getdents64 | C_readlink | C_readlinkat | C_getxattr | C_lgetxattr | C_fgetxattr
| C_listxattr | C_llistxattr | C_flistxattr | C_getrandom.

(* src/linux_syscall_wrappers.cpp:762-822 getxattr *)
Definition w_fill (c : FillCall) (buf size : Z) (real : option Sys) (raw : Sys) : Sys :=
  interpose real raw (fun f => retryWith1Buf f buf size).

(* src/linux_syscall_wrappers.cpp:663-704 preadv *)
Definition w_vector (iov : Z) (vec : list (Z * Z)) (real : option Sys) (raw : Sys) : Sys :=
  interpose real raw (fun f => retryWithIovec f iov vec).

Definition sizeof_rusage : Z := 144.
Definition sizeof_rlimit64 : Z := 16.

Definition walk_both (a a_len b b_len : Z) (m : Proc) : Proc :=
  let m := if a =? 0 then m else walkPagesForFault vm a a_len m in
  if b =? 0 then m else walkPagesForFault vm b b_len m.

(* src/linux_syscall_wrappers.cpp:721-734 wait4 *)
Definition w_wait4 (wstatus rusage : Z) (real : option Sys) (raw : Sys) : Sys :=
  interpose real raw (fun f => retryWithDecompress f (walk_both wstatus 4 rusage sizeof_rusage)).

(* src/linux_syscall_wrappers.cpp:836-856 prlimit64 *)
Definition w_prlimit64 (new_limit old_limit : Z) (real : option Sys) (raw : Sys) : Sys :=
  interpose real raw (fun f => retryWithDecompress f (walk_both new_limit sizeof_rlimit64 old_limit sizeof_rlimit64)).

(* src/linux_syscall_wrappers.cpp:1028-1063 epoll_wait *)
Definition w_epoll (events maxevents : Z) (real : option Sys) (raw : Sys) : Sys :=
  w_array events maxevents sizeof_epoll_event real raw.

(** [getcwd] reports failure by a null pointer; as a [Sys] that is -1.  [tmp] is
    the address of the local buffer, [strdup] copies the result. *)
(* src/linux_syscall_wrappers.cpp:874-931 getcwd *)
Definition w_getcwd (tmp buf size : Z) (real : option Sys) (raw : Sys) (strdup : Proc -> Z * Proc) : Sys := fun m =>
  let call := match real with Some f => f | None => raw end in
  if buf =? 0 then
    let '(ret, errno, m) := retryWithDecompress call (fun m => walkPagesForFault vm tmp 4096 m) m in
    if ret =? -1 then (-1, errno, m) else let '(p, m) := strdup m in (p, errno, m)
  else retryWithDecompress call (fun m => if size =? 0 then m else walkPagesForFault vm buf size m) m.

(** ** Buffered input and output *)

(** [base, fin] delimit the stream's buffer. *)
(* src/linux_syscall_wrappers.cpp:944-954 warmGlibcFileBuffer *)
Definition warmGlibcFileBuffer (stream base fin : Z) (m : Proc) : Proc :=
  if stream =? 0 then m
  else if negb (base =? 0) && (base <? fin)
  then (if bufferInHeap base (fin - base) then warmPages vm base (fin - base) m else m)
  else m.

(** [fread], [fwrite], [fgets], [fgetc] and [fflush]: the caller's [total]
    bytes at [ptr], if any, then the stream's buffer. *)
(* src/linux_syscall_wrappers.cpp:956-1017 fread *)
Definition w_stdio (ptr total stream base fin : Z) (real : option Sys) (missing : Z) : Sys := fun m =>
  match real with
  | None => (missing, 0, m)
  | Some f =>
    let m := if negb (total =? 0) && bufferInHeap ptr total then warmPages vm ptr total m else m in
    f (meddle 0%nat (warmGlibcFileBuffer stream base fin m))
  end.

(** ** Program start *)

(** A string of [n] bytes without its end at [s]; 0 is null. *)
(* src/linux_syscall_wrappers.cpp:1481-1487 warm_str *)
Definition warm_str (s n : Z) (m : Proc) : Proc :=
  match vm with
  | Some v => if (s =? 0) || negb (vm_contains v s) then m else warmPages vm s (n + 1) m
  | None => m
  end.

(** The array at [arr] of strings with their lengths, without the final null. *)
(* src/linux_syscall_wrappers.cpp:1489-1500 warm_argv *)
Definition warm_argv (arr : Z) (strs : list (Z * Z)) (m : Proc) : Proc :=
  match vm with
  | Some _ =>
    if arr =? 0 then m
    else
      let m := if 0 <? zlen strs then warmPages vm arr ((zlen strs + 1) * 8) m else m in
      foldl (fun m s => warm_str s.1 s.2 m) m strs
  | None => m
  end.

(** [execve], [execvpe], [posix_spawn] and [posix_spawnp]; [execv] and
    [execvp] pass no environment. *)
(* src/linux_syscall_wrappers.cpp:1502-1582 execve *)
Definition w_exec (path : Z * Z) (argv : Z) (args : list (Z * Z)) (envp : Z) (env : list (Z * Z)) (real : option Sys) (raw : Sys) : Sys := fun m =>
  let call := match real with Some f => f | None => raw end in
  call (meddle 0%nat (warm_argv envp env (warm_argv argv args (warm_str path.1 path.2 m)))).
End Retry.
End Wrappers.
