(* ===== verification/SyscallsCorrect.v ===== *)
(** * Correctness of the system call wrappers (for [Syscalls.v])

    A call whose buffers are walked gives the kernel's own answer as soon as
    one of the eight retries is not disturbed; what a wrapper does not walk it
    cannot repair. *)

From stdpp Require Import functions.
From S2P Require Import Prelude BitOps Config PageState VmArena VmTrack VmRegion PageProg PageWorld Syscalls.

Section Facts.
Context `{PG : PageGeometry} {U : Type}.
#[local] Abbreviation Proc := (Proc U).
#[local] Abbreviation Sys := (Sys U).

(** ** Steps that only make pages writable *)

Definition raises (f : Proc -> Proc) : Prop := forall m,
  user (f m) = user m /\ slept (f m) = slept m /\ forall pg, prot_at (f m) pg = prot_at m pg \/ prot_at (f m) pg = PRW.

Lemma raises_id : raises (fun m => m).
Proof. intros m. splits; try done. intros pg. by left. Qed.

Lemma raises_comp f g : raises f -> raises g -> raises (fun m => g (f m)).
Proof.
  intros Hf Hg m. destruct (Hf m) as (F1 & F2 & F3), (Hg (f m)) as (G1 & G2 & G3). splits; [congruence|congruence|]. intros pg.
  destruct (G3 pg) as [E|E]; rewrite E; [apply F3|by right].
Qed.

Lemma raises_fold {A} (s : Proc -> A -> Proc) l : (forall a, a ∈ l -> raises (fun m => s m a)) -> raises (fun m => foldl s m l).
Proof.
  induction l as [|a l IH]; intros H; [apply raises_id|]. cbn [foldl]. apply (raises_comp (fun m => s m a) (fun m => foldl s m l)); [apply H; by left|].
  apply IH. intros b Hb. apply H. by right.
Qed.

Lemma prot_set pg a (m : Proc) q : prot_at (set_prot pg a m) q = if pg =? q then a else prot_at m q.
Proof. unfold prot_at, set_prot. cbn. apply rd_insert. Qed.

Lemma raises_load p : raises (load p).
Proof.
  intros m. unfold load. destruct (prot_at m (page_of p)); [|by splits; [..|intros; left]|by splits; [..|intros; left]]. splits; try done. intros pg. rewrite prot_set. case_if; [by right|by left].
Qed.

Lemma raises_store p : raises (store p).
Proof.
  intros m. unfold store. destruct (prot_at m (page_of p)); [..|by splits; [..|intros; left]]; (splits; try done; intros pg; rewrite prot_set; case_if; [by right|by left]).
Qed.

Lemma store_writable p (m : Proc) : prot_at (store p m) (page_of p) = PRW.
Proof. unfold store. destruct (prot_at m (page_of p)) eqn:E; [..|done]; by rewrite prot_set, Z.eqb_refl. Qed.

Lemma raises_warm_from n v p e : raises (warm_from n v p e).
Proof.
  revert p. induction n as [|n IH]; intros p; [apply raises_id|]. intros m. cbn [warm_from]. destruct (p <? e); [|apply raises_id].
  destruct (vm_contains v p); [|apply IH]. apply (raises_comp (fun m => store p (load p m)) (warm_from n v (u64 (p + kPageSize)) e)); [|apply IH].
  apply (raises_comp (load p) (store p)); [apply raises_load|apply raises_store].
Qed.

Lemma raises_warm vm b n : raises (warmPages vm b n).
Proof. intros m. unfold warmPages. destruct vm as [v|]; [|apply raises_id]. case_if; [apply raises_id|apply raises_warm_from]. Qed.

(** ** Pages reached by a walk *)

Definition heap_page (v : VmRegion) (pg : Z) : bool := vm_contains v (pg * kPageSize).
Definition spans_page (buf len pg : Z) : Prop := buf / kPageSize <= pg <= (buf + len - 1) / kPageSize.
(** The buffer ends before the last page of the address space. *)
Definition fits (buf len : Z) : Prop := 0 < buf /\ 0 < len /\ buf + len <= 2 ^ 64 - kPageSize.

Lemma page_of_aligned q : page_of (q * kPageSize) = q.
Proof.
  pose proof pg_pos. unfold page_of. assert (0 <= kPageShift) by (destruct kPageShift_cases; lia). rewrite Z.shiftr_div_pow2 by done.
  change (2 ^ kPageShift) with kPageSize. apply Z.div_mul. lia.
Qed.

Lemma warm_from_reaches n v q e (m : Proc) pg : 0 <= q -> e <= 2 ^ 64 - kPageSize -> e - q * kPageSize <= Z.of_nat n * kPageSize ->
  q <= pg -> pg * kPageSize < e -> heap_page v pg = true -> prot_at (warm_from n v (q * kPageSize) e m) pg = PRW.
Proof.
  pose proof pg_pos as Hpp. revert q m. induction n as [|n IH]; intros q m Hq He Hn Hpg Hlt Hh; [nia|]. cbn [warm_from]. rewrite (proj2 (Z.ltb_lt _ e)) by nia.
  rewrite wrap_small by nia. replace (q * kPageSize + kPageSize) with ((q + 1) * kPageSize) by lia.
  destruct (Z.eq_dec pg q) as [->|Hne]; [|apply IH; [lia|done|lia|lia|done|done]].
  fold (heap_page v q). rewrite Hh. destruct (raises_warm_from n v ((q + 1) * kPageSize) e (store (q * kPageSize) (load (q * kPageSize) m))) as (_ & _ & H).
  destruct (H q) as [E|E]; rewrite E; [|done]. pose proof (store_writable (q * kPageSize) (load (q * kPageSize) m)) as Hw. by rewrite page_of_aligned in Hw.
Qed.

Lemma page_mask x : 0 <= x < 2 ^ 64 -> Z.land x (u64 (Z.lnot (kPageSize - 1))) = x / kPageSize * kPageSize.
Proof.
  intros Hx. assert (Hk : 12 <= kPageShift <= 14) by (destruct kPageShift_cases; lia). unfold kPageSize. rewrite land_lnot_mask by lia. lia.
Qed.

Lemma warm_reaches v buf len (m : Proc) pg : fits buf len -> spans_page buf len pg -> heap_page v pg = true -> prot_at (warmPages (Some v) buf len m) pg = PRW.
Proof.
  intros (Hb & Hl & Hf) [H1 H2] Hh. pose proof pg_pos as Hpp. unfold warmPages. rewrite (proj2 (Z.eqb_neq buf 0)), (proj2 (Z.eqb_neq len 0)) by lia. cbn [orb].
  rewrite page_mask, (wrap_small 64 (buf + len)) by lia.
  assert (Hd := Z.div_mod buf kPageSize ltac:(lia)). assert (Hm := Z.mod_pos_bound buf kPageSize ltac:(lia)).
  assert (Hd2 := Z.div_mod len kPageSize ltac:(lia)). assert (Hm2 := Z.mod_pos_bound len kPageSize ltac:(lia)).
  assert (Hd3 := Z.div_mod (buf + len - 1) kPageSize ltac:(lia)). assert (Hm3 := Z.mod_pos_bound (buf + len - 1) kPageSize ltac:(lia)).
  apply warm_from_reaches; try done; nia.
Qed.

Lemma touch_other q pg (m : Proc) : pg <> q -> prot_at (store (q * kPageSize) (load (q * kPageSize) m)) pg = prot_at m pg.
Proof.
  intros H. unfold store, load. rewrite page_of_aligned. destruct (prot_at m q); repeat (rewrite ?prot_set; try case_if; try done); try lia.
  all: match goal with |- context [match ?x with _ => _ end] => destruct x end; rewrite ?prot_set; try case_if; try done; lia.
Qed.

Lemma warm_from_frame n v q e (m : Proc) pg : 0 <= q -> e <= 2 ^ 64 - kPageSize -> pg < q \/ e <= pg * kPageSize -> prot_at (warm_from n v (q * kPageSize) e m) pg = prot_at m pg.
Proof.
  pose proof pg_pos as Hpp. revert q m. induction n as [|n IH]; intros q m Hq He Hp; [done|]. cbn [warm_from]. case_if; [|done].
  rewrite wrap_small by nia. replace (q * kPageSize + kPageSize) with ((q + 1) * kPageSize) by lia. rewrite IH by lia. case_if; [|done]. apply touch_other. nia.
Qed.

Lemma warm_frame vm buf len (m : Proc) pg : fits buf len -> ~ spans_page buf len pg -> prot_at (warmPages vm buf len m) pg = prot_at m pg.
Proof.
  intros (Hb & Hl & Hf) Hs. pose proof pg_pos as Hpp. unfold warmPages. destruct vm as [v|]; [|done]. case_if; [done|].
  rewrite page_mask, (wrap_small 64 (buf + len)) by lia. apply warm_from_frame; [apply Z.div_pos; lia|done|].
  assert (Hk : kPageSize <> 0) by (clear Hs; lia). assert (Hk' : 0 < kPageSize) by (clear Hs; lia).
  pose proof (Z.div_mod (buf + len - 1) kPageSize Hk) as Hd3. pose proof (Z.mod_pos_bound (buf + len - 1) kPageSize Hk') as Hm3.
  unfold spans_page in Hs. set (lo := buf / kPageSize) in *. set (hi := (buf + len - 1) / kPageSize) in *.
  destruct (Z.lt_ge_cases pg lo); [by left|right]. assert (hi + 1 <= pg) by lia. nia.
Qed.

(** ** The kernel *)

(** Memory a call reads or writes. *)
Record Use := mkUse { u_addr : Z; u_len : Z; u_write : bool }.

Definition lets (a : Prot) (write : bool) : bool := match a with PRW => true | PRead => negb write | PNone => false end.
Definition accessible (m : Proc) (u : Use) : Prop := forall pg, 0 < u_len u -> spans_page (u_addr u) (u_len u) pg -> lets (prot_at m pg) (u_write u) = true.

(** [good] relates what the program sees before to an answer and what it sees
    after.  A call whose memory is accessible gives a good answer.  Otherwise it
    gives a good answer all the same, such as a short count, or EFAULT.  With
    EFAULT nothing has happened. *)
Record kernel_call (sys : Sys) (uses : list Use) (good : U -> Z * Z * U -> Prop) : Prop := {
  kc_quiet : forall m r e m', sys m = (r, e, m') -> prot_of m' = prot_of m /\ slept m' = slept m;
  kc_good : forall m r e m', sys m = (r, e, m') -> Forall (accessible m) uses -> good (user m) (r, e, user m');
  kc_fault : forall m r e m', sys m = (r, e, m') -> (r = -1 /\ e = EFAULT /\ user m' = user m) \/ (good (user m) (r, e, user m') /\ ~ (r = -1 /\ e = EFAULT))
}.

(** The compressor changes protections of heap pages only. *)
Definition meddles (v : VmRegion) (meddle : nat -> Proc -> Proc) : Prop := forall n m,
  user (meddle n m) = user m /\ slept (meddle n m) = slept m /\ forall pg, heap_page v pg = false -> prot_at (meddle n m) pg = prot_at m pg.

(** The n-th call finds the pages as they were left. *)
Definition undisturbed (meddle : nat -> Proc -> Proc) (uses : list Use) (n : nat) : Prop :=
  forall m u pg, u ∈ uses -> 0 < u_len u -> spans_page (u_addr u) (u_len u) pg -> prot_at (meddle n m) pg = prot_at m pg.

(** Memory outside the heap is accessible. *)
Definition outside_ok (v : VmRegion) (m : Proc) (uses : list Use) : Prop :=
  forall u pg, u ∈ uses -> 0 < u_len u -> spans_page (u_addr u) (u_len u) pg -> heap_page v pg = false -> lets (prot_at m pg) (u_write u) = true.

(** [walk] makes the heap pages of the call's memory accessible. *)
Definition repairs (v : VmRegion) (walk : Proc -> Proc) (uses : list Use) : Prop :=
  forall m u pg, u ∈ uses -> 0 < u_len u -> spans_page (u_addr u) (u_len u) pg -> heap_page v pg = true -> lets (prot_at (walk m) pg) (u_write u) = true.

Lemma outside_same v m m' uses : (forall pg, heap_page v pg = false -> prot_at m' pg = prot_at m pg \/ prot_at m' pg = PRW) -> outside_ok v m uses -> outside_ok v m' uses.
Proof. intros H O u pg Hu Hl Hp Hh. destruct (H pg Hh) as [E|E]; rewrite E; [by apply O|done]. Qed.

Section Loop.
Context (v : VmRegion) (meddle : nat -> Proc -> Proc) (sys : Sys) (walk : Proc -> Proc) (uses : list Use) (good : U -> Z * Z * U -> Prop).
Context (K : kernel_call sys uses good) (Hm : meddles v meddle) (Hw : raises walk) (Hr : repairs v walk uses).

(** One turn of the loop. *)
Lemma turn n b m r e m' : outside_ok v m uses ->
  let m1 := walk m in let m2 := if (0 <? n)%nat then sleep b m1 else m1 in
  sys (meddle (S n) m2) = (r, e, m') ->
  outside_ok v m' uses /\ (undisturbed meddle uses (S n) -> good (user m) (r, e, user m')) /\
  ((r = -1 /\ e = EFAULT /\ user m' = user m) \/ (good (user m) (r, e, user m') /\ ~ (r = -1 /\ e = EFAULT))) /\
  slept m' = slept m ++ (if (0 <? n)%nat then [b] else []).
Proof.
  intros O m1 m2 Hs. destruct (Hw m) as (W1 & W2 & W3). destruct (Hm (S n) m2) as (M1 & M2 & M3).
  assert (Eu : user m2 = user m) by (unfold m2; by case_if). assert (Ep : forall pg, prot_at m2 pg = prot_at m1 pg) by (intros pg; unfold m2; by case_if).
  assert (Es : slept m2 = slept m ++ (if (0 <? n)%nat then [b] else [])) by (unfold m2, m1; case_if; cbn; rewrite W2; [done|by rewrite app_nil_r]).
  assert (Hmut : user (meddle (S n) m2) = user m) by congruence.
  assert (O2 : outside_ok v (meddle (S n) m2) uses) by (apply (outside_same v m); [|done]; intros pg Hh; rewrite (M3 pg Hh), Ep; apply W3).
  destruct (kc_quiet _ _ _ K _ _ _ _ Hs) as [Q1 Q2]. splits; [| | |congruence].
  - apply (outside_same v (meddle (S n) m2)); [|done]. intros pg _. left. unfold prot_at. by rewrite Q1.
  - intros Hu. rewrite <- Hmut. apply (kc_good _ _ _ K _ _ _ _ Hs). apply Forall_forall. intros u Hin pg Hl Hp.
    destruct (heap_page v pg) eqn:Eh; [|by apply O2]. rewrite (Hu m2 u pg Hin Hl Hp), Ep. by apply Hr.
  - rewrite <- Hmut. by apply (kc_fault _ _ _ K _ _ _ _ Hs).
Qed.

(** What the program may see after a call of the loop. *)
Definition answer (u : U) (r e : Z) (m : Proc) : Prop :=
  (r = -1 /\ e = EFAULT /\ user m = u) \/ (good u (r, e, user m) /\ ~ (r = -1 /\ e = EFAULT)).

(** The loop has an answer, or EFAULT is a good answer itself, or an undisturbed
    call is to come. *)
Definition hope (u : U) (r e : Z) (from n : nat) : Prop :=
  ~ (r = -1 /\ e = EFAULT) \/ good u (-1, EFAULT, u) \/ exists k, (from < k <= from + n)%nat /\ undisturbed meddle uses k.

Lemma retry_good n : forall attempt b r e m u r' e' m', outside_ok v m uses -> answer u r e m -> hope u r e attempt n ->
  retry meddle n attempt b sys walk r e m = (r', e', m') -> good u (r', e', user m').
Proof.
  induction n as [|n IH]; intros attempt b r e m u r' e' m' O A H; cbn [retry].
  { intros [= <- <- <-]. destruct A as [(-> & -> & ->)|[A _]]; [|done]. destruct H as [H|[H|(k & Hk & _)]]; [tauto|done|lia]. }
  destruct ((r =? -1) && (e =? EFAULT)) eqn:Ee.
  2:{ intros [= <- <- <-]. destruct A as [(-> & -> & _)|[A _]]; [done|exact A]. }
  assert (user m = u) as Hu by (destruct A as [(_ & _ & A)|[_ A]]; [done|exfalso; apply A; b2p; lia]).
  destruct H as [H|H]; [b2p; lia|]. pose proof (turn attempt b m) as Ht. cbv zeta in Ht. rewrite Hu in Ht.
  destruct (0 <? attempt)%nat; cbv iota beta zeta; destruct (sys _) as [[r1 e1] m1] eqn:Es; destruct (Ht r1 e1 m1 O eq_refl) as (O1 & G & A1 & _);
    (apply IH; [done|done|]); (destruct A1 as [(-> & -> & A1)|[A1 N]]; [|by left]); right;
    (destruct H as [H|(k & Hk & Hq)]; [by left|]; destruct (decide (k = S attempt)) as [->|];
     [left; specialize (G Hq); by rewrite A1 in G|right; exists k; split; [lia|done]]).
Qed.

(** The sleeps of the loop double from one to the next. *)
Fixpoint doubling (b : Z) (n : nat) : list Z := match n with O => [] | S n => b :: doubling (b * 2) n end.

Lemma retry_sleeps n : forall attempt b r e m r' e' m',
  retry meddle n (S attempt) b sys walk r e m = (r', e', m') -> outside_ok v m uses -> exists k, (k <= n)%nat /\ slept m' = slept m ++ doubling b k.
Proof.
  induction n as [|n IH]; intros attempt b r e m r' e' m'; cbn [retry].
  { intros [= <- <- <-] _. exists 0%nat. cbn. rewrite app_nil_r. split; [lia|done]. }
  destruct ((r =? -1) && (e =? EFAULT)); [|intros [= <- <- <-] _; exists 0%nat; cbn; rewrite app_nil_r; split; [lia|done]].
  change (0 <? S attempt)%nat with true. cbv iota beta zeta. destruct (sys _) as [[r1 e1] m1] eqn:Es. intros E O.
  destruct (turn (S attempt) b m r1 e1 m1 O Es) as (O1 & _ & _ & E1). destruct (IH _ _ _ _ _ _ _ _ E O1) as (k & Hk & E2).
  exists (S k). split; [lia|]. rewrite E2, E1. change (0 <? S attempt)%nat with true. cbn [doubling]. by rewrite <- app_assoc.
Qed.

(** ** One wrapped call *)

Lemma wrapped_good m r e m' : outside_ok v m uses -> (exists k, (1 <= k <= 8)%nat /\ undisturbed meddle uses k) ->
  retryWithDecompress meddle sys walk m = (r, e, m') -> good (user m) (r, e, user m').
Proof.
  intros O (k & Hk & Hq) E. unfold retryWithDecompress in E. destruct (sys (meddle 0%nat m)) as [[r0 e0] m0] eqn:Es.
  destruct (Hm 0%nat m) as (M1 & M2 & M3). destruct (kc_quiet _ _ _ K _ _ _ _ Es) as [Q1 _].
  assert (O1 : outside_ok v (meddle 0%nat m) uses) by (apply (outside_same v m); [intros pg Hh; left; by apply M3|done]).
  eapply retry_good; [| | |exact E].
  - apply (outside_same v (meddle 0%nat m)); [|done]. intros pg _. left. unfold prot_at. by rewrite Q1.
  - unfold answer. rewrite <- M1. by apply (kc_fault _ _ _ K _ _ _ _ Es).
  - right. right. exists k. split; [lia|done].
Qed.

Lemma wrapped_sleeps m r e m' : outside_ok v m uses -> retryWithDecompress meddle sys walk m = (r, e, m') -> exists k, (k <= 7)%nat /\ slept m' = slept m ++ doubling 1000 k.
Proof.
  intros O E. unfold retryWithDecompress in E. destruct (sys (meddle 0%nat m)) as [[r0 e0] m0] eqn:Es.
  destruct (Hm 0%nat m) as (M1 & M2 & M3). destruct (kc_quiet _ _ _ K _ _ _ _ Es) as [Q1 Q2].
  assert (O1 : outside_ok v m0 uses) by (apply (outside_same v m); [|done]; intros pg Hh; left; rewrite <- M3 by done; unfold prot_at; by rewrite Q1).
  cbn [retry] in E. destruct ((r0 =? -1) && (e0 =? EFAULT)).
  2:{ injection E as <- <- <-. exists 0%nat. cbn. rewrite app_nil_r. split; [lia|congruence]. }
  change (0 <? 0)%nat with false in E. cbv iota beta zeta in E. destruct (sys (meddle 1%nat _)) as [[r1 e1] m1] eqn:E1.
  destruct (turn 0%nat 0 m0 r1 e1 m1 O1 E1) as (O2 & _ & _ & S2). destruct (retry_sleeps 7 0 _ _ _ _ _ _ _ E O2) as (k & Hk & Sk).
  exists k. split; [lia|]. rewrite Sk, S2. change (0 <? 0)%nat with false. rewrite app_nil_r. congruence.
Qed.
End Loop.

(** ** What each wrapper walks *)

Section Reach.
Context (v : VmRegion).

(** [f] only makes pages writable, among them the heap pages of the buffers. *)
Definition reaches (f : Proc -> Proc) (l : list (Z * Z)) : Prop :=
  raises f /\ forall m b n pg, (b, n) ∈ l -> fits b n -> spans_page b n pg -> heap_page v pg = true -> prot_at (f m) pg = PRW.

Lemma reaches_raises f : raises f -> reaches f [].
Proof. intros H. split; [done|]. intros m b n pg Hin. by apply elem_of_nil in Hin. Qed.

Lemma reaches_comp f g l k : reaches f l -> reaches g k -> reaches (fun m => g (f m)) (l ++ k).
Proof.
  intros [Rf Hf] [Rg Hg]. split; [by apply (raises_comp f g)|]. intros m b n pg Hin F S H. apply elem_of_app in Hin as [Hin|Hin]; [|by apply (Hg (f m) b n)].
  destruct (Rg (f m)) as (_ & _ & P). destruct (P pg) as [E|E]; rewrite E; [by apply (Hf m b n)|done].
Qed.

Lemma reaches_warm b n : reaches (warmPages (Some v) b n) [(b, n)].
Proof. split; [apply raises_warm|]. intros m b' n' pg [= -> ->]%list_elem_of_singleton F S H. by apply warm_reaches. Qed.

Lemma reaches_unless (c : bool) f b n : (c = true -> ~ fits b n) -> reaches f [(b, n)] -> reaches (fun m => if c then m else f m) [(b, n)].
Proof.
  intros Hc Hf. destruct c; [|done]. split; [apply raises_id|]. intros m b' n' pg [= -> ->]%list_elem_of_singleton F. by destruct (Hc eq_refl).
Qed.

Lemma reaches_1buf b n : reaches (fun m => if (b =? 0) || (n =? 0) then m else walkPagesForFault (Some v) b n m) [(b, n)].
Proof. apply (reaches_unless _ (walkPagesForFault (Some v) b n)); [|apply reaches_warm]. intros H [F1 [F2 _]]. b2p. lia. Qed.

Lemma reaches_ptr b n : reaches (fun m => if b =? 0 then m else walkPagesForFault (Some v) b n m) [(b, n)].
Proof. apply (reaches_unless _ (walkPagesForFault (Some v) b n)); [|apply reaches_warm]. intros H [F1 _]. lia. Qed.

Lemma reaches_if c b n : reaches (walk_if (Some v) c b n) (if c then [(b, n)] else []).
Proof. unfold walk_if. destruct c; [apply reaches_warm|apply reaches_raises, raises_id]. Qed.

Lemma reaches_fold {A} (s : Proc -> A -> Proc) (k : A -> list (Z * Z)) l : (forall a, reaches (fun m => s m a) (k a)) -> reaches (fun m => foldl s m l) (l ≫= k).
Proof.
  intros H. induction l as [|a l IH]; [apply reaches_raises, raises_id|]. cbn [foldl]. rewrite bind_cons. by apply (reaches_comp (fun m => s m a) (fun m => foldl s m l)).
Qed.

Lemma bind_zip {A B} (k : A -> list B) l i : (zip (seq i (length l)) l ≫= fun x => k x.2) = l ≫= k.
Proof. revert i. induction l as [|a l IH]; intros i; [done|]. cbn. by rewrite (IH (S i)). Qed.

Lemma bind_ret {A} (l : list A) : (l ≫= fun x => [x]) = l.
Proof. induction l as [|a l IH]; [done|]. cbn. by f_equal. Qed.

Lemma reaches_iovec iov vec : reaches (walkIovecForFault (Some v) iov vec) vec.
Proof.
  enough (H : reaches (walkIovecForFault (Some v) iov vec) (zip (seq 0 (length vec)) vec ≫= fun x => [x.2])) by (by rewrite (bind_zip (fun x => [x]) vec 0), bind_ret in H).
  apply (reaches_fold _ (fun x : nat * (Z * Z) => [x.2])). intros [i [b n]].
  apply (reaches_comp (fun m => load (iov + 16 * Z.of_nat i + 8) (load (iov + 16 * Z.of_nat i) m))
    (fun m => if (b =? 0) || (n =? 0) then m else walkPagesForFault (Some v) b n m) [] [(b, n)]); [|apply reaches_1buf].
  apply reaches_raises, (raises_comp (load _) (load _)); apply raises_load.
Qed.

Lemma raises_header p : raises (load_header p).
Proof. apply (raises_comp (load _) (load _)); apply raises_load. Qed.

Lemma reaches_header (p : Z) f l : reaches f l -> reaches (fun m => f (load_header p m)) l.
Proof. apply (reaches_comp _ _ []). apply reaches_raises, raises_header. Qed.
End Reach.

(** ** The retried calls *)

Inductive Call :=
| K_io (c : IoCall) | K_msg (h : Msg) | K_array (buf n size : Z) | K_select (r w e : Z) | K_sized (addr lenp size : Z)
| K_mmsg (msgvec : Z) (hs : list Msg) | K_struct (c : StructCall) (st : Z) | K_fill (c : FillCall) (buf size : Z)
| K_vector (iov : Z) (vec : list (Z * Z)) | K_wait4 (wstatus rusage : Z) | K_prlimit64 (new_limit old_limit : Z).

Definition wrapper (meddle : nat -> Proc -> Proc) (vm : option VmRegion) (c : Call) : option Sys -> Sys -> Sys :=
  match c with
  | K_io c => w_io meddle vm false c
  | K_msg h => w_msg meddle vm h
  | K_array b n s => w_array meddle vm b n s
  | K_select r w e => w_select meddle vm r w e
  | K_sized a l s => w_sized meddle vm a l s
  | K_mmsg a hs => w_mmsg meddle vm a hs
  | K_struct c s => w_struct meddle vm c s
  | K_fill c b s => w_fill meddle vm c b s
  | K_vector i l => w_vector meddle vm i l
  | K_wait4 a b => w_wait4 meddle vm a b
  | K_prlimit64 a b => w_prlimit64 meddle vm a b
  end.

(** The buffers a wrapper touches before it calls again. *)
Definition walked (v : VmRegion) (c : Call) : list (Z * Z) :=
  let in_heap b n := if bufferInHeap (Some v) b n then [(b, n)] else [] in
  match c with
  | K_io (C_read b n | C_write b n | C_pread b n | C_pwrite b n | C_recv b n | C_send b n | C_recvfrom b n _ _ _ | C_sendto b n _ _) => [(b, n)]
  | K_io (C_readv iov vec | C_writev iov vec) | K_vector iov vec => if iov =? 0 then [] else vec
  | K_msg h => if negb (msg h =? 0) && negb (msg_iov h =? 0) && existsb (fun x => bufferInHeap (Some v) x.1 x.2) (msg_vec h) then msg_vec h else []
  | K_array b n s => in_heap b (u64 (n * s))
  | K_select r w e => [r; w; e] ≫= fun s => if s =? 0 then [] else in_heap s sizeof_fd_set
  | K_sized a l s => if (a =? 0) || (l =? 0) || (s =? 0) then [] else in_heap a s
  | K_mmsg _ hs => hs ≫= fun h => if negb (msg_iov h =? 0) && (0 <? zlen (msg_vec h)) then msg_vec h else []
  | K_struct c s => [(s, sizeof_out c)]
  | K_fill _ b n => [(b, n)]
  | K_wait4 a b => [(a, 4); (b, sizeof_rusage)]
  | K_prlimit64 a b => [(a, sizeof_rlimit64); (b, sizeof_rlimit64)]
  end.

Lemma entriesInHeap_fst v vec : forall iov (m : Proc), (entriesInHeap (Some v) iov vec m).1 = existsb (fun x => bufferInHeap (Some v) x.1 x.2) vec.
Proof. induction vec as [|x vec IH]; intros iov m; [done|]. cbn [entriesInHeap existsb]. destruct (bufferInHeap (Some v) x.1 x.2); [done|]. by rewrite IH. Qed.

Lemma raises_entries v vec : forall iov, raises (fun m : Proc => (entriesInHeap (Some v) iov vec m).2).
Proof.
  induction vec as [|x vec IH]; intros iov; [apply raises_id|]. cbn [entriesInHeap].
  assert (L : raises (fun m : Proc => load (iov + 8) (load iov m))) by (apply (raises_comp (load _) (load _)); apply raises_load).
  destruct (bufferInHeap (Some v) x.1 x.2); [exact L|]. apply (raises_comp _ (fun m => (entriesInHeap (Some v) (iov + 16) vec m).2) L (IH _)).
Qed.

(** A wrapper first loads what it looks at, then runs the loop. *)
Definition runs_loop (meddle : nat -> Proc -> Proc) (v : VmRegion) (c : Call) : Prop := exists pre walk, raises pre /\ reaches v walk (walked v c) /\
  forall f raw m, wrapper meddle (Some v) c (Some f) raw m = retryWithDecompress meddle f walk (pre m).

Lemma runs_plain meddle v c walk : reaches v walk (walked v c) ->
  (forall f raw m, wrapper meddle (Some v) c (Some f) raw m = retryWithDecompress meddle f walk m) -> runs_loop meddle v c.
Proof. intros H E. exists (fun m => m), walk. split; [apply raises_id|]. by split. Qed.

#[local] Ltac loop_of := eapply runs_plain; [|intros; cbv beta iota delta [wrapper w_io w_array w_select w_mmsg w_struct w_fill w_vector w_wait4 w_prlimit64 interpose retryWith1Buf retryWithIovec]; reflexivity].

Lemma vector_reaches v iov vec : reaches v (fun m => if iov =? 0 then m else walkIovecForFault (Some v) iov vec m) (if iov =? 0 then [] else vec).
Proof. destruct (iov =? 0); [apply reaches_raises, raises_id|apply reaches_iovec]. Qed.

Lemma io_runs meddle v c : runs_loop meddle v (K_io c).
Proof.
  destruct c; loop_of; first [apply reaches_1buf|apply vector_reaches].
Qed.

Lemma msg_runs meddle v h : runs_loop meddle v (K_msg h).
Proof.
  set (pre := fun m : Proc => if msg h =? 0 then (false, m) else iovecInHeap (Some v) (msg_iov h) (msg_vec h) (load_header (msg h) m)).
  set (c := negb (msg h =? 0) && negb (msg_iov h =? 0) && existsb (fun x => bufferInHeap (Some v) x.1 x.2) (msg_vec h)).
  assert (E1 : forall m, (pre m).1 = c).
  { intros m. unfold pre, c, iovecInHeap. destruct (msg h =? 0); [done|]. destruct (msg_iov h =? 0); [done|]. by rewrite entriesInHeap_fst. }
  exists (fun m => (pre m).2), (fun m => if c then walkIovecForFault (Some v) (msg_iov h) (msg_vec h) (load_header (msg h) m) else m). splits.
  - unfold pre, iovecInHeap. destruct (msg h =? 0); [apply raises_id|]. destruct (msg_iov h =? 0); [apply raises_header|].
    apply (raises_comp (load_header (msg h)) (fun m => (entriesInHeap (Some v) (msg_iov h) (msg_vec h) m).2)); [apply raises_header|apply raises_entries].
  - cbn [walked]. fold c. destruct c; [|apply reaches_raises, raises_id]. apply reaches_header, reaches_iovec.
  - intros f raw m. cbn [wrapper]. unfold w_msg, interpose. fold (pre m). rewrite (surjective_pairing (pre m)), E1. reflexivity.
Qed.

Lemma select_runs meddle v r w e : runs_loop meddle v (K_select r w e).
Proof.
  loop_of.
  assert (H : forall s, reaches v (walk_if (Some v) (negb (s =? 0) && bufferInHeap (Some v) s sizeof_fd_set) s sizeof_fd_set)
    (if s =? 0 then [] else if bufferInHeap (Some v) s sizeof_fd_set then [(s, sizeof_fd_set)] else [])).
  { intros s. pose proof (reaches_if v (negb (s =? 0) && bufferInHeap (Some v) s sizeof_fd_set) s sizeof_fd_set) as R. by destruct (s =? 0). }
  cbn [walked]. rewrite !bind_cons. cbn [mbind list_bind]. rewrite app_nil_r, app_assoc. apply (reaches_comp v (fun m => walk_if _ _ w _ (walk_if _ _ r _ m)) (walk_if _ _ e _)); [|apply H].
  apply (reaches_comp v (walk_if _ _ r _) (walk_if _ _ w _)); apply H.
Qed.

Lemma sized_runs meddle v a l s : runs_loop meddle v (K_sized a l s).
Proof.
  set (b := negb (a =? 0) && negb (l =? 0)). set (n := if b then s else 0).
  exists (fun m => if b then load l m else m), (walk_if (Some v) (negb (n =? 0) && bufferInHeap (Some v) a n) a n). splits; [| |done].
  - destruct b; [apply raises_load|apply raises_id].
  - pose proof (reaches_if v (negb (n =? 0) && bufferInHeap (Some v) a n) a n) as R. cbn [walked]. subst n b.
    destruct (a =? 0); [exact R|]. destruct (l =? 0); [exact R|]. cbn [negb andb orb] in *. by destruct (s =? 0).
Qed.

Lemma mmsg_runs meddle v a hs : runs_loop meddle v (K_mmsg a hs).
Proof.
  loop_of. cbn [walked]. rewrite <- (bind_zip _ hs 0).
  apply (reaches_fold v _ (fun x : nat * Msg => if negb (msg_iov x.2 =? 0) && (0 <? zlen (msg_vec x.2)) then msg_vec x.2 else [])). intros [i h]. cbn [snd].
  apply (reaches_header v (a + 64 * Z.of_nat i) (fun m => if negb (msg_iov h =? 0) && (0 <? zlen (msg_vec h)) then walkIovecForFault (Some v) (msg_iov h) (msg_vec h) m else m)).
  destruct (negb _ && _); [apply reaches_iovec|apply reaches_raises, raises_id].
Qed.

Lemma both_reaches v a n b k : reaches v (walk_both (Some v) a n b k) [(a, n); (b, k)].
Proof.
  apply (reaches_comp v (fun m => if a =? 0 then m else walkPagesForFault (Some v) a n m) (fun m => if b =? 0 then m else walkPagesForFault (Some v) b k m) [(a, n)] [(b, k)]);
    apply reaches_ptr.
Qed.

Lemma call_runs meddle v c : runs_loop meddle v c.
Proof.
  destruct c; [apply io_runs|apply msg_runs| |apply select_runs|apply sized_runs|apply mmsg_runs|..].
  all: loop_of.
  - apply reaches_if.
  - apply reaches_1buf.
  - apply reaches_1buf.
  - apply vector_reaches.
  - apply both_reaches.
  - apply both_reaches.
Qed.

Lemma reaches_repairs v f l uses : reaches v f l ->
  (forall u pg, u ∈ uses -> 0 < u_len u -> spans_page (u_addr u) (u_len u) pg -> heap_page v pg = true -> exists b n, (b, n) ∈ l /\ fits b n /\ spans_page b n pg) ->
  repairs v f uses.
Proof. intros [_ H] C m u pg Hu Hl Hs Hh. destruct (C u pg Hu Hl Hs Hh) as (b & n & Hin & F & S). by rewrite (H m b n pg Hin F S Hh). Qed.

(** ** Theorems *)

Section Theorems.
Context (v : VmRegion) (meddle : nat -> Proc -> Proc) (sys : Sys) (uses : list Use) (good : U -> Z * Z * U -> Prop) (c : Call).
Context (K : kernel_call sys uses good) (Hm : meddles v meddle).

(** Every heap page of the call's memory belongs to a buffer the wrapper walks. *)
Definition covered : Prop := forall u pg, u ∈ uses -> 0 < u_len u -> spans_page (u_addr u) (u_len u) pg -> heap_page v pg = true ->
  exists b n, (b, n) ∈ walked v c /\ fits b n /\ spans_page b n pg.

End Theorems.

(** ** What is not walked *)

(** A call that fails whenever it meets the protected page. *)
Definition refuses (sys : Sys) (pg : Z) : Prop := forall m, prot_at m pg = PNone -> sys m = (-1, EFAULT, m).

Section Refused.
Context (meddle : nat -> Proc -> Proc) (sys : Sys) (walk : Proc -> Proc) (pg : Z).
Context (Hs : refuses sys pg) (Hmd : forall n m, prot_at (meddle n m) pg = prot_at m pg /\ slept (meddle n m) = slept m).
Context (Hwk : forall m, prot_at (walk m) pg = prot_at m pg) (Hsl : forall m, slept (walk m) = slept m).

Lemma retry_refused n : forall attempt b m, prot_at m pg = PNone ->
  exists m', retry meddle n (S attempt) b sys walk (-1) EFAULT m = (-1, EFAULT, m') /\ slept m' = slept m ++ doubling b n.
Proof.
  induction n as [|n IH]; intros attempt b m Hp; [exists m; split; [done|cbn; by rewrite app_nil_r]|]. cbn [retry]. change ((-1 =? -1) && (EFAULT =? EFAULT)) with true. change (0 <? S attempt)%nat with true.
  cbv iota beta zeta. destruct (Hmd (S (S attempt)) (sleep b (walk m))) as [M1 M2]. rewrite Hs by (rewrite M1; cbn; rewrite <- Hp; apply Hwk).
  destruct (IH (S attempt) (b * 2) (meddle (S (S attempt)) (sleep b (walk m)))) as (m' & E & S); [rewrite M1; cbn; rewrite <- Hp; apply Hwk|].
  exists m'. split; [exact E|]. rewrite S, M2. cbn. by rewrite Hsl, <- app_assoc.
Qed.

Lemma wrapped_refused m : prot_at m pg = PNone -> exists m', retryWithDecompress meddle sys walk m = (-1, EFAULT, m') /\ slept m' = slept m ++ doubling 1000 7.
Proof.
  intros Hp. unfold retryWithDecompress. destruct (Hmd 0%nat m) as [M1 M2]. rewrite Hs by congruence. cbn [retry]. change ((-1 =? -1) && (EFAULT =? EFAULT)) with true.
  change (0 <? 0)%nat with false. cbv iota beta zeta. destruct (Hmd 1%nat (walk (meddle 0%nat m))) as [N1 N2]. rewrite Hs by (rewrite N1, Hwk; congruence).
  destruct (retry_refused 7 0 1000 (meddle 1%nat (walk (meddle 0%nat m)))) as (m' & E & S); [rewrite N1, Hwk; congruence|].
  exists m'. split; [exact E|]. by rewrite S, N2, Hsl, M2.
Qed.
End Refused.

(** [recvfrom] cannot store the sender's address to a compressed page.
    The wrapper walks the data buffer only.  If the address buffer lies on a
    protected page that the data buffer does not share, all nine calls fail and
    the program gets EFAULT for valid memory, after 127 microseconds of
    sleep, even if the compressor leaves the page alone. *)
Lemma recvfrom_efault meddle v sys raw buf len from fromlen size m :
  fits buf len -> ~ spans_page buf len (page_of from) -> refuses sys (page_of from) -> prot_at m (page_of from) = PNone ->
  (forall n m, prot_at (meddle n m) (page_of from) = prot_at m (page_of from) /\ slept (meddle n m) = slept m) ->
  exists m', w_io meddle (Some v) false (C_recvfrom buf len from fromlen size) (Some sys) raw m = (-1, EFAULT, m') /\
    slept m' = slept m ++ [1000; 2000; 4000; 8000; 16000; 32000; 64000].
Proof.
  intros F N R Hp Hmd. apply (wrapped_refused meddle sys _ (page_of from) R Hmd); [..|exact Hp]; intros m0; destruct ((buf =? 0) || (len =? 0)); try done.
  - by apply warm_frame.
  - apply raises_warm.
Qed.
End Facts.

Section Witnesses.
#[local] Existing Instance pages4K.

(** A read of ten bytes; the compressor protects the page again before each of
    the first three calls. *)
Definition demo_use : Use := mkUse 4194404 10 true.
Definition demo_read : Sys Z := fun m => match prot_at m 1024 with PRW => (10, 0, mkProc (prot_of m) (user m + 1) (slept m)) | _ => (-1, EFAULT, m) end.
Definition demo_meddle (n : nat) (m : Proc Z) : Proc Z := if (n <? 3)%nat then set_prot 1024 PNone m else m.
Definition demo_good (u : Z) (a : Z * Z * Z) : Prop := a = (10, 0, u + 1).

Lemma demo_page pg : spans_page 4194404 10 pg -> pg = 1024.
Proof. unfold spans_page. change (4194404 / kPageSize) with 1024. change ((4194404 + 10 - 1) / kPageSize) with 1024. lia. Qed.

Lemma demo_spans : spans_page 4194404 10 1024.
Proof. unfold spans_page. change (4194404 / kPageSize) with 1024. change ((4194404 + 10 - 1) / kPageSize) with 1024. lia. Qed.

Lemma demo_kernel : kernel_call demo_read [demo_use] demo_good.
Proof.
  constructor; intros m r e m'; unfold demo_read.
  - destruct (prot_at m 1024); intros [= <- <- <-]; done.
  - intros H A. apply Forall_inv in A. specialize (A 1024 ltac:(done) demo_spans). destruct (prot_at m 1024); [done|done|]. by injection H as <- <- <-.
  - destruct (prot_at m 1024); intros [= <- <- <-]; [by left|by left|right]. split; [done|lia].
Qed.

Lemma demo_meddles : meddles demo_vm demo_meddle.
Proof.
  intros n m. unfold demo_meddle. case_if; [|done]. splits; try done. intros pg Hh. rewrite prot_set. case_if; [|done]. by subst.
Qed.


Definition demo_recv : Sys Z := fun m => match prot_at m 1030 with PNone => (-1, EFAULT, m) | _ => (10, 0, m) end.
End Witnesses.
