(* ===== verification/MacCalls.v ===== *)
(** * Interposed functions of macOS (src/smash_heap.cpp, src/vm/syscall_compat.h)

    The same idea as in [Syscalls], for macOS: calls that fail because they met a
    protected page touch their buffers and call again.  Mach messages report it
    by their own codes and carry descriptors of further memory, which are walked
    before the message is sent.  The real functions, the kernel, the sizes of
    system structures and the bytes of a message are arguments. *)

From S2P Require Import Prelude BitOps Config PageState VmArena VmTrack VmRegion PageProg PageWorld Syscalls Mappings.

(** The structures whose size the wrappers ask for. *)
Inductive MacStruct := S_kevent | S_kevent64 | S_pollfd | S_stat | S_statfs | S_siginfo | S_statvfs | S_rusage.

Definition MACH_SEND_INVALID_DATA : Z := 0x10000002.
Definition MACH_RCV_INVALID_DATA : Z := 0x10004008.
Definition MACH_SEND_MSG : Z := 1.
Definition MACH_MSGH_BITS_COMPLEX : Z := 2 ^ 31.

Definition invalid_data (ret : Z) : bool := (ret =? MACH_RCV_INVALID_DATA) || (ret =? MACH_SEND_INVALID_DATA).

(** Types of descriptors, and the sizes of their structures. *)
Definition MACH_MSG_PORT_DESCRIPTOR : Z := 0.
Definition MACH_MSG_OOL_DESCRIPTOR : Z := 1.
Definition MACH_MSG_OOL_PORTS_DESCRIPTOR : Z := 2.
Definition MACH_MSG_OOL_VOLATILE_DESCRIPTOR : Z := 3.
Definition MACH_MSG_GUARDED_PORT_DESCRIPTOR : Z := 4.
Definition sizeof_port_descriptor : Z := 12.
Definition sizeof_ool_descriptor : Z := 16.
Definition sizeof_guarded_descriptor : Z := 16.
Definition sizeof_mach_port : Z := 4.
Definition sizeof_msg_header : Z := 24.
Definition sizeof_msg_body : Z := 4.

(** Little-endian words of the memory. *)
Definition rd32 (mem : Z -> Z) (p : Z) : Z := mem p + 2 ^ 8 * mem (p + 1) + 2 ^ 16 * mem (p + 2) + 2 ^ 24 * mem (p + 3).
Definition rd64 (mem : Z -> Z) (p : Z) : Z := rd32 mem p + 2 ^ 32 * rd32 mem (p + 4).

Section Mac.
Context `{PG : PageGeometry} {U : Type}.
#[local] Abbreviation Proc := (Proc U).
#[local] Abbreviation Sys := (Sys U).
Context (sizeof : MacStruct -> Z) (meddle : nat -> Proc -> Proc) (vm : option VmRegion).

(** ** Retrying *)

Fixpoint retry_mach (n attempt : nat) (backoff_ns : Z) (syscall : Sys) (walk : Proc -> Proc) (ret errno : Z) (m : Proc) : Z * Z * Proc :=
  match n with
  | O => (ret, errno, m)
  | S n =>
    if invalid_data ret then
      let m := walk m in
      let '(m, backoff_ns) := if (0 <? attempt)%nat then (sleep backoff_ns m, backoff_ns * 2) else (m, backoff_ns) in
      let '(ret, errno, m) := syscall (meddle (S attempt) m) in
      retry_mach n (S attempt) backoff_ns syscall walk ret errno m
    else (ret, errno, m)
  end.

(* src/vm/syscall_compat.h:106-124 retryMachOnInvalidData *)
Definition retryMachOnInvalidData (syscall : Sys) (walk : Proc -> Proc) : Sys := fun m =>
  let '(ret, errno, m) := syscall (meddle 0%nat m) in retry_mach 8 0 1000 syscall walk ret errno m.

(** ** kevent *)

Definition walk_pos (buf n size : Z) (m : Proc) : Proc := if negb (buf =? 0) && (0 <? n) then walkPagesForFault vm buf (u64 (n * size)) m else m.

(* src/smash_heap.cpp:326-344 smash_kevent *)
Definition smash_kevent (changelist nchanges eventlist nevents : Z) (real : Sys) : Sys :=
  retryWithDecompress meddle real (fun m => walk_pos eventlist nevents (sizeof S_kevent) (walk_pos changelist nchanges (sizeof S_kevent) m)).

(* src/smash_heap.cpp:364-384 smash_kevent64 *)
Definition smash_kevent64 (changelist nchanges eventlist nevents : Z) (real : Sys) : Sys :=
  retryWithDecompress meddle real (fun m => walk_pos eventlist nevents (sizeof S_kevent64) (walk_pos changelist nchanges (sizeof S_kevent64) m)).

(** ** Mach messages *)

Section Message.
(** What the program sees at each address. *)
Context (mem : Z -> Z).

Definition kSmashMaxOolPins : Z := 16.

(* src/smash_heap.cpp:416-427 OolPinTracker *)
Definition ool_add (t : list (Z * Z)) (addr size : Z) : list (Z * Z) := if zlen t <? kSmashMaxOolPins then t ++ [(addr, size)] else t.

(** A word of [n] bytes may lie on two pages. *)
Definition load_word (p n : Z) (m : Proc) : Proc := load (p + n - 1) (load p m).

(** A buffer of [n] units of [unit] bytes: it is touched and recorded. *)
Definition pin_target (p unit : Z) (t : list (Z * Z)) (m : Proc) : list (Z * Z) * Proc :=
  let address := rd64 mem p in
  let m := load_word p 8 m in
  if address =? 0 then (t, m)
  else
    let n := rd32 mem (p + 12) in
    let m := load_word (p + 12) 4 m in
    if 0 <? n then (ool_add t address (n * unit), warmPages vm address (n * unit) m) else (t, m).

(* src/smash_heap.cpp:452-490 smash_pin_ool_descriptors *)
Fixpoint pin_descriptors (n : nat) (p msg_end : Z) (t : list (Z * Z)) (m : Proc) : list (Z * Z) * Proc :=
  match n with
  | O => (t, m)
  | S n =>
    if msg_end <? p + 12 then (t, m)
    else
      let type := mem (p + 11) in
      let m := load (p + 11) m in
      let next advance t m := if msg_end <? p + advance then (t, m) else pin_descriptors n (p + advance) msg_end t m in
      if type =? MACH_MSG_PORT_DESCRIPTOR then next sizeof_port_descriptor t m
      else if (type =? MACH_MSG_OOL_DESCRIPTOR) || (type =? MACH_MSG_OOL_VOLATILE_DESCRIPTOR) then
        let '(t, m) := pin_target p 1 t m in next sizeof_ool_descriptor t m
      else if type =? MACH_MSG_OOL_PORTS_DESCRIPTOR then
        let '(t, m) := pin_target p sizeof_mach_port t m in next sizeof_ool_descriptor t m
      else if type =? MACH_MSG_GUARDED_PORT_DESCRIPTOR then next sizeof_guarded_descriptor t m
      else (t, m)
  end.

(** The tracker starts empty. *)
(* src/smash_heap.cpp:439-491 smash_pin_ool_descriptors *)
Definition smash_pin_ool_descriptors (msg : Z) (m : Proc) : list (Z * Z) * Proc :=
  match vm with
  | None => ([], m)
  | Some _ =>
    if msg =? 0 then ([], m)
    else
      let m := load_word msg 4 m in
      if Z.land (rd32 mem msg) MACH_MSGH_BITS_COMPLEX =? 0 then ([], m)
      else
        let body := msg + sizeof_msg_header in
        let m := load_word body 4 m in
        let desc_count := rd32 mem body in
        let m := load_word (msg + 4) 4 m in
        let msg_end := msg + rd32 mem (msg + 4) in
        pin_descriptors (Z.to_nat desc_count) (body + sizeof_msg_body) msg_end [] m
  end.

Definition walk_tracker (t : list (Z * Z)) (m : Proc) : Proc := foldl (fun m x => walkPagesForFault vm x.1 x.2 m) m t.

(** [walkPagesForFault] does nothing without a region. *)
Definition walk_sized (buf size : Z) (m : Proc) : Proc := if negb (buf =? 0) && (0 <? size) then walkPagesForFault vm buf size m else m.

(* src/smash_heap.cpp:493-529 smash_mach_msg *)
Definition smash_mach_msg (msg option send_size rcv_size : Z) (real : Sys) : Sys := fun m =>
  let buf_size := if rcv_size <? send_size then send_size else rcv_size in
  let '(t, m) := if negb (msg =? 0) && negb (Z.land option MACH_SEND_MSG =? 0) then smash_pin_ool_descriptors msg m else ([], m) in
  retryMachOnInvalidData real (fun m => walk_tracker t (walk_sized msg buf_size m)) m.

(* src/smash_heap.cpp:554-586 smash_mach_msg_overwrite *)
Definition smash_mach_msg_overwrite (msg option send_size rcv_size rcv_msg rcv_limit : Z) (real : Sys) : Sys := fun m =>
  let rcv_buf_size := if rcv_msg =? 0 then rcv_size else rcv_limit in
  let '(t, m) := if negb (msg =? 0) && negb (Z.land option MACH_SEND_MSG =? 0) then smash_pin_ool_descriptors msg m else ([], m) in
  retryMachOnInvalidData real (fun m => walk_tracker t (walk_sized rcv_msg rcv_buf_size (walk_sized msg send_size m))) m.

(** The header is looked at before the descriptors are. *)
(* src/smash_heap.cpp:628-662 smash_mach_msg2_internal *)
Definition smash_mach_msg2_internal (data bits_and_send_size desc_count_and_rcv_size : Z) (real : Sys) : Sys := fun m =>
  let send_size := u32 bits_and_send_size in
  let rcv_size := u32 desc_count_and_rcv_size in
  let buf_size := if rcv_size <? send_size then send_size else rcv_size in
  let '(t, m) :=
    match vm with
    | None => ([], m)
    | Some _ =>
      if (data =? 0) || (send_size <? sizeof_msg_header) then ([], m)
      else
        let m := load_word data 4 m in
        if Z.land (rd32 mem data) MACH_MSGH_BITS_COMPLEX =? 0 then ([], m) else smash_pin_ool_descriptors data m
    end in
  retryMachOnInvalidData real (fun m => walk_tracker t (walk_sized data buf_size m)) m.
End Message.

(** ** Calls with errno *)

Inductive SockCall := N_recv | N_send | N_recvfrom | N_sendto.

(* src/smash_heap.cpp:664-714 smash_recv *)
Definition smash_sock (c : SockCall) (buf len : Z) (real : Sys) : Sys :=
  match c with
  | N_recv | N_send => retryWith1Buf meddle vm real buf len
  | N_recvfrom | N_sendto => retryWithDecompress meddle real (fun m => if (buf =? 0) || (len =? 0) then m else walkPagesForFault vm buf len m)
  end.

(** The vector is walked if the header names one; there is no other test. *)
(* src/smash_heap.cpp:721-745 smash_recvmsg *)
Definition smash_msg (h : Msg) (real : Sys) : Sys :=
  retryWithDecompress meddle real (fun m =>
    match vm with
    | None => m
    | Some _ =>
      if msg h =? 0 then m
      else
        let m := load_header (msg h) m in
        if negb (msg_iov h =? 0) && (0 <? zlen (msg_vec h)) then walkIovecForFault vm (msg_iov h) (msg_vec h) m else m
    end).

(* src/smash_heap.cpp:751-760 smash_poll *)
Definition smash_poll (fds nfds : Z) (real : Sys) : Sys :=
  let fds_bytes := u64 (nfds * sizeof S_pollfd) in
  retryWithDecompress meddle real (fun m => if negb (fds =? 0) && (0 <? nfds) then walkPagesForFault vm fds fds_bytes m else m).

(* src/smash_heap.cpp:770-821 smash_fstat *)
Inductive StatCall := T_fstat | T_fstatfs | T_stat | T_lstat | T_fstatat.

(* src/smash_heap.cpp:773-821 smash_fstat *)
Definition smash_stat (c : StatCall) (st : Z) (real : Sys) : Sys :=
  match c with
  | T_fstat => retryWithDecompress meddle real (fun m => if st =? 0 then m else walkPagesForFault vm st (sizeof S_stat) m)
  | T_fstatfs => retryWithDecompress meddle real (fun m => if st =? 0 then m else walkPagesForFault vm st (sizeof S_statfs) m)
  | T_stat | T_lstat | T_fstatat => retryWith1Buf meddle vm real st (sizeof S_stat)
  end.

(** [readlink], [readlinkat]. *)
(* src/smash_heap.cpp:826-843 smash_readlink *)
Definition smash_readlink (buf bufsize : Z) (real : Sys) : Sys := retryWith1Buf meddle vm real buf bufsize.

(** [preadv], [pwritev]; [readv] and [writev] likewise. *)
(* src/smash_heap.cpp:846-863 smash_preadv *)
Definition smash_preadv (iov : Z) (vec : list (Z * Z)) (real : Sys) : Sys := retryWithIovec meddle vm real iov vec.

(* src/smash_heap.cpp:1006-1023 smash_readv *)
Definition smash_readv (iov : Z) (vec : list (Z * Z)) (real : Sys) : Sys := retryWithIovec meddle vm real iov vec.

(** [getattrlist], [getattrlistbulk]. *)
(* src/smash_heap.cpp:870-897 smash_getattrlist *)
Definition smash_getattrlist (attrBuf attrBufSize : Z) (real : Sys) : Sys := retryWith1Buf meddle vm real attrBuf attrBufSize.

(* src/smash_heap.cpp:907-913 smash_waitid *)
Definition smash_waitid (info : Z) (real : Sys) : Sys := retryWith1Buf meddle vm real info (sizeof S_siginfo).

(* src/smash_heap.cpp:915-927 smash_wait4 *)
Definition smash_wait4 (wstatus rusage : Z) (real : Sys) : Sys := retryWithDecompress meddle real (walk_both vm wstatus 4 rusage (sizeof S_rusage)).

Inductive FsCall := F_statvfs | F_fstatvfs | F_getrusage.

(* src/smash_heap.cpp:934-960 smash_statvfs *)
Definition smash_statvfs (c : FsCall) (st : Z) (real : Sys) : Sys :=
  retryWith1Buf meddle vm real st (sizeof (match c with F_getrusage => S_rusage | _ => S_statvfs end)).

(** [read], [write], [pread], [pwrite]. *)
(* src/smash_heap.cpp:964-1002 smash_read *)
Definition smash_read (buf count : Z) (real : Sys) : Sys := retryWith1Buf meddle vm real buf count.

(** ** Buffered input and output *)

(** [base], [size] are the stream's buffer. *)
(* src/smash_heap.cpp:1033-1038 warmFileBuffer *)
Definition warmFileBuffer (stream base size : Z) (m : Proc) : Proc :=
  if negb (stream =? 0) && negb (base =? 0) && (0 <? size) then warmPages vm base size m else m.

Inductive StdioCall := B_fread (ptr size nitems : Z) | B_fgets (str size : Z) | B_fgetc | B_getc | B_fwrite (ptr size nitems : Z) | B_fflush.

(** The caller's buffer. *)
Definition stdio_buffer (c : StdioCall) : Z * Z :=
  match c with
  | B_fread ptr size nitems | B_fwrite ptr size nitems => (ptr, u64 (size * nitems))
  | B_fgets str size => (str, if 0 <? size then size else 0)
  | B_fgetc | B_getc | B_fflush => (0, 0)
  end.

(* src/smash_heap.cpp:1040-1128 smash_fread *)
Definition smash_stdio (c : StdioCall) (stream base size : Z) (real : Sys) : Sys := fun m =>
  let '(ptr, total) := stdio_buffer c in
  let m := match vm with
           | None => m
           | Some _ =>
             let m := if negb (ptr =? 0) && negb (total =? 0) then warmPages vm ptr total m else m in
             warmFileBuffer stream base size m
           end in
  real (meddle 0%nat m).
End Mac.

(** ** The program's own mappings *)

Section MacMappings.
Context `{PG : PageGeometry}.

(** Pages that get no index are skipped. *)
Fixpoint mac_register_from (n : nat) (p fin : Z) (v : VmRegion) (st : option PageStateTable) : VmRegion * option PageStateTable :=
  match n with
  | O => (v, st)
  | S n =>
    if p <? fin then
      let '(idx, v) := track_external v p in
      mac_register_from n (u64 (p + kPageSize)) fin v (if idx =? 0 then st else option_map (fun st => pst_set st idx ACTIVE) st)
    else (v, st)
  end.

(** [x_skip] and [x_warned] play no part here. *)
(* src/smash_heap.cpp:1171-1186 registerExternalRange *)
Definition registerExternalRange (x : Tracking) (base len : Z) : Tracking :=
  if (base =? 0) || (len =? 0) then x
  else if negb (x_enabled x) then x
  else
    let start := page_down base in
    let fin := page_up (u64 (base + len)) in
    let '(v, st) := mac_register_from (Z.to_nat ((fin - start) / kPageSize)) start fin (x_vm x) (x_states x) in
    with_pages x v st (x_locks x).

(* src/smash_heap.cpp:1188-1205 deregisterExternalRange *)
Definition deregisterExternalRange (self : Z) (x : Tracking) (base len : Z) : option Tracking :=
  if (base =? 0) || (len =? 0) then Some x
  else if negb (x_enabled x) then Some x
  else
    let start := page_down base in
    let fin := page_up (u64 (base + len)) in
    deregister_from self (Z.to_nat ((fin - start) / kPageSize)) start fin x.

Definition MAP_ANON : Z := 0x1000.
Definition KERN_SUCCESS : Z := 0.

Section MacKernel.
Context {K : Type}.

(* src/smash_heap.cpp:1214-1228 smash_mmap *)
Definition smash_mmap (real : K -> Z * K) (len prot flags : Z) (x : option Tracking) (k : K) : Z * option Tracking * K :=
  let '(ret, k) := real k in
  if ret =? MAP_FAILED then (ret, x, k)
  else
    let anon := negb (Z.land flags MAP_ANON =? 0) in
    let writable := negb (Z.land prot PROT_WRITE =? 0) in
    if negb anon || negb writable || (len =? 0) then (ret, x, k)
    else (ret, option_map (fun x => registerExternalRange x ret len) x, k).

(** Untracking that has to wait for a page lock is [None], as in [Mappings]. *)
Definition untrack_first (self : Z) (wanted : bool) (addr len : Z) (x : option Tracking) : option (option Tracking) :=
  match x with
  | Some y => if negb wanted || (addr =? 0) || (len =? 0) then Some x else option_map Some (deregisterExternalRange self y addr len)
  | None => Some x
  end.

(* src/smash_heap.cpp:1230-1236 smash_munmap *)
Definition smash_munmap (self : Z) (real : K -> Z * K) (addr len : Z) (x : option Tracking) (k : K) : option (Z * option Tracking * K) :=
  match untrack_first self true addr len x with
  | None => None
  | Some x => let '(ret, k) := real k in Some (ret, x, k)
  end.

(** [real] gives the code and what it stored at [address]; [own] tells whether
    the target is the task itself.  [vm_allocate] does the same. *)
(* src/smash_heap.cpp:1257-1274 smash_mach_vm_allocate *)
Definition smash_mach_vm_allocate (real : K -> Z * Z * K) (own : bool) (address size : Z) (x : option Tracking) (k : K) : Z * option Tracking * K :=
  let '(kr, at_, k) := real k in
  if negb (kr =? KERN_SUCCESS) || (address =? 0) || (size =? 0) then (kr, x, k)
  else if negb own then (kr, x, k)
  else (kr, option_map (fun x => registerExternalRange x at_ size) x, k).

(* src/smash_heap.cpp:1293-1306 smash_vm_allocate *)
Definition smash_vm_allocate := smash_mach_vm_allocate.

(* src/smash_heap.cpp:1276-1291 smash_mach_vm_deallocate *)
Definition smash_mach_vm_deallocate (self : Z) (real : K -> Z * K) (own : bool) (address size : Z) (x : option Tracking) (k : K) : option (Z * option Tracking * K) :=
  match untrack_first self own address size x with
  | None => None
  | Some x => let '(ret, k) := real k in Some (ret, x, k)
  end.

(* src/smash_heap.cpp:1308-1321 smash_vm_deallocate *)
Definition smash_vm_deallocate := smash_mach_vm_deallocate.
End MacKernel.
End MacMappings.
