(* ===== verification/MacCorrect.v ===== *)
(** * Correctness of the interposed functions of macOS (for [MacCalls.v])

    The wrappers are transparent like those of Linux; the walk over the
    descriptors of a message finds exactly their buffers; a message that is sent
    and answered in one call can be sent twice. *)

From stdpp Require Import functions.
From S2P Require Import Prelude BitOps Config PageState VmArena VmTrack VmRegion PageProg PageWorld Syscalls SyscallsCorrect Mappings MacCalls.

Section MacFacts.
Context `{PG : PageGeometry} {U : Type}.
#[local] Abbreviation Proc := (Proc U).
#[local] Abbreviation Sys := (Sys U).

(** ** Mach codes as errno *)

Definition seen_mach (r e : Z) (m : Proc) : Z * Z * Proc := if invalid_data r then (-1, EFAULT, m) else (r, 0, m).
Definition as_errno (sys : Sys) : Sys := fun m => let '(r, e, m) := sys m in seen_mach r e m.

Lemma seen_faults r e m : let '(r', e', _) := seen_mach r e m in (r' =? -1) && (e' =? EFAULT) = invalid_data r.
Proof. unfold seen_mach. destruct (invalid_data r); [done|]. change (0 =? EFAULT) with false. by rewrite andb_false_r. Qed.

Lemma retry_mach_errno meddle sys walk n : forall attempt b r e m,
  (let '(r', e', m') := retry_mach meddle n attempt b sys walk r e m in seen_mach r' e' m') =
  (let '(r', e', m') := seen_mach r e m in retry meddle n attempt b (as_errno sys) walk r' e' m').
Proof.
  induction n as [|n IH]; intros attempt b r e m; cbn [retry_mach retry]; [by destruct (seen_mach r e m) as [[r' e'] m']|].
  pose proof (seen_faults r e m) as F. destruct (seen_mach r e m) as [[r' e'] m1] eqn:E. rewrite F. destruct (invalid_data r) eqn:Ei.
  2:{ by rewrite E. }
  assert (m1 = m) as -> by (unfold seen_mach in E; rewrite Ei in E; by injection E as _ _ ->).
  destruct (0 <? attempt)%nat; unfold as_errno at 1; destruct (sys _) as [[r2 e2] m2]; rewrite IH; by destruct (seen_mach r2 e2 m2) as [[? ?] ?].
Qed.

Lemma retryMach_errno meddle sys walk m :
  (let '(r, e, m') := retryMachOnInvalidData meddle sys walk m in seen_mach r e m') = retryWithDecompress meddle (as_errno sys) walk m.
Proof.
  unfold retryMachOnInvalidData, retryWithDecompress, as_errno at 1. destruct (sys _) as [[r e] m1]. rewrite retry_mach_errno. by destruct (seen_mach r e m1) as [[? ?] ?].
Qed.

(** ** Descriptors *)

(** The size of a descriptor, and the size of a unit of its buffer if it has one. *)
Definition decode (type : Z) : option (Z * option Z) :=
  if type =? MACH_MSG_PORT_DESCRIPTOR then Some (sizeof_port_descriptor, None)
  else if (type =? MACH_MSG_OOL_DESCRIPTOR) || (type =? MACH_MSG_OOL_VOLATILE_DESCRIPTOR) then Some (sizeof_ool_descriptor, Some 1)
  else if type =? MACH_MSG_OOL_PORTS_DESCRIPTOR then Some (sizeof_ool_descriptor, Some sizeof_mach_port)
  else if type =? MACH_MSG_GUARDED_PORT_DESCRIPTOR then Some (sizeof_guarded_descriptor, None)
  else None.

Lemma decode_advance type a u : decode type = Some (a, u) -> 12 <= a <= 16.
Proof. unfold decode. repeat case_if; try done; intros [= <- _]; unfold sizeof_port_descriptor, sizeof_ool_descriptor, sizeof_guarded_descriptor; lia. Qed.

Lemma pin_step {V} vm mem n p e t (m : Syscalls.Proc V) : pin_descriptors vm mem (S n) p e t m =
  if e <? p + 12 then (t, m)
  else match decode (mem (p + 11)) with
       | None => (t, load (p + 11) m)
       | Some (a, u) =>
         let r := match u with Some k => pin_target vm mem p k t (load (p + 11) m) | None => (t, load (p + 11) m) end in
         if e <? p + a then r else pin_descriptors vm mem n (p + a) e r.1 r.2
       end.
Proof.
  cbn [pin_descriptors]. unfold decode. destruct (e <? p + 12); [done|]. destruct (_ =? MACH_MSG_PORT_DESCRIPTOR); [done|]. destruct (_ || _); [destruct (pin_target _ _ _ _ _ _); done|].
  destruct (_ =? MACH_MSG_OOL_PORTS_DESCRIPTOR); [destruct (pin_target _ _ _ _ _ _); done|]. by destruct (_ =? MACH_MSG_GUARDED_PORT_DESCRIPTOR).
Qed.

Lemma raises_word p n : raises (U := U) (load_word p n).
Proof. apply (raises_comp (load _) (load _)); apply raises_load. Qed.

(** The buffer of a descriptor. *)
Definition target (mem : Z -> Z) (p k : Z) : list (Z * Z) :=
  let a := rd64 mem p in let n := rd32 mem (p + 12) in if (a =? 0) || negb (0 <? n) then [] else [(a, n * k)].

Definition add_all (t l : list (Z * Z)) : list (Z * Z) := foldl (fun t x => ool_add t x.1 x.2) t l.

Lemma pin_target_fst {V} vm mem p k t (m : Syscalls.Proc V) : (pin_target vm mem p k t m).1 = add_all t (target mem p k).
Proof. unfold pin_target, target, add_all. destruct (_ =? 0); [done|]. by destruct (0 <? _). Qed.

Lemma reaches_target v mem p k t : reaches (U := U) v (fun m => (pin_target (Some v) mem p k t m).2) (target mem p k).
Proof.
  unfold pin_target, target. destruct (_ =? 0); cbn [orb]; [apply reaches_raises, raises_word|]. destruct (0 <? _); cbn [negb snd].
  - apply (reaches_comp v (fun m => load_word (p + 12) 4 (load_word p 8 m)) (warmPages (Some v) _ _) [] [_]); [|apply reaches_warm].
    apply reaches_raises, (raises_comp (load_word p 8) (load_word (p + 12) 4)); apply raises_word.
  - apply reaches_raises, (raises_comp (load_word p 8) (load_word (p + 12) 4)); apply raises_word.
Qed.

(** The buffers of the descriptors from [p]. *)
Fixpoint targets (mem : Z -> Z) (n : nat) (p e : Z) : list (Z * Z) :=
  match n with
  | O => []
  | S n =>
    if e <? p + 12 then []
    else match decode (mem (p + 11)) with
         | None => []
         | Some (a, u) => from_option (target mem p) [] u ++ if e <? p + a then [] else targets mem n (p + a) e
         end
  end.

Lemma pin_fst {V} vm mem n : forall p e t (m : Syscalls.Proc V), (pin_descriptors vm mem n p e t m).1 = add_all t (targets mem n p e).
Proof.
  induction n as [|n IH]; intros p e t m; [done|]. rewrite pin_step. cbn [targets]. destruct (e <? p + 12); [done|]. destruct (decode _) as [[a u]|]; [|done]. cbv zeta.
  unfold add_all. rewrite foldl_app. fold (add_all t (from_option (target mem p) [] u)).
  assert (E : (match u with Some k => pin_target vm mem p k t (load (p + 11) m) | None => (t, load (p + 11) m) end).1 = add_all t (from_option (target mem p) [] u)) by (destruct u; [apply pin_target_fst|done]).
  destruct (e <? p + a); [exact E|]. rewrite IH, E. done.
Qed.

Lemma pin_snd v mem n : forall p e t, reaches (U := U) v (fun m => (pin_descriptors (Some v) mem n p e t m).2) (targets mem n p e).
Proof.
  induction n as [|n IH]; intros p e t; [apply reaches_raises, raises_id|].
  enough (R : reaches (U := U) v (fun m => (if e <? p + 12 then (t, m) else match decode (mem (p + 11)) with None => (t, load (p + 11) m) | Some (a, u) =>
      let r := match u with Some k => pin_target (Some v) mem p k t (load (p + 11) m) | None => (t, load (p + 11) m) end in
      if e <? p + a then r else pin_descriptors (Some v) mem n (p + a) e r.1 r.2 end).2) (targets mem (S n) p e)).
  { destruct R as [R1 R2]. split; [intros m; rewrite pin_step; apply R1|intros m; rewrite pin_step; apply R2]. }
  cbn [targets]. destruct (e <? p + 12); [apply reaches_raises, raises_id|]. destruct (decode _) as [[a u]|]; [|apply reaches_raises, raises_load]. cbv zeta.
  set (t1 := add_all t (from_option (target mem p) [] u)). set (f := fun m : Proc => (match u with Some k => pin_target (Some v) mem p k t (load (p + 11) m) | None => (t, load (p + 11) m) end).2).
  assert (Rf : reaches v f (from_option (target mem p) [] u)).
  { unfold f. destruct u as [k|]; cbn [from_option]; [|apply reaches_raises, raises_load]. apply (reaches_comp v (load (p + 11)) (fun m => (pin_target (Some v) mem p k t m).2) []); [apply reaches_raises, raises_load|apply reaches_target]. }
  destruct (e <? p + a); [by rewrite app_nil_r|].
  assert (Hr : forall m, match u with Some k => pin_target (Some v) mem p k t (load (p + 11) m) | None => (t, load (p + 11) m) end = (t1, f m)) by (intros m; unfold t1, f; destruct u; [by rewrite (surjective_pairing (pin_target _ _ _ _ _ _)), pin_target_fst|done]).
  pose proof (reaches_comp v f (fun m => (pin_descriptors (Some v) mem n (p + a) e t1 m).2) _ _ Rf (IH (p + a) e t1)) as [R1 R2].
  split; [intros m; rewrite (Hr m); apply R1|intros m; rewrite (Hr m); apply R2].
Qed.

(** ** Messages *)

Definition message_targets (mem : Z -> Z) (msg : Z) : list (Z * Z) :=
  if Z.land (rd32 mem msg) MACH_MSGH_BITS_COMPLEX =? 0 then []
  else targets mem (Z.to_nat (rd32 mem (msg + sizeof_msg_header))) (msg + sizeof_msg_header + sizeof_msg_body) (msg + rd32 mem (msg + 4)).

Lemma add_all_take l : add_all [] l = take 16 l.
Proof.
  enough (G : forall l t, zlen t <= 16 -> add_all t l = take 16 (t ++ l)) by (apply (G l []); unfold zlen; cbn; lia).
  clear l. induction l as [|[a n] l IH]; intros t Ht; unfold zlen in Ht; [cbn; rewrite app_nil_r, take_ge by lia; done|].
  change (add_all t ((a, n) :: l)) with (add_all (ool_add t a n) l). unfold ool_add, kSmashMaxOolPins, zlen. destruct (Z.ltb_spec (Z.of_nat (length t)) 16).
  - rewrite IH by (unfold zlen; rewrite length_app; cbn; lia). by rewrite <- app_assoc.
  - rewrite IH by (unfold zlen; lia). rewrite !take_app_le by lia. done.
Qed.

Lemma message_pin v mem msg : msg <> 0 ->
  exists f, reaches (U := U) v f (message_targets mem msg) /\ forall m, smash_pin_ool_descriptors (Some v) mem msg m = (take 16 (message_targets mem msg), f m).
Proof.
  intros Hm. unfold smash_pin_ool_descriptors, message_targets. rewrite (proj2 (Z.eqb_neq msg 0)) by done. destruct (_ =? 0).
  { exists (load_word msg 4). split; [apply reaches_raises, raises_word|done]. }
  set (pre := fun m : Proc => load_word (msg + 4) 4 (load_word (msg + sizeof_msg_header) 4 (load_word msg 4 m))).
  assert (Rp : raises pre) by (apply (raises_comp (fun m => load_word _ 4 (load_word msg 4 m)) (load_word (msg + 4) 4)); [apply (raises_comp (load_word _ 4) (load_word _ 4))|]; apply raises_word).
  set (n := Z.to_nat _). set (p := msg + _ + _). set (e := msg + rd32 mem (msg + 4)). exists (fun m => (pin_descriptors (Some v) mem n p e [] (pre m)).2). split.
  - apply (reaches_comp v pre (fun m => (pin_descriptors (Some v) mem n p e [] m).2) []); [by apply reaches_raises|apply pin_snd].
  - intros m. rewrite <- add_all_take, <- (pin_fst (Some v) mem n p e [] (pre m)). apply surjective_pairing.
Qed.

Inductive Desc := D_port | D_ool (volatile : bool) (address size : Z) | D_ports (address count : Z) | D_guarded.

Definition desc_type (d : Desc) : Z :=
  match d with
  | D_port => MACH_MSG_PORT_DESCRIPTOR
  | D_ool volatile _ _ => if volatile then MACH_MSG_OOL_VOLATILE_DESCRIPTOR else MACH_MSG_OOL_DESCRIPTOR
  | D_ports _ _ => MACH_MSG_OOL_PORTS_DESCRIPTOR
  | D_guarded => MACH_MSG_GUARDED_PORT_DESCRIPTOR
  end.
Definition desc_len (d : Desc) : Z := match d with D_port => 12 | _ => 16 end.
Definition desc_buffer (d : Desc) : list (Z * Z) :=
  match d with
  | D_ool _ a n => if (a =? 0) || (n =? 0) then [] else [(a, n)]
  | D_ports a n => if (a =? 0) || (n =? 0) then [] else [(a, n * 4)]
  | _ => []
  end.

(** The bytes at [p] are the descriptor. *)
Definition holds (mem : Z -> Z) (p : Z) (d : Desc) : Prop :=
  mem (p + 11) = desc_type d /\ match d with D_ool _ a n | D_ports a n => rd64 mem p = a /\ rd32 mem (p + 12) = n /\ 0 <= n | _ => True end.
Fixpoint laid_out (mem : Z -> Z) (p : Z) (ds : list Desc) : Prop :=
  match ds with [] => True | d :: ds => holds mem p d /\ laid_out mem (p + desc_len d) ds end.

Lemma targets_laid mem ds : forall p e, laid_out mem p ds -> p + zsum (map desc_len ds) <= e -> targets mem (length ds) p e = ds ≫= desc_buffer.
Proof.
  induction ds as [|d ds IH]; intros p e H He; [done|]. destruct H as [[Ht Hd] H]. change (zsum (map desc_len (d :: ds))) with (desc_len d + zsum (map desc_len ds)) in He. cbn [length targets]. rewrite Ht.
  assert (Hz : 0 <= zsum (map desc_len ds)) by (apply zsum_nonneg, Forall_forall; intros x (y & -> & _)%list_elem_of_fmap; by destruct y).
  rewrite (proj2 (Z.ltb_ge e (p + 12))) by (destruct d; cbn in He; lia). rewrite bind_cons.
  assert (G : forall k, (p + k = p + desc_len d) -> (if e <? p + k then [] else targets mem (length ds) (p + k) e) = ds ≫= desc_buffer) by (intros k ->; rewrite (proj2 (Z.ltb_ge e _)) by lia; apply IH; [done|lia]).
  destruct d as [|[] a n|a n|]; cbn [desc_type decode]; cbn; rewrite G by done; try done; f_equal; unfold target; destruct Hd as (-> & -> & Hn); destruct (a =? 0); try done; cbn [orb];
    (destruct (Z.eqb_spec n 0) as [->|]; [done|]; rewrite (proj2 (Z.ltb_lt 0 n)) by lia; cbn [negb]; by rewrite ?Z.mul_1_r).
Qed.

(** ** What the walk leaves alone *)

(** Pages outside [S] keep their protection. *)
Definition frames (f : Proc -> Proc) (S : Z -> Prop) : Prop := forall m pg, ~ S pg -> prot_at (f m) pg = prot_at m pg.

Lemma frames_comp f g S : frames f S -> frames g S -> frames (fun m => g (f m)) S.
Proof. intros Hf Hg m pg Hp. by rewrite Hg, Hf. Qed.

Lemma frames_load p S : S (page_of p) -> frames (load p) S.
Proof.
  intros Hp m pg Hn. unfold load. destruct (prot_at m (page_of p)); try done. rewrite prot_set. case_if; [|done]. b2p. congruence.
Qed.

(** The pages of the [n] bytes at [p], and those of a list of buffers. *)
Definition walked (msg size : Z) (l : list (Z * Z)) (pg : Z) : Prop := spans_page msg size pg \/ exists b n, (b, n) ∈ l /\ spans_page b n pg.

Lemma own_page msg size l x : msg <= x < msg + size -> walked msg size l (page_of x).
Proof.
  intros Hx. pose proof pg_pos as Hpp. left. unfold spans_page, page_of. assert (0 <= kPageShift) by (destruct kPageShift_cases; lia).
  rewrite Z.shiftr_div_pow2 by done. change (2 ^ kPageShift) with kPageSize. split; apply Z.div_le_mono; lia.
Qed.

Lemma frames_word msg size l p n : 1 <= n -> msg <= p -> p + n <= msg + size -> frames (load_word p n) (walked msg size l).
Proof. intros Hn H1 H2. unfold load_word. apply (frames_comp (load p) (load (p + n - 1))); apply frames_load, own_page; lia. Qed.

Lemma frames_warm v msg size l b n : (b, n) ∈ l -> fits b n -> frames (warmPages (Some v) b n) (walked msg size l).
Proof. intros Hin Hf m pg Hn. apply warm_frame; [done|]. intros Hs. apply Hn. right. eauto. Qed.

Lemma frames_target v mem msg size l p k t :
  msg <= p -> p + 16 <= msg + size -> target mem p k ⊆ l -> (forall b n, (b, n) ∈ l -> fits b n) ->
  frames (fun m => (pin_target (Some v) mem p k t m).2) (walked msg size l).
Proof.
  intros H1 H2 Hl Hf. unfold pin_target. unfold target in Hl. destruct (rd64 mem p =? 0); cbn [snd]; [by apply frames_word; lia|].
  assert (Hw : frames (fun m => load_word (p + 12) 4 (load_word p 8 m)) (walked msg size l)).
  { apply (frames_comp (load_word p 8) (load_word (p + 12) 4)); apply frames_word; lia. }
  destruct (0 <? rd32 mem (p + 12)); cbn [snd]; [|exact Hw]. cbn [orb negb] in Hl.
  apply (frames_comp (fun m => load_word (p + 12) 4 (load_word p 8 m)) (warmPages (Some v) _ _)); [exact Hw|].
  apply frames_warm; [apply Hl, list_elem_of_here|apply Hf, Hl, list_elem_of_here].
Qed.

(** The buffer a laid-out descriptor refers to. *)
Lemma holds_decode mem p d : holds mem p d -> exists u, decode (mem (p + 11)) = Some (desc_len d, u) /\
  from_option (target mem p) [] u = desc_buffer d /\ (is_Some u -> desc_len d = 16).
Proof.
  intros [-> Hd]. assert (Ht : forall a n k, rd64 mem p = a -> rd32 mem (p + 12) = n -> 0 <= n -> target mem p k = if (a =? 0) || (n =? 0) then [] else [(a, n * k)]).
  { intros a n k <- <- Hn. unfold target. destruct (rd64 mem p =? 0); [done|]. cbn [orb]. destruct (Z.eqb_spec (rd32 mem (p + 12)) 0) as [->|]; [done|].
    by rewrite (proj2 (Z.ltb_lt 0 _)) by lia. }
  destruct d as [|[] a n|a n|]; cbn [desc_type desc_len desc_buffer]; eexists; (split; [reflexivity|]); cbn [from_option]; try (split; [done|by intros [? [=]]]);
    destruct Hd as (H1 & H2 & H3); rewrite (Ht _ _ _ H1 H2 H3); change sizeof_mach_port with 4; by rewrite ?Z.mul_1_r.
Qed.

Lemma pin_frames v mem msg size l ds : forall p t, msg <= p -> laid_out mem p ds -> p + zsum (map desc_len ds) <= msg + size ->
  ds ≫= desc_buffer ⊆ l -> (forall b n, (b, n) ∈ l -> fits b n) ->
  frames (fun m => (pin_descriptors (Some v) mem (length ds) p (msg + size) t m).2) (walked msg size l).
Proof.
  induction ds as [|d ds IH]; intros p t H1 Hlay He Hl Hf; [by intros m pg|]. destruct Hlay as [Hd Hlay].
  change (zsum (map desc_len (d :: ds))) with (desc_len d + zsum (map desc_len ds)) in He. rewrite bind_cons in Hl.
  assert (Hz : 0 <= zsum (map desc_len ds)) by (apply zsum_nonneg, Forall_forall; intros x (y & -> & _)%list_elem_of_fmap; by destruct y).
  destruct (holds_decode mem p d Hd) as (u & Edec & Eb & Eu). assert (Hlen : 12 <= desc_len d) by (by destruct d).
  intros m pg Hn. cbn [length]. rewrite pin_step, Edec. rewrite !(proj2 (Z.ltb_ge (msg + size) _)) by lia. cbv zeta.
  rewrite (IH (p + desc_len d) _ ltac:(lia) Hlay ltac:(lia) ltac:(set_solver) Hf _ pg Hn).
  assert (Hload : frames (load (p + 11)) (walked msg size l)) by (apply frames_load, own_page; lia).
  destruct u as [k|]; [|by apply Hload]. cbn [from_option] in Eb. specialize (Eu ltac:(eauto)).
  rewrite (frames_target v mem msg size l p k t H1 ltac:(lia) ltac:(rewrite Eb; set_solver) Hf _ pg Hn). by apply Hload.
Qed.

Lemma message_frames v mem msg ds (m : Proc) pg :
  msg <> 0 -> Z.land (rd32 mem msg) MACH_MSGH_BITS_COMPLEX <> 0 -> rd32 mem (msg + sizeof_msg_header) = zlen ds ->
  laid_out mem (msg + 28) ds -> 28 + zsum (map desc_len ds) <= rd32 mem (msg + 4) ->
  (forall b n, (b, n) ∈ ds ≫= desc_buffer -> fits b n) -> ~ walked msg (rd32 mem (msg + 4)) (ds ≫= desc_buffer) pg ->
  prot_at (smash_pin_ool_descriptors (Some v) mem msg m).2 pg = prot_at m pg.
Proof.
  intros Hm Hc Hn Hl He Hf Hw. unfold smash_pin_ool_descriptors. rewrite (proj2 (Z.eqb_neq msg 0)), (proj2 (Z.eqb_neq _ 0) Hc) by done.
  rewrite Hn. unfold zlen. rewrite Nat2Z.id. replace (msg + sizeof_msg_header + sizeof_msg_body) with (msg + 28) by (unfold sizeof_msg_header, sizeof_msg_body; lia).
  assert (Hz : 0 <= zsum (map desc_len ds)) by (apply zsum_nonneg, Forall_forall; intros x (y & -> & _)%list_elem_of_fmap; by destruct y).
  assert (Hh : sizeof_msg_header = 24) by done.
  rewrite (pin_frames v mem msg (rd32 mem (msg + 4)) (ds ≫= desc_buffer) ds (msg + 28) [] ltac:(lia) Hl ltac:(lia) ltac:(done) Hf _ pg Hw).
  rewrite (frames_word msg (rd32 mem (msg + 4)) (ds ≫= desc_buffer) (msg + 4) 4 ltac:(lia) ltac:(lia) ltac:(lia) _ pg Hw).
  rewrite (frames_word msg (rd32 mem (msg + 4)) (ds ≫= desc_buffer) (msg + sizeof_msg_header) 4 ltac:(lia) ltac:(lia) ltac:(lia) _ pg Hw).
  by rewrite (frames_word msg (rd32 mem (msg + 4)) (ds ≫= desc_buffer) msg 4 ltac:(lia) ltac:(lia) ltac:(lia) _ pg Hw).
Qed.

(** C33: Before a message is sent, the memory its descriptors refer to is made
    accessible.  If the descriptors lie in the message, the walk over its bytes
    finds them all, makes every heap page of every buffer below the last page of the address space
    writable, whatever the page
    was, and records the first sixteen buffers for later attempts.  The program's
    data and the time slept are as before; protections only change to writable, and, when all
    buffers lie below that page, only on pages of the message itself and of its buffers. *)
Theorem descriptors_pinned v mem msg ds (m : Proc) :
  msg <> 0 -> Z.land (rd32 mem msg) MACH_MSGH_BITS_COMPLEX <> 0 -> rd32 mem (msg + sizeof_msg_header) = zlen ds ->
  laid_out mem (msg + 28) ds -> 28 + zsum (map desc_len ds) <= rd32 mem (msg + 4) ->
  let '(t, m') := smash_pin_ool_descriptors (Some v) mem msg m in
  t = take 16 (ds ≫= desc_buffer) /\ user m' = user m /\ slept m' = slept m /\ (forall pg, prot_at m' pg = prot_at m pg \/ prot_at m' pg = PRW) /\
  (forall b n pg, (b, n) ∈ ds ≫= desc_buffer -> fits b n -> spans_page b n pg -> heap_page v pg = true -> prot_at m' pg = PRW) /\
  ((forall b n, (b, n) ∈ ds ≫= desc_buffer -> fits b n) -> forall pg, ~ spans_page msg (rd32 mem (msg + 4)) pg ->
    (forall b n, (b, n) ∈ ds ≫= desc_buffer -> ~ spans_page b n pg) -> prot_at m' pg = prot_at m pg).
Proof.
  intros Hm Hc Hn Hl He. destruct (message_pin v mem msg Hm) as (f & [R1 R2] & E).
  pose proof (fun pg => message_frames v mem msg ds m pg Hm Hc Hn Hl He) as Hframe. rewrite E in Hframe |- *. cbn [snd] in Hframe.
  assert (Et : message_targets mem msg = ds ≫= desc_buffer).
  { unfold message_targets. rewrite (proj2 (Z.eqb_neq _ 0) Hc), Hn. unfold zlen. rewrite Nat2Z.id. replace (msg + sizeof_msg_header + sizeof_msg_body) with (msg + 28) by (unfold sizeof_msg_header, sizeof_msg_body; lia). apply targets_laid; [done|lia]. }
  rewrite Et in *. destruct (R1 m) as (A & B & C). split; [done|]. split; [done|]. split; [done|]. split; [done|]. split; [intros b n pg Hin; by apply R2|].
  intros Hf pg H1 H2. apply Hframe; [done|]. intros [?|(b & n & Hin & Hs)]; [done|by apply (H2 b n)].
Qed.

(** ** The retried calls *)

Inductive MacCall :=
| Q_kevent (changelist nchanges eventlist nevents : Z) | Q_kevent64 (changelist nchanges eventlist nevents : Z)
| Q_mach_msg (mem : Z -> Z) (msg option send_size rcv_size : Z)
| Q_overwrite (mem : Z -> Z) (msg option send_size rcv_size rcv_msg rcv_limit : Z)
| Q_msg2 (mem : Z -> Z) (data bits_and_send_size desc_count_and_rcv_size : Z)
| Q_sock (c : SockCall) (buf len : Z) | Q_msg (h : Msg) | Q_poll (fds nfds : Z) | Q_stat (c : StatCall) (st : Z) | Q_readlink (buf size : Z)
| Q_preadv (iov : Z) (vec : list (Z * Z)) | Q_readv (iov : Z) (vec : list (Z * Z)) | Q_getattrlist (buf size : Z) | Q_waitid (info : Z)
| Q_wait4 (wstatus rusage : Z) | Q_statvfs (c : FsCall) (st : Z) | Q_read (buf count : Z).

Definition is_mach (c : MacCall) : bool := match c with Q_mach_msg _ _ _ _ _ | Q_overwrite _ _ _ _ _ _ _ | Q_msg2 _ _ _ _ => true | _ => false end.

Section Calls.
Context (sizeof : MacStruct -> Z) (meddle : nat -> Proc -> Proc) (v : VmRegion).
#[local] Abbreviation vm := (Some v).

Definition mac_wrapper (c : MacCall) : Sys -> Sys :=
  match c with
  | Q_kevent a n b k => smash_kevent sizeof meddle vm a n b k
  | Q_kevent64 a n b k => smash_kevent64 sizeof meddle vm a n b k
  | Q_mach_msg mem msg o s r => smash_mach_msg meddle vm mem msg o s r
  | Q_overwrite mem msg o s r rm rl => smash_mach_msg_overwrite meddle vm mem msg o s r rm rl
  | Q_msg2 mem d b r => smash_mach_msg2_internal meddle vm mem d b r
  | Q_sock c b n => smash_sock meddle vm c b n
  | Q_msg h => smash_msg meddle vm h
  | Q_poll f n => smash_poll sizeof meddle vm f n
  | Q_stat c s => smash_stat sizeof meddle vm c s
  | Q_readlink b n => smash_readlink meddle vm b n
  | Q_preadv i l => smash_preadv meddle vm i l
  | Q_readv i l => smash_readv meddle vm i l
  | Q_getattrlist b n => smash_getattrlist meddle vm b n
  | Q_waitid i => smash_waitid sizeof meddle vm i
  | Q_wait4 a b => smash_wait4 sizeof meddle vm a b
  | Q_statvfs c s => smash_statvfs sizeof meddle vm c s
  | Q_read b n => smash_read meddle vm b n
  end.

(** The buffers a wrapper touches before it calls again. *)
Definition mac_walked (c : MacCall) : list (Z * Z) :=
  let some b n size := if negb (b =? 0) && (0 <? n) then [(b, u64 (n * size))] else [] in
  let bytes b n := if negb (b =? 0) && (0 <? n) then [(b, n)] else [] in
  let sent mem msg o := if negb (msg =? 0) && negb (Z.land o MACH_SEND_MSG =? 0) then take 16 (message_targets mem msg) else [] in
  match c with
  | Q_kevent a n b k => some a n (sizeof S_kevent) ++ some b k (sizeof S_kevent)
  | Q_kevent64 a n b k => some a n (sizeof S_kevent64) ++ some b k (sizeof S_kevent64)
  | Q_mach_msg mem msg o s r => bytes msg (Z.max s r) ++ sent mem msg o
  | Q_overwrite mem msg o s r rm rl => bytes msg s ++ bytes rm (if rm =? 0 then r else rl) ++ sent mem msg o
  | Q_msg2 mem d b r => bytes d (Z.max (u32 b) (u32 r)) ++
      if (d =? 0) || (u32 b <? sizeof_msg_header) || (Z.land (rd32 mem d) MACH_MSGH_BITS_COMPLEX =? 0) then [] else take 16 (message_targets mem d)
  | Q_msg h => if (msg h =? 0) || (msg_iov h =? 0) then [] else msg_vec h
  | Q_poll f n => some f n (sizeof S_pollfd)
  | Q_stat c s => [(s, sizeof (match c with T_fstatfs => S_statfs | _ => S_stat end))]
  | Q_preadv i l | Q_readv i l => if i =? 0 then [] else l
  | Q_waitid i => [(i, sizeof S_siginfo)]
  | Q_wait4 a b => [(a, 4); (b, sizeof S_rusage)]
  | Q_statvfs c s => [(s, sizeof (match c with F_getrusage => S_rusage | _ => S_statvfs end))]
  | Q_sock _ b n | Q_readlink b n | Q_getattrlist b n | Q_read b n => [(b, n)]
  end.

(** The loop of the call. *)
Definition mac_loop (c : MacCall) (sys : Sys) (walk : Proc -> Proc) : Sys :=
  if is_mach c then retryMachOnInvalidData meddle sys walk else retryWithDecompress meddle sys walk.

(** A wrapper first loads what it looks at, then runs its loop. *)
Definition mac_runs (c : MacCall) : Prop := exists pre walk, raises pre /\ reaches v walk (mac_walked c) /\ forall f m, mac_wrapper c f m = mac_loop c f walk (pre m).

Lemma mac_plain c walk : reaches v walk (mac_walked c) -> (forall f m, mac_wrapper c f m = mac_loop c f walk m) -> mac_runs c.
Proof. intros H E. exists (fun m => m), walk. split; [apply raises_id|]. by split. Qed.

Lemma reaches_pos b n size : reaches (U := U) v (walk_pos vm b n size) (if negb (b =? 0) && (0 <? n) then [(b, u64 (n * size))] else []).
Proof. unfold walk_pos. destruct (_ && _); [apply reaches_warm|apply reaches_raises, raises_id]. Qed.

Lemma reaches_bytes b n : reaches (U := U) v (walk_sized vm b n) (if negb (b =? 0) && (0 <? n) then [(b, n)] else []).
Proof. unfold walk_sized. destruct (_ && _); [apply reaches_warm|apply reaches_raises, raises_id]. Qed.

Lemma reaches_tracker t : reaches (U := U) v (walk_tracker vm t) t.
Proof.
  rewrite <- (bind_ret t) at 2. apply (reaches_fold v (fun m x => walkPagesForFault vm x.1 x.2 m) (fun x => [x])). intros [b n]. apply reaches_warm.
Qed.

Lemma pin_part (pin : bool) mem msg : (pin = true -> msg <> 0) ->
  exists pre, raises (U := U) pre /\ forall m, (if pin then smash_pin_ool_descriptors vm mem msg m else ([], m)) = (if pin then take 16 (message_targets mem msg) else [], pre m).
Proof.
  intros H. destruct pin; [|exists (fun m => m); split; [apply raises_id|done]]. destruct (message_pin v mem msg (H eq_refl)) as (f & [R _] & E). by exists f.
Qed.

Lemma mach_msg_runs mem msg o s r : mac_runs (Q_mach_msg mem msg o s r).
Proof.
  destruct (pin_part (negb (msg =? 0) && negb (Z.land o MACH_SEND_MSG =? 0)) mem msg) as (pre & R & E); [intros H; b2p; lia|].
  exists pre. eexists. split; [exact R|]. split; [|intros f m; cbn [mac_wrapper]; unfold smash_mach_msg; rewrite E; reflexivity].
  cbn [mac_walked]. apply (reaches_comp v (walk_sized vm msg _) (walk_tracker vm _)); [|apply reaches_tracker].
  replace (if r <? s then s else r) with (Z.max s r) by (case_if; lia). apply reaches_bytes.
Qed.

Lemma overwrite_runs mem msg o s r rm rl : mac_runs (Q_overwrite mem msg o s r rm rl).
Proof.
  destruct (pin_part (negb (msg =? 0) && negb (Z.land o MACH_SEND_MSG =? 0)) mem msg) as (pre & R & E); [intros H; b2p; lia|].
  exists pre. eexists. split; [exact R|]. split; [|intros f m; cbn [mac_wrapper]; unfold smash_mach_msg_overwrite; rewrite E; reflexivity].
  cbn [mac_walked]. rewrite app_assoc. apply (reaches_comp v (fun m => walk_sized vm rm _ (walk_sized vm msg s m)) (walk_tracker vm _)); [|apply reaches_tracker].
  apply (reaches_comp v (walk_sized vm msg s) (walk_sized vm rm _)); apply reaches_bytes.
Qed.

Lemma msg2_runs mem d b r : mac_runs (Q_msg2 mem d b r).
Proof.
  set (skip := (d =? 0) || (u32 b <? sizeof_msg_header)). set (plain := Z.land (rd32 mem d) MACH_MSGH_BITS_COMPLEX =? 0).
  destruct (pin_part (negb (skip || plain)) mem d) as (pre & R & E); [intros H; unfold skip in H; b2p; lia|].
  exists (fun m => pre (if skip then m else load_word d 4 m)). eexists. split; [|split].
  - destruct skip; [exact R|]. apply (raises_comp (load_word d 4) pre); [apply raises_word|exact R].
  - cbn [mac_walked]. fold skip plain. apply (reaches_comp v (walk_sized vm d (Z.max (u32 b) (u32 r))) (walk_tracker vm (if skip || plain then [] else take 16 (message_targets mem d)))); [apply reaches_bytes|apply reaches_tracker].
  - intros f m. cbn [mac_wrapper]. unfold smash_mach_msg2_internal. fold skip plain. cbv zeta. replace (if u32 r <? u32 b then u32 b else u32 r) with (Z.max (u32 b) (u32 r)) by (case_if; lia).
    specialize (E (if skip then m else load_word d 4 m)). destruct skip; cbn [orb negb] in E; [injection E as E; rewrite <- E; reflexivity|]. destruct plain; cbn [negb] in E; [injection E as E; rewrite <- E; reflexivity|rewrite E; reflexivity].
Qed.

#[local] Ltac mac_plainly := eapply mac_plain; [|intros; cbv beta iota delta [mac_wrapper mac_loop is_mach smash_kevent smash_kevent64 smash_sock smash_msg smash_poll smash_stat smash_readlink smash_preadv
  smash_readv smash_getattrlist smash_waitid smash_wait4 smash_statvfs smash_read retryWith1Buf retryWithIovec]; reflexivity].

Lemma mac_call_runs c : mac_runs c.
Proof.
  destruct c as [a n b k|a n b k| | | |[] b n|h|f n|[] st| | | | | | |[] st|]; [| |apply mach_msg_runs|apply overwrite_runs|apply msg2_runs|..].
  all: mac_plainly; cbn [mac_walked].
  1,2: apply (reaches_comp v (walk_pos vm a n _) (walk_pos vm b k _)); apply reaches_pos.
  1,2,3,4: apply reaches_1buf.
  - destruct (msg h =? 0); [apply reaches_raises, raises_id|]. cbn [orb].
    apply (reaches_header v (msg h) (fun m => if negb (msg_iov h =? 0) && (0 <? zlen (msg_vec h)) then walkIovecForFault vm (msg_iov h) (msg_vec h) m else m)).
    destruct (msg_iov h =? 0); cbn [negb andb]; [apply reaches_raises, raises_id|]. destruct (msg_vec h) eqn:El; [apply reaches_raises, raises_id|]. apply reaches_iovec.
  - apply reaches_pos.
  - apply reaches_ptr.
  - apply reaches_ptr.
  - apply reaches_1buf.
  - apply reaches_1buf.
  - apply reaches_1buf.
  - apply reaches_1buf.
  - apply vector_reaches.
  - apply vector_reaches.
  - apply reaches_1buf.
  - apply reaches_1buf.
  - apply both_reaches.
  - apply reaches_1buf.
  - apply reaches_1buf.
  - apply reaches_1buf.
  - apply reaches_1buf.
Qed.

(** ** Transparency *)

(** The answer as the program understands it: for a Mach call the two codes
    for inaccessible memory stand for EFAULT, and errno has no meaning. *)
Definition answer_of (c : MacCall) (r e : Z) (u : U) : Z * Z * U :=
  if is_mach c then if invalid_data r then (-1, EFAULT, u) else (r, 0, u) else (r, e, u).
Definition errno_call (c : MacCall) (sys : Sys) : Sys := if is_mach c then as_errno sys else sys.

Lemma mac_loop_errno c sys walk m r e m' : mac_loop c sys walk m = (r, e, m') ->
  exists r' e', retryWithDecompress meddle (errno_call c sys) walk m = (r', e', m') /\ answer_of c r e (user m') = (r', e', user m').
Proof.
  unfold mac_loop, errno_call, answer_of. destruct (is_mach c); [|intros ->; by exists r, e]. intros E. pose proof (retryMach_errno meddle sys walk m) as H. rewrite E in H. unfold seen_mach in H.
  destruct (invalid_data r); [by exists (-1), EFAULT|by exists r, 0].
Qed.

(** Every heap page of the call's memory belongs to a buffer the wrapper walks. *)
Definition mac_covered (uses : list Use) (c : MacCall) : Prop := forall u pg, u ∈ uses -> 0 < u_len u -> spans_page (u_addr u) (u_len u) pg -> heap_page v pg = true ->
  exists b n, (b, n) ∈ mac_walked c /\ fits b n /\ spans_page b n pg.

End Calls.

(** ** Sending and receiving in one call *)

(** A call that sends the message and waits for the answer in the same buffer,
    on page [pg]: sending reads the page, receiving writes it. *)
Definition sends_and_receives (sys : Sys) (pg : Z) (send receive : U -> U) : Prop := forall m,
  sys m = match prot_at m pg with
          | PNone => (MACH_SEND_INVALID_DATA, 0, m)
          | PRead => (MACH_RCV_INVALID_DATA, 0, mkProc (prot_of m) (send (user m)) (slept m))
          | PRW => (0, 0, mkProc (prot_of m) (receive (send (user m))) (slept m))
          end.

(** C40: A message can be sent twice.  A buffer on a page that the compressor
    monitors is readable but not writable: a call that sends and receives has
    sent the message when it fails with MACH_RCV_INVALID_DATA, and the wrapper
    repeats the whole call.  From a writable or a compressed page the
    message is sent once. *)
Theorem mach_msg_sends_twice v mem msg option send_size rcv_size sys send receive (m : Proc) :
  fits msg (Z.max send_size rcv_size) -> heap_page v (page_of msg) = true -> Z.land option MACH_SEND_MSG <> 0 -> Z.land (rd32 mem msg) MACH_MSGH_BITS_COMPLEX = 0 ->
  sends_and_receives sys (page_of msg) send receive ->
  exists m', smash_mach_msg (fun _ m => m) (Some v) mem msg option send_size rcv_size sys m = (0, 0, m') /\
    user m' = receive (send (match prot_at m (page_of msg) with PRead => send (user m) | _ => user m end)).
Proof.
  intros F Hh Ho Hb Hs. destruct F as (F1 & F2 & F3). set (pg := page_of msg) in *. unfold smash_mach_msg.
  rewrite (proj2 (Z.eqb_neq msg 0)), (proj2 (Z.eqb_neq _ 0) Ho) by lia. cbn [negb andb]. unfold smash_pin_ool_descriptors. rewrite (proj2 (Z.eqb_neq msg 0)), Hb by lia. change (0 =? 0) with true. cbv iota beta.
  replace (if rcv_size <? send_size then send_size else rcv_size) with (Z.max send_size rcv_size) by (case_if; lia). set (size := Z.max _ _) in *.
  set (walk := fun m => walk_tracker _ [] _). assert (W : forall x, user (walk x) = user x /\ prot_at (walk x) pg = PRW).
  { intros x. unfold walk, walk_tracker, walk_sized. rewrite (proj2 (Z.eqb_neq msg 0)), (proj2 (Z.ltb_lt 0 size)) by lia. cbn [negb andb foldl]. split; [apply (raises_warm (Some v) msg size x)|].
    apply warm_reaches; [done| |done]. unfold spans_page, pg, page_of. assert (0 <= kPageShift) by (destruct kPageShift_cases; lia). rewrite Z.shiftr_div_pow2 by done. change (2 ^ kPageShift) with kPageSize.
    pose proof pg_pos. split; [lia|]. apply Z.div_le_mono; lia. }
  set (m1 := load_word msg 4 m). assert (L : user m1 = user m /\ (prot_at m pg = PRead -> prot_at m1 pg = PRead) /\ (prot_at m pg <> PRead -> prot_at m1 pg = PRW)).
  { unfold m1, load_word. set (x := load msg m). assert (X : user x = user m /\ prot_at x pg = match prot_at m pg with PNone => PRW | a => a end).
    { unfold x, load. fold pg. destruct (prot_at m pg) eqn:E; rewrite ?E; try done. split; [done|]. by rewrite prot_set, Z.eqb_refl. }
    destruct X as [X1 X2]. split; [rewrite <- X1; apply (raises_load (msg + 4 - 1) x)|].
    assert (Y : prot_at x pg <> PNone -> prot_at (load (msg + 4 - 1) x) pg = prot_at x pg) by (intros Hn; unfold load; destruct (prot_at x (page_of (msg + 4 - 1))) eqn:E2; [rewrite prot_set; case_if; [congruence|done]|done|done]).
    destruct (prot_at m pg) eqn:E; rewrite Y, X2 by (rewrite X2; done); split; done. }
  destruct L as (L1 & L2 & L3). unfold retryMachOnInvalidData. rewrite Hs. destruct (prot_at m pg) eqn:Ep.
  - rewrite L3 by done. eexists. split; [reflexivity|]. cbn. by rewrite L1.
  - rewrite L2 by done. cbn [retry_mach]. change (invalid_data MACH_RCV_INVALID_DATA) with true. cbv iota beta. change (0 <? 0)%nat with false. cbv iota beta. rewrite Hs.
    destruct (W (mkProc (prot_of m1) (send (user m1)) (slept m1))) as [W1 W2]. rewrite W2. eexists. split; [reflexivity|]. cbn [user]. rewrite W1. cbn [user]. by rewrite L1.
  - rewrite L3 by done. eexists. split; [reflexivity|]. cbn. by rewrite L1.
Qed.

(** [mach_msg_overwrite] without a second buffer receives into the message
    itself, but only the bytes to send are walked: a receive whose buffer lies
    on a compressed page fails all nine times. *)
Lemma overwrite_in_place_fails meddle v mem msg option rcv_size rcv_limit sys (m : Proc) :
  Z.land option MACH_SEND_MSG = 0 -> prot_at m (page_of msg) = PNone ->
  (forall m, prot_at m (page_of msg) = PNone -> sys m = (MACH_RCV_INVALID_DATA, 0, m)) ->
  (forall n m, prot_at (meddle n m) (page_of msg) = prot_at m (page_of msg) /\ slept (meddle n m) = slept m) ->
  exists r e m', smash_mach_msg_overwrite meddle (Some v) mem msg option 0 rcv_size 0 rcv_limit sys m = (r, e, m') /\ invalid_data r = true /\
    slept m' = slept m ++ [1000; 2000; 4000; 8000; 16000; 32000; 64000].
Proof.
  intros Ho Hp Hs Hmd. unfold smash_mach_msg_overwrite. rewrite Ho, andb_false_r. destruct (retryMachOnInvalidData _ _ _ _) as [[r e] m'] eqn:E. exists r, e, m'. split; [done|].
  pose proof (retryMach_errno meddle sys (fun m => walk_tracker (Some v) [] (walk_sized (Some v) 0 (if 0 =? 0 then rcv_size else rcv_limit) (walk_sized (Some v) msg 0 m))) m) as H. rewrite E in H.
  assert (Hw : forall m : Proc, walk_tracker (Some v) [] (walk_sized (Some v) 0 (if 0 =? 0 then rcv_size else rcv_limit) (walk_sized (Some v) msg 0 m)) = m) by (intros x; unfold walk_tracker, walk_sized; cbn; by rewrite andb_false_r).
  destruct (wrapped_refused meddle (as_errno sys) _ (page_of msg) ltac:(intros x Hx; unfold as_errno; by rewrite Hs) Hmd (fun x => f_equal (fun y => prot_at y (page_of msg)) (Hw x)) (fun x => f_equal slept (Hw x)) m Hp) as (m2 & E2 & S2).
  rewrite E2 in H. unfold seen_mach in H. destruct (invalid_data r); [by injection H as ->|]. by injection H.
Qed.

(** ** What the walk reads *)

(** A descriptor with a buffer is read in full before its end is compared with
    the end of the message: four bytes beyond it matter, and none after them. *)
Lemma targets_local mem mem' n : forall p e, (forall a, p <= a < e + 4 -> mem a = mem' a) -> targets mem n p e = targets mem' n p e.
Proof.
  induction n as [|n IH]; intros p e H; [done|]. cbn [targets]. destruct (Z.ltb_spec e (p + 12)); [done|]. rewrite (H (p + 11)) by lia. destruct (decode _) as [[a u]|] eqn:Ed; [|done].
  assert (E : forall k, target mem p k = target mem' p k) by (intros k; unfold target, rd64, rd32; rewrite !H by lia; done).
  f_equal; [destruct u; [apply E|done]|]. destruct (e <? p + a); [done|]. apply IH. intros x Hx. apply decode_advance in Ed. apply H. lia.
Qed.

Lemma message_local mem mem' msg : (forall a, msg <= a < msg + Z.max 28 (rd32 mem (msg + 4) + 4) -> mem a = mem' a) -> message_targets mem msg = message_targets mem' msg.
Proof.
  intros H. assert (E : forall d, 0 <= d <= 24 -> rd32 mem (msg + d) = rd32 mem' (msg + d)) by (intros d Hd; unfold rd32; rewrite !H by lia; done).
  unfold message_targets, sizeof_msg_header, sizeof_msg_body. pose proof (E 0 ltac:(lia)) as E0. rewrite Z.add_0_r in E0. rewrite <- E0, <- (E 24), <- (E 4) by lia. destruct (_ =? 0); [done|]. apply targets_local. intros a Ha. apply H. lia.
Qed.
End MacFacts.

(** ** The program's mappings on macOS *)

Section MacMaps.
Context `{PG : PageGeometry}.

Lemma mac_register_states n : forall p fin v st, mac_register_from n p fin v (Some st) = ((register_from n p fin v st).1, Some (register_from n p fin v st).2).
Proof.
  induction n as [|n IH]; intros p fin v st; [done|]. cbn [mac_register_from register_from]. destruct (p <? fin); [|done]. destruct (track_external v p) as [idx v']. destruct (idx =? 0); apply IH.
Qed.

(** Without the profile's verdict and the bound on the size, which macOS does
    not have, ranges are tracked as on Linux. *)
Lemma mac_register_same x st base len : x_states x = Some st -> x_skip x = false -> u64 (len + kPageSize - 1) / kPageSize <= externalSlotCapacity ->
  registerExternalRange x base len = registerLinuxExternalRange x base len.
Proof.
  intros Es Ek Hn. unfold registerExternalRange, registerLinuxExternalRange. destruct (_ || _); [done|]. destruct (negb _); [done|]. rewrite Ek, Es, (proj2 (Z.ltb_ge externalSlotCapacity _)), mac_register_states by lia.
  by destruct (register_from _ _ _ _ _).
Qed.

Lemma mac_deregister_same self x st base len : x_states x = Some st -> deregisterExternalRange self x base len = deregisterLinuxExternalRange self x base len.
Proof. intros Es. unfold deregisterExternalRange, deregisterLinuxExternalRange. by rewrite Es. Qed.

(** Memory of the task's own is tracked from [mach_vm_allocate] to
    [mach_vm_deallocate]. *)
Lemma mach_vm_roundtrip {K} x b lv ext st (real_alloc : K -> Z * Z * K) (real_dealloc : K -> Z * K) self address at_ size k k1 :
  tracking_ok x b lv ext st -> fresh_range x ext at_ size -> real_alloc k = (KERN_SUCCESS, at_, k1) -> address <> 0 ->
  exists y ext1 st1, smash_mach_vm_allocate real_alloc true address size (Some x) k = (KERN_SUCCESS, Some y, k1) /\ tracking_ok y b lv ext1 st1 /\
    added ext (first_page at_) (page_count at_ size) (next_index x) ext1 /\ states_set st (next_index x) (page_count at_ size) ACTIVE st1 /\
    exists z ext2 st2, smash_mach_vm_deallocate self real_dealloc true at_ size (Some y) k1 = Some ((real_dealloc k1).1, Some z, (real_dealloc k1).2) /\ tracking_ok z b lv ext2 st2 /\
      removed ext1 (first_page at_) (page_count at_ size) ext2 /\ states_cleared ext1 (first_page at_) (page_count at_ size) st1 st2.
Proof.
  intros O F E Ha. pose proof F as (F1 & F2 & F3 & F4 & F5). pose proof (tr_next _ _ _ (vo_track _ _ _ _ (to_vm _ _ _ _ _ O))) as Hnx. destruct (range_pages at_ size F1 F2 F3) as (_ & _ & R3 & R4).
  assert (Er : registerExternalRange x at_ size = registerLinuxExternalRange x at_ size) by (apply (mac_register_same x st); [apply O|apply O|unfold externalSlotCapacity; lia]).
  destruct (register_range x b lv ext st at_ size O F) as (ext1 & st1 & O1 & P1 & S1 & A1 & _). exists (registerLinuxExternalRange x at_ size), ext1, st1. split.
  { unfold smash_mach_vm_allocate. rewrite E, (proj2 (Z.eqb_neq address 0)), (proj2 (Z.eqb_neq size 0)) by lia. cbn. by rewrite Er. }
  split; [exact O1|]. split; [exact P1|]. split; [exact S1|].
  destruct (deregister_range self (registerLinuxExternalRange x at_ size) b lv ext1 st1 at_ size O1) as (z & ext2 & st2 & E2 & O2 & P2 & S2 & _).
  { split; [done|]. split; [done|]. split; [done|]. intros q Hq. destruct (F5 q Hq) as [[H1 H2] _]. split; [split; [done|by rewrite A1]|]. rewrite P1, (proj2 (Z.leb_le _ _)), (proj2 (Z.ltb_lt _ _)) by lia. cbn. by eexists. }
  exists z, ext2, st2. split; [|done]. unfold smash_mach_vm_deallocate, untrack_first. rewrite (proj2 (Z.eqb_neq at_ 0)), (proj2 (Z.eqb_neq size 0)) by lia. cbn [negb orb].
  rewrite (mac_deregister_same self _ st1) by apply O1. rewrite E2. cbn. by destruct (real_dealloc k1).
Qed.

(** An unmapping that the kernel refuses has untracked the pages all the same:
    the contents of a compressed one are lost although it stays mapped. *)
Lemma refused_munmap_forgets {K} x b lv ext st (real_munmap : K -> Z * K) self addr len k q i :
  tracking_ok x b lv ext st -> tracked_range x ext addr len -> real_munmap k = (-1, k) -> first_page addr <= q < first_page addr + page_count addr len ->
  ext !! q = Some i -> pst_get st i = COMPRESSED ->
  exists y ext' st', smash_munmap self real_munmap addr len (Some x) k = Some (-1, Some y, k) /\ munmap self (Some real_munmap) addr len (Some x) k = Some (-1, Some y, k) /\
    tracking_ok y b lv ext' st' /\ ext' !! q = None /\ pst_get st' i = EMPTY.
Proof.
  intros O T E Hq Hi Hc. pose proof T as (F1 & F2 & F3 & F4). destruct (deregister_range self x b lv ext st addr len O T) as (y & ext' & st' & E2 & O2 & P2 & S2 & T2 & _). exists y, ext', st'. split; [|split; [|split; [exact O2|split]]].
  - unfold smash_munmap, untrack_first. rewrite (proj2 (Z.eqb_neq addr 0)), (proj2 (Z.eqb_neq len 0)) by lia. cbn [negb orb]. rewrite (mac_deregister_same self x st) by apply O. rewrite E2. cbn. by rewrite E.
  - unfold munmap. rewrite (proj2 (Z.eqb_neq addr 0)), (proj2 (Z.eqb_neq len 0)) by lia. cbn [orb]. rewrite E2. cbn. by rewrite E.
  - rewrite P2, (proj2 (Z.leb_le _ _)), (proj2 (Z.ltb_lt _ _)) by lia. done.
  - by apply (T2 q).
Qed.
End MacMaps.

Section MacWitnesses.
#[local] Existing Instance pages4K.

(** A message with a buffer of ten bytes on page 1025, and a port. *)
Definition demo_bytes (n : Z) : list Z :=
  [0; 0; 0; 128] ++ [n; 0; 0; 0] ++ repeat 0 16 ++ [2; 0; 0; 0] ++ [0; 16; 64; 0; 0; 0; 0; 0] ++ [0; 0; 0; 1] ++ [10; 0; 0; 0] ++ repeat 0 12.
Definition demo_mem (n : Z) (a : Z) : Z := zget 0 (demo_bytes n) (a - 4194560).

Lemma descriptors_pinned_witness :
  let '(t, m') := smash_pin_ool_descriptors (Some demo_vm) (demo_mem 56) 4194560 (mkProc {[1025 := PNone]} 0 []) in t = [(4198400, 10)] /\ prot_at m' 1025 = PRW.
Proof.
  pose proof (descriptors_pinned demo_vm (demo_mem 56) 4194560 [D_ool false 4198400 10; D_port] (mkProc {[1025 := PNone]} 0 [])) as H. destruct (smash_pin_ool_descriptors _ _ _ _) as [t m'].
  destruct H as (Ht & _ & _ & _ & Hp & _); [discriminate|discriminate|reflexivity|repeat split; discriminate|discriminate|]. split; [exact Ht|]. apply (Hp 4198400 10).
  - apply list_elem_of_here.
  - split; [reflexivity|]. split; [reflexivity|discriminate].
  - split; discriminate.
  - reflexivity.
Defined.

(** The size of the buffer is read although the message ends before it. *)
Lemma descriptor_overread : message_targets (demo_mem 40) 4194560 = [(4198400, 10)] /\
  message_targets (fun a => if a <? 4194560 + 40 then demo_mem 40 a else 0) 4194560 = [].
Proof. split; reflexivity. Qed.

(** A receive into ten bytes of page 1024. *)
Definition demo_receive : Sys Z := fun m => match prot_at m 1024 with PRW => (0, 0, mkProc (prot_of m) (user m + 1) (slept m)) | _ => (MACH_RCV_INVALID_DATA, 0, m) end.
Definition demo_received (u : Z) (a : Z * Z * Z) : Prop := a = (0, 0, u + 1).
Definition demo_call : MacCall := Q_mach_msg (fun _ => 0) 4194404 2 0 10.

Lemma demo_receive_kernel : kernel_call (errno_call demo_call demo_receive) [demo_use] demo_received.
Proof.
  constructor; intros m r e m'; unfold errno_call, demo_call, is_mach, as_errno, demo_receive, seen_mach.
  - destruct (prot_at m 1024); intros [= <- <- <-]; done.
  - intros H A. apply Forall_inv in A. specialize (A 1024 ltac:(done) demo_spans). destruct (prot_at m 1024); [done|done|]. by injection H as <- <- <-.
  - destruct (prot_at m 1024); intros [= <- <- <-]; [by left|by left|right]. split; [done|lia].
Qed.


Definition demo_exchange : Sys Z := fun m =>
  match prot_at m 1024 with
  | PNone => (MACH_SEND_INVALID_DATA, 0, m)
  | PRead => (MACH_RCV_INVALID_DATA, 0, mkProc (prot_of m) (user m + 1) (slept m))
  | PRW => (0, 0, mkProc (prot_of m) (user m + 1 + 100) (slept m))
  end.

Lemma mach_msg_sends_twice_witness :
  exists m', smash_mach_msg (fun _ m => m) (Some demo_vm) (fun _ => 0) 4194404 3 40 40 demo_exchange (mkProc {[1024 := PRead]} 0 []) = (0, 0, m') /\ user m' = 102.
Proof.
  destruct (mach_msg_sends_twice demo_vm (fun _ => 0) 4194404 3 40 40 demo_exchange (fun u => u + 1) (fun u => u + 100) (mkProc {[1024 := PRead]} 0 [])) as (m' & E & H).
  - split; [reflexivity|]. split; [reflexivity|discriminate].
  - reflexivity.
  - discriminate.
  - reflexivity.
  - intros m. reflexivity.
  - exists m'. split; [exact E|]. rewrite H. reflexivity.
Defined.
End MacWitnesses.
