(* ===== verification/CompressOnly.v ===== *)
(** * The library that only measures (src/compress_only)

    It forwards to the system's allocator, records the pages that were handed
    out in a lock-free hash set, and reports at exit how well they compress.  The
    set is used by all threads at once: one thread's [track] is a sequence of
    atomic steps.  The system's allocator, the kernel and the codecs are
    arguments. *)

From S2P Require Import Prelude Config.

Definition kTrackCap : Z := 2 * 1024 * 1024.
Definition kProbes : Z := 128.

Section CompressOnly.
(** The logarithm of the page size: 12 in the Linux file, 14 in that of macOS. *)
Context (shift : Z).

Definition co_page : Z := 2 ^ shift.

(** ** The set of pages *)

Definition slot_at (page probe : Z) : Z := (Z.shiftr page shift mod kTrackCap + probe) mod kTrackCap.

(** Where a thread is in [track]. *)
Inductive Pc := Idle | Probing (page probe : Z) | Exchange (page probe : Z) | Counting (page : Z).

(* src/compress_only/co_interpose_linux.cpp:38-40 PageTracker *)
Record PageTracker := mkPT { slots : gmap Z Z; tracked : Z }.

(** One atomic step; [spurious] tells that a weak exchange fails although the
    slot is empty. *)
(* src/compress_only/co_interpose_linux.cpp:49-66 PageTracker::track *)
Definition track_next (spurious : bool) (pc : Pc) (t : PageTracker) : Pc * PageTracker :=
  match pc with
  | Idle => (Idle, t)
  | Probing page probe =>
    if kProbes <=? probe then (Idle, t)
    else
      let cur := rd 0 (slots t) (slot_at page probe) in
      if cur =? page then (Idle, t)
      else if cur =? 0 then (Exchange page probe, t)
      else (Probing page (probe + 1), t)
  | Exchange page probe =>
    let i := slot_at page probe in
    let cur := rd 0 (slots t) i in
    if (cur =? 0) && negb spurious then (Counting page, mkPT (<[i := page]> (slots t)) (tracked t))
    else if cur =? page then (Idle, t)
    else (Probing page (probe + 1), t)
  | Counting _ => (Idle, mkPT (slots t) (tracked t + 1))
  end.

(** Threads that share the set.  A thread that is done may track another page. *)
Record Threads := mkThreads { pcs : gmap Z Pc; shared : PageTracker }.

Definition pc_of (s : Threads) (i : Z) : Pc := rd Idle (pcs s) i.

Inductive co_step (weak : bool) : Threads -> Threads -> Prop :=
| co_begin s i page : pc_of s i = Idle -> page <> 0 -> co_step weak s (mkThreads (<[i := Probing page 0]> (pcs s)) (shared s))
| co_go s i spurious : (spurious = true -> weak = true) ->
    co_step weak s (mkThreads (<[i := (track_next spurious (pc_of s i) (shared s)).1]> (pcs s)) (track_next spurious (pc_of s i) (shared s)).2).

Definition co_start : Threads := mkThreads ∅ (mkPT ∅ 0).
Definition co_reachable (weak : bool) : Threads -> Prop := rtc (co_step weak) co_start.

(** A call of [track] that nothing disturbs. *)
Fixpoint track_run (n : nat) (pc : Pc) (t : PageTracker) : PageTracker :=
  match n with
  | O => t
  | S n => match pc with Idle => t | _ => let '(pc, t) := track_next false pc t in track_run n pc t end
  end.

(** 131 steps suffice: a probe takes at most one step, and the last three. *)
(* src/compress_only/co_interpose_linux.cpp:49-66 PageTracker::track *)
Definition track (page : Z) (t : option PageTracker) : option PageTracker :=
  match t with
  | None => None
  | Some t => Some (if page =? 0 then t else track_run 131 (Probing page 0) t)
  end.

(* src/compress_only/co_interpose_linux.cpp:99-106 track_pages *)
Definition track_pages (inited : bool) (ptr size : Z) (t : option PageTracker) : option PageTracker :=
  if (ptr =? 0) || (size =? 0) || negb inited then t
  else
    let mask := u64 (Z.lnot (co_page - 1)) in
    let start := Z.land ptr mask in
    let fin := Z.land (u64 (ptr + size - 1)) mask in
    foldl (fun t i => track (u64 (start + i * co_page)) t) t (seqZ 0 ((fin - start) / co_page + 1)).

(** ** The interposed functions *)

Definition sizeof_calloc_buf : Z := 8192.

(** [k_real] tells whether the real functions were looked up, [k_dlsym] whether
    the lookup is under way. *)
Record Co := mkCo { k_tracker : option PageTracker; k_inited : bool; k_dlsym : bool; k_real : bool; k_off : Z }.

Definition with_tracker (c : Co) (t : option PageTracker) : Co := mkCo t (k_inited c) (k_dlsym c) (k_real c) (k_off c).
Definition noted (ptr size : Z) (c : Co) : Co := with_tracker c (track_pages (k_inited c) ptr size (k_tracker c)).

(* src/compress_only/co_interpose_linux.cpp:88-95 resolve *)
Definition resolve (c : Co) : Co := mkCo (k_tracker c) (k_inited c) false true (k_off c).

Section Alloc.
Context {K : Type} (buf : Z).

(** The pointer comes from the real function. *)
(* src/compress_only/co_interpose_linux.cpp:110-115 malloc *)
Definition co_malloc (real : K -> Z * K) (size : Z) (c : Co) (k : K) : Z * Co * K :=
  let c := if k_real c then c else resolve c in
  let '(ptr, k) := real k in (ptr, noted ptr size c, k).

(* src/compress_only/co_interpose_linux.cpp:138-143 realloc *)
Definition co_realloc (real : Z -> K -> Z * K) (old size : Z) (c : Co) (k : K) : Z * Co * K := co_malloc (real old) size c k.

(* src/compress_only/co_interpose_linux.cpp:117-121 free *)
Definition co_free (real : K -> K) (ptr : Z) (c : Co) (k : K) : Co * K :=
  if (buf <=? ptr) && (ptr <? buf + sizeof_calloc_buf) then (c, k)
  else ((if k_real c then c else resolve c), real k).

(** [None] as the filled range: memory was not cleared here. *)
(* src/compress_only/co_interpose_linux.cpp:123-136 calloc *)
Definition co_calloc (real : K -> Z * K) (count size : Z) (c : Co) (k : K) : Z * option (Z * Z) * Co * K :=
  if k_dlsym c || negb (k_real c) then
    let total := u64 (count * size) in
    let off := k_off c in
    let c := mkCo (k_tracker c) (k_inited c) (k_dlsym c) (k_real c) (u64 (off + total)) in
    if u64 (off + total) <=? sizeof_calloc_buf then (buf + off, Some (buf + off, total), c, k) else (0, None, c, k)
  else let '(ptr, k) := real k in (ptr, None, noted ptr (u64 (count * size)) c, k).

(** A function that looks itself up at its first call. *)
Definition looked_up (first : bool) (c : Co) : Co := if first then mkCo (k_tracker c) (k_inited c) false (k_real c) (k_off c) else c.

(** [ret] and [*memptr] come from the real function. *)
(* src/compress_only/co_interpose_linux.cpp:148-159 posix_memalign *)
Definition co_posix_memalign (first : bool) (real : K -> Z * Z * K) (size : Z) (c : Co) (k : K) : Z * Co * K :=
  let c := looked_up first c in
  let '(ret, ptr, k) := real k in (ret, (if (ret =? 0) && negb (ptr =? 0) then noted ptr size c else c), k).

(** [memalign], [aligned_alloc] and [valloc]. *)
(* src/compress_only/co_interpose_linux.cpp:161-198 memalign *)
Definition co_memalign (first : bool) (real : K -> Z * K) (size : Z) (c : Co) (k : K) : Z * Co * K :=
  let c := looked_up first c in
  let '(ptr, k) := real k in (ptr, noted ptr size c, k).

(** Without memory for the slots nothing is recorded. *)
(* src/compress_only/co_interpose_linux.cpp:260-265 co_init *)
Definition co_init (mapped : bool) (c : Co) : Co :=
  let c := resolve c in
  if mapped then mkCo (Some (mkPT ∅ 0)) true (k_dlsym c) (k_real c) (k_off c) else c.

(** On macOS: [malloc], [calloc] with the product as size, [realloc], [valloc]
    and [reallocf]. *)
(* src/compress_only/co_interpose_mac.cpp:94-154 co_malloc *)
Definition mac_malloc (real : K -> Z * K) (size : Z) (c : Co) (k : K) : Z * Co * K :=
  let '(ptr, k) := real k in (ptr, noted ptr size c, k).

(** [strdup] of a string of [n] bytes. *)
(* src/compress_only/co_interpose_mac.cpp:156-162 co_strdup *)
Definition co_strdup (real : K -> Z * K) (n : Z) (c : Co) (k : K) : Z * Co * K :=
  let '(ptr, k) := real k in (ptr, (if ptr =? 0 then c else noted ptr (n + 1) c), k).

(* src/compress_only/co_interpose_mac.cpp:166-175 co_mmap *)
Definition co_mmap (real : K -> Z * K) (len prot flags : Z) (c : Co) (k : K) : Z * Co * K :=
  let '(ret, k) := real k in
  (ret, (if negb (ret =? 2 ^ 64 - 1) && negb (Z.land flags 0x1000 =? 0) && negb (Z.land prot 2 =? 0) then noted ret len c else c), k).
End Alloc.

(** ** The report *)

(** Pages, bytes, bytes after LZ4 and after zstd. *)
Record Ratios := mkRatios { pages_ok : Z; total_bytes : Z; lz4_bytes : Z; zstd1_bytes : Z }.

(** [read] gives the bytes of a page if all could be read; the codecs give the
    compressed size, [None] for an error of zstd. *)
(* src/compress_only/co_interpose_linux.cpp:219-240 report_ratios *)
Definition report_page (read : Z -> option (list Z)) (lz4 : list Z -> Z) (zstd1 : list Z -> option Z) (r : Ratios) (addr : Z) : Ratios :=
  if (100000 <=? pages_ok r) || (addr =? 0) then r
  else match read addr with
       | None => r
       | Some b =>
         if forallb (fun x => x =? 0) b then r
         else mkRatios (pages_ok r + 1) (total_bytes r + co_page)
                (lz4_bytes r + (if 0 <? lz4 b then lz4 b else co_page)) (zstd1_bytes r + default co_page (zstd1 b))
       end.

(** The slots in their order; [None]: nothing is printed. *)
(* src/compress_only/co_interpose_linux.cpp:202-256 report_ratios *)
Definition report_ratios (opened mapped : bool) (read : Z -> option (list Z)) (lz4 : list Z -> Z) (zstd1 : list Z -> option Z) (t : option PageTracker) : option Ratios :=
  match t with
  | None => None
  | Some t =>
    if (tracked t =? 0) || negb opened || negb mapped then None
    else
      let r := foldl (report_page read lz4 zstd1) (mkRatios 0 0 0 0) (map (rd 0 (slots t)) (seqZ 0 kTrackCap)) in
      if 0 <? total_bytes r then Some r else None
  end.

(** ** The set under concurrency *)

Definition taken (t : PageTracker) (page i : Z) : Prop := rd 0 (slots t) i <> 0 /\ rd 0 (slots t) i <> page.
(** All slots before the [k]-th of the page's sequence hold other pages. *)
Definition passed (t : PageTracker) (page k : Z) : Prop := forall j, 0 <= j < k -> taken t page (slot_at page j).

Definition pc_ok (t : PageTracker) (pc : Pc) : Prop :=
  match pc with
  | Idle => True
  | Probing page k => page <> 0 /\ 0 <= k <= kProbes /\ passed t page k
  | Exchange page k => page <> 0 /\ 0 <= k < kProbes /\ passed t page k
  | Counting page => page <> 0 /\ exists i, rd 0 (slots t) i = page
  end.

Definition counting (pc : Pc) : bool := match pc with Counting _ => true | _ => false end.
Definition pending (m : gmap Z Pc) : Z := Z.of_nat (size (filter (fun x : Z * Pc => counting x.2 = true) m)).

Lemma pending_insert m i pc : pending (<[i := pc]> m) = pending m - (if counting (rd Idle m i) then 1 else 0) + (if counting pc then 1 else 0).
Proof.
  unfold pending, rd. set (P := fun x : Z * Pc => counting x.2 = true).
  assert (D : Z.of_nat (size (filter P (delete i m))) = Z.of_nat (size (filter P m)) - (if counting (default Idle (m !! i)) then 1 else 0)).
  { rewrite map_filter_delete. destruct (m !! i) as [q|] eqn:E; cbn [default from_option id].
    - destruct (counting q) eqn:Ec; [|rewrite delete_id by (apply map_lookup_filter_None; right; intros x Hx; rewrite E in Hx; injection Hx as <-; unfold P; cbn; by rewrite Ec); lia].
      rewrite map_size_delete_Some by (exists q; apply map_lookup_filter_Some; split; [done|exact Ec]). assert (size (filter P m) <> 0%nat) by (intros H%map_size_empty_inv; assert (X : filter P m !! i = Some q) by (apply map_lookup_filter_Some; split; [done|exact Ec]); rewrite H in X; done). lia.
    - rewrite delete_id by (apply map_lookup_filter_None; by left). cbn [counting]. lia. }
  rewrite <- insert_delete_eq. destruct (counting pc) eqn:Ec.
  - rewrite map_filter_insert_True by exact Ec. rewrite map_size_insert_None by (apply map_lookup_filter_None; left; by rewrite lookup_delete_eq). lia.
  - rewrite map_filter_insert_False by (unfold P; cbn; by rewrite Ec). rewrite delete_delete_eq. lia.
Qed.

Record co_inv (s : Threads) : Prop := {
  ci_home : forall i page, page <> 0 -> rd 0 (slots (shared s)) i = page -> exists k, 0 <= k < kProbes /\ i = slot_at page k /\ passed (shared s) page k;
  ci_used : map_Forall (fun _ page => page <> 0) (slots (shared s));
  ci_pcs : forall th, pc_ok (shared s) (pc_of s th);
  ci_count : tracked (shared s) + pending (pcs s) = Z.of_nat (size (slots (shared s)))
}.

(** A page put into an empty slot. *)
Lemma passed_insert t i q n page k : rd 0 (slots t) i = 0 -> q <> 0 -> passed t page k -> passed (mkPT (<[i := q]> (slots t)) n) page k.
Proof. intros Hi Hq H j Hj. destruct (H j Hj) as [H1 H2]. unfold taken. cbn [slots]. rewrite rd_insert. destruct (Z.eqb_spec i (slot_at page j)); [congruence|done]. Qed.

Lemma pc_ok_insert t i q n pc : rd 0 (slots t) i = 0 -> q <> 0 -> pc_ok t pc -> pc_ok (mkPT (<[i := q]> (slots t)) n) pc.
Proof.
  intros Hi Hq. destruct pc as [|page k|page k|page]; cbn [pc_ok]; [done|intros (? & ? & ?); split; [done|]; split; [done|]; by apply passed_insert|intros (? & ? & ?); split; [done|]; split; [done|]; by apply passed_insert|].
  intros [Hp [x Hx]]. split; [done|]. exists x. cbn [slots]. rewrite rd_insert. destruct (Z.eqb_spec i x); [congruence|done].
Qed.

Lemma pc_of_insert m t i pc th : pc_of (mkThreads (<[i := pc]> m) t) th = if i =? th then pc else rd Idle m th.
Proof. unfold pc_of. cbn. apply rd_insert. Qed.

(** A step that leaves the slots alone. *)
Lemma inv_same s i pc n : co_inv s -> pc_ok (shared s) pc -> n + pending (<[i := pc]> (pcs s)) = Z.of_nat (size (slots (shared s))) ->
  co_inv (mkThreads (<[i := pc]> (pcs s)) (mkPT (slots (shared s)) n)).
Proof.
  intros [H1 H2 H3 H4] Hp Hn. constructor; [exact H1|exact H2| |exact Hn]. intros th. rewrite pc_of_insert. destruct (i =? th); [exact Hp|exact (H3 th)].
Qed.

Lemma inv_move s i pc : co_inv s -> pc_ok (shared s) pc -> counting (pc_of s i) = counting pc -> co_inv (mkThreads (<[i := pc]> (pcs s)) (shared s)).
Proof.
  intros I Hp Hc. pose proof (inv_same s i pc (tracked (shared s)) I Hp) as H. destruct (shared s) as [sl n] eqn:E. apply H. cbn in *. rewrite pending_insert. fold (pc_of s i). rewrite Hc. pose proof (ci_count s I) as C. rewrite E in C. cbn in C. lia.
Qed.

(** A page enters an empty slot of its sequence. *)
Lemma inv_enter s th page k : co_inv s -> pc_of s th = Exchange page k -> rd 0 (slots (shared s)) (slot_at page k) = 0 ->
  co_inv (mkThreads (<[th := Counting page]> (pcs s)) (mkPT (<[slot_at page k := page]> (slots (shared s))) (tracked (shared s)))).
Proof.
  intros I Hpc Hz. pose proof (ci_pcs s I th) as Hok. rewrite Hpc in Hok. destruct Hok as (Hp & Hk & Hpass). set (i := slot_at page k) in *.
  assert (Hnone : slots (shared s) !! i = None) by (destruct (slots (shared s) !! i) as [x|] eqn:E; [exfalso; apply (ci_used s I i x E); unfold rd in Hz; by rewrite E in Hz|done]).
  constructor; cbn [shared slots tracked pcs].
  - intros j q Hq. rewrite rd_insert. destruct (Z.eqb_spec i j) as [<-|].
    + intros <-. exists k. split; [done|]. split; [done|]. by apply passed_insert.
    + intros Hj. destruct (ci_home s I j q Hq Hj) as (kk & K1 & K2 & K3). exists kk. split; [done|]. split; [done|]. by apply passed_insert.
  - apply map_Forall_insert_2; [done|apply (ci_used s I)].
  - intros th'. rewrite pc_of_insert. destruct (th =? th'); [|apply pc_ok_insert; [done|done|apply (ci_pcs s I th')]]. cbn. split; [done|]. exists i. rewrite rd_insert. by rewrite Z.eqb_refl.
  - rewrite pending_insert. fold (pc_of s th). rewrite Hpc, map_size_insert_None by done. cbn [counting]. pose proof (ci_count s I). lia.
Qed.

Lemma passed_next t page k : passed t page k -> rd 0 (slots t) (slot_at page k) <> 0 -> rd 0 (slots t) (slot_at page k) <> page -> passed t page (k + 1).
Proof. intros H H1 H2 j Hj. destruct (decide (j = k)) as [->|]; [done|]. apply H. lia. Qed.

Lemma co_inv_step s s' : co_inv s -> co_step false s s' -> co_inv s'.
Proof.
  intros I H. revert I. destruct H as [s0 i page Hi Hp|s0 i sp Hsp]; intros I.
  - apply inv_move; [done| |by rewrite Hi]. split; [done|]. split; [unfold kProbes; lia|]. intros j Hj. lia.
  - assert (sp = false) as -> by (destruct sp; [by specialize (Hsp eq_refl)|done]). pose proof (ci_pcs s0 I i) as Hok. destruct (pc_of s0 i) as [|page k|page k|page] eqn:E; cbn [track_next].
    + apply inv_move; [done|done|by rewrite E].
    + destruct Hok as (Hp & Hk & Hpass). destruct (Z.leb_spec kProbes k); [apply inv_move; [done|done|by rewrite E]|]. destruct (Z.eqb_spec (rd 0 (slots (shared s0)) (slot_at page k)) page); [apply inv_move; [done|done|by rewrite E]|].
      destruct (Z.eqb_spec (rd 0 (slots (shared s0)) (slot_at page k)) 0); (apply inv_move; [done| |by rewrite E]); cbn; (split; [done|]); (split; [lia|]); [done|by apply passed_next].
    + destruct Hok as (Hp & Hk & Hpass). rewrite andb_true_r. destruct (Z.eqb_spec (rd 0 (slots (shared s0)) (slot_at page k)) 0) as [Hz|Hz]; [by apply inv_enter|].
      destruct (Z.eqb_spec (rd 0 (slots (shared s0)) (slot_at page k)) page); (apply inv_move; [done| |by rewrite E]); [done|]. cbn. split; [done|]. split; [lia|]. by apply passed_next.
    + apply inv_same; [done|done|]. rewrite pending_insert. fold (pc_of s0 i). rewrite E. cbn [counting fst]. pose proof (ci_count s0 I). lia.
Qed.

Lemma co_inv_reachable s : co_reachable false s -> co_inv s.
Proof.
  assert (I0 : co_inv co_start) by (constructor; [intros i q Hq; unfold rd; cbn; by rewrite lookup_empty|apply map_Forall_empty|intros th; unfold pc_of, rd; cbn; by rewrite lookup_empty|done]).
  intros H. unfold co_reachable in H. revert I0 H. generalize co_start. intros s0 I0 H. induction H as [|x y z Hxy _ IH]; [done|]. apply IH. by apply (co_inv_step x).
Qed.

(** The lock-free set of pages is a set.  Whatever the interleaving of any
    number of threads, no page is in two slots; the counter and the insertions
    not yet counted are the number of slots in use; and a thread that is done
    with a page leaves it in the set, or has found all 128 slots of its
    sequence taken by others.  The exchange is one that does not fail
    for no reason. *)
Lemma page_set_correct s : co_reachable false s ->
  (forall i j page, page <> 0 -> rd 0 (slots (shared s)) i = page -> rd 0 (slots (shared s)) j = page -> i = j) /\
  tracked (shared s) + pending (pcs s) = Z.of_nat (size (slots (shared s))) /\
  (forall th page k, pc_of s th = Probing page k \/ pc_of s th = Exchange page k \/ pc_of s th = Counting page -> (track_next false (pc_of s th) (shared s)).1 = Idle ->
     (exists i, rd 0 (slots (shared s)) i = page) \/ forall j, 0 <= j < kProbes -> taken (shared s) page (slot_at page j)).
Proof.
  intros R. pose proof (co_inv_reachable s R) as I. split; [|split; [apply (ci_count s I)|]].
  - intros i j page Hp Hi Hj. destruct (ci_home s I i page Hp Hi) as (a & A1 & A2 & A3), (ci_home s I j page Hp Hj) as (b & B1 & B2 & B3).
    destruct (Z.lt_trichotomy a b) as [H|[->|H]]; [|congruence|].
    + destruct (B3 a ltac:(lia)) as [_ N]. by rewrite <- A2 in N.
    + destruct (A3 b ltac:(lia)) as [_ N]. by rewrite <- B2 in N.
  - intros th page k Hpc. pose proof (ci_pcs s I th) as Hok. destruct Hpc as [E|[E|E]]; rewrite E in *; cbn [track_next].
    + destruct Hok as (Hp & Hk & Hpass). destruct (Z.leb_spec kProbes k); [intros _; right; by replace kProbes with k by lia|]. destruct (Z.eqb_spec (rd 0 (slots (shared s)) (slot_at page k)) page); [intros _; left; by eexists|]. by destruct (_ =? 0).
    + destruct (_ && _); [done|]. destruct (Z.eqb_spec (rd 0 (slots (shared s)) (slot_at page k)) page); [intros _; left; by eexists|done].
    + intros _. left. apply Hok.
Qed.

(** A call that nothing disturbs ends within its 131 steps, with the page in the
    set unless its 128 slots are taken. *)
Lemma track_run_ends n : forall page k t, page <> 0 -> 0 <= k <= kProbes -> kProbes + 3 - k <= Z.of_nat n -> passed t page k ->
  let t' := track_run n (Probing page k) t in (exists i, rd 0 (slots t') i = page) \/ (t' = t /\ passed t page kProbes).
Proof.
  induction n as [|n IH]; intros page k t Hp Hk Hn Hpass; [lia|]. cbn [track_run track_next]. assert (Hidle : forall u, track_run n Idle u = u) by (by destruct n).
  destruct (Z.leb_spec kProbes k); [right; rewrite Hidle; split; [done|]; by replace kProbes with k by lia|]. destruct (Z.eqb_spec (rd 0 (slots t) (slot_at page k)) page) as [E|E]; [left; rewrite Hidle; by eexists|].
  destruct (Z.eqb_spec (rd 0 (slots t) (slot_at page k)) 0) as [Z0|Z0]; [|apply IH; [done|lia|lia|by apply passed_next]].
  left. destruct n as [|[|n]]; [lia|lia|]. cbn [track_run track_next]. rewrite Z0. cbn [Z.eqb andb negb]. destruct n as [|n]; exists (slot_at page k); cbn; by rewrite rd_insert, Z.eqb_refl.
Qed.

Lemma track_ends page t : page <> 0 ->
  exists t', track page (Some t) = Some t' /\ ((exists i, rd 0 (slots t') i = page) \/ (t' = t /\ forall j, 0 <= j < kProbes -> taken t page (slot_at page j))).
Proof.
  intros Hp. unfold track. rewrite (proj2 (Z.eqb_neq page 0) Hp). eexists. split; [reflexivity|]. apply (track_run_ends 131 page 0 t Hp); [unfold kProbes; lia|unfold kProbes; lia|]. intros j Hj. lia.
Qed.

(** ** Memory during the lookup *)

(** The blocks that [calloc] hands out from its buffer. *)
Fixpoint boot_blocks (buf : Z) (reqs : list (Z * Z)) (c : Co) : list (Z * Z) :=
  match reqs with
  | [] => []
  | (n, size) :: reqs => let '(_, b, c, _) := co_calloc (K := unit) buf (fun k => (0, k)) n size c tt in from_option (fun x => [x]) [] b ++ boot_blocks buf reqs c
  end.

Lemma boot_blocks_disjoint buf reqs : forall c, k_dlsym c = true -> 0 <= k_off c -> k_off c + zsum (map (fun r => u64 (r.1 * r.2)) reqs) < 2 ^ 64 ->
  StronglySorted (fun a b => a.1 + a.2 <= b.1) (boot_blocks buf reqs c) /\
  Forall (fun b => buf + k_off c <= b.1 /\ b.1 + b.2 <= buf + sizeof_calloc_buf) (boot_blocks buf reqs c).
Proof.
  induction reqs as [|[n size] reqs IH]; intros c Hd Ho Hs; [split; constructor|]. change (zsum (map (fun r => u64 (r.1 * r.2)) ((n, size) :: reqs))) with (u64 (n * size) + zsum (map (fun r => u64 (r.1 * r.2)) reqs)) in Hs.
  assert (Hz : 0 <= zsum (map (fun r : Z * Z => u64 (r.1 * r.2)) reqs)) by (apply zsum_nonneg, Forall_forall; intros x (r & -> & _)%list_elem_of_fmap; apply wrap_bound; lia).
  pose proof (wrap_bound 64 (n * size) ltac:(lia)) as Ht. set (total := u64 (n * size)) in *. cbn [boot_blocks]. unfold co_calloc. rewrite Hd. cbn [orb]. fold total. rewrite (wrap_small 64 (k_off c + total)) by lia.
  set (c' := mkCo _ _ _ _ (k_off c + total)). destruct (IH c' ltac:(done) ltac:(cbn; lia) ltac:(cbn; lia)) as [S F]. rewrite Forall_forall in F.
  destruct (Z.leb_spec (k_off c + total) sizeof_calloc_buf); cbn [from_option app].
  - split; [constructor; [exact S|]; apply Forall_forall; intros b Hb; destruct (F b Hb) as [F1 _]; cbn in *; lia|]. constructor; [cbn; lia|]. apply Forall_forall. intros b Hb. destruct (F b Hb) as [F1 F2]. cbn in F1. lia.
  - split; [exact S|]. apply Forall_forall. intros b Hb. destruct (F b Hb) as [F1 F2]. cbn in F1. lia.
Qed.

(** A product that is almost 2^64 is accepted, and blocks are not aligned. *)
Lemma boot_calloc_wraps buf : boot_blocks buf [(1, 16); (1, 2 ^ 64 - 8)] (mkCo None false true false 0) = [(buf + 0, 16); (buf + 16, 2 ^ 64 - 8)].
Proof. reflexivity. Qed.

Lemma boot_calloc_unaligned buf : boot_blocks buf [(1, 5); (1, 8)] (mkCo None false true false 0) = [(buf + 0, 5); (buf + 5, 8)].
Proof. reflexivity. Qed.
End CompressOnly.

(** ** A weak exchange *)

Definition co_after (l : list (Z * bool)) (s : Threads) : Threads :=
  foldl (fun s x => let r := track_next 12 x.2 (pc_of s x.1) (shared s) in mkThreads (<[x.1 := r.1]> (pcs s)) r.2) s l.

Lemma co_after_reaches weak l : Forall (fun x : Z * bool => x.2 = true -> weak = true) l -> forall s, rtc (co_step 12 weak) s (co_after l s).
Proof. induction 1 as [|[th sp] l H _ IH]; intros s; [apply rtc_refl|]. eapply rtc_l; [by apply (co_go 12 weak s th sp)|]. apply IH. Qed.

(** Two threads track the same page. *)
Definition racing : Threads := mkThreads (<[2 := Probing 4096 0]> (<[1 := Probing 4096 0]> ∅)) (mkPT ∅ 0).

Lemma racing_reachable weak : co_reachable 12 weak racing.
Proof. eapply rtc_l; [apply (co_begin 12 weak co_start 1 4096); done|]. eapply rtc_l; [apply (co_begin 12 weak _ 2 4096); done|]. apply rtc_refl. Qed.

(** With a weak exchange, as the code has it, one failure for no reason puts the
    page into the next slot; the next call puts it into the first as well, and it
    is counted twice. *)
Definition twice : Threads :=
  co_after [(1, false); (1, true); (1, false); (1, false); (1, false); (2, false); (2, false); (2, false)] racing.

Lemma weak_exchange_duplicates : co_reachable 12 true twice /\ rd 0 (slots (shared twice)) 1 = 4096 /\ rd 0 (slots (shared twice)) 2 = 4096 /\ tracked (shared twice) = 2.
Proof.
  split; [|split; [reflexivity|split; reflexivity]]. eapply rtc_trans; [apply racing_reachable|].
  apply co_after_reaches. repeat (constructor; [done|]). constructor.
Qed.
